(* ===== verification/_CoqProject ===== *)
-Q . S2P
Prelude.v
GoStd.v
Order.v
Netip.v
Base36.v
Coverage.v
RawScan.v
PageScan.v
Sha256.v
CtlogParse.v
CtlogClient.v
FileSys.v
Writer.v
Partition.v
Regexp.v
Float.v
Issuers.v
Fetch.v
Archive.v
ServiceV2.v
Archiver.v
Sql.v
SubjectDB.v
Dedup.v
DedupLive.v
Seal.v
FlushFrame.v
RowsFrame.v
Progress.v
Ctlist.v
LogClient.v
Leaf.v
Worker.v
Catalog.v
WorkerSafe.v
System.v
SystemSeq.v
SystemSafe.v
Demo.v
WorkerLive.v
Ingest.v
ReverseIP.v
IpKeys.v
IpNames.v
ReverseIPLookup.v
IpRange.v
IpIndex.v
Heap.v
Export.v
ExportMerge.v
ExportCount.v
ExportMain.v
RawSan.v
RowCell.v
Repartition.v
RepartitionExact.v
RepartitionSafe.v
ReverseSAN.v
SanIndex.v
Dnsfetch.v
DnsWriter.v
DnsFeed.v
IngestLog.v
IngestLogSafe.v
IngestLogLive.v
IngestLogRows.v
IngestLogMain.v
Remerge.v
RemergeSafe.v
RemergeLive.v
Migrate.v
Metrics.v
Monitor.v
MonitorLog.v
MonitorPanels.v
