(* ===== verification/Prelude.v ===== *)
(** * proto-ct: a verification library

    proto-ct downloads Certificate Transparency logs. Two generations of it share
    the repository: the ingestion service of internal/ingestion, which extracts a
    row per certificate into monthly SQLite databases, and the archiver of
    internal/ctv2, which stores the log entries themselves in write-once partition
    files. Around the databases stand commands that index, export, migrate and
    resolve what was ingested. This library models both generations and the
    commands that hold logic of their own, and proves what they promise.

    ** How the program fits together

    - Ingestion. A [LogClient] (internal/ctlog) turns a log's tiles or get-entries
      pages into leaves; a leaf becomes a row (processLogLeaf); rows go to the
      current pool of month databases (SubjectDBPool); a cursor in progress.db
      advances after the insert. A rollover swaps the pool; the retired pool is
      flushed into the archive behind a dedup set on the SSD (FlushAll,
      FlushMonthDeduped); a month that is over is sealed (SealMonth).
    - Archiver. A range fetcher turns a log's entries into batches; the batch sink
      cuts them into one-day runs and writes each as an immutable file through a
      [Writer], the issuer certificates first. Coverage, lookup and verification
      read the archive back from its file names and contents.
    - Commands. reindex builds reverse indexes of the databases, sharded or not;
      export counts names by an external sort; rawscan does the same from raw
      database pages; repartition migrates an older layout; remerge-pools and
      migrate-archive drain and prepare the archive; dnsfetch resolves the
      exported names; monitor follows an ingestion and a DNS fetch by the logs and
      the progress database they leave.

    ** How the code is modelled

    - Values. [int], [int64] and [uint64] are [Z], with [wrap64] and its kin
      written at every operation whose result can leave the range of the type;
      [[]byte] is [list Byte.byte], a Go string is a byte string, a map is a
      [gmap] or, where the code ranges over it, a list with the iteration order as
      a parameter. SHA-256 and hexadecimal are executable (Sha256.v).
    - Floats. [float64] is the binary64 of the Standard Library's SpecFloat, with
      the conversions, operations and roundings of [%.nf] that the reports use
      (Float.v); a regular expression is its list of items, matched as Go's
      leftmost-first search does (Regexp.v).
    - Results. [res] is a value, an error return or a run-time panic (index out of
      range, negative make). Errors keep the sentinels the code compares with.
    - Files (FileSys.v). A program over the file system is a tree of system calls,
      so that [run] executes it alone and [pool_step] interleaves the trees of
      several goroutines. Each call may succeed, fail without effect, write a part
      and fail, or be the last before the machine stops; the faults are a list in
      the state, and theorems quantify over it.
    - Databases (Sql.v). The SQL of the source is translated statement by
      statement. In the monad [M] each statement or file operation consumes an
      outcome: [Done], [Failed] or [Crashed] (nothing runs afterwards; the result
      is [Panic] and the store is what it was). A statement and a transaction are
      atomic, as SQLite's are with a journal; where the code sets journal_mode=OFF
      (the rebuilds of SubjectDB.v, the migration of Repartition.v) what fails or
      dies in a transaction leaves the file [Torn]. Dnsfetch.v and Repartition.v
      give their databases, whose transactions span many calls, a store of their
      own in the same style.
      [wp] is the weakest precondition of [M] with one postcondition for a return
      and one for a crash; the invariants are proved with it for every list of
      outcomes, the progress theorems with [quiet], its reading without failures.
    - Concurrency. The issuer store's goroutines interleave at every system call
      (Issuers.v). The ingestion workers, the rollover and the flush worker
      interleave call by call (System.v): a page's issuers, its rows and the load of
      the pool, the opening of each month, Begin, Commit and the progress are steps
      of their own; a flush holds its pool's lock, closes, archives and removes one
      month per step, and a transaction begun before the close commits into a file
      that may be gone. With nothing in between these steps are the functions
      worker_store and FlushAll (SystemSeq.v). A fetcher's workers are the orders in
      which their batches reach the sink.

    ** The files

    Foundations: Prelude (errors, [res], integer widths, tactics, the hint
    databases), GoStd (strings, strconv, fmt, time formats), Order (comparisons as
    a class; sorting), Netip (net/netip), Sha256, Heap (container/heap), Regexp
    (regexp), Float (float64), FileSys, Sql.

    internal/ctv2: Base36 (base36.go), Coverage (coverage.go), Writer (writer.go:
    the interface as a class with laws, the local and the gzip writer as
    instances), Partition (partition.go, fetch.go), Issuers (issuer_store.go),
    Fetch (record.go, fetch_static.go, fetch_tiles.go, fetch_rfc6962.go), Archive
    (verify.go, resolve.go, roots.go, subjects.go), ServiceV2 (service.go,
    maploglist.go), Archiver (the constructors of the fetchers and the handlers
    put together).

    internal/ctlog and internal/ctlist: CtlogParse (tile.go, rfc6962_parse.go),
    CtlogClient (client.go, rfc6962_client.go), LogClient (log_client.go), Ctlist
    (log_list.go, refresh.go).

    internal/db: RawScan (rawscan.go), SubjectDB (db.go), Dedup with DedupLive,
    Seal, FlushFrame and RowsFrame (dedup.go and the flushes of db.go), Progress
    (progress.go and the issuers of db.go).

    internal/ingestion: Leaf (the row of an entry), Catalog (the selection of
    logs), Worker with WorkerSafe and WorkerLive (runLogWorker), System with
    SystemSeq, SystemSafe and Ingest (IngestAll), IngestLog with IngestLogSafe,
    IngestLogLive, IngestLogRows and IngestLogMain (service.go), Metrics (metrics.go, and Check of service.go).
    Demo is the small log of their witnesses.

    cmd and tools: ReverseIP with IpKeys, IpNames, ReverseIPLookup, IpRange and
    IpIndex, ReverseSAN with SanIndex (cmd/reindex); Export with ExportMerge,
    ExportCount and ExportMain (cmd/export); PageScan and RawSan (tools/rawscan);
    RowCell, Repartition, RepartitionExact and RepartitionSafe (cmd/repartition);
    Dnsfetch with DnsWriter and DnsFeed (cmd/dnsfetch); Remerge with RemergeSafe,
    RemergeLive and Migrate (cmd/remerge-pools, cmd/migrate-archive); Monitor with
    MonitorLog and MonitorPanels (cmd/monitor, internal/dashboard, and the log
    lines of cmd/dnsfetch).

    ** What the theorems show

    - Nothing is lost. FlushAll (Dedup.flush_all_wp and the properties of
      DedupLive), sealing (Seal), a drain of left-over pools (RemergeSafe), a
      session of IngestLog (IngestLogMain) and the whole ingestion system (Ingest)
      keep every acknowledged row on disk, or have
      logged its loss, for every list of outcomes — IngestLog with the entry's
      columns in the row, the whole system but for a transaction that a flush
      overtakes; a dnsfetch writer stores whole items (DnsWriter); a repartition
      keeps the databases it has not torn well-formed, and tears none unless a call
      fails (RepartitionSafe); the archiver's files are complete or absent (Writer,
      Partition), a whole RFC 6962 fetch leaves no dangling issuer fingerprint
      (Fetch), and the catalog's snapshot is never torn (Ctlist).
    - Something happens. Without failures FlushAll archives the pool, a drain
      empties every pool (RemergeLive), a worker
      reaches the tree size, a session of IngestLog reaches the last tile,
      dnsfetch resolves every name once (for at most 128 shards and a million
      staged names), and a fetch without an error has archived its range — of a
      static log up to where the client's iterator may stop, its last complete tile
      (DedupLive, WorkerLive, IngestLogLive, DnsFeed, Fetch).
    - The parts fit. A range that GetLogEntries has answered for is a range that
      CheckCoverage reports as stored, for every protocol and either writer
      (Archiver); the monitor reads back what a DNS fetch and an ingestion printed
      (MonitorLog, MonitorPanels).
    - The outputs are exact. Coverage statistics, the parsers and the clients of
      the log protocols, the verification verdict, the exporter, the raw scanners,
      the migration and both reverse indexes equal a specification by lists and
      sets; sharded and unsharded lookups, and cursor and page scans, agree.
    - Refinement. log_runs refines a map of cursors (Progress); both ways of
      sealing refine keep-the-first-row (Seal); round trips hold for the wire
      formats, the base-36 numerals and the partition names.

    Findings are lemmas beside the definitions they concern, each an execution of
    the code on a concrete input.

    ** Fuel

    Loops that are not structural take fuel, and each file proves that the fuel
    its callers pass is enough. The parsers' loops take one more than the bytes to
    read, and every turn consumes one. FetchEntries takes one more than the
    entries asked for. The appends of a flush take one turn per batch of rowids
    and two more. kMerge takes the bytes of its inputs, of which every line has
    one; a heap's sifts take its length. The feeder takes one more than the bytes
    of a shard file. A worker and a session of IngestLog run as long as the log
    grows, so their fuel is the caller's: worker_catches_up gives the number of
    turns after which the cursor stands at the tree size, and ingest_log_ends
    bounds the tiles of a session by its target, or by the first absent tile.

    ** Parameters

    Code outside src/ is a parameter, with what the program relies on as named
    hypotheses and a concrete instance in the witnesses: the protobuf and JSON
    codecs, base64 and gzip, the x509 parsers and signature checks, HTTP and the
    log client libraries, the public suffix list, strings.ToLower and TrimSpace,
    the sort command, SQLite's reading of a path as a URI, clocks, process ids and
    the iteration order of Go maps.

    ** Not modelled

    - Power loss after an acknowledged write, WAL side files, the other pragmas and
      the ALTER TABLE migrations of old schemas: the store has no notion of them.
    - gen/ is generated from proto/. The server commands register the services of
      internal/ and listen; the client commands turn each flag set into one call
      and print the answer: neither keeps a state.
    - Of cmd/monitor and internal/dashboard, the tables of rows padded and
      coloured for a terminal and the redraw loop with its signals.
    - Of IngestAll, the directories made at start-up and the stream of events; of
      cmd/reindex, cmd/export and cmd/repartition, flags and log lines. Of
      roots.go, fetchRoots is one call of the client library.
    - The timing of rate limiters, back-off pauses and tickers: the models let a
      tick or a rollover happen at any point. *)

From Stdlib Require Export ZArith Lia String Ascii Strings.Byte.
From stdpp Require Export base list gmap strings pretty sorting relations.
#[global] Open Scope string_scope.
#[global] Open Scope list_scope.
#[global] Open Scope Z_scope.

(** stdpp blocks the unfolding of string append; the proofs here need it. *)
#[global] Arguments String.append !_ _ / : simpl nomatch.

(** ** Notation scope of the development *)

Declare Scope go_scope.
Delimit Scope go_scope with go.
#[global] Open Scope go_scope.

(** ** Go errors

    [Errorf] is [errors.New] or [fmt.Errorf] without a wrapped error, [Wrap]
    is [fmt.Errorf] with the [%w] verb; the other constructors are the
    sentinel errors the code compares with ([io.EOF], [io.ErrUnexpectedEOF],
    [os.ErrNotExist], [sql.ErrNoRows], [context.Canceled]), the
    [httpError] type of internal/ctlog/client.go and a failed system call. *)
Inductive error :=
| Errorf (msg : string)
| Wrap (msg : string) (e : error)
| EOF
| ErrUnexpectedEOF
| ErrNotExist
| ErrNoRows
| ErrCanceled
| ErrSyscall
| HTTPError (code : Z) (url : string).

(** The outcome of a Go function: a value, an error return or a run-time
    panic (index out of range, negative make length). *)
Inductive res (A : Type) :=
| Ok (a : A)
| Err (e : error)
| Panic.
Arguments Ok {A} _.
Arguments Err {A} _.
Arguments Panic {A}.

Definition bind_res {A B} (m : res A) (k : A -> res B) : res B :=
  match m with
  | Ok a => k a
  | Err e => Err e
  | Panic => Panic
  end.

(** [if err != nil { return ..., fmt.Errorf("msg: %w", err) }] *)
Definition wrap_err {A} (msg : string) (m : res A) : res A :=
  match m with
  | Ok a => Ok a
  | Err e => Err (Wrap msg e)
  | Panic => Panic
  end.

Notation "'let?' p := m 'in' k" := (bind_res m (fun p => k))
  (at level 10, p pattern, m at level 100, k at level 200) : go_scope.

Definition is_ok {A} (m : res A) : bool :=
  match m with Ok _ => true | _ => false end.

(** ** Machine integers

    [int] and [int64] are [Z] with two's-complement wrap-around after every
    operation that can leave the range; [uint64] and [uint32] are residues. *)

Definition two64 : Z := 18446744073709551616.
Definition max_int64 : Z := 9223372036854775807.
Definition min_int64 : Z := -9223372036854775808.

Definition wrap64 (z : Z) : Z := (z + 9223372036854775808) mod two64 - 9223372036854775808.

Definition wrap_u64 (z : Z) : Z := z mod two64.

Definition wrap_u32 (z : Z) : Z := z mod 4294967296.

Definition int64_range (z : Z) : Prop := min_int64 <= z <= max_int64.

Create HintDb goints.

Lemma wrap64_id z : int64_range z -> wrap64 z = z.
Proof.
  unfold int64_range, wrap64, two64, min_int64, max_int64. intros H.
  rewrite Z.mod_small; lia.
Qed.

Lemma wrap64_range z : int64_range (wrap64 z).
Proof.
  unfold int64_range, wrap64, two64, min_int64, max_int64.
  pose proof (Z.mod_pos_bound (z + 9223372036854775808) 18446744073709551616). lia.
Qed.

Lemma wrap_u64_range z : 0 <= wrap_u64 z < two64.
Proof. apply Z.mod_pos_bound. unfold two64. lia. Qed.

#[export] Hint Resolve wrap64_range wrap_u64_range : goints.

(** [go_lia]: linear arithmetic with the integer bounds unfolded. *)
Ltac go_lia := unfold int64_range, min_int64, max_int64, two64 in *; lia.

(** Linear arithmetic with division and remainder by constants. *)
Ltac div_lia := Z.to_euclidean_division_equations; lia.

(** Rewrite a [wrap64] away when its argument is in range. *)
Ltac nowrap := repeat (rewrite wrap64_id by go_lia).

(** A shift and a disjoint or are an addition. *)
Lemma lor_shiftl_add v x k :
  0 <= k -> 0 <= x < 2 ^ k -> Z.lor (Z.shiftl v k) x = v * 2 ^ k + x.
Proof.
  intros Hk Hx. rewrite <- Z.add_nocarry_lor; [by rewrite Z.shiftl_mul_pow2|].
  apply Z.bits_inj'. intros i Hi. rewrite Z.land_spec, Z.bits_0.
  destruct (Z.ltb_spec i k).
  - by rewrite Z.shiftl_spec_low.
  - rewrite <- (Z.mod_small x (2 ^ k)), Z.mod_pow2_bits_high by lia. apply andb_false_r.
Qed.

(** Split conjunctions and existentials in the context. *)
Ltac destr_hyps :=
  repeat match goal with
  | H : _ /\ _ |- _ => destruct H
  | H : exists _, _ |- _ => destruct H
  end.

(** ** Generic list lemmas *)

Lemma Forall_last {A} (P : A -> Prop) l x : Forall P (l ++ [x]) <-> Forall P l /\ P x.
Proof. rewrite Forall_app, Forall_singleton. done. Qed.

Lemma take_seqZ k m n : Z.of_nat k <= n -> take k (seqZ m n) = seqZ m (Z.of_nat k).
Proof.
  intros H. replace n with (Z.of_nat k + (n - Z.of_nat k)) by lia. rewrite seqZ_app by lia.
  apply take_app_length'. rewrite length_seqZ. lia.
Qed.
