(* ===== verification/GoStd.v ===== *)
(** The parts of the Go standard library the modelled code uses: [strings],
    [strconv]/[fmt] of integers. Go strings are [String.string]
    (byte strings), [[]byte] is [list Byte.byte]. *)

From S2P Require Import Prelude.

Abbreviation bytes := (list Byte.byte).

#[export] Instance byte_eq_decision : EqDecision Byte.byte := Byte.byte_eq_dec.

#[export] Program Instance byte_countable : Countable Byte.byte :=
  inj_countable Byte.to_N Byte.of_N _.
Next Obligation. intros x. apply Byte.of_to_N. Qed.

(** ** package strings *)

Definition has_suffix (s suf : string) : bool :=
  (String.length suf <=? String.length s)%nat &&
  String.eqb (String.substring (String.length s - String.length suf) (String.length suf) s) suf.

Definition trim_suffix (s suf : string) : string :=
  if has_suffix s suf then String.substring 0 (String.length s - String.length suf) s else s.

Definition has_prefix (s pre : string) : bool := String.prefix pre s.

Definition trim_prefix (s pre : string) : string :=
  if has_prefix s pre
  then String.substring (String.length pre) (String.length s - String.length pre) s
  else s.

(** [strings.IndexByte]: the first position of [c], or -1. *)
Fixpoint index_byte_from (i : Z) (s : string) (c : ascii) : Z :=
  match s with
  | EmptyString => -1
  | String a s' => if Ascii.eqb a c then i else index_byte_from (i + 1) s' c
  end.

Definition index_byte (s : string) (c : ascii) : Z := index_byte_from 0 s c.

(** [s[:i]] and [s[i:]] for an index in range. *)
Definition str_take (i : Z) (s : string) : string := String.substring 0 (Z.to_nat i) s.

Definition str_drop (i : Z) (s : string) : string :=
  String.substring (Z.to_nat i) (String.length s - Z.to_nat i) s.

(** [fmt.Sprintf("%d", n)] *)
Definition dec (n : Z) : string := pretty n.

(** [err.Error()]; the text of a system error is left open by its one name. *)
Fixpoint error_text (e : error) : string :=
  match e with
  | Errorf m => m
  | Wrap m e => (m +:+ ": " +:+ error_text e)%string
  | EOF => "EOF"
  | ErrUnexpectedEOF => "unexpected EOF"
  | ErrNotExist => "file does not exist"
  | ErrNoRows => "sql: no rows in result set"
  | ErrCanceled => "context canceled"
  | ErrSyscall => "system error"
  | HTTPError code url => ("HTTP " +:+ dec code +:+ " for " +:+ url)%string
  end.

(** The value of a string of decimal digits. *)
Definition digit_val (c : ascii) : Z := Z.of_N (N_of_ascii c) - 48.

Definition is_digit (c : ascii) : bool := (48 <=? Z.of_N (N_of_ascii c)) && (Z.of_N (N_of_ascii c) <=? 57).

Fixpoint dec_val (acc : Z) (s : string) : Z :=
  match s with
  | EmptyString => acc
  | String c s' => dec_val (10 * acc + digit_val c) s'
  end.

(** All characters of a string satisfy a boolean predicate. *)
Fixpoint str_forallb (f : ascii -> bool) (s : string) : bool :=
  match s with
  | EmptyString => true
  | String a s' => f a && str_forallb f s'
  end.

(** [strings.Contains] *)
Fixpoint contains (s substr : string) : bool :=
  String.prefix substr s || match s with "" => false | String _ s' => contains s' substr end.

(** [strconv.ParseInt(v, 10, 64)] *)
Definition parse_int64 (v : string) : option Z :=
  let '(neg, digits) := match v with
                        | String "-" v => (true, v)
                        | String "+" v => (false, v)
                        | v => (false, v)
                        end in
  if String.eqb digits "" || negb (str_forallb is_digit digits) then None
  else let n := if neg then - dec_val 0 digits else dec_val 0 digits in
       if (min_int64 <=? n) && (n <=? max_int64) then Some n else None.

(** ** Lemmas *)

Lemma prefix_app a b : String.prefix a (a +:+ b) = true.
Proof. induction a as [|c a IH]; [by destruct b|]. cbn [String.append String.prefix]. destruct (ascii_dec c c); [done|congruence]. Qed.

Lemma str_app_nil_r s : (s +:+ "" = s)%string.
Proof. induction s; simpl; congruence. Qed.

Lemma str_app_assoc (a b c : string) : ((a +:+ b) +:+ c = a +:+ (b +:+ c))%string.
Proof. induction a; simpl; congruence. Qed.

Lemma str_length_app a b : String.length (a +:+ b) = (String.length a + String.length b)%nat.
Proof. induction a; simpl; congruence. Qed.

Lemma substring_0_all s : String.substring 0 (String.length s) s = s.
Proof. induction s; simpl; congruence. Qed.

Lemma substring_0_app a b : String.substring 0 (String.length a) (a +:+ b) = a.
Proof. induction a; simpl; [by destruct b | congruence]. Qed.

Lemma substring_app_skip a b n :
  String.substring (String.length a) n (a +:+ b) = String.substring 0 n b.
Proof. induction a; simpl; congruence. Qed.

Lemma substring_split s n :
  (n <= String.length s)%nat ->
  (String.substring 0 n s +:+ String.substring n (String.length s - n) s)%string = s.
Proof.
  revert n. induction s as [|c s IH]; intros n Hn; simpl in *.
  - by replace n with 0%nat by lia.
  - destruct n as [|n]; simpl.
    + f_equal. apply substring_0_all.
    + f_equal. apply IH. lia.
Qed.

Lemma substring_app_skip_more a b k n :
  String.substring (String.length a + k) n (a +:+ b) = String.substring k n b.
Proof. induction a; simpl; congruence. Qed.

(** A suffix no longer than the end of a string is a suffix of that end. *)
Lemma has_suffix_app_le a b suf :
  (String.length suf <= String.length b)%nat -> has_suffix (a +:+ b) suf = has_suffix b suf.
Proof.
  intros H. unfold has_suffix. rewrite str_length_app.
  replace (String.length a + String.length b - String.length suf)%nat
    with (String.length a + (String.length b - String.length suf))%nat by lia.
  rewrite substring_app_skip_more. f_equal.
  destruct (Nat.leb_spec (String.length suf) (String.length b)); [|lia]. apply Nat.leb_le. lia.
Qed.

Lemma has_suffix_app a suf : has_suffix (a +:+ suf) suf = true.
Proof.
  unfold has_suffix. rewrite str_length_app.
  replace (String.length a + String.length suf - String.length suf)%nat with (String.length a) by lia.
  rewrite substring_app_skip, substring_0_all, String.eqb_refl.
  apply andb_true_intro. split; [apply Nat.leb_le; lia | done].
Qed.

Lemma trim_suffix_app a suf : trim_suffix (a +:+ suf) suf = a.
Proof.
  unfold trim_suffix. rewrite has_suffix_app, str_length_app.
  replace (String.length a + String.length suf - String.length suf)%nat with (String.length a) by lia.
  apply substring_0_app.
Qed.

Lemma has_suffix_inv s suf : has_suffix s suf = true -> s = (trim_suffix s suf +:+ suf)%string.
Proof.
  intros H. unfold trim_suffix. rewrite H.
  unfold has_suffix in H. apply andb_true_iff in H as [Hl%Nat.leb_le He%String.eqb_eq].
  rewrite <- He at 2.
  replace (String.length suf) with
    (String.length s - (String.length s - String.length suf))%nat at 3 by lia.
  symmetry. apply substring_split. lia.
Qed.

Lemma str_app_inj_l a b c : (a +:+ b = a +:+ c)%string -> b = c.
Proof. induction a; simpl; [done|]. intros [= H]. auto. Qed.

Lemma str_app_inj_r a b c : (a +:+ c = b +:+ c)%string -> a = b.
Proof.
  intros H. apply (f_equal (fun s => trim_suffix s c)) in H.
  by rewrite !trim_suffix_app in H.
Qed.

Lemma str_app_inj_len a b c d :
  String.length a = String.length b -> (a +:+ c = b +:+ d)%string -> a = b /\ c = d.
Proof.
  revert b. induction a as [|x a IH]; intros [|y b] Hl H; simpl in *; try lia; [done|].
  injection H as -> H. apply IH in H as [-> ->]; [done|lia].
Qed.

Lemma index_byte_from_shift s c i :
  index_byte_from i s c = -1 \/ i <= index_byte_from i s c.
Proof.
  revert i. induction s as [|a s IH]; intros i; simpl; [by left|].
  destruct (Ascii.eqb a c); [lia|]. specialize (IH (i + 1)). lia.
Qed.

Lemma str_forallb_app f a b :
  str_forallb f (a +:+ b) = str_forallb f a && str_forallb f b.
Proof. induction a; simpl; [done|]. rewrite IHa. by rewrite andb_assoc. Qed.

Lemma str_forallb_impl (f g : ascii -> bool) s :
  (forall c, f c = true -> g c = true) -> str_forallb f s = true -> str_forallb g s = true.
Proof.
  intros H. induction s as [|c s IH]; [done|]. cbn [str_forallb]. rewrite !andb_true_iff. intros [Hc Hs]. auto.
Qed.

(** A separator that does not occur in the prefix is found right after it. *)
Lemma index_byte_from_app a b c i :
  str_forallb (fun x => negb (Ascii.eqb x c)) a = true ->
  index_byte_from i (a +:+ String c b) c = i + Z.of_nat (String.length a).
Proof.
  revert i. induction a as [|x a IH]; intros i; simpl.
  - intros _. rewrite Ascii.eqb_refl. lia.
  - intros [Hx Ha]%andb_true_iff. apply negb_true_iff in Hx. rewrite Hx, IH by done. lia.
Qed.

Lemma index_byte_app a b c :
  str_forallb (fun x => negb (Ascii.eqb x c)) a = true ->
  index_byte (a +:+ String c b) c = Z.of_nat (String.length a).
Proof. intros H. unfold index_byte. rewrite index_byte_from_app by done. lia. Qed.

Lemma str_take_app a b : str_take (Z.of_nat (String.length a)) (a +:+ b) = a.
Proof. unfold str_take. rewrite Nat2Z.id. apply substring_0_app. Qed.

Lemma str_drop_app a b n :
  n = Z.of_nat (String.length a) -> str_drop n (a +:+ b) = b.
Proof.
  intros ->. unfold str_drop. rewrite Nat2Z.id, str_length_app, substring_app_skip.
  replace (String.length a + String.length b - String.length a)%nat with (String.length b) by lia.
  apply substring_0_all.
Qed.

(** Peel one more character than the prefix ([s[i+1:]] after a separator). *)
Lemma str_drop_sep a c b n :
  n = Z.of_nat (String.length a) + 1 -> str_drop n (a +:+ String c b) = b.
Proof.
  intros ->. change (String c b) with (String c "" +:+ b)%string.
  rewrite <- str_app_assoc. apply str_drop_app.
  rewrite str_length_app. simpl. lia.
Qed.

Create Rewrite HintDb gostr.
#[export] Hint Rewrite str_length_app trim_suffix_app has_suffix_app str_take_app : gostr.

(** ** Byte slices *)

Definition bval (b : Byte.byte) : Z := Z.of_N (Byte.to_N b).

(** [byte(z)]: truncation to 8 bits. *)
Definition byte_of (z : Z) : Byte.byte :=
  match Byte.of_N (Z.to_N (z mod 256)) with Some b => b | None => x00 end.

Definition blen (b : bytes) : Z := Z.of_nat (length b).

(** [b[i]] *)
Definition go_index (b : bytes) (i : Z) : res Z :=
  if i <? 0 then Panic
  else match b !! Z.to_nat i with Some x => Ok (bval x) | None => Panic end.

(** [b[lo:]] and [b[lo:hi]] of a slice whose capacity is its length. *)
Definition go_from (b : bytes) (lo : Z) : res bytes :=
  if (0 <=? lo) && (lo <=? blen b) then Ok (drop (Z.to_nat lo) b) else Panic.

Definition go_slice (b : bytes) (lo hi : Z) : res bytes :=
  if (0 <=? lo) && (lo <=? hi) && (hi <=? blen b)
  then Ok (take (Z.to_nat (hi - lo)) (drop (Z.to_nat lo) b)) else Panic.

(** [make([]byte, n)] panics for a negative length and for one above the
    address space (2^48 bytes on 64-bit platforms). *)
Definition make_ok (n : Z) : bool := (0 <=? n) && (n <=? 281474976710656).

(** Big-endian integers ([encoding/binary.BigEndian]). *)
Fixpoint be_val (b : bytes) (acc : Z) : Z :=
  match b with
  | [] => acc
  | x :: b' => be_val b' (acc * 256 + bval x)
  end.

Definition be (b : bytes) : Z := be_val b 0.

(** [n] bytes, most significant first. *)
Fixpoint be_bytes (n : nat) (z : Z) : bytes :=
  match n with
  | O => []
  | S n' => be_bytes n' (z / 256) ++ [byte_of z]
  end.

Lemma bval_range b : 0 <= bval b < 256.
Proof. unfold bval. pose proof (Byte.to_N_bounded b). lia. Qed.

Lemma bval_byte_of z : bval (byte_of z) = z mod 256.
Proof.
  unfold bval, byte_of. pose proof (Z.mod_pos_bound z 256 ltac:(lia)).
  destruct (Byte.of_N (Z.to_N (z mod 256))) as [b|] eqn:E.
  - apply Byte.to_of_N in E. rewrite E. lia.
  - apply Byte.of_N_None_iff in E. lia.
Qed.

Lemma byte_of_bval b : byte_of (bval b) = b.
Proof.
  unfold byte_of. rewrite Z.mod_small by apply bval_range.
  unfold bval. by rewrite N2Z.id, Byte.of_to_N.
Qed.

Lemma blen_nonneg b : 0 <= blen b.
Proof. unfold blen. lia. Qed.

Lemma blen_app a b : blen (a ++ b) = blen a + blen b.
Proof. unfold blen. rewrite length_app. lia. Qed.

Lemma length_be_bytes n z : length (be_bytes n z) = n.
Proof. revert z. induction n; intros z; simpl; [done|]. rewrite length_app, IHn. simpl. lia. Qed.

Lemma be_val_app a b acc : be_val (a ++ b) acc = be_val b (be_val a acc).
Proof. revert acc. induction a; intros acc; simpl; [done|]. apply IHa. Qed.

Lemma be_snoc a x : be (a ++ [x]) = be a * 256 + bval x.
Proof. unfold be. by rewrite be_val_app. Qed.

Lemma be_app a b : be (a ++ b) = be a * 256 ^ blen b + be b.
Proof.
  induction b as [|x b IH] using rev_ind; [rewrite app_nil_r; change (be []) with 0; change (blen []) with 0; lia|].
  rewrite app_assoc, !be_snoc, IH, blen_app. change (blen [x]) with 1.
  rewrite Z.pow_add_r by (apply blen_nonneg || lia). lia.
Qed.


Lemma be_be_bytes n z : 0 <= z < 256 ^ Z.of_nat n -> be (be_bytes n z) = z.
Proof.
  revert z. induction n as [|n IH]; intros z Hz.
  - simpl in *. unfold be. simpl. lia.
  - rewrite Nat2Z.inj_succ, Z.pow_succ_r in Hz by lia. cbn [be_bytes].
    rewrite be_snoc, bval_byte_of, IH.
    + pose proof (Z.div_mod z 256). lia.
    + split; [apply Z.div_pos; lia|]. apply Z.div_lt_upper_bound; lia.
Qed.

Lemma be_val_bound b acc :
  0 <= acc -> acc * 256 ^ blen b <= be_val b acc < (acc + 1) * 256 ^ blen b.
Proof.
  revert acc. induction b as [|x b IH]; intros acc Ha; simpl.
  - change (blen []) with 0. lia.
  - assert (blen (x :: b) = blen b + 1) as -> by (unfold blen; simpl; lia).
    rewrite Z.pow_add_r by (pose proof (blen_nonneg b); lia).
    pose proof (bval_range x). specialize (IH (acc * 256 + bval x) ltac:(lia)).
    pose proof (Z.pow_nonneg 256 (blen b) ltac:(lia)). nia.
Qed.

Lemma be_bound b : 0 <= be b < 256 ^ blen b.
Proof. unfold be. pose proof (be_val_bound b 0 ltac:(lia)). lia. Qed.

Lemma go_from_ok b lo : 0 <= lo <= blen b -> go_from b lo = Ok (drop (Z.to_nat lo) b).
Proof.
  intros H. unfold go_from.
  destruct (Z.leb_spec 0 lo); [|lia]. destruct (Z.leb_spec lo (blen b)); [done|lia].
Qed.

Lemma go_slice_ok b lo hi :
  0 <= lo <= hi -> hi <= blen b ->
  go_slice b lo hi = Ok (take (Z.to_nat (hi - lo)) (drop (Z.to_nat lo) b)).
Proof.
  intros H1 H2. unfold go_slice.
  destruct (Z.leb_spec 0 lo); [|lia]. destruct (Z.leb_spec lo hi); [|lia].
  destruct (Z.leb_spec hi (blen b)); [done|lia].
Qed.

Lemma go_index_ok b i : 0 <= i < blen b -> exists x, b !! Z.to_nat i = Some x /\ go_index b i = Ok (bval x).
Proof.
  intros H. unfold go_index, blen in *. destruct (Z.ltb_spec i 0); [lia|].
  destruct (lookup_lt_is_Some_2 b (Z.to_nat i)) as [x Hx]; [lia|].
  exists x. by rewrite Hx.
Qed.

(** ** Decimal strings *)

Lemma digit_val_char n : (n < 10)%N -> digit_val (pretty_N_char n) = Z.of_N n.
Proof.
  intros H. destruct n as [|p]; [done|]. by do 4 (destruct p as [p|p|]; try done; try lia).
Qed.

Lemma dec_val_go x s : dec_val 0 (pretty_N_go x s) = dec_val (Z.of_N x) s.
Proof.
  revert s. induction (N.lt_wf_0 x) as [x _ IH]; intros s.
  destruct (decide (0 < x)%N) as [Hx|Hx].
  - rewrite pretty_N_go_step by done. rewrite IH by (apply N.div_lt; lia). cbn [dec_val].
    rewrite digit_val_char by (apply N.mod_lt; lia). f_equal.
    rewrite N2Z.inj_div, N2Z.inj_mod. pose proof (Z.div_mod (Z.of_N x) 10). simpl Z.of_N. lia.
  - assert (x = 0)%N as -> by lia. by rewrite pretty_N_go_0.
Qed.

Lemma dec_pos p : dec (Zpos p) = pretty_N_go (Npos p) "".
Proof.
  unfold dec. change (pretty (Zpos p)) with (pretty (Npos p)).
  unfold pretty at 1, pretty_N. by rewrite decide_False.
Qed.

Lemma dec_val_dec n : 0 <= n -> dec_val 0 (dec n) = n.
Proof.
  intros H. destruct n as [|p|p]; [done| |lia]. by rewrite dec_pos, dec_val_go.
Qed.

Lemma is_digit_char n : (n < 10)%N -> is_digit (pretty_N_char n) = true.
Proof.
  intros H. destruct n as [|p]; [done|]. by do 4 (destruct p as [p|p|]; try done; try lia).
Qed.

Lemma go_digits x s : str_forallb is_digit s = true -> str_forallb is_digit (pretty_N_go x s) = true.
Proof.
  revert s. induction (N.lt_wf_0 x) as [x _ IH]; intros s Hs.
  destruct (decide (0 < x)%N) as [Hx|Hx].
  - rewrite pretty_N_go_step by done. apply IH; [apply N.div_lt; lia|]. cbn [str_forallb].
    by rewrite is_digit_char by (apply N.mod_lt; lia).
  - assert (x = 0)%N as -> by lia. by rewrite pretty_N_go_0.
Qed.

Lemma dec_digits n : 0 <= n -> str_forallb is_digit (dec n) = true.
Proof.
  intros H. destruct n as [|p|p]; [done| |lia]. rewrite dec_pos. by apply go_digits.
Qed.

Lemma dec_nonempty n : 0 <= n -> dec n <> "".
Proof. intros Hn E. pose proof (dec_val_dec n Hn) as H. rewrite E in H. cbn in H. subst n. discriminate E. Qed.
