(* ===== verification/Order.v ===== *)
(** Orders given by a three-way comparison, as SQL's ORDER BY and Go's sort
    package use them: their laws as a class, the lexicographic order of lists
    (memcmp, strings), of pairs, and the sorting of lists by them. *)

From S2P Require Import Prelude GoStd.

(** ** Definitions *)

(** A comparison that is a total order up to [Eq]. *)
Class Compare (A : Type) (cmp : A -> A -> comparison) : Prop := {
  cmp_opp x y : cmp y x = CompOpp (cmp x y);
  cmp_trans x y z : cmp x y <> Gt -> cmp y z <> Gt -> cmp x z <> Gt }.

(** … and [Eq] is equality. *)
Class CompareEq (A : Type) (cmp : A -> A -> comparison) : Prop := {
  cmp_ok :: Compare A cmp;
  cmp_eq x y : cmp x y = Eq -> x = y }.

Definition le_of {A} (cmp : A -> A -> comparison) (x y : A) : Prop := cmp x y <> Gt.
Definition lt_of {A} (cmp : A -> A -> comparison) (x y : A) : Prop := cmp x y = Lt.

#[export] Instance le_of_dec {A} (cmp : A -> A -> comparison) x y : Decision (le_of cmp x y).
Proof. unfold le_of. destruct (cmp x y); [left|left|right]; congruence. Defined.

#[export] Instance lt_of_dec {A} (cmp : A -> A -> comparison) x y : Decision (lt_of cmp x y).
Proof. unfold lt_of. destruct (cmp x y); [right|left|right]; congruence. Defined.

(** ORDER BY cmp *)
Definition sort_by {A} (cmp : A -> A -> comparison) (l : list A) : list A := merge_sort (le_of cmp) l.

(** First [c1], then [c2]. *)
Definition then_cmp (c1 c2 : comparison) : comparison := match c1 with Eq => c2 | _ => c1 end.

Definition pair_cmp {A B} (ca : A -> A -> comparison) (cb : B -> B -> comparison) (x y : A * B) : comparison :=
  then_cmp (ca x.1 y.1) (cb x.2 y.2).

Definition desc {A} (cmp : A -> A -> comparison) (x y : A) : comparison := cmp y x.

Definition by_key {A K} (key : A -> K) (cmp : K -> K -> comparison) (x y : A) : comparison := cmp (key x) (key y).

Fixpoint list_cmp {A} (cmp : A -> A -> comparison) (l k : list A) : comparison :=
  match l, k with
  | [], [] => Eq
  | [], _ :: _ => Lt
  | _ :: _, [] => Gt
  | x :: l, y :: k => then_cmp (cmp x y) (list_cmp cmp l k)
  end.

(** NULL sorts first. *)
Definition null_cmp {A} (cmp : A -> A -> comparison) (x y : option A) : comparison :=
  match x, y with
  | None, None => Eq
  | None, Some _ => Lt
  | Some _, None => Gt
  | Some x, Some y => cmp x y
  end.

(** Bytes as memcmp compares them. *)
Definition byte_cmp (x y : Byte.byte) : comparison := bval x ?= bval y.
Definition blob_cmp : bytes -> bytes -> comparison := list_cmp byte_cmp.

(** TEXT in the BINARY collation, and Go's string order. *)
Definition ascii_cmp (x y : ascii) : comparison := (N_of_ascii x ?= N_of_ascii y)%N.
Definition text_cmp (s t : string) : comparison := list_cmp ascii_cmp (list_ascii_of_string s) (list_ascii_of_string t).

#[export] Hint Mode Compare - ! : typeclass_instances.
#[export] Hint Mode CompareEq - ! : typeclass_instances.
#[global] Typeclasses Opaque then_cmp pair_cmp desc by_key list_cmp null_cmp byte_cmp blob_cmp ascii_cmp text_cmp.

(** ** Lemmas *)

Section Laws.

Context {A : Type} (cmp : A -> A -> comparison) `{!Compare A cmp}.

Lemma cmp_refl x : cmp x x = Eq.
Proof. pose proof (cmp_opp (cmp := cmp) x x) as H. by destruct (cmp x x). Qed.

#[export] Instance le_of_preorder : PreOrder (le_of cmp).
Proof.
  split; [intros x; unfold le_of; by rewrite cmp_refl|]. intros x y z. apply (cmp_trans (cmp := cmp)).
Qed.

#[export] Instance le_of_total : Total (le_of cmp).
Proof. intros x y. unfold le_of. rewrite (cmp_opp (cmp := cmp) x y). destruct (cmp x y); cbn; auto. Qed.

Lemma cmp_lt_gt x y : cmp x y = Lt <-> cmp y x = Gt.
Proof. rewrite (cmp_opp (cmp := cmp) x y). by destruct (cmp x y). Qed.

Lemma cmp_eq_sym x y : cmp x y = Eq -> cmp y x = Eq.
Proof. intros E. by rewrite (cmp_opp (cmp := cmp) x y), E. Qed.

Lemma le_lt_trans x y z : le_of cmp x y -> lt_of cmp y z -> lt_of cmp x z.
Proof.
  unfold le_of, lt_of. intros H1 H2. destruct (cmp x z) eqn:E; [..|done|].
  - apply cmp_eq_sym in E. destruct (cmp_trans (cmp := cmp) z x y); [congruence|done|by apply cmp_lt_gt].
  - apply cmp_lt_gt in E. destruct (cmp_trans (cmp := cmp) z x y); [congruence|done|by apply cmp_lt_gt].
Qed.

Lemma lt_le_trans x y z : lt_of cmp x y -> le_of cmp y z -> lt_of cmp x z.
Proof.
  unfold le_of, lt_of. intros H1 H2. destruct (cmp x z) eqn:E; [..|done|].
  - apply cmp_eq_sym in E. destruct (cmp_trans (cmp := cmp) y z x); [done|congruence|by apply cmp_lt_gt].
  - apply cmp_lt_gt in E. destruct (cmp_trans (cmp := cmp) y z x); [done|congruence|by apply cmp_lt_gt].
Qed.

Lemma le_both x y : le_of cmp x y -> le_of cmp y x -> cmp x y = Eq.
Proof. unfold le_of. rewrite (cmp_opp (cmp := cmp) x y). by destruct (cmp x y). Qed.

Lemma eq_cmp_l x y z : cmp x y = Eq -> cmp x z = cmp y z.
Proof.
  intros E. pose proof (cmp_eq_sym _ _ E) as E'.
  assert (H1 : le_of cmp x y) by (unfold le_of; congruence). assert (H2 : le_of cmp y x) by (unfold le_of; congruence).
  destruct (cmp y z) eqn:Ez.
  - apply le_both; [transitivity y|transitivity y]; try done; unfold le_of; [congruence|].
    by rewrite (cmp_eq_sym _ _ Ez).
  - by apply (le_lt_trans x y z).
  - apply cmp_lt_gt in Ez. apply cmp_lt_gt. by apply (lt_le_trans z y x).
Qed.

Lemma lt_irrefl x : ~ lt_of cmp x x.
Proof. unfold lt_of. by rewrite cmp_refl. Qed.

Lemma lt_le x y : lt_of cmp x y -> le_of cmp x y.
Proof. unfold lt_of, le_of. congruence. Qed.

Lemma sort_by_perm l : sort_by cmp l ≡ₚ l.
Proof. apply merge_sort_Permutation. Qed.

Lemma sort_by_sorted l : StronglySorted (le_of cmp) (sort_by cmp l).
Proof. apply StronglySorted_merge_sort; apply _. Qed.

Lemma elem_of_sort_by l x : x ∈ sort_by cmp l <-> x ∈ l.
Proof. by rewrite sort_by_perm. Qed.

End Laws.

#[export] Hint Resolve lt_le : core.

Lemma strict_unique {A} (cmp : A -> A -> comparison) `{!Compare A cmp} (l k : list A) :
  StronglySorted (lt_of cmp) l -> StronglySorted (lt_of cmp) k -> (forall x, x ∈ l <-> x ∈ k) -> l = k.
Proof.
  intros Hl Hk Hm. assert (Hnd : forall l, StronglySorted (lt_of cmp) l -> NoDup l).
  { intros l0. induction 1 as [|x l1 H IH Hx]; constructor; [|done]. rewrite Forall_forall in Hx. intros Hin. by apply (lt_irrefl cmp x), Hx. }
  apply (StronglySorted_unique_strong (lt_of cmp)); [|done|done|].
  - intros x y _ _ H1 H2. destruct (lt_irrefl cmp x). apply (lt_le_trans cmp x y x); [done|]. by apply lt_le.
  - apply NoDup_Permutation; auto.
Qed.

Lemma strict_eq {A} (cmp : A -> A -> comparison) `{!Compare A cmp} (l : list A) x y :
  StronglySorted (lt_of cmp) l -> x ∈ l -> y ∈ l -> cmp x y = Eq -> x = y.
Proof.
  intros Hl. revert x y. induction Hl as [|z l Hl IH Hz]; intros x y; [by intros ?%elem_of_nil|].
  rewrite Forall_forall in Hz. intros [->|Hx]%elem_of_cons [->|Hy]%elem_of_cons E; [done| | |by apply IH].
  - specialize (Hz y Hy). unfold lt_of in Hz. congruence.
  - specialize (Hz x Hx). apply cmp_eq_sym in E; [|done]. unfold lt_of in Hz. congruence.
Qed.

(** Sorting a list that is strictly sorted already. *)
Lemma sort_by_id {A} (cmp : A -> A -> comparison) `{!Compare A cmp} (l : list A) :
  StronglySorted (lt_of cmp) l -> sort_by cmp l = l.
Proof.
  intros Hl. apply (StronglySorted_unique_strong (le_of cmp)); [|apply sort_by_sorted; apply _| |apply sort_by_perm].
  - intros x y Hx Hy H1 H2. rewrite elem_of_sort_by in Hx. by eapply strict_eq; [..|by apply le_both].
  - induction Hl as [|x l _ IH Hx]; constructor; [done|]. eapply Forall_impl; [done|]. intros y. apply lt_le.
Qed.

(** *** Instances *)

#[export] Instance Z_compare : CompareEq Z Z.compare.
Proof.
  split; [split|]; [intros; apply Z.compare_antisym|intros x y z|apply Z.compare_eq].
  intros H1%Z.compare_ngt_iff H2%Z.compare_ngt_iff. apply Z.compare_ngt_iff. lia.
Qed.

#[export] Instance desc_compare {A} (cmp : A -> A -> comparison) : Compare A cmp -> Compare A (desc cmp).
Proof. intros [H1 H2]. split; unfold desc; [auto|]. intros x y z Hx Hy. by apply (H2 z y x). Qed.

#[export] Instance by_key_compare {A K} (key : A -> K) (cmp : K -> K -> comparison) : Compare K cmp -> Compare A (by_key key cmp).
Proof. intros [H1 H2]. split; unfold by_key; eauto. Qed.

Lemma then_cmp_ngt c1 c2 : then_cmp c1 c2 <> Gt <-> c1 = Lt \/ c1 = Eq /\ c2 <> Gt.
Proof. destruct c1; cbn; intuition congruence. Qed.

#[export] Instance pair_compare {A B} (ca : A -> A -> comparison) (cb : B -> B -> comparison) :
  Compare A ca -> Compare B cb -> Compare (A * B) (pair_cmp ca cb).
Proof.
  intros Ha Hb. split; unfold pair_cmp.
  - intros x y. rewrite (cmp_opp (cmp := ca) x.1 y.1), (cmp_opp (cmp := cb) x.2 y.2). by destruct (ca x.1 y.1).
  - intros x y z H1 H2. apply then_cmp_ngt in H1, H2. apply then_cmp_ngt.
    destruct H1 as [H1|[E1 H1]], H2 as [H2|[E2 H2]].
    + left. eapply (lt_le_trans ca); [done|by apply lt_le].
    + left. eapply (lt_le_trans ca); [done|]. unfold le_of. congruence.
    + left. by rewrite (eq_cmp_l ca _ _ _ E1).
    + right. split; [by rewrite (eq_cmp_l ca _ _ _ E1)|]. by eapply (cmp_trans (cmp := cb)).
Qed.

#[export] Instance list_compare {A} (cmp : A -> A -> comparison) : Compare A cmp -> Compare (list A) (list_cmp cmp).
Proof.
  intros Ha. split.
  - intros x. induction x as [|a x IH]; intros [|b y]; cbn; [done..|]. rewrite (cmp_opp (cmp := cmp) a b), IH.
    by destruct (cmp a b).
  - intros x. induction x as [|a x IH]; intros [|b y] [|c z] H1 H2; cbn in *; try done.
    apply then_cmp_ngt in H1, H2. apply then_cmp_ngt. destruct H1 as [H1|[E1 H1]], H2 as [H2|[E2 H2]].
    + left. eapply (lt_le_trans cmp); [done|by apply lt_le].
    + left. eapply (lt_le_trans cmp); [done|]. unfold le_of. congruence.
    + left. by rewrite (eq_cmp_l cmp _ _ _ E1).
    + right. split; [by rewrite (eq_cmp_l cmp _ _ _ E1)|]. by eapply IH.
Qed.

#[export] Instance null_compare {A} (cmp : A -> A -> comparison) : Compare A cmp -> Compare (option A) (null_cmp cmp).
Proof.
  intros Ha. split.
  - intros [x|] [y|]; cbn; try done. apply (cmp_opp (cmp := cmp)).
  - intros [x|] [y|] [z|]; cbn; try done. apply (cmp_trans (cmp := cmp)).
Qed.

Lemma list_cmp_eq {A} (cmp : A -> A -> comparison) : (forall x y, cmp x y = Eq -> x = y) ->
  forall l k, list_cmp cmp l k = Eq -> l = k.
Proof.
  intros Hc l. induction l as [|x l IH]; intros [|y k]; cbn; try done.
  destruct (cmp x y) eqn:E; cbn; try done. intros H. f_equal; auto.
Qed.

Lemma bval_inj x y : bval x = bval y -> x = y.
Proof. intros E. by rewrite <- (byte_of_bval x), E, byte_of_bval. Qed.

#[export] Instance byte_compare : Compare Byte.byte byte_cmp := by_key_compare bval Z.compare _.

#[export] Instance blob_compare : CompareEq bytes blob_cmp.
Proof.
  split; [by apply list_compare, byte_compare|]. apply list_cmp_eq. intros x y E%Z.compare_eq. by apply bval_inj.
Qed.

#[export] Instance text_compare : CompareEq string text_cmp.
Proof.
  assert (Hc : Compare ascii ascii_cmp).
  { split; [intros; apply N.compare_antisym|]. intros x y z H1%N.compare_ngt_iff H2%N.compare_ngt_iff.
    apply N.compare_ngt_iff. lia. }
  split; [by apply (by_key_compare list_ascii_of_string), list_compare|].
  intros x y E. apply list_cmp_eq in E.
  - by rewrite <- (string_of_list_ascii_of_string x), E, string_of_list_ascii_of_string.
  - clear. intros x y E%N.compare_eq. by rewrite <- (ascii_N_embedding x), E, ascii_N_embedding.
Qed.

Lemma pair_cmp_eq {A B} (ca : A -> A -> comparison) (cb : B -> B -> comparison) `{!CompareEq A ca, !CompareEq B cb} x y :
  pair_cmp ca cb x y = Eq -> x = y.
Proof.
  unfold pair_cmp. destruct (ca x.1 y.1) eqn:E1; cbn; try done. intros E2.
  apply (cmp_eq (cmp := ca)) in E1. apply (cmp_eq (cmp := cb)) in E2. destruct x, y. cbn in *. congruence.
Qed.

#[export] Instance pair_compare_eq {A B} (ca : A -> A -> comparison) (cb : B -> B -> comparison) :
  CompareEq A ca -> CompareEq B cb -> CompareEq (A * B) (pair_cmp ca cb).
Proof. intros Ha Hb. split; [apply _|]. intros x y. apply pair_cmp_eq; apply _. Qed.

(** memcmp on blobs of one length is the order of the numbers they write. *)
Lemma blob_cmp_be (x y : bytes) : length x = length y -> blob_cmp x y = (be x ?= be y).
Proof.
  revert y. induction x as [|a x IH] using rev_ind; intros y Hl.
  { destruct y; [done|discriminate]. }
  destruct y as [|b y _] using rev_ind; [rewrite length_app in Hl; cbn in Hl; lia|].
  rewrite !length_app in Hl. cbn in Hl. assert (Hxy : length x = length y) by lia.
  assert (Happ : blob_cmp (x ++ [a]) (y ++ [b]) = then_cmp (blob_cmp x y) (byte_cmp a b)).
  { clear -Hxy. revert y Hxy. induction x as [|c x IH]; intros [|d y] H; try discriminate; cbn.
    - by destruct (byte_cmp a b).
    - unfold blob_cmp in IH |- *. cbn. rewrite IH by (cbn in H; lia). by destruct (byte_cmp c d). }
  rewrite Happ, IH, !be_snoc by done. unfold byte_cmp. pose proof (bval_range a). pose proof (bval_range b).
  destruct (Z.compare_spec (be x) (be y)) as [E|E|E]; cbn; symmetry.
  - rewrite E. destruct (Z.compare_spec (bval a) (bval b)) as [E1|E1|E1]; rewrite ?E1;
      [apply Z.compare_refl|apply Z.compare_lt_iff; lia|apply Z.compare_gt_iff; lia].
  - apply Z.compare_lt_iff. lia.
  - apply Z.compare_gt_iff. lia.
Qed.
