(* ===== verification/Netip.v ===== *)
(** net/netip as cmd/reindex uses it: parsing of addresses and prefixes, the
    16-byte form of an address and the masking of a prefix. *)

From S2P Require Import Prelude GoStd.

(** ** Definitions *)

(** The first twelve bytes of an IPv4-mapped address. *)
Definition v4_mapped : bytes := repeat x00 10 ++ [xff; xff].

(** 4 bytes, or 16 bytes and a zone. *)
Inductive addr :=
| V4 (b : bytes)
| V6 (b : bytes) (zone : string).

Definition Is4 (a : addr) : bool := match a with V4 _ => true | V6 _ _ => false end.
Definition As16 (a : addr) : bytes := match a with V4 b => v4_mapped ++ b | V6 b _ => b end.
Definition mapped (k : bytes) : bool := bool_decide (take 12 k = v4_mapped).
Definition Is4In6 (a : addr) : bool := match a with V4 _ => false | V6 b _ => mapped b end.

(** *** Parsing *)

(** The decimal fields after [fields]: [val] is the current one, of [digits] digits. *)
Fixpoint ipv4_fields (s : string) (val digits : Z) (fields : bytes) : option bytes :=
  match s with
  | "" => if (length fields <? 3)%nat then None else Some (fields ++ [byte_of val])
  | String c s' =>
      if is_digit c then
        if (digits =? 1) && (val =? 0) then None
        else
          let val := val * 10 + digit_val c in
          if 255 <? val then None else ipv4_fields s' val (digits + 1) fields
      else if Ascii.eqb c "." then
        if (digits =? 0) || String.eqb s' "" then None
        else if (length fields =? 3)%nat then None
        else ipv4_fields s' 0 0 (fields ++ [byte_of val])
      else None
  end.

Definition hex_digit_val (c : ascii) : option Z :=
  let n := Z.of_N (N_of_ascii c) in
  if (48 <=? n) && (n <=? 57) then Some (n - 48)
  else if (97 <=? n) && (n <=? 102) then Some (n - 97 + 10)
  else if (65 <=? n) && (n <=? 70) then Some (n - 65 + 10)
  else None.

(** The hexadecimal digits a field starts with, at most four, and the rest. *)
Fixpoint hex_field (s : string) (off acc : Z) : option (Z * Z * string) :=
  match s with
  | "" => Some (acc, off, "")
  | String c s' =>
      match hex_digit_val c with
      | Some d => if 3 <? off then None else hex_field s' (off + 1) (acc * 16 + d)
      | None => Some (acc, off, s)
      end
  end.

(** The fields of an IPv6 address, two bytes a turn, at most eight turns; [ip]
    are the bytes so far, [ellipsis] where the "::" stood. *)
Fixpoint ipv6_fields (fuel : nat) (s : string) (ip : bytes) (ellipsis : option nat) : option (bytes * option nat * string) :=
  match fuel with
  | O => Some (ip, ellipsis, s)
  | S fuel =>
      match hex_field s 0 0 with
      | None => None
      | Some (acc, off, rest) =>
          if off =? 0 then None
          else match rest with
          | String "." _ =>
              if negb (bool_decide (is_Some ellipsis)) && negb (length ip =? 12)%nat then None
              else if (16 <? length ip + 4)%nat then None
              else match ipv4_fields s 0 0 [] with
                   | None => None
                   | Some b => Some (ip ++ b, ellipsis, "")
                   end
          | "" => Some (ip ++ be_bytes 2 acc, ellipsis, "")
          | String c s' =>
              let ip := ip ++ be_bytes 2 acc in
              if negb (Ascii.eqb c ":") then None
              else match s' with
              | "" => None
              | String c2 s2 =>
                  if Ascii.eqb c2 ":" then
                    match ellipsis with
                    | Some _ => None
                    | None => if String.eqb s2 "" then Some (ip, Some (length ip), "")
                              else ipv6_fields fuel s2 ip (Some (length ip))
                    end
                  else ipv6_fields fuel s' ip ellipsis
              end
          end
      end
  end.

(** The whole string must be used, and an ellipsis stand for something. *)
Definition ipv6_finish (ip : bytes) (ellipsis : option nat) (s : string) : option bytes :=
  if negb (String.eqb s "") then None
  else if (length ip <? 16)%nat then
    match ellipsis with
    | None => None
    | Some e => Some (take e ip ++ repeat x00 (16 - length ip) ++ drop e ip)
    end
  else match ellipsis with Some _ => None | None => Some ip end.

Definition ipv6_bytes (s : string) : option bytes :=
  match s with
  | String ":" (String ":" s') =>
      if String.eqb s' "" then Some (repeat x00 16)
      else match ipv6_fields 8 s' [] (Some 0%nat) with Some (ip, e, r) => ipv6_finish ip e r | None => None end
  | _ => match ipv6_fields 8 s [] None with Some (ip, e, r) => ipv6_finish ip e r | None => None end
  end.

Definition parseIPv6 (s : string) : option addr :=
  let i := index_byte s "%" in
  if i =? -1 then option_map (fun b => V6 b "") (ipv6_bytes s)
  else
    let zone := str_drop (i + 1) s in
    if String.eqb zone "" then None else option_map (fun b => V6 b zone) (ipv6_bytes (str_take i s)).

(** The first of '.', ':' and '%' decides the family. *)
Fixpoint addr_family (s : string) : option ascii :=
  match s with
  | "" => None
  | String c s' => if Ascii.eqb c "." || Ascii.eqb c ":" || Ascii.eqb c "%" then Some c else addr_family s'
  end.

Definition ParseAddr (s : string) : option addr :=
  match addr_family s with
  | Some "."%char => option_map V4 (ipv4_fields s 0 0 [])
  | Some ":"%char => parseIPv6 s
  | _ => None
  end.

(** *** Prefixes *)

Record prefix := mkPrefix { p_addr : addr; p_bits : Z }.

Fixpoint last_index_from (i : Z) (s : string) (c : ascii) (best : Z) : Z :=
  match s with
  | "" => best
  | String c' s' => last_index_from (i + 1) s' c (if Ascii.eqb c' c then i else best)
  end.
Definition last_index_byte (s : string) (c : ascii) : Z := last_index_from 0 s c (-1).

(** Decimal digits without a leading zero. *)
Definition parse_bits (s : string) : option Z :=
  if String.eqb s "" || negb (str_forallb is_digit s) then None
  else match s with
       | String "0" (String _ _) => None
       | _ => Some (dec_val 0 s)
       end.

Definition ParsePrefix (s : string) : option prefix :=
  let i := last_index_byte s "/" in
  if i <? 0 then None
  else match ParseAddr (str_take i s), parse_bits (str_drop (i + 1) s) with
       | Some a, Some bits =>
           match a with
           | V4 _ => if 32 <? bits then None else Some (mkPrefix a bits)
           | V6 _ zone => if negb (String.eqb zone "") then None else if 128 <? bits then None else Some (mkPrefix a bits)
           end
       | _, _ => None
       end.

(** The address bytes with everything below [bits] cleared. *)
Fixpoint mask_bytes (bits : Z) (b : bytes) : bytes :=
  match b with
  | [] => []
  | x :: b' => byte_of (Z.land (bval x) (255 - Z.ones (8 - Z.min 8 (Z.max 0 bits)))) :: mask_bytes (bits - 8) b'
  end.

Definition Masked (p : prefix) : prefix :=
  mkPrefix (match p_addr p with
            | V4 b => V4 (mask_bytes (p_bits p) b)
            | V6 b z => V6 (mask_bytes (p_bits p) b) z
            end) (p_bits p).

Example parse_addr_examples :
  ParseAddr "10.0.0.1" = Some (V4 [x0a; x00; x00; x01]) /\ ParseAddr "10.0.0.01" = None /\ ParseAddr "1.2.3" = None /\
  ParseAddr "::ffff:1.2.3.4" = Some (V6 (v4_mapped ++ [x01; x02; x03; x04]) "") /\ ParseAddr "1::2::3" = None /\
  ParseAddr "2001:db8::1%eth0" = Some (V6 ([x20; x01; x0d; xb8] ++ repeat x00 11 ++ [x01]) "eth0") /\
  ParseAddr "1:2:3:4:5:6:7:8:9" = None /\ ParseAddr "::" = Some (V6 (repeat x00 16) "") /\
  ParsePrefix "10.1.2.3/9" = Some (mkPrefix (V4 [x0a; x01; x02; x03]) 9) /\ ParsePrefix "10.0.0.0/08" = None /\
  p_addr (Masked (mkPrefix (V4 [x0a; xff; x02; x03]) 9)) = V4 [x0a; x80; x00; x00].
Proof. split_and!; vm_compute; reflexivity. Qed.
