(* ===== verification/Base36.v ===== *)
(** internal/ctv2/base36.go: the base-36 numerals used in partition file
    names. [encodeBase36] fills a 13-byte buffer from the right; the buffer
    index is the recursion measure, and running past the start of the buffer
    is a run-time panic of the Go code ([Panic]). *)

From S2P Require Import Prelude GoStd.

(** ** Definitions *)

Definition base36Alphabet : string := "0123456789abcdefghijklmnopqrstuvwxyz".

(** [for n > 0 { i--; buf[i] = base36Alphabet[n%36]; n /= 36 }], then
    [string(buf[i:])]; [acc] is [buf[i:]]. *)
Fixpoint encode_loop (i : nat) (n : Z) (acc : string) : res string :=
  if 0 <? n then
    match i, String.get (Z.to_nat (n mod 36)) base36Alphabet with
    | S i', Some c => encode_loop i' (n / 36) (String c acc)
    | _, _ => Panic
    end
  else Ok acc.

Definition encodeBase36 (n : Z) : res string :=
  if n <=? 0 then Ok "0" else encode_loop 13 n "".

Definition byte_val (c : ascii) : Z := Z.of_N (N_of_ascii c).

Definition digit36 (c : ascii) : option Z :=
  let b := byte_val c in
  if (48 <=? b) && (b <=? 57) then Some (b - 48)
  else if (97 <=? b) && (b <=? 122) then Some (b - 97 + 10)
  else None.

(** The [for _, c := range []byte(s)] loop; [n*36 + d] wraps like Go's int64. *)
Fixpoint decode_loop (s : string) (n : Z) : res Z :=
  match s with
  | EmptyString => Ok n
  | String c s' =>
      match digit36 c with
      | Some d => decode_loop s' (wrap64 (wrap64 (n * 36) + d))
      | None => Err (Errorf "invalid base36 digit")
      end
  end.

Definition decodeBase36 (s : string) : res Z :=
  if String.eqb s "" then Err (Errorf "empty base36 string") else decode_loop s 0.

(** *** Specification vocabulary *)

Definition is_digit36 (c : ascii) : bool := bool_decide (is_Some (digit36 c)).

(** The mathematical value of a digit string. *)
Fixpoint value36 (s : string) (n : Z) : Z :=
  match s with
  | EmptyString => n
  | String c s' => value36 s' (n * 36 + default 0 (digit36 c))
  end.

Definition canonical36 (s : string) : Prop :=
  s = "0" \/ exists c s', s = String c s' /\ c <> "0"%char.

(** ** Lemmas *)

Lemma alphabet_get d :
  0 <= d < 36 ->
  exists c, String.get (Z.to_nat d) base36Alphabet = Some c /\ digit36 c = Some d /\
            (c = "0"%char -> d = 0).
Proof.
  intros H.
  assert (Hall : forallb (fun k : nat =>
      match String.get k base36Alphabet with
      | Some c => match digit36 c with
                  | Some d => (d =? Z.of_nat k) && (negb (Ascii.eqb c "0") || (k =? 0)%nat)
                  | None => false end
      | None => false end) (seq 0 36) = true) by reflexivity.
  rewrite forallb_forall in Hall.
  specialize (Hall (Z.to_nat d) ltac:(apply in_seq; lia)).
  destruct (String.get (Z.to_nat d) base36Alphabet) as [c|]; [|done].
  destruct (digit36 c) as [d'|] eqn:Hd; [|done].
  apply andb_true_iff in Hall as [He%Z.eqb_eq Hz].
  exists c. split; [done|]. split; [rewrite Hd; f_equal; lia|].
  intros ->. simpl in Hz. apply Nat.eqb_eq in Hz. lia.
Qed.

Lemma digit36_range c d : digit36 c = Some d -> 0 <= d < 36.
Proof.
  unfold digit36. intros H. case_match; [|case_match]; simplify_eq;
  match goal with E : _ && _ = true |- _ => apply andb_true_iff in E as [?%Z.leb_le ?%Z.leb_le] end; lia.
Qed.

Lemma decode_loop_wrap s n :
  str_forallb is_digit36 s = true -> int64_range n ->
  decode_loop s n = Ok (wrap64 (value36 s n)).
Proof.
  assert (Hw : forall s a b, (a mod two64 = b mod two64) ->
            wrap64 (value36 s a) = wrap64 (value36 s b)).
  { clear. induction s as [|c s IH]; intros a b Hab; simpl.
    - unfold wrap64. rewrite (Z.add_mod a), (Z.add_mod b), Hab by (unfold two64; lia). done.
    - apply IH. rewrite (Z.add_mod (a * 36)), (Z.add_mod (b * 36)), (Z.mul_mod a), (Z.mul_mod b), Hab
        by (unfold two64; lia). done. }
  assert (Hm : forall z, wrap64 z mod two64 = z mod two64).
  { clear. intros z. unfold wrap64.
    rewrite Zminus_mod_idemp_l. f_equal. lia. }
  revert n. induction s as [|c s IH]; intros n Hs Hn; simpl in *.
  - by rewrite wrap64_id.
  - apply andb_true_iff in Hs as [Hc Hs].
    unfold is_digit36 in Hc. apply bool_decide_eq_true in Hc as [d Hd]. rewrite Hd. simpl.
    rewrite IH by (done || apply wrap64_range). f_equal. apply Hw.
    rewrite Hm, Z.add_mod, Hm, <- Z.add_mod by (unfold two64; lia). done.
Qed.

Lemma decode_loop_bad s n :
  str_forallb is_digit36 s = false -> decode_loop s n = Err (Errorf "invalid base36 digit").
Proof.
  revert n. induction s as [|c s IH]; intros n H; simpl in *; [done|].
  destruct (digit36 c) as [d|] eqn:Hd; [|done].
  apply IH. unfold is_digit36 in H. rewrite Hd in H.
  rewrite bool_decide_eq_true_2 in H by eauto. done.
Qed.

Lemma value36_app s t n : value36 (s +:+ t) n = value36 t (value36 s n).
Proof. revert n. induction s; intros n; simpl; [done|]. apply IHs. Qed.

Lemma value36_shift s n : value36 s n = n * 36 ^ Z.of_nat (String.length s) + value36 s 0.
Proof.
  revert n. induction s as [|c s IH]; intros n; simpl; [lia|].
  rewrite (IH (n * 36 + _)), (IH (0 * 36 + _)).
  rewrite Nat2Z.inj_succ, Z.pow_succ_r by lia. lia.
Qed.

(** What the encoding loop produces, for a buffer with enough room. *)
Lemma encode_loop_spec i n acc :
  0 <= n < 36 ^ Z.of_nat i ->
  exists s, encode_loop i n acc = Ok (s +:+ acc) /\
    str_forallb is_digit36 s = true /\ value36 s 0 = n /\ (String.length s <= i)%nat /\
    (0 < n -> exists c s', s = String c s' /\ c <> "0"%char).
Proof.
  revert n acc. induction i as [|i IH]; intros n acc Hn.
  - exists "". simpl in *. replace n with 0 by lia. repeat split; try done; try lia.
  - cbn [encode_loop]. destruct (Z.ltb_spec 0 n) as [Hpos|].
    2:{ exists "". replace n with 0 by lia. repeat split; simpl; try done; lia. }
    destruct (alphabet_get (n mod 36)) as (c & Hc & Hd & Hz);
      [apply Z.mod_pos_bound; lia|].
    rewrite Hc. rewrite Nat2Z.inj_succ, Z.pow_succ_r in Hn by lia.
    destruct (IH (n / 36) (String c acc)) as (s & Hs & Hf & Hv & Hl & Hh).
    { split; [apply Z.div_pos; lia|]. apply Z.div_lt_upper_bound; lia. }
    exists (s +:+ String c "")%string.
    rewrite Hs, str_app_assoc. simpl. split; [done|].
    rewrite str_forallb_app, Hf, value36_app, str_length_app, Hv. simpl.
    rewrite Hd. unfold is_digit36. rewrite Hd, bool_decide_eq_true_2 by eauto. simpl.
    split; [done|]. split; [pose proof (Z.div_mod n 36); lia|]. split; [lia|].
    intros _. destruct (decide (n / 36 = 0)) as [E|E].
    + rewrite E in *. destruct s as [|c' s']; simpl.
      * exists c, "". split; [done|]. intros ->. specialize (Hz eq_refl).
        pose proof (Z.div_mod n 36). lia.
      * assert (encode_loop i 0 (String c acc) = Ok (String c acc)) as H0 by (by destruct i).
        rewrite H0 in Hs.
        apply (f_equal (fun r => match r with Ok x => String.length x | _ => O end)) in Hs.
        simpl in Hs.
        rewrite str_length_app in Hs. simpl in Hs. lia.
    + destruct Hh as (c' & s' & -> & Hne).
      { pose proof (Z.div_pos n 36). lia. }
      exists c', (s' +:+ String c "")%string. done.
Qed.

Lemma encode_spec n :
  n <= max_int64 ->
  exists s, encodeBase36 n = Ok s /\ str_forallb is_digit36 s = true /\
    value36 s 0 = Z.max n 0 /\ (1 <= String.length s <= 13)%nat /\ canonical36 s.
Proof.
  intros Hn. unfold encodeBase36. destruct (Z.leb_spec n 0).
  - exists "0". change (value36 "0" 0) with 0. simpl.
    repeat split; try done; try lia. by left.
  - destruct (encode_loop_spec 13 n "") as (s & Hs & Hf & Hv & Hl & Hh); [unfold max_int64 in *; lia|].
    exists s. rewrite Hs, str_app_nil_r. destruct Hh as (c & s' & -> & Hne); [lia|].
    repeat split; try done; simpl in *; try lia. right. eauto.
Qed.

Lemma digits_no_dash s :
  str_forallb is_digit36 s = true -> str_forallb (fun x => negb (Ascii.eqb x "-")) s = true.
Proof.
  induction s as [|c s IH]; simpl; [done|]. intros [Hc Hs]%andb_true_iff.
  rewrite IH by done. destruct (Ascii.eqb_spec c "-") as [->|]; [|done].
  vm_compute in Hc. done.
Qed.

Lemma decode_encode n s :
  0 <= n <= max_int64 -> encodeBase36 n = Ok s -> decodeBase36 s = Ok n.
Proof.
  intros Hn Hs. destruct (encode_spec n) as (s' & Hs' & Hf & Hv & Hl & _); [lia|].
  rewrite Hs in Hs'. injection Hs' as <-.
  unfold decodeBase36. destruct (String.eqb_spec s "") as [->|_]; [simpl in Hl; lia|].
  rewrite decode_loop_wrap, Hv by (done || go_lia). rewrite wrap64_id by go_lia. f_equal. lia.
Qed.

(** ** Properties *)

(** For every non-negative int64 [n], [encodeBase36 n] returns (it never
    indexes before its 13-byte buffer) a canonical numeral of at most 13
    alphabet characters, and [decodeBase36] maps it back to [n]. *)
Theorem base36_roundtrip n :
  0 <= n <= max_int64 ->
  exists s, encodeBase36 n = Ok s /\ (String.length s <= 13)%nat /\
    str_forallb is_digit36 s = true /\ canonical36 s /\ decodeBase36 s = Ok n.
Proof.
  intros Hn. destruct (encode_spec n) as (s & Hs & Hf & _ & Hl & Hc); [lia|].
  exists s. repeat split; try done; [lia|]. by apply decode_encode.
Qed.

Lemma base36_roundtrip_witness :
  0 <= 9223372036854775807 <= max_int64 /\ exists s, encodeBase36 9223372036854775807 = Ok s /\
    (String.length s <= 13)%nat /\ str_forallb is_digit36 s = true /\ canonical36 s /\
    decodeBase36 s = Ok 9223372036854775807.
Proof.
  split; [unfold max_int64; lia|]. apply (base36_roundtrip 9223372036854775807).
  unfold max_int64. lia.
Defined.

(** Every branch of [decodeBase36]: the empty string and any string with
    a character outside [0-9a-z] are errors; every other string decodes,
    silently reduced modulo 2^64 into int64 (the loop has no overflow
    check), so it decodes to its value exactly when the value fits. *)
Theorem decode_characterisation s :
  (s = "" -> decodeBase36 s = Err (Errorf "empty base36 string")) /\
  (s <> "" -> str_forallb is_digit36 s = false ->
     decodeBase36 s = Err (Errorf "invalid base36 digit")) /\
  (s <> "" -> str_forallb is_digit36 s = true ->
     decodeBase36 s = Ok (wrap64 (value36 s 0)) /\
     (decodeBase36 s = Ok (value36 s 0) <-> int64_range (value36 s 0))).
Proof.
  unfold decodeBase36. split; [by intros ->|].
  split; intros Hs Hf; destruct (String.eqb_spec s "") as [|_]; try done.
  - by apply decode_loop_bad.
  - rewrite decode_loop_wrap by (done || go_lia). split; [done|]. split.
    + intros [= <-]. apply wrap64_range.
    + intros H. by rewrite wrap64_id.
Qed.

Lemma decode_characterisation_witness :
  decodeBase36 "1y2p0ij32e8e8" = Ok (-9223372036854775808) /\
  decodeBase36 "10" = Ok (value36 "10" 0).
Proof.
  split; [rewrite (proj1 (proj2 (proj2 (decode_characterisation "1y2p0ij32e8e8"))
             ltac:(discriminate) ltac:(reflexivity))); vm_compute; reflexivity|].
  apply (proj2 (proj2 (decode_characterisation "10")) ltac:(discriminate) ltac:(reflexivity)).
  vm_compute. split; discriminate.
Defined.
