(* ===== verification/Coverage.v ===== *)
(** internal/ctv2/coverage.go: parsing partition file names into index ranges
    and reducing a set of ranges to the coverage statistics that
    CheckCoverage reports. *)

From S2P Require Import Prelude GoStd Base36.

(** ** Definitions *)

(** A half-open entry-index interval [rstart, rend). *)
Record idxRange := mkRange { rstart : Z; rend : Z }.

#[export] Instance idxRange_eq_dec : EqDecision idxRange.
Proof. solve_decision. Defined.

Definition parseRangeFromName (name : string) : option idxRange :=
  let n := trim_suffix name ".gz" in
  if negb (has_suffix n ".binpb") then None else
  let n := trim_suffix n ".binpb" in
  let dash := index_byte n "-" in
  if dash <? 0 then None else
  match decodeBase36 (str_take dash n) with
  | Ok first =>
      match decodeBase36 (str_drop (dash + 1) n) with
      | Ok last =>
          if last <? first then None
          else Some (mkRange first (wrap64 (last + 1)))
      | _ => None
      end
  | _ => None
  end.

(** The order of the [sort.Slice] call: by start, then by end. *)
Definition range_le (a b : idxRange) : Prop :=
  rstart a < rstart b \/ (rstart a = rstart b /\ rend a <= rend b).

#[export] Instance range_le_dec a b : Decision (range_le a b).
Proof. unfold range_le. apply _. Defined.

Definition sort_ranges (rs : list idxRange) : list idxRange := merge_sort range_le rs.

(** One iteration of the merge loop; [merged] is kept last element first, so
    its head is the [last] pointer of the Go code. *)
Definition merge_step (merged : list idxRange) (r : idxRange) : list idxRange :=
  match merged with
  | last :: m =>
      if rstart r <=? rend last
      then if rend last <? rend r then mkRange (rstart last) (rend r) :: m else merged
      else r :: merged
  | [] => [r]
  end.

Definition merge_ranges (sorted : list idxRange) : list idxRange :=
  match sorted with
  | [] => []
  | r :: rest => reverse (foldl merge_step [r] rest)
  end.

Definition stored_total (merged : list idxRange) : Z :=
  foldl (fun acc r => wrap64 (acc + wrap64 (rend r - rstart r))) 0 merged.

Definition frontier_of (merged : list idxRange) : Z :=
  foldl (fun f r => if f <? rend r then rend r else f) 0 merged.

Fixpoint contiguous_loop (merged : list idxRange) (c : Z) : Z :=
  match merged with
  | [] => c
  | r :: m =>
      if rstart r <=? c
      then contiguous_loop m (if c <? rend r then rend r else c)
      else c
  end.

Fixpoint gaps_loop (bound : Z) (merged : list idxRange) (cursor : Z) : list idxRange :=
  match merged with
  | [] => if cursor <? bound then [mkRange cursor bound] else []
  | r :: m =>
      let gap := if (cursor <? rstart r) && (cursor <? bound)
                 then [mkRange cursor (Z.min (rstart r) bound)] else [] in
      gap ++ gaps_loop bound m (if cursor <? rend r then rend r else cursor)
  end.

Record summary := mkSummary {
  sm_stored : Z; sm_frontier : Z; sm_contiguous : Z; sm_gaps : list idxRange }.

Definition summarizeRanges (ranges : list idxRange) (treeSize : Z) : summary :=
  match ranges with
  | [] =>
      let bound := if 0 <? treeSize then treeSize else 0 in
      mkSummary 0 0 0 (if 0 <? bound then [mkRange 0 bound] else [])
  | _ :: _ =>
      let merged := merge_ranges (sort_ranges ranges) in
      let frontier := frontier_of merged in
      let bound := if 0 <? treeSize then treeSize else frontier in
      mkSummary (stored_total merged) frontier (contiguous_loop merged 0)
                (gaps_loop bound merged 0)
  end.

(** *** Specification vocabulary *)

Definition in_range (i : Z) (r : idxRange) : Prop := rstart r <= i < rend r.

(** Index [i] is stored by one of the ranges. *)
Definition covered (rs : list idxRange) (i : Z) : Prop := Exists (in_range i) rs.

(** What [parseRangeFromName] yields for the files the archiver writes. *)
Definition valid_range (r : idxRange) : Prop :=
  0 <= rstart r < rend r /\ rend r <= max_int64.

(** Non-empty, ascending, pairwise separated by at least one index, and
    starting after [lo]. *)
Fixpoint separated (lo : Z) (rs : list idxRange) : Prop :=
  match rs with
  | [] => True
  | r :: rs' => lo < rstart r < rend r /\ separated (rend r) rs'
  end.

Definition range_set (r : idxRange) : gset Z :=
  list_to_set (seqZ (rstart r) (rend r - rstart r)).

(** The set of all stored indices. *)
Definition stored_set (rs : list idxRange) : gset Z := ⋃ (range_set <$> rs).

Definition scan_bound (rs : list idxRange) (treeSize : Z) : Z :=
  if 0 <? treeSize then treeSize else sm_frontier (summarizeRanges rs treeSize).

(** ** Lemmas *)

#[export] Instance range_le_total : Total range_le.
Proof. intros a b. unfold range_le. lia. Qed.

#[export] Instance range_le_trans : Transitive range_le.
Proof. intros a b c. unfold range_le. lia. Qed.

#[export] Instance range_le_antisymm : AntiSymm (=) range_le.
Proof. intros [a1 a2] [b1 b2]. unfold range_le. simpl. intros ??. f_equal; lia. Qed.

Lemma sort_ranges_perm rs : sort_ranges rs ≡ₚ rs.
Proof. apply merge_sort_Permutation. Qed.

Lemma sort_ranges_sorted rs : StronglySorted range_le (sort_ranges rs).
Proof. apply StronglySorted_merge_sort; apply _. Qed.

(** The comparator is a total order, so the result of the (unstable) Go sort
    does not depend on the input order. *)
Lemma sort_ranges_unique rs rs' : rs ≡ₚ rs' -> sort_ranges rs = sort_ranges rs'.
Proof.
  intros H. apply (Sorted_unique range_le).
  - apply StronglySorted_Sorted, sort_ranges_sorted.
  - apply StronglySorted_Sorted, sort_ranges_sorted.
  - by rewrite !sort_ranges_perm.
Qed.

(** *** Covered indices *)

Lemma covered_nil i : covered [] i <-> False.
Proof. unfold covered. by rewrite Exists_nil. Qed.

Lemma covered_cons r rs i : covered (r :: rs) i <-> in_range i r \/ covered rs i.
Proof. unfold covered. by rewrite Exists_cons. Qed.

Lemma covered_app rs rs' i : covered (rs ++ rs') i <-> covered rs i \/ covered rs' i.
Proof. unfold covered. by rewrite Exists_app. Qed.

Lemma covered_perm rs rs' i : rs ≡ₚ rs' -> covered rs i <-> covered rs' i.
Proof. unfold covered. intros H. by rewrite H. Qed.

#[export] Instance covered_dec rs i : Decision (covered rs i).
Proof. apply Exists_dec. intros r. unfold in_range. apply _. Defined.

Lemma separated_weaken lo lo' rs : lo' <= lo -> separated lo rs -> separated lo' rs.
Proof. destruct rs; simpl; [done|]. intros ? [? ?]. split; [lia|done]. Qed.

Lemma separated_lower lo rs i : separated lo rs -> covered rs i -> lo < i.
Proof.
  revert lo. induction rs as [|r rs IH]; intros lo; [by rewrite covered_nil|].
  simpl. rewrite covered_cons. intros [Hr Hs] [Hi|Hi].
  - unfold in_range in Hi. lia.
  - specialize (IH _ Hs Hi). lia.
Qed.

(** *** The merge loop as a structural recursion *)

Fixpoint merge_from (cur : idxRange) (l : list idxRange) : list idxRange :=
  match l with
  | [] => [cur]
  | r :: l' =>
      if rstart r <=? rend cur
      then merge_from (if rend cur <? rend r then mkRange (rstart cur) (rend r) else cur) l'
      else cur :: merge_from r l'
  end.

Lemma merge_foldl l cur acc :
  reverse (foldl merge_step (cur :: acc) l) = reverse acc ++ merge_from cur l.
Proof.
  revert cur acc. induction l as [|r l IH]; intros cur acc; simpl.
  - by rewrite reverse_cons.
  - case_match; [case_match|]; rewrite IH; [done..|].
    rewrite reverse_cons, <- app_assoc. done.
Qed.

Lemma merge_ranges_from r l : merge_ranges (r :: l) = merge_from r l.
Proof. unfold merge_ranges. by rewrite merge_foldl. Qed.

Lemma merge_from_spec cur l lo :
  lo < rstart cur < rend cur -> Forall (fun r => rstart r < rend r) l ->
  StronglySorted range_le (cur :: l) ->
  separated lo (merge_from cur l) /\
  (forall i, covered (merge_from cur l) i <-> in_range i cur \/ covered l i).
Proof.
  revert cur lo. induction l as [|r l IH]; intros cur lo Hc Hl Hs; simpl.
  - split; [done|]. intros i. by rewrite covered_cons, !covered_nil.
  - apply Forall_cons in Hl as [Hr Hl].
    apply StronglySorted_inv in Hs as [Hs Hle].
    pose proof (Forall_inv Hle) as Hcr.
    apply StronglySorted_inv in Hs as [Hs Hrl].
    destruct (Z.leb_spec (rstart r) (rend cur)) as [Hj|Hj].
    + set (c := if rend cur <? rend r then _ else cur).
      assert (rstart c = rstart cur /\ rend c = Z.max (rend cur) (rend r)) as [E1 E2].
      { subst c. destruct (Z.ltb_spec (rend cur) (rend r)); simpl; lia. }
      clearbody c.
      destruct (IH c lo) as [IH1 IH2]; [unfold range_le in *; lia|done|..].
      { constructor; [done|]. apply Forall_cons in Hle as [_ Hle].
        apply Forall_forall. intros x Hx.
        pose proof (proj1 (Forall_forall _ _) Hle x Hx).
        pose proof (proj1 (Forall_forall _ _) Hrl x Hx).
        unfold range_le in *. rewrite E1, E2. lia. }
      split; [done|]. intros i. rewrite IH2, covered_cons.
      assert (in_range i c <-> in_range i cur \/ in_range i r) as ->; [|tauto].
      unfold in_range, range_le in *. rewrite E1, E2. lia.
    + destruct (IH r (rend cur)) as [IH1 IH2]; [lia|done|by constructor|].
      split; [by split|]. intros i. rewrite !covered_cons, IH2. done.
Qed.

(** The merged list of a set of valid ranges: separated, in int64, and
    covering the same indices. *)
Lemma merged_spec rs :
  Forall valid_range rs ->
  let m := merge_ranges (sort_ranges rs) in
  separated (-1) m /\ (forall i, covered m i <-> covered rs i) /\
  Forall (fun r => rend r <= max_int64) m.
Proof.
  intros Hv m. assert (Hvs : Forall valid_range (sort_ranges rs)) by by rewrite sort_ranges_perm.
  pose proof (sort_ranges_sorted rs) as Hs. pose proof (sort_ranges_perm rs) as Hp.
  assert (Hm : separated (-1) m /\ (forall i, covered m i <-> covered rs i)).
  { subst m. destruct (sort_ranges rs) as [|r l] eqn:E.
    - apply Permutation_nil_l in Hp as <-. split; [done|]. intros i. done.
    - rewrite merge_ranges_from. apply Forall_cons in Hvs as [Hr Hl].
      destruct (merge_from_spec r l (-1)) as [H1 H2]; [unfold valid_range in Hr; lia| |done|].
      { eapply Forall_impl; [exact Hl|]. unfold valid_range. simpl. lia. }
      split; [done|]. intros i. rewrite H2, <- covered_cons. by apply covered_perm. }
  destruct Hm as [Hsep Hcov]. split; [done|]. split; [done|].
  apply Forall_forall. intros r Hr.
  assert (Hlt : rstart r < rend r).
  { clear -Hsep Hr. revert Hsep. generalize (-1) as lo. induction m as [|x m IH]; intros lo; simpl.
    - by apply not_elem_of_nil in Hr.
    - intros [Hx Hs]. apply elem_of_cons in Hr as [->|Hr]; [lia|]. by apply (IH Hr (rend x)). }
  assert (Hc : covered rs (rend r - 1)).
  { apply Hcov. unfold covered. apply Exists_exists. exists r. split; [done|]. unfold in_range. lia. }
  unfold covered in Hc. apply Exists_exists in Hc as (x & Hx & Hin).
  rewrite Forall_forall in Hv. specialize (Hv x Hx). unfold valid_range, in_range in *. lia.
Qed.

Lemma separated_lt lo rs : separated lo rs -> Forall (fun r => lo < rstart r < rend r) rs.
Proof.
  revert lo. induction rs as [|r rs IH]; intros lo; simpl; [done|]. intros [Hr Hs].
  constructor; [lia|]. eapply Forall_impl; [by apply IH|]. simpl. lia.
Qed.

(** *** The stored total *)

Lemma elem_of_range_set i r : i ∈ range_set r <-> in_range i r.
Proof.
  unfold range_set, in_range. rewrite elem_of_list_to_set, elem_of_seqZ. lia.
Qed.

Lemma stored_set_cons r rs : stored_set (r :: rs) = range_set r ∪ stored_set rs.
Proof. done. Qed.

Lemma elem_of_stored_set rs i : i ∈ stored_set rs <-> covered rs i.
Proof.
  induction rs as [|r rs IH].
  - rewrite covered_nil. unfold stored_set. simpl. set_solver.
  - rewrite stored_set_cons, elem_of_union, IH, elem_of_range_set, covered_cons. done.
Qed.

Lemma size_range_set r : rstart r <= rend r -> Z.of_nat (size (range_set r)) = rend r - rstart r.
Proof.
  intros H. unfold range_set. rewrite size_list_to_set by apply NoDup_seqZ.
  rewrite length_seqZ. lia.
Qed.

Lemma size_stored_separated lo rs :
  separated lo rs ->
  Z.of_nat (size (stored_set rs)) = foldr (fun r acc => (rend r - rstart r) + acc) 0 rs.
Proof.
  revert lo. induction rs as [|r rs IH]; intros lo; simpl; [done|]. intros [Hr Hs].
  rewrite stored_set_cons, size_union.
  - rewrite Nat2Z.inj_add, size_range_set, (IH _ Hs) by lia. done.
  - intros i Hi1 Hi2. apply elem_of_range_set in Hi1. apply elem_of_stored_set in Hi2.
    apply (separated_lower _ _ _ Hs) in Hi2. unfold in_range in Hi1. lia.
Qed.

Lemma stored_total_nowrap lo rs acc :
  separated lo rs -> 0 <= acc <= lo + 1 -> Forall (fun r => rend r <= max_int64) rs ->
  foldl (fun acc r => wrap64 (acc + wrap64 (rend r - rstart r))) acc rs =
  acc + foldr (fun r acc => (rend r - rstart r) + acc) 0 rs.
Proof.
  revert lo acc. induction rs as [|r rs IH]; intros lo acc; simpl; [intros; lia|].
  intros [Hr Hs] Ha Hm. apply Forall_cons in Hm as [Hmr Hm].
  rewrite (wrap64_id (rend r - rstart r)), wrap64_id by go_lia.
  rewrite (IH (rend r)); [lia|done|lia|done].
Qed.

Lemma stored_set_ext rs rs' :
  (forall i, covered rs i <-> covered rs' i) -> stored_set rs = stored_set rs'.
Proof. intros H. apply set_eq. intros i. rewrite !elem_of_stored_set. done. Qed.

(** *** Frontier, contiguous prefix and gaps of a separated list *)

Lemma frontier_mono rs f : f <= foldl (fun f r => if f <? rend r then rend r else f) f rs.
Proof.
  revert f. induction rs as [|r rs IH]; intros f; simpl; [lia|].
  etrans; [|apply IH]. case_match; lia.
Qed.

Lemma frontier_spec rs f :
  let g := foldl (fun f r => if f <? rend r then rend r else f) f rs in
  (forall i, covered rs i -> i < g) /\ (g = f \/ Exists (fun r => rend r = g) rs).
Proof.
  revert f. induction rs as [|r rs IH]; intros f; simpl.
  - split; [by intros i ?%covered_nil|by left].
  - destruct (IH (if f <? rend r then rend r else f)) as [IH1 IH2].
    pose proof (frontier_mono rs (if f <? rend r then rend r else f)) as Hmono.
    split.
    + intros i [Hi|Hi]%covered_cons; [|by apply IH1].
      unfold in_range in Hi. destruct (Z.ltb_spec f (rend r)); lia.
    + destruct IH2 as [IH2|IH2]; [|right; by right].
      rewrite IH2. destruct (Z.ltb_spec f (rend r)); [right; by left|by left].
Qed.

Lemma contiguous_spec rs c :
  separated (c - 1) rs ->
  let d := contiguous_loop rs c in
  c <= d /\ (forall i, c <= i < d -> covered rs i) /\ ~ covered rs d.
Proof.
  intros Hs. destruct rs as [|r rs]; simpl in *.
  - split; [lia|]. split; [lia|]. by intros ?%covered_nil.
  - destruct Hs as [Hr Hs].
    destruct (Z.leb_spec (rstart r) c).
    + destruct (Z.ltb_spec c (rend r)); [|lia].
      assert (contiguous_loop rs (rend r) = rend r) as ->.
      { destruct rs as [|r' rs]; simpl in *; [done|].
        destruct (Z.leb_spec (rstart r') (rend r)); [lia|done]. }
      split; [lia|]. split.
      * intros i Hi. apply covered_cons. left. unfold in_range. lia.
      * intros [Hi|Hi]%covered_cons; [unfold in_range in Hi; lia|].
        apply (separated_lower _ _ _ Hs) in Hi. lia.
    + split; [lia|]. split; [lia|].
      intros [Hi|Hi]%covered_cons; [unfold in_range in Hi; lia|].
      apply (separated_lower _ _ _ Hs) in Hi. lia.
Qed.

Lemma gaps_separated bound rs c :
  separated (c - 1) rs -> separated (c - 1) (gaps_loop bound rs c).
Proof.
  revert c. induction rs as [|r rs IH]; intros c; simpl.
  - intros _. destruct (Z.ltb_spec c bound); simpl; [|done]. split; [lia|done].
  - intros [Hr Hs]. destruct (Z.ltb_spec c (rend r)); [|lia].
    assert (Hg : separated (rend r - 1) (gaps_loop bound rs (rend r))).
    { apply IH. eapply separated_weaken; [|done]. lia. }
    destruct (Z.ltb_spec c (rstart r)); simpl.
    + destruct (Z.ltb_spec c bound); simpl.
      * split; [lia|]. eapply separated_weaken; [|done]. lia.
      * eapply separated_weaken; [|done]. lia.
    + eapply separated_weaken; [|done]. lia.
Qed.

Lemma gaps_covered bound rs c i :
  separated (c - 1) rs ->
  covered (gaps_loop bound rs c) i <-> c <= i < bound /\ ~ covered rs i.
Proof.
  revert c. induction rs as [|r rs IH]; intros c; simpl.
  - intros _. destruct (Z.ltb_spec c bound); rewrite ?covered_cons, ?covered_nil;
      unfold in_range; simpl; lia.
  - intros [Hr Hs]. destruct (Z.ltb_spec c (rend r)); [|lia].
    rewrite covered_app, IH by (eapply separated_weaken; [|done]; lia).
    pose proof (separated_lower _ _ i Hs) as Hlow.
    rewrite covered_cons.
    destruct (decide (covered rs i)) as [E|E].
    1: assert (covered rs i <-> True) as -> by tauto; specialize (Hlow E).
    2: assert (covered rs i <-> False) as -> by tauto.
    all: destruct (Z.ltb_spec c (rstart r)), (Z.ltb_spec c bound); simpl;
      rewrite ?covered_cons, ?covered_nil; unfold in_range; simpl; lia.
Qed.

(** *** File names *)

Definition partition_name (a b ext : string) : string :=
  a +:+ String "-" (b +:+ (".binpb" +:+ ext)).

Lemma trim_suffix_neq s suf : has_suffix s suf = false -> trim_suffix s suf = s.
Proof. unfold trim_suffix. by intros ->. Qed.

Lemma binpb_not_gz s : has_suffix (s +:+ ".binpb") ".gz" = false.
Proof.
  destruct (has_suffix (s +:+ ".binpb") ".gz") eqn:E; [|done].
  apply has_suffix_inv in E. revert E.
  generalize (trim_suffix (s +:+ ".binpb") ".gz") as y. intros y E.
  replace (s +:+ ".binpb")%string with ((s +:+ ".bi") +:+ "npb")%string in E
    by by rewrite str_app_assoc.
  exfalso. revert E. generalize (s +:+ ".bi")%string as x. intros x E.
  assert (Hl : String.length x = String.length y).
  { apply (f_equal String.length) in E. rewrite !str_length_app in E. simpl in E. lia. }
  revert y E Hl. induction x as [|c x IH]; intros [|c' y] E Hl; simpl in *; try done.
  injection E as -> E. injection Hl as Hl. by apply (IH y).
Qed.

(** [parseRangeFromName] on a name of the written shape reduces to decoding
    the two numerals. *)
Lemma parse_partition_name a b ext :
  str_forallb (fun x => negb (Ascii.eqb x "-")) a = true -> (ext = "" \/ ext = ".gz") ->
  parseRangeFromName (partition_name a b ext) =
  match decodeBase36 a with
  | Ok first =>
      match decodeBase36 b with
      | Ok last => if last <? first then None else Some (mkRange first (wrap64 (last + 1)))
      | _ => None
      end
  | _ => None
  end.
Proof.
  intros Ha Hext. unfold parseRangeFromName, partition_name.
  set (body := (a +:+ String "-" b)%string).
  assert (E : trim_suffix (a +:+ String "-" (b +:+ (".binpb" +:+ ext))) ".gz" = (body +:+ ".binpb")%string).
  { replace (a +:+ String "-" (b +:+ (".binpb" +:+ ext)))%string
      with (body +:+ (".binpb" +:+ ext))%string
      by (subst body; by rewrite (str_app_assoc a)).
    destruct Hext as [-> | ->].
    - rewrite (str_app_nil_r ".binpb"). apply trim_suffix_neq, binpb_not_gz.
    - rewrite <- (str_app_assoc body). apply trim_suffix_app. }
  rewrite E, has_suffix_app, trim_suffix_app. simpl negb. cbv iota.
  subst body. rewrite index_byte_app by done.
  destruct (Z.ltb_spec (Z.of_nat (String.length a)) 0); [lia|].
  rewrite str_take_app, (str_drop_sep a "-" b) by done. done.
Qed.

Lemma summarize_nonempty rs t :
  rs <> [] ->
  let m := merge_ranges (sort_ranges rs) in
  summarizeRanges rs t =
  mkSummary (stored_total m) (frontier_of m) (contiguous_loop m 0)
            (gaps_loop (if 0 <? t then t else frontier_of m) m 0).
Proof. by destruct rs. Qed.

Lemma summarize_stats rs treeSize :
  Forall valid_range rs ->
  let s := summarizeRanges rs treeSize in
  sm_stored s = Z.of_nat (size (stored_set rs)) /\
  (forall i, covered rs i -> i < sm_frontier s) /\
  (rs = [] /\ sm_frontier s = 0 \/ covered rs (sm_frontier s - 1)) /\
  (forall i, 0 <= i < sm_contiguous s -> covered rs i) /\
  0 <= sm_contiguous s /\ ~ covered rs (sm_contiguous s).
Proof.
  intros Hv s. destruct rs as [|r0 rs0]; [|set (rs := r0 :: rs0) in *].
  { subst s. simpl. repeat split; try done; try lia; try (by intros i ?%covered_nil);
      [by left|by intros ?%covered_nil]. }
  destruct (merged_spec rs Hv) as (Hsep & Hcov & Hmax).
  set (m := merge_ranges (sort_ranges rs)) in *.
  assert (E : s = _) by (apply summarize_nonempty; done). rewrite E. clear E s. fold m.
  cbn [sm_stored sm_frontier sm_contiguous].
  rewrite <- (stored_set_ext m rs Hcov), (size_stored_separated _ _ Hsep).
  split; [unfold stored_total; by rewrite (stored_total_nowrap (-1))|].
  destruct (frontier_spec m 0) as [Hf1 Hf2]. fold (frontier_of m) in Hf1, Hf2.
  destruct (contiguous_spec m 0 Hsep) as (Hc1 & Hc2 & Hc3).
  split; [intros i ?%Hcov; by apply Hf1|].
  split.
  { right. apply Hcov. destruct Hf2 as [Hf2|Hf2].
    - exfalso. apply Forall_cons in Hv as [Hr _]. unfold valid_range in Hr.
      assert (covered rs (rstart r0)) as Hin%Hcov%Hf1; [|lia].
      apply covered_cons. left. unfold in_range. lia.
    - apply Exists_exists in Hf2 as (r & Hr & <-). apply Exists_exists. exists r.
      split; [done|]. pose proof (separated_lt _ _ Hsep) as Hl. rewrite Forall_forall in Hl.
      specialize (Hl r Hr). unfold in_range. lia. }
  split; [intros i Hi; by apply Hcov, Hc2|]. split; [done|]. by rewrite <- Hcov.
Qed.

(** ** Properties *)

(** C11. CheckCoverage's statistics are exact for every set of stored ranges,
    overlapping or not: [stored] is the number of distinct stored indices (no
    int64 operation wraps), [frontier] is one past the highest stored index
    (0 when nothing is stored), and [contiguous] is the end of the longest
    unbroken run from index 0: everything below it is stored and it is not. *)
Theorem summarize_exact rs treeSize :
  Forall valid_range rs ->
  let s := summarizeRanges rs treeSize in
  sm_stored s = Z.of_nat (size (stored_set rs)) /\
  (forall i, covered rs i -> i < sm_frontier s) /\
  (rs = [] /\ sm_frontier s = 0 \/ covered rs (sm_frontier s - 1)) /\
  (forall i, 0 <= i < sm_contiguous s -> covered rs i) /\
  0 <= sm_contiguous s /\ ~ covered rs (sm_contiguous s).
Proof. apply summarize_stats. Qed.

Lemma summarize_exact_witness :
  let rs := [mkRange 5 9; mkRange 0 3; mkRange 2 4] in
  Forall valid_range rs /\ sm_stored (summarizeRanges rs 12) = Z.of_nat (size (stored_set rs)).
Proof.
  assert (H : Forall valid_range [mkRange 5 9; mkRange 0 3; mkRange 2 4]).
  { repeat constructor; unfold valid_range, max_int64; simpl; lia. }
  split; [exact H|]. apply (proj1 (summarize_exact _ 12 H)).
Defined.

(** The gaps CheckCoverage reports are exactly the missing indices of
    [0, bound) ([bound] the live tree size when known, else the frontier):
    an index is in a gap iff it is below the bound and not stored; the gaps
    are non-empty, ascending and never touch each other. *)
Theorem summarize_gaps_exact rs treeSize :
  Forall valid_range rs ->
  let gaps := sm_gaps (summarizeRanges rs treeSize) in
  (forall i, covered gaps i <-> 0 <= i < scan_bound rs treeSize /\ ~ covered rs i) /\
  separated (-1) gaps.
Proof.
  intros Hv gaps. destruct rs as [|r0 rs0]; [|set (rs := r0 :: rs0) in *].
  { subst gaps. unfold scan_bound. simpl. destruct (Z.ltb_spec 0 treeSize) as [Ht|Ht]; simpl.
    - destruct (Z.ltb_spec 0 treeSize); [|lia]. split; [|simpl; lia].
      intros i. rewrite covered_cons, !covered_nil. unfold in_range. simpl. lia.
    - split; [|done]. intros i. rewrite !covered_nil. lia. }
  destruct (merged_spec rs Hv) as (Hsep & Hcov & _).
  subst gaps. unfold scan_bound. rewrite summarize_nonempty by done.
  set (m := merge_ranges (sort_ranges rs)) in *. cbn [sm_gaps sm_frontier].
  split; [|by apply (gaps_separated _ m 0)].
  intros i. rewrite (gaps_covered _ m 0) by done. by rewrite Hcov.
Qed.

Lemma summarize_gaps_exact_witness :
  let rs := [mkRange 5 9; mkRange 0 3] in
  Forall valid_range rs /\
  sm_gaps (summarizeRanges rs 12) = [mkRange 3 5; mkRange 9 12] /\
  separated (-1) (sm_gaps (summarizeRanges rs 12)).
Proof.
  assert (H : Forall valid_range [mkRange 5 9; mkRange 0 3]).
  { repeat constructor; unfold valid_range, max_int64; simpl; lia. }
  split; [exact H|]. split; [vm_compute; reflexivity|].
  exact (proj2 (summarize_gaps_exact [mkRange 5 9; mkRange 0 3] 12 H)).
Defined.

(** The statistics do not depend on the order in which the directory walk
    meets the partition files. *)
Theorem summarize_order_independent rs rs' treeSize :
  rs ≡ₚ rs' -> summarizeRanges rs treeSize = summarizeRanges rs' treeSize.
Proof.
  intros H. destruct rs as [|r rs].
  - by apply Permutation_nil_l in H as <-.
  - assert (rs' <> []) by (intros ->; by apply Permutation_nil_r in H).
    rewrite !summarize_nonempty by done. by rewrite (sort_ranges_unique _ _ H).
Qed.

Lemma summarize_order_independent_witness :
  [mkRange 4 6; mkRange 0 2] ≡ₚ [mkRange 0 2; mkRange 4 6] /\
  summarizeRanges [mkRange 4 6; mkRange 0 2] 9 = summarizeRanges [mkRange 0 2; mkRange 4 6] 9.
Proof.
  split; [apply Permutation_swap|].
  apply (summarize_order_independent [mkRange 4 6; mkRange 0 2]). apply Permutation_swap.
Defined.

(** C36. Resuming from the reported gaps completes the archive: when the live
    tree size is known, storing exactly the reported gaps leaves no gap and
    makes the contiguous prefix reach the tree size. *)
Theorem resume_from_gaps rs treeSize :
  Forall valid_range rs -> 0 < treeSize <= max_int64 ->
  let rs' := rs ++ sm_gaps (summarizeRanges rs treeSize) in
  Forall valid_range rs' /\
  sm_gaps (summarizeRanges rs' treeSize) = [] /\
  treeSize <= sm_contiguous (summarizeRanges rs' treeSize).
Proof.
  intros Hv Ht rs'.
  destruct (summarize_gaps_exact rs treeSize Hv) as [Hg Hs].
  assert (Hb : forall x, scan_bound x treeSize = treeSize).
  { intros x. unfold scan_bound. destruct (Z.ltb_spec 0 treeSize); lia. }
  rewrite Hb in Hg.
  assert (Hv' : Forall valid_range rs').
  { apply Forall_app. split; [done|].
    pose proof (separated_lt _ _ Hs) as Hl. rewrite Forall_forall in Hl.
    apply Forall_forall. intros g Hin. specialize (Hl g Hin).
    assert (covered (sm_gaps (summarizeRanges rs treeSize)) (rend g - 1)) as Hc%Hg.
    { apply Exists_exists. exists g. split; [done|]. unfold in_range. lia. }
    unfold valid_range. lia. }
  assert (Hcov : forall i, 0 <= i < treeSize -> covered rs' i).
  { intros i Hi. apply covered_app. destruct (decide (covered rs i)); [by left|].
    right. apply Hg. done. }
  destruct (summarize_gaps_exact rs' treeSize Hv') as [Hg' Hs']. rewrite Hb in Hg'.
  split; [done|]. split.
  - destruct (sm_gaps (summarizeRanges rs' treeSize)) as [|g gs]; [done|].
    simpl in Hs'. exfalso.
    assert (covered (g :: gs) (rstart g)) as Hc%Hg'.
    { apply covered_cons. left. unfold in_range. lia. }
    destruct Hc as [Hr Hn]. by apply Hn, Hcov.
  - destruct (summarize_stats rs' treeSize Hv') as (_ & _ & _ & _ & H0 & Hn).
    destruct (decide (treeSize <= sm_contiguous (summarizeRanges rs' treeSize))); [done|].
    exfalso. apply Hn, Hcov. lia.
Qed.

Lemma resume_from_gaps_witness :
  let rs := [mkRange 5 9; mkRange 0 3] in
  Forall valid_range rs /\ 0 < 12 <= max_int64 /\
  sm_gaps (summarizeRanges (rs ++ sm_gaps (summarizeRanges rs 12)) 12) = [].
Proof.
  assert (H : Forall valid_range [mkRange 5 9; mkRange 0 3]).
  { repeat constructor; unfold valid_range, max_int64; simpl; lia. }
  assert (Ht : 0 < 12 <= max_int64) by (unfold max_int64; lia).
  split; [exact H|]. split; [exact Ht|].
  exact (proj1 (proj2 (resume_from_gaps [mkRange 5 9; mkRange 0 3] 12 H Ht))).
Defined.

Lemma parse_written_name first last a b ext :
  0 <= first <= last -> last < max_int64 ->
  encodeBase36 first = Ok a -> encodeBase36 last = Ok b -> (ext = "" \/ ext = ".gz") ->
  parseRangeFromName (partition_name a b ext) = Some (mkRange first (last + 1)).
Proof.
  intros Hf Hl Ha Hb Hext.
  destruct (encode_spec first) as (a' & Ha' & Hd & _); [lia|].
  rewrite Ha in Ha'. injection Ha' as <-.
  rewrite parse_partition_name by (done || by apply digits_no_dash).
  rewrite (decode_encode first), (decode_encode last) by (done || lia).
  destruct (Z.ltb_spec last first); [lia|]. by rewrite wrap64_id by go_lia.
Qed.

(** The file name written for a run [first..last] (plain or gzip) parses
    back to exactly the half-open range [first, last+1). *)
Theorem partition_name_roundtrip first last a b ext :
  0 <= first <= last -> last < max_int64 ->
  encodeBase36 first = Ok a -> encodeBase36 last = Ok b -> (ext = "" \/ ext = ".gz") ->
  parseRangeFromName (partition_name a b ext) = Some (mkRange first (last + 1)).
Proof. apply parse_written_name. Qed.

Lemma partition_name_roundtrip_witness :
  encodeBase36 256 = Ok "74" /\ encodeBase36 511 = Ok "e7" /\
  partition_name "74" "e7" ".gz" = "74-e7.binpb.gz" /\
  parseRangeFromName (partition_name "74" "e7" ".gz") = Some (mkRange 256 (511 + 1)).
Proof.
  split; [reflexivity|]. split; [reflexivity|]. split; [reflexivity|].
  apply (partition_name_roundtrip 256 511); try (unfold max_int64; lia); try reflexivity.
  right. reflexivity.
Defined.

(** What a successful parse means, for any file name on disk: the name is
    [a-b.binpb] or [a-b.binpb.gz] with [a] free of dashes, both numerals
    decode, and the range is [decode a, decode b + 1) with the end reduced to
    int64. The range is well-formed unless a numeral overflows int64. *)
Theorem parse_range_sound name r :
  parseRangeFromName name = Some r ->
  exists a b last ext, name = partition_name a b ext /\ (ext = "" \/ ext = ".gz") /\
    decodeBase36 a = Ok (rstart r) /\ decodeBase36 b = Ok last /\ rstart r <= last /\
    rend r = wrap64 (last + 1) /\
    (0 <= rstart r -> last < max_int64 -> valid_range r).
Proof.
  unfold parseRangeFromName. set (n := trim_suffix name ".gz"). intros H.
  destruct (has_suffix n ".binpb") eqn:Hbin; [|done]. simpl in H.
  set (body := trim_suffix n ".binpb") in *.
  destruct (Z.ltb_spec (index_byte body "-") 0) as [|Hdash]; [done|].
  destruct (decodeBase36 (str_take _ _)) as [first| |] eqn:Ha; try done.
  destruct (decodeBase36 (str_drop _ _)) as [last| |] eqn:Hb; try done.
  destruct (Z.ltb_spec last first); [done|]. injection H as <-. simpl.
  exists (str_take (index_byte body "-") body), (str_drop (index_byte body "-" + 1) body), last.
  exists (if has_suffix name ".gz" then ".gz" else "").
  split.
  - unfold partition_name.
    assert (Hsplit : forall s i, 0 <= index_byte_from i s "-" ->  0 <= i ->
        s = (str_take (index_byte_from i s "-" - i) s +:+
             String "-" (str_drop (index_byte_from i s "-" - i + 1) s))%string).
    { clear. induction s as [|c s IH]; intros i; simpl; [lia|].
      destruct (Ascii.eqb_spec c "-") as [->|Hne]; intros Hi H0.
      - replace (i - i) with 0 by lia. unfold str_take, str_drop. simpl.
        f_equal. rewrite Nat.sub_0_r. symmetry. apply substring_0_all.
      - specialize (IH (i + 1) Hi ltac:(lia)).
        destruct (index_byte_from_shift s "-" (i + 1)) as [|Hge]; [lia|].
        set (k := index_byte_from (i + 1) s "-") in *.
        unfold str_take, str_drop in *. simpl String.length.
        replace (Z.to_nat (k - i)) with (S (Z.to_nat (k - (i + 1)))) by lia.
        replace (Z.to_nat (k - i + 1)) with (S (Z.to_nat (k - (i + 1) + 1))) by lia.
        simpl. f_equal. exact IH. }
    specialize (Hsplit body 0 Hdash ltac:(lia)). rewrite Z.sub_0_r in Hsplit.
    fold (index_byte body "-") in Hsplit.
    assert (Hn : n = (body +:+ ".binpb")%string) by by apply has_suffix_inv.
    assert (Hname : name = (n +:+ if has_suffix name ".gz" then ".gz" else "")%string).
    { subst n. destruct (has_suffix name ".gz") eqn:E; [by apply has_suffix_inv|].
      by rewrite trim_suffix_neq, str_app_nil_r. }
    etrans; [exact Hname|]. rewrite Hn, (str_app_assoc body).
    etrans; [exact (f_equal (fun x => x +:+ _) Hsplit)|].
    by rewrite str_app_assoc.
  - split; [destruct (has_suffix name ".gz"); auto|]. repeat (split; [done|]).
    unfold valid_range. simpl. intros Hnn Hlt.
    assert (wrap64 (last + 1) = last + 1) as -> by (apply wrap64_id; go_lia). lia.
Qed.

Lemma parse_range_sound_witness :
  parseRangeFromName "74-e7.binpb.gz" = Some (mkRange 256 512) /\
  exists a b last ext, "74-e7.binpb.gz" = partition_name a b ext /\ (ext = "" \/ ext = ".gz") /\
    decodeBase36 a = Ok 256 /\ decodeBase36 b = Ok last /\ 256 <= last /\
    512 = wrap64 (last + 1) /\ (0 <= 256 -> last < max_int64 -> valid_range (mkRange 256 512)).
Proof.
  split; [reflexivity|].
  exact (parse_range_sound "74-e7.binpb.gz" (mkRange 256 512) eq_refl).
Defined.
