(* ===== verification/RawScan.v ===== *)
(** internal/db/rawscan.go: the sequential page scanner that recovers every
    cert_hash from a SQLite file. A page is a byte list; every Go slice or
    index expression that can be out of range yields [Panic]; [int] is 64-bit. *)

From S2P Require Import Prelude GoStd.

(** ** Definitions *)

Definition certHashCol : nat := 17.

(** [for i := 0; i < 9 && i < len(b); i++]; [(v, n)] with n = 0 for a truncated
    varint. *)
Fixpoint varint_loop (i : nat) (b : bytes) (v : Z) : Z * Z :=
  match b with
  | [] => (0, 0)
  | x :: b' =>
      if (i =? 8)%nat then (wrap_u64 (Z.lor (Z.shiftl v 8) (bval x)), 9)
      else
        let v := wrap_u64 (Z.lor (Z.shiftl v 7) (Z.land (bval x) 127)) in
        if Z.land (bval x) 128 =? 0 then (v, Z.of_nat i + 1)
        else varint_loop (S i) b' v
  end.

Definition sqliteVarint (b : bytes) : Z * Z := varint_loop 0 b 0.

(** [int(x)] of a uint64. *)
Definition int_of_u64 (x : Z) : Z := wrap64 x.

Definition sqliteColDataSize (tc : Z) : Z :=
  if (tc =? 0) || (tc =? 8) || (tc =? 9) then 0
  else if (1 <=? tc) && (tc <=? 4) then int_of_u64 tc
  else if tc =? 5 then 6
  else if (tc =? 6) || (tc =? 7) then 8
  else if 12 <=? tc then int_of_u64 ((tc - 12) / 2)
  else 0.

(** The [for col := 0; pos < headerEnd; col++] walk; [cols] is the number of
    columns still before cert_hash ([certHashCol - col]). *)
Fixpoint walk_columns (cols : nat) (page : bytes) (pageSize headerEnd pos dataOff : Z)
  : res (option bytes) :=
  if pos <? headerEnd then
    let? rest := go_from page pos in
    let '(tc, n) := sqliteVarint rest in
    if n =? 0 then Ok None else
    let pos := pos + n in
    match cols with
    | O =>
        if (tc <? 12) || negb (tc mod 2 =? 0) then Ok None else
        let len := int_of_u64 ((tc - 12) / 2) in
        if (len =? 0) || (pageSize <? wrap64 (dataOff + len)) then Ok None else
        if negb (make_ok len) then Panic else
        let? data := go_slice page dataOff (wrap64 (dataOff + len)) in
        Ok (Some data)
    | S cols' =>
        let dataOff := wrap64 (dataOff + sqliteColDataSize tc) in
        if pageSize <? dataOff then Ok None
        else walk_columns cols' page pageSize headerEnd pos dataOff
    end
  else Ok None.

Definition certHashFromCell (page : bytes) (cellOff pageSize : Z) : res (option bytes) :=
  let pos := cellOff in
  let? rest := go_from page pos in
  let '(_, n) := sqliteVarint rest in
  if n =? 0 then Ok None else
  let pos := pos + n in
  let? rest := go_from page pos in
  let '(_, n) := sqliteVarint rest in
  if n =? 0 then Ok None else
  let pos := pos + n in
  let payloadStart := pos in
  let? rest := go_from page pos in
  let '(headerSize, n) := sqliteVarint rest in
  if n =? 0 then Ok None else
  let pos := pos + n in
  let headerEnd := wrap64 (payloadStart + int_of_u64 headerSize) in
  if pageSize <? headerEnd then Ok None
  else walk_columns certHashCol page pageSize headerEnd pos headerEnd.

(** The [for i := 0; i < numCells; i++] loop over the cell pointer array;
    [k] cells remain. Emitted hashes are collected in order. *)
Fixpoint scan_cells (k : nat) (i : Z) (page : bytes) (hdrOff pageSize : Z) : res (list bytes) :=
  match k with
  | O => Ok []
  | S k' =>
      let cpOff := hdrOff + 8 + i * 2 in
      if pageSize <? cpOff + 2 then Ok [] else
      let? cp := go_slice page cpOff (cpOff + 2) in
      let cellOff := be cp in
      if (cellOff <=? hdrOff) || (pageSize <=? cellOff)
      then scan_cells k' (i + 1) page hdrOff pageSize
      else
        let? ch := certHashFromCell page cellOff pageSize in
        let? rest := scan_cells k' (i + 1) page hdrOff pageSize in
        Ok (match ch with Some c => c :: rest | None => rest end)
  end.

Definition scan_page (page : bytes) (pageNum pageSize : Z) : res (list bytes) :=
  let hdrOff := if pageNum =? 1 then 100 else 0 in
  let? kind := go_index page hdrOff in
  if negb (kind =? 13) then Ok [] else
  let? nb := go_slice page (hdrOff + 3) (hdrOff + 5) in
  scan_cells (Z.to_nat (be nb)) 0 page hdrOff pageSize.

(** The page loop; a short read ends it ([io.ReadFull] error, break). *)
Fixpoint scan_pages (k : nat) (pageNum pageSize : Z) (file : bytes) : res (list bytes) :=
  match k with
  | O => Ok []
  | S k' =>
      if blen file <? pageSize then Ok [] else
      let? a := scan_page (take (Z.to_nat pageSize) file) pageNum pageSize in
      let? b := scan_pages k' (pageNum + 1) pageSize (drop (Z.to_nat pageSize) file) in
      Ok (a ++ b)
  end.

Definition sqlite_magic : bytes :=
  String.list_byte_of_string "SQLite format 3" ++ [x00].

Definition header_page_size (file : bytes) : Z :=
  let p := be (take 2 (drop 16 file)) in
  if p =? 1 then 65536 else p.

(** The emitted hashes of a whole file. Division by a zero page size panics. *)
Definition scanArchiveCertHashes (file : bytes) : res (list bytes) :=
  if blen file <? 100
  then Err (Wrap "read sqlite header" (if blen file =? 0 then EOF else ErrUnexpectedEOF)) else
  if negb (bool_decide (take 16 file = sqlite_magic)) then Err (Errorf "not a SQLite database") else
  let pageSize := header_page_size file in
  if pageSize =? 0 then Panic else
  scan_pages (Z.to_nat (blen file / pageSize)) 1 pageSize file.

(** *** Specification vocabulary: the record format the scanner reads *)

(** [k] continuation bytes holding [v], most significant group first. *)
Fixpoint put7 (k : nat) (v : Z) : bytes :=
  match k with
  | O => []
  | S k' => put7 k' (v / 128) ++ [byte_of (128 + v mod 128)]
  end.

(** The number of bytes SQLite uses for a varint below 2^56. *)
Definition varint_len (v : Z) : nat :=
  if v <? 2 ^ 7 then 1 else if v <? 2 ^ 14 then 2 else if v <? 2 ^ 21 then 3
  else if v <? 2 ^ 28 then 4 else if v <? 2 ^ 35 then 5 else if v <? 2 ^ 42 then 6
  else if v <? 2 ^ 49 then 7 else 8.

(** SQLite's varint encoding of a 64-bit value (1 to 9 bytes). *)
Definition varint_encode (v : Z) : bytes :=
  if v <? 2 ^ 56
  then put7 (varint_len v - 1) (v / 128) ++ [byte_of (v mod 128)]
  else put7 8 (v / 256) ++ [byte_of v].

(** A stored column: its serial type and its content bytes. *)
Record column := mkColumn { serial : Z; content : bytes }.

(** The width of a serial type in the SQLite file format: fixed for types 0 to 9,
    BLOBs even from 12, texts odd from 13; 10 and 11 are reserved. *)
Definition serial_width (tc : Z) : Z :=
  if tc <? 10 then nth (Z.to_nat tc) [0; 1; 2; 3; 4; 6; 8; 8; 0; 0] 0
  else if Z.even tc then (tc - 12) / 2 else (tc - 13) / 2.

Definition column_wf (c : column) : Prop :=
  0 <= serial c < 2 ^ 31 /\ serial c <> 10 /\ serial c <> 11 /\ blen (content c) = serial_width (serial c).

Definition type_codes (cols : list column) : bytes := cols ≫= (fun c => varint_encode (serial c)).

Definition contents (cols : list column) : bytes := cols ≫= content.

(** A leaf-table cell: payload length, rowid, record header, column data. *)
Definition encode_cell (payload rowid hdrSize : Z) (cols : list column) : bytes :=
  varint_encode payload ++ varint_encode rowid ++ varint_encode hdrSize ++
  type_codes cols ++ contents cols.

(** ** Lemmas *)

Lemma land_127 b : 0 <= b -> Z.land b 127 = b mod 128.
Proof. intros H. change 127 with (Z.ones 7). by rewrite Z.land_ones. Qed.

(** The continuation bit, decided over all byte values. *)
Lemma land_128 b : 0 <= b < 256 -> (Z.land b 128 =? 0) = (b <? 128).
Proof.
  intros H.
  assert (Hall : forallb (fun k => Bool.eqb (Z.land (Z.of_nat k) 128 =? 0) (Z.of_nat k <? 128))
                   (seq 0 256) = true) by (vm_compute; reflexivity).
  rewrite forallb_forall in Hall. specialize (Hall (Z.to_nat b) ltac:(apply in_seq; lia)).
  apply eqb_prop in Hall. rewrite Z2Nat.id in Hall by lia. done.
Qed.

Lemma varint_step i x b v :
  (i < 8)%nat -> 0 <= v -> v * 128 + bval x mod 128 < two64 ->
  varint_loop i (x :: b) v =
  if bval x <? 128 then (v * 128 + bval x mod 128, Z.of_nat i + 1)
  else varint_loop (S i) b (v * 128 + bval x mod 128).
Proof.
  intros Hi Hv Hb. pose proof (bval_range x). cbn [varint_loop].
  destruct (Nat.eqb_spec i 8); [lia|].
  rewrite land_127, land_128, lor_shiftl_add by
    (lia || apply Z.mod_pos_bound; lia).
  unfold wrap_u64. rewrite Z.mod_small; [done|].
  pose proof (Z.mod_pos_bound (bval x) 128). lia.
Qed.

Lemma varint_put7 k i v acc rest :
  (i + k <= 8)%nat -> 0 <= v < 128 ^ Z.of_nat k -> 0 <= acc ->
  acc * 128 ^ Z.of_nat k + v < two64 ->
  varint_loop i (put7 k v ++ rest) acc = varint_loop (i + k) rest (acc * 128 ^ Z.of_nat k + v).
Proof.
  revert i v acc rest. induction k as [|k IH]; intros i v acc rest Hi Hv Ha Hb.
  - simpl in *. rewrite Nat.add_0_r. f_equal. lia.
  - cbn [put7]. rewrite <- app_assoc. rewrite Nat2Z.inj_succ, Z.pow_succ_r in * by lia.
    pose proof (Z.div_mod v 128 ltac:(lia)). pose proof (Z.mod_pos_bound v 128 ltac:(lia)).
    assert (Hp : 0 < 128 ^ Z.of_nat k) by (apply Z.pow_pos_nonneg; lia).
    rewrite IH; [|lia|split; [apply Z.div_pos; lia|apply Z.div_lt_upper_bound; lia]|done|nia].
    simpl app. rewrite varint_step; [|lia|nia|].
    2:{ rewrite bval_byte_of. rewrite (Z.mod_small (128 + v mod 128)) by lia.
        rewrite Z.add_mod, Z.mod_same, Z.add_0_l, !Z.mod_mod by lia. nia. }
    rewrite bval_byte_of. rewrite (Z.mod_small (128 + v mod 128)) by lia.
    destruct (Z.ltb_spec (128 + v mod 128) 128); [lia|].
    rewrite Z.add_mod, Z.mod_same, Z.add_0_l, !Z.mod_mod by lia.
    f_equal; [lia|]. nia.
Qed.

Lemma varint_len_spec v :
  0 <= v < 2 ^ 56 -> (1 <= varint_len v <= 8)%nat /\ v < 128 ^ Z.of_nat (varint_len v).
Proof.
  intros H. unfold varint_len. repeat case_match; simpl Z.of_nat;
    repeat match goal with E : (_ <? _) = _ |- _ => revert E end; intros; split; try lia;
    repeat match goal with E : (_ <? _) = true |- _ => apply Z.ltb_lt in E end; lia.
Qed.

Lemma length_put7 k v : length (put7 k v) = k.
Proof. revert v. induction k; intros v; simpl; [done|]. rewrite length_app, IHk. simpl. lia. Qed.

Lemma blen_varint_encode v : 0 <= v -> 1 <= blen (varint_encode v) <= 9.
Proof.
  intros H. unfold varint_encode, blen. destruct (Z.ltb_spec v (2 ^ 56)).
  - destruct (varint_len_spec v) as [Hl _]; [lia|].
    rewrite length_app, length_put7. simpl length. lia.
  - rewrite length_app, length_put7. simpl length. lia.
Qed.

Lemma varint_decode_encode v rest :
  0 <= v < two64 -> sqliteVarint (varint_encode v ++ rest) = (v, blen (varint_encode v)).
Proof.
  intros Hv. unfold sqliteVarint, varint_encode.
  pose proof (Z.div_mod v 128 ltac:(lia)). pose proof (Z.mod_pos_bound v 128 ltac:(lia)).
  pose proof (Z.div_mod v 256 ltac:(lia)). pose proof (Z.mod_pos_bound v 256 ltac:(lia)).
  destruct (Z.ltb_spec v (2 ^ 56)) as [Hs|Hs].
  - destruct (varint_len_spec v) as [Hl Hp]; [lia|].
    set (k := varint_len v) in *. clearbody k. destruct k as [|k]; [lia|].
    rewrite Nat2Z.inj_succ, Z.pow_succ_r in Hp by lia.
    replace (S k - 1)%nat with k by lia.
    rewrite <- app_assoc, varint_put7;
      [|lia|split; [apply Z.div_pos; lia|apply Z.div_lt_upper_bound; lia]|lia|unfold two64; lia].
    simpl app. rewrite varint_step, bval_byte_of; [|lia|apply Z.add_nonneg_nonneg; [lia|apply Z.div_pos; lia]|].
    2:{ rewrite bval_byte_of, (Z.mod_small (v mod 128)), (Z.mod_small (v mod 128)) by lia.
        unfold two64. lia. }
    rewrite (Z.mod_small (v mod 128) 256), (Z.mod_small (v mod 128)) by lia.
    destruct (Z.ltb_spec (v mod 128) 128); [|lia].
    unfold blen. rewrite length_app, length_put7. simpl length. f_equal; lia.
  - rewrite <- app_assoc, varint_put7;
      [|lia|split; [apply Z.div_pos; lia|apply Z.div_lt_upper_bound; unfold two64 in *; simpl; lia]|lia|].
    2:{ unfold two64 in *. simpl. assert (v / 256 < 2 ^ 56) by (apply Z.div_lt_upper_bound; lia). lia. }
    simpl Nat.add. simpl app. cbn [varint_loop]. simpl Nat.eqb. cbv iota.
    rewrite bval_byte_of, lor_shiftl_add by lia.
    unfold wrap_u64. rewrite Z.mod_small by (unfold two64 in *; lia).
    unfold blen. simpl length. f_equal. lia.
Qed.

Lemma varint_loop_bounds i b v w n :
  varint_loop i b v = (w, n) -> (i <= 8)%nat -> 0 <= v ->
  (n = 0 \/ Z.of_nat i < n <= Z.of_nat i + blen b) /\ n <= 9 /\ 0 <= w < two64.
Proof.
  revert i v. induction b as [|x b IH]; intros i v H Hi Hv; cbn [varint_loop] in H.
  - injection H as <- <-. unfold two64. lia.
  - assert (blen (x :: b) = blen b + 1) as Hb by (unfold blen; simpl; lia).
    pose proof (blen_nonneg b). destruct (Nat.eqb_spec i 8) as [->|Hne].
    + injection H as <- <-. pose proof (wrap_u64_range (Z.lor (Z.shiftl v 8) (bval x))). lia.
    + destruct (Z.land (bval x) 128 =? 0).
      * injection H as <- <-.
        pose proof (wrap_u64_range (Z.lor (Z.shiftl v 7) (Z.land (bval x) 127))). lia.
      * apply IH in H; [|lia|apply wrap_u64_range]. lia.
Qed.

Lemma sqliteVarint_bounds b v n :
  sqliteVarint b = (v, n) -> 0 <= n <= blen b /\ n <= 9 /\ 0 <= v < two64.
Proof.
  intros H. apply varint_loop_bounds in H; [|lia..]. pose proof (blen_nonneg b). simpl in H. lia.
Qed.

Lemma colsize_bounds tc :
  0 <= tc < two64 -> 0 <= sqliteColDataSize tc < 2 ^ 63 /\ sqliteColDataSize tc <= Z.max 8 (tc / 2).
Proof.
  intros H. unfold sqliteColDataSize, int_of_u64.
  pose proof (Z.div_pos (tc - 12) 2). pose proof (Z.div_le_mono (tc - 12) tc 2 ltac:(lia) ltac:(lia)).
  assert (tc / 2 < 2 ^ 63) by (apply Z.div_lt_upper_bound; unfold two64 in H; lia).
  repeat case_match; repeat match goal with
    | E : (_ && _) = true |- _ => apply andb_true_iff in E as [?%Z.leb_le ?%Z.leb_le]
    | E : (_ <=? _) = true |- _ => apply Z.leb_le in E end; try lia.
  - rewrite wrap64_id by go_lia. lia.
  - rewrite wrap64_id by go_lia. lia.
Qed.

Lemma drop_app_blen (a b : bytes) n : n = blen a -> drop (Z.to_nat n) (a ++ b) = b.
Proof. intros ->. unfold blen. rewrite Nat2Z.id. by rewrite drop_app_length. Qed.

Lemma go_from_app a b n : n = blen a -> go_from (a ++ b) n = Ok b.
Proof.
  intros ->. pose proof (blen_nonneg a). pose proof (blen_nonneg b).
  rewrite go_from_ok, drop_app_blen by (done || rewrite blen_app; lia). done.
Qed.

Lemma go_slice_app a b c lo hi :
  lo = blen a -> hi = blen a + blen b -> go_slice (a ++ b ++ c) lo hi = Ok b.
Proof.
  intros -> ->. pose proof (blen_nonneg a). pose proof (blen_nonneg b). pose proof (blen_nonneg c).
  rewrite go_slice_ok by (rewrite ?blen_app; lia). rewrite drop_app_blen by done.
  replace (Z.to_nat (blen a + blen b - blen a)) with (length b) by (unfold blen; lia).
  by rewrite take_app_length.
Qed.

Lemma type_codes_cons c cols : type_codes (c :: cols) = varint_encode (serial c) ++ type_codes cols.
Proof. done. Qed.

Lemma contents_cons c cols : contents (c :: cols) = content c ++ contents cols.
Proof. done. Qed.

(** A cert_hash column as the schema stores it: a non-empty BLOB. *)
Definition blob_column (c : column) : Prop := serial c mod 2 = 0 /\ 12 < serial c.

Lemma colsize_width tc :
  0 <= tc < 2 ^ 31 -> tc <> 10 -> tc <> 11 -> sqliteColDataSize tc = serial_width tc.
Proof.
  intros H H10 H11. unfold sqliteColDataSize, serial_width. destruct (Z.ltb_spec tc 10) as [Hs|Hs].
  - assert (Hin : tc ∈ seqZ 0 10) by (apply elem_of_seqZ; lia).
    assert (Hall : Forall (fun t => (if (t =? 0) || (t =? 8) || (t =? 9) then 0
      else if (1 <=? t) && (t <=? 4) then int_of_u64 t else if t =? 5 then 6
      else if (t =? 6) || (t =? 7) then 8 else if 12 <=? t then int_of_u64 ((t - 12) / 2) else 0)
      = nth (Z.to_nat t) [0; 1; 2; 3; 4; 6; 8; 8; 0; 0] 0) (seqZ 0 10)) by (repeat constructor).
    rewrite Forall_forall in Hall. by apply Hall.
  - repeat match goal with |- context [?x =? ?y] => destruct (Z.eqb_spec x y); [lia|] end. cbn [orb].
    destruct (Z.leb_spec tc 4); [lia|]. rewrite andb_false_r. destruct (Z.leb_spec 12 tc); [|lia].
    unfold int_of_u64. assert ((tc - 12) / 2 < 2 ^ 31) by (apply Z.div_lt_upper_bound; lia).
    assert (0 <= (tc - 12) / 2) by (apply Z.div_pos; lia). rewrite wrap64_id by go_lia.
    destruct (Z.even tc) eqn:E; [done|]. rewrite Zeven_mod in E. apply Z.eqb_neq in E.
    pose proof (Z.mod_pos_bound tc 2 ltac:(lia)). pose proof (Z.div_mod tc 2 ltac:(lia)).
    replace (tc - 12) with ((tc / 2 - 6) * 2 + 1) by lia. replace (tc - 13) with ((tc / 2 - 6) * 2) by lia.
    rewrite Z.div_add_l, Z.div_mul by lia. change (1 / 2) with 0. lia.
Qed.

Lemma column_size c : column_wf c -> 0 <= serial c < 2 ^ 31 /\ blen (content c) = sqliteColDataSize (serial c).
Proof. intros (H & H10 & H11 & E). split; [done|]. by rewrite colsize_width. Qed.

Lemma blob_size c : column_wf c -> blob_column c ->
  int_of_u64 ((serial c - 12) / 2) = blen (content c) /\ 0 < blen (content c).
Proof.
  intros [Hs Hb]%column_size [He Hg].
  assert (Hd : (serial c - 12) / 2 < 2 ^ 31) by (apply Z.div_lt_upper_bound; lia).
  assert (Hp : 1 <= (serial c - 12) / 2).
  { apply Z.div_le_lower_bound; [lia|]. pose proof (Z.div_mod (serial c) 2). lia. }
  assert (Hcs : sqliteColDataSize (serial c) = int_of_u64 ((serial c - 12) / 2)).
  { unfold sqliteColDataSize.
    repeat match goal with |- context [?x =? ?y] => destruct (Z.eqb_spec x y); [lia|] end. simpl.
    destruct (Z.leb_spec 1 (serial c)), (Z.leb_spec (serial c) 4); simpl; try lia;
    destruct (Z.leb_spec 12 (serial c)); (done || lia). }
  rewrite Hb, Hcs. unfold int_of_u64. rewrite wrap64_id by go_lia. lia.
Qed.

(** The column walk over an encoded record: the prefix [pre] of the page has
    been consumed, [skip] is the data area before the current column. It comes
    past the columns [cols] to those of [rest]. *)
Lemma walk_columns_prefix cols rest page pre skip post headerEnd :
  Forall column_wf cols -> rest <> [] ->
  page = pre ++ type_codes (cols ++ rest) ++ skip ++ contents cols ++ post ->
  headerEnd = blen pre + blen (type_codes (cols ++ rest)) -> blen page <= 65536 ->
  walk_columns (length cols) page (blen page) headerEnd (blen pre) (headerEnd + blen skip)
  = walk_columns 0 page (blen page) headerEnd (blen (pre ++ type_codes cols)) (headerEnd + blen (skip ++ contents cols)).
Proof.
  revert pre skip. induction cols as [|c0 cols IH]; intros pre skip Hw Hne Hpage Hend Hle.
  - unfold type_codes, contents. cbn [length mbind list_bind]. by rewrite !app_nil_r.
  - apply Forall_cons in Hw as [[Hs0 Hb0]%column_size Hw].
    change ((c0 :: cols) ++ rest) with (c0 :: (cols ++ rest)) in *.
    rewrite type_codes_cons in Hpage, Hend. rewrite contents_cons in Hpage. rewrite blen_app in Hend.
    pose proof (blen_varint_encode (serial c0) ltac:(lia)) as Hv.
    assert (Htot := f_equal blen Hpage). rewrite !blen_app in Htot.
    pose proof (blen_nonneg (type_codes (cols ++ rest))). pose proof (blen_nonneg pre).
    pose proof (blen_nonneg (contents cols)). pose proof (blen_nonneg skip).
    pose proof (blen_nonneg post). pose proof (blen_nonneg (content c0)).
    cbn [length]. transitivity (walk_columns (length cols) page (blen page) headerEnd
      (blen (pre ++ varint_encode (serial c0))) (headerEnd + blen (skip ++ content c0))).
    + cbn [walk_columns]. destruct (Z.ltb_spec (blen pre) headerEnd); [|lia].
      rewrite Hpage at 1. rewrite go_from_app by done. cbn [bind_res]. rewrite <- !app_assoc.
      rewrite varint_decode_encode by (unfold two64; lia).
      destruct (Z.eqb_spec (blen (varint_encode (serial c0))) 0); [lia|].
      rewrite <- Hb0, wrap64_id by go_lia.
      destruct (Z.ltb_spec (blen page) (headerEnd + blen skip + blen (content c0))); [lia|].
      by rewrite !blen_app, Z.add_assoc.
    + rewrite (IH (pre ++ varint_encode (serial c0)) (skip ++ content c0)); try done.
      * by rewrite type_codes_cons, contents_cons, !app_assoc.
      * rewrite Hpage, <- !app_assoc. done.
      * rewrite blen_app. lia.
Qed.

Lemma walk_columns_encoded cols c tail page pre skip post headerEnd :
  Forall column_wf cols -> column_wf c -> blob_column c ->
  page = pre ++ type_codes (cols ++ c :: tail) ++ skip ++ contents (cols ++ c :: tail) ++ post ->
  headerEnd = blen pre + blen (type_codes (cols ++ c :: tail)) -> blen page <= 65536 ->
  walk_columns (length cols) page (blen page) headerEnd (blen pre) (headerEnd + blen skip)
  = Ok (Some (content c)).
Proof.
  intros Hw Hc Hbl Hpage Hend Hle. unfold contents in Hpage. rewrite bind_app in Hpage. fold (contents cols) in Hpage.
  fold (contents (c :: tail)) in Hpage. rewrite contents_cons, <- app_assoc in Hpage.
  rewrite (walk_columns_prefix cols (c :: tail) page pre skip ((content c ++ contents tail) ++ post)) by done.
  unfold type_codes in Hpage, Hend. rewrite bind_app in Hpage, Hend. fold (type_codes cols) (type_codes (c :: tail)) in Hpage, Hend.
  rewrite type_codes_cons in Hpage, Hend.
  destruct (blob_size c Hc Hbl) as [Hlen Hpos]. apply column_size in Hc as [Hser Hsz]. destruct Hbl as [Heven Hbig].
  pose proof (blen_varint_encode (serial c) ltac:(lia)) as Hv.
  assert (Htot := f_equal blen Hpage). rewrite !blen_app in Htot. rewrite !blen_app in Hend.
  pose proof (blen_nonneg (type_codes tail)). pose proof (blen_nonneg (type_codes cols)). pose proof (blen_nonneg pre).
  pose proof (blen_nonneg (contents tail)). pose proof (blen_nonneg (contents cols)). pose proof (blen_nonneg skip). pose proof (blen_nonneg post).
  cbn [walk_columns]. destruct (Z.ltb_spec (blen (pre ++ type_codes cols)) headerEnd) as [_|Hge]; [|rewrite blen_app in Hge; lia].
  replace page with ((pre ++ type_codes cols) ++ varint_encode (serial c) ++ (type_codes tail ++ skip ++ contents cols ++ (content c ++ contents tail) ++ post)) at 1
    by (rewrite Hpage, <- !app_assoc; done).
  rewrite go_from_app by done. cbn [bind_res]. rewrite varint_decode_encode by (unfold two64; lia).
  destruct (Z.eqb_spec (blen (varint_encode (serial c))) 0); [lia|].
  destruct (Z.ltb_spec (serial c) 12); [lia|]. rewrite Heven, Hlen. cbn [orb negb Z.eqb].
  destruct (Z.eqb_spec (blen (content c)) 0); [lia|]. rewrite blen_app, wrap64_id by go_lia.
  destruct (Z.ltb_spec (blen page) (headerEnd + (blen skip + blen (contents cols)) + blen (content c))); [lia|]. cbn [orb].
  assert (make_ok (blen (content c)) = true) as ->.
  { unfold make_ok. apply andb_true_intro. split; apply Z.leb_le; lia. }
  cbn [negb].
  replace page with ((pre ++ (type_codes cols ++ varint_encode (serial c) ++ type_codes tail) ++ skip ++ contents cols) ++ content c ++
    (contents tail ++ post)) by (rewrite Hpage, <- !app_assoc; done).
  rewrite go_slice_app by (rewrite ?blen_app; lia). done.
Qed.

(** A cert_hash column whose serial type says more bytes than the page has: the
    walk gives the row up, or panics when the end of the data is past 2^63. *)
Lemma walk_columns_huge cols tc tail page pre skip post headerEnd :
  Forall column_wf cols -> 14 <= tc < two64 -> tc mod 2 = 0 ->
  page = pre ++ type_codes (cols ++ mkColumn tc [] :: tail) ++ skip ++ contents cols ++ post ->
  headerEnd = blen pre + blen (type_codes (cols ++ mkColumn tc [] :: tail)) -> blen page <= 65536 ->
  let dataEnd := headerEnd + blen skip + blen (contents cols) + (tc - 12) / 2 in
  blen page < dataEnd ->
  walk_columns (length cols) page (blen page) headerEnd (blen pre) (headerEnd + blen skip)
  = if dataEnd <? 2 ^ 63 then Ok None else Panic.
Proof.
  intros Hw Htc Heven Hpage Hend Hle dataEnd Hbig.
  rewrite (walk_columns_prefix cols (mkColumn tc [] :: tail) page pre skip post) by done.
  unfold type_codes in Hpage, Hend. rewrite bind_app in Hpage, Hend. fold (type_codes cols) (type_codes (mkColumn tc [] :: tail)) in Hpage, Hend.
  rewrite type_codes_cons in Hpage, Hend. cbn [serial] in Hpage, Hend.
  pose proof (blen_varint_encode tc ltac:(lia)) as Hv.
  assert (Htot := f_equal blen Hpage). rewrite !blen_app in Htot. rewrite !blen_app in Hend.
  pose proof (blen_nonneg (type_codes tail)). pose proof (blen_nonneg (type_codes cols)). pose proof (blen_nonneg pre).
  pose proof (blen_nonneg (contents cols)). pose proof (blen_nonneg skip). pose proof (blen_nonneg post).
  cbn [walk_columns]. destruct (Z.ltb_spec (blen (pre ++ type_codes cols)) headerEnd) as [_|Hge]; [|rewrite blen_app in Hge; lia].
  replace page with ((pre ++ type_codes cols) ++ varint_encode tc ++ (type_codes tail ++ skip ++ contents cols ++ post)) at 1
    by (rewrite Hpage, <- !app_assoc; done).
  rewrite go_from_app by done. cbn [bind_res]. rewrite varint_decode_encode by lia.
  destruct (Z.eqb_spec (blen (varint_encode tc)) 0); [lia|].
  destruct (Z.ltb_spec tc 12); [lia|]. rewrite Heven. cbn [orb negb Z.eqb].
  assert (Hlen : 1 <= (tc - 12) / 2 < 2 ^ 63 - 6) by (split; [apply Z.div_le_lower_bound|apply Z.div_lt_upper_bound]; unfold two64 in *; lia).
  unfold int_of_u64. rewrite (wrap64_id ((tc - 12) / 2)) by go_lia.
  destruct (Z.eqb_spec ((tc - 12) / 2) 0); [lia|]. cbn [orb].
  rewrite blen_app. replace (headerEnd + (blen skip + blen (contents cols)) + (tc - 12) / 2) with dataEnd by (unfold dataEnd; lia).
  destruct (Z.ltb_spec dataEnd (2 ^ 63)) as [Hd|Hd].
  - rewrite wrap64_id by go_lia. by destruct (Z.ltb_spec (blen page) dataEnd); [|lia].
  - assert (Hwrap : wrap64 dataEnd < 0).
    { assert (Hle2 : dataEnd < 2 ^ 63 + 65536 * 2) by (unfold dataEnd; lia). unfold wrap64, two64.
      replace (dataEnd + 9223372036854775808) with (dataEnd - 2 ^ 63 + 1 * 18446744073709551616) by lia.
      rewrite Z.mod_add, Z.mod_small by lia. lia. }
    destruct (Z.ltb_spec (blen page) (wrap64 dataEnd)); [pose proof (blen_nonneg page); lia|].
    assert (make_ok ((tc - 12) / 2) = false) as ->.
    { unfold make_ok. apply andb_false_intro2, Z.leb_gt. unfold dataEnd in *. lia. }
    done.
Qed.

(** A cell's walk starts behind its three varints. *)
Lemma cell_walk cols payload rowid hdrSize pre post body :
  0 <= payload < two64 -> 0 <= rowid < two64 -> hdrSize = blen (varint_encode hdrSize) + blen (type_codes cols) ->
  let front := pre ++ varint_encode payload ++ varint_encode rowid ++ varint_encode hdrSize in
  let page := front ++ type_codes cols ++ body ++ post in
  blen page <= 65536 ->
  certHashFromCell page (blen pre) (blen page) =
    walk_columns certHashCol page (blen page) (blen front + blen (type_codes cols)) (blen front) (blen front + blen (type_codes cols)).
Proof.
  intros Hpay Hrow Hhdr front page Hle.
  assert (Hpage : page = pre ++ varint_encode payload ++ varint_encode rowid ++
    varint_encode hdrSize ++ type_codes cols ++ body ++ post) by (subst page front; by rewrite <- !app_assoc).
  pose proof (blen_varint_encode payload ltac:(lia)). pose proof (blen_varint_encode rowid ltac:(lia)).
  pose proof (blen_nonneg pre). pose proof (blen_nonneg (type_codes cols)).
  pose proof (blen_nonneg body). pose proof (blen_nonneg post). pose proof (blen_nonneg (varint_encode hdrSize)).
  assert (Htot := f_equal blen Hpage). rewrite !blen_app in Htot.
  assert (Hfront : blen front = blen pre + blen (varint_encode payload) + blen (varint_encode rowid) + blen (varint_encode hdrSize))
    by (unfold front; rewrite !blen_app; lia).
  clearbody page front. unfold certHashFromCell.
  rewrite Hpage at 1. rewrite go_from_app by done. cbn [bind_res].
  rewrite varint_decode_encode by lia. destruct (Z.eqb_spec (blen (varint_encode payload)) 0); [lia|].
  replace page with ((pre ++ varint_encode payload) ++ varint_encode rowid ++
    varint_encode hdrSize ++ type_codes cols ++ body ++ post) at 1 by (by rewrite Hpage, <- !app_assoc).
  rewrite go_from_app by (by rewrite blen_app). cbn [bind_res].
  rewrite varint_decode_encode by lia. destruct (Z.eqb_spec (blen (varint_encode rowid)) 0); [lia|].
  replace page with ((pre ++ varint_encode payload ++ varint_encode rowid) ++
    varint_encode hdrSize ++ type_codes cols ++ body ++ post) at 1 by (by rewrite Hpage, <- !app_assoc).
  rewrite go_from_app by (rewrite !blen_app; lia). cbn [bind_res].
  pose proof (blen_varint_encode hdrSize ltac:(lia)).
  rewrite varint_decode_encode by (unfold two64; lia).
  destruct (Z.eqb_spec (blen (varint_encode hdrSize)) 0); [lia|].
  unfold int_of_u64. rewrite (wrap64_id hdrSize), wrap64_id by go_lia.
  destruct (Z.ltb_spec (blen page) (blen pre + blen (varint_encode payload) + blen (varint_encode rowid) + hdrSize)); [lia|].
  replace (blen front + blen (type_codes cols)) with (blen pre + blen (varint_encode payload) + blen (varint_encode rowid) + hdrSize) by lia.
  f_equal; lia.
Qed.

(** A serial type close enough to 2^64 to overflow Go's [int] offsets. *)
Definition huge_type (tc : Z) : Prop := 18446744073709289472 <= tc.

(** The page holds no varint that decodes to a huge serial type. *)
Definition tame (page : bytes) : Prop :=
  forall off, 0 <= off < blen page -> ~ huge_type (fst (sqliteVarint (drop (Z.to_nat off) page))).

Definition slice_of (page ch : bytes) : Prop :=
  exists a b, page = a ++ ch ++ b /\ ch <> [].

Lemma go_slice_inv page lo hi ch :
  go_slice page lo hi = Ok ch -> lo < hi -> slice_of page ch /\ blen ch = hi - lo.
Proof.
  unfold go_slice. intros H Hlt.
  destruct (Z.leb_spec 0 lo), (Z.leb_spec lo hi), (Z.leb_spec hi (blen page)); try done.
  simpl in H. injection H as <-. split.
  - exists (take (Z.to_nat lo) page), (drop (Z.to_nat (hi - lo)) (drop (Z.to_nat lo) page)).
    rewrite take_drop, take_drop. split; [done|].
    intros E%(f_equal length). rewrite length_take, length_drop in E. unfold blen in *. simpl in E. lia.
  - unfold blen in *. rewrite length_take, length_drop. lia.
Qed.

(** Unless a huge serial type is met, the walk returns, and what it returns is
    a non-empty slice of the page. *)
Lemma walk_columns_safe cols page headerEnd pos dataOff :
  tame page -> blen page <= 65536 ->
  0 <= pos <= blen page -> headerEnd <= blen page -> headerEnd <= dataOff <= blen page ->
  exists r, walk_columns cols page (blen page) headerEnd pos dataOff = Ok r /\
    forall ch, r = Some ch -> slice_of page ch.
Proof.
  intros Ht Hle. revert pos dataOff. induction cols as [|cols IH]; intros pos dataOff Hp He Hd;
    cbn [walk_columns].
  all: destruct (Z.ltb_spec pos headerEnd) as [Hlt|]; [|by exists None].
  all: rewrite go_from_ok by lia; cbn [bind_res].
  all: destruct (sqliteVarint (drop (Z.to_nat pos) page)) as [tc n] eqn:Hvar.
  all: pose proof (sqliteVarint_bounds _ _ _ Hvar) as (Hn & _ & Htc).
  all: destruct (Z.eqb_spec n 0); [by exists None|].
  all: assert (Hsmall : tc < 18446744073709289472) by
    (specialize (Ht pos ltac:(lia)); rewrite Hvar in Ht; unfold huge_type in Ht; simpl in Ht; lia).
  - destruct (Z.ltb_spec tc 12); [by exists None|].
    destruct (negb (tc mod 2 =? 0)); [by exists None|]. cbn [orb].
    assert (Hl : 0 <= (tc - 12) / 2 < 9223372036854644730).
    { split; [apply Z.div_pos; lia|apply Z.div_lt_upper_bound; lia]. }
    unfold int_of_u64. rewrite (wrap64_id ((tc - 12) / 2)) by go_lia.
    destruct (Z.eqb_spec ((tc - 12) / 2) 0); [by exists None|]. cbn [orb].
    rewrite (wrap64_id (dataOff + (tc - 12) / 2)) by go_lia.
    destruct (Z.ltb_spec (blen page) (dataOff + (tc - 12) / 2)); [by exists None|].
    assert (make_ok ((tc - 12) / 2) = true) as ->.
    { unfold make_ok. apply andb_true_intro. split; apply Z.leb_le; lia. }
    cbn [negb]. rewrite go_slice_ok by lia. cbn [bind_res]. eexists. split; [done|].
    intros ch [= <-]. eapply go_slice_inv; [apply go_slice_ok; lia|lia].
  - destruct (colsize_bounds tc Htc) as [Hc1 Hc2].
    assert (tc / 2 < 9223372036854644737) by (apply Z.div_lt_upper_bound; lia).
    rewrite wrap64_id by go_lia.
    destruct (Z.ltb_spec (blen page) (dataOff + sqliteColDataSize tc)); [by exists None|].
    assert (Hn' : n <= blen page - pos).
    { destruct Hn as [_ Hn]. unfold blen in *. rewrite length_drop in Hn. lia. }
    apply IH; lia.
Qed.

Lemma cert_hash_safe page cellOff :
  tame page -> blen page <= 65536 -> 0 <= cellOff <= blen page ->
  exists r, certHashFromCell page cellOff (blen page) = Ok r /\
    forall ch, r = Some ch -> slice_of page ch.
Proof.
  intros Ht Hle Hc. unfold certHashFromCell. rewrite go_from_ok by lia. cbn [bind_res].
  destruct (sqliteVarint (drop (Z.to_nat cellOff) page)) as [v1 n1] eqn:E1.
  apply sqliteVarint_bounds in E1 as (H1 & _ & _). unfold blen in H1. rewrite length_drop in H1.
  destruct (Z.eqb_spec n1 0); [by exists None|]. unfold blen in *.
  rewrite go_from_ok by (unfold blen; lia). cbn [bind_res].
  destruct (sqliteVarint (drop (Z.to_nat (cellOff + n1)) page)) as [v2 n2] eqn:E2.
  apply sqliteVarint_bounds in E2 as (H2 & _ & _). unfold blen in H2. rewrite length_drop in H2.
  destruct (Z.eqb_spec n2 0); [by exists None|].
  rewrite go_from_ok by (unfold blen; lia). cbn [bind_res].
  destruct (sqliteVarint (drop (Z.to_nat (cellOff + n1 + n2)) page)) as [v3 n3] eqn:E3.
  apply sqliteVarint_bounds in E3 as (H3 & _ & _). unfold blen in H3. rewrite length_drop in H3.
  destruct (Z.eqb_spec n3 0); [by exists None|].
  destruct (Z.ltb_spec (Z.of_nat (length page)) (wrap64 (cellOff + n1 + n2 + int_of_u64 v3)));
    [by exists None|].
  apply walk_columns_safe; unfold blen; (done || lia).
Qed.

Lemma scan_cells_safe k i page hdrOff :
  tame page -> blen page <= 65536 -> 0 <= hdrOff -> 0 <= i ->
  exists l, scan_cells k i page hdrOff (blen page) = Ok l /\ Forall (slice_of page) l.
Proof.
  intros Ht Hle Hh. revert i. induction k as [|k IH]; intros i Hi; cbn [scan_cells]; [by exists []|].
  destruct (Z.ltb_spec (blen page) (hdrOff + 8 + i * 2 + 2)); [by exists []|].
  rewrite go_slice_ok by lia. cbn [bind_res].
  set (off := be _). destruct (IH (i + 1) ltac:(lia)) as (l & Hl & Hf).
  destruct (Z.leb_spec off hdrOff), (Z.leb_spec (blen page) off); cbn [orb]; try by exists l.
  destruct (cert_hash_safe page off Ht Hle ltac:(lia)) as (r & Hr & Hs).
  rewrite Hr, Hl. cbn [bind_res]. eexists. split; [done|].
  destruct r; [|done]. constructor; [by apply Hs|done].
Qed.

Lemma scan_page_safe page pageNum :
  tame page -> 512 <= blen page <= 65536 ->
  exists l, scan_page page pageNum (blen page) = Ok l /\ Forall (slice_of page) l.
Proof.
  intros Ht Hle. unfold scan_page. set (h := if pageNum =? 1 then 100 else 0).
  assert (0 <= h <= 100) by (subst h; case_match; lia).
  destruct (go_index_ok page h) as (x & _ & ->); [lia|]. cbn [bind_res].
  destruct (bval x =? 13); cbn [negb]; [|by exists []].
  rewrite go_slice_ok by lia. cbn [bind_res]. apply scan_cells_safe; (done || lia).
Qed.

(** Page [k] of a file, for a page size [ps]. *)
Definition page_at (file : bytes) (ps : Z) (k : nat) : bytes :=
  take (Z.to_nat ps) (drop (k * Z.to_nat ps) file).

Lemma scan_pages_safe k pageNum ps file :
  512 <= ps <= 65536 -> (forall j, (j < k)%nat -> tame (page_at file ps j)) ->
  exists l, scan_pages k pageNum ps file = Ok l /\
    Forall (fun ch => exists j, (j < k)%nat /\ slice_of (page_at file ps j) ch) l.
Proof.
  intros Hps. revert pageNum file. induction k as [|k IH]; intros pageNum file Ht;
    cbn [scan_pages]; [by exists []|].
  destruct (Z.ltb_spec (blen file) ps); [by exists []|].
  assert (H0 : page_at file ps 0 = take (Z.to_nat ps) file) by (unfold page_at; by rewrite drop_0).
  assert (Hb : blen (take (Z.to_nat ps) file) = ps)
    by (unfold blen in *; rewrite length_take; lia).
  destruct (scan_page_safe (take (Z.to_nat ps) file) pageNum) as (a & Ha & Hfa);
    [rewrite <- H0; apply Ht; lia|lia|].
  rewrite Hb in Ha. rewrite Ha. cbn [bind_res].
  assert (Hsh : forall j, page_at (drop (Z.to_nat ps) file) ps j = page_at file ps (S j)).
  { intros j. unfold page_at. rewrite drop_drop. f_equal. }
  destruct (IH (pageNum + 1) (drop (Z.to_nat ps) file)) as (b & Hb' & Hfb);
    [intros j Hj; rewrite Hsh; apply Ht; lia|].
  rewrite Hb'. cbn [bind_res]. eexists. split; [done|]. apply Forall_app. split.
  - eapply Forall_impl; [exact Hfa|]. intros ch Hch. exists 0%nat. rewrite H0. split; [lia|done].
  - eapply Forall_impl; [exact Hfb|]. intros ch (j & Hj & Hch). exists (S j). rewrite <- Hsh. split; [lia|done].
Qed.

(** A 512-byte single-page file whose only cell has a first column of serial
    type 2^64-1: the data offset wraps to a negative [int]. *)
Definition overflow_file : bytes :=
  sqlite_magic ++ [byte_of 2; byte_of 0] ++ repeat x00 82 ++
  [byte_of 13; x00; x00; x00; byte_of 1; x00; x00; x00; x00; byte_of 200] ++ repeat x00 90 ++
  ([byte_of 40; byte_of 1; byte_of 27] ++ repeat xff 9 ++ repeat x00 16 ++ [byte_of 14]) ++
  repeat x00 283.

(** ** Properties *)

(** [sqliteVarint] decodes every 64-bit value from SQLite's varint
    encoding, whatever follows it, and reports the number of bytes the
    encoding took (never more than 9). *)
Theorem varint_roundtrip v rest :
  0 <= v < two64 ->
  sqliteVarint (varint_encode v ++ rest) = (v, blen (varint_encode v)) /\
  1 <= blen (varint_encode v) <= 9.
Proof.
  intros H. split; [by apply varint_decode_encode|]. apply blen_varint_encode. lia.
Qed.

Lemma varint_roundtrip_witness :
  0 <= 18446744073709551615 < two64 /\
  sqliteVarint (varint_encode 18446744073709551615 ++ [x61]) =
    (18446744073709551615, blen (varint_encode 18446744073709551615)).
Proof.
  split; [unfold two64; lia|].
  apply (proj1 (varint_roundtrip 18446744073709551615 [x61] ltac:(unfold two64; lia))).
Defined.

(** C26. For every subjects row stored without overflow on a leaf page (any 17
    columns before cert_hash, any columns after it), [certHashFromCell]
    returns exactly the cert_hash blob. *)
Theorem cert_hash_extracted cols c tail payload rowid hdrSize pre post :
  length cols = certHashCol -> Forall column_wf cols -> column_wf c -> blob_column c ->
  0 <= payload < two64 -> 0 <= rowid < two64 ->
  hdrSize = blen (varint_encode hdrSize) + blen (type_codes (cols ++ c :: tail)) ->
  let page := pre ++ encode_cell payload rowid hdrSize (cols ++ c :: tail) ++ post in
  blen page <= 65536 ->
  certHashFromCell page (blen pre) (blen page) = Ok (Some (content c)).
Proof.
  intros Hlen Hw Hc Hbl Hpay Hrow Hhdr page Hle. set (all := cols ++ c :: tail) in *.
  assert (Hpage : page = (pre ++ varint_encode payload ++ varint_encode rowid ++ varint_encode hdrSize) ++
    type_codes all ++ contents all ++ post) by (subst page; unfold encode_cell; by rewrite <- !app_assoc).
  rewrite Hpage in Hle |- *. etransitivity; [exact (cell_walk all payload rowid hdrSize pre post (contents all) Hpay Hrow Hhdr Hle)|]. rewrite <- Hlen.
  pose proof (walk_columns_encoded cols c tail _ (pre ++ varint_encode payload ++ varint_encode rowid ++ varint_encode hdrSize) [] post
    _ Hw Hc Hbl eq_refl eq_refl Hle) as W.
  change (blen []) with 0 in W. rewrite Z.add_0_r in W. exact W.
Qed.

Lemma cert_hash_extracted_witness :
  let cols := repeat (mkColumn 1 [x07]) 17 in
  let c := mkColumn 18 [x61; x62; x63] in
  certHashFromCell ([x00] ++ encode_cell 40 5 20 (cols ++ [c; mkColumn 0 []]) ++ [x00; x00]) 1
    (blen ([x00] ++ encode_cell 40 5 20 (cols ++ [c; mkColumn 0 []]) ++ [x00; x00]))
  = Ok (Some [x61; x62; x63]).
Proof.
  apply (cert_hash_extracted (repeat (mkColumn 1 [x07]) 17) (mkColumn 18 [x61; x62; x63])
           [mkColumn 0 []] 40 5 20 [x00] [x00; x00]).
  - reflexivity.
  - repeat constructor; simpl; lia.
  - repeat split; simpl; lia.
  - split; [reflexivity|simpl; lia].
  - unfold two64; lia.
  - unfold two64; lia.
  - reflexivity.
  - vm_compute. discriminate.
Defined.

(** C39. On any file with the SQLite magic, a legal page size and no serial
    type within 2^18 of 2^64, the scanner terminates without a run-time panic,
    and every hash it emits is a non-empty slice of one of the file's pages. *)
Theorem scan_never_panics file :
  100 <= blen file -> take 16 file = sqlite_magic ->
  let ps := header_page_size file in
  512 <= ps <= 65536 ->
  (forall k, (k < Z.to_nat (blen file / ps))%nat -> tame (page_at file ps k)) ->
  exists l, scanArchiveCertHashes file = Ok l /\
    Forall (fun ch => exists k, (k < Z.to_nat (blen file / ps))%nat /\
                               slice_of (page_at file ps k) ch) l.
Proof.
  intros Hl Hm ps Hps Ht. unfold scanArchiveCertHashes. fold ps.
  destruct (Z.ltb_spec (blen file) 100); [lia|].
  rewrite bool_decide_eq_true_2 by done. cbn [negb].
  destruct (Z.eqb_spec ps 0); [lia|]. by apply scan_pages_safe.
Qed.

Lemma scan_never_panics_witness :
  let file := sqlite_magic ++ [byte_of 2; byte_of 0] ++ repeat x00 494 in
  exists l, scanArchiveCertHashes file = Ok l /\
    Forall (fun ch => exists k, (k < Z.to_nat (blen file / header_page_size file))%nat /\
                               slice_of (page_at file (header_page_size file) k) ch) l.
Proof.
  apply (scan_never_panics (sqlite_magic ++ [byte_of 2; byte_of 0] ++ repeat x00 494)).
  - vm_compute. discriminate.
  - reflexivity.
  - vm_compute. split; discriminate.
  - assert (Hall : forallb (fun off => fst (sqliteVarint (drop off
        (sqlite_magic ++ [byte_of 2; byte_of 0] ++ repeat x00 494))) <? 18446744073709289472)
        (seq 0 512) = true) by (vm_compute; reflexivity).
    intros k Hk. change (Z.to_nat _) with 1%nat in Hk. replace k with 0%nat by lia.
    change (page_at _ _ 0) with (sqlite_magic ++ [byte_of 2; byte_of 0] ++ repeat x00 494).
    intros off Hoff. change (blen _) with 512 in Hoff. unfold huge_type.
    rewrite forallb_forall in Hall. specialize (Hall (Z.to_nat off) ltac:(apply in_seq; lia)).
    apply Z.ltb_lt in Hall. lia.
Defined.

(** C40. Without that restriction the scanner is not safe. A cell whose cert_hash
    has a serial type for more bytes than the page holds is skipped as long as the
    end of those bytes stays below 2^63, and panics when it does not: the sum of
    offset and length wraps to a negative [int] that passes the bound check. And
    a file with the SQLite magic whose header has page size 0 panics, whatever
    else it holds (division by zero). *)
Theorem scan_overflow_panics cols tc tail payload rowid hdrSize pre post file :
  (length cols = certHashCol -> Forall column_wf cols -> 14 <= tc < two64 -> tc mod 2 = 0 ->
   0 <= payload < two64 -> 0 <= rowid < two64 ->
   let all := cols ++ mkColumn tc [] :: tail in
   hdrSize = blen (varint_encode hdrSize) + blen (type_codes all) ->
   let front := pre ++ varint_encode payload ++ varint_encode rowid ++ varint_encode hdrSize ++ type_codes all in
   let page := front ++ contents cols ++ post in
   let dataEnd := blen front + blen (contents cols) + (tc - 12) / 2 in
   blen page <= 65536 -> blen page < dataEnd ->
   certHashFromCell page (blen pre) (blen page) = if dataEnd <? 2 ^ 63 then Ok None else Panic) /\
  (100 <= blen file -> take 16 file = sqlite_magic -> header_page_size file = 0 -> scanArchiveCertHashes file = Panic).
Proof.
  split.
  - intros Hlen Hw Htc Heven Hpay Hrow all Hhdr front page dataEnd Hle Hbig.
    set (start := pre ++ varint_encode payload ++ varint_encode rowid ++ varint_encode hdrSize).
    assert (Hpage : page = start ++ type_codes all ++ contents cols ++ post) by (subst page front start; by rewrite <- !app_assoc).
    assert (Hfront : blen front = blen start + blen (type_codes all)) by (subst front start; rewrite !blen_app; lia).
    rewrite Hpage in Hle, Hbig |- *.
    etransitivity; [exact (cell_walk all payload rowid hdrSize pre post (contents cols) Hpay Hrow Hhdr Hle)|]. fold start. rewrite <- Hlen.
    pose proof (walk_columns_huge cols tc tail _ start [] post _ Hw Htc Heven eq_refl eq_refl Hle) as W.
    cbv zeta in W. change (blen []) with 0 in W. rewrite !Z.add_0_r in W. unfold dataEnd in *. rewrite Hfront in *. by apply W.
  - intros H1 H2 H3. unfold scanArchiveCertHashes. destruct (Z.ltb_spec (blen file) 100); [lia|].
    by rewrite bool_decide_true, H3 by done.
Qed.

(** A cert_hash of serial type 2^64-2 behind seventeen one-byte columns. *)
Lemma scan_overflow_panics_witness :
  let cols := repeat (mkColumn 1 [x07]) 17 in
  let front := [x00] ++ varint_encode 40 ++ varint_encode 5 ++ varint_encode 27 ++ type_codes (cols ++ [mkColumn (two64 - 2) []]) in
  let page := front ++ contents cols ++ [x00] in
  certHashFromCell page 1 (blen page) = Panic /\ scanArchiveCertHashes (sqlite_magic ++ repeat x00 496) = Panic.
Proof.
  destruct (scan_overflow_panics (repeat (mkColumn 1 [x07]) 17) (two64 - 2) [] 40 5 27 [x00] [x00] (sqlite_magic ++ repeat x00 496)) as [H1 H2].
  split.
  - apply H1.
    + reflexivity.
    + repeat constructor; simpl; lia.
    + unfold two64. lia.
    + reflexivity.
    + unfold two64. lia.
    + unfold two64. lia.
    + vm_compute. reflexivity.
    + vm_compute. discriminate.
    + vm_compute. reflexivity.
  - apply H2; vm_compute; [discriminate|reflexivity|reflexivity].
Defined.

(** ** Findings *)

(** A whole file that panics: the serial type 2^64-1 of its cell's first column
    makes the data offset wrap. *)
Lemma overflow_file_panics : blen overflow_file = 512 /\ header_page_size overflow_file = 512 /\ scanArchiveCertHashes overflow_file = Panic.
Proof. repeat split; vm_compute; reflexivity. Qed.
