(* ===== verification/PageScan.v ===== *)
(** The page scanners of tools/rawscan and cmd/repartition: both read a SQLite
    file page by page, find the cells of its leaf table pages and parse each
    cell's record header in the same way. The varint and the column sizes are
    those of internal/db/rawscan.go (RawScan.v). *)

From S2P Require Import Prelude GoStd RawScan.

(** ** Definitions *)

(** *** Pages and cells *)

Section Scan.

Context {A : Type}.

(** What is made of the cell at an offset of a page; [None] skips it. *)
Variable parse : bytes -> Z -> Z -> res (option A).

(** The cell pointers from the [i]th; a pointer outside the page's content is
    passed over. *)
Fixpoint page_cells (k : nat) (i : Z) (page : bytes) (hdrOff pageSize : Z) : res (list (option A)) :=
  match k with
  | O => Ok []
  | S k =>
      let cpOff := hdrOff + 8 + i * 2 in
      if pageSize <? cpOff + 2 then Ok [] else
      let? cp := go_slice page cpOff (cpOff + 2) in
      let cellOff := be cp in
      if (cellOff <=? hdrOff) || (pageSize <=? cellOff) then page_cells k (i + 1) page hdrOff pageSize
      else
        let? a := parse page cellOff pageSize in
        let? rest := page_cells k (i + 1) page hdrOff pageSize in
        Ok (a :: rest)
  end.

Definition leaf_page (page : bytes) (pageNum pageSize : Z) : res (list (option A)) :=
  let hdrOff := if pageNum =? 1 then 100 else 0 in
  let? kind := go_index page hdrOff in
  if negb (kind =? 13) then Ok [] else
  let? nb := go_slice page (hdrOff + 3) (hdrOff + 5) in
  page_cells (Z.to_nat (be nb)) 0 page hdrOff pageSize.

(** A short read ends the loop. *)
Fixpoint file_pages (k : nat) (pageNum pageSize : Z) (file : bytes) : res (list (option A)) :=
  match k with
  | O => Ok []
  | S k =>
      if blen file <? pageSize then Ok [] else
      let? a := leaf_page (take (Z.to_nat pageSize) file) pageNum pageSize in
      let? b := file_pages k (pageNum + 1) pageSize (drop (Z.to_nat pageSize) file) in
      Ok (a ++ b)
  end.

Definition file_rows (file : bytes) : res (list (option A)) :=
  if blen file <? 100 then Err (Wrap "read header" (if blen file =? 0 then EOF else ErrUnexpectedEOF)) else
  if negb (bool_decide (take 16 file = sqlite_magic)) then Err (Errorf "not a SQLite database") else
  let pageSize := header_page_size file in
  if pageSize =? 0 then Panic else
  file_pages (Z.to_nat (blen file / pageSize)) 1 pageSize file.

End Scan.

(** *** Record headers *)

(** The first type code's position and the header's end; [None] for a cell that
    is skipped. *)
Definition cell_header (page : bytes) (cellOff pageSize : Z) : res (option (Z * Z)) :=
  let pos := cellOff in
  let? rest := go_from page pos in
  let '(_, n) := sqliteVarint rest in
  if n =? 0 then Ok None else
  let pos := pos + n in
  let? rest := go_from page pos in
  let '(_, n) := sqliteVarint rest in
  if n =? 0 then Ok None else
  let pos := pos + n in
  let payloadStart := pos in
  let? rest := go_from page pos in
  let '(headerSize, n) := sqliteVarint rest in
  if (n =? 0) || (pageSize - payloadStart <? int_of_u64 headerSize) then Ok None else
  Ok (Some (pos + n, payloadStart + int_of_u64 headerSize)).

(** At most [k] type codes; [None] when one is cut off. *)
Fixpoint read_types (k : nat) (page : bytes) (headerEnd pos : Z) : res (option (list Z)) :=
  match k with
  | O => Ok (Some [])
  | S k =>
      if pos <? headerEnd then
        let? rest := go_from page pos in
        let '(tc, n) := sqliteVarint rest in
        if n =? 0 then Ok None
        else
          let? tcs := read_types k page headerEnd (pos + n) in
          Ok (option_map (cons tc) tcs)
      else Ok (Some [])
  end.

(** ** Lemmas *)

(** The cell at [off] of a page is the record [cols]. *)
Record cell_at (page : bytes) (off : Z) (cols : list column) (pre post : bytes) (payload rowid hdrSize : Z) : Prop := {
  ca_page : page = pre ++ encode_cell payload rowid hdrSize cols ++ post;
  ca_off : off = blen pre;
  ca_cols : Forall column_wf cols;
  ca_payload : 0 <= payload < two64;
  ca_rowid : 0 <= rowid < two64;
  ca_header : hdrSize = blen (varint_encode hdrSize) + blen (type_codes cols);
  ca_size : blen page <= 65536 }.

(** Where the cell's header is. *)
Definition header_of (page : bytes) (payload rowid hdrSize : Z) (pre : bytes) : bytes :=
  pre ++ varint_encode payload ++ varint_encode rowid ++ varint_encode hdrSize.

Lemma cell_page page off cols pre post payload rowid hdrSize : cell_at page off cols pre post payload rowid hdrSize ->
  page = header_of page payload rowid hdrSize pre ++ type_codes cols ++ contents cols ++ post.
Proof. intros [-> _ _ _ _ _ _]. unfold header_of, encode_cell. by rewrite <- !app_assoc. Qed.

(** Reading one varint. *)
Lemma varint_at page pre v rest : page = pre ++ varint_encode v ++ rest -> 0 <= v < two64 ->
  go_from page (blen pre) = Ok (varint_encode v ++ rest) /\
  sqliteVarint (varint_encode v ++ rest) = (v, blen (varint_encode v)) /\ (blen (varint_encode v) =? 0) = false.
Proof.
  intros -> Hv. split; [by apply go_from_app|]. split; [by apply varint_decode_encode|].
  pose proof (blen_varint_encode v ltac:(lia)). by apply Z.eqb_neq; lia.
Qed.

Lemma cell_header_encoded page off cols pre post payload rowid hdrSize :
  cell_at page off cols pre post payload rowid hdrSize ->
  let h := blen (header_of page payload rowid hdrSize pre) in
  cell_header page off (blen page) = Ok (Some (h, h + blen (type_codes cols))).
Proof.
  intros Hc. pose proof (cell_page _ _ _ _ _ _ _ _ Hc) as Hpage. destruct Hc as [_ -> _ Hpay Hrow Hhdr Hle]. cbn zeta.
  pose proof (blen_nonneg pre). pose proof (blen_nonneg (type_codes cols)). pose proof (blen_nonneg (contents cols)).
  pose proof (blen_nonneg post). pose proof (blen_nonneg (varint_encode hdrSize)).
  pose proof (blen_nonneg (varint_encode payload)). pose proof (blen_nonneg (varint_encode rowid)).
  unfold header_of in *. assert (Htot := f_equal blen Hpage). rewrite !blen_app in Htot. rewrite <- !app_assoc in Hpage.
  assert (Hs : 0 <= hdrSize < two64) by (unfold two64; lia). unfold cell_header.
  destruct (varint_at page pre payload _ Hpage Hpay) as (-> & E1 & N1). cbn [bind_res]. rewrite E1, N1.
  rewrite (app_assoc pre) in Hpage. rewrite <- blen_app.
  destruct (varint_at page (pre ++ varint_encode payload) rowid _ Hpage Hrow) as (-> & E2 & N2). cbn [bind_res]. rewrite E2, N2.
  rewrite (app_assoc _ (varint_encode rowid)) in Hpage. rewrite <- blen_app.
  destruct (varint_at page ((pre ++ varint_encode payload) ++ varint_encode rowid) hdrSize _ Hpage Hs) as (-> & E3 & N3).
  cbn [bind_res]. rewrite E3, N3. unfold int_of_u64. rewrite wrap64_id by go_lia. cbn [orb].
  rewrite !blen_app. destruct (Z.ltb_spec (blen page - (blen pre + blen (varint_encode payload) + blen (varint_encode rowid))) hdrSize); [lia|].
  do 3 f_equal; lia.
Qed.

(** The type codes of a record, as many as are asked for. *)
Lemma read_types_encoded k cols page pre rest : Forall column_wf cols ->
  page = pre ++ type_codes cols ++ rest ->
  read_types k page (blen pre + blen (type_codes cols)) (blen pre) = Ok (Some (map serial (take k cols))).
Proof.
  revert cols pre. induction k as [|k IH]; intros cols pre Hw Hpage; [done|]. cbn [read_types].
  destruct cols as [|c cols].
  { cbn [type_codes mbind list_bind]. change (blen []) with 0. destruct (Z.ltb_spec (blen pre) (blen pre + 0)); [lia|done]. }
  apply Forall_cons in Hw as [[Hs _]%column_size Hw]. rewrite type_codes_cons, <- app_assoc in Hpage. rewrite type_codes_cons, blen_app.
  pose proof (blen_varint_encode (serial c) ltac:(lia)). pose proof (blen_nonneg (type_codes cols)).
  destruct (Z.ltb_spec (blen pre) (blen pre + (blen (varint_encode (serial c)) + blen (type_codes cols)))); [|lia].
  destruct (varint_at page pre (serial c) _ Hpage) as (-> & E & N); [unfold two64; lia|]. cbn [bind_res]. rewrite E, N.
  rewrite Z.add_assoc, <- blen_app. rewrite (IH cols) by (done || by rewrite Hpage, <- app_assoc). done.
Qed.

(** Where the [i]th column's data is. *)
Lemma column_slice cols i c pre post : cols !! i = Some c ->
  go_slice (pre ++ contents cols ++ post) (blen pre + blen (contents (take i cols))) (blen pre + blen (contents (take i cols)) + blen (content c)) =
  Ok (content c).
Proof.
  intros Hi. rewrite <- (take_drop_middle cols i c Hi) at 1. unfold contents at 1. rewrite bind_app, bind_cons. fold (contents (take i cols)).
  rewrite <- !app_assoc, (app_assoc pre). apply go_slice_app; rewrite blen_app; lia.
Qed.

Definition sizes (cols : list column) : Z := foldr (fun c n => sqliteColDataSize (serial c) + n) 0 cols.

Lemma sizes_contents cols : Forall column_wf cols -> sizes cols = blen (contents cols).
Proof.
  induction 1 as [|c cols [_ Hc]%column_size _ IH]; [done|]. cbn [sizes foldr]. fold (sizes cols). by rewrite IH, contents_cons, blen_app, Hc.
Qed.

Lemma text_size c : column_wf c -> 13 <= serial c -> serial c mod 2 = 1 -> int_of_u64 ((serial c - 13) / 2) = blen (content c).
Proof.
  intros (Hr & _ & _ & E) H13 Hodd. rewrite E. unfold serial_width. destruct (Z.ltb_spec (serial c) 10); [lia|].
  assert (Z.even (serial c) = false) as -> by (rewrite Zeven_mod; apply Z.eqb_neq; lia).
  assert ((serial c - 13) / 2 < 2 ^ 31) by (apply Z.div_lt_upper_bound; lia). assert (0 <= (serial c - 13) / 2) by (apply Z.div_pos; lia).
  unfold int_of_u64. by rewrite wrap64_id by go_lia.
Qed.


(** The columns of a text and of a small integer. *)
Definition text_column (s : string) : column := mkColumn (13 + 2 * Z.of_nat (String.length s)) (String.list_byte_of_string s).
Definition int_column (z : Z) : column := mkColumn 1 [byte_of z].
Definition null_column : column := mkColumn 0 [].

Lemma text_column_wf s : (String.length s <= 100)%nat -> column_wf (text_column s).
Proof.
  intros Hs. unfold column_wf, text_column, serial_width. cbn [serial content].
  destruct (Z.ltb_spec (13 + 2 * Z.of_nat (String.length s)) 10); [lia|].
  replace (Z.even _) with false by (rewrite Z.even_add, Z.even_mul; done).
  replace (13 + 2 * Z.of_nat (String.length s) - 13) with (Z.of_nat (String.length s) * 2) by lia. rewrite Z.div_mul by lia.
  split; [lia|]. split; [lia|]. split; [lia|]. unfold blen, String.list_byte_of_string. rewrite length_map. f_equal. clear. induction s as [|a s IH]; [done|]. cbn. by rewrite IH.
Qed.

Lemma int_column_wf z : column_wf (int_column z).
Proof. repeat split; cbn; lia. Qed.

Lemma null_column_wf : column_wf null_column.
Proof. repeat split; cbn; lia. Qed.

(** *** Files *)

Definition header_off (pageNum : Z) : Z := if pageNum =? 1 then 100 else 0.

(** A leaf table page whose cells are [rows], each stored without overflow. *)
Record leaf_holds (page : bytes) (pageNum : Z) (rows : list (list column)) : Prop := {
  lh_kind : go_index page (header_off pageNum) = Ok 13;
  lh_count : exists nb, go_slice page (header_off pageNum + 3) (header_off pageNum + 5) = Ok nb /\ be nb = Z.of_nat (length rows);
  lh_size : header_off pageNum + 8 + 2 * Z.of_nat (length rows) <= blen page;
  lh_cells : forall i cols, rows !! i = Some cols -> exists cp pre post payload rowid hdrSize,
    let off := header_off pageNum + 8 + Z.of_nat i * 2 in
    go_slice page off (off + 2) = Ok cp /\ header_off pageNum < be cp < blen page /\ cell_at page (be cp) cols pre post payload rowid hdrSize }.

(** The rows of a page: none if it is no leaf table page. *)
Definition page_holds (page : bytes) (pageNum : Z) (rows : list (list column)) : Prop :=
  leaf_holds page pageNum rows \/ rows = [] /\ exists kind, go_index page (header_off pageNum) = Ok kind /\ kind <> 13.

(** A database file: its pages, in order, and the rows they hold. *)
Record file_holds (file : bytes) (rows : list (list column)) : Prop := {
  fh_magic : take 16 file = sqlite_magic;
  fh_size : 512 <= header_page_size file;
  fh_pages : exists pages rowss, file = concat pages /\ pages <> [] /\ rows = concat rowss /\
    Forall (fun page => blen page = header_page_size file) pages /\
    length pages = length rowss /\
    forall i page rs, pages !! i = Some page -> rowss !! i = Some rs -> page_holds page (Z.of_nat i + 1) rs }.

(** Checking a concrete page: its cells as the columns, the payload size, the row id
    and the header size of each. *)
Definition column_wfb (c : column) : bool :=
  (0 <=? serial c) && (serial c <? 2 ^ 31) && negb (serial c =? 10) && negb (serial c =? 11) && (blen (content c) =? serial_width (serial c)).

Definition cell_check (page : bytes) (pageNum : Z) (i : nat) (cell : list column * Z * Z * Z) : bool :=
  let '(cols, payload, rowid, hdrSize) := cell in
  let off := header_off pageNum + 8 + Z.of_nat i * 2 in
  match go_slice page off (off + 2) with
  | Ok cp =>
      let enc := encode_cell payload rowid hdrSize cols in
      (header_off pageNum <? be cp) && (be cp <? blen page) && bool_decide (take (length enc) (drop (Z.to_nat (be cp)) page) = enc) &&
      forallb column_wfb cols && (0 <=? payload) && (payload <? two64) && (0 <=? rowid) && (rowid <? two64) &&
      (hdrSize =? blen (varint_encode hdrSize) + blen (type_codes cols)) && (blen page <=? 65536)
  | _ => false
  end.

Fixpoint cells_check (page : bytes) (pageNum : Z) (i : nat) (cells : list (list column * Z * Z * Z)) : bool :=
  match cells with [] => true | c :: cells => cell_check page pageNum i c && cells_check page pageNum (S i) cells end.

Definition leaf_check (page : bytes) (pageNum : Z) (cells : list (list column * Z * Z * Z)) : bool :=
  match go_index page (header_off pageNum), go_slice page (header_off pageNum + 3) (header_off pageNum + 5) with
  | Ok kind, Ok nb =>
      (kind =? 13) && (be nb =? Z.of_nat (length cells)) && (header_off pageNum + 8 + 2 * Z.of_nat (length cells) <=? blen page) &&
      cells_check page pageNum 0 cells
  | _, _ => false
  end.

Lemma column_wfb_spec c : column_wfb c = true -> column_wf c.
Proof. unfold column_wfb, column_wf. rewrite !andb_true_iff, !negb_true_iff, !Z.eqb_neq, Z.eqb_eq. intros. lia. Qed.

Lemma cell_check_spec page pageNum i cols payload rowid hdrSize : cell_check page pageNum i (cols, payload, rowid, hdrSize) = true ->
  exists cp pre post, let off := header_off pageNum + 8 + Z.of_nat i * 2 in
    go_slice page off (off + 2) = Ok cp /\ header_off pageNum < be cp < blen page /\ cell_at page (be cp) cols pre post payload rowid hdrSize.
Proof.
  unfold cell_check. destruct (go_slice _ _ _) as [cp|?|]; [|done..]. cbn zeta. set (enc := encode_cell _ _ _ _).
  rewrite !andb_true_iff, bool_decide_eq_true. intros [[[[[[[[[H1 H2] H3] H4] H5] H6] H7] H8] H9] H10].
  assert (0 <= header_off pageNum) by (unfold header_off; by case_match).
  exists cp, (take (Z.to_nat (be cp)) page), (drop (length enc) (drop (Z.to_nat (be cp)) page)). split; [done|]. split; [lia|].
  split; [| | |lia..]; unfold blen in *.
  - set (rest := drop (Z.to_nat (be cp)) page) in *. transitivity (take (Z.to_nat (be cp)) page ++ rest); [unfold rest; by rewrite take_drop|].
    f_equal. transitivity (take (length enc) rest ++ drop (length enc) rest); [by rewrite take_drop|]. by rewrite H3.
  - rewrite length_take. lia.
  - rewrite forallb_forall in H4. apply Forall_forall. intros c Hc. by apply column_wfb_spec, H4, list_elem_of_In.
Qed.

Lemma cells_check_spec page pageNum cells : forall k, cells_check page pageNum k cells = true ->
  forall i c, cells !! i = Some c -> cell_check page pageNum (k + i) c = true.
Proof.
  induction cells as [|c cells IH]; intros k; [done|]. cbn [cells_check]. intros [H1 H2]%andb_prop [|i] x; cbn.
  - intros [= <-]. by rewrite Nat.add_0_r.
  - intros Hx. rewrite Nat.add_succ_r. by apply (IH (S k)).
Qed.

Lemma leaf_checked page pageNum cells : leaf_check page pageNum cells = true -> page_holds page pageNum (map (fun c => c.1.1.1) cells).
Proof.
  intros H. left. revert H. unfold leaf_check. destruct (go_index _ _) as [kind|?|] eqn:Ek; [|done..]. destruct (go_slice _ _ _) as [nb|?|] eqn:En; [|done..].
  rewrite !andb_true_iff. intros [[[H1 H2] H3] H4]. split; rewrite ?length_map.
  - rewrite Ek. f_equal. lia.
  - exists nb. split; [done|lia].
  - lia.
  - intros i cols. rewrite list_lookup_fmap. destruct (cells !! i) as [[[[x payload] rowid] hdr]|] eqn:E; [|done]. intros [= <-].
    pose proof (cells_check_spec page pageNum cells 0 H4 i _ E) as Hc. cbn [Nat.add] in Hc.
    destruct (cell_check_spec _ _ _ _ _ _ _ Hc) as (cp & pre & post & H). by exists cp, pre, post, payload, rowid, hdr.
Qed.

(** A table's row in sqlite_schema: type, name, table name, root page, SQL. *)
Definition schema_row (name : string) (root : Z) (sql : string) : list column :=
  [text_column "table"; text_column name; text_column name; int_column root; text_column sql].

Section Rows.

Context {A : Type} (parse : bytes -> Z -> Z -> res (option A)) (f : list column -> option A) (ok : list column -> Prop).

(** Parsing a stored record gives [f] of its columns. *)
Hypothesis parse_cell : forall page off cols pre post payload rowid hdrSize, ok cols ->
  cell_at page off cols pre post payload rowid hdrSize -> parse page off (blen page) = Ok (f cols).

Lemma page_cells_rows page pageNum rows k i : leaf_holds page pageNum rows -> Forall ok rows -> (i + k = length rows)%nat ->
  page_cells parse k (Z.of_nat i) page (header_off pageNum) (blen page) = Ok (map f (drop i rows)).
Proof.
  intros Hl Hok. revert i. induction k as [|k IH]; intros i Hi; cbn [page_cells].
  { by rewrite drop_ge by lia. }
  destruct (lookup_lt_is_Some_2 rows i ltac:(lia)) as [cols Hc].
  destruct (lh_cells _ _ _ Hl i cols Hc) as (cp & pre & post & payload & rowid & hdrSize & Hcp & Hr & Hcell). cbn zeta in Hcp.
  pose proof (lh_size _ _ _ Hl). destruct (Z.ltb_spec (blen page) (header_off pageNum + 8 + Z.of_nat i * 2 + 2)); [lia|].
  rewrite Hcp. cbn [bind_res]. destruct (Z.leb_spec (be cp) (header_off pageNum)); [lia|]. destruct (Z.leb_spec (blen page) (be cp)); [lia|].
  cbn [orb]. rewrite (parse_cell _ _ _ _ _ _ _ _ (proj1 (Forall_lookup _ _) Hok i cols Hc) Hcell). cbn [bind_res].
  replace (Z.of_nat i + 1) with (Z.of_nat (S i)) by lia. rewrite IH by lia. cbn [bind_res]. by rewrite (drop_S rows cols i Hc).
Qed.

Lemma leaf_page_rows page pageNum rows : page_holds page pageNum rows -> Forall ok rows ->
  leaf_page parse page pageNum (blen page) = Ok (map f rows).
Proof.
  intros [Hl|(-> & kind & Hk & Hne)] Hok; unfold leaf_page; fold (header_off pageNum).
  - rewrite (lh_kind _ _ _ Hl). cbn [bind_res Z.eqb]. cbn [negb Pos.eqb]. destruct (lh_count _ _ _ Hl) as (nb & -> & E). cbn [bind_res].
    rewrite E, Nat2Z.id. exact (page_cells_rows page pageNum rows (length rows) 0 Hl Hok eq_refl).
  - rewrite Hk. cbn [bind_res]. by destruct (Z.eqb_spec kind 13).
Qed.

Lemma file_pages_rows ps pages rowss n : Forall (fun page => blen page = ps) pages -> 0 < ps -> length pages = length rowss ->
  (forall i page rs, pages !! i = Some page -> rowss !! i = Some rs -> page_holds page (n + Z.of_nat i) rs) ->
  Forall ok (concat rowss) ->
  file_pages parse (length pages) n ps (concat pages) = Ok (map f (concat rowss)).
Proof.
  intros Hp Hps. revert rowss n. induction Hp as [|page pages Hpage Hp IH]; intros rowss n Hlen Hrows Hok.
  { by destruct rowss. }
  destruct rowss as [|rs rowss]; [done|]. cbn [concat] in Hok |- *. apply Forall_app in Hok as [Hok1 Hok2].
  cbn [length file_pages]. rewrite blen_app. pose proof (blen_nonneg (concat pages)).
  destruct (Z.ltb_spec (blen page + blen (concat pages)) ps); [lia|].
  assert (Et : take (Z.to_nat ps) (page ++ concat pages) = page) by (rewrite <- Hpage; unfold blen; rewrite Nat2Z.id; apply take_app_length).
  rewrite Et, drop_app_blen by done. rewrite <- Hpage at 1.
  rewrite (leaf_page_rows page n rs); [|specialize (Hrows 0%nat page rs eq_refl eq_refl); by rewrite Z.add_0_r in Hrows|done].
  cbn [bind_res]. rewrite (IH rowss (n + 1)); [|by injection Hlen| |done].
  - cbn [bind_res]. by rewrite map_app.
  - intros i p r Hi1 Hi2. specialize (Hrows (S i) p r Hi1 Hi2). by replace (n + 1 + Z.of_nat i) with (n + Z.of_nat (S i)) by lia.
Qed.

Lemma blen_concat ps pages : Forall (fun page => blen page = ps) pages -> blen (concat pages) = Z.of_nat (length pages) * ps.
Proof. induction 1 as [|page pages Hp _ IH]; [done|]. cbn [concat length]. rewrite blen_app, IH, Hp. lia. Qed.

Lemma file_rows_read file rows : file_holds file rows -> Forall ok rows -> file_rows parse file = Ok (map f rows).
Proof.
  intros [Hm Hs (pages & rowss & Hf & Hne & -> & Hp & Hlen & Hrows)] Hok. unfold file_rows. set (ps := header_page_size file) in *.
  assert (Hb : blen file = Z.of_nat (length pages) * ps) by (rewrite Hf; by apply blen_concat).
  assert (0 < Z.of_nat (length pages)) by (destruct pages; [done|cbn; lia]).
  destruct (Z.ltb_spec (blen file) 100); [nia|]. rewrite bool_decide_true by done. cbn [negb].
  destruct (Z.eqb_spec ps 0); [lia|]. rewrite Hb, Z.div_mul, Nat2Z.id by lia. rewrite Hf.
  apply file_pages_rows; [done|lia|done| |done]. intros i page rs H1 H2. rewrite Z.add_comm. by apply Hrows.
Qed.

End Rows.
