(* ===== verification/Sha256.v ===== *)
(** crypto/sha256 and encoding/hex of the Go standard library: [sha256.Sum256]
    (FIPS 180-4) as an executable function on bytes, and lower-case
    hexadecimal. The content addresses of the issuer and root stores and the
    chain fingerprints are these digests. *)

From S2P Require Import Prelude GoStd.

(** ** SHA-256 *)

Definition w32 (z : Z) : Z := Z.land z 4294967295.

Definition rotr (n x : Z) : Z := Z.lor (Z.shiftr x n) (w32 (Z.shiftl x (32 - n))).

Definition sha_k : list Z :=
  [1116352408; 1899447441; 3049323471; 3921009573; 961987163; 1508970993; 2453635748; 2870763221;
   3624381080; 310598401; 607225278; 1426881987; 1925078388; 2162078206; 2614888103; 3248222580;
   3835390401; 4022224774; 264347078; 604807628; 770255983; 1249150122; 1555081692; 1996064986;
   2554220882; 2821834349; 2952996808; 3210313671; 3336571891; 3584528711; 113926993; 338241895;
   666307205; 773529912; 1294757372; 1396182291; 1695183700; 1986661051; 2177026350; 2456956037;
   2730485921; 2820302411; 3259730800; 3345764771; 3516065817; 3600352804; 4094571909; 275423344;
   430227734; 506948616; 659060556; 883997877; 958139571; 1322822218; 1537002063; 1747873779;
   1955562222; 2024104815; 2227730452; 2361852424; 2428436474; 2756734187; 3204031479; 3329325298].

Definition sha_h0 : list Z :=
  [1779033703; 3144134277; 1013904242; 2773480762; 1359893119; 2600822924; 528734635; 1541459225].

Definition sha_pad (m : bytes) : bytes :=
  m ++ [byte_of 128] ++
  repeat x00 (Z.to_nat ((55 - blen m) mod 64)) ++ be_bytes 8 (8 * blen m).

(** The message schedule, most recent word first. *)
Fixpoint schedule (n : nat) (w : list Z) : list Z :=
  match n with
  | O => w
  | S n' =>
      let a := nth 14 w 0 in
      let b := nth 1 w 0 in
      let s0 := Z.lxor (rotr 7 a) (Z.lxor (rotr 18 a) (Z.shiftr a 3)) in
      let s1 := Z.lxor (rotr 17 b) (Z.lxor (rotr 19 b) (Z.shiftr b 10)) in
      schedule n' (w32 (nth 15 w 0 + s0 + nth 6 w 0 + s1) :: w)
  end.

Fixpoint words (n : nat) (b : bytes) : list Z :=
  match n with
  | O => []
  | S n' => be (take 4 b) :: words n' (drop 4 b)
  end.

Definition sha_round (st : list Z) (kw : Z * Z) : list Z :=
  match st with
  | [a; b; c; d; e; f; g; h] =>
      let s1 := Z.lxor (rotr 6 e) (Z.lxor (rotr 11 e) (rotr 25 e)) in
      let ch := Z.lxor (Z.land e f) (Z.land (Z.lxor e 4294967295) g) in
      let t1 := h + s1 + ch + fst kw + snd kw in
      let s0 := Z.lxor (rotr 2 a) (Z.lxor (rotr 13 a) (rotr 22 a)) in
      let maj := Z.lxor (Z.land a b) (Z.lxor (Z.land a c) (Z.land b c)) in
      [w32 (t1 + s0 + maj); a; b; c; w32 (d + t1); e; f; g]
  | _ => st
  end.

Definition sha_block (st : list Z) (blk : bytes) : list Z :=
  let w := reverse (schedule 48 (reverse (words 16 blk))) in
  zip_with (fun x y => w32 (x + y)) st (foldl sha_round st (zip sha_k w)).

Fixpoint sha_blocks (n : nat) (st : list Z) (b : bytes) : list Z :=
  match n with
  | O => st
  | S n' => sha_blocks n' (sha_block st (take 64 b)) (drop 64 b)
  end.

(** The first four bytes of the 8 words; [sha256.Sum256]. *)
Definition sha256 (m : bytes) : bytes :=
  let p := sha_pad m in
  take 32 ((sha_blocks (Z.to_nat (blen p / 64)) sha_h0 p ≫= be_bytes 4) ++ repeat x00 32).

(** ** Hexadecimal *)

Definition hex_digit (d : Z) : ascii :=
  default "0"%char (String.get (Z.to_nat d) "0123456789abcdef").

Definition is_hex (c : ascii) : bool :=
  is_digit c || ((97 <=? Z.of_N (N_of_ascii c)) && (Z.of_N (N_of_ascii c) <=? 102)).

Fixpoint hex_encode (b : bytes) : string :=
  match b with
  | [] => EmptyString
  | x :: b' => String (hex_digit (bval x / 16)) (String (hex_digit (bval x mod 16)) (hex_encode b'))
  end.

(** ** Lemmas *)

Lemma length_sha256 m : length (sha256 m) = 32%nat.
Proof.
  unfold sha256. rewrite length_take, length_app, repeat_length. lia.
Qed.

(** FIPS 180-4 test vectors: the empty message, and a 56-byte one that needs
    two blocks. *)
Lemma sha256_empty :
  hex_encode (sha256 []) = "e3b0c44298fc1c149afbf4c8996fb92427ae41e4649b934ca495991b7852b855".
Proof. vm_compute. reflexivity. Qed.

Lemma sha256_two_blocks :
  hex_encode (sha256 (String.list_byte_of_string "abcdbcdecdefdefgefghfghighijhijkijkljklmklmnlmnomnopnopq"))
  = "248d6a61d20638b8e5c026930c3e6039a33ce45964ff2167f6ecedd419db06c1".
Proof. vm_compute. reflexivity. Qed.

Lemma hex_digit_inj a b : 0 <= a < 16 -> 0 <= b < 16 -> hex_digit a = hex_digit b -> a = b.
Proof.
  intros Ha Hb H.
  assert (Hall : forallb (fun i => forallb (fun j =>
     negb (Ascii.eqb (hex_digit (Z.of_nat i)) (hex_digit (Z.of_nat j))) || (i =? j)%nat)
     (seq 0 16)) (seq 0 16) = true) by (vm_compute; reflexivity).
  rewrite forallb_forall in Hall. specialize (Hall (Z.to_nat a) ltac:(apply in_seq; lia)).
  rewrite forallb_forall in Hall. specialize (Hall (Z.to_nat b) ltac:(apply in_seq; lia)).
  rewrite !Z2Nat.id, H, Ascii.eqb_refl in Hall by lia. simpl in Hall.
  apply Nat.eqb_eq in Hall. lia.
Qed.

Lemma hex_encode_inj a b : hex_encode a = hex_encode b -> a = b.
Proof.
  revert b. induction a as [|x a IH]; intros [|y b]; simpl; try done.
  intros [= H1 H2 H3]. f_equal; [|by apply IH].
  pose proof (bval_range x). pose proof (bval_range y).
  assert (bval x / 16 < 16) by (apply Z.div_lt_upper_bound; lia).
  assert (bval y / 16 < 16) by (apply Z.div_lt_upper_bound; lia).
  pose proof (Z.div_pos (bval x) 16). pose proof (Z.div_pos (bval y) 16).
  pose proof (Z.mod_pos_bound (bval x) 16). pose proof (Z.mod_pos_bound (bval y) 16).
  apply hex_digit_inj in H1; [|lia..]. apply hex_digit_inj in H2; [|lia..].
  rewrite <- (byte_of_bval x), <- (byte_of_bval y). f_equal.
  pose proof (Z.div_mod (bval x) 16). pose proof (Z.div_mod (bval y) 16). lia.
Qed.

#[export] Instance hex_encode_Inj : Inj (=) (=) hex_encode.
Proof. intros a b. apply hex_encode_inj. Qed.

Lemma hex_encode_chars b : str_forallb is_hex (hex_encode b) = true.
Proof.
  induction b as [|x b IH]; [done|]. cbn [hex_encode str_forallb]. rewrite IH.
  assert (is_hex (hex_digit (bval x / 16)) = true /\ is_hex (hex_digit (bval x mod 16)) = true) as [-> ->]; [|done].
  destruct x; split; vm_compute; reflexivity.
Qed.
