(* ===== verification/CtlogParse.v ===== *)
(** internal/ctlog/tile.go and internal/ctlog/rfc6962_parse.go: the binary
    parsers for static-ct-api data tiles and for RFC 6962 get-entries leaves,
    with encoders of the two wire formats as their specification. A
    [bytes.Reader] is the list of its unread bytes. *)

From S2P Require Import Prelude GoStd Sha256.

(** ** Definitions *)

(** *** Readers *)

(** [io.ReadFull(r, buf)] with [len(buf) = n]. *)
Definition read_full (n : nat) (r : bytes) : res (bytes * bytes) :=
  match n, r with
  | O, _ => Ok ([], r)
  | _, [] => Err EOF
  | _, _ => if (length r <? n)%nat then Err ErrUnexpectedEOF else Ok (take n r, drop n r)
  end.

(** [binary.Read(r, binary.BigEndian, &x)] of an [n]-byte unsigned integer. *)
Definition read_uint (n : nat) (r : bytes) : res (Z * bytes) :=
  let? (b, r) := read_full n r in Ok (be b, r).

Definition readUint24LenPrefixed (r : bytes) : res (bytes * bytes) :=
  let? (b, r) := read_full 3 r in
  read_full (Z.to_nat (be b)) r.

Definition readUint16LenPrefixed (r : bytes) : res (bytes * bytes) :=
  let? (n, r) := read_uint 2 r in
  read_full (Z.to_nat n) r.

Definition EntryTypeX509 : Z := 0.
Definition EntryTypePrecert : Z := 1.

(** *** tile.go *)

Record TileLeaf := mkTileLeaf {
  tl_Timestamp : Z;
  tl_EntryType : Z;
  tl_Certificate : bytes;
  tl_TBSCertificate : bytes;
  tl_PreIssuerKeyHash : bytes;
  tl_Extensions : bytes;
  tl_ChainFingerprints : list bytes }.

Definition zero_hash : bytes := repeat x00 32.

(** [for i := 0; i+32 <= len(chainBytes); i += 32]: whole 32-byte groups. *)
Fixpoint split32 (k : nat) (b : bytes) : list bytes :=
  match k with
  | O => []
  | S k' => take 32 b :: split32 k' (drop 32 b)
  end.

Definition chain_fingerprints (b : bytes) : list bytes := split32 (length b / 32) b.

Definition parseTileLeaf (r : bytes) : res (TileLeaf * bytes) :=
  let? (ts, r) := read_uint 8 r in
  let? (et, r) := read_uint 2 r in
  let? (fields, r) :=
    if et =? EntryTypeX509 then
      let? (cert, r) := wrap_err "x509 cert" (readUint24LenPrefixed r) in
      Ok ((cert, [], zero_hash), r)
    else if et =? EntryTypePrecert then
      let? (ikh, r) := wrap_err "issuer key hash" (read_full 32 r) in
      let? (tbs, r) := wrap_err "tbs cert" (readUint24LenPrefixed r) in
      Ok (([], tbs, ikh), r)
    else Err (Errorf ("unknown entry type: " +:+ dec et)) in
  let '(cert, tbs, ikh) := fields in
  let? (ext, r) := wrap_err "extensions" (readUint16LenPrefixed r) in
  let? (cert, r) :=
    if et =? EntryTypePrecert then wrap_err "pre_certificate" (readUint24LenPrefixed r)
    else Ok (cert, r) in
  let? (chain, r) := wrap_err "chain fingerprints" (readUint16LenPrefixed r) in
  Ok (mkTileLeaf ts et cert tbs ikh ext (chain_fingerprints chain), r).

(** [err == io.EOF || err == io.ErrUnexpectedEOF]: identity, wrapped errors do
    not match. *)
Definition is_bare_eof (e : error) : bool :=
  match e with EOF | ErrUnexpectedEOF => true | _ => false end.

(** The parse loop; [None] when [fuel] runs out. *)
Fixpoint parse_tile_loop (fuel : nat) (r : bytes) (maxEntries : Z) (entries : list TileLeaf)
  : option (res (list TileLeaf)) :=
  match fuel with
  | O => None
  | S fuel' =>
      if (0 <? blen r) && ((maxEntries <=? 0) || (Z.of_nat (length entries) <? maxEntries)) then
        match parseTileLeaf r with
        | Ok (leaf, r') => parse_tile_loop fuel' r' maxEntries (entries ++ [leaf])
        | Err e =>
            if is_bare_eof e then Some (Ok entries)
            else Some (Err (Wrap ("entry " +:+ dec (Z.of_nat (length entries))) e))
        | Panic => Some Panic
        end
      else Some (Ok entries)
  end.

(** Every leaf consumes input, so the input length bounds the iterations. *)
Definition ParseTile (data : bytes) (maxEntries : Z) : res (list TileLeaf) :=
  default Panic (parse_tile_loop (S (length data)) data maxEntries []).

(** *** rfc6962_parse.go *)

Inductive EntryType := EntryUnset | EntryX509 | EntryPrecert.

#[export] Instance EntryType_eq_dec : EqDecision EntryType.
Proof. solve_decision. Defined.

(** log_client.go: a log entry normalised across protocols. *)
Record LogLeaf := mkLogLeaf {
  EntryIdx : Z;
  ll_EntryType : EntryType;
  ll_Timestamp : Z;
  ll_Certificate : bytes;
  ll_TBSCertificate : bytes;
  ll_PreIssuerKeyHash : bytes;
  ll_Extensions : bytes;
  ll_ChainFingerprints : list bytes }.

Definition parseLeafInput (data : bytes) : res LogLeaf :=
  let? (version, r) := wrap_err "version" (read_uint 1 data) in
  if negb (version =? 0) then Err (Errorf ("unsupported MerkleTreeLeaf version " +:+ dec version)) else
  let? (leafType, r) := wrap_err "leaf_type" (read_uint 1 r) in
  if negb (leafType =? 0) then Err (Errorf ("unsupported leaf_type " +:+ dec leafType)) else
  let? (ts, r) := wrap_err "timestamp" (read_uint 8 r) in
  let? (et, r) := wrap_err "entry_type" (read_uint 2 r) in
  let? (leaf, r) :=
    if et =? EntryTypeX509 then
      let? (cert, r) := wrap_err "x509 cert" (readUint24LenPrefixed r) in
      Ok (mkLogLeaf 0 EntryX509 ts cert [] zero_hash [] [], r)
    else if et =? EntryTypePrecert then
      let? (ikh, r) := wrap_err "issuer_key_hash" (read_full 32 r) in
      let? (tbs, r) := wrap_err "tbs_certificate" (readUint24LenPrefixed r) in
      Ok (mkLogLeaf 0 EntryPrecert ts [] tbs ikh [] [], r)
    else Err (Errorf ("unknown entry_type " +:+ dec et)) in
  let? (ext, _) := wrap_err "extensions" (readUint16LenPrefixed r) in
  Ok (mkLogLeaf (EntryIdx leaf) (ll_EntryType leaf) (ll_Timestamp leaf) (ll_Certificate leaf)
        (ll_TBSCertificate leaf) (ll_PreIssuerKeyHash leaf) ext (ll_ChainFingerprints leaf)).

(** [for r.Len() > 0]: the certificates of the chain; [None] without fuel. *)
Fixpoint chain_loop (fuel : nat) (r : bytes) (chain : list bytes) : option (res (list bytes)) :=
  match fuel with
  | O => None
  | S fuel' =>
      if 0 <? blen r then
        match wrap_err "chain cert" (readUint24LenPrefixed r) with
        | Ok (cert, r') => chain_loop fuel' r' (chain ++ [cert])
        | Err e => Some (Err e)
        | Panic => Some Panic
        end
      else Some (Ok chain)
  end.

Definition with_chain (leaf : LogLeaf) (cert : bytes) (fps : list bytes) : LogLeaf :=
  mkLogLeaf (EntryIdx leaf) (ll_EntryType leaf) (ll_Timestamp leaf) cert (ll_TBSCertificate leaf)
    (ll_PreIssuerKeyHash leaf) (ll_Extensions leaf) (ll_ChainFingerprints leaf ++ fps).

(** The chain and the leaf with the SHA-256 of each certificate appended. *)
Definition parseCertChain (chainBytes : bytes) (leaf : LogLeaf) : res (list bytes * LogLeaf) :=
  let? chain := default Panic (chain_loop (S (length chainBytes)) chainBytes []) in
  Ok (chain, with_chain leaf (ll_Certificate leaf) (map sha256 chain)).

Definition parseExtraData (data : bytes) (leaf : LogLeaf) : res (list bytes * LogLeaf) :=
  match ll_EntryType leaf with
  | EntryX509 =>
      let? (chainBytes, _) := wrap_err "certificate_chain" (readUint24LenPrefixed data) in
      parseCertChain chainBytes leaf
  | EntryPrecert =>
      let? (preCert, r) := wrap_err "pre_certificate" (readUint24LenPrefixed data) in
      let leaf := with_chain leaf preCert [] in
      let? (chainBytes, _) := wrap_err "precertificate_chain" (readUint24LenPrefixed r) in
      parseCertChain chainBytes leaf
  | EntryUnset => Err (Errorf "unknown entry type")
  end.

(** log_client.go *)
Definition tileLeafToLogLeaf (t : TileLeaf) (entryIdx : Z) : LogLeaf :=
  mkLogLeaf entryIdx (if tl_EntryType t =? EntryTypePrecert then EntryPrecert else EntryX509)
    (tl_Timestamp t) (tl_Certificate t) (tl_TBSCertificate t) (tl_PreIssuerKeyHash t)
    (tl_Extensions t) (tl_ChainFingerprints t).

(** *** The wire formats (specification) *)

Definition enc16 (b : bytes) : bytes := be_bytes 2 (blen b) ++ b.
Definition enc24 (b : bytes) : bytes := be_bytes 3 (blen b) ++ b.

(** A static-ct-api TileLeaf. *)
Definition encode_tile_leaf (l : TileLeaf) : bytes :=
  be_bytes 8 (tl_Timestamp l) ++ be_bytes 2 (tl_EntryType l) ++
  (if tl_EntryType l =? EntryTypePrecert
   then tl_PreIssuerKeyHash l ++ enc24 (tl_TBSCertificate l) ++ enc16 (tl_Extensions l) ++
        enc24 (tl_Certificate l)
   else enc24 (tl_Certificate l) ++ enc16 (tl_Extensions l)) ++
  enc16 (concat (tl_ChainFingerprints l)).

Definition tile_leaf_wf (l : TileLeaf) : Prop :=
  0 <= tl_Timestamp l < two64 /\
  blen (tl_Certificate l) < 2 ^ 24 /\ blen (tl_TBSCertificate l) < 2 ^ 24 /\
  blen (tl_Extensions l) < 2 ^ 16 /\ blen (concat (tl_ChainFingerprints l)) < 2 ^ 16 /\
  Forall (fun fp => length fp = 32%nat) (tl_ChainFingerprints l) /\
  length (tl_PreIssuerKeyHash l) = 32%nat /\
  (tl_EntryType l = EntryTypeX509 /\ tl_TBSCertificate l = [] /\ tl_PreIssuerKeyHash l = zero_hash \/
   tl_EntryType l = EntryTypePrecert).

(** RFC 6962 leaf_input and extra_data of an entry. *)
Definition encode_leaf_input (l : LogLeaf) : bytes :=
  [x00; x00] ++ be_bytes 8 (ll_Timestamp l) ++
  match ll_EntryType l with
  | EntryPrecert => be_bytes 2 1 ++ ll_PreIssuerKeyHash l ++ enc24 (ll_TBSCertificate l)
  | _ => be_bytes 2 0 ++ enc24 (ll_Certificate l)
  end ++ enc16 (ll_Extensions l).

Definition encode_chain (chain : list bytes) : bytes := chain ≫= enc24.

Definition encode_extra_data (l : LogLeaf) (chain : list bytes) : bytes :=
  match ll_EntryType l with
  | EntryPrecert => enc24 (ll_Certificate l) ++ enc24 (encode_chain chain)
  | _ => enc24 (encode_chain chain)
  end.

Definition log_leaf_wf (l : LogLeaf) : Prop :=
  0 <= ll_Timestamp l < two64 /\
  blen (ll_Certificate l) < 2 ^ 24 /\ blen (ll_TBSCertificate l) < 2 ^ 24 /\
  blen (ll_Extensions l) < 2 ^ 16 /\ length (ll_PreIssuerKeyHash l) = 32%nat /\
  EntryIdx l = 0 /\
  (ll_EntryType l = EntryX509 /\ ll_TBSCertificate l = [] /\ ll_PreIssuerKeyHash l = zero_hash \/
   ll_EntryType l = EntryPrecert).

(** ** Parser combinators: what every reader-consuming parser satisfies *)

(** A parser never panics, leaves a suffix of its input unread, and does not
    look beyond what it consumes. *)
Record good_parser {A} (f : bytes -> res (A * bytes)) : Prop := {
  gp_total p : f p <> Panic;
  gp_suffix p a r : f p = Ok (a, r) -> exists c, p = c ++ r;
  gp_extend p a r s : f p = Ok (a, r) -> f (p ++ s) = Ok (a, r ++ s) }.

Create HintDb parsers.

Lemma good_ret {A} (a : A) : good_parser (fun r => Ok (a, r)).
Proof. split; [done|intros p ? r [= -> ->]; by exists []|by intros p ? r s [= -> ->]]. Qed.

Lemma good_err {A} e : good_parser (fun _ : bytes => @Err (A * bytes) e).
Proof. by split. Qed.

Lemma good_bind {A B} (f : bytes -> res (A * bytes)) (k : A -> bytes -> res (B * bytes)) :
  good_parser f -> (forall a, good_parser (k a)) ->
  good_parser (fun r => bind_res (f r) (fun '(a, r') => k a r')).
Proof.
  intros Hf Hk. split.
  - intros p H. destruct (f p) as [[a r]| |] eqn:E; simpl in H; [|done|by apply Hf in E].
    by apply (Hk a) in H.
  - intros p b r H. destruct (f p) as [[a r1]| |] eqn:E; simpl in H; try done.
    apply Hf in E as [c ->]. apply (Hk a) in H as [c' ->]. exists (c ++ c'). by rewrite app_assoc.
  - intros p b r s H. destruct (f p) as [[a r1]| |] eqn:E; simpl in H; try done.
    rewrite (gp_extend _ Hf _ _ _ s E). simpl. by apply (Hk a).
Qed.

Lemma good_if {A} (b : bool) (f g : bytes -> res (A * bytes)) :
  good_parser f -> good_parser g -> good_parser (fun r => if b then f r else g r).
Proof. by destruct b. Qed.

Lemma good_wrap {A} m (f : bytes -> res (A * bytes)) :
  good_parser f -> good_parser (fun r => wrap_err m (f r)).
Proof.
  intros Hf. split.
  - intros p H. destruct (f p) as [[a r]| |] eqn:E; try done. by apply Hf in E.
  - intros p a r H. destruct (f p) as [[a' r']| |] eqn:E; try done. injection H as <- <-. by apply Hf in E.
  - intros p a r s H. destruct (f p) as [[a' r']| |] eqn:E; try done. injection H as <- <-.
    by rewrite (gp_extend _ Hf _ _ _ s E).
Qed.

Lemma good_read_full n : good_parser (read_full n).
Proof.
  split.
  - intros p. unfold read_full. destruct n, p; try done. by case_match.
  - intros p a r H. unfold read_full in H. destruct n as [|n]; [simplify_eq; by exists []|].
    destruct p as [|x p]; [done|]. case_match; [done|]. injection H as <- <-.
    exists (take (S n) (x :: p)). symmetry. exact (take_drop (S n) (x :: p)).
  - intros p a r s H. unfold read_full in *. destruct n as [|n]; [by simplify_eq|].
    destruct p as [|x p]; [done|]. simpl app.
    destruct (Nat.ltb_spec (length (x :: p)) (S n)) as [|Hge]; [done|]. injection H as <- <-.
    destruct (Nat.ltb_spec (length (x :: p ++ s)) (S n)) as [Hlt|].
    + simpl in Hlt, Hge. rewrite length_app in Hlt. lia.
    + change (x :: p ++ s) with ((x :: p) ++ s).
      by rewrite take_app_le, drop_app_le by lia.
Qed.

#[export] Hint Resolve good_ret good_err good_read_full : parsers.
#[export] Hint Extern 2 (good_parser (fun r => wrap_err _ _)) => apply good_wrap : parsers.
#[export] Hint Extern 2 (good_parser (fun r => if _ then _ else _)) => apply good_if : parsers.
#[export] Hint Extern 3 (good_parser (fun r => bind_res _ _)) =>
  apply good_bind; [|intros ?] : parsers.

Lemma good_read_uint n : good_parser (read_uint n).
Proof. unfold read_uint. auto with parsers. Qed.
#[export] Hint Resolve good_read_uint : parsers.

Lemma good_read24 : good_parser readUint24LenPrefixed.
Proof. unfold readUint24LenPrefixed. auto with parsers. Qed.

Lemma good_read16 : good_parser readUint16LenPrefixed.
Proof. unfold readUint16LenPrefixed. auto with parsers. Qed.
#[export] Hint Resolve good_read16 good_read24 : parsers.

Lemma good_parseTileLeaf : good_parser parseTileLeaf.
Proof.
  unfold parseTileLeaf. apply good_bind; [auto with parsers|intros ts].
  apply good_bind; [auto with parsers|intros et].
  apply good_bind; [auto 10 with parsers|intros [[cert tbs] ikh]].
  auto 10 with parsers.
Qed.
#[export] Hint Resolve good_parseTileLeaf : parsers.

(** ** Reading what an encoder wrote *)

Lemma read_full_app n a r : length a = n -> read_full n (a ++ r) = Ok (a, r).
Proof.
  intros <-. unfold read_full. destruct a as [|x a]; [done|]. simpl app.
  change (x :: a ++ r) with ((x :: a) ++ r).
  destruct (Nat.ltb_spec (length ((x :: a) ++ r)) (length (x :: a))) as [H|].
  - rewrite length_app in H. lia.
  - by rewrite take_app_length, drop_app_length.
Qed.

Lemma read_uint_be n z r :
  0 <= z < 256 ^ Z.of_nat n -> read_uint n (be_bytes n z ++ r) = Ok (z, r).
Proof.
  intros H. unfold read_uint. rewrite read_full_app by apply length_be_bytes.
  simpl. by rewrite be_be_bytes.
Qed.

Lemma read24_enc b r : blen b < 2 ^ 24 -> readUint24LenPrefixed (enc24 b ++ r) = Ok (b, r).
Proof.
  intros H. unfold readUint24LenPrefixed, enc24. rewrite <- app_assoc.
  rewrite read_full_app by apply length_be_bytes. cbn [bind_res].
  rewrite be_be_bytes by (pose proof (blen_nonneg b); simpl; lia).
  apply read_full_app. unfold blen. lia.
Qed.

Lemma read16_enc b r : blen b < 2 ^ 16 -> readUint16LenPrefixed (enc16 b ++ r) = Ok (b, r).
Proof.
  intros H. unfold readUint16LenPrefixed, enc16. rewrite <- app_assoc.
  rewrite read_uint_be by (pose proof (blen_nonneg b); simpl; lia). cbn [bind_res].
  apply read_full_app. unfold blen. lia.
Qed.

Lemma split32_concat fps :
  Forall (fun fp => length fp = 32%nat) fps -> chain_fingerprints (concat fps) = fps.
Proof.
  intros H. unfold chain_fingerprints.
  assert (length (concat fps) / 32 = length fps)%nat as ->.
  { assert (length (concat fps) = length fps * 32)%nat as ->.
    { induction H; simpl; [done|]. rewrite length_app. lia. }
    by apply Nat.div_mul. }
  induction H as [|fp fps Hfp _ IH]; [done|]. cbn [length split32 concat].
  rewrite <- Hfp. rewrite take_app_length, drop_app_length. by f_equal.
Qed.

#[local] Opaque be_bytes read_full read_uint readUint24LenPrefixed readUint16LenPrefixed.

Lemma parseTileLeaf_encode l r :
  tile_leaf_wf l -> parseTileLeaf (encode_tile_leaf l ++ r) = Ok (l, r).
Proof.
  intros (Hts & Hc & Ht & He & Hch & Hfp & Hikh & Hty). destruct l as [ts et cert tbs ikh ext fps].
  unfold parseTileLeaf, encode_tile_leaf, two64 in *. simpl in *. rewrite <- !app_assoc.
  rewrite read_uint_be by lia. simpl.
  destruct Hty as [(-> & -> & ->)| ->]; simpl; rewrite read_uint_be by (unfold EntryTypeX509, EntryTypePrecert; lia); simpl.
  - rewrite <- !app_assoc, read24_enc by done. simpl. rewrite read16_enc by done. simpl.
    rewrite read16_enc by done. simpl. by rewrite split32_concat.
  - rewrite <- !app_assoc, read_full_app by done. simpl. rewrite read24_enc by done. simpl.
    rewrite read16_enc by done. simpl. rewrite read24_enc by done. simpl.
    rewrite read16_enc by done. simpl. by rewrite split32_concat.
Qed.

Lemma length_encode_tile_leaf l : (10 <= length (encode_tile_leaf l))%nat.
Proof. unfold encode_tile_leaf. rewrite !length_app, !length_be_bytes. lia. Qed.

#[local] Transparent read_full read_uint readUint24LenPrefixed.

Lemma read_full_err n p e : read_full n p = Err e -> (length p < n)%nat /\ is_bare_eof e = true.
Proof.
  unfold read_full. destruct n, p; intros; simplify_eq/=; try (split; [lia|done]).
  case_match eqn:E; [|done]. apply Nat.ltb_lt in E. simplify_eq. split; [simpl; lia|done].
Qed.

Lemma read_full_len n p a r : read_full n p = Ok (a, r) -> length p = (n + length r)%nat.
Proof.
  unfold read_full. destruct n as [|n]; [by intros [= <- <-]|]. destruct p as [|x p]; [done|].
  destruct (Nat.ltb_spec (length (x :: p)) (S n)); [done|]. intros [= <- <-].
  change (length (x :: p) = (S n + length (drop (S n) (x :: p)))%nat). rewrite length_drop. lia.
Qed.

(** Only an input shorter than the two fixed fields fails with a bare EOF. *)
Lemma parseTileLeaf_err p e :
  parseTileLeaf p = Err e -> is_bare_eof e = true <-> (length p < 10)%nat.
Proof.
  unfold parseTileLeaf, read_uint.
  destruct (read_full 8 p) as [[b8 r8]|e'|] eqn:E8; cbn [bind_res];
    [| |by apply good_read_full in E8].
  2: { intros [= <-]. apply read_full_err in E8 as [? ->]. split; [lia|done]. }
  destruct (read_full 2 r8) as [[b2 r2]|e'|] eqn:E2; cbn [bind_res];
    [| |by apply good_read_full in E2].
  2: { intros [= <-]. apply read_full_err in E2 as [? ->]. apply read_full_len in E8.
       split; [lia|done]. }
  intros He.
  apply read_full_len in E8, E2.
  assert (is_bare_eof e = false) as ->; [|split; [done|lia]].
  clear E8 E2. revert He.
  repeat match goal with
  | |- context [wrap_err ?m (?f ?r)] => destruct (f r) as [[? ?]| |]; cbn [wrap_err bind_res]
  | |- context [if ?b then _ else _] => destruct b; cbn [wrap_err bind_res]
  end; intros [= <-]; done.
Qed.

(** A parser that consumes at least [n] bytes when it succeeds. *)
Definition consumes {A} (n : nat) (f : bytes -> res (A * bytes)) : Prop :=
  forall p a r, f p = Ok (a, r) -> (n + length r <= length p)%nat.

Lemma consumes_bind {A B} n (f : bytes -> res (A * bytes)) (k : A -> bytes -> res (B * bytes)) :
  consumes n f -> (forall a, good_parser (k a)) ->
  consumes n (fun r => bind_res (f r) (fun '(a, r') => k a r')).
Proof.
  intros Hf Hk p b r H. destruct (f p) as [[a r1]| |] eqn:E; simpl in H; try done.
  apply Hf in E. apply (Hk a) in H as [c ->]. rewrite length_app in E. lia.
Qed.

Lemma consumes_read_full n : consumes n (read_full n).
Proof. intros p a r H. apply read_full_len in H. lia. Qed.

Lemma consumes_parseTileLeaf : consumes 8 parseTileLeaf.
Proof.
  unfold parseTileLeaf. apply consumes_bind.
  - unfold read_uint. apply consumes_bind; [apply consumes_read_full|auto with parsers].
  - intros ts. apply good_bind; [auto with parsers|intros et].
    apply good_bind; [auto 10 with parsers|intros [[cert tbs] ikh]]. auto 10 with parsers.
Qed.

Lemma consumes_read24 : consumes 3 readUint24LenPrefixed.
Proof.
  unfold readUint24LenPrefixed. apply consumes_bind; [apply consumes_read_full|auto with parsers].
Qed.

Definition encode_tile (ls : list TileLeaf) : bytes := ls ≫= encode_tile_leaf.

Lemma parse_tile_loop_total fuel r m es :
  (length r < fuel)%nat -> exists x, parse_tile_loop fuel r m es = Some x /\ x <> Panic.
Proof.
  revert r es. induction fuel as [|fuel IH]; intros r es Hf; [lia|]. cbn [parse_tile_loop].
  destruct (_ && _); [|by eauto].
  destruct (parseTileLeaf r) as [[l r']|e|] eqn:E.
  - apply consumes_parseTileLeaf in E. apply IH. lia.
  - destruct (is_bare_eof e); eauto.
  - by apply good_parseTileLeaf in E.
Qed.

Lemma blen_pos_app l p : (0 <? blen (encode_tile_leaf l ++ p)) = true.
Proof.
  rewrite blen_app. pose proof (length_encode_tile_leaf l). unfold blen. apply Z.ltb_lt. lia.
Qed.

Lemma parse_tile_loop_all ls fuel p m es :
  Forall tile_leaf_wf ls -> m <= 0 -> (length (encode_tile ls ++ p) < fuel)%nat ->
  exists fuel', (length p < fuel')%nat /\
    parse_tile_loop fuel (encode_tile ls ++ p) m es = parse_tile_loop fuel' p m (es ++ ls).
Proof.
  intros Hwf Hm. revert fuel es. induction Hwf as [|l ls Hl _ IH]; intros fuel es Hf.
  - exists fuel. by rewrite app_nil_r.
  - change (encode_tile (l :: ls)) with (encode_tile_leaf l ++ encode_tile ls) in *.
    rewrite <- app_assoc in *. destruct fuel as [|fuel]; [lia|]. cbn [parse_tile_loop].
    rewrite blen_pos_app, parseTileLeaf_encode by done.
    rewrite (proj2 (Z.leb_le m 0) Hm). cbn [andb orb].
    destruct (IH fuel (es ++ [l])) as (f' & Hf' & ->).
    + pose proof (length_encode_tile_leaf l). rewrite length_app in Hf. lia.
    + exists f'. by rewrite <- app_assoc.
Qed.

Lemma parse_tile_loop_max ls fuel m es :
  Forall tile_leaf_wf ls -> 0 < m -> (length (encode_tile ls) < fuel)%nat ->
  parse_tile_loop fuel (encode_tile ls) m es
  = Some (Ok (es ++ take (Z.to_nat m - length es) ls)).
Proof.
  intros Hwf Hm. revert fuel es. induction Hwf as [|l ls Hl _ IH]; intros fuel es Hf;
    (destruct fuel as [|fuel]; [simpl in Hf; lia|]).
  - cbn. by rewrite take_nil, app_nil_r.
  - change (encode_tile (l :: ls)) with (encode_tile_leaf l ++ encode_tile ls) in *.
    cbn [parse_tile_loop]. rewrite blen_pos_app, parseTileLeaf_encode by done.
    destruct (Z.leb_spec m 0); [lia|]. cbn [andb orb].
    destruct (Z.ltb_spec (Z.of_nat (length es)) m).
    + rewrite IH.
      * rewrite length_app. simpl length. rewrite <- app_assoc. do 3 f_equal.
        replace (Z.to_nat m - length es)%nat with (S (Z.to_nat m - (length es + 1)))%nat by lia. done.
      * pose proof (length_encode_tile_leaf l). rewrite length_app in Hf. lia.
    + replace (Z.to_nat m - length es)%nat with 0%nat by lia. simpl. by rewrite app_nil_r.
Qed.

Lemma chain_loop_total fuel r es :
  (length r < fuel)%nat -> exists x, chain_loop fuel r es = Some x /\ x <> Panic.
Proof.
  revert r es. induction fuel as [|fuel IH]; intros r es Hf; [lia|]. cbn [chain_loop].
  destruct (0 <? blen r); [|by eauto].
  destruct (readUint24LenPrefixed r) as [[l r']|e|] eqn:E; cbn [wrap_err].
  - apply consumes_read24 in E. apply IH. lia.
  - eauto.
  - by apply good_read24 in E.
Qed.

#[local] Opaque readUint24LenPrefixed read_full read_uint.

Lemma chain_loop_encode chain fuel es :
  Forall (fun c => blen c < 2 ^ 24) chain -> (length (encode_chain chain) < fuel)%nat ->
  chain_loop fuel (encode_chain chain) es = Some (Ok (es ++ chain)).
Proof.
  intros Hc. revert fuel es. induction Hc as [|c chain Hl _ IH]; intros fuel es Hf;
    (destruct fuel as [|fuel]; [simpl in Hf; lia|]).
  - cbn. by rewrite app_nil_r.
  - change (encode_chain (c :: chain)) with (enc24 c ++ encode_chain chain) in *.
    cbn [chain_loop]. assert (3 <= length (enc24 c))%nat as H3.
    { unfold enc24. rewrite length_app, length_be_bytes. lia. }
    rewrite length_app in Hf.
    destruct (Z.ltb_spec 0 (blen (enc24 c ++ encode_chain chain))) as [|Hneg].
    + rewrite read24_enc by done. cbn [wrap_err]. rewrite IH by lia. by rewrite <- app_assoc.
    + rewrite blen_app in Hneg. unfold blen in Hneg. lia.
Qed.

Lemma parseCertChain_encode chain leaf :
  Forall (fun c => blen c < 2 ^ 24) chain ->
  parseCertChain (encode_chain chain) leaf
  = Ok (chain, with_chain leaf (ll_Certificate leaf) (map sha256 chain)).
Proof. intros Hc. unfold parseCertChain. rewrite chain_loop_encode by (done || lia). done. Qed.

Lemma bind_no_panic {A B} (m : res A) (k : A -> res B) :
  m <> Panic -> (forall a, k a <> Panic) -> bind_res m k <> Panic.
Proof. by destruct m; simpl; auto. Qed.

Lemma good_no_panic {A} m (f : bytes -> res (A * bytes)) p :
  good_parser f -> wrap_err m (f p) <> Panic.
Proof. intros Hf. apply (gp_total _ (good_wrap m f Hf)). Qed.

Lemma parseLeafInput_total data : parseLeafInput data <> Panic.
Proof.
  unfold parseLeafInput.
  repeat match goal with
  | |- bind_res (if _ then _ else _) _ <> Panic => case_match
  | |- bind_res (bind_res _ _) _ <> Panic => apply bind_no_panic
  | |- bind_res (wrap_err _ _) _ <> Panic =>
      apply bind_no_panic; [apply good_no_panic; auto with parsers|intros [? ?]]
  | |- (if _ then _ else _) <> Panic => case_match
  | |- (forall _ : LogLeaf * bytes, _) => intros [? ?]
  end; done.
Qed.

Lemma parseCertChain_total b leaf : parseCertChain b leaf <> Panic.
Proof.
  unfold parseCertChain.
  destruct (chain_loop_total (S (length b)) b []) as (x & -> & Hx); [lia|]. by destruct x.
Qed.

Lemma parse_tile_encoded (ls : list TileLeaf) (maxEntries : Z)
  (Hwf : Forall tile_leaf_wf ls) :
  ParseTile (encode_tile ls) maxEntries
  = Ok (if maxEntries <=? 0 then ls else take (Z.to_nat maxEntries) ls).
Proof.
  unfold ParseTile. destruct (Z.leb_spec maxEntries 0) as [Hm|Hm].
  - destruct (parse_tile_loop_all ls (S (length (encode_tile ls))) [] maxEntries [])
      as (f & Hf & He); [done|done|rewrite app_nil_r; lia|].
    rewrite app_nil_r in He. rewrite He. by destruct f; [simpl in Hf; lia|].
  - rewrite parse_tile_loop_max by (done || lia). simpl. by rewrite Nat.sub_0_r.
Qed.

(** ** Properties *)

(** C28. ParseTile inverts the static-ct-api tile encoding: on the concatenated
    encodings of any well-formed leaves it returns exactly those leaves in
    order, cut to [maxEntries] when that is positive. *)
Theorem parse_tile_roundtrip (ls : list TileLeaf) (maxEntries : Z)
  (Hwf : Forall tile_leaf_wf ls) :
  ParseTile (encode_tile ls) maxEntries
  = Ok (if maxEntries <=? 0 then ls else take (Z.to_nat maxEntries) ls).
Proof. by apply parse_tile_encoded. Qed.

(** A tile body cut inside its last leaf: the complete leaves are returned
    with no error when fewer than 10 bytes of the cut leaf (timestamp and entry
    type) are present, which is also what a body with no cut leaf gives; with
    10 bytes or more the whole tile is rejected with an error that names the
    index of the cut leaf. *)
Theorem parse_tile_truncated (ls : list TileLeaf) (l : TileLeaf) (p s : bytes)
  (Hwf : Forall tile_leaf_wf ls) (Hl : tile_leaf_wf l)
  (Hp : encode_tile_leaf l = p ++ s) (Hs : s <> []) :
  if (length p <? 10)%nat then ParseTile (encode_tile ls ++ p) 0 = Ok ls
  else exists e, ParseTile (encode_tile ls ++ p) 0
                 = Err (Wrap ("entry " +:+ dec (Z.of_nat (length ls))) e).
Proof.
  unfold ParseTile.
  destruct (parse_tile_loop_all ls (S (length (encode_tile ls ++ p))) p 0 [])
    as (f & Hf & ->); [done|done|lia|].
  destruct f as [|f]; [lia|]. cbn [parse_tile_loop app].
  destruct (parseTileLeaf p) as [[l' r]|e|] eqn:E.
  - exfalso. pose proof (parseTileLeaf_encode l [] Hl) as H. rewrite app_nil_r, Hp in H.
    apply (gp_extend _ good_parseTileLeaf _ _ _ s) in E. rewrite E in H.
    injection H as _ Hr. by apply app_eq_nil in Hr as [_ ->].
  - apply parseTileLeaf_err in E. destruct (0 <? blen p) eqn:Hpos; cbn [andb orb].
    + change (0 <=? 0) with true. cbn [orb].
      destruct (Nat.ltb_spec (length p) 10) as [Hlt|Hge].
      * by rewrite (proj2 E Hlt).
      * destruct (is_bare_eof e); [lia|by eauto].
    + unfold blen in Hpos. apply Z.ltb_ge in Hpos. by destruct p; [|simpl in Hpos; lia].
  - by apply good_parseTileLeaf in E.
Qed.

(** RFC 6962 entries: parsing the [leaf_input] and the [extra_data] that
    encode an entry and its chain gives back the entry, with the certificate of
    a precert entry taken from the extra data and the SHA-256 of each chain
    certificate recorded in order. *)
Theorem rfc6962_entry_roundtrip (l : LogLeaf) (chain : list bytes)
  (Hwf : log_leaf_wf l) (Hfp : ll_ChainFingerprints l = map sha256 chain)
  (Hc : Forall (fun c => blen c < 2 ^ 24) chain) (Hlen : blen (encode_chain chain) < 2 ^ 24) :
  exists leaf, parseLeafInput (encode_leaf_input l) = Ok leaf /\
    parseExtraData (encode_extra_data l chain) leaf = Ok (chain, l).
Proof.
  destruct Hwf as (Hts & Hce & Htb & Hex & Hikh & Hix & Hty).
  destruct l as [ix et ts cert tbs ikh ext fps]. unfold two64 in Hts. simpl in *. subst ix fps.
  unfold parseLeafInput, encode_leaf_input. cbn [ll_EntryType ll_Timestamp].
  change [x00; x00] with (be_bytes 1 0 ++ be_bytes 1 0). rewrite <- !app_assoc.
  rewrite !read_uint_be by lia. cbn [wrap_err bind_res Z.eqb negb].
  rewrite read_uint_be by lia. cbn [wrap_err bind_res Z.eqb negb].
  rewrite read_uint_be by lia. cbn [wrap_err bind_res].
  destruct Hty as [(-> & -> & ->)| ->]; cbn -[Z.pow encode_chain enc16 enc24 be_bytes];
    rewrite <- !app_assoc, read_uint_be by lia; cbn -[Z.pow encode_chain enc16 enc24 be_bytes].
  - rewrite read24_enc by done. cbn -[Z.pow encode_chain enc16 enc24].
    rewrite <- (app_nil_r (enc16 ext)), read16_enc by done. cbn -[Z.pow encode_chain enc24].
    eexists. split; [done|]. unfold parseExtraData. cbn -[Z.pow encode_chain enc24 encode_extra_data].
    unfold encode_extra_data. cbn [ll_EntryType].
    rewrite <- (app_nil_r (enc24 _)), read24_enc by done. cbn [wrap_err bind_res].
    by rewrite parseCertChain_encode.
  - rewrite read_full_app by done. cbn -[Z.pow encode_chain enc16 enc24].
    rewrite read24_enc by done. cbn -[Z.pow encode_chain enc16 enc24].
    rewrite <- (app_nil_r (enc16 ext)), read16_enc by done. cbn -[Z.pow encode_chain enc24].
    eexists. split; [done|]. unfold parseExtraData. cbn -[Z.pow encode_chain enc24 encode_extra_data].
    unfold encode_extra_data. cbn [ll_EntryType ll_Certificate].
    rewrite read24_enc by done. cbn [wrap_err bind_res].
    rewrite <- (app_nil_r (enc24 (encode_chain chain))), read24_enc by done. cbn [wrap_err bind_res].
    by rewrite parseCertChain_encode.
Qed.

(** The parsers of log data terminate without a panic on every input:
    ParseTile with the stated fuel, parseLeafInput and parseExtraData. *)
Theorem ct_parsers_total (data : bytes) (maxEntries : Z) (leaf : LogLeaf) :
  (exists x, parse_tile_loop (S (length data)) data maxEntries [] = Some x) /\
  ParseTile data maxEntries <> Panic /\ parseLeafInput data <> Panic /\
  parseExtraData data leaf <> Panic.
Proof.
  destruct (parse_tile_loop_total (S (length data)) data maxEntries []) as (x & Hx & Hp); [lia|].
  split; [by eauto|]. split; [unfold ParseTile; by rewrite Hx|]. split.
  - apply parseLeafInput_total.
  - unfold parseExtraData. destruct (ll_EntryType leaf); [done| |].
    + destruct (readUint24LenPrefixed data) as [[c r]|e|] eqn:E; cbn [wrap_err bind_res];
        [apply parseCertChain_total|done|by apply good_read24 in E].
    + destruct (readUint24LenPrefixed data) as [[c r]|e|] eqn:E; cbn [wrap_err bind_res];
        [|done|by apply good_read24 in E].
      destruct (readUint24LenPrefixed r) as [[c' r']|e|] eqn:E'; cbn [wrap_err bind_res];
        [apply parseCertChain_total|done|by apply good_read24 in E'].
Qed.

(** ** Witnesses *)

Definition sample_x509 : TileLeaf := mkTileLeaf 1700000000000 0 [x30; x01] [] zero_hash [x05] [repeat xaa 32].
Definition sample_precert : TileLeaf :=
  mkTileLeaf 1700000000001 1 [x30; x02; x07] [x31] (repeat x11 32) [] [].

Definition sample_late : TileLeaf :=
  mkTileLeaf 281474976710656 1 [] [] (repeat x11 32) [] [].

Lemma sample_late_wf : tile_leaf_wf sample_late.
Proof. repeat split; try done. by right. Qed.

Lemma sample_x509_wf : tile_leaf_wf sample_x509.
Proof. repeat split; try done; [by repeat constructor|by left]. Qed.

Lemma sample_precert_wf : tile_leaf_wf sample_precert.
Proof. repeat split; try done. by right. Qed.

Lemma parse_tile_roundtrip_witness :
  Forall tile_leaf_wf [sample_x509; sample_precert] /\
  ParseTile (encode_tile [sample_x509; sample_precert]) 1 = Ok [sample_x509].
Proof.
  assert (Forall tile_leaf_wf [sample_x509; sample_precert]) as H
    by (repeat constructor; [apply sample_x509_wf|apply sample_precert_wf]).
  split; [exact H|]. exact (parse_tile_roundtrip [sample_x509; sample_precert] 1 H).
Defined.

Lemma parse_tile_truncated_witness :
  ParseTile (encode_tile [sample_x509] ++ [x00; x01]) 0 = Ok [sample_x509] /\
  (exists e, ParseTile (encode_tile [sample_x509] ++ take 12 (encode_tile_leaf sample_precert)) 0
             = Err (Wrap "entry 1" e)).
Proof.
  assert (Forall tile_leaf_wf [sample_x509]) as H by (repeat constructor; apply sample_x509_wf).
  split.
  - exact (parse_tile_truncated [sample_x509] sample_late [x00; x01] (drop 2 (encode_tile_leaf sample_late))
      H sample_late_wf eq_refl ltac:(done)).
  - exact (parse_tile_truncated [sample_x509] sample_precert (take 12 (encode_tile_leaf sample_precert))
      (drop 12 (encode_tile_leaf sample_precert)) H sample_precert_wf eq_refl ltac:(done)).
Defined.

Definition sample_chain : list bytes := [[x30; x01]; [x30; x02]].
Definition sample_entry : LogLeaf :=
  mkLogLeaf 0 EntryPrecert 1700000000000 [x30] [x31; x32] (repeat x22 32) [] (map sha256 sample_chain).

Lemma rfc6962_entry_roundtrip_witness :
  exists leaf, parseLeafInput (encode_leaf_input sample_entry) = Ok leaf /\
    parseExtraData (encode_extra_data sample_entry sample_chain) leaf = Ok (sample_chain, sample_entry).
Proof.
  apply (rfc6962_entry_roundtrip sample_entry sample_chain).
  - repeat split; try done. by right.
  - reflexivity.
  - by repeat constructor.
  - done.
Defined.
