(* ===== verification/CtlogClient.v ===== *)
(** internal/ctlog/client.go and internal/ctlog/rfc6962_client.go: the two
    clients that fetch log entries. The network is a [transport]: what the
    limiter, the context and the HTTP round trip of each attempt do. The
    decompressor and the JSON decoder are section variables. *)

From S2P Require Import Prelude GoStd Sha256 CtlogParse.

(** ** Definitions *)

(** *** HTTP with retries (client.go) *)

Definition maxRetries : Z := 5.
(** nanoseconds *)
Definition retryBaseWait : Z := 2000000000.
Definition TileSize : Z := 256.

Record response := mkResponse {
  StatusCode : Z;
  gzip_encoded : bool;  (* Content-Encoding: gzip *)
  resp_body : res bytes }.

(** What one GET of a URL meets: the limiter, then per attempt whether the
    context ends during the wait, the round trip, and the context afterwards. *)
Record transport := mkTransport {
  tr_limiter : string -> option error;
  tr_waitDone : string -> Z -> bool;
  tr_do : string -> Z -> res response;
  tr_ctxErr : string -> Z -> bool }.

(** [errors.As(err, &he)] for an [*httpError]: the first in the chain. *)
Fixpoint as_http_error (e : error) : option (Z * string) :=
  match e with
  | HTTPError c u => Some (c, u)
  | Wrap _ e => as_http_error e
  | _ => None
  end.

Definition IsNotFound (e : error) : bool :=
  match as_http_error e with
  | Some (code, _) => (code =? 404) || (code =? 403)
  | None => false
  end.

Definition isFatalHTTP (e : error) : bool :=
  match as_http_error e with
  | None => false
  | Some (code, _) =>
      if (code =? 429) || (code =? 409) then false
      else (400 <=? code) && (code <? 500)
  end.

Section Get.

(** [gzip.NewReader] and [io.ReadAll] of the decompressed stream. *)
Variable gzip_open : bytes -> res bytes.
Variable gunzip : bytes -> res bytes.
Variable tr : transport.

Definition readMaybeGzip (r : response) : res bytes :=
  let? body := resp_body r in
  if gzip_encoded r then
    let? gz := wrap_err "gzip" (gzip_open body) in gunzip gz
  else Ok body.

Definition doGet (url : string) (attempt : Z) : res bytes :=
  let? r := tr_do tr url attempt in
  if negb (StatusCode r =? 200) then Err (HTTPError (StatusCode r) url)
  else readMaybeGzip r.

Definition retry_wait (attempt : Z) : Z := retryBaseWait * Z.shiftl 1 (attempt - 1).

(** The attempts [attempt, attempt+n): the result and the waits slept. *)
Fixpoint get_loop (n : nat) (attempt : Z) (url : string) (lastErr : error) : res bytes * list Z :=
  match n with
  | O => (Err (Wrap ("after " +:+ dec (maxRetries + 1) +:+ " attempts") lastErr), [])
  | S n' =>
      let wait := retry_wait attempt in
      if (0 <? attempt) && tr_waitDone tr url attempt then (Err ErrCanceled, []) else
      let slept := if 0 <? attempt then [wait] else [] in
      match doGet url attempt with
      | Ok data => (Ok data, slept)
      | Panic => (Panic, slept)
      | Err e =>
          if tr_ctxErr tr url attempt then (Err ErrCanceled, slept)
          else if isFatalHTTP e then (Err e, slept)
          else let '(r, ws) := get_loop n' (attempt + 1) url e in (r, slept ++ ws)
      end
  end.

Definition get_waits (url : string) : res bytes * list Z :=
  match tr_limiter tr url with
  | Some e => (Err e, [])
  | None => get_loop (Z.to_nat (maxRetries + 1)) 0 url (Errorf "")
  end.

Definition get (url : string) : res bytes := fst (get_waits url).

End Get.

(** [RFC6962Client.get] repeats [TileClient.get] line by line (its [doGet] asks
    for JSON), without the log output. *)
Definition RFC6962_get (gzo gz : bytes -> res bytes) (tr : transport) (url : string) : res bytes :=
  get gzo gz tr url.

(** *** The static-ct-api client (client.go) *)

Fixpoint pad3 (k : nat) (s : string) : string :=
  match k with
  | O => s
  | S k' => if (String.length s mod 3 =? 0)%nat then s else pad3 k' (String "0" s)
  end.

(** [for i := 0; i < len(s); i += 3] over a string of [3 * k] digits, joined. *)
Fixpoint path_segments (k : nat) (s : string) : string :=
  match k with
  | O => ""
  | S k' =>
      let segment := str_take 3 s in
      match k' with
      | O => segment
      | S _ => "x" +:+ segment +:+ "/" +:+ path_segments k' (str_drop 3 s)
      end
  end.

(** At most two zeros are prepended: the length reaches a multiple of 3. *)
Definition tileIndexPath (n : Z) : string :=
  let s := pad3 2 (dec n) in path_segments (String.length s / 3) s.

Record tile_client := mkTileClient {
  tc_get : string -> res bytes;
  tileDataRoot : string;
  logRoot : string }.

(** NewTileClient's two roots; the limiter and transport are in [tc_get]. *)
Definition NewTileClient (getf : string -> res bytes) (root : string) : tile_client :=
  let root := if has_suffix root "/" then root else (root +:+ "/")%string in
  mkTileClient getf root (trim_suffix root "tile/data/").

Definition TileURL (c : tile_client) (tileIdx : Z) : string :=
  (tileDataRoot c +:+ tileIndexPath tileIdx)%string.

Definition FetchTile (c : tile_client) (tileIdx maxEntries : Z) : res (list TileLeaf) :=
  let? data := wrap_err ("tile " +:+ dec tileIdx) (tc_get c (TileURL c tileIdx)) in
  ParseTile data maxEntries.

(** The inner loop: the leaves of a tile at base index, kept when in range. *)
Fixpoint keep_leaves (leaves : list TileLeaf) (idx start end_ : Z) : list LogLeaf :=
  match leaves with
  | [] => []
  | l :: leaves' =>
      if (idx <? start) || (end_ <=? idx) then keep_leaves leaves' (idx + 1) start end_
      else tileLeafToLogLeaf l idx :: keep_leaves leaves' (idx + 1) start end_
  end.

(** [for t := firstTile; t <= lastTile; t++], [n] tiles from [t]. *)
Fixpoint fetch_tiles_loop (n : nat) (c : tile_client) (t start end_ : Z) (out : list LogLeaf)
  : res (list LogLeaf) :=
  match n with
  | O => Ok out
  | S n' =>
      let? leaves := FetchTile c t TileSize in
      fetch_tiles_loop n' c (t + 1) start end_ (out ++ keep_leaves leaves (t * TileSize) start end_)
  end.

(** [make([]*LogLeaf, 0, n)]: 8-byte pointers. *)
Definition TileClient_FetchEntries (c : tile_client) (start end_ : Z) : res (list LogLeaf) :=
  if (start <? 0) || (end_ <? start) then
    Err (Errorf ("FetchEntries: invalid range [" +:+ dec start +:+ ", " +:+ dec end_ +:+ ")"))
  else if start =? end_ then Ok []
  else if negb (make_ok ((end_ - start) * 8)) then Panic
  else
    let firstTile := Z.quot start TileSize in
    let lastTile := Z.quot (end_ - 1) TileSize in
    fetch_tiles_loop (Z.to_nat (lastTile - firstTile + 1)) c firstTile start end_ [].

Definition TileClient_FetchIssuer (c : tile_client) (fingerprint : bytes) : res bytes :=
  let hex := hex_encode fingerprint in
  wrap_err ("issuer " +:+ str_take 8 hex) (tc_get c (logRoot c +:+ "issuer/" +:+ hex)).

(** *** The RFC 6962 client (rfc6962_client.go) *)

(** [c.issuers]: fingerprint to DER. *)
Abbreviation issuer_map := (gmap bytes bytes).

Section RFC6962.

(** [c.get], [json.Unmarshal] into the entries array and
    [base64.StdEncoding.DecodeString]. *)
Variable getf : string -> res bytes.
Variable json_entries : bytes -> res (list (string * string)).
Variable b64 : string -> res bytes.
Variable apiRoot : string.

Fixpoint cacheIssuers (m : issuer_map) (fps ders : list bytes) : issuer_map :=
  match fps, ders with
  | fp :: fps', der :: ders' =>
      cacheIssuers (match m !! fp with Some _ => m | None => <[fp := der]> m end) fps' ders'
  | _, _ => m
  end.

Definition parse_entry (i : Z) (e : string * string) : res (LogLeaf * list bytes) :=
  let? leafIn := wrap_err ("entry " +:+ dec i +:+ " leaf_input b64") (b64 (fst e)) in
  let? extra := wrap_err ("entry " +:+ dec i +:+ " extra_data b64") (b64 (snd e)) in
  let? leaf := wrap_err ("entry " +:+ dec i +:+ " leaf") (parseLeafInput leafIn) in
  let? (chainDER, leaf) := wrap_err ("entry " +:+ dec i +:+ " extra") (parseExtraData extra leaf) in
  Ok (leaf, chainDER).

(** The loop over resp.Entries; the cache keeps what was added before an error. *)
Fixpoint page_loop (m : issuer_map) (i : Z) (es : list (string * string)) (out : list LogLeaf)
  : issuer_map * res (list LogLeaf) :=
  match es with
  | [] => (m, Ok out)
  | e :: es' =>
      match parse_entry i e with
      | Ok (leaf, chainDER) =>
          page_loop (cacheIssuers m (ll_ChainFingerprints leaf) chainDER) (i + 1) es' (out ++ [leaf])
      | Err err => (m, Err err)
      | Panic => (m, Panic)
      end
  end.

(** [url.Values.Encode] sorts its keys. *)
Definition entries_url (start end_ : Z) : string :=
  (apiRoot +:+ "ct/v1/get-entries?" +:+ "end=" +:+ dec end_ +:+ "&start=" +:+ dec start)%string.

Definition fetchEntriesPage (m : issuer_map) (start end_ : Z) : issuer_map * res (list LogLeaf) :=
  match wrap_err ("get-entries [" +:+ dec start +:+ "," +:+ dec end_ +:+ "]")
          (getf (entries_url start end_)) with
  | Ok body =>
      match wrap_err "parse get-entries" (json_entries body) with
      | Ok es => page_loop m 0 es []
      | Err e => (m, Err e)
      | Panic => (m, Panic)
      end
  | Err e => (m, Err e)
  | Panic => (m, Panic)
  end.

Definition set_idx (leaf : LogLeaf) (i : Z) : LogLeaf :=
  mkLogLeaf i (ll_EntryType leaf) (ll_Timestamp leaf) (ll_Certificate leaf) (ll_TBSCertificate leaf)
    (ll_PreIssuerKeyHash leaf) (ll_Extensions leaf) (ll_ChainFingerprints leaf).

(** [for i, leaf := range page { leaf.EntryIdx = cursor + int64(i) }] *)
Fixpoint number_page (cursor : Z) (page : list LogLeaf) : list LogLeaf :=
  match page with
  | [] => []
  | leaf :: page' => set_idx leaf (wrap64 cursor) :: number_page (cursor + 1) page'
  end.

(** [for cursor < end]; [None] when [fuel] runs out. *)
Fixpoint fetch_entries_loop (fuel : nat) (m : issuer_map) (cursor end_ : Z) (out : list LogLeaf)
  : option (issuer_map * res (list LogLeaf)) :=
  match fuel with
  | O => None
  | S fuel' =>
      if cursor <? end_ then
        match fetchEntriesPage m cursor (end_ - 1) with
        | (m', Err e) => Some (m', Err e)
        | (m', Panic) => Some (m', Panic)
        | (m', Ok []) => Some (m', Ok out)
        | (m', Ok page) =>
            fetch_entries_loop fuel' m' (wrap64 (cursor + Z.of_nat (length page))) end_
              (out ++ number_page cursor page)
        end
      else Some (m, Ok out)
  end.

(** Every iteration advances the cursor, so [end - start] bounds them. *)
Definition RFC6962_FetchEntries (m : issuer_map) (start end_ : Z)
  : option (issuer_map * res (list LogLeaf)) :=
  if (start <? 0) || (end_ <? start) then
    Some (m, Err (Errorf ("FetchEntries: invalid range [" +:+ dec start +:+ ", " +:+ dec end_ +:+ ")")))
  else if start =? end_ then Some (m, Ok [])
  else fetch_entries_loop (S (Z.to_nat (end_ - start))) m start end_ [].

Definition RFC6962_FetchIssuer (m : issuer_map) (fp : bytes) : res bytes :=
  match m !! fp with
  | Some der => Ok der
  | None => Err (Errorf ("issuer " +:+ hex_encode (take 4 fp) +:+ " not in chain cache"))
  end.

End RFC6962.

(** ** Specifications *)

(** The entries [start, end) of a log, numbered. *)
Definition log_slice (L : list TileLeaf) (start end_ : Z) : list LogLeaf :=
  imap (fun i l => tileLeafToLogLeaf l (start + Z.of_nat i))
    (take (Z.to_nat (end_ - start)) (drop (Z.to_nat start) L)).

(** A static-ct server of the log [L] answers every tile that has entries. *)
Definition serves_tiles (c : tile_client) (L : list TileLeaf) (lo hi : Z) : Prop :=
  forall t, lo <= t <= hi ->
    tc_get c (TileURL c t)
    = Ok (encode_tile (take 256 (drop (Z.to_nat (256 * t)) L))).

Definition issuers_sound (m : issuer_map) : Prop :=
  forall fp der, m !! fp = Some der -> sha256 der = fp.

(** Three decimal digits. *)
Definition d3 (r : Z) : string :=
  String (pretty_N_char (Z.to_N (r / 100)))
    (String (pretty_N_char (Z.to_N (r / 10 mod 10))) (String (pretty_N_char (Z.to_N (r mod 10))) "")).

(** The static-ct-api tile path: three-digit elements, all but the last with a
    leading x. The two strings are the directory part and the last element. *)
Inductive spec_path : Z -> string -> string -> Prop :=
| spec_path_last n : 0 <= n < 1000 -> spec_path n "" (d3 n)
| spec_path_more n p l : 1000 <= n -> spec_path (n / 1000) p l ->
    spec_path n (p +:+ "x" +:+ l +:+ "/") (d3 (n mod 1000)).

(** The outcomes that make [get] try again. *)
Definition retryable (r : res bytes) : Prop := exists e, r = Err e /\ isFatalHTTP e = false.

Definition backoff (k : Z) : list Z :=
  take (Z.to_nat k) [2000000000; 4000000000; 8000000000; 16000000000; 32000000000].

(** ** Lemmas *)

(** *** Tile paths *)

Lemma go_app x a b : pretty_N_go x (a +:+ b) = (pretty_N_go x a +:+ b)%string.
Proof.
  revert a. induction (N.lt_wf_0 x) as [x _ IH]; intros a.
  destruct (decide (0 < x)%N) as [Hx|Hx].
  - rewrite !(pretty_N_go_step x) by done. rewrite <- IH by (apply N.div_lt; lia). done.
  - assert (x = 0)%N as -> by lia. by rewrite !pretty_N_go_0.
Qed.

Lemma dec_split n : 1000 <= n -> dec n = (dec (n / 1000) +:+ d3 (n mod 1000))%string.
Proof.
  intros H. destruct n as [|p|p]; [lia| |lia].
  assert (1000 <= N.pos p)%N as Hp by lia.
  assert (Z.pos p / 1000 = Z.of_N (N.pos p / 1000)) as Hd by (rewrite N2Z.inj_div; done).
  assert (1 <= N.pos p / 1000)%N as H1 by (apply N.div_le_lower_bound; lia).
  rewrite dec_pos. rewrite pretty_N_go_step by lia.
  rewrite pretty_N_go_step by (apply N.div_str_pos; lia).
  rewrite pretty_N_go_step by (rewrite N.Div0.div_div; apply N.div_str_pos; lia).
  rewrite !N.Div0.div_div. change (10 * (10 * 10))%N with 1000%N. change (10 * 10)%N with 100%N.
  rewrite Hd. destruct (N.pos p / 1000)%N as [|q] eqn:E; [lia|]. change (Z.of_N (N.pos q)) with (Z.pos q).
  rewrite dec_pos, <- go_app. f_equal. unfold d3. simpl String.append. repeat f_equal.
  - apply N2Z.inj. rewrite Z2N.id by div_lia. rewrite N2Z.inj_mod, N2Z.inj_div. simpl Z.of_N. div_lia.
  - apply N2Z.inj. rewrite Z2N.id by div_lia. rewrite N2Z.inj_mod, N2Z.inj_div. simpl Z.of_N. div_lia.
  - apply N2Z.inj. rewrite Z2N.id by div_lia. rewrite N2Z.inj_mod. simpl Z.of_N. div_lia.
Qed.

Lemma pad3_app k a d :
  String.length d = 3%nat -> pad3 k (a +:+ d) = (pad3 k a +:+ d)%string.
Proof.
  intros Hd. revert a. induction k as [|k IH]; intros a; cbn [pad3]; [done|].
  rewrite str_length_app, Hd. replace (String.length a + 3)%nat with (String.length a + 1 * 3)%nat by lia.
  rewrite Nat.Div0.mod_add. destruct (_ =? 0)%nat; [done|]. by rewrite <- IH.
Qed.

Lemma pad3_small n : 0 <= n < 1000 -> pad3 2 (dec n) = d3 n.
Proof.
  intros H. assert (forall k, (k < 1000)%nat -> pad3 2 (dec (Z.of_nat k)) = d3 (Z.of_nat k)) as Hall.
  { assert (forallb (fun k => String.eqb (pad3 2 (dec (Z.of_nat k))) (d3 (Z.of_nat k))) (seq 0 1000) = true)
      as Hf by (vm_compute; reflexivity).
    intros k Hk. rewrite forallb_forall in Hf. apply String.eqb_eq, Hf, in_seq. lia. }
  specialize (Hall (Z.to_nat n)). rewrite Z2Nat.id in Hall by lia. apply Hall. lia.
Qed.

Lemma path_segments_d3 r t k :
  path_segments (S (S k)) (d3 r +:+ t) = ("x" +:+ d3 r +:+ "/" +:+ path_segments (S k) t)%string.
Proof.
  remember (S k) as k1 eqn:Hk. cbn [path_segments]. rewrite Hk.
  assert (3 = Z.of_nat (String.length (d3 r))) as H3 by done.
  rewrite H3 at 1. rewrite str_take_app. by rewrite (str_drop_app (d3 r) t 3 H3).
Qed.

Lemma path_segments_shape n :
  0 <= n -> exists k p l, spec_path n p l /\
    String.length (pad3 2 (dec n)) = (3 * S k)%nat /\
    path_segments (S k) (pad3 2 (dec n)) = (p +:+ l)%string /\
    forall t k', path_segments (S k + S k') (pad3 2 (dec n) +:+ t)
                 = ((p +:+ "x" +:+ l +:+ "/") +:+ path_segments (S k') t)%string.
Proof.
  intros Hn. induction (Z.lt_wf 0 n) as [n _ IH].
  destruct (Z.lt_ge_cases n 1000) as [Hlt|Hge].
  - exists 0%nat, "", (d3 n). rewrite pad3_small by lia. repeat split; [by constructor|].
    intros t k'. apply path_segments_d3.
  - destruct (IH (n / 1000)) as (k & p & l & Hp & Hlen & _ & Hext); [|apply Z.div_pos; lia|].
    { split; [apply Z.div_pos; lia|apply Z.div_lt; lia]. }
    exists (S k), (p +:+ "x" +:+ l +:+ "/")%string, (d3 (n mod 1000)).
    rewrite dec_split, pad3_app by done. split; [by apply spec_path_more|].
    split; [rewrite str_length_app, Hlen; simpl; lia|]. split.
    + replace (S (S k)) with (S k + 1)%nat by lia. by rewrite Hext.
    + intros t k'. rewrite str_app_assoc. replace (S (S k) + S k')%nat with (S k + S (S k'))%nat by lia.
      rewrite Hext. rewrite (str_app_assoc (p +:+ _)). f_equal.
      by rewrite path_segments_d3.
Qed.

Lemma spec_path_val n p l : spec_path n p l -> 0 <= n.
Proof. destruct 1; lia. Qed.

Lemma d3_inj a b : 0 <= a < 1000 -> 0 <= b < 1000 -> d3 a = d3 b -> a = b.
Proof.
  intros Ha Hb H.
  assert (dec_val 0 (d3 a) = dec_val 0 (d3 b)) as Hv by (by rewrite H). unfold d3 in Hv. cbn [dec_val] in Hv.
  rewrite !digit_val_char in Hv by div_lia. rewrite !Z2N.id in Hv by div_lia. div_lia.
Qed.

Lemma spec_path_inv n p l :
  spec_path n p l ->
  (0 <= n < 1000 /\ p = "" /\ l = d3 n) \/
  (1000 <= n /\ l = d3 (n mod 1000) /\
   exists p' l', spec_path (n / 1000) p' l' /\ p = (p' +:+ "x" +:+ l' +:+ "/")%string).
Proof. destruct 1; [by left|right]. eauto 10. Qed.

Lemma spec_path_last_length n p l : spec_path n p l -> String.length l = 3%nat.
Proof. by destruct 1. Qed.

Lemma spec_path_inj n m p l : spec_path n p l -> spec_path m p l -> n = m.
Proof.
  intros Hn. revert m. induction Hn as [n Hn|n p1 l1 Hn H1 IH]; intros m Hm;
    apply spec_path_inv in Hm as [(Hr & Hp & Hl)|(Hr & Hl & p2 & l2 & Hm2 & Hp)].
  - by apply d3_inj in Hl.
  - apply (f_equal String.length) in Hp. rewrite !str_length_app in Hp. simpl in Hp. lia.
  - apply (f_equal String.length) in Hp. rewrite !str_length_app in Hp. simpl in Hp. lia.
  - apply d3_inj in Hl; [|div_lia..].
    apply spec_path_last_length in H1 as L1. apply spec_path_last_length in Hm2 as L2.
    assert (String.length p1 = String.length p2) as HL.
    { apply (f_equal String.length) in Hp. rewrite !str_length_app in Hp. lia. }
    apply str_app_inj_len in Hp as [-> Hp]; [|done].
    apply str_app_inj_l, str_app_inj_r in Hp as ->. specialize (IH _ Hm2). div_lia.
Qed.

(** *** Retries *)

Lemma get_loop_spec gzo gz tr url n a last
  (Hctx : forall k, tr_waitDone tr url k = false /\ tr_ctxErr tr url k = false)
  (Hnp : forall k, doGet gzo gz tr url k <> Panic) (Ha : 0 <= a) :
  let waits := fun k => retry_wait <$> seqZ (Z.max 1 a) (k + 1 - Z.max 1 a) in
  (exists k, a <= k < a + Z.of_nat n /\
     (forall i, a <= i < k -> retryable (doGet gzo gz tr url i)) /\
     ~ retryable (doGet gzo gz tr url k) /\
     get_loop gzo gz tr n a url last = (doGet gzo gz tr url k, waits k)) \/
  ((forall i, a <= i < a + Z.of_nat n -> retryable (doGet gzo gz tr url i)) /\
   exists e, (if decide (n = 0%nat) then e = last else doGet gzo gz tr url (a + Z.of_nat n - 1) = Err e) /\
   get_loop gzo gz tr n a url last
   = (Err (Wrap ("after " +:+ dec (maxRetries + 1) +:+ " attempts") e), waits (a + Z.of_nat n - 1))).
Proof.
  revert a last Ha. induction n as [|n IH]; intros a last Ha waits.
  - right. split; [lia|]. exists last. split; [done|]. unfold waits. cbn [get_loop].
    by rewrite seqZ_nil by lia.
  - cbn [get_loop]. destruct (Hctx a) as [-> ->]. rewrite andb_false_r.
    assert (Hw : forall k, a <= k -> waits k = (if 0 <? a then [retry_wait a] else []) ++
              (retry_wait <$> seqZ (Z.max 1 (a + 1)) (k + 1 - Z.max 1 (a + 1)))).
    { intros k Hk. unfold waits. destruct (Z.ltb_spec 0 a).
      - rewrite !Z.max_r by lia. rewrite seqZ_cons by lia. cbn. do 3 f_equal; lia.
      - assert (a = 0) as -> by lia. done. }
    destruct (doGet gzo gz tr url a) as [d|e|] eqn:E; [| |by apply Hnp in E].
    + left. exists a. rewrite E. split; [lia|]. split; [lia|]. split; [by intros (? & ? & ?)|].
      rewrite Hw by lia. rewrite seqZ_nil by lia. by rewrite app_nil_r.
    + destruct (isFatalHTTP e) eqn:Ef.
      * left. exists a. rewrite E. split; [lia|]. split; [lia|].
        split; [intros (? & [= <-] & ?); congruence|].
        rewrite Hw by lia. rewrite seqZ_nil by lia. by rewrite app_nil_r.
      * assert (Hret : retryable (doGet gzo gz tr url a)) by (rewrite E; by exists e).
        destruct (IH (a + 1) e ltac:(lia)) as [(k & Hk & Hbefore & Hstop & ->)|(Hall & e' & He & ->)].
        -- left. exists k. split; [lia|]. split; [|split; [done|by rewrite Hw by lia]].
           intros i Hi. destruct (decide (i = a)) as [->|]; [done|]. apply Hbefore. lia.
        -- right. split.
           { intros i Hi. destruct (decide (i = a)) as [->|]; [done|]. apply Hall. lia. }
           exists e'. rewrite decide_False by done. split.
           ++ case_decide as Hn.
              ** subst. by replace (a + Z.of_nat 1 - 1) with a by lia.
              ** by replace (a + Z.of_nat (S n) - 1) with (a + 1 + Z.of_nat n - 1) by lia.
           ++ replace (a + Z.of_nat (S n) - 1) with (a + 1 + Z.of_nat n - 1) by lia. by rewrite Hw by lia.
Qed.

(** *** FetchEntries of the tile client *)

Lemma log_slice_nil L a b : b <= a -> log_slice L a b = [].
Proof. intros H. unfold log_slice. by replace (Z.to_nat (b - a)) with 0%nat by lia. Qed.

Lemma log_slice_app L a b c :
  0 <= a <= b -> b <= c -> log_slice L a c = log_slice L a b ++ log_slice L b c.
Proof.
  intros Hab Hbc. unfold log_slice.
  replace (Z.to_nat (c - a)) with (Z.to_nat (b - a) + Z.to_nat (c - b))%nat by lia.
  rewrite <- take_take_drop, drop_drop, imap_app.
  replace (Z.to_nat a + Z.to_nat (b - a))%nat with (Z.to_nat b) by lia. f_equal.
  destruct (decide (Z.to_nat (b - a) <= length (drop (Z.to_nat a) L))%nat) as [Hle|Hgt].
  - apply imap_ext. intros i x _. unfold compose. rewrite length_take. f_equal. lia.
  - rewrite length_drop in Hgt. by rewrite (drop_ge L (Z.to_nat b)), take_nil by lia.
Qed.

Lemma keep_leaves_slice ls idx start end_ :
  0 <= idx ->
  keep_leaves ls idx start end_
  = imap (fun i l => tileLeafToLogLeaf l (Z.max idx start + Z.of_nat i))
      (take (Z.to_nat (end_ - Z.max idx start)) (drop (Z.to_nat (Z.max idx start - idx)) ls)).
Proof.
  revert idx. induction ls as [|l ls IH]; intros idx Hi; cbn [keep_leaves].
  - by rewrite drop_nil, take_nil.
  - destruct (Z.ltb_spec idx start); cbn [orb].
    + rewrite IH by lia. rewrite !Z.max_r by lia.
      by replace (Z.to_nat (start - idx)) with (S (Z.to_nat (start - (idx + 1)))) by lia.
    + destruct (Z.leb_spec end_ idx).
      * rewrite IH by lia. rewrite !Z.max_l by lia.
        replace (Z.to_nat (end_ - idx)) with 0%nat by lia.
        by replace (Z.to_nat (end_ - (idx + 1))) with 0%nat by lia.
      * rewrite IH by lia. rewrite !Z.max_l by lia.
        rewrite Z.sub_diag. replace (Z.to_nat (end_ - idx)) with (S (Z.to_nat (end_ - (idx + 1)))) by lia.
        rewrite Z.sub_diag. change (Z.to_nat 0) with 0%nat. rewrite !drop_0. cbn [take imap].
        f_equal; [f_equal; lia|]. apply imap_ext. intros i x _. unfold compose. f_equal. lia.
Qed.

Lemma keep_leaves_tile L t start end_ :
  0 <= t ->
  keep_leaves (take 256 (drop (Z.to_nat (256 * t)) L)) (t * 256) start end_
  = log_slice L (Z.max (256 * t) start) (Z.min end_ (256 * (t + 1))).
Proof.
  intros Ht. rewrite keep_leaves_slice by lia. unfold log_slice.
  replace (t * 256) with (256 * t) by lia. set (m := Z.max (256 * t) start).
  rewrite skipn_firstn_comm, take_take, drop_drop. do 2 f_equal; [lia|].
  f_equal. lia.
Qed.

Lemma fetch_tiles_loop_spec c L n t start end_ out :
  Forall tile_leaf_wf L -> 0 <= t -> 0 <= start ->
  serves_tiles c L t (t + Z.of_nat n - 1) ->
  256 * t <= Z.max start (256 * t) -> start < 256 * (t + 1) ->
  fetch_tiles_loop n c t start end_ out
  = Ok (out ++ log_slice L (Z.max (256 * t) start) (Z.max (Z.max (256 * t) start) (Z.min end_ (256 * (t + Z.of_nat n))))).
Proof.
  intros HL. revert t out. induction n as [|n IH]; intros t out Ht Hs Hserve Hm Hst; cbn [fetch_tiles_loop].
  - rewrite log_slice_nil by lia. by rewrite app_nil_r.
  - unfold FetchTile. rewrite Hserve by lia. cbn [wrap_err bind_res].
    rewrite parse_tile_encoded by (by apply Forall_take, Forall_drop).
    change (TileSize <=? 0) with false. cbn [bind_res].
    rewrite take_take. change (Z.to_nat TileSize `min` 256)%nat with 256%nat.
    unfold TileSize. rewrite keep_leaves_tile by lia.
    rewrite IH; [|lia|lia|intros t' Ht'; apply Hserve; lia|lia|lia].
    rewrite <- app_assoc. do 2 f_equal.
    replace (Z.max (256 * (t + 1)) start) with (256 * (t + 1)) by lia.
    replace (t + 1 + Z.of_nat n) with (t + Z.of_nat (S n)) by lia.
    destruct (Z.le_gt_cases end_ (256 * (t + 1))).
    + rewrite (log_slice_nil L (256 * (t + 1))) by lia. rewrite app_nil_r.
      destruct (Z.le_gt_cases (Z.min end_ (256 * (t + 1))) (Z.max (256 * t) start)).
      * by rewrite !log_slice_nil by lia.
      * f_equal. lia.
    + rewrite Z.min_r by lia. rewrite <- log_slice_app by lia. f_equal; lia.
Qed.

(** *** FetchEntries of the RFC 6962 client *)

Lemma number_page_numbers cursor page :
  0 <= cursor -> cursor + Z.of_nat (length page) <= max_int64 + 1 ->
  EntryIdx <$> number_page cursor page = seqZ cursor (Z.of_nat (length page)).
Proof.
  revert cursor. induction page as [|l page IH]; intros cursor H0 H; [done|].
  cbn [number_page length] in *. rewrite seqZ_cons by lia. rewrite fmap_cons. cbn [set_idx EntryIdx].
  rewrite wrap64_id by go_lia. rewrite IH by lia. f_equal. unfold Z.succ. f_equal. lia.
Qed.

Lemma cacheIssuers_mono m fps ders fp der :
  m !! fp = Some der -> cacheIssuers m fps ders !! fp = Some der.
Proof.
  revert m ders. induction fps as [|f fps IH]; intros m [|d ders] H; cbn [cacheIssuers]; try done.
  apply IH. destruct (m !! f) eqn:E; [done|]. rewrite lookup_insert_ne; [done|congruence].
Qed.

Lemma cacheIssuers_sound m ders :
  issuers_sound m -> issuers_sound (cacheIssuers m (map sha256 ders) ders).
Proof.
  revert m. induction ders as [|d ders IH]; intros m Hm; [done|]. cbn [map cacheIssuers]. apply IH.
  destruct (m !! sha256 d) eqn:E; [done|]. intros fp der [[<- <-]|[? ?]]%lookup_insert_Some; [done|by apply Hm].
Qed.

Lemma cacheIssuers_complete m ders fp :
  fp ∈ map sha256 ders -> is_Some (cacheIssuers m (map sha256 ders) ders !! fp).
Proof.
  revert m. induction ders as [|d ders IH]; intros m H; [by apply elem_of_nil in H|].
  cbn [map cacheIssuers] in *. apply elem_of_cons in H as [->|H]; [|by apply IH].
  destruct (m !! sha256 d) as [b|] eqn:E.
  - exists b. by apply cacheIssuers_mono.
  - exists d. apply cacheIssuers_mono, lookup_insert_eq.
Qed.

(** The fingerprints of a parsed leaf are those of the chain parsed with it. *)
Lemma parse_entry_fps b64 i e leaf chain :
  parse_entry b64 i e = Ok (leaf, chain) -> ll_ChainFingerprints leaf = map sha256 chain.
Proof.
  unfold parse_entry. destruct (b64 (fst e)) as [lb| |]; try done. cbn [wrap_err bind_res].
  destruct (b64 (snd e)) as [xb| |]; try done. cbn [wrap_err bind_res].
  destruct (parseLeafInput lb) as [l0| |] eqn:E; try done. cbn [wrap_err bind_res].
  assert (ll_ChainFingerprints l0 = []) as Hnil.
  { revert E. unfold parseLeafInput.
    repeat match goal with
    | |- bind_res (wrap_err _ ?m) _ = Ok _ -> _ => destruct m as [[? ?]| |]; cbn [wrap_err bind_res]
    | |- (if ?b then _ else _) = Ok _ -> _ => destruct b; cbn [wrap_err bind_res]
    | |- bind_res (if ?b then _ else _) _ = Ok _ -> _ => destruct b; cbn [wrap_err bind_res]
    | |- bind_res (bind_res (wrap_err _ ?m) _) _ = Ok _ -> _ =>
        destruct m as [[? ?]| |]; cbn [wrap_err bind_res]
    end; try done; by intros [= <-]. }
  assert (forall cb l1 r, parseCertChain cb l1 = Ok r -> ll_ChainFingerprints l1 = [] ->
            ll_ChainFingerprints (snd r) = map sha256 (fst r)) as Hchain.
  { intros cb l1 r. unfold parseCertChain. destruct (default _ _) as [ch| |]; try done.
    intros [= <-] H1. cbn. by rewrite H1. }
  destruct (parseExtraData xb l0) as [[c l]| |] eqn:Ex; try done. cbn [wrap_err bind_res].
  intros [= <- <-]. revert Ex. unfold parseExtraData. destruct (ll_EntryType l0); [done| |].
  - destruct (readUint24LenPrefixed xb) as [[cb r]| |]; try done. cbn [wrap_err bind_res].
    intros Ex. by apply Hchain in Ex.
  - destruct (readUint24LenPrefixed xb) as [[pc r]| |]; try done. cbn [wrap_err bind_res].
    destruct (readUint24LenPrefixed r) as [[cb r']| |]; try done. cbn [wrap_err bind_res].
    intros Ex. apply Hchain in Ex; [done|]. cbn. by rewrite Hnil.
Qed.

Section RFC6962_loop.

Context (getf : string -> res bytes) (json : bytes -> res (list (string * string)))
  (b64 : string -> res bytes) (apiRoot : string).

(** Every chain fingerprint of [leaves] is in the cache. *)
Definition issuers_cover (m : issuer_map) (leaves : list LogLeaf) : Prop :=
  forall l fp, l ∈ leaves -> fp ∈ ll_ChainFingerprints l -> is_Some (m !! fp).

Lemma issuers_cover_mono m m' leaves :
  (forall fp der, m !! fp = Some der -> m' !! fp = Some der) ->
  issuers_cover m leaves -> issuers_cover m' leaves.
Proof. intros Hmm H l fp Hl Hfp. destruct (H l fp Hl Hfp) as [d Hd]. eauto. Qed.

Lemma issuers_cover_app m a b : issuers_cover m a -> issuers_cover m b -> issuers_cover m (a ++ b).
Proof. intros Ha Hb l fp [Hl|Hl]%elem_of_app Hfp; [by eapply Ha|by eapply Hb]. Qed.

Definition issuers_step (m m' : issuer_map) : Prop :=
  (issuers_sound m -> issuers_sound m') /\
  forall fp der, m !! fp = Some der -> m' !! fp = Some der.

Lemma page_loop_issuers es m i out m' r :
  page_loop b64 m i es out = (m', r) ->
  issuers_step m m' /\
  forall page, r = Ok page -> issuers_cover m out -> issuers_cover m' page.
Proof.
  revert m i out. induction es as [|e es IH]; intros m i out; cbn [page_loop].
  - intros [= <- <-]. split; [by split|]. by intros ? [= <-].
  - destruct (parse_entry b64 i e) as [[leaf chain]|err|] eqn:E.
    + apply parse_entry_fps in E as Hfp. rewrite Hfp. intros H. apply IH in H as ((Hs & Hm) & Hc).
      split; [split|].
      * intros Hi. by apply Hs, cacheIssuers_sound.
      * intros fp der Hfd. by apply Hm, cacheIssuers_mono.
      * intros page -> Hout. apply (Hc _ eq_refl), issuers_cover_app.
        -- apply (issuers_cover_mono m); [intros; by apply cacheIssuers_mono|done].
        -- intros l fp ->%list_elem_of_singleton. rewrite Hfp. apply cacheIssuers_complete.
    + intros [= <- <-]. by repeat split.
    + intros [= <- <-]. by repeat split.
Qed.

Lemma fetchEntriesPage_issuers m s e m' r :
  fetchEntriesPage getf json b64 apiRoot m s e = (m', r) ->
  issuers_step m m' /\ forall page, r = Ok page -> issuers_cover m' page.
Proof.
  unfold fetchEntriesPage. destruct (wrap_err _ (getf _)) as [body| |];
    [|intros [= <- <-]; by repeat split..].
  destruct (wrap_err _ (json body)) as [es| |]; [|intros [= <- <-]; by repeat split..].
  intros [Hs Hc]%page_loop_issuers. split; [done|]. intros page ->. apply Hc; [done|].
  by intros ? ? ?%elem_of_nil.
Qed.

Lemma number_page_length cursor page : length (number_page cursor page) = length page.
Proof. revert cursor. induction page; intros; simpl; [done|]. by rewrite IHpage. Qed.

Lemma number_page_cover m cursor page : issuers_cover m page -> issuers_cover m (number_page cursor page).
Proof.
  revert cursor. induction page as [|l page IH]; intros cursor H; [done|]. cbn [number_page].
  intros l' fp [->|Hl]%elem_of_cons Hfp.
  - apply (H l); [by left|done].
  - eapply IH; [|done|done]. intros l2 fp2 Hl2. apply H. by right.
Qed.

(** The loop ends; what it returns is numbered from the first cursor on. *)
Lemma fetch_entries_loop_spec start fuel m cursor end_ out
  (Hshort : forall m s m' page, s < end_ ->
     fetchEntriesPage getf json b64 apiRoot m s (end_ - 1) = (m', Ok page) ->
     end_ + Z.of_nat (length page) <= max_int64) :
  0 <= start -> cursor = start + Z.of_nat (length out) -> cursor <= max_int64 ->
  EntryIdx <$> out = seqZ start (Z.of_nat (length out)) ->
  (Z.to_nat (end_ - cursor) < fuel)%nat -> issuers_cover m out ->
  exists m' r, fetch_entries_loop getf json b64 apiRoot fuel m cursor end_ out = Some (m', r) /\
    issuers_step m m' /\
    forall ls, r = Ok ls -> EntryIdx <$> ls = seqZ start (Z.of_nat (length ls)) /\ issuers_cover m' ls.
Proof.
  intros Hs Hcur Hmax. revert m cursor out Hcur Hmax.
  induction fuel as [|fuel IH]; intros m cursor out Hcur Hmax Hidx Hf Hcov; [lia|].
  cbn [fetch_entries_loop]. destruct (Z.ltb_spec cursor end_) as [Hlt|Hge].
  2: { exists m, (Ok out). split; [done|]. split; [by split|]. by intros ? [= <-]. }
  destruct (fetchEntriesPage _ _ _ _ m cursor (end_ - 1)) as [m1 r] eqn:E.
  pose proof (fetchEntriesPage_issuers _ _ _ _ _ E) as [[Hss Hms] Hcp].
  destruct r as [page|e|]; [|by eexists _, _..].
  assert (issuers_cover m1 out) as Hcov1 by (by eapply issuers_cover_mono).
  destruct page as [|l page]; [by exists m1, (Ok out); split; [|split; [|intros ? [= <-]]]|].
  remember (l :: page) as pg eqn:Hpg. apply Hshort in E; [|done].
  assert (1 <= length pg)%nat by (subst; simpl; lia).
  rewrite wrap64_id by go_lia.
  destruct (IH m1 (cursor + Z.of_nat (length pg)) (out ++ number_page cursor pg))
    as (m' & r & Hr & [Hs' Hm'] & Hok).
  - rewrite length_app, number_page_length. lia.
  - lia.
  - rewrite fmap_app, Hidx, length_app, number_page_length, number_page_numbers by go_lia.
    rewrite Nat2Z.inj_add, seqZ_app by lia. by rewrite Hcur.
  - lia.
  - apply issuers_cover_app; [done|]. by apply number_page_cover, Hcp.
  - exists m', r. split; [done|]. split; [|done]. split; [by auto|]. eauto.
Qed.

End RFC6962_loop.

(** ** Properties *)

(** The retry policy of [get], for a context that stays alive: it returns
    the outcome of the first attempt that succeeds or fails for good, after the
    back-off waits of the attempts before it; when all six attempts fail with
    retryable errors it returns the last error wrapped, after waits of 2, 4, 8,
    16 and 32 seconds. 429 and 409 are retryable, the other 4xx are final, also
    when the error is wrapped. *)
Theorem get_retry_policy gzo gz (tr : transport) (url : string)
  (Hlim : tr_limiter tr url = None)
  (Hctx : forall k, tr_waitDone tr url k = false /\ tr_ctxErr tr url k = false)
  (Hnp : forall k, doGet gzo gz tr url k <> Panic) :
  (exists k, 0 <= k <= 5 /\ (forall i, 0 <= i < k -> retryable (doGet gzo gz tr url i)) /\
     ~ retryable (doGet gzo gz tr url k) /\
     get_waits gzo gz tr url = (doGet gzo gz tr url k, backoff k)) \/
  (forall i, 0 <= i <= 5 -> retryable (doGet gzo gz tr url i)) /\
  exists e, doGet gzo gz tr url 5 = Err e /\
    get_waits gzo gz tr url = (Err (Wrap "after 6 attempts" e), backoff 5).
Proof.
  unfold get_waits. rewrite Hlim.
  destruct (get_loop_spec gzo gz tr url (Z.to_nat (maxRetries + 1)) 0 (Errorf "") Hctx Hnp (Z.le_refl 0))
    as [(k & Hk & Hb & Hstop & Hr)|(Hall & e & He & Hr)].
  - left. change (0 + Z.of_nat (Z.to_nat (maxRetries + 1))) with 6 in Hk.
    exists k. split; [lia|]. split; [done|]. split; [done|]. rewrite Hr. f_equal.
    assert (k = 0 \/ k = 1 \/ k = 2 \/ k = 3 \/ k = 4 \/ k = 5) as Hk5 by lia.
    by repeat destruct Hk5 as [->|Hk5]; subst.
  - right. change (0 + Z.of_nat (Z.to_nat (maxRetries + 1))) with 6 in Hall.
    split; [intros i Hi; apply Hall; lia|]. exists e. split; [exact He|]. rewrite Hr. reflexivity.
Qed.

(** [tileIndexPath] writes the path of the static-ct-api specification for
    every tile index, and different tiles have different paths. *)
Theorem tile_path_spec (n : Z) (Hn : 0 <= n) :
  (exists p l, spec_path n p l /\ tileIndexPath n = (p +:+ l)%string) /\
  forall m, 0 <= m -> tileIndexPath m = tileIndexPath n -> m = n.
Proof.
  assert (Hp : forall n, 0 <= n -> exists p l, spec_path n p l /\ tileIndexPath n = (p +:+ l)%string).
  { intros x Hx. destruct (path_segments_shape x Hx) as (k & p & l & Hs & Hlen & Heq & _).
    exists p, l. split; [done|]. unfold tileIndexPath. rewrite Hlen.
    replace (3 * S k / 3)%nat with (S k); [done|]. rewrite Nat.mul_comm. symmetry. by apply Nat.div_mul. }
  split; [by apply Hp|]. intros m Hm He.
  destruct (Hp n Hn) as (p & l & Hs & H1), (Hp m Hm) as (p' & l' & Hs' & H2).
  assert (String.length p' = String.length p) as HL.
  { apply spec_path_last_length in Hs as L1. apply spec_path_last_length in Hs' as L2.
    rewrite H1, H2 in He. apply (f_equal String.length) in He. rewrite !str_length_app in He. lia. }
  rewrite H1, H2 in He. apply str_app_inj_len in He as [-> ->]; [|done]. by eapply spec_path_inj.
Qed.

(** C17. Against a static-ct server of a log, FetchEntries of a valid range
    returns exactly the log's entries of that range, in order and each with its
    global index, whatever the alignment of the range to the 256-entry tiles. *)
Theorem tile_fetch_exact (c : tile_client) (L : list TileLeaf) (start end_ : Z)
  (Hwf : Forall tile_leaf_wf L) (Hr : 0 <= start < end_)
  (Hcap : (end_ - start) * 8 <= 281474976710656)
  (Hserve : serves_tiles c L (start / 256) ((end_ - 1) / 256)) :
  TileClient_FetchEntries c start end_ = Ok (log_slice L start end_).
Proof.
  unfold TileClient_FetchEntries.
  destruct (Z.ltb_spec start 0); [lia|]. destruct (Z.ltb_spec end_ start); [lia|].
  destruct (Z.eqb_spec start end_); [lia|].
  replace (make_ok ((end_ - start) * 8)) with true; cbn [orb negb].
  2: { symmetry. unfold make_ok. apply andb_true_iff. split; apply Z.leb_le; lia. }
  unfold TileSize. rewrite !Z.quot_div_nonneg by lia.
  assert (256 * (start / 256) <= start < 256 * (start / 256) + 256) as Hq1 by div_lia.
  assert (256 * ((end_ - 1) / 256) <= end_ - 1 < 256 * ((end_ - 1) / 256) + 256) as Hq2 by div_lia.
  revert Hserve Hq1 Hq2. generalize (start / 256) ((end_ - 1) / 256). intros q1 q2 Hserve Hq1 Hq2.
  rewrite (fetch_tiles_loop_spec c L) by (done || lia || (intros t Ht; apply Hserve; lia)).
  rewrite app_nil_l, Z.max_r by lia. by replace (Z.max _ _) with end_ by lia.
Qed.

(** FetchEntries of the RFC 6962 client, whatever the pages the server
    answers with: it terminates, a result is numbered consecutively from
    [start], the issuer cache stays content-addressed and never loses an entry,
    and every chain fingerprint of the result is then answered by FetchIssuer
    with a certificate of that SHA-256. *)
Theorem rfc6962_fetch_contiguous (getf : string -> res bytes)
  (json : bytes -> res (list (string * string))) (b64 : string -> res bytes) (apiRoot : string)
  (m : issuer_map) (start end_ : Z)
  (Hm : issuers_sound m) (Hmax : end_ <= max_int64)
  (Hshort : forall m s m' page, s < end_ ->
     fetchEntriesPage getf json b64 apiRoot m s (end_ - 1) = (m', Ok page) ->
     end_ + Z.of_nat (length page) <= max_int64) :
  exists m' r, RFC6962_FetchEntries getf json b64 apiRoot m start end_ = Some (m', r) /\
    issuers_sound m' /\ (forall fp der, m !! fp = Some der -> m' !! fp = Some der) /\
    forall ls, r = Ok ls ->
      EntryIdx <$> ls = seqZ start (Z.of_nat (length ls)) /\
      forall l fp, l ∈ ls -> fp ∈ ll_ChainFingerprints l ->
        exists der, RFC6962_FetchIssuer m' fp = Ok der /\ sha256 der = fp.
Proof.
  unfold RFC6962_FetchEntries.
  destruct ((start <? 0) || (end_ <? start)) eqn:Eb.
  { eexists m, _. split_and!; done. }
  apply orb_false_iff in Eb as [H0%Z.ltb_ge H1%Z.ltb_ge].
  destruct (Z.eqb_spec start end_) as [->|Hne].
  { exists m, (Ok []). do 3 (split; [done|]). intros ? [= <-].
    split; [done|]. by intros ? ? ?%elem_of_nil. }
  destruct (fetch_entries_loop_spec getf json b64 apiRoot start (S (Z.to_nat (end_ - start))) m start end_ [])
    as (m' & r & Hr & [Hs Hmono] & Hok); [done|done|simpl; lia|lia|done|lia|by intros ? ? ?%elem_of_nil|].
  exists m', r. split; [done|]. split; [by apply Hs|]. split; [done|].
  intros ls ->. destruct (Hok ls eq_refl) as [Hidx Hcov]. split; [done|].
  intros l fp Hl Hfp. destruct (Hcov l fp Hl Hfp) as [der Hd]. exists der.
  unfold RFC6962_FetchIssuer. rewrite Hd. split; [done|]. by apply (Hs Hm).
Qed.

(** ** Witnesses *)

(** 503 twice, then a body. *)
Definition flaky : transport :=
  mkTransport (fun _ => None) (fun _ _ => false)
    (fun _ k => Ok (mkResponse (if k <? 2 then 503 else 200) false (Ok [x41]))) (fun _ _ => false).

Lemma get_retry_policy_witness :
  get_waits Ok Ok flaky "u" = (Ok [x41], [2000000000; 4000000000]).
Proof.
  destruct (get_retry_policy Ok Ok flaky "u" eq_refl ltac:(done)) as [(k & Hk & Hb & Hs & Hg)|[Hall _]].
  - intros k. unfold doGet. simpl. by destruct (k <? 2).
  - vm_compute. reflexivity.
  - vm_compute. reflexivity.
Defined.

Lemma tile_path_spec_witness :
  (exists p l, spec_path 1234067 p l /\ "x001/x234/067" = (p +:+ l)%string).
Proof. exact (proj1 (tile_path_spec 1234067 ltac:(lia))). Defined.

Definition sample_log : list TileLeaf := [sample_x509; sample_precert; sample_x509].
Definition sample_client : tile_client := NewTileClient (fun _ => Ok (encode_tile sample_log)) "https://l/tile/data".

Lemma tile_fetch_exact_witness :
  TileClient_FetchEntries sample_client 1 3
  = Ok [tileLeafToLogLeaf sample_precert 1; tileLeafToLogLeaf sample_x509 2].
Proof.
  apply (tile_fetch_exact sample_client sample_log 1 3).
  - repeat constructor; [apply sample_x509_wf|apply sample_precert_wf|apply sample_x509_wf].
  - lia.
  - lia.
  - intros t Ht. assert (t = 0) as -> by (revert Ht; vm_compute; intros [? ?]; destruct t; done). reflexivity.
Defined.

(** A server that answers one entry per request: the JSON decoder yields it
    from any body, the base64 strings are the bytes themselves. *)
Definition one_json (_ : bytes) : res (list (string * string)) := Ok [("leaf", "extra")].
Definition one_b64 (s : string) : res bytes :=
  Ok (if String.eqb s "leaf" then encode_leaf_input sample_entry
      else encode_extra_data sample_entry sample_chain).

Lemma one_page m s e m' page :
  fetchEntriesPage (fun _ => Ok []) one_json one_b64 "r/" m s e = (m', Ok page) -> length page = 1%nat.
Proof.
  unfold fetchEntriesPage. cbn [wrap_err one_json page_loop].
  destruct (parse_entry _ _ _) as [[l c]| |]; by intros [= <- <-].
Qed.

Lemma rfc6962_fetch_contiguous_witness :
  exists m' r, RFC6962_FetchEntries (fun _ => Ok []) one_json one_b64 "r/" ∅ 7 9 = Some (m', r) /\
    exists ls, r = Ok ls /\ EntryIdx <$> ls = [7; 8].
Proof.
  destruct (rfc6962_fetch_contiguous (fun _ => Ok []) one_json one_b64 "r/" ∅ 7 9)
    as (m' & r & Hr & _ & _ & Hls).
  - intros fp der H. by rewrite lookup_empty in H.
  - done.
  - intros m s m' page _ H%one_page. rewrite H. done.
  - exists m', r. split; [exact Hr|].
    assert (Hlen : (fun x => match snd x with Ok ls => length ls | _ => 0%nat end) <$>
              RFC6962_FetchEntries (fun _ => Ok []) one_json one_b64 "r/" ∅ 7 9 = Some 2%nat)
      by (vm_compute; reflexivity).
    rewrite Hr in Hlen. destruct r as [ls| |]; [|discriminate Hlen..].
    injection Hlen as Hlen. exists ls. split; [reflexivity|].
    destruct (Hls ls eq_refl) as [-> _]. simpl in Hlen. rewrite Hlen. reflexivity.
Defined.

(** A page longer than the request is not cut: entry 1 is returned for [0, 1). *)
Lemma rfc6962_oversized_page :
  (fun x => match snd x with Ok ls => EntryIdx <$> ls | _ => [] end) <$>
    RFC6962_FetchEntries (fun _ => Ok []) (fun _ => Ok [("leaf", "extra"); ("leaf", "extra")])
      one_b64 "r/" ∅ 0 1 = Some [0; 1].
Proof. vm_compute. reflexivity. Qed.
