(* ===== verification/FileSys.v ===== *)
(** The outside world of the archiver: a file system with failing, torn and
    crashing system calls, the mutex-protected state the goroutines of one job
    share, and the network. Code that acts on it is a [prog], a tree of system
    calls, that [run] executes alone and [pool_step] interleaves with others. *)

From S2P Require Import Prelude GoStd.

(** ** Paths *)

(** Directory and base name: the split at the last slash. *)
Fixpoint split_last (s : string) : option (string * string) :=
  match s with
  | EmptyString => None
  | String c s' =>
      match split_last s' with
      | Some (d, b) => Some (String c d, b)
      | None => if Ascii.eqb c "/" then Some ("", s') else None
      end
  end.

Definition Dir (p : string) : string :=
  match split_last p with Some (d, _) => d | None => "." end.

Definition Base (p : string) : string :=
  match split_last p with Some (_, b) => b | None => p end.

(** [filepath.Join] of a clean root and a clean relative path. *)
Definition Join (a b : string) : string := (a +:+ "/" +:+ b)%string.

(** ** The world *)

(** What happens to one system call: it works, it fails without effect, a write
    fails after [n] bytes, or the machine stops before it and stays stopped. *)
Inductive fault := NoFault | Fault | Torn (n : nat) | Crash.

Record world := mkWorld {
  files : gmap string bytes;
  dirs : gset string;
  faults : list fault;       (* one per system call; NoFault when exhausted *)
  tmpctr : N;                (* source of CreateTemp's names *)
  ctxdone : list bool;       (* the answers of ctx.Err() != nil *)
  seen : gset bytes;         (* issuerStore.seen *)
  fetched : Z; failed : Z; errs : list string;
  entriesWritten : Z; bytesWritten : Z; firstIndex : Z; lastIndex : Z }.

Definition set_files (f : gmap string bytes) (w : world) : world :=
  mkWorld f (dirs w) (faults w) (tmpctr w) (ctxdone w) (seen w) (fetched w) (failed w) (errs w)
    (entriesWritten w) (bytesWritten w) (firstIndex w) (lastIndex w).

Definition set_dirs (d : gset string) (w : world) : world :=
  mkWorld (files w) d (faults w) (tmpctr w) (ctxdone w) (seen w) (fetched w) (failed w) (errs w)
    (entriesWritten w) (bytesWritten w) (firstIndex w) (lastIndex w).

Definition set_faults (f : list fault) (w : world) : world :=
  mkWorld (files w) (dirs w) f (tmpctr w) (ctxdone w) (seen w) (fetched w) (failed w) (errs w)
    (entriesWritten w) (bytesWritten w) (firstIndex w) (lastIndex w).

Definition set_tmpctr (n : N) (w : world) : world :=
  mkWorld (files w) (dirs w) (faults w) n (ctxdone w) (seen w) (fetched w) (failed w) (errs w)
    (entriesWritten w) (bytesWritten w) (firstIndex w) (lastIndex w).

Definition set_ctxdone (c : list bool) (w : world) : world :=
  mkWorld (files w) (dirs w) (faults w) (tmpctr w) c (seen w) (fetched w) (failed w) (errs w)
    (entriesWritten w) (bytesWritten w) (firstIndex w) (lastIndex w).

Definition set_seen (s : gset bytes) (w : world) : world :=
  mkWorld (files w) (dirs w) (faults w) (tmpctr w) (ctxdone w) s (fetched w) (failed w) (errs w)
    (entriesWritten w) (bytesWritten w) (firstIndex w) (lastIndex w).

Definition set_resolved (ft fl : Z) (es : list string) (w : world) : world :=
  mkWorld (files w) (dirs w) (faults w) (tmpctr w) (ctxdone w) (seen w) ft fl es
    (entriesWritten w) (bytesWritten w) (firstIndex w) (lastIndex w).

Definition set_stats (e b f l : Z) (w : world) : world :=
  mkWorld (files w) (dirs w) (faults w) (tmpctr w) (ctxdone w) (seen w) (fetched w) (failed w) (errs w)
    e b f l.

(** ** System calls and other atomic steps *)

Inductive op : Type -> Type :=
| Stat (p : string) : op (res unit)
| MkdirAll (d : string) : op (res unit)
| WriteFile (p : string) (data : bytes) : op (res unit)
| CreateTemp (d : string) : op (res string)
| WriteTemp (p : string) (data : bytes) : op (res unit)
| CloseTemp (p : string) : op (res unit)
| Rename (a b : string) : op (res unit)
| Remove (p : string) : op (res unit)
| ReadFile (p : string) : op (res bytes)
| CtxErr : op bool                                  (* ctx.Err() != nil *)
| SeenAdd (h : bytes) : op bool                     (* locked test-and-set *)
| SeenDelete (h : bytes) : op unit
| Resolve (fp : bytes) : op (res bytes)             (* the issuer endpoint *)
| NoteFetched : op unit
| NoteFailed (msg : string) : op unit
| NoteWritten (n len first last : Z) : op unit.     (* batchSink's counters *)

Inductive prog (A : Type) : Type :=
| Ret (a : A)
| Vis (X : Type) (o : op X) (k : X -> prog A).
Arguments Ret {A} _.
Arguments Vis {A X} _ _.

Fixpoint bind_prog {A B} (m : prog A) (f : A -> prog B) : prog B :=
  match m with
  | Ret a => f a
  | Vis o k => Vis o (fun x => bind_prog (k x) f)
  end.

Definition call {X} (o : op X) : prog X := Vis o Ret.

Notation "'let!' p := m 'in' k" := (bind_prog m (fun p => k))
  (at level 10, p pattern, m at level 100, k at level 200) : go_scope.

(** Run [m] and go on unless it failed: [if err := m; err != nil { return err }]. *)
Definition try_prog {A B} (m : prog (res A)) (f : A -> prog (res B)) : prog (res B) :=
  bind_prog m (fun r => match r with Ok a => f a | Err e => Ret (Err e) | Panic => Ret Panic end).

Notation "'try!' p := m 'in' k" := (try_prog m (fun p => k))
  (at level 10, p pattern, m at level 100, k at level 200) : go_scope.

(** The next fault. A crash is not consumed: nothing runs after it. *)
Definition pop_fault (w : world) : fault * world :=
  match faults w with
  | [] => (NoFault, w)
  | Crash :: _ => (Crash, w)
  | f :: fs => (f, set_faults fs w)
  end.

Definition temp_name (d : string) (n : N) : string := Join d (".tmp-" +:+ dec (Z.of_N n)).

(** os.CreateTemp: random names until one is free, at most 10000 tries. *)
Fixpoint create_temp (tries : nat) (d : string) (w : world) : res string * world :=
  match tries with
  | O => (Err ErrSyscall, w)
  | S tries' =>
      let t := temp_name d (tmpctr w) in
      let w' := set_tmpctr (tmpctr w + 1) w in
      match files w !! t with
      | Some _ => create_temp tries' d w'
      | None => (Ok t, set_files (<[t := []]> (files w)) w')
      end
  end.

Section Exec.

(** [MkdirAll] also creates the ancestors of [d]; the modelled calls look at
    the last directory only. *)

(** The answer of a log's issuer endpoint. *)
Variable issuer_net : bytes -> res bytes.

Definition write_file (p : string) (data : bytes) (f : fault) (w : world) : res unit * world :=
  match f with
  | NoFault =>
      if bool_decide (p ∈ dirs w) || negb (bool_decide (Dir p ∈ dirs w)) then (Err ErrSyscall, w)
      else (Ok tt, set_files (<[p := data]> (files w)) w)
  | Torn n =>
      if bool_decide (p ∈ dirs w) || negb (bool_decide (Dir p ∈ dirs w)) then (Err ErrSyscall, w)
      else (Err ErrSyscall, set_files (<[p := take n data]> (files w)) w)
  | Fault | Crash => (Err ErrSyscall, w)
  end.

Definition exec {X} (o : op X) : world -> X * world :=
  match o in op X return world -> X * world with
  | Stat p => fun w =>
      let '(f, w) := pop_fault w in
      match f with
      | NoFault =>
          if bool_decide (is_Some (files w !! p)) || bool_decide (p ∈ dirs w) then (Ok tt, w)
          else (Err ErrNotExist, w)
      | _ => (Err ErrSyscall, w)
      end
  | MkdirAll d => fun w =>
      let '(f, w) := pop_fault w in
      match f with
      | NoFault =>
          match files w !! d with
          | Some _ => (Err ErrSyscall, w)
          | None => (Ok tt, set_dirs ({[d]} ∪ dirs w) w)
          end
      | _ => (Err ErrSyscall, w)
      end
  | WriteFile p data => fun w => let '(f, w) := pop_fault w in write_file p data f w
  | CreateTemp d => fun w =>
      let '(f, w) := pop_fault w in
      match f with NoFault => create_temp (Z.to_nat 10000) d w | _ => (Err ErrSyscall, w) end
  | WriteTemp p data => fun w => let '(f, w) := pop_fault w in write_file p data f w
  | CloseTemp p => fun w =>
      let '(f, w) := pop_fault w in
      match f with NoFault => (Ok tt, w) | _ => (Err ErrSyscall, w) end
  | Rename a b => fun w =>
      let '(f, w) := pop_fault w in
      match f, files w !! a with
      | NoFault, Some data =>
          if bool_decide (b ∈ dirs w) then (Err ErrSyscall, w)
          else (Ok tt, set_files (<[b := data]> (delete a (files w))) w)
      | _, _ => (Err ErrSyscall, w)
      end
  | Remove p => fun w =>
      let '(f, w) := pop_fault w in
      match f with
      | NoFault => (Ok tt, set_files (delete p (files w)) w)
      | _ => (Err ErrSyscall, w)
      end
  | ReadFile p => fun w =>
      let '(f, w) := pop_fault w in
      match f with
      | NoFault => (match files w !! p with Some data => Ok data | None => Err ErrNotExist end, w)
      | _ => (Err ErrSyscall, w)
      end
  | CtxErr => fun w =>
      match ctxdone w with [] => (false, w) | b :: bs => (b, set_ctxdone bs w) end
  | SeenAdd h => fun w => (bool_decide (h ∈ seen w), set_seen ({[h]} ∪ seen w) w)
  | SeenDelete h => fun w => (tt, set_seen (seen w ∖ {[h]}) w)
  | Resolve fp => fun w => (issuer_net fp, w)
  | NoteFetched => fun w => (tt, set_resolved (fetched w + 1) (failed w) (errs w) w)
  | NoteFailed msg => fun w =>
      (tt, set_resolved (fetched w) (failed w + 1)
             (if (length (errs w) <? 10)%nat then errs w ++ [msg] else errs w) w)
  | NoteWritten n len first last => fun w =>
      (tt, set_stats (entriesWritten w + n) (bytesWritten w + len)
             (if (firstIndex w <? 0) || (first <? firstIndex w) then first else firstIndex w)
             (if lastIndex w <? last then last else lastIndex w) w)
  end.

Fixpoint run {A} (m : prog A) (w : world) : A * world :=
  match m with
  | Ret a => (a, w)
  | Vis o k => let '(x, w') := exec o w in run (k x) w'
  end.

(** Goroutines: any one of them takes the next step. *)
Inductive pool_step {A} : list (prog A) * world -> list (prog A) * world -> Prop :=
| pool_step_one ps i X (o : op X) k x w w' :
    ps !! i = Some (Vis o k) -> exec o w = (x, w') -> pool_step (ps, w) (<[i := k x]> ps, w').

(** A schedule run: the goroutines that take the next steps. *)
Fixpoint sched {A} (turns : list nat) (ps : list (prog A)) (w : world) : list (prog A) * world :=
  match turns with
  | [] => (ps, w)
  | i :: turns =>
      match ps !! i with
      | Some (Vis o k) => let '(x, w') := exec o w in sched turns (<[i := k x]> ps) w'
      | _ => sched turns ps w
      end
  end.

End Exec.

(** ** Lemmas *)

Lemma sched_steps net {A} (turns : list nat) (ps : list (prog A)) w :
  rtc (pool_step net) (ps, w) (sched net turns ps w).
Proof.
  revert ps w. induction turns as [|i turns IH]; intros ps w; cbn [sched]; [done|].
  destruct (ps !! i) as [[a|X o k]|] eqn:E; [done| |done].
  destruct (exec net o w) as [x w1] eqn:Ex. eapply rtc_l; [|apply IH]. by econstructor.
Qed.

Lemma run_bind net {A B} (m : prog A) (f : A -> prog B) w :
  run net (bind_prog m f) w = (let '(a, w') := run net m w in run net (f a) w').
Proof. revert w. induction m as [a|X o k IH]; intros w; simpl; [done|]. by destruct (exec net o w). Qed.

Lemma split_last_app a b :
  str_forallb (fun c => negb (Ascii.eqb c "/")) b = true ->
  split_last (a +:+ "/" +:+ b) = Some (a, b).
Proof.
  intros Hb. induction a as [|c a IH]; simpl in *; [|by rewrite IH].
  assert (split_last b = None) as ->; [|done].
  induction b as [|c b IH]; simpl in *; [done|].
  apply andb_true_iff in Hb as [Hc Hb]. rewrite IH by done. apply negb_true_iff in Hc. by rewrite Hc.
Qed.

Lemma Dir_Join a b : str_forallb (fun c => negb (Ascii.eqb c "/")) b = true -> Dir (Join a b) = a.
Proof. intros H. unfold Dir, Join. by rewrite split_last_app. Qed.

Lemma Base_Join a b : str_forallb (fun c => negb (Ascii.eqb c "/")) b = true -> Base (Join a b) = b.
Proof. intros H. unfold Base, Join. by rewrite split_last_app. Qed.

Lemma Join_assoc a b c : Join a (Join b c) = Join (Join a b) c.
Proof. unfold Join. by rewrite !str_app_assoc. Qed.

Lemma dec_no_slash n : 0 <= n -> str_forallb (fun c => negb (Ascii.eqb c "/")) (dec n) = true.
Proof.
  intros H. pose proof (dec_digits n H) as Hd. induction (dec n) as [|c s IH]; [done|]. cbn [str_forallb] in *.
  apply andb_true_iff in Hd as [Hc Hs]. rewrite IH by done. rewrite andb_true_r.
  apply negb_true_iff. destruct (Ascii.eqb_spec c "/"); [by subst|done].
Qed.

Lemma Base_temp_name d n : Base (temp_name d n) = (".tmp-" +:+ dec (Z.of_N n))%string.
Proof.
  apply Base_Join. rewrite str_forallb_app, dec_no_slash by lia. done.
Qed.

Lemma create_temp_spec tries d w r w' :
  create_temp tries d w = (r, w') ->
  match r with
  | Ok t => (exists n, t = temp_name d n) /\ files w !! t = None /\ files w' = <[t := []]> (files w)
  | _ => files w' = files w
  end /\ dirs w' = dirs w /\ faults w' = faults w /\ seen w' = seen w.
Proof.
  revert w. induction tries as [|tries IH]; intros w; cbn [create_temp]; [by intros [= <- <-]|].
  destruct (files w !! _) eqn:E.
  - intros H. apply IH in H. by destruct r.
  - intros [= <- <-]. split; [|done]. split; [by eexists|done].
Qed.

Lemma pop_fault_files w f w' :
  pop_fault w = (f, w') -> files w' = files w /\ dirs w' = dirs w /\ seen w' = seen w.
Proof. unfold pop_fault. destruct (faults w) as [|[] ?]; by intros [= <- <-]. Qed.

(** Directories only appear. *)
Lemma exec_dirs net {X} (o : op X) w x w' : exec net o w = (x, w') -> dirs w ⊆ dirs w'.
Proof.
  assert (Hpop : forall w, dirs (pop_fault w).2 = dirs w)
    by (intros v; unfold pop_fault; by destruct (faults v) as [|[] ?]).
  specialize (Hpop w). destruct o; cbn [exec]; try (destruct (pop_fault w) as [f v]; cbn in Hpop; rewrite <- Hpop).
  - destruct f; [destruct (_ || _)| | |]; (intros [= <- <-]; cbn; set_solver).
  - destruct f; [destruct (files v !! d)| | |]; (intros [= <- <-]; cbn; set_solver).
  - unfold write_file. destruct f; [destruct (_ || _)| |destruct (_ || _)|]; (intros [= <- <-]; cbn; set_solver).
  - destruct f; [|(intros [= <- <-]; cbn; set_solver)..]. intros H. apply create_temp_spec in H as (_ & -> & _). set_solver.
  - unfold write_file. destruct f; [destruct (_ || _)| |destruct (_ || _)|]; (intros [= <- <-]; cbn; set_solver).
  - destruct f; (intros [= <- <-]; cbn; set_solver).
  - destruct f, (files v !! a); [destruct (bool_decide (b ∈ dirs v))|..]; (intros [= <- <-]; cbn; set_solver).
  - destruct f; (intros [= <- <-]; cbn; set_solver).
  - destruct f; (intros [= <- <-]; cbn; set_solver).
  - destruct (ctxdone w); (intros [= <- <-]; cbn; set_solver).
  - (intros [= <- <-]; cbn; set_solver).
  - (intros [= <- <-]; cbn; set_solver).
  - (intros [= <- <-]; cbn; set_solver).
  - (intros [= <- <-]; cbn; set_solver).
  - (intros [= <- <-]; cbn; set_solver).
  - (intros [= <- <-]; cbn; set_solver).
Qed.

Lemma run_dirs net {A} (m : prog A) w a w' : run net m w = (a, w') -> dirs w ⊆ dirs w'.
Proof.
  revert w. induction m as [|X o k IH]; intros w; cbn [run]; [intros [= _ <-]; set_solver|].
  destruct (exec net o w) as [x w1] eqn:E. apply exec_dirs in E. intros H%IH. set_solver.
Qed.

(** A context that is never cancelled stays so. *)
Lemma exec_ctx net {X} (o : op X) w x w' : exec net o w = (x, w') -> ctxdone w = [] -> ctxdone w' = [].
Proof.
  assert (Hpop : forall w, ctxdone (pop_fault w).2 = ctxdone w)
    by (intros v; unfold pop_fault; by destruct (faults v) as [|[] ?]).
  assert (Hct : forall tries d w r w', create_temp tries d w = (r, w') -> ctxdone w' = ctxdone w).
  { clear. induction tries as [|tries IH]; intros d w r w'; cbn [create_temp]; [by intros [= <- <-]|].
    destruct (files w !! _); [intros H%IH; done|by intros [= <- <-]]. }
  intros H Hw. rewrite <- Hw. specialize (Hpop w). revert H.
  destruct o; cbn [exec]; try (destruct (pop_fault w) as [f v]; cbn in Hpop; rewrite <- Hpop).
  - destruct f; [destruct (_ || _)| | |]; by intros [= <- <-].
  - destruct f; [destruct (files v !! d)| | |]; by intros [= <- <-].
  - unfold write_file. destruct f; [destruct (_ || _)| |destruct (_ || _)|]; by intros [= <- <-].
  - destruct f; [|by intros [= <- <-]..]. apply Hct.
  - unfold write_file. destruct f; [destruct (_ || _)| |destruct (_ || _)|]; by intros [= <- <-].
  - destruct f; by intros [= <- <-].
  - destruct f, (files v !! a); [destruct (bool_decide (b ∈ dirs v))|..]; by intros [= <- <-].
  - destruct f; by intros [= <- <-].
  - destruct f; by intros [= <- <-].
  - rewrite Hpop, Hw. intros [= <- <-]. done.
  - by intros [= <- <-].
  - by intros [= <- <-].
  - by intros [= <- <-].
  - by intros [= <- <-].
  - by intros [= <- <-].
  - by intros [= <- <-].
Qed.

Lemma run_ctx net {A} (m : prog A) w a w' : run net m w = (a, w') -> ctxdone w = [] -> ctxdone w' = [].
Proof.
  revert w. induction m as [|X o k IH]; intros w; cbn [run]; [by intros [= _ <-]|].
  destruct (exec net o w) as [x w1] eqn:E. intros H Hw. eapply IH; [done|]. by eapply exec_ctx.
Qed.

(** Programs without the issuer store's bookkeeping leave [seen] alone. *)
Fixpoint no_seen {A} (m : prog A) : Prop :=
  match m with
  | Ret _ => True
  | Vis o k => match o with SeenAdd _ | SeenDelete _ => False | _ => True end /\ forall x, no_seen (k x)
  end.

Lemma exec_seen net {X} (o : op X) w x w' :
  match o with SeenAdd _ | SeenDelete _ => False | _ => True end ->
  exec net o w = (x, w') -> seen w' = seen w.
Proof.
  assert (Hpop : forall w, seen (pop_fault w).2 = seen w)
    by (intros v; unfold pop_fault; by destruct (faults v) as [|[] ?]).
  specialize (Hpop w). destruct o; intros Ho; try done; cbn [exec];
    try (destruct (pop_fault w) as [f v]; cbn in Hpop; rewrite <- Hpop).
  - destruct f; [destruct (_ || _)| | |]; by intros [= <- <-].
  - destruct f; [destruct (files v !! d)| | |]; by intros [= <- <-].
  - unfold write_file. destruct f; [destruct (_ || _)| |destruct (_ || _)|]; by intros [= <- <-].
  - destruct f; [|by intros [= <- <-]..]. intros H. apply create_temp_spec in H as (_ & _ & _ & ->). done.
  - unfold write_file. destruct f; [destruct (_ || _)| |destruct (_ || _)|]; by intros [= <- <-].
  - destruct f; by intros [= <- <-].
  - destruct f, (files v !! a); [destruct (bool_decide (b ∈ dirs v))|..]; by intros [= <- <-].
  - destruct f; by intros [= <- <-].
  - destruct f; by intros [= <- <-].
  - destruct (ctxdone w); by intros [= <- <-].
  - by intros [= <- <-].
  - by intros [= <- <-].
  - by intros [= <- <-].
  - by intros [= <- <-].
Qed.

Lemma run_seen net {A} (m : prog A) w a w' : no_seen m -> run net m w = (a, w') -> seen w' = seen w.
Proof.
  revert w. induction m as [|X o k IH]; intros w; cbn [run no_seen]; [by intros _ [= _ <-]|].
  intros [Ho Hk]. destruct (exec net o w) as [x w1] eqn:E. apply exec_seen in E; [|done].
  intros H%IH; [|done]. congruence.
Qed.

(** What each system call does to the files, whatever the fault. *)

Section ExecSpecs.

Context (net : bytes -> res bytes).

Ltac exec_case :=
  cbn [exec]; intros H; destruct (pop_fault _) as [f wf] eqn:Ef;
  apply pop_fault_files in Ef as (Hfi & Hdi & Hse); rewrite <- ?Hfi, <- ?Hdi.

Lemma exec_Stat p w r w' :
  exec net (Stat p) w = (r, w') ->
  files w' = files w /\ dirs w' = dirs w /\
  (r = Ok tt -> is_Some (files w !! p) \/ p ∈ dirs w) /\
  (r = Err ErrNotExist -> files w !! p = None /\ p ∉ dirs w).
Proof.
  exec_case. destruct f; [|by simplify_eq..].
  destruct (bool_decide _ || bool_decide _) eqn:E; simplify_eq; (split; [done|split; [done|]]); split;
    intros; try done.
  - apply orb_true_iff in E as [E|E]; apply bool_decide_eq_true in E; auto.
  - apply orb_false_iff in E as [E1%bool_decide_eq_false E2%bool_decide_eq_false].
    split; [|done]. by apply eq_None_not_Some.
Qed.

Lemma exec_MkdirAll d w r w' :
  exec net (MkdirAll d) w = (r, w') -> files w' = files w /\ (dirs w' = dirs w \/ dirs w' = {[d]} ∪ dirs w).
Proof.
  exec_case. destruct f; [|simplify_eq; by auto..]. destruct (files wf !! d); simplify_eq; auto.
Qed.

Lemma write_file_spec p data f w r w' :
  write_file p data f w = (r, w') ->
  (r = Ok tt -> files w' = <[p := data]> (files w)) /\
  (forall q, q <> p -> files w' !! q = files w !! q) /\ dirs w' = dirs w.
Proof.
  unfold write_file. destruct f as [| |n|]; [|by intros [= <- <-]| |by intros [= <- <-]];
    (destruct (bool_decide (p ∈ dirs w) || _); intros [= <- <-]; [done|]);
    (split; [done|]; split; [|done]); intros q Hq; simpl; by rewrite lookup_insert_ne.
Qed.

Lemma exec_WriteFile p data w r w' :
  exec net (WriteFile p data) w = (r, w') ->
  (r = Ok tt -> files w' = <[p := data]> (files w)) /\
  (forall q, q <> p -> files w' !! q = files w !! q) /\ dirs w' = dirs w.
Proof. exec_case. by apply write_file_spec in H. Qed.

Lemma exec_WriteTemp p data w r w' :
  exec net (WriteTemp p data) w = (r, w') ->
  (r = Ok tt -> files w' = <[p := data]> (files w)) /\
  (forall q, q <> p -> files w' !! q = files w !! q) /\ dirs w' = dirs w.
Proof. exec_case. by apply write_file_spec in H. Qed.

Lemma exec_CloseTemp p w r w' :
  exec net (CloseTemp p) w = (r, w') -> files w' = files w /\ dirs w' = dirs w.
Proof. exec_case. destruct f; simplify_eq; auto. Qed.

Lemma exec_CreateTemp d w r w' :
  exec net (CreateTemp d) w = (r, w') ->
  match r with
  | Ok t => (exists n, t = temp_name d n) /\ files w !! t = None /\ files w' = <[t := []]> (files w)
  | _ => files w' = files w
  end /\ dirs w' = dirs w.
Proof.
  exec_case. destruct f; [|by simplify_eq..]. apply create_temp_spec in H as (H & ? & _). by destruct r.
Qed.

Lemma exec_Rename a b w r w' :
  exec net (Rename a b) w = (r, w') ->
  ((r = Ok tt /\ exists x, files w !! a = Some x /\ files w' = <[b := x]> (delete a (files w))) \/
   (r <> Ok tt /\ files w' = files w)) /\ dirs w' = dirs w.
Proof.
  exec_case. destruct f; [|destruct (files wf !! a); simplify_eq; auto..].
  destruct (files wf !! a) as [x|]; [|simplify_eq; auto].
  destruct (bool_decide (b ∈ dirs wf)); simplify_eq; (split; [|done]); [by right|left; eauto].
Qed.

Lemma exec_ReadFile p w r w' :
  exec net (ReadFile p) w = (r, w') ->
  files w' = files w /\ dirs w' = dirs w /\ forall data, r = Ok data -> files w !! p = Some data.
Proof.
  exec_case. destruct f; injection H as <- <-; (split; [done|]); (split; [done|]); try done.
  intros data. by destruct (files wf !! p) eqn:E; intros [= ->].
Qed.

Lemma exec_Remove p w r w' :
  exec net (Remove p) w = (r, w') ->
  (forall q, q <> p -> files w' !! q = files w !! q) /\ dirs w' = dirs w.
Proof.
  exec_case. destruct f; simplify_eq; auto. split; [|done]. intros q Hq. simpl. by rewrite lookup_delete_ne.
Qed.

End ExecSpecs.
