(* ===== verification/Writer.v ===== *)
(** internal/ctv2/writer.go: the write-once storage behind the archiver. The Go
    interface [Writer] is a class; [LocalFSWriter] and [gzipWriter] are its two
    implementations, and [WriterLaws] is what the archiver relies on. *)

From S2P Require Import Prelude GoStd FileSys.

(** ** Definitions *)

(** The interface: [Put], [PutIfAbsent], [Has]. *)
Class Writer := {
  Put : string -> bytes -> prog (res unit);
  PutIfAbsent : string -> bytes -> prog (res unit);
  Has : string -> prog (res bool) }.

(** [if err := os.Rename(tmp, full); err != nil { os.Remove(tmp); return err }] *)
Definition commit (tmp full : string) : prog (res unit) :=
  let! r := call (Rename tmp full) in
  match r with
  | Ok _ => Ret (Ok tt)
  | e => let! _ := call (Remove tmp) in Ret e
  end.

Section LocalFS.

Variable Root : string.

Definition LocalFS_Put (relPath : string) (data : bytes) : prog (res unit) :=
  let full := Join Root relPath in
  try! _ := call (MkdirAll (Dir full)) in
  let! st := call (Stat full) in
  match st with
  | Ok _ => Ret (Err (Errorf ("partition already exists (immutable): " +:+ full)))
  | _ =>
      let tmp := (full +:+ ".tmp")%string in
      try! _ := call (WriteFile tmp data) in
      commit tmp full
  end.

Definition LocalFS_Has (relPath : string) : prog (res bool) :=
  let! st := call (Stat (Join Root relPath)) in
  match st with
  | Ok _ => Ret (Ok true)
  | Err ErrNotExist => Ret (Ok false)
  | Err e => Ret (Err e)
  | Panic => Ret Panic
  end.

Definition LocalFS_PutIfAbsent (relPath : string) (data : bytes) : prog (res unit) :=
  let full := Join Root relPath in
  let! st := call (Stat full) in
  match st with
  | Ok _ => Ret (Ok tt)
  | _ =>
      let dir := Dir full in
      try! _ := call (MkdirAll dir) in
      try! tmpName := call (CreateTemp dir) in
      let! r := call (WriteTemp tmpName data) in
      match r with
      | Ok _ =>
          let! r := call (CloseTemp tmpName) in
          match r with
          | Ok _ => commit tmpName full
          | e => let! _ := call (Remove tmpName) in Ret e
          end
      | e =>
          let! _ := call (CloseTemp tmpName) in
          let! _ := call (Remove tmpName) in Ret e
      end
  end.

#[local] Instance LocalFSWriter : Writer := {
  Put := LocalFS_Put; PutIfAbsent := LocalFS_PutIfAbsent; Has := LocalFS_Has }.

End LocalFS.

Section Gzip.

(** [gz]: the compressor (compress/gzip), which may fail. *)
Variable gz : bytes -> res bytes.
Variable inner : Writer.

Definition gzip_Put (relPath : string) (data : bytes) : prog (res unit) :=
  match gz data with
  | Ok z => @Put inner (relPath +:+ ".gz")%string z
  | Err e => Ret (Err e)
  | Panic => Ret Panic
  end.

Definition gzip_PutIfAbsent (relPath : string) (data : bytes) : prog (res unit) :=
  match gz data with
  | Ok z => @PutIfAbsent inner (relPath +:+ ".gz")%string z
  | Err e => Ret (Err e)
  | Panic => Ret Panic
  end.

Definition gzip_Has (relPath : string) : prog (res bool) := @Has inner (relPath +:+ ".gz")%string.

#[local] Instance gzipWriter : Writer := {
  Put := gzip_Put; PutIfAbsent := gzip_PutIfAbsent; Has := gzip_Has }.

End Gzip.

(** ** What a writer promises *)

(** Names the temporary files of LocalFSWriter never take. *)
Definition clean (p : string) : bool :=
  negb (has_suffix p ".tmp") && negb (has_prefix (Base p) ".tmp-").

(** [stored w p]: the payload a reader finds at the relative path [p];
    [present w p]: something is at [p]; [ready w p]: nothing but [p] itself can
    stand in the way of creating it. [ok_path] and [ok_data] bound the clients. *)
Class WriterLaws (W : Writer) (stored : world -> string -> option bytes)
    (present ready : world -> string -> Prop) (ok_path : string -> Prop) (ok_data : bytes -> Prop) := {
  stored_present w p : is_Some (stored w p) -> present w p;
  stored_files w w' p : files w' = files w -> stored w' p = stored w p;
  present_files w w' p : files w' = files w -> dirs w' = dirs w -> present w p -> present w' p;
  (** What is there stays there, and the writers keep off the issuer store's
      in-memory set. *)
  put_present net p d w r w' q :
    ok_path p -> ok_data d -> run net (Put p d) w = (r, w') -> ok_path q -> present w q -> present w' q;
  put_absent_keeps net p d w r w' q :
    ok_path p -> ok_data d -> run net (PutIfAbsent p d) w = (r, w') -> ok_path q -> present w q -> present w' q;
  put_no_seen p d : no_seen (Put p d);
  put_absent_no_seen p d : no_seen (PutIfAbsent p d);
  (** Whatever faults or crashes occur: the path holds what it held before or
      the whole payload, every other path is untouched. *)
  put_atomic net p d w r w' :
    ok_path p -> ok_data d -> run net (Put p d) w = (r, w') ->
    forall q, ok_path q -> stored w' q = stored w q \/ (q = p /\ stored w' q = Some d);
  put_ok net p d w w' :
    ok_path p -> ok_data d -> run net (Put p d) w = (Ok tt, w') -> stored w' p = Some d;
  put_absent_atomic net p d w r w' :
    ok_path p -> ok_data d -> run net (PutIfAbsent p d) w = (r, w') ->
    forall q, ok_path q -> stored w' q = stored w q \/ (q = p /\ stored w' q = Some d);
  put_absent_ok net p d w w' :
    ok_path p -> ok_data d -> run net (PutIfAbsent p d) w = (Ok tt, w') ->
    stored w' p = Some d \/ (stored w' p = stored w p /\ present w p);
  (** Without faults: write-once, and the writes succeed. *)
  put_once net p d w :
    faults w = [] -> ready w p -> ok_path p -> ok_data d -> present w p ->
    exists e w', run net (Put p d) w = (Err e, w') /\ forall q, stored w' q = stored w q;
  put_fresh net p d w :
    faults w = [] -> ready w p -> ok_path p -> ok_data d -> ~ present w p ->
    exists w', run net (Put p d) w = (Ok tt, w') /\ faults w' = [];
  put_absent_present net p d w :
    faults w = [] -> ok_path p -> ok_data d -> present w p ->
    exists w', run net (PutIfAbsent p d) w = (Ok tt, w') /\ faults w' = [] /\
      forall q, stored w' q = stored w q;
  put_absent_fresh net p d w :
    faults w = [] -> ready w p -> ok_path p -> ok_data d -> ~ present w p ->
    exists w', run net (PutIfAbsent p d) w = (Ok tt, w') /\ faults w' = [];
  has_frame net p w r w' :
    ok_path p -> run net (Has p) w = (r, w') -> forall q, stored w' q = stored w q;
  has_exact net p w :
    faults w = [] -> ok_path p ->
    exists b, run net (Has p) w = (Ok b, w) /\ (b = true <-> present w p) }.

(** ** LocalFSWriter keeps the promise *)

Section LocalFS_laws.

Context (Root : string).

Definition fs_stored (w : world) (p : string) : option bytes := files w !! Join Root p.

Definition fs_present (w : world) (p : string) : Prop :=
  is_Some (files w !! Join Root p) \/ Join Root p ∈ dirs w.

Definition fs_ready (w : world) (p : string) : Prop :=
  let full := Join Root p in
  files w !! Dir full = None /\ full <> Dir full /\ ((full +:+ ".tmp")%string ∉ dirs w) /\
  (full +:+ ".tmp")%string <> Dir full /\
  let t := temp_name (Dir full) (tmpctr w) in
  files w !! t = None /\ (t ∉ dirs w) /\ t <> Dir full /\ Dir t = Dir full /\
  Dir (full +:+ ".tmp") = Dir full.

Definition fs_path (p : string) : Prop := clean (Join Root p) = true.

Lemma clean_not_tmp p a : clean p = true -> p <> (a +:+ ".tmp")%string.
Proof.
  intros [H _]%andb_true_iff ->. by rewrite has_suffix_app in H.
Qed.

Lemma clean_not_temp_name p d n : clean p = true -> p <> temp_name d n.
Proof.
  intros [_ H]%andb_true_iff ->. rewrite Base_temp_name in H. unfold has_prefix in H.
  by rewrite prefix_app in H.
Qed.

Lemma Join_inj p q : Join Root p = Join Root q -> p = q.
Proof. unfold Join. intros H. by apply str_app_inj_l, str_app_inj_l in H. Qed.

Ltac step lem :=
  match goal with
  | H : context [exec ?n ?o ?w] |- _ =>
      let E := fresh "E" in destruct (exec n o w) as [? ?] eqn:E; apply lem in E; cbn beta iota in H
  end.

(** Only clean names matter: [w'] has on them what [w] has, or [d] at [full]. *)
Definition same_or (full : string) (d : bytes) (w w' : world) : Prop :=
  forall q, clean q = true -> files w' !! q = files w !! q \/ (q = full /\ files w' !! q = Some d).

Definition same_clean (w w' : world) : Prop :=
  forall q, clean q = true -> files w' !! q = files w !! q.

Lemma same_clean_or full d w w' : same_clean w w' -> same_or full d w w'.
Proof. intros H q Hq. left. by apply H. Qed.

Lemma same_clean_trans w1 w2 w3 : same_clean w1 w2 -> same_clean w2 w3 -> same_clean w1 w3.
Proof. intros H1 H2 q Hq. rewrite H2 by done. by apply H1. Qed.

Lemma same_clean_or_trans full d w1 w2 w3 :
  same_clean w1 w2 -> same_or full d w2 w3 -> same_or full d w1 w3.
Proof. intros H1 H2 q Hq. rewrite <- (H1 q Hq). by apply H2. Qed.

Lemma same_clean_files w w' : files w' = files w -> same_clean w w'.
Proof. by intros H q _; rewrite H. Qed.

Lemma same_clean_except w w' t :
  (forall q, q <> t -> files w' !! q = files w !! q) -> (forall q, clean q = true -> q <> t) -> same_clean w w'.
Proof. intros H Ht q Hq. apply H, Ht, Hq. Qed.

Lemma commit_spec net tmp full d w r w' :
  (forall q, clean q = true -> q <> tmp) -> files w !! tmp = Some d ->
  run net (commit tmp full) w = (r, w') ->
  same_or full d w w' /\ (r = Ok tt -> files w' !! full = Some d).
Proof.
  intros Ht Hd. unfold commit, call. cbn [bind_prog run]. intros H.
  step exec_Rename. destruct E as [[(-> & x & Hx & F)|(Hr & F)] _]; cbn [bind_prog run] in H.
  - injection H as <- <-. assert (x = d) as -> by congruence. rewrite F. split.
    + intros q Hq. rewrite F. destruct (decide (q = full)) as [->|Hne].
      * right. by rewrite lookup_insert_eq.
      * left. rewrite lookup_insert_ne, lookup_delete_ne; [done| |done]. by apply not_eq_sym, Ht.
    + intros _. apply lookup_insert_eq.
  - destruct r0 as [[]| |]; [done| |]; cbn [bind_prog run] in H; step exec_Remove; destruct E as [F' _];
      simplify_eq; (split; [|done]); apply same_clean_or;
      (eapply same_clean_trans; [apply same_clean_files, F|by eapply same_clean_except]).
Qed.

Lemma LocalFS_Put_spec net p d w r w' :
  run net (LocalFS_Put Root p d) w = (r, w') ->
  same_or (Join Root p) d w w' /\ (r = Ok tt -> files w' !! Join Root p = Some d).
Proof.
  unfold LocalFS_Put, try_prog. unfold call at 1. cbn [bind_prog run]. intros H.
  set (full := Join Root p) in *. set (tmp := (full +:+ ".tmp")%string) in *.
  assert (Htmp : forall q, clean q = true -> q <> tmp) by (intros q Hq; by apply clean_not_tmp).
  step exec_MkdirAll. destruct E as [F1%same_clean_files _].
  destruct r0 as [[]|e|]; cbn [bind_prog run] in H; [|simplify_eq; split; [by apply same_clean_or|done]..].
  unfold call at 1 in H. cbn [bind_prog run] in H. step exec_Stat. destruct E as (F2%same_clean_files & _).
  assert (F12 : same_clean w w1) by (by eapply same_clean_trans).
  destruct r0 as [[]|e|]; cbn [bind_prog run] in H; [simplify_eq; split; [by apply same_clean_or|done]| |];
    unfold call at 1 in H; cbn [bind_prog run] in H; step exec_WriteFile; destruct E as (W & F3 & _);
    (assert (F13 : same_clean w w2) by (eapply same_clean_trans; [exact F12|by eapply same_clean_except]));
    (destruct r0 as [[]|e'|]; cbn [bind_prog run] in H; [|simplify_eq; split; [by apply same_clean_or|done]..]);
    (apply (commit_spec net tmp full d) in H as [H1 H2]; [|done|by rewrite W, lookup_insert_eq]);
    (split; [by eapply same_clean_or_trans|done]).
Qed.

Lemma LocalFS_PutIfAbsent_spec net p d w r w' :
  run net (LocalFS_PutIfAbsent Root p d) w = (r, w') ->
  same_or (Join Root p) d w w' /\
  (r = Ok tt -> files w' !! Join Root p = Some d \/ (files w' = files w /\ fs_present w p)).
Proof.
  unfold LocalFS_PutIfAbsent, try_prog. unfold call at 1. cbn [bind_prog run]. intros H.
  unfold fs_present. set (full := Join Root p) in *.
  step exec_Stat. destruct E as (F1 & D1 & Hok & _).
  destruct r0 as [[]|e|]; cbn [bind_prog run] in H;
    [simplify_eq; split; [by apply same_clean_or, same_clean_files|by auto]| |];
    unfold call at 1 in H; cbn [bind_prog run] in H; step exec_MkdirAll; destruct E as [F2 _];
    (destruct r0 as [[]|e'|]; cbn [bind_prog run] in H;
       [|simplify_eq; split; [apply same_clean_or, same_clean_files; congruence|done]..]);
    unfold call at 1 in H; cbn [bind_prog run] in H; step exec_CreateTemp; destruct E as [F3 _];
    (destruct r0 as [t|e'|]; cbn [bind_prog run] in H;
       [|simplify_eq; split; [apply same_clean_or, same_clean_files; congruence|done]..]);
    destruct F3 as ((n & ->) & _ & F3); set (t := temp_name (Dir full) n) in *;
    (assert (Ht : forall q, clean q = true -> q <> t) by (intros q Hq; by apply clean_not_temp_name));
    (assert (F13 : same_clean w w2) by
       (intros q Hq; rewrite F3, lookup_insert_ne by (by apply not_eq_sym, Ht); congruence));
    unfold call at 1 in H; cbn [bind_prog run] in H; step exec_WriteTemp; destruct E as (W & F4 & _);
    (assert (F14 : same_clean w w3) by (eapply same_clean_trans; [exact F13|by eapply same_clean_except]));
    (destruct r0 as [[]|e'|]; cbn [bind_prog run] in H;
      [|unfold call at 1 in H; cbn [bind_prog run] in H; step exec_CloseTemp; destruct E as [F5 _];
        unfold call in H; cbn [bind_prog run] in H; step exec_Remove; destruct E as [F6 _]; simplify_eq;
        (split; [|done]); apply same_clean_or; (eapply same_clean_trans; [exact F14|]);
        (eapply same_clean_trans; [by apply same_clean_files|by eapply same_clean_except])..]);
    unfold call at 1 in H; cbn [bind_prog run] in H; step exec_CloseTemp; destruct E as [F5 _];
    (assert (F15 : same_clean w w4) by (eapply same_clean_trans; [exact F14|by apply same_clean_files]));
    (destruct r0 as [[]|e'|]; cbn [bind_prog run] in H;
      [|unfold call in H; cbn [bind_prog run] in H; step exec_Remove; destruct E as [F6 _]; simplify_eq;
        (split; [|done]); apply same_clean_or; (eapply same_clean_trans; [exact F15|by eapply same_clean_except])..]);
    (apply (commit_spec net t full d) in H as [H1 H2]; [|done|by rewrite F5, W, lookup_insert_eq]);
    (split; [by eapply same_clean_or_trans|auto]).
Qed.

(** *** Runs without faults *)

Lemma pop_quiet w : faults w = [] -> pop_fault w = (NoFault, w).
Proof. unfold pop_fault. by intros ->. Qed.

Lemma stat_present net p w :
  faults w = [] -> fs_present w p -> exec net (Stat (Join Root p)) w = (Ok tt, w).
Proof.
  intros Hf Hp. cbn [exec]. rewrite pop_quiet by done.
  replace (bool_decide _ || bool_decide _) with true; [done|]. symmetry. apply orb_true_iff.
  destruct Hp as [Hp|Hp]; [left|right]; by apply bool_decide_eq_true.
Qed.

Lemma stat_absent net p w :
  faults w = [] -> ~ fs_present w p -> exec net (Stat (Join Root p)) w = (Err ErrNotExist, w).
Proof.
  intros Hf Hp. cbn [exec]. rewrite pop_quiet by done.
  replace (bool_decide _ || bool_decide _) with false; [done|]. symmetry. apply orb_false_iff.
  split; apply bool_decide_eq_false; intros H; apply Hp; [by left|by right].
Qed.

Lemma mkdir_quiet net d w :
  faults w = [] -> files w !! d = None -> exec net (MkdirAll d) w = (Ok tt, set_dirs ({[d]} ∪ dirs w) w).
Proof. intros Hf Hd. cbn [exec]. rewrite pop_quiet by done. by rewrite Hd. Qed.

Lemma write_quiet net p data w :
  faults w = [] -> p ∉ dirs w -> Dir p ∈ dirs w ->
  exec net (WriteFile p data) w = (Ok tt, set_files (<[p := data]> (files w)) w) /\
  exec net (WriteTemp p data) w = (Ok tt, set_files (<[p := data]> (files w)) w).
Proof.
  intros Hf Hp Hd. cbn [exec]. rewrite pop_quiet by done. unfold write_file.
  by rewrite bool_decide_false, bool_decide_true by done.
Qed.

Lemma commit_quiet net tmp full d w :
  faults w = [] -> files w !! tmp = Some d -> full ∉ dirs w ->
  run net (commit tmp full) w = (Ok tt, set_files (<[full := d]> (delete tmp (files w))) w).
Proof.
  intros Hf Ht Hd. unfold commit, call. cbn [bind_prog run exec]. rewrite pop_quiet by done.
  rewrite Ht, bool_decide_false by done. done.
Qed.

Lemma LocalFS_Put_fresh net p d w :
  faults w = [] -> fs_ready w p -> ~ fs_present w p ->
  exists w', run net (LocalFS_Put Root p d) w = (Ok tt, w') /\ faults w' = [].
Proof.
  intros Hf (Hdir & Hne & Htd & Htne & _ & _ & _ & _ & Hdt) Hp.
  unfold LocalFS_Put, try_prog. unfold call at 1. cbn [bind_prog run].
  rewrite mkdir_quiet by done. cbn [bind_prog]. unfold call at 1. cbn [bind_prog run].
  rewrite stat_absent; [|done|]. 2: { intros [Hin|Hin]; apply Hp; [by left|]. right. set_solver. }
  cbn [bind_prog]. unfold call at 1. cbn [bind_prog run].
  destruct (write_quiet net (Join Root p +:+ ".tmp") d (set_dirs ({[Dir (Join Root p)]} ∪ dirs w) w))
    as [-> _]; [done|simpl; set_solver|simpl; set_solver|].
  cbn [bind_prog]. rewrite (commit_quiet net _ _ d); [by eexists|done|apply lookup_insert_eq|].
  simpl. intros Hin. apply Hp. right. set_solver.
Qed.

Lemma LocalFS_PutIfAbsent_fresh net p d w :
  faults w = [] -> fs_ready w p -> ~ fs_present w p ->
  exists w', run net (LocalFS_PutIfAbsent Root p d) w = (Ok tt, w') /\ faults w' = [].
Proof.
  intros Hf (Hdir & Hne & _ & _ & Hfree & Htd & Htne & Hdt & _) Hp.
  unfold LocalFS_PutIfAbsent, try_prog. unfold call at 1. cbn [bind_prog run].
  rewrite stat_absent by done. cbn [bind_prog]. unfold call at 1. cbn [bind_prog run].
  rewrite mkdir_quiet by done. cbn [bind_prog]. unfold call at 1. cbn [bind_prog run].
  set (w1 := set_dirs _ w). set (t := temp_name (Dir (Join Root p)) (tmpctr w)) in *.
  assert (exec net (CreateTemp (Dir (Join Root p))) w1
          = (Ok t, set_files (<[t := []]> (files w)) (set_tmpctr (tmpctr w + 1) w1))) as ->.
  { cbn [exec]. rewrite pop_quiet by done. change (Z.to_nat 10000) with (S (Z.to_nat 9999)).
    cbn [create_temp]. change (tmpctr w1) with (tmpctr w). fold t. change (files w1) with (files w).
    by rewrite Hfree. }
  cbn [bind_prog]. unfold call at 1. cbn [bind_prog run].
  set (w2 := set_files _ (set_tmpctr _ w1)).
  destruct (write_quiet net t d w2) as [_ ->]; [done|simpl; set_solver|rewrite Hdt; simpl; set_solver|].
  cbn [bind_prog]. unfold call at 1. cbn [bind_prog run exec]. rewrite pop_quiet by done. cbn [bind_prog].
  rewrite (commit_quiet net _ _ d); [by eexists|done|apply lookup_insert_eq|].
  simpl. intros Hin. apply Hp. right. set_solver.
Qed.

Lemma present_mono p q d w w' :
  same_or (Join Root p) d w w' -> dirs w ⊆ dirs w' -> clean (Join Root q) = true ->
  fs_present w q -> fs_present w' q.
Proof.
  intros Hs Hd Hq [H|H]; [left|right; set_solver]. by destruct (Hs _ Hq) as [->|[_ ->]].
Qed.

#[export] Instance LocalFS_laws :
  WriterLaws (LocalFSWriter Root) fs_stored fs_present fs_ready fs_path (fun _ => True).
Proof.
  split; unfold fs_stored, fs_path; cbn [Put PutIfAbsent Has LocalFSWriter].
  - intros w p H. by left.
  - by intros w w' p ->.
  - intros w w' p Hf Hd H. unfold fs_present. by rewrite Hf, Hd.
  - intros net p d w r w' q Hp _ Hr Hq. apply (present_mono p q d); [by eapply LocalFS_Put_spec|by eapply run_dirs|done].
  - intros net p d w r w' q Hp _ Hr Hq. apply (present_mono p q d); [by eapply LocalFS_PutIfAbsent_spec|by eapply run_dirs|done].
  - intros p d. cbn. repeat (split; [done|]; intros [[]| |]; cbn); done.
  - intros p d. cbn. repeat (split; [done|]; intros [?| |]; cbn); done.
  - intros net p d w r w' Hp _ [H _]%LocalFS_Put_spec q Hq.
    destruct (H _ Hq) as [->|[He%Join_inj ->]]; [by left|by right].
  - intros net p d w w' Hp _ [_ H]%LocalFS_Put_spec. by apply H.
  - intros net p d w r w' Hp _ [H _]%LocalFS_PutIfAbsent_spec q Hq.
    destruct (H _ Hq) as [->|[He%Join_inj ->]]; [by left|by right].
  - intros net p d w w' Hp _ [_ H]%LocalFS_PutIfAbsent_spec.
    destruct (H eq_refl) as [?|[-> ?]]; [by left|by right].
  - intros net p d w Hf (Hdir & _) _ _ Hp. unfold LocalFS_Put, try_prog.
    unfold call at 1. cbn [bind_prog run]. rewrite mkdir_quiet by done. cbn [bind_prog].
    unfold call at 1. cbn [bind_prog run]. rewrite stat_present; [|done|].
    + cbn [bind_prog run]. by eexists _, _.
    + destruct Hp as [Hp|Hp]; [by left|right]. simpl. set_solver.
  - intros net p d w Hf Hr _ _ Hp. by apply LocalFS_Put_fresh.
  - intros net p d w Hf _ _ Hp. unfold LocalFS_PutIfAbsent. unfold call at 1. cbn [bind_prog run].
    rewrite stat_present by done. cbn [bind_prog run]. by eexists.
  - intros net p d w Hf Hr _ _ Hp. by apply LocalFS_PutIfAbsent_fresh.
  - intros net p w r w' Hp. unfold LocalFS_Has, call. cbn [bind_prog run]. intros H q.
    step exec_Stat. destruct E as (F & _). assert (files w' = files w) as ->; [|done].
    by destruct r0 as [[]|[]|]; simplify_eq/=.
  - intros net p w Hf Hp. unfold LocalFS_Has, call. cbn [bind_prog run].
    assert (Decision (fs_present w p)) as [Hy|Hn] by (unfold fs_present; apply _).
    + rewrite stat_present by done. by exists true.
    + rewrite stat_absent by done. by exists false.
Qed.

End LocalFS_laws.

(** ** gzipWriter inherits it *)

Section Gzip_laws.

Context (gz : bytes -> res bytes) (gunzip : bytes -> option bytes).

(** Decompression undoes a successful compression (compress/gzip). *)
Hypothesis gunzip_gz : forall d z, gz d = Ok z -> gunzip z = Some d.

Context (inner : Writer) (stored : world -> string -> option bytes)
  (present ready : world -> string -> Prop) (ok_path : string -> Prop) (ok_data : bytes -> Prop)
  `{!WriterLaws inner stored present ready ok_path ok_data}.

Definition gz_path (p : string) : string := (p +:+ ".gz")%string.

Definition gzip_stored (w : world) (p : string) : option bytes := stored w (gz_path p) ≫= gunzip.

Definition gzip_data (d : bytes) : Prop := exists z, gz d = Ok z /\ ok_data z.

Lemma gz_path_inj p q : gz_path p = gz_path q -> p = q.
Proof. apply str_app_inj_r. Qed.

Lemma gzip_frame w w' p z d :
  gz d = Ok z ->
  (forall q, ok_path q -> stored w' q = stored w q \/ (q = gz_path p /\ stored w' q = Some z)) ->
  forall q, ok_path (gz_path q) -> gzip_stored w' q = gzip_stored w q \/ (q = p /\ gzip_stored w' q = Some d).
Proof.
  intros Hz H q Hq. unfold gzip_stored. destruct (H _ Hq) as [->|[He ->]]; [by left|right].
  split; [by apply gz_path_inj|]. by apply gunzip_gz.
Qed.

#[export] Instance gzip_laws :
  WriterLaws (gzipWriter gz inner) gzip_stored (fun w p => present w (gz_path p))
    (fun w p => ready w (gz_path p)) (fun p => ok_path (gz_path p)) gzip_data.
Proof.
  split; cbn [Put PutIfAbsent Has gzipWriter]; unfold gzip_Put, gzip_PutIfAbsent, gzip_Has.
  - intros w p [d H]. unfold gzip_stored in H. apply bind_Some in H as (z & Hz & _).
    apply (stored_present (WriterLaws := WriterLaws0)). eauto.
  - intros w w' p H. unfold gzip_stored. by erewrite stored_files.
  - intros w w' p. apply (present_files (WriterLaws := WriterLaws0)).
  - intros net p d w r w' q Hp (z & Hz & Hok). rewrite Hz. intros H Hq.
    by apply (put_present (WriterLaws := WriterLaws0) net (gz_path p) z w r w').
  - intros net p d w r w' q Hp (z & Hz & Hok). rewrite Hz. intros H Hq.
    by apply (put_absent_keeps (WriterLaws := WriterLaws0) net (gz_path p) z w r w').
  - intros p d. destruct (gz d); [|done..]. apply (put_no_seen (WriterLaws := WriterLaws0)).
  - intros p d. destruct (gz d); [|done..]. apply (put_absent_no_seen (WriterLaws := WriterLaws0)).
  - intros net p d w r w' Hp (z & Hz & Hok). rewrite Hz. intros H. eapply gzip_frame; [done|].
    eapply put_atomic; eauto.
  - intros net p d w w' Hp (z & Hz & Hok). rewrite Hz. intros H.
    unfold gzip_stored. erewrite put_ok by eauto. by apply gunzip_gz.
  - intros net p d w r w' Hp (z & Hz & Hok). rewrite Hz. intros H. eapply gzip_frame; [done|].
    eapply put_absent_atomic; eauto.
  - intros net p d w w' Hp (z & Hz & Hok). rewrite Hz. intros H. unfold gzip_stored.
    eapply put_absent_ok in H as [H|[H ?]]; [| |done..]; fold (gz_path p) in H; rewrite H; [left|by right].
    by apply gunzip_gz.
  - intros net p d w Hf Hr Hp (z & Hz & Hok) Hpr. rewrite Hz.
    destruct (put_once (WriterLaws := WriterLaws0) net (gz_path p) z w Hf Hr Hp Hok Hpr) as (e & w' & H & Hfr).
    exists e, w'. split; [done|]. intros q. unfold gzip_stored. by rewrite Hfr.
  - intros net p d w Hf Hr Hp (z & Hz & Hok) Hpr. rewrite Hz. by apply (put_fresh (WriterLaws := WriterLaws0)).
  - intros net p d w Hf Hp (z & Hz & Hok) Hpr. rewrite Hz.
    destruct (put_absent_present (WriterLaws := WriterLaws0) net (gz_path p) z w Hf Hp Hok Hpr) as (w' & H & Hf' & Hfr).
    exists w'. split; [done|]. split; [done|]. intros q. unfold gzip_stored. by rewrite Hfr.
  - intros net p d w Hf Hr Hp (z & Hz & Hok) Hpr. rewrite Hz. by apply (put_absent_fresh (WriterLaws := WriterLaws0)).
  - intros net p w r w' Hp H q. unfold gzip_stored. by erewrite has_frame by eauto.
  - intros net p w Hf Hp. by apply (has_exact (WriterLaws := WriterLaws0)).
Qed.

End Gzip_laws.

(** ** Properties *)

(** C30. LocalFSWriter.Put, whatever its system calls do: no clean path other than
    the target changes and the target holds its old content or the whole
    payload, also after a torn write or a crash at any call; success means the
    payload is there. Without failing calls an existing partition is refused
    and left alone, and an absent one is written. *)
Theorem localfs_put_contract (Root : string) (net : bytes -> res bytes) (p : string) (d : bytes)
  (w w' : world) (r : res unit)
  (Hp : clean (Join Root p) = true) (Hready : fs_ready Root w p)
  (Hrun : run net (LocalFS_Put Root p d) w = (r, w')) :
  (forall q, clean q = true ->
     files w' !! q = files w !! q \/ (q = Join Root p /\ files w' !! q = Some d)) /\
  (r = Ok tt -> files w' !! Join Root p = Some d) /\
  (faults w = [] -> is_Some (files w !! Join Root p) ->
     r <> Ok tt /\ files w' !! Join Root p = files w !! Join Root p) /\
  (faults w = [] -> files w !! Join Root p = None -> Join Root p ∉ dirs w -> r = Ok tt).
Proof.
  pose proof (LocalFS_Put_spec Root net p d w r w' Hrun) as [H1 H2].
  split; [exact H1|]. split; [exact H2|]. split.
  - intros Hf Hs.
    destruct (put_once (W := LocalFSWriter Root) net p d w Hf Hready Hp I (or_introl Hs)) as (e & w2 & He & Hst).
    cbn [Put LocalFSWriter] in He. rewrite Hrun in He. injection He as -> ->. split; [done|]. apply (Hst p).
  - intros Hf Hn Hd. destruct (LocalFS_Put_fresh Root net p d w Hf Hready) as (w2 & He & _).
    { intros [[x Hx]|Hin]; [congruence|done]. }
    rewrite Hrun in He. by injection He.
Qed.

Definition one_dir : world := mkWorld ∅ {["data/2024-01-01"]} [] 0 [] ∅ 0 0 [] 0 0 (-1) (-1).

Lemma localfs_put_contract_witness :
  run Ok (LocalFS_Put "data" "2024-01-01/0-5.binpb" [x01]) one_dir
    = (Ok tt, set_files (<["data/2024-01-01/0-5.binpb" := [x01]]> ∅) one_dir) /\
  files (set_files (<["data/2024-01-01/0-5.binpb" := [x01]]> ∅) one_dir) !! "data/2024-01-01/0-5.binpb"
    = Some [x01].
Proof.
  assert (run Ok (LocalFS_Put "data" "2024-01-01/0-5.binpb" [x01]) one_dir
    = (Ok tt, set_files (<["data/2024-01-01/0-5.binpb" := [x01]]> ∅) one_dir)) as H
    by (vm_compute; reflexivity).
  split; [exact H|].
  apply (localfs_put_contract "data" Ok "2024-01-01/0-5.binpb" [x01] one_dir _ (Ok tt)).
  - reflexivity.
  - unfold fs_ready. repeat split; try reflexivity; try discriminate; vm_compute; intros HH; discriminate.
  - exact H.
  - reflexivity.
Defined.

(** Any error of os.Stat counts as absence: when that one call fails, Put
    replaces an existing partition. *)
Lemma stat_fault_overwrites :
  let old := set_files {["data/2024-01-01/0-5.binpb" := [x00]]} one_dir in
  let '(r, w') := run Ok (LocalFS_Put "data" "2024-01-01/0-5.binpb" [x01])
                    (set_faults [NoFault; Fault] old) in
  r = Ok tt /\ files w' !! "data/2024-01-01/0-5.binpb" = Some [x01].
Proof. vm_compute. by split. Qed.
