(* ===== verification/Partition.v ===== *)
(** internal/ctv2/partition.go: batches of leaves become immutable files
    <day>/<first>-<last>.binpb. The protobuf encoder is a parameter; the record
    types are the generated messages of gen/ctingestion/v2. *)

From S2P Require Import Prelude GoStd Base36 Coverage FileSys Writer.

(** ** Definitions *)

(** RawLogEntry (proto/ctingestion v2). *)
Record RawLogEntry := mkEntry {
  re_Index : Z;
  re_TimestampMs : Z;
  re_EntryType : Z;
  re_Source : Z;
  re_LeafInput : bytes;
  re_ChainFingerprints : list bytes;
  re_Precertificate : bytes;
  re_IssuerKeyHash : bytes }.

(** One issuer-chain certificate with its SHA-256 (issuer_store.go). *)
Record chainCert := mkChain { cc_hash : bytes; cc_der : bytes }.

(** fetch.go: a contiguous run of records and the chain certs parsed with it. *)
Record entryBatch := mkBatch { eb_entries : list RawLogEntry; eb_chains : list chainCert }.

Inductive granularity := GRAN_DAY | GRAN_HOUR.

(** *** Dates: package time, proleptic Gregorian calendar in UTC *)

(** Month and day of the [doy]th day of a year that begins on 1 March. *)
Definition month_day (doy : Z) : Z * Z :=
  let mp := (5 * doy + 2) / 153 in
  (if mp <? 10 then mp + 3 else mp - 9, doy - (153 * mp + 2) / 5 + 1).

(** Year, month and day of the [z]th day after 1970-01-01: the 400-year,
    100-year, 4-year and 1-year cycles, counted from 1 March of year 0. *)
Definition civil_from_days (z : Z) : Z * Z * Z :=
  let z := z + 719468 in
  let era := z / 146097 in
  let doe := z mod 146097 in
  let c := Z.min (doe / 36524) 3 in
  let doc := doe - 36524 * c in
  let q := doc / 1461 in
  let doq := doc - 1461 * q in
  let a := Z.min (doq / 365) 3 in
  let '(m, d) := month_day (doq - 365 * a) in
  (400 * era + 100 * c + 4 * q + a + (if m <=? 2 then 1 else 0), m, d).

(** time's zero-padded decimals ([appendInt]). *)
Fixpoint zeros (n : nat) : string := match n with O => "" | S n' => String "0" (zeros n') end.

Definition pad_int (width : nat) (n : Z) : string :=
  let ds := dec (Z.abs n) in
  ((if (n <? 0)%Z then "-" else "") +:+ zeros (width - String.length ds) +:+ ds)%string.

(** [t.Format("2006-01-02")] *)
Definition format_date (days : Z) : string :=
  let '(y, m, d) := civil_from_days days in
  (pad_int 4 y +:+ "-" +:+ pad_int 2 m +:+ "-" +:+ pad_int 2 d)%string.

Definition leafDay (tsMs : Z) (g : granularity) : string :=
  let day := format_date (tsMs / 86400000) in
  match g with
  | GRAN_HOUR => Join day (pad_int 2 (tsMs mod 86400000 / 3600000))
  | GRAN_DAY => day
  end.

(** *** batchSink *)

Section BatchSink.

Context {W : Writer}.
(** Deterministic [proto.Marshal] of the batch message with the sink's log meta. *)
Variable marshal : list RawLogEntry -> res bytes.
Variable gran : granularity.
(** [s.issuers.ingest], or a no-op when there is no issuer store. *)
Variable ingest : entryBatch -> prog (res unit).

Definition part_path (day a b : string) : string := Join day (partition_name a b "").

Definition writeRun (day : string) (run : list RawLogEntry) : prog (res unit) :=
  match run, last run with
  | r0 :: _, Some rn =>
      let first := re_Index r0 in
      let last := re_Index rn in
      match marshal run with
      | Err e => Ret (Err (Wrap ("marshal batch " +:+ day +:+ " [" +:+ dec first +:+ "," +:+ dec last +:+ "]") e))
      | Panic => Ret Panic
      | Ok data =>
          match encodeBase36 first, encodeBase36 last with
          | Ok a, Ok b =>
              try! _ := Put (part_path day a b) data in
              let! _ := call (NoteWritten (Z.of_nat (length run)) (blen data) first last) in
              Ret (Ok tt)
          | _, _ => Ret Panic
          end
      end
  | _, _ => Ret (Ok tt)
  end.

(** The loop over entries[1:]; [run] is entries[runStart:i]. *)
Fixpoint run_loop (rest run : list RawLogEntry) (curDay : string) : prog (res unit) :=
  match rest with
  | [] => writeRun curDay run
  | e :: rest' =>
      let d := leafDay (re_TimestampMs e) gran in
      if negb (String.eqb d curDay) then
        try! _ := writeRun curDay run in run_loop rest' [e] d
      else run_loop rest' (run ++ [e]) curDay
  end.

Definition writeBatch (b : entryBatch) : prog (res unit) :=
  try! _ := ingest b in
  match eb_entries b with
  | [] => Ret (Ok tt)
  | e0 :: rest => run_loop rest [e0] (leafDay (re_TimestampMs e0) gran)
  end.

End BatchSink.

(** ** The calendar *)

Example day_0 : format_date 0 = "1970-01-01". Proof. reflexivity. Qed.
Example day_leap : format_date 19782 = "2024-02-29". Proof. reflexivity. Qed.
Example day_march : format_date 19783 = "2024-03-01". Proof. reflexivity. Qed.
Example day_1900 : format_date (-25509) = "1900-02-28" /\ format_date (-25508) = "1900-03-01".
Proof. split; reflexivity. Qed.
Example day_newyear : format_date 20088 = "2024-12-31" /\ format_date 20089 = "2025-01-01".
Proof. split; reflexivity. Qed.

(** Day of the year from month and day: the inverse of [month_day]. *)
Definition doy_of (m d : Z) : Z := (153 * (if 2 <? m then m - 3 else m + 9) + 2) / 5 + d - 1.

Definition doy_ok (doy : Z) : bool :=
  let '(m, d) := month_day doy in
  (doy_of m d =? doy) && (1 <=? m) && (m <=? 12) && (1 <=? d) && (d <=? 31).

(** [f] on [z, z + n). *)
Fixpoint check_from (f : Z -> bool) (n : nat) (z : Z) : bool :=
  match n with O => true | S n' => f z && check_from f n' (z + 1) end.

Lemma check_from_spec f n z k : check_from f n z = true -> z <= k < z + Z.of_nat n -> f k = true.
Proof.
  revert z. induction n as [|n IH]; intros z H Hk; [lia|]. simpl in H. apply andb_true_iff in H as [H1 H2].
  destruct (decide (k = z)) as [->|]; [done|]. apply (IH (z + 1)); [done|lia].
Qed.

Lemma all_doy_ok : check_from doy_ok 366 0 = true.
Proof. vm_compute. reflexivity. Qed.

Lemma month_day_spec doy m d :
  0 <= doy < 366 -> month_day doy = (m, d) -> doy_of m d = doy /\ 1 <= m <= 12 /\ 1 <= d <= 31.
Proof.
  intros H E. pose proof (check_from_spec _ _ 0 doy all_doy_ok ltac:(lia)) as Hok.
  unfold doy_ok in Hok. rewrite E in Hok. rewrite !andb_true_iff, !Z.leb_le, Z.eqb_eq in Hok. lia.
Qed.

(** The cycles of a day number. *)
Lemma civil_cycles z :
  exists era c q a doy, z + 719468 = 146097 * era + 36524 * c + 1461 * q + 365 * a + doy /\
    0 <= c <= 3 /\ 0 <= q <= 24 /\ 0 <= a <= 3 /\ 0 <= doy < 366 /\
    civil_from_days z
    = (let '(m, d) := month_day doy in
       (400 * era + 100 * c + 4 * q + a + (if m <=? 2 then 1 else 0), m, d)).
Proof.
  unfold civil_from_days. set (z' := z + 719468). set (doe := z' mod 146097).
  set (c := Z.min (doe / 36524) 3). set (doc := doe - 36524 * c). set (q := doc / 1461).
  set (doq := doc - 1461 * q). set (a := Z.min (doq / 365) 3).
  exists (z' / 146097), c, q, a, (doq - 365 * a).
  assert (0 <= doe < 146097 /\ z' = 146097 * (z' / 146097) + doe) as [Hdoe Hz] by (unfold doe; div_lia).
  assert (0 <= c <= 3 /\ 0 <= doc < 36525) as (Hc & Hdoc) by (unfold doc, c; div_lia).
  assert (0 <= q <= 24 /\ 0 <= doq < 1461) as (Hq & Hdoq) by (unfold doq, q; div_lia).
  assert (0 <= a <= 3 /\ 0 <= doq - 365 * a < 366) as (Ha & Hdoy) by (unfold a; div_lia).
  split; [unfold doq, doc; lia|]. do 4 (split; [lia|]). done.
Qed.

Lemma civil_from_days_inj x y : civil_from_days x = civil_from_days y -> x = y.
Proof.
  destruct (civil_cycles x) as (era & c & q & a & doy & Hz & Hc & Hq & Ha & Hdoy & ->).
  destruct (civil_cycles y) as (era' & c' & q' & a' & doy' & Hz' & Hc' & Hq' & Ha' & Hdoy' & ->).
  destruct (month_day doy) as [m d] eqn:E, (month_day doy') as [m' d'] eqn:E'. intros [= Hy -> ->].
  apply month_day_spec in E as [E _], E' as [E' _]; [|done..].
  assert (era = era' /\ c = c' /\ q = q' /\ a = a') by lia. lia.
Qed.

Lemma civil_month_day z :
  let '(y, m, d) := civil_from_days z in 1 <= m <= 12 /\ 1 <= d <= 31.
Proof.
  destruct (civil_cycles z) as (era & c & q & a & doy & Hz & Hc & Hq & Ha & Hdoy & ->).
  destruct (month_day doy) as [m d] eqn:E. by apply month_day_spec in E as [_ E].
Qed.

(** 0000-03-01 to 9999-02-28. *)
Definition day_range (z : Z) : Prop := -719468 <= z < 2932591.

Lemma civil_year_range z : day_range z -> 0 <= fst (fst (civil_from_days z)) <= 9999.
Proof.
  intros [H1 H2]. destruct (civil_cycles z) as (era & c & q & a & doy & Hz & Hc & Hq & Ha & Hdoy & ->).
  destruct (month_day doy) as [m d]. simpl. destruct (m <=? 2); lia.
Qed.

Lemma dec_val_zeros n s : dec_val 0 (zeros n +:+ s) = dec_val 0 s.
Proof. induction n; simpl; done. Qed.

Lemma pad_int_val w n : 0 <= n -> dec_val 0 (pad_int w n) = n.
Proof.
  intros H. unfold pad_int. destruct (Z.ltb_spec n 0); [lia|]. rewrite Z.abs_eq by done. simpl.
  by rewrite dec_val_zeros, dec_val_dec.
Qed.

Lemma pad_int_length w n :
  ((w = 2%nat /\ 0 <= n < 100) \/ (w = 4%nat /\ 0 <= n < 10000)) -> String.length (pad_int w n) = w.
Proof.
  assert (check_from (fun k => String.length (pad_int 4 k) =? 4)%nat (Z.to_nat 10000) 0 = true) as H4
    by (vm_compute; reflexivity).
  assert (check_from (fun k => String.length (pad_int 2 k) =? 2)%nat 100 0 = true) as H2
    by (vm_compute; reflexivity).
  intros [[-> H]|[-> H]]; apply Nat.eqb_eq;
    [apply (check_from_spec _ _ 0 _ H2)|apply (check_from_spec _ _ 0 _ H4)]; lia.
Qed.

Lemma pad_int_inj w a b : 0 <= a -> 0 <= b -> pad_int w a = pad_int w b -> a = b.
Proof. intros Ha Hb H. by rewrite <- (pad_int_val w a), <- (pad_int_val w b), H by done. Qed.

Lemma format_date_spec z :
  day_range z -> String.length (format_date z) = 10%nat.
Proof.
  intros H. unfold format_date. pose proof (civil_year_range z H). pose proof (civil_month_day z).
  destruct (civil_from_days z) as [[y m] d]. simpl in *.
  rewrite !str_length_app. cbn [String.length]. rewrite !str_length_app. cbn [String.length].
  rewrite !pad_int_length by lia. done.
Qed.

Lemma format_date_inj a b : day_range a -> day_range b -> format_date a = format_date b -> a = b.
Proof.
  intros Ha Hb H. apply civil_from_days_inj. unfold format_date in H.
  pose proof (civil_year_range a Ha). pose proof (civil_month_day a).
  pose proof (civil_year_range b Hb). pose proof (civil_month_day b).
  destruct (civil_from_days a) as [[y m] d], (civil_from_days b) as [[y' m'] d']. simpl in *.
  apply str_app_inj_len in H as [Hy H]; [|by rewrite !pad_int_length by lia]. injection H as H.
  apply str_app_inj_len in H as [Hm H]; [|by rewrite !pad_int_length by lia]. injection H as H.
  apply pad_int_inj in Hy, Hm, H; [|lia..]. congruence.
Qed.

(** ** What a batch leaves on disk *)

Definition ms_range (ts : Z) : Prop := day_range (ts / 86400000).

Definition consecutive (a : Z) (es : list RawLogEntry) : Prop :=
  re_Index <$> es = seqZ a (Z.of_nat (length es)).

Lemma consecutive_app a es es' :
  consecutive a (es ++ es') -> consecutive a es /\ consecutive (a + Z.of_nat (length es)) es'.
Proof.
  unfold consecutive. rewrite fmap_app, length_app, Nat2Z.inj_add, seqZ_app by lia. intros H.
  apply app_inj_1 in H; [done|]. rewrite length_fmap, length_seqZ. lia.
Qed.

Lemma consecutive_ends a es e0 en :
  consecutive a es -> head es = Some e0 -> last es = Some en ->
  re_Index e0 = a /\ re_Index en = a + Z.of_nat (length es) - 1.
Proof.
  unfold consecutive. intros H H0 Hn. split.
  - destruct es as [|e es]; [done|]. injection H0 as <-. cbn [length] in H.
    rewrite seqZ_cons in H by lia. by injection H.
  - destruct es as [|e es'] eqn:E using rev_ind; [done|]. rewrite last_snoc in Hn. injection Hn as <-.
    apply consecutive_app in H as [_ H]. unfold consecutive in H. cbn in H. injection H as ->.
    rewrite length_app. simpl. lia.
Qed.

Section BatchSpec.

Context (net : bytes -> res bytes).
Context {W : Writer} {stored : world -> string -> option bytes}
  {present ready : world -> string -> Prop} {ok_path : string -> Prop} {ok_data : bytes -> Prop}
  `{!WriterLaws W stored present ready ok_path ok_data}.
Context (marshal : list RawLogEntry -> res bytes) (gran : granularity).

(** Partition paths and payloads are acceptable to the writer. *)
Hypothesis Hpath : forall day n m a b, 0 <= n <= max_int64 -> 0 <= m <= max_int64 ->
  encodeBase36 n = Ok a -> encodeBase36 m = Ok b -> ok_path (part_path day a b).
Hypothesis Hdata : forall run d, marshal run = Ok d -> ok_data d.

(** [pd] is the file of [run]: a non-empty single-day run under its own name. *)
Definition file_of (run : list RawLogEntry) (p : string) (d : bytes) : Prop :=
  exists e0 en day a b, head run = Some e0 /\ last run = Some en /\
    Forall (fun e => leafDay (re_TimestampMs e) gran = day) run /\
    encodeBase36 (re_Index e0) = Ok a /\ encodeBase36 (re_Index en) = Ok b /\
    p = part_path day a b /\ marshal run = Ok d.

Lemma file_of_path run p d a :
  file_of run p d -> consecutive a run -> 0 <= a -> a + Z.of_nat (length run) <= max_int64 -> ok_path p.
Proof.
  intros (e0 & en & day & sa & sb & H0 & Hn & _ & Ha & Hb & -> & _) Hc Ha0 Hmax.
  destruct (consecutive_ends _ _ _ _ Hc H0 Hn) as [E0 En].
  assert (0 < Z.of_nat (length run)) by (destruct run; [done|simpl; lia]).
  eapply Hpath; [| |done|done]; lia.
Qed.

Lemma digits36_no_slash n s :
  0 <= n <= max_int64 -> encodeBase36 n = Ok s -> str_forallb (fun c => negb (Ascii.eqb c "/")) s = true.
Proof.
  intros Hn Hs. destruct (encode_spec n (proj2 Hn)) as (s' & Hs' & Hd & _). rewrite Hs in Hs'. injection Hs' as <-.
  clear Hs. induction s as [|c s IH]; [done|]. cbn [str_forallb] in *.
  apply andb_true_iff in Hd as [Hc Hd]. rewrite IH by done. rewrite andb_true_r.
  apply negb_true_iff. destruct (Ascii.eqb_spec c "/"); [by subst|done].
Qed.

Lemma part_path_base day a b :
  str_forallb (fun c => negb (Ascii.eqb c "/")) a = true ->
  str_forallb (fun c => negb (Ascii.eqb c "/")) b = true ->
  Base (part_path day a b) = partition_name a b "".
Proof.
  intros Ha Hb. apply Base_Join. unfold partition_name. rewrite str_forallb_app, Ha.
  cbn [str_forallb]. by rewrite str_forallb_app, Hb.
Qed.

(** The name alone gives the index range back. *)
Lemma file_of_range run p d a :
  file_of run p d -> consecutive a run -> 0 <= a -> a + Z.of_nat (length run) <= max_int64 ->
  parseRangeFromName (Base p) = Some (mkRange a (a + Z.of_nat (length run))).
Proof.
  intros (e0 & en & day & sa & sb & H0 & Hn & _ & Ha & Hb & -> & _) Hc Ha0 Hmax.
  destruct (consecutive_ends _ _ _ _ Hc H0 Hn) as [E0 En].
  assert (0 < Z.of_nat (length run)) by (destruct run; [done|simpl; lia]).
  rewrite part_path_base by (eapply digits36_no_slash; [|eassumption]; lia).
  rewrite (parse_written_name (re_Index e0) (re_Index en)) by (done || lia || by left).
  rewrite E0, En. do 2 f_equal. lia.
Qed.

Lemma file_of_disjoint run p d a run' d' a' :
  file_of run p d -> consecutive a run -> 0 <= a -> a + Z.of_nat (length run) <= max_int64 ->
  file_of run' p d' -> consecutive a' run' -> 0 <= a' -> a' + Z.of_nat (length run') <= max_int64 -> a = a'.
Proof.
  intros H1 H2 H3 H4 H1' H2' H3' H4'. pose proof (file_of_range _ _ _ _ H1 H2 H3 H4) as E.
  rewrite (file_of_range _ _ _ _ H1' H2' H3' H4') in E. by injection E.
Qed.

(** The changes on disk are files of runs of [es], which starts at [a]. *)
Definition only_runs (a : Z) (es : list RawLogEntry) (w w' : world) : Prop :=
  forall q, ok_path q -> stored w' q = stored w q \/
    exists run d i, file_of run q d /\ stored w' q = Some d /\
      run = take (length run) (drop i es) /\ consecutive (a + Z.of_nat i) run.

Lemma only_runs_refl a es w : only_runs a es w w.
Proof. intros q Hq. by left. Qed.

Lemma only_runs_trans a es k w1 w2 w3 :
  (k <= length es)%nat -> only_runs a (take k es) w1 w2 ->
  only_runs (a + Z.of_nat k) (drop k es) w2 w3 -> only_runs a es w1 w3.
Proof.
  intros Hk H1 H2 q Hq. destruct (H2 q Hq) as [->|(run & d & i & Hf & Hs & Hr & Hc)].
  - destruct (H1 q Hq) as [->|(run & d & i & Hf & Hs & Hr & Hc)]; [by left|right].
    exists run, d, i. split_and!; try done. rewrite skipn_firstn_comm, take_take in Hr.
    rewrite Hr at 1. rewrite Hr at 2. rewrite length_take. f_equal. rewrite length_drop. lia.
  - right. exists run, d, (k + i)%nat. rewrite drop_drop in Hr. split_and!; try done.
    by replace (a + Z.of_nat (k + i)) with (a + Z.of_nat k + Z.of_nat i) by lia.
Qed.

Lemma writeRun_spec day run a w r w' :
  run <> [] -> Forall (fun e => leafDay (re_TimestampMs e) gran = day) run ->
  consecutive a run -> 0 <= a -> a + Z.of_nat (length run) <= max_int64 ->
  FileSys.run net (writeRun marshal day run) w = (r, w') ->
  only_runs a run w w' /\
  (r = Ok tt -> exists p d, file_of run p d /\ stored w' p = Some d).
Proof.
  intros Hne Hday Hc Ha Hmax. unfold writeRun.
  destruct run as [|e0 rest] eqn:Erun; [done|]. rewrite <- Erun in *.
  destruct (last run) as [en|] eqn:Elast; [|by subst; apply last_None in Elast].
  assert (head run = Some e0) as Ehead by by subst.
  destruct (consecutive_ends _ _ _ _ Hc Ehead Elast) as [E0 En].
  assert (0 < Z.of_nat (length run)) by (subst; simpl; lia).
  destruct (marshal run) as [data|e|] eqn:Em; [|by (intros [= <- <-]; split; [apply only_runs_refl|])..].
  destruct (encode_spec (re_Index e0) ltac:(lia)) as (sa & Ea & _).
  destruct (encode_spec (re_Index en) ltac:(lia)) as (sb & Eb & _). rewrite Ea, Eb.
  assert (Hf : file_of run (part_path day sa sb) data) by (exists e0, en, day, sa, sb; done).
  assert (Hok : ok_path (part_path day sa sb)) by (eapply (Hpath day (re_Index e0) (re_Index en)); done || lia).
  unfold try_prog. rewrite run_bind.
  destruct (FileSys.run net (Put (part_path day sa sb) data) w) as [rp w1] eqn:Ep.
  assert (Hor : only_runs a run w w1).
  { intros q Hq. destruct (put_atomic net _ _ _ _ _ Hok (Hdata _ _ Em) Ep q Hq) as [->|[-> Hs]];
      [by left|right]. exists run, data, 0%nat. rewrite drop_0, firstn_all, Z.add_0_r. done. }
  destruct rp as [[]|e|]; [|intros [= <- <-]; by split..].
  unfold call. cbn [bind_prog FileSys.run exec]. intros [= <- <-].
  assert (Hst : forall q, stored (set_stats (entriesWritten w1 + Z.of_nat (length run)) (bytesWritten w1 + blen data)
     (if (firstIndex w1 <? 0) || (re_Index e0 <? firstIndex w1) then re_Index e0 else firstIndex w1)
     (if lastIndex w1 <? re_Index en then re_Index en else lastIndex w1) w1) q = stored w1 q)
    by (intros q; by apply stored_files).
  split; [intros q Hq; rewrite Hst; by apply Hor|].
  intros _. exists (part_path day sa sb), data. split; [done|]. rewrite Hst.
  eapply put_ok; [done|by eapply Hdata|done].
Qed.

(** [fs] are the files of consecutive runs that make up [es], in order. *)
Definition stored_runs (w : world) (es : list RawLogEntry) (fs : list (list RawLogEntry * string * bytes)) : Prop :=
  concat (map (fun f => f.1.1) fs) = es /\
  Forall (fun f => file_of f.1.1 f.1.2 f.2 /\ stored w f.1.2 = Some f.2) fs.

Lemma run_loop_spec rest acc day a w r w' :
  acc <> [] -> Forall (fun e => leafDay (re_TimestampMs e) gran = day) acc ->
  consecutive a (acc ++ rest) -> 0 <= a -> a + Z.of_nat (length (acc ++ rest)) <= max_int64 ->
  FileSys.run net (run_loop marshal gran rest acc day) w = (r, w') ->
  only_runs a (acc ++ rest) w w' /\
  (r = Ok tt -> exists fs, stored_runs w' (acc ++ rest) fs).
Proof.
  revert acc day a w r w'. induction rest as [|e rest IH]; intros acc day a w r w' Hne Hday Hc Ha Hmax.
  - rewrite app_nil_r in *. cbn [run_loop]. intros H.
    destruct (writeRun_spec _ _ _ _ _ _ Hne Hday Hc Ha Hmax H) as [Ho Hok]. split; [done|].
    intros Hr. destruct (Hok Hr) as (p & d & Hf & Hs). exists [(acc, p, d)].
    split; [simpl; by rewrite app_nil_r|]. by repeat constructor.
  - cbn [run_loop]. set (d := leafDay _ gran). destruct (String.eqb_spec d day) as [Hd|Hd]; cbn [negb].
    + replace (acc ++ e :: rest) with ((acc ++ [e]) ++ rest) in * by (by rewrite <- app_assoc).
      apply IH; [by destruct acc|apply Forall_last; by split|done..].
    + intros H. unfold try_prog in H. rewrite run_bind in H.
      destruct (FileSys.run net (writeRun marshal day acc) w) as [r1 w1] eqn:E1.
      pose proof (consecutive_app _ _ _ Hc) as [Hc1 Hc2].
      rewrite length_app, Nat2Z.inj_add in Hmax.
      destruct (writeRun_spec _ _ _ _ _ _ Hne Hday Hc1 Ha ltac:(lia) E1) as [Ho1 Hok1].
      assert (Ho1' : only_runs a (acc ++ e :: rest) w w1).
      { apply (only_runs_trans a _ (length acc) w w1 w1); [rewrite length_app; lia| |apply only_runs_refl].
        by rewrite take_app_length. }
      destruct r1 as [[]|err|]; [|injection H as <- <-; by split..].
      apply (IH [e] d (a + Z.of_nat (length acc))) in H as [Ho2 Hok2];
        [|done|by repeat constructor|done|lia|simpl in *; lia].
      split.
      { apply (only_runs_trans a _ (length acc) w w1 w'); [rewrite length_app; lia| |].
        - by rewrite take_app_length.
        - by rewrite drop_app_length. }
      intros Hr. destruct (Hok2 Hr) as (fs & Hcat & Hfs). destruct (Hok1 eq_refl) as (p & data & Hf & Hs).
      exists ((acc, p, data) :: fs). split; [cbn; by rewrite Hcat|]. constructor; [|done]. split; [done|]. cbn.
      destruct (Ho2 p (file_of_path _ _ _ _ Hf Hc1 Ha ltac:(lia))) as [->|(run & d' & i & Hf' & _ & Hrun & Hc')]; [done|exfalso].
      assert (Hlen : (length run <= length (drop i ([e] ++ rest)))%nat).
      { rewrite Hrun at 1. rewrite length_take. lia. }
      rewrite length_drop in Hlen. assert (run <> []) as Hrne by (intros ->; by destruct Hf' as (? & ? & ? & ? & ? & ? & _)).
      assert (1 <= length run)%nat by (destruct run; [done|simpl; lia]).
      assert (1 <= length acc)%nat by (destruct acc; [done|simpl; lia]).
      assert (a = a + Z.of_nat (length acc) + Z.of_nat i); [|lia].
      simpl in *. eapply (file_of_disjoint acc p data a run d'); try done; lia.
Qed.

(** A batch without an issuer store. *)
Lemma writeBatch_spec b a w r w' :
  consecutive a (eb_entries b) -> 0 <= a -> a + Z.of_nat (length (eb_entries b)) <= max_int64 ->
  FileSys.run net (writeBatch marshal gran (fun _ => Ret (Ok tt)) b) w = (r, w') ->
  only_runs a (eb_entries b) w w' /\ (r = Ok tt -> exists fs, stored_runs w' (eb_entries b) fs).
Proof.
  intros Hc Ha Hmax. unfold writeBatch, try_prog. cbn [bind_prog].
  destruct (eb_entries b) as [|e0 rest] eqn:E.
  - intros [= <- <-]. split; [apply only_runs_refl|]. intros _. by exists [].
  - intros H. eapply (run_loop_spec rest [e0]); [done|by repeat constructor|done..].
Qed.

(** The coverage read back from the names of a batch's files. *)
Lemma stored_runs_ranges w es fs a :
  stored_runs w es fs -> consecutive a es -> 0 <= a -> a + Z.of_nat (length es) <= max_int64 ->
  exists rs, Forall2 (fun f r => parseRangeFromName (Base f.1.2) = Some r) fs rs /\
    forall i, a <= i < a + Z.of_nat (length es) <-> exists r, r ∈ rs /\ rstart r <= i < rend r.
Proof.
  intros [Hcat Hfs] Hc Ha Hmax. revert es a Hcat Hc Ha Hmax.
  induction Hfs as [|[[run p] d] fs [Hf _] _ IH]; intros es a Hcat Hc Ha Hmax; simpl in *.
  - subst es. exists []. split; [constructor|]. intros i. simpl. split; [lia|].
    intros (r & Hr & _). by apply elem_of_nil in Hr.
  - subst es. apply consecutive_app in Hc as [Hc1 Hc2]. rewrite length_app, Nat2Z.inj_add in *.
    destruct (IH _ _ eq_refl Hc2) as (rs & Hrs & Hcov); [lia..|].
    exists (mkRange a (a + Z.of_nat (length run)) :: rs). split.
    + constructor; [|done]. by eapply file_of_range; [| |lia|lia].
    + intros i. split.
      * intros Hi. destruct (decide (i < a + Z.of_nat (length run))).
        -- exists (mkRange a (a + Z.of_nat (length run))). split; [by left|simpl; lia].
        -- destruct (proj1 (Hcov i)) as (r & Hr & Hir); [lia|]. exists r. split; [by right|done].
      * intros (r & [->|Hr]%elem_of_cons & Hir); simpl in *; [lia|].
        pose proof (proj2 (Hcov i)) as Hb. assert (a + Z.of_nat (length run) <= i) by (apply Hb; eauto).
        assert (i < a + Z.of_nat (length run) + Z.of_nat (length (concat (map (fun f => f.1.1) fs)))); [|lia].
        apply Hb; eauto.
Qed.

End BatchSpec.

(** The names of the archiver are acceptable to both writers. *)
Lemma part_path_clean Root day n m a b :
  0 <= n <= max_int64 -> 0 <= m <= max_int64 -> encodeBase36 n = Ok a -> encodeBase36 m = Ok b ->
  clean (Join Root (part_path day a b)) = true /\ clean (Join Root (gz_path (part_path day a b))) = true.
Proof.
  intros Hn Hm Ha Hb. destruct (encode_spec n (proj2 Hn)) as (s & Hs & Hd & _ & Hlen & _).
  rewrite Ha in Hs. injection Hs as <-.
  pose proof (digits36_no_slash n a Hn Ha) as Hsa. pose proof (digits36_no_slash m b Hm Hb) as Hsb.
  assert (Hfirst : forall t, has_prefix (a +:+ t) ".tmp-" = false).
  { intros t. destruct a as [|c a]; [simpl in Hlen; lia|]. cbn [str_forallb] in Hd.
    apply andb_true_iff in Hd as [Hc _]. unfold has_prefix. cbn [String.prefix String.append].
    destruct (ascii_dec "." c) as [<-|]; [by vm_compute in Hc|done]. }
  assert (Hclean : forall ext, ext = "" \/ ext = ".gz" ->
            clean (Join (Join Root day) (partition_name a b ext)) = true).
  { intros ext Hext. unfold clean. apply andb_true_iff. split; apply negb_true_iff.
    - assert (Join (Join Root day) (partition_name a b ext)
              = ((Join Root day +:+ "/" +:+ a +:+ "-" +:+ b) +:+ (".binpb" +:+ ext))%string) as ->
        by (unfold Join, partition_name; rewrite !str_app_assoc; done).
      by destruct Hext as [->| ->]; rewrite has_suffix_app_le by (simpl; lia).
    - rewrite Base_Join; [apply Hfirst|]. unfold partition_name. rewrite str_forallb_app, Hsa.
      cbn [str_forallb]. rewrite str_forallb_app, Hsb. by destruct Hext as [->| ->]. }
  split.
  - rewrite <- (Hclean "") by auto. f_equal. unfold part_path, Join. by rewrite !str_app_assoc.
  - rewrite <- (Hclean ".gz") by auto. f_equal. unfold gz_path, part_path, Join, partition_name.
    rewrite !str_app_assoc. cbn [String.append]. by rewrite !str_app_assoc.
Qed.

(** ** Properties *)

(** C6. What a batch leaves on disk, for every writer that keeps its promise and
    for every sequence of failing, torn or crashing system calls: each path that
    changed holds the complete file of a consecutive run of the batch; when
    writeBatch succeeds, the batch is cut into single-day runs, all of them are
    on disk under their own names, and the index ranges parsed back from the
    names cover exactly the indices of the batch. *)
Theorem write_batch_durable (net : bytes -> res bytes) (W : Writer)
  (stored : world -> string -> option bytes) (present ready : world -> string -> Prop)
  (ok_path : string -> Prop) (ok_data : bytes -> Prop)
  (Hlaws : WriterLaws W stored present ready ok_path ok_data)
  (marshal : list RawLogEntry -> res bytes) (gran : granularity)
  (Hpath : forall day n m a b, 0 <= n <= max_int64 -> 0 <= m <= max_int64 ->
     encodeBase36 n = Ok a -> encodeBase36 m = Ok b -> ok_path (part_path day a b))
  (Hdata : forall run d, marshal run = Ok d -> ok_data d)
  (b : entryBatch) (a : Z) (w w' : world) (r : res unit)
  (Hc : consecutive a (eb_entries b)) (Ha : 0 <= a)
  (Hmax : a + Z.of_nat (length (eb_entries b)) <= max_int64)
  (Hrun : FileSys.run net (writeBatch marshal gran (fun _ => Ret (Ok tt)) b) w = (r, w')) :
  only_runs (stored := stored) (ok_path := ok_path) marshal gran a (eb_entries b) w w' /\
  (r = Ok tt -> exists fs rs,
     stored_runs (stored := stored) marshal gran w' (eb_entries b) fs /\
     Forall2 (fun f rg => parseRangeFromName (Base f.1.2) = Some rg) fs rs /\
     forall i, a <= i < a + Z.of_nat (length (eb_entries b)) <-> exists rg, rg ∈ rs /\ rstart rg <= i < rend rg).
Proof.
  destruct (writeBatch_spec net marshal gran Hpath Hdata b a w r w' Hc Ha Hmax Hrun) as [Ho Hok].
  split; [done|]. intros Hr. destruct (Hok Hr) as [fs Hfs].
  destruct (stored_runs_ranges marshal gran w' _ fs a Hfs Hc Ha Hmax) as (rs & H1 & H2). by exists fs, rs.
Qed.

(** Partition directories are UTC days, or UTC hours: two timestamps between
    the years 0 and 9999 share a directory exactly when they fall in the same
    day (hour). *)
Theorem leaf_day_partition (g : granularity) (t1 t2 : Z) (H1 : ms_range t1) (H2 : ms_range t2) :
  leafDay t1 g = leafDay t2 g <->
  match g with
  | GRAN_DAY => t1 / 86400000 = t2 / 86400000
  | GRAN_HOUR => t1 / 3600000 = t2 / 3600000
  end.
Proof.
  unfold ms_range in *. destruct g; cbn [leafDay].
  - split; [by apply format_date_inj|by intros ->].
  - assert (Hq : forall t, t / 3600000 = 24 * (t / 86400000) + t mod 86400000 / 3600000 /\
                0 <= t mod 86400000 / 3600000 < 24) by (intros t; div_lia).
    destruct (Hq t1) as [E1 B1], (Hq t2) as [E2 B2]. unfold Join. split.
    + intros H. apply str_app_inj_len in H as [Hd H]; [|by rewrite !format_date_spec].
      injection H as H. apply format_date_inj in Hd; [|done..]. apply pad_int_inj in H; lia.
    + intros H. assert (t1 / 86400000 = t2 / 86400000) as -> by lia.
      by assert (t1 mod 86400000 / 3600000 = t2 mod 86400000 / 3600000) as -> by lia.
Qed.

(** ** Witnesses *)

Definition sample_marshal (es : list RawLogEntry) : res bytes := Ok (es ≫= fun e => be_bytes 8 (re_Index e)).
Definition sample_raw (i ts : Z) : RawLogEntry := mkEntry i ts 0 0 [] [] [] [].
(** The first entry falls on 2024-02-29, the other two on 2024-03-01. *)
Definition sample_batch : entryBatch :=
  mkBatch [sample_raw 100 1709251199999; sample_raw 101 1709251200000; sample_raw 102 1709251200001] [].
Definition quiet_world : world := mkWorld ∅ ∅ [] 0 [] ∅ 0 0 [] 0 0 (-1) (-1).

Lemma write_batch_durable_witness :
  exists fs rs, stored_runs (stored := fs_stored "data") sample_marshal GRAN_DAY
      (run Ok (@writeBatch (LocalFSWriter "data") sample_marshal GRAN_DAY (fun _ => Ret (Ok tt)) sample_batch) quiet_world).2
      (eb_entries sample_batch) fs /\
    Forall2 (fun f rg => parseRangeFromName (Base f.1.2) = Some rg) fs rs /\
    forall i, 100 <= i < 103 <-> exists rg, rg ∈ rs /\ rstart rg <= i < rend rg.
Proof.
  refine (proj2 (write_batch_durable Ok (LocalFSWriter "data") _ _ _ _ _ (LocalFS_laws "data")
    sample_marshal GRAN_DAY _ (fun _ _ _ => I) sample_batch 100 quiet_world _ (Ok tt) _ _ _ _) eq_refl).
  - intros day n m a b Hn Hm Ha Hb. apply (part_path_clean "data" day n m a b Hn Hm Ha Hb).
  - reflexivity.
  - lia.
  - vm_compute. discriminate.
  - vm_compute. reflexivity.
Defined.

Example sample_files :
  elements (dom (files (run Ok (@writeBatch (LocalFSWriter "data") sample_marshal GRAN_DAY
    (fun _ => Ret (Ok tt)) sample_batch) quiet_world).2))
  = ["data/2024-03-01/2t-2u.binpb"; "data/2024-02-29/2s-2s.binpb"].
Proof. vm_compute. reflexivity. Qed.

Lemma leaf_day_partition_witness :
  leafDay 1709251199999 GRAN_DAY = leafDay 1709200000000 GRAN_DAY <->
  1709251199999 / 86400000 = 1709200000000 / 86400000.
Proof.
  apply (leaf_day_partition GRAN_DAY 1709251199999 1709200000000);
    unfold ms_range, day_range; vm_compute; split; congruence.
Defined.
