(* ===== verification/Regexp.v ===== *)
(** The part of Go's regexp that cmd/monitor uses: concatenations of literals and
    of repeated, possibly captured, character classes, searched leftmost-first.
    On UTF-8 the byte-wise matcher finds the same captures, since no pattern can
    stop inside a rune: a class has all bytes above 127 or none of them, and what
    follows a repetition begins with an ASCII literal. *)

From S2P Require Import Prelude GoStd.

(** ** Definitions *)

Inductive item :=
| Lit (s : string)
| One (f : ascii -> bool)                                        (* \d *)
| Many (cap greedy : bool) (least : nat) (f : ascii -> bool).    (* f* f+ f+? (f+) (f+?) *)

Definition matcher := string -> option (list string).

(** [f] at least [least] times, as often as possible or as rarely as possible,
    then [k]; with the text that was taken. *)
Fixpoint repeat_class (greedy : bool) (least : nat) (f : ascii -> bool) (k : matcher) (s : string) : option (string * list string) :=
  let stop := match least with O => pair "" <$> k s | S _ => None end in
  let more := match s with
              | String c s' => if f c then prod_map (String c) id <$> repeat_class greedy (pred least) f k s' else None
              | "" => None
              end in
  if greedy then match more with Some r => Some r | None => stop end
  else match stop with Some r => Some r | None => more end.

(** A match at the start of [s]: the captures, leftmost first. *)
Fixpoint match_here (r : list item) : matcher :=
  match r with
  | [] => fun _ => Some []
  | Lit l :: r => fun s => if String.prefix l s then match_here r (str_drop (Z.of_nat (String.length l)) s) else None
  | One f :: r => fun s => match s with String c s' => if f c then match_here r s' else None | "" => None end
  | Many cap greedy least f :: r => fun s =>
      (fun p => if cap then p.1 :: p.2 else p.2) <$> repeat_class greedy least f (match_here r) s
  end.

(** [FindStringSubmatch], without the whole match. *)
Fixpoint find (r : list item) (s : string) : option (list string) :=
  match match_here r s with
  | Some m => Some m
  | None => match s with "" => None | String _ s' => find r s' end
  end.

(** *** The classes *)

Definition re_space (c : ascii) : bool := bool_decide (c ∈ [" "; "009"; "010"; "012"; "013"]%char).
Definition not_space (c : ascii) : bool := negb (re_space c).
Definition digit_or (c : ascii) : ascii -> bool := fun d => is_digit d || Ascii.eqb d c.
Definition no_char (c : ascii) : ascii -> bool := fun d => negb (Ascii.eqb d c).
Definition any : ascii -> bool := no_char "010".

(** \[\d{2}:\d{2}:\d{2}\] *)
Definition re_clock : list item :=
  [Lit "["; One is_digit; One is_digit; Lit ":"; One is_digit; One is_digit; Lit ":"; One is_digit; One is_digit; Lit "] "].

(** ** Lemmas *)

(** Some character does not satisfy [f]: what a maximal run of [f] stops at. *)
Definition stops (f : ascii -> bool) (s : string) : Prop :=
  match s with "" => True | String c _ => f c = false end.

(** A greedy repetition takes the whole run when what follows matches there. *)
Lemma repeat_greedy f k run rest m least :
  str_forallb f run = true -> (least <= String.length run)%nat -> stops f rest -> k rest = Some m ->
  repeat_class true least f k (run +:+ rest) = Some (run, m).
Proof.
  intros Hf Hl Hs Hk. revert least Hl. induction run as [|c run IH]; intros least Hl.
  - cbn in Hl. assert (least = O) as -> by lia. cbn [String.append].
    destruct rest as [|c rest]; cbn [repeat_class]; [by rewrite Hk|]. cbn in Hs. by rewrite Hs, Hk.
  - cbn in Hf. apply andb_prop in Hf as [Hc Hf]. cbn in Hl. cbn [String.append repeat_class]. rewrite Hc.
    rewrite (IH Hf (pred least)) by lia. done.
Qed.

(** A lazy repetition that cannot stop inside the run takes it whole. *)
Lemma repeat_lazy f k run rest m least :
  str_forallb f run = true -> (least <= String.length run)%nat -> k rest = Some m ->
  (forall a b, (a +:+ b)%string = run -> b <> "" -> k (b +:+ rest) = None) ->
  repeat_class false least f k (run +:+ rest) = Some (run, m).
Proof.
  intros Hf Hl Hk. revert least Hl. induction run as [|c run IH]; intros least Hl Hno.
  - cbn in Hl. assert (least = O) as -> by lia. cbn [String.append].
    destruct rest as [|c rest]; cbn [repeat_class]; by rewrite Hk.
  - cbn in Hf. apply andb_prop in Hf as [Hc Hf]. cbn in Hl. cbn [String.append repeat_class]. rewrite Hc.
    assert (Hr : repeat_class false (pred least) f k (run +:+ rest) = Some (run, m)).
    { apply IH; [done|lia|]. intros a b <- Hb. by apply (Hno (String c a) b). }
    rewrite Hr. pose proof (Hno "" (String c run) eq_refl ltac:(done)) as Hk0. cbn [String.append] in Hk0.
    rewrite Hk0. by destruct least.
Qed.

Lemma match_lit l r s : match_here (Lit l :: r) (l +:+ s) = match_here r s.
Proof. cbn [match_here]. by rewrite prefix_app, str_drop_app. Qed.

Lemma match_lit1 c r s : match_here (Lit (String c "") :: r) (String c s) = match_here r s.
Proof. apply (match_lit (String c "")). Qed.

Lemma match_one f r c s : f c = true -> match_here (One f :: r) (String c s) = match_here r s.
Proof. intros Hc. cbn [match_here]. by rewrite Hc. Qed.

Lemma match_many cap least f r run rest m :
  str_forallb f run = true -> (least <= String.length run)%nat -> stops f rest -> match_here r rest = Some m ->
  match_here (Many cap true least f :: r) (run +:+ rest) = Some (if cap then run :: m else m).
Proof. intros Hf Hl Hs Hk. cbn [match_here]. by rewrite (repeat_greedy f _ run rest m). Qed.

(** The regexp begins with the character [c]. *)
Definition begins (c : ascii) (r : list item) : Prop :=
  match r with Lit (String d _) :: _ => c = d | _ => False end.

Lemma prefix_cons c l d s : String.prefix (String c l) (String d s) = Ascii.eqb c d && String.prefix l s.
Proof. cbn [String.prefix]. destruct (ascii_dec c d) as [->|Hn]; [by rewrite Ascii.eqb_refl|]. by rewrite (proj2 (Ascii.eqb_neq c d) Hn). Qed.

(** A prefix without the first character of a regexp is skipped. *)
Lemma find_skip c r a s : begins c r -> str_forallb (no_char c) a = true -> find r (a +:+ s) = find r s.
Proof.
  intros Hb. induction a as [|d a IH]; [done|]. cbn [str_forallb String.append]. intros [Hd Ha]%andb_prop.
  cbn [find]. destruct r as [|[[|c' l]| |] r]; try done. cbn in Hb. subst c'. cbn [match_here]. rewrite prefix_cons.
  unfold no_char in Hd. rewrite Ascii.eqb_sym. apply negb_true_iff in Hd. rewrite Hd. cbn [andb]. by apply IH.
Qed.

Lemma find_none c r s : begins c r -> str_forallb (no_char c) s = true -> find r s = None.
Proof.
  intros Hb Hs. rewrite <- (str_app_nil_r s), (find_skip c r s "" Hb Hs).
  by destruct r as [|[[|c' l]| |] r].
Qed.

Lemma find_here r s m : match_here r s = Some m -> find r s = Some m.
Proof. intros H. destruct s; cbn [find]; by rewrite H. Qed.

(** *** [strings.Contains] *)

Lemma contains_here l s : contains (l +:+ s) l = true.
Proof. destruct (l +:+ s)%string eqn:E; cbn [contains]; by rewrite <- E, prefix_app. Qed.

Lemma contains_app_l a s l : contains s l = true -> contains (a +:+ s) l = true.
Proof. induction a as [|c a IH]; [done|]. intros H. cbn [String.append contains]. by rewrite (IH H), orb_true_r. Qed.

(** A text without some character of [l] does not contain [l]. *)
Lemma contains_missing c s l :
  str_forallb (no_char c) s = true -> str_forallb (no_char c) l = false -> contains s l = false.
Proof.
  intros Hs Hl. assert (Hp : forall s, str_forallb (no_char c) s = true -> String.prefix l s = false).
  { clear s Hs. induction l as [|d l IH]; [done|]. intros [|e s]; [done|]. rewrite prefix_cons. cbn [str_forallb] in *.
    intros [He Hs]%andb_prop. destruct (Ascii.eqb_spec d e) as [->|]; [|done]. rewrite He in Hl. by apply IH. }
  induction s as [|d s IH]; cbn [contains]; rewrite Hp by done; [done|]. cbn in Hs. apply andb_prop in Hs as [_ Hs]. by apply IH.
Qed.

Lemma prefix_sep c l a b :
  str_forallb (no_char c) l = true -> String.prefix l (a +:+ String c b) = String.prefix l a.
Proof.
  revert a. induction l as [|d l IH]; intros a; [by destruct a, b|]. cbn [str_forallb]. intros [Hd Hl]%andb_prop.
  destruct a as [|e a]; cbn [String.append]; rewrite !prefix_cons.
  - apply negb_true_iff in Hd. by rewrite Hd.
  - by rewrite IH.
Qed.

(** A separator that is no character of [l] cuts the search in two. *)
Lemma contains_sep c a b l :
  str_forallb (no_char c) l = true -> l <> "" -> contains (a +:+ String c b) l = contains a l || contains b l.
Proof.
  intros Hl Hne. induction a as [|d a IH].
  - cbn [String.append contains]. rewrite (prefix_sep c l "" b Hl : String.prefix l (String c b) = _). by destruct l.
  - cbn [String.append]. cbn [contains]. rewrite IH. change (String d (a +:+ String c b)) with (String d a +:+ String c b)%string.
    by rewrite prefix_sep, orb_assoc.
Qed.

Lemma forallb_app f a b : str_forallb f a = true -> str_forallb f b = true -> str_forallb f (a +:+ b) = true.
Proof. intros Ha Hb. by rewrite str_forallb_app, Ha, Hb. Qed.

Lemma not_digit_stops c s : is_digit c = false -> stops is_digit (String c s).
Proof. done. Qed.
