(* ===== verification/Float.v ===== *)
(** Go's float64 on the binary64 arithmetic of the Standard Library, with the
    conversions the program uses: from an integer, to fixed decimals (%.nf) and
    from decimal digits (strconv.ParseFloat). *)

From Stdlib Require Export Floats.SpecFloat.
From S2P Require Import Prelude GoStd Partition Regexp.

(** ** Definitions *)

Definition float64 := spec_float.

Definition of_int (z : Z) : float64 := binary_normalize 53 1024 z 0 false.
Definition fmul : float64 -> float64 -> float64 := SFmul 53 1024.
Definition fdiv : float64 -> float64 -> float64 := SFdiv 53 1024.
Definition fsub : float64 -> float64 -> float64 := SFsub 53 1024.

(** [a]/[b] to the nearest integer, ties to even; [b] is positive. *)
Definition div_even (a b : Z) : Z :=
  let q := a / b in
  match 2 * (a mod b) ?= b with Lt => q | Gt => q + 1 | Eq => if Z.even q then q else q + 1 end.

(** The integer nearest to m * 2^e * 10^n. *)
Definition scaled (n : nat) (m : positive) (e : Z) : Z :=
  let a := Zpos m * 10 ^ Z.of_nat n in
  if 0 <=? e then a * 2 ^ e else div_even a (2 ^ (- e)).

(** q * 10^-n in decimals. *)
Definition decimals (n : nat) (q : Z) : string :=
  let p := 10 ^ Z.of_nat n in
  match n with
  | O => dec q
  | _ => dec (q / p) +:+ "." +:+ pad_int n (q mod p)
  end.

(** %.nf *)
Definition fixed (n : nat) (x : float64) : string :=
  match x with
  | S754_nan => "NaN"
  | S754_infinity s => if s then "-Inf" else "+Inf"
  | S754_zero s => (if s then "-" else "") +:+ decimals n 0
  | S754_finite s m e => (if s then "-" else "") +:+ decimals n (scaled n m e)
  end.

(** [strconv.ParseFloat] on digits and dots, with its error ignored: zero for
    what is no number, infinity for what is too large. *)
Definition parse_float (s : string) : float64 :=
  let i := index_byte s "." in
  let whole := if i <? 0 then s else str_take i s in
  let frac := if i <? 0 then "" else str_drop (i + 1) s in
  if str_forallb is_digit whole && str_forallb is_digit frac && negb (String.eqb (whole +:+ frac) "") then
    match dec_val 0 (whole +:+ frac) with
    | Zpos m => fdiv (S754_finite false m 0) (S754_finite false (Z.to_pos (10 ^ Z.of_nat (String.length frac))) 0)
    | _ => S754_zero false
    end
  else S754_zero false.

Definition non_negative (x : float64) : bool :=
  match x with S754_zero false | S754_finite false _ _ => true | _ => false end.

(** ** Lemmas *)

Lemma div_even_nonneg a b : 0 <= a -> 0 < b -> 0 <= div_even a b.
Proof. intros Ha Hb. unfold div_even. pose proof (Z.div_pos a b Ha Hb). destruct (_ ?= _); [destruct (Z.even _)|..]; lia. Qed.

Lemma scaled_nonneg n m e : 0 <= scaled n m e.
Proof.
  unfold scaled. assert (0 < 10 ^ Z.of_nat n) by (apply Z.pow_pos_nonneg; lia).
  destruct (Z.leb_spec 0 e).
  - assert (0 < 2 ^ e) by (apply Z.pow_pos_nonneg; lia). nia.
  - assert (0 < 2 ^ - e) by (apply Z.pow_pos_nonneg; lia). apply div_even_nonneg; nia.
Qed.


Lemma pad_digits n z : 0 <= z -> str_forallb is_digit (pad_int n z) = true.
Proof.
  intros Hz. unfold pad_int. destruct (Z.ltb_spec z 0); [lia|]. cbn [String.append].
  rewrite str_forallb_app, dec_digits by lia. rewrite andb_true_r. generalize (n - String.length (dec (Z.abs z)))%nat.
  intros k. by induction k.
Qed.

Lemma decimals_class n q : 0 <= q -> str_forallb (digit_or ".") (decimals n q) = true.
Proof.
  intros Hq. assert (0 < 10 ^ Z.of_nat n) by (apply Z.pow_pos_nonneg; lia).
  assert (Hd : forall z, 0 <= z -> str_forallb (digit_or ".") (dec z) = true).
  { intros z Hz. eapply str_forallb_impl; [|by apply dec_digits]. intros c Hc. unfold digit_or. by rewrite Hc. }
  unfold decimals. destruct n; [by apply Hd|]. apply forallb_app; [apply Hd, Z.div_pos; lia|]. apply forallb_app; [done|].
  eapply str_forallb_impl; [|apply pad_digits, Z.mod_pos_bound; lia]. intros c Hc. unfold digit_or. by rewrite Hc.
Qed.

Lemma decimals_nonempty n q : 0 <= q -> (1 <= String.length (decimals n q))%nat.
Proof.
  intros Hq. unfold decimals. destruct n as [|n].
  - pose proof (dec_nonempty q Hq). destruct (dec q); [done|cbn; lia].
  - rewrite !str_length_app. cbn. lia.
Qed.

(** A number that is not negative prints as digits and a dot. *)
Lemma fixed_class n x : non_negative x = true -> str_forallb (digit_or ".") (fixed n x) = true.
Proof. destruct x as [[]| | |[] m e]; intros H; try discriminate H; apply decimals_class; [done|]. apply scaled_nonneg. Qed.

Lemma fixed_nonempty n x : non_negative x = true -> (1 <= String.length (fixed n x))%nat.
Proof. destruct x as [[]| | |[] m e]; intros H; try discriminate H; apply decimals_nonempty; [done|]. apply scaled_nonneg. Qed.

(** No printed number has a closing parenthesis. *)
Lemma fixed_no_paren n x : str_forallb (no_char ")") (fixed n x) = true.
Proof.
  assert (Hd : forall q, 0 <= q -> str_forallb (no_char ")") (decimals n q) = true).
  { intros q Hq. eapply str_forallb_impl; [|by apply decimals_class]. intros c Hc.
    unfold no_char. destruct (Ascii.eqb_spec c ")") as [->|]; [discriminate Hc|done]. }
  destruct x as [[]|[]| |[] m e]; try reflexivity; cbn [fixed String.append str_forallb]; try (apply Hd; lia || apply scaled_nonneg).
Qed.

(** ** Checks against Go *)

Example float_prints :
  fixed 1 (fdiv (of_int 1) (of_int 3)) = "0.3" /\ fixed 6 (fmul (fdiv (of_int 2) (of_int 3)) (of_int 100)) = "66.666667" /\
  fixed 0 (fdiv (of_int 5) (of_int 2)) = "2" /\ fixed 1 (fdiv (of_int (-1)) (of_int 4)) = "-0.2" /\
  fixed 1 (of_int 9223372036854775807) = "9223372036854775808.0" /\ fixed 1 (fdiv (of_int 0) (of_int 0)) = "NaN" /\
  fixed 1 (fdiv (of_int 1) (of_int 0)) = "+Inf".
Proof. vm_compute. done. Qed.

Example float_parses :
  parse_float "0.1" = fdiv (of_int 1) (of_int 10) /\ parse_float "12." = of_int 12 /\ parse_float "1.2.3" = S754_zero false /\
  parse_float "." = S754_zero false /\ parse_float "3" = of_int 3.
Proof. vm_compute. done. Qed.
