(* ===== verification/Issuers.v ===== *)
(** internal/ctv2/issuer_store.go: the shared, content-addressed store of issuer
    certificates that partition files refer to by fingerprint. *)

From S2P Require Import Prelude GoStd Sha256 Base36 Coverage FileSys Writer Partition.

(** ** Definitions *)

Definition issuerDir : string := "issuers".

Definition issuerStorePath (hash : bytes) : string :=
  Join issuerDir (hex_encode hash +:+ ".der").

(** The distinct 32-byte fingerprints of the entries. *)
Definition local_fps (entries : list RawLogEntry) : gset bytes :=
  list_to_set (filter (fun fp => length fp = 32%nat) (entries ≫= re_ChainFingerprints)).

Section IssuerStore.

Context {W : Writer}.
(** Whether a resolver is configured (static-ct-api). *)
Variable has_resolver : bool.
(** Go's map iteration order. *)
Variable map_order : gset bytes -> list bytes.

(** One fingerprint of resolveFromEntries. *)
Definition resolve_one (fp : bytes) : prog unit :=
  let! known := call (SeenAdd fp) in
  if known then Ret tt else
  let rel := issuerStorePath fp in
  let! h := Has rel in
  match h with
  | Ok true => Ret tt
  | _ =>
      let! der := call (Resolve fp) in
      let! r := match der with
                | Ok der => PutIfAbsent rel der
                | Err e => Ret (Err e)
                | Panic => Ret Panic
                end in
      match r with
      | Ok _ => call NoteFetched
      | Err e => call (NoteFailed (hex_encode fp +:+ ": " +:+ error_text e))
      | Panic => Ret tt (* neither the endpoint call nor a writer panics *)
      end
  end.

Fixpoint resolve_loop (fps : list bytes) : prog unit :=
  match fps with
  | [] => Ret tt
  | fp :: fps' =>
      let! done := call CtxErr in
      if done then Ret tt else
      let! _ := resolve_one fp in resolve_loop fps'
  end.

Definition resolveFromEntries (entries : list RawLogEntry) : prog unit :=
  resolve_loop (map_order (local_fps entries)).

(** [put]: write the chain certs that were not seen yet. *)
Fixpoint put_chains (certs : list chainCert) : prog (res unit) :=
  match certs with
  | [] => Ret (Ok tt)
  | c :: certs' =>
      let! known := call (SeenAdd (cc_hash c)) in
      if known then put_chains certs' else
      let! r := PutIfAbsent (issuerStorePath (cc_hash c)) (cc_der c) in
      match r with
      | Ok _ => put_chains certs'
      | e => let! _ := call (SeenDelete (cc_hash c)) in Ret e
      end
  end.

Definition ingest (b : entryBatch) : prog (res unit) :=
  try! _ := match eb_chains b with [] => Ret (Ok tt) | cs => put_chains cs end in
  if has_resolver then let! _ := resolveFromEntries (eb_entries b) in Ret (Ok tt)
  else Ret (Ok tt).

End IssuerStore.

(** ** Specification *)

Section IssuerSpec.

Context (net : bytes -> res bytes).
Context {W : Writer} {stored : world -> string -> option bytes}
  {present ready : world -> string -> Prop} {ok_path : string -> Prop} {ok_data : bytes -> Prop}
  `{!WriterLaws W stored present ready ok_path ok_data}.

Hypothesis Hpath : forall h, ok_path (issuerStorePath h).
Hypothesis Hdata : forall d, ok_data d.
(** Content addressing, and the promise of the [seen] set. *)
Definition store_sound (w : world) : Prop :=
  forall h d, stored w (issuerStorePath h) = Some d -> sha256 d = h.

Definition seen_present (w : world) : Prop :=
  forall h, h ∈ seen w -> present w (issuerStorePath h).

Definition chains_ok (cs : list chainCert) : Prop := Forall (fun c => cc_hash c = sha256 (cc_der c)) cs.

Lemma issuerStorePath_inj h h' : issuerStorePath h = issuerStorePath h' -> h = h'.
Proof.
  unfold issuerStorePath, Join. intros H. apply str_app_inj_l, str_app_inj_l, str_app_inj_r in H.
  by apply hex_encode_inj.
Qed.

(** What one step of the archiver may do to the issuer store. *)
Definition issuer_step (w w' : world) : Prop :=
  (store_sound w -> store_sound w') /\
  (forall q, ok_path q -> present w q -> present w' q).

Lemma issuer_step_trans w1 w2 w3 : issuer_step w1 w2 -> issuer_step w2 w3 -> issuer_step w1 w3.
Proof. intros [H1 H2] [H3 H4]. split; auto. Qed.

Lemma issuer_step_quiet w w' : files w' = files w -> dirs w' = dirs w -> issuer_step w w'.
Proof.
  intros Hf Hd. split.
  - intros Hs h d. rewrite (stored_files w w') by done. apply Hs.
  - intros q _. by apply present_files.
Qed.

Lemma put_one h d w r w' :
  sha256 d = h -> FileSys.run net (PutIfAbsent (issuerStorePath h) d) w = (r, w') ->
  issuer_step w w' /\ (r = Ok tt -> present w' (issuerStorePath h)) /\ seen w' = seen w /\
  (forall q, ok_path q -> q <> issuerStorePath h -> stored w' q = stored w q).
Proof.
  intros Hh Hr. pose proof (put_absent_atomic net _ _ _ _ _ (Hpath h) (Hdata d) Hr) as Hat.
  assert (Hkeep : forall q, ok_path q -> present w q -> present w' q)
    by (intros q Hq; by apply (put_absent_keeps net _ _ _ _ _ _ (Hpath h) (Hdata d) Hr)).
  split; [split; [|done]|split; [|split]].
  - intros Hs h' d' Hd'. destruct (Hat _ (Hpath h')) as [He|[He1 He2]].
    + apply Hs. congruence.
    + apply issuerStorePath_inj in He1 as ->. congruence.
  - intros ->. destruct (put_absent_ok net _ _ _ _ (Hpath h) (Hdata d) Hr) as [Hd|[_ Hp]].
    + apply stored_present. by eexists.
    + by apply Hkeep.
  - eapply run_seen; [|exact Hr]. apply put_absent_no_seen.
  - intros q Hq Hne. by destruct (Hat q Hq) as [?|[? _]].
Qed.

(** The chain certificates of a batch: sound, remembered, and on disk when the
    call succeeds; nothing but issuer files changes. *)
Lemma put_chains_spec cs w r w' :
  chains_ok cs -> seen_present w -> FileSys.run net (put_chains cs) w = (r, w') ->
  issuer_step w w' /\ seen_present w' /\
  (r = Ok tt -> forall c, c ∈ cs -> present w' (issuerStorePath (cc_hash c))) /\
  (forall q, ok_path q -> (forall h, q <> issuerStorePath h) -> stored w' q = stored w q).
Proof.
  intros Hcs. revert w. induction Hcs as [|c cs Hc _ IH]; intros w Hseen.
  - cbn. intros [= <- <-]. split; [by apply issuer_step_quiet|]. split; [done|]. split; [|done].
    intros _ c Hc. by apply elem_of_nil in Hc.
  - cbn [put_chains]. unfold call at 1. cbn [bind_prog FileSys.run exec].
    set (w0 := set_seen ({[cc_hash c]} ∪ seen w) w).
    assert (H0 : issuer_step w w0) by by apply issuer_step_quiet.
    assert (Hst0 : forall q, stored w0 q = stored w q) by (intros q; by apply stored_files).
    case_bool_decide as Hk.
    + intros H. apply IH in H as (Hs & Hsp & Hok & Hfr).
      2: { intros h Hh. assert (h ∈ seen w) by (revert Hh; unfold w0; simpl; set_solver).
           apply H0; [apply Hpath|by apply Hseen]. }
      split; [by eapply issuer_step_trans|]. split; [done|]. split.
      * intros Hr c' [->|Hc']%elem_of_cons; [|by apply Hok].
        apply Hs; [apply Hpath|]. apply H0; [apply Hpath|]. by apply Hseen.
      * intros q Hq Hne. by rewrite Hfr, Hst0.
    + rewrite run_bind.
      destruct (FileSys.run net (PutIfAbsent _ _) w0) as [r1 w1] eqn:E1. symmetry in Hc.
      destruct (put_one _ _ _ _ _ Hc E1) as (H1 & Hp1 & Hseen1 & Hfr1).
      assert (H01 : issuer_step w w1) by by eapply issuer_step_trans.
      assert (Hold : forall h, h ∈ seen w1 -> h <> cc_hash c -> present w1 (issuerStorePath h)).
      { intros h Hh Hne. rewrite Hseen1 in Hh. assert (h ∈ seen w) by (revert Hh; unfold w0; simpl; set_solver).
        apply H01; [apply Hpath|by apply Hseen]. }
      destruct r1 as [[]|e|].
      * intros H. apply IH in H as (Hs & Hsp & Hok & Hfr).
        2: { intros h Hh. destruct (decide (h = cc_hash c)) as [->|]; [by apply Hp1|by apply Hold]. }
        split; [by eapply issuer_step_trans|]. split; [done|]. split.
        -- intros Hr c' [->|Hc']%elem_of_cons; [|by apply Hok]. apply Hs; [apply Hpath|by apply Hp1].
        -- intros q Hq Hne. by rewrite Hfr, Hfr1, Hst0.
      * unfold call. cbn [bind_prog FileSys.run exec]. intros [= <- <-].
        set (w2 := set_seen _ w1). assert (H2 : issuer_step w1 w2) by by apply issuer_step_quiet.
        split; [by eapply issuer_step_trans|]. split; [|split; [done|]].
        -- intros h Hh. apply H2; [apply Hpath|]. apply Hold; revert Hh; unfold w2; simpl; set_solver.
        -- intros q Hq Hne. rewrite (stored_files w1 w2) by done. by rewrite Hfr1, Hst0.
      * unfold call. cbn [bind_prog FileSys.run exec]. intros [= <- <-].
        set (w2 := set_seen _ w1). assert (H2 : issuer_step w1 w2) by by apply issuer_step_quiet.
        split; [by eapply issuer_step_trans|]. split; [|split; [done|]].
        -- intros h Hh. apply H2; [apply Hpath|]. apply Hold; revert Hh; unfold w2; simpl; set_solver.
        -- intros q Hq Hne. rewrite (stored_files w1 w2) by done. by rewrite Hfr1, Hst0.
Qed.

(** *** The store keeps off every other path *)

Definition issuer_frame (w w' : world) : Prop :=
  forall q, ok_path q -> (forall h, q <> issuerStorePath h) -> stored w' q = stored w q.

Lemma issuer_frame_trans w1 w2 w3 : issuer_frame w1 w2 -> issuer_frame w2 w3 -> issuer_frame w1 w3.
Proof. intros H1 H2 q Hq Hn. rewrite H2 by done. by apply H1. Qed.

Lemma issuer_frame_files w w' : files w' = files w -> issuer_frame w w'.
Proof. intros H q _ _. by apply stored_files. Qed.

Lemma put_absent_frame h d w r w' :
  FileSys.run net (PutIfAbsent (issuerStorePath h) d) w = (r, w') -> issuer_frame w w'.
Proof.
  intros Hr q Hq Hne. destruct (put_absent_atomic net _ _ _ _ _ (Hpath h) (Hdata d) Hr q Hq) as [?|[-> _]]; [done|].
  by destruct (Hne h).
Qed.

Lemma put_chains_frame cs w r w' : FileSys.run net (put_chains cs) w = (r, w') -> issuer_frame w w'.
Proof.
  revert w. induction cs as [|c cs IH]; intros w; cbn [put_chains]; [intros [= <- <-]; by apply issuer_frame_files|].
  unfold call at 1. cbn [bind_prog FileSys.run exec]. set (w0 := set_seen _ w).
  assert (H0 : issuer_frame w w0) by by apply issuer_frame_files.
  case_bool_decide as Hk; [intros H%IH; by eapply issuer_frame_trans|].
  rewrite run_bind. destruct (FileSys.run net (PutIfAbsent _ _) w0) as [r1 w1] eqn:E1.
  apply put_absent_frame in E1. assert (H1 : issuer_frame w w1) by by eapply issuer_frame_trans.
  destruct r1 as [[]|e|]; [intros H%IH; by eapply issuer_frame_trans|..];
    unfold call; cbn [bind_prog FileSys.run exec]; intros [= <- <-];
    (eapply issuer_frame_trans; [done|by apply issuer_frame_files]).
Qed.

Lemma exec_note_files {X} (o : op X) w x w' :
  match o with CtxErr | NoteFetched | NoteFailed _ | Resolve _ => True | _ => False end ->
  exec net o w = (x, w') -> files w' = files w.
Proof. destruct o; try done; cbn [exec]; intros _; try by intros [= <- <-]. destruct (ctxdone w); by intros [= <- <-]. Qed.

Lemma resolve_one_frame fp w r w' : FileSys.run net (resolve_one fp) w = (r, w') -> issuer_frame w w'.
Proof.
  unfold resolve_one. unfold call at 1. cbn [bind_prog FileSys.run exec]. set (w0 := set_seen _ w).
  assert (H0 : issuer_frame w w0) by by apply issuer_frame_files.
  case_bool_decide as Hk; [by intros [= <- <-]|]. rewrite run_bind.
  destruct (FileSys.run net (Has _) w0) as [rh w1] eqn:Eh.
  assert (H1 : issuer_frame w w1).
  { eapply issuer_frame_trans; [done|]. intros q _ _. by eapply has_frame. }
  assert (Hrest : FileSys.run net
     (let! der := call (Resolve fp) in
      let! r := match der with
                | Ok der => PutIfAbsent (issuerStorePath fp) der
                | Err e => Ret (Err e)
                | Panic => Ret Panic
                end in
      match r with
      | Ok _ => call NoteFetched
      | Err e => call (NoteFailed (hex_encode fp +:+ ": " +:+ error_text e))
      | Panic => Ret tt
      end) w1 = (r, w') -> issuer_frame w w').
  { unfold call at 1. cbn [bind_prog FileSys.run exec]. rewrite run_bind.
    destruct (FileSys.run net _ w1) as [rp w2] eqn:Ep.
    assert (H2 : issuer_frame w w2).
    { destruct (net fp) as [der|e|]; [|by simplify_eq/=..].
      eapply issuer_frame_trans; [done|by eapply put_absent_frame]. }
    destruct rp as [[]|e|]; [| |by intros [= <- <-]]; unfold call; cbn [FileSys.run exec]; intros [= <- <-];
      (eapply issuer_frame_trans; [done|by apply issuer_frame_files]). }
  destruct rh as [[]|e|]; [by intros [= <- <-]|exact Hrest..].
Qed.

Lemma resolve_loop_frame fps w r w' : FileSys.run net (resolve_loop fps) w = (r, w') -> issuer_frame w w'.
Proof.
  revert w. induction fps as [|fp fps IH]; intros w; cbn [resolve_loop].
  - intros [= <- <-]. by apply issuer_frame_files.
  - rewrite run_bind. destruct (FileSys.run net (call CtxErr) w) as [c w1] eqn:Ec.
    assert (H1 : issuer_frame w w1).
    { unfold call in Ec. cbn [FileSys.run] in Ec. destruct (exec net CtxErr w) eqn:Ee.
      injection Ec as <- <-. by apply issuer_frame_files, (exec_note_files CtxErr _ _ _ I Ee). }
    destruct c; [by intros [= <- <-]|]. rewrite run_bind.
    destruct (FileSys.run net (resolve_one fp) w1) as [[] w2] eqn:E2. apply resolve_one_frame in E2.
    intros H%IH. eapply issuer_frame_trans; [done|]. by eapply issuer_frame_trans.
Qed.

Lemma ingest_frame resolver map_order b w r w' :
  FileSys.run net (ingest resolver map_order b) w = (r, w') -> issuer_frame w w'.
Proof.
  unfold ingest, try_prog. rewrite run_bind.
  destruct (FileSys.run net _ w) as [rc w1] eqn:Ec.
  assert (H1 : issuer_frame w w1).
  { destruct (eb_chains b); [injection Ec as <- <-; by apply issuer_frame_files|by eapply put_chains_frame]. }
  destruct rc as [[]|e|]; [|by intros [= <- <-]..]. destruct resolver; [|by intros [= <- <-]].
  rewrite run_bind. destruct (FileSys.run net (resolveFromEntries _ _) w1) as [u w2] eqn:E2.
  intros [= <- <-]. eapply issuer_frame_trans; [done|]. by eapply resolve_loop_frame.
Qed.

(** *** Batches with their chains *)

Context (marshal : list RawLogEntry -> res bytes) (gran : granularity).
Hypothesis Hpart : forall day n m a b, 0 <= n <= max_int64 -> 0 <= m <= max_int64 ->
  encodeBase36 n = Ok a -> encodeBase36 m = Ok b -> ok_path (part_path day a b).

Definition index_ok (e : RawLogEntry) : Prop := 0 <= re_Index e <= max_int64.

Lemma part_not_issuer day a b h : part_path day a b <> issuerStorePath h.
Proof.
  intros H. apply (f_equal (fun s => has_suffix s ".der")) in H. revert H.
  unfold part_path, issuerStorePath, partition_name, Join.
  replace (day +:+ "/" +:+ a +:+ String "-" (b +:+ ".binpb" +:+ ""))%string
    with ((day +:+ "/" +:+ a +:+ "-" +:+ b) +:+ ".binpb")%string by (rewrite !str_app_assoc; done).
  replace (issuerDir +:+ "/" +:+ hex_encode h +:+ ".der")%string
    with ((issuerDir +:+ "/" +:+ hex_encode h) +:+ ".der")%string by (rewrite !str_app_assoc; done).
  rewrite has_suffix_app, has_suffix_app_le by (simpl; lia). done.
Qed.

(** A partition's bytes that hold entries whose fingerprints all have their issuer
    files, and what a step may leave behind: a sound store, nothing removed, and on
    every other path either what was there or such bytes. *)
Definition fps_present (w : world) (entries : list RawLogEntry) : Prop :=
  forall e fp, e ∈ entries -> fp ∈ re_ChainFingerprints e -> present w (issuerStorePath fp).

Definition backed (w : world) (d : bytes) : Prop := exists run, marshal run = Ok d /\ fps_present w run.

Definition closed_step (w w' : world) : Prop :=
  issuer_step w w' /\
  forall q d, ok_path q -> (forall h, q <> issuerStorePath h) -> stored w' q = Some d -> stored w q = Some d \/ backed w' d.

Lemma fps_present_step w w' entries : issuer_step w w' -> fps_present w entries -> fps_present w' entries.
Proof. intros [_ Hk] H e fp He Hf. apply Hk; [apply Hpath|by eapply H]. Qed.

Lemma closed_step_trans w1 w2 w3 : closed_step w1 w2 -> closed_step w2 w3 -> closed_step w1 w3.
Proof.
  intros [H1 C1] [H2 C2]. split; [by eapply issuer_step_trans|]. intros q d Hq Hn Hd.
  destruct (C2 q d Hq Hn Hd) as [Hd'|?]; [|by right]. destruct (C1 q d Hq Hn Hd') as [?|(run & E & Hp)]; [by left|].
  right. exists run. split; [done|]. by eapply fps_present_step.
Qed.

Lemma closed_step_frame w w' : issuer_step w w' -> issuer_frame w w' -> closed_step w w'.
Proof. intros H Hf. split; [done|]. intros q d Hq Hn Hd. left. by rewrite <- Hf. Qed.

Lemma closed_step_quiet w w' : files w' = files w -> dirs w' = dirs w -> closed_step w w'.
Proof. intros Hf Hd. apply closed_step_frame; [by apply issuer_step_quiet|by apply issuer_frame_files]. Qed.

Lemma writeRun_closed day run w r w' :
  Forall index_ok run -> fps_present w run -> FileSys.run net (writeRun marshal day run) w = (r, w') ->
  closed_step w w' /\ seen w' = seen w.
Proof.
  intros Hidx Hfps. unfold writeRun. assert (Hrefl : closed_step w w) by by apply closed_step_quiet.
  destruct run as [|e0 rest] eqn:Er; [by intros [= <- <-]|]. rewrite <- Er in *.
  destruct (last run) as [en|] eqn:El; [|by intros [= <- <-]].
  destruct (marshal run) as [data| |] eqn:Em; [|by intros [= <- <-]..].
  assert (index_ok e0) as Hi0 by (subst; by inversion Hidx).
  assert (index_ok en) as Hin by (rewrite Forall_forall in Hidx; by apply Hidx, last_Some_elem_of).
  destruct (encodeBase36 (re_Index e0)) as [sa| |] eqn:Ea; [|by intros [= <- <-]..].
  destruct (encodeBase36 (re_Index en)) as [sb| |] eqn:Eb; [|by intros [= <- <-]..].
  pose proof (Hpart day _ _ _ _ Hi0 Hin Ea Eb) as Hok.
  unfold try_prog. rewrite run_bind. destruct (FileSys.run net (Put _ data) w) as [rp w1] eqn:Ep.
  assert (Hsn : seen w1 = seen w) by (eapply run_seen; [|exact Ep]; apply put_no_seen).
  assert (H1 : issuer_step w w1).
  { split.
    - intros Hs h d Hd. apply Hs. destruct (put_atomic net _ _ _ _ _ Hok (Hdata data) Ep _ (Hpath h)) as [<-|[He _]];
        [done|]. by apply eq_sym, part_not_issuer in He.
    - intros q Hq. by apply (put_present net _ _ _ _ _ _ Hok (Hdata data) Ep). }
  assert (H1c : closed_step w w1).
  { split; [done|]. intros q d Hq Hn Hd. destruct (put_atomic net _ _ _ _ _ Hok (Hdata data) Ep q Hq) as [E|[_ E]]; [left; by rewrite <- E|].
    right. exists run. split; [congruence|]. by eapply fps_present_step. }
  destruct rp as [[]| |]; [|by intros [= <- <-]..].
  unfold call. cbn [bind_prog FileSys.run exec]. intros [= <- <-]. split; [|done].
  eapply closed_step_trans; [done|]. by apply closed_step_quiet.
Qed.

Lemma run_loop_closed rest acc day w r w' :
  Forall index_ok (acc ++ rest) -> fps_present w (acc ++ rest) ->
  FileSys.run net (run_loop marshal gran rest acc day) w = (r, w') -> closed_step w w' /\ seen w' = seen w.
Proof.
  revert acc day w. induction rest as [|e rest IH]; intros acc day w Hidx Hfps; cbn [run_loop].
  - rewrite app_nil_r in Hidx, Hfps. by apply writeRun_closed.
  - destruct (negb _).
    + apply Forall_app in Hidx as [H1 H2]. unfold try_prog. rewrite run_bind.
      destruct (FileSys.run net (writeRun _ _ _) w) as [r1 w1] eqn:E1.
      apply writeRun_closed in E1 as [C1 S1]; [|done|intros x fp Hx; apply Hfps, elem_of_app; by left].
      destruct r1 as [[]| |]; [|by intros [= <- <-]..]. intros H. apply IH in H as [C2 S2]; [|done|].
      * split; [by eapply closed_step_trans|congruence].
      * eapply fps_present_step; [apply C1|]. intros x fp Hx. apply Hfps, elem_of_app. by right.
    + apply IH; by rewrite <- app_assoc.
Qed.

(** Every fingerprint of the batch comes with its certificate (get-entries
    returns the whole chain). *)
Definition fps_covered (b : entryBatch) : Prop :=
  forall e fp, e ∈ eb_entries b -> fp ∈ re_ChainFingerprints e ->
    exists c, c ∈ eb_chains b /\ cc_hash c = fp.

Lemma batch_closed map_order b w r w' :
  chains_ok (eb_chains b) -> seen_present w -> fps_covered b -> Forall index_ok (eb_entries b) ->
  FileSys.run net (writeBatch marshal gran (ingest false map_order) b) w = (r, w') ->
  closed_step w w' /\ seen_present w' /\ (r = Ok tt -> fps_present w' (eb_entries b)).
Proof.
  intros Hcs Hseen Hcov Hidx. unfold writeBatch. unfold try_prog at 1. rewrite run_bind.
  destruct (FileSys.run net (ingest _ _ b) w) as [ri w1] eqn:Ei.
  assert (Hi : FileSys.run net (put_chains (eb_chains b)) w = (ri, w1)).
  { revert Ei. unfold ingest, try_prog. rewrite run_bind.
    destruct (eb_chains b); [by intros [= <- <-]|].
    destruct (FileSys.run net (put_chains _) w) as [[[]| |] wx]; by intros [= <- <-]. }
  apply put_chains_spec in Hi as (Hs1 & Hsp1 & Hok1 & Hfr1); [|done..].
  pose proof (closed_step_frame w w1 Hs1 Hfr1) as C1.
  destruct ri as [[]|e|]; [|by intros [= <- <-]..].
  assert (Hfps : fps_present w1 (eb_entries b)).
  { intros e fp He Hf. destruct (Hcov e fp He Hf) as (c & Hc & <-). by apply Hok1. }
  intros H. assert (Hstep : closed_step w1 w' /\ seen w' = seen w1).
  { destruct (eb_entries b) as [|e0 rest]; [injection H as <- <-; split; [by apply closed_step_quiet|done]|].
    exact (run_loop_closed rest [e0] _ _ _ _ Hidx Hfps H). }
  destruct Hstep as [C2 S2]. split; [by eapply closed_step_trans|]. split.
  - intros h. rewrite S2. intros Hh. apply C2; [apply Hpath|]. by apply Hsp1.
  - intros _. eapply fps_present_step; [apply C2|done].
Qed.

End IssuerSpec.

(** ** Witnesses *)

Lemma der_path_clean Root d h : clean (Join Root (Join d (hex_encode h +:+ ".der"))) = true.
Proof.
  assert (Hs : str_forallb (fun c => negb (Ascii.eqb c "/")) (hex_encode h +:+ ".der") = true).
  { rewrite str_forallb_app. rewrite (str_forallb_impl is_hex); [done| |apply hex_encode_chars].
    intros c Hc. apply negb_true_iff. by destruct (Ascii.eqb_spec c "/") as [->|]. }
  rewrite Join_assoc. unfold clean. apply andb_true_iff. split; apply negb_true_iff.
  - unfold Join. rewrite <- !str_app_assoc. by rewrite has_suffix_app_le by (simpl; lia).
  - rewrite Base_Join by done. pose proof (hex_encode_chars h) as Hh.
    destruct (hex_encode h) as [|c s]; [done|]. cbn [str_forallb] in Hh. apply andb_true_iff in Hh as [Hc _].
    unfold has_prefix. cbn [String.prefix String.append]. by destruct (ascii_dec "." c) as [<-|].
Qed.

Lemma issuer_path_clean Root h : clean (Join Root (issuerStorePath h)) = true.
Proof. apply der_path_clean. Qed.

Definition sample_cert : chainCert := mkChain (sha256 [x30; x2a]) [x30; x2a].
Definition chain_batch (i ts : Z) : entryBatch :=
  mkBatch [mkEntry i ts 0 0 [] [sha256 [x30; x2a]] [] []] [sample_cert].

(** With two concurrent batches that share a chain certificate the order is
    lost: the second batch finds the certificate marked as seen, writes its
    partition file and succeeds; the first batch's write of the certificate then
    fails. The partition file's fingerprint dangles. *)
Lemma concurrent_dangling :
  let A := @writeBatch (LocalFSWriter "data") sample_marshal GRAN_DAY
             (@ingest (LocalFSWriter "data") false elements) (chain_batch 5 0) in
  let B := @writeBatch (LocalFSWriter "data") sample_marshal GRAN_DAY
             (@ingest (LocalFSWriter "data") false elements) (chain_batch 6 0) in
  let w0 := set_faults [NoFault; NoFault; NoFault; NoFault; NoFault; Fault] quiet_world in
  exists ps w, rtc (pool_step Ok) ([A; B], w0) (ps, w) /\
    ps = [Ret (Err ErrSyscall); Ret (Ok tt)] /\
    is_Some (files w !! "data/1970-01-01/6-6.binpb") /\
    files w !! Join "data" (issuerStorePath (sha256 [x30; x2a])) = None.
Proof.
  intros A B w0. set (turns := [0; 1; 1; 1; 1; 1; 1; 0; 0; 0]%nat).
  destruct (sched Ok turns [A; B] w0) as [ps w] eqn:E. exists ps, w. split.
  - rewrite <- E. apply sched_steps.
  - revert E. vm_compute. intros [= <- <-]. split; [reflexivity|]. split; [by eexists|reflexivity].
Qed.
