(* ===== verification/Fetch.v ===== *)
(** internal/ctv2/record.go and the three fetchers fetch_static.go,
    fetch_tiles.go and fetch_rfc6962.go: from a log's entries to the batches
    handed to the sink. The CT client libraries are parameters. *)

From S2P Require Import Prelude GoStd Sha256 Base36 Coverage CtlogClient FileSys Writer Partition Issuers.

(** ** Definitions *)

(** *** record.go *)

(** ctingestion.v2 enums. *)
Definition ENTRY_TYPE_X509 : Z := 1.
Definition ENTRY_TYPE_PRECERT : Z := 2.
Definition LOG_PROTOCOL_RFC6962 : Z := 1.
Definition LOG_PROTOCOL_STATIC_CT_API : Z := 2.

Definition entryType (isPrecert : bool) : Z := if isPrecert then ENTRY_TYPE_PRECERT else ENTRY_TYPE_X509.

(** What the code reads of a [sunlight.LogEntry]; [sl_MerkleTreeLeaf] is the
    answer of its method. *)
Record static_entry := mkStatic {
  sl_LeafIndex : Z;
  sl_Timestamp : Z;
  sl_IsPrecert : bool;
  sl_MerkleTreeLeaf : bytes;
  sl_PreCertificate : bytes;
  sl_ChainFingerprints : list bytes;
  sl_IssuerKeyHash : bytes }.

Definition rawEntryFromStatic (e : static_entry) : RawLogEntry :=
  mkEntry (sl_LeafIndex e) (sl_Timestamp e) (entryType (sl_IsPrecert e)) LOG_PROTOCOL_STATIC_CT_API
    (sl_MerkleTreeLeaf e) (sl_ChainFingerprints e) (sl_PreCertificate e)
    (if sl_IsPrecert e then sl_IssuerKeyHash e else []).

(** What the code reads of the [ct.RawLogEntry] that [ct.RawLogEntryFromLeaf]
    parses: the timestamped entry may be missing, so may its precert part. *)
Record ct_timestamped := mkTimestamped {
  te_IsPrecert : bool;
  te_Timestamp : Z; (* uint64 *)
  te_PrecertIssuerKeyHash : option bytes }.

Record ct_raw := mkCtRaw {
  rle_TimestampedEntry : option ct_timestamped;
  rle_Cert : bytes;
  rle_Chain : list bytes }.

Section RFC6962Record.

Variable RawLogEntryFromLeaf : Z -> bytes -> bytes -> res ct_raw.

Definition rawEntryFromRFC6962 (index : Z) (leafInput extraData : bytes)
  : res (RawLogEntry * list chainCert) :=
  let? rle := wrap_err ("parse raw log entry @" +:+ dec index) (RawLogEntryFromLeaf index leafInput extraData) in
  match rle_TimestampedEntry rle with
  | None => Err (Errorf ("entry @" +:+ dec index +:+ ": nil TimestampedEntry"))
  | Some te =>
      let isPrecert := te_IsPrecert te in
      Ok (mkEntry index (wrap64 (te_Timestamp te)) (entryType isPrecert) LOG_PROTOCOL_RFC6962 leafInput
            (map sha256 (rle_Chain rle))
            (if isPrecert then rle_Cert rle else [])
            (if isPrecert then default [] (te_PrecertIssuerKeyHash te) else []),
          map (fun der => mkChain (sha256 der) der) (rle_Chain rle))
  end.

(** *** fetch_rfc6962.go: the scanner's callback *)

(** Chain certs of a batch, first occurrence of each hash. *)
Fixpoint add_chains (seen : gset bytes) (cs chains : list chainCert) : gset bytes * list chainCert :=
  match cs with
  | [] => (seen, chains)
  | c :: cs' =>
      if bool_decide (cc_hash c ∈ seen) then add_chains seen cs' chains
      else add_chains ({[cc_hash c]} ∪ seen) cs' (chains ++ [c])
  end.

Fixpoint convert_loop (i : Z) (les : list (bytes * bytes)) (entries : list RawLogEntry)
    (seen : gset bytes) (chains : list chainCert) : res entryBatch :=
  match les with
  | [] => Ok (mkBatch entries chains)
  | (leafInput, extraData) :: les' =>
      match rawEntryFromRFC6962 i leafInput extraData with
      | Ok (r, cs) =>
          let '(seen, chains) := add_chains seen cs chains in
          convert_loop (i + 1) les' (entries ++ [r]) seen chains
      | Err e => Err e
      | Panic => Panic
      end
  end.

(** One scanner.EntryBatch: its start and leaf entries. *)
Definition convert_batch (start : Z) (les : list (bytes * bytes)) : res entryBatch :=
  convert_loop start les [] ∅ [].

(** The callbacks in the order the scanner makes them, with [firstErr]. *)
Fixpoint callbacks (sink : entryBatch -> prog (res unit)) (bs : list (Z * list (bytes * bytes)))
    (firstErr : option error) : prog (res (option error)) :=
  match bs with
  | [] => Ret (Ok firstErr)
  | (start, les) :: bs' =>
      let! r := match convert_batch start les with
                | Ok b => sink b
                | Err e => Ret (Err e)
                | Panic => Ret Panic
                end in
      match r with
      | Ok _ => callbacks sink bs' firstErr
      | Err e => callbacks sink bs' (match firstErr with None => Some e | fe => fe end)
      | Panic => Ret Panic
      end
  end.

(** [GetSTH]'s tree size (uint64) and the scanner's run over [start, end): the
    batches it delivers, in order, and its own error. *)
Definition RFC6962_Fetch (sth : res Z) (scan : Z -> Z -> list (Z * list (bytes * bytes)) * option error)
    (start end_ : Z) (sink : entryBatch -> prog (res unit)) : prog (res unit) :=
  match wrap_err "get-sth" sth with
  | Err e => Ret (Err e)
  | Panic => Ret Panic
  | Ok treeSize =>
      let end_ := if wrap64 treeSize <? end_ then wrap64 treeSize else end_ in
      if end_ <=? start then Ret (Ok tt) else
      let '(bs, runErr) := scan start end_ in
      try! firstErr := callbacks sink bs None in
      match firstErr, runErr with
      | Some e, _ => Ret (Err e)
      | None, Some e => Ret (Err e)
      | None, None => Ret (Ok tt)
      end
  end.

End RFC6962Record.

(** *** fetch_static.go *)

Section StaticFetch.

Variable batchSize : Z.
Variable sink : entryBatch -> prog (res unit).
(** [f.client.Err()] after the iteration. *)
Variable clientErr : option error.

Definition flush (batch : list RawLogEntry) : prog (res unit) :=
  match batch with [] => Ret (Ok tt) | _ => sink (mkBatch batch []) end.

Definition static_finish (batch : list RawLogEntry) : prog (res unit) :=
  match clientErr with Some e => Ret (Err e) | None => flush batch end.

(** The loop over the iterator's remaining (index, entry) pairs. *)
Fixpoint static_loop (iter : list (Z * static_entry)) (end_ : Z) (batch : list RawLogEntry) : prog (res unit) :=
  match iter with
  | [] => static_finish batch
  | (idx, e) :: iter' =>
      if end_ <=? idx then static_finish batch else
      let batch := batch ++ [rawEntryFromStatic e] in
      if batchSize <=? Z.of_nat (length batch) then
        try! _ := flush batch in static_loop iter' end_ []
      else static_loop iter' end_ batch
  end.

(** [Checkpoint]'s tree size and the iterator [Entries(tree, start)]. *)
Definition Static_Fetch (checkpoint : res Z) (entries : Z -> list (Z * static_entry))
    (start end_ : Z) : prog (res unit) :=
  match wrap_err "fetch checkpoint" checkpoint with
  | Err e => Ret (Err e)
  | Panic => Ret Panic
  | Ok n =>
      let end_ := if n <? end_ then n else end_ in
      if end_ <=? start then Ret (Ok tt)
      else static_loop (entries start) end_ []
  end.

End StaticFetch.

(** *** fetch_tiles.go *)

Definition tileWidth : Z := 256.

(** tileDataPath is tileIndexPath of the v1 client, written again. *)
Definition tileDataPath (n : Z) : string :=
  let s := pad3 2 (dec n) in path_segments (String.length s / 3) s.

Section TileFetch.

(** The tile's GET by URL and attempt, [sunlight.ReadTileLeaf], and whether the
    context ends during the wait before an attempt. *)
Variable http_get : string -> Z -> res bytes.
Variable ReadTileLeaf : bytes -> res (static_entry * bytes).
Variable wait_done : Z -> Z -> bool.
Variable tileDataRoot : string.

(** [for len(data) > 0]: [Ok] of the leaves, or the parse error; [fuel] bounds
    the leaves of a body, each of which must shorten it. *)
Fixpoint read_leaves (fuel : nat) (data : bytes) (out : list static_entry) : option (res (list static_entry)) :=
  match fuel with
  | O => None
  | S fuel' =>
      match data with
      | [] => Some (Ok out)
      | _ =>
          match ReadTileLeaf data with
          | Ok (e, rest) => read_leaves fuel' rest (out ++ [e])
          | Err e => Some (Err (Wrap "parse leaf" e))
          | Panic => Some Panic
          end
      end
  end.

(** Attempts [attempt, attempt + n); [lastErr] is nil at first. The result's
    slice may be nil together with a nil error. *)
Fixpoint fetchTile_loop (n : nat) (attempt tileIdx : Z) (lastErr : option error)
  : res (list static_entry) :=
  match n with
  | O => match lastErr with Some e => Err e | None => Ok [] end
  | S n' =>
      if (0 <? attempt) && wait_done tileIdx attempt then Err ErrCanceled else
      match http_get (tileDataRoot +:+ tileDataPath tileIdx) attempt with
      | Err e => fetchTile_loop n' (attempt + 1) tileIdx (Some e)
      | Panic => Panic
      | Ok body =>
          match default Panic (read_leaves (S (length body)) body []) with
          | Ok [] => fetchTile_loop n' (attempt + 1) tileIdx lastErr
          | Ok out => Ok out
          | Err e => fetchTile_loop n' (attempt + 1) tileIdx (Some e)
          | Panic => Panic
          end
      end
  end.

Definition fetchTile (tileIdx : Z) : res (list static_entry) := fetchTile_loop 3 0 tileIdx None.

(** The leaves of a tile inside [start, end), with their authoritative index. *)
Fixpoint tile_batch (leaves : list static_entry) (idx start end_ : Z) : list RawLogEntry :=
  match leaves with
  | [] => []
  | e :: leaves' =>
      if (idx <? start) || (end_ <=? idx) then tile_batch leaves' (idx + 1) start end_
      else
        let r := rawEntryFromStatic e in
        mkEntry idx (re_TimestampMs r) (re_EntryType r) (re_Source r) (re_LeafInput r)
          (re_ChainFingerprints r) (re_Precertificate r) (re_IssuerKeyHash r)
        :: tile_batch leaves' (idx + 1) start end_
  end.

(** What a worker does with one tile; the shared [firstErr]. *)
Definition tile_work (sink : entryBatch -> prog (res unit)) (t start end_ : Z) (firstErr : option error)
  : prog (res (option error)) :=
  match firstErr with
  | Some _ => Ret (Ok firstErr)
  | None =>
      let! cancelled := call CtxErr in
      if cancelled then Ret (Ok None) else
      match fetchTile t with
      | Err e => Ret (Ok (Some (Wrap ("tile " +:+ dec t) e)))
      | Panic => Ret Panic
      | Ok leaves =>
          match tile_batch leaves (t * tileWidth) start end_ with
          | [] => Ret (Ok None)
          | batch =>
              let! r := sink (mkBatch batch []) in
              match r with
              | Ok _ => Ret (Ok None)
              | Err e => Ret (Ok (Some e))
              | Panic => Ret Panic
              end
          end
      end
  end.

(** The tiles in the order the workers take them. *)
Fixpoint tiles_loop (sink : entryBatch -> prog (res unit)) (ts : list Z) (start end_ : Z)
    (firstErr : option error) : prog (res (option error)) :=
  match ts with
  | [] => Ret (Ok firstErr)
  | t :: ts' =>
      try! fe := tile_work sink t start end_ firstErr in tiles_loop sink ts' start end_ fe
  end.

(** [order] is the order in which the worker pool finishes its tiles. *)
Definition Tile_Fetch (sth : res Z) (order : list Z -> list Z) (start end_ : Z)
    (sink : entryBatch -> prog (res unit)) : prog (res unit) :=
  match wrap_err "get-sth (for tree size)" sth with
  | Err e => Ret (Err e)
  | Panic => Ret Panic
  | Ok treeSize =>
      let lastFull := Z.quot (wrap64 treeSize) tileWidth * tileWidth in
      let end_ := if lastFull <? end_ then lastFull else end_ in
      if end_ <=? start then Ret (Ok tt) else
      let firstTile := Z.quot start tileWidth in
      let lastTile := Z.quot (end_ - 1) tileWidth in
      try! fe := tiles_loop sink (order (seqZ firstTile (lastTile - firstTile + 1))) start end_ None in
      match fe with Some e => Ret (Err e) | None => Ret (Ok tt) end
  end.

End TileFetch.

(** ** Lemmas *)

(** *** RFC 6962 batches *)

Lemma add_chains_spec seen cs chains seen' chains' :
  add_chains seen cs chains = (seen', chains') ->
  (forall h, h ∈ seen -> exists c, c ∈ chains /\ cc_hash c = h) ->
  chains_ok cs -> chains_ok chains ->
  chains_ok chains' /\ (forall c, c ∈ chains -> c ∈ chains') /\
  (forall h, h ∈ seen' -> exists c, c ∈ chains' /\ cc_hash c = h) /\
  (forall c, c ∈ cs -> exists c', c' ∈ chains' /\ cc_hash c' = cc_hash c).
Proof.
  revert seen chains. induction cs as [|c cs IH]; intros seen chains; cbn [add_chains].
  - intros [= <- <-] Hs _ Hok. repeat split; try done. by intros c Hc%elem_of_nil.
  - intros H Hs Hcs Hok. apply Forall_cons in Hcs as [Hc Hcs]. case_bool_decide as Hin.
    + destruct (IH _ _ H Hs Hcs Hok) as (H1 & H2 & H3 & H4). repeat split; try done.
      intros c' [->|Hc']%elem_of_cons; [|by apply H4].
      destruct (Hs _ Hin) as (c0 & Hc0 & He). eauto.
    + destruct (IH _ _ H) as (H1 & H2 & H3 & H4).
      * intros h [->%elem_of_singleton|Hh]%elem_of_union.
        -- exists c. split; [|done]. apply elem_of_app. right. by left.
        -- destruct (Hs h Hh) as (c0 & Hc0 & He). exists c0. split; [|done]. apply elem_of_app. by left.
      * done.
      * apply Forall_app. split; [done|by constructor].
      * repeat split; try done.
        -- intros c' Hc'. apply H2, elem_of_app. by left.
        -- intros c' [->|Hc']%elem_of_cons; [|by apply H4].
           exists c. split; [|done]. apply H2, elem_of_app. right. by left.
Qed.

Section ConvertSpec.

Context (parse : Z -> bytes -> bytes -> res ct_raw).

Lemma rawEntry_spec i li ed r cs :
  rawEntryFromRFC6962 parse i li ed = Ok (r, cs) ->
  re_Index r = i /\ re_LeafInput r = li /\ chains_ok cs /\ re_ChainFingerprints r = map cc_hash cs.
Proof.
  unfold rawEntryFromRFC6962. destruct (parse i li ed) as [rle| |]; try done. cbn [wrap_err bind_res].
  destruct (rle_TimestampedEntry rle); [|done]. intros [= <- <-]. cbn. split_and!; try done.
  - unfold chains_ok. rewrite Forall_map. by apply Forall_true.
  - rewrite map_map. done.
Qed.

Lemma convert_loop_spec les : forall i entries seen chains b start,
  convert_loop parse i les entries seen chains = Ok b ->
  i = start + Z.of_nat (length entries) -> consecutive start entries ->
  (forall h, h ∈ seen -> exists c, c ∈ chains /\ cc_hash c = h) -> chains_ok chains ->
  fps_covered (mkBatch entries chains) ->
  consecutive start (eb_entries b) /\ length (eb_entries b) = (length entries + length les)%nat /\
  chains_ok (eb_chains b) /\ fps_covered b /\
  map re_LeafInput (eb_entries b) = map re_LeafInput entries ++ map fst les.
Proof.
  induction les as [|[li ed] les IH]; intros i entries seen chains b start; cbn [convert_loop].
  - intros [= <-] _ Hc _ Hok Hcov. cbn. rewrite Nat.add_0_r, app_nil_r. done.
  - destruct (rawEntryFromRFC6962 parse i li ed) as [[r cs]| |] eqn:Er; try done.
    apply rawEntry_spec in Er as (Hi & Hli & Hcs & Hfp).
    destruct (add_chains seen cs chains) as [seen' chains'] eqn:Ea.
    intros H Hidx Hc Hseen Hok Hcov.
    destruct (add_chains_spec _ _ _ _ _ Ea Hseen Hcs Hok) as (H1 & H2 & H3 & H4).
    apply (IH _ _ _ _ _ start) in H as (HA & HB & HC & HD & HE); try done.
    + rewrite length_app in HB. simpl in HB |- *. rewrite map_app, <- app_assoc in HE. simpl in HE.
      rewrite Hli in HE. split_and!; try done. lia.
    + rewrite length_app. simpl. lia.
    + unfold consecutive in *. rewrite fmap_app, Hc, length_app, Nat2Z.inj_add, seqZ_app by lia.
      f_equal. cbn. rewrite Hi. by replace (start + Z.of_nat (length entries)) with i by lia.
    + intros e fp [He| ->%list_elem_of_singleton]%elem_of_app Hf; cbn in *.
      * destruct (Hcov e fp He Hf) as (c & Hcin & <-). eauto.
      * rewrite Hfp in Hf. apply list_elem_of_fmap in Hf as (c & -> & Hcin).
        destruct (H4 c Hcin) as (c' & Hc' & He'). eauto.
Qed.

Lemma convert_batch_spec start les b :
  convert_batch parse start les = Ok b ->
  consecutive start (eb_entries b) /\ length (eb_entries b) = length les /\
  chains_ok (eb_chains b) /\ fps_covered b /\ map re_LeafInput (eb_entries b) = map fst les.
Proof.
  intros H. destruct (convert_loop_spec les start [] ∅ [] b start H) as (H1 & H2 & H3 & H4 & H5); try done.
  - simpl. lia.
  - constructor.
  - by intros e fp He%elem_of_nil.
Qed.

End ConvertSpec.

(** *** Sinks *)

(** [for _, b := range bs { if err := sink(b); err != nil { return err } }] *)
Fixpoint sink_all (sink : entryBatch -> prog (res unit)) (bs : list entryBatch) : prog (res unit) :=
  match bs with
  | [] => Ret (Ok tt)
  | b :: bs' => try! _ := sink b in sink_all sink bs'
  end.

Lemma run_try net {A B} (m : prog (res A)) (f : A -> prog (res B)) w :
  run net (try_prog m f) w
  = (let '(r, w') := run net m w in
     match r with Ok a => run net (f a) w' | Err e => (Err e, w') | Panic => (Panic, w') end).
Proof. unfold try_prog. rewrite run_bind. by destruct (run net m w) as [[a|e|] w']. Qed.

(** The pairs before the first index at or past [end_]. *)
Fixpoint take_below (end_ : Z) (iter : list (Z * static_entry)) : list (Z * static_entry) :=
  match iter with
  | [] => []
  | p :: iter' => if end_ <=? p.1 then [] else p :: take_below end_ iter'
  end.

Section StaticSpec.

Context (net : bytes -> res bytes) (batchSize : Z) (Hbs : 1 <= batchSize)
  (sink : entryBatch -> prog (res unit)).

(** The loop hands over the entries below [end_] in order, in batches of
    [batchSize] but for the last, and then reports the client's error. *)
Lemma static_loop_spec err iter end_ acc :
  Z.of_nat (length acc) < batchSize ->
  exists bs rest,
    concat (map eb_entries bs) ++ rest
      = acc ++ map (fun p => rawEntryFromStatic p.2) (take_below end_ iter) /\
    Forall (fun b => eb_chains b = [] /\ Z.of_nat (length (eb_entries b)) = batchSize) bs /\
    Z.of_nat (length rest) < batchSize /\
    forall w, run net (static_loop batchSize sink err iter end_ acc) w
      = run net (try! _ := sink_all sink bs in static_finish sink err rest) w.
Proof.
  revert acc. induction iter as [|[idx e] iter IH]; intros acc Hacc; cbn [static_loop take_below fst].
  - exists [], acc. simpl. rewrite app_nil_r. by repeat split.
  - destruct (Z.leb_spec end_ idx) as [Hle|Hlt].
    + exists [], acc. simpl. rewrite app_nil_r.
      by repeat split.
    + cbn [map]. destruct (Z.leb_spec batchSize (Z.of_nat (length (acc ++ [rawEntryFromStatic e])))).
      * destruct (IH []) as (bs & rest & Hcat & Hall & Hr & Hrun); [simpl; lia|].
        exists (mkBatch (acc ++ [rawEntryFromStatic e]) [] :: bs), rest. split_and!; try done.
        -- cbn. rewrite <- !app_assoc. by rewrite Hcat.
        -- constructor; [|done]. split; [done|]. cbn. rewrite length_app in *. simpl in *. lia.
        -- intros w. unfold flush. destruct (acc ++ [rawEntryFromStatic e]) eqn:Ea; [by apply app_nil in Ea as [_ ?]|].
           rewrite <- Ea. cbn [sink_all]. rewrite !run_try. destruct (run net (sink _) w) as [[[]| |] w1]; try done.
           by rewrite Hrun, run_try.
      * destruct (IH (acc ++ [rawEntryFromStatic e])) as (bs & rest & Hcat & Hall & Hr & Hrun); [done|].
        exists bs, rest. split_and!; try done. by rewrite Hcat, <- app_assoc.
Qed.

Lemma sink_all_app bs bs' w :
  run net (sink_all sink (bs ++ bs')) w = run net (try! _ := sink_all sink bs in sink_all sink bs') w.
Proof.
  revert w. induction bs as [|b bs IH]; intros w; [done|]. cbn [app sink_all]. rewrite !run_try.
  destruct (run net (sink b) w) as [[[]| |] w1]; try done. by rewrite IH, run_try.
Qed.

(** Without a client error the whole fetch is one sequence of batches. *)
Lemma static_loop_batches iter end_ :
  exists bs,
    concat (map eb_entries bs) = map (fun p => rawEntryFromStatic p.2) (take_below end_ iter) /\
    Forall (fun b => eb_chains b = [] /\ 0 < Z.of_nat (length (eb_entries b)) <= batchSize) bs /\
    forall w, run net (static_loop batchSize sink None iter end_ []) w = run net (sink_all sink bs) w.
Proof.
  destruct (static_loop_spec None iter end_ []) as (bs & rest & Hcat & Hall & Hr & Hrun); [simpl; lia|].
  assert (Hall' : Forall (fun b => eb_chains b = [] /\ 0 < Z.of_nat (length (eb_entries b)) <= batchSize) bs)
    by (eapply Forall_impl; [exact Hall|]; simpl; intros b [? ?]; split; [done|lia]).
  destruct rest as [|e rest].
  - exists bs. rewrite app_nil_r in Hcat. split_and!; try done. intros w. rewrite Hrun, run_try.
    by destruct (run net (sink_all sink bs) w) as [[[]| |] w1].
  - exists (bs ++ [mkBatch (e :: rest) []]). split_and!.
    + rewrite map_app, concat_app. simpl. rewrite app_nil_r. by rewrite Hcat.
    + apply Forall_app. split; [done|]. constructor; [|constructor]. split; [done|]. cbn [eb_entries] in *. simpl. simpl in Hr. lia.
    + intros w. rewrite Hrun, sink_all_app, !run_try.
      destruct (run net (sink_all sink bs) w) as [[[]| |] w1]; try done.
      cbn [static_finish flush sink_all]. rewrite run_try.
      by destruct (run net (sink _) w1) as [[[]| |] w2].
Qed.

End StaticSpec.

(** *** Many batches on disk *)

Section Durable.

Context (net : bytes -> res bytes).
Context {W : Writer} {stored : world -> string -> option bytes}
  {present ready : world -> string -> Prop} {ok_path : string -> Prop} {ok_data : bytes -> Prop}
  `{!WriterLaws W stored present ready ok_path ok_data}.
Context (marshal : list RawLogEntry -> res bytes) (gran : granularity).
Hypothesis Hpath : forall day n m a b, 0 <= n <= max_int64 -> 0 <= m <= max_int64 ->
  encodeBase36 n = Ok a -> encodeBase36 m = Ok b -> ok_path (part_path day a b).
Hypothesis Hdata : forall run d, marshal run = Ok d -> ok_data d.

(** An ingest step keeps off the partition files. *)
Context (ing : entryBatch -> prog (res unit)).
Hypothesis Hing : forall b w r w', run net (ing b) w = (r, w') ->
  forall q, ok_path q -> (forall h, q <> issuerStorePath h) -> stored w' q = stored w q.

(** Index [i] is on disk: inside the complete file of a run. *)
Definition archived (w : world) (i : Z) : Prop :=
  exists rn p d a, file_of marshal gran rn p d /\ consecutive a rn /\ 0 <= a /\
    a + Z.of_nat (length rn) <= max_int64 /\ a <= i < a + Z.of_nat (length rn) /\
    (forall h, p <> issuerStorePath h) /\ stored w p = Some d.

Definition batch_ok (b : Z * entryBatch) : Prop :=
  consecutive b.1 (eb_entries b.2) /\ 0 <= b.1 /\ b.1 + Z.of_nat (length (eb_entries b.2)) <= max_int64.

Definition batch_has (b : Z * entryBatch) (i : Z) : Prop :=
  b.1 <= i < b.1 + Z.of_nat (length (eb_entries b.2)).

Lemma file_of_not_issuer rn p d : file_of marshal gran rn p d -> forall h, p <> issuerStorePath h.
Proof. intros (e0 & en & day & a & b & _ & _ & _ & _ & _ & -> & _) h. apply part_not_issuer. Qed.

(** One batch: it is archived when the call succeeds, and an index archived
    before stays archived when the batch does not contain it. *)
Lemma writeBatch_archives b w r w' :
  batch_ok b -> run net (writeBatch marshal gran ing b.2) w = (r, w') ->
  (forall i, archived w i -> ~ batch_has b i -> archived w' i) /\
  (r = Ok tt -> forall i, batch_has b i -> archived w' i).
Proof.
  intros (Hc & Ha & Hmax). unfold writeBatch. rewrite run_try.
  destruct (run net (ing b.2) w) as [ri w1] eqn:Ei. pose proof (Hing _ _ _ _ Ei) as Hfr.
  assert (H1 : forall i, archived w i -> archived w1 i).
  { intros i (rn & p & d & a & Hf & Hcr & Hra & Hrm & Hi & Hni & Hs). exists rn, p, d, a. split_and!; try done; try lia.
    rewrite Hfr; [done| |done]. by eapply file_of_path. }
  destruct ri as [[]|e|]; [|intros [= <- <-]; by split; [intros; apply H1|]..].
  intros H. assert (Hsp : only_runs (stored := stored) (ok_path := ok_path) marshal gran b.1 (eb_entries b.2) w1 w' /\
    (r = Ok tt -> exists fs, stored_runs (stored := stored) marshal gran w' (eb_entries b.2) fs)).
  { apply (writeBatch_spec net marshal gran Hpath Hdata b.2 b.1 w1 r w' Hc Ha Hmax).
    unfold writeBatch. rewrite run_try. exact H. }
  destruct Hsp as [Ho Hok]. split.
  - intros i (rn & p & d & a & Hf & Hcr & Hra & Hrm & Hi & Hni & Hs)%H1 Hn. exists rn, p, d, a. split_and!; try done; try lia.
    destruct (Ho p) as [->|(rn' & d' & k & Hf' & Hs' & Hrn & Hcr')]; [by eapply file_of_path|done|].
    exfalso. apply Hn. assert (Hlen : (length rn' <= length (drop k (eb_entries b.2)))%nat).
    { rewrite Hrn at 1. rewrite length_take. lia. }
    rewrite length_drop in Hlen.
    assert (rn' <> []) as Hne by (intros ->; by destruct Hf' as (? & ? & ? & ? & ? & ? & _)).
    assert (1 <= length rn')%nat by (destruct rn'; [done|simpl; lia]).
    assert (a = b.1 + Z.of_nat k) as Hak by (eapply (file_of_disjoint marshal gran rn p d a rn' d'); try done; lia).
    assert (length rn = length rn') as Hll.
    { pose proof (file_of_range marshal gran _ _ _ _ Hf Hcr Hra Hrm) as E1.
      rewrite (file_of_range marshal gran _ _ _ _ Hf' Hcr' ltac:(lia) ltac:(lia)) in E1. injection E1 as E1 E2. lia. }
    unfold batch_has. lia.
  - intros Hr i Hi. destruct (Hok Hr) as [fs [Hcat Hfs]]. unfold batch_has in Hi.
    clear Hok Ho H Hfr Ei H1. revert Hc Ha Hmax Hi Hcat. generalize b.1 (eb_entries b.2).
    induction Hfs as [|[[rn p] d] fs [Hf Hs] _ IH]; intros a es Hc Ha Hmax Hi Hcat; cbn in *.
    { subst es. simpl in Hi. lia. }
    subst es. apply consecutive_app in Hc as [Hc1 Hc2]. rewrite length_app, Nat2Z.inj_add in *.
    destruct (decide (i < a + Z.of_nat (length rn))).
    + exists rn, p, d, a. split_and!; try done; try lia. by eapply file_of_not_issuer.
    + eapply (IH _ _ Hc2); [lia..|done].
Qed.

(** Any sequence of disjoint batches, in any order. *)
Lemma sink_all_archives bs w r w' :
  Forall batch_ok bs ->
  (forall j k b b' i, bs !! j = Some b -> bs !! k = Some b' -> batch_has b i -> batch_has b' i -> j = k) ->
  run net (sink_all (writeBatch marshal gran ing) (map snd bs)) w = (r, w') ->
  (forall i, archived w i -> (forall b, b ∈ bs -> ~ batch_has b i) -> archived w' i) /\
  (r = Ok tt -> forall b i, b ∈ bs -> batch_has b i -> archived w' i).
Proof.
  intros Hok. revert w. induction Hok as [|b bs Hb _ IH]; intros w Hdis; cbn [map sink_all].
  - intros [= <- <-]. split; [done|]. by intros _ b i Hin%elem_of_nil.
  - rewrite run_try. destruct (run net (writeBatch _ _ _ _) w) as [r1 w1] eqn:E1.
    apply (writeBatch_archives b) in E1 as [Hkeep Hnew]; [|done].
    destruct r1 as [[]|e|].
    2-3: intros [= <- <-]; split; [|done]; intros i Hi Hn; apply Hkeep; [done|]; apply Hn; by left.
    intros H. apply IH in H as [Hkeep2 Hnew2].
    2: { intros j k b1 b2 i Hj Hk H1 H2. assert (S j = S k) as E; [|by injection E].
         by eapply (Hdis (S j) (S k)). }
    split.
    + intros i Hi Hn. apply Hkeep2; [apply Hkeep; [done|apply Hn; by left]|].
      intros b' Hb'. apply Hn. by right.
    + intros Hr b' i [->|Hb']%elem_of_cons Hi; [|by eapply Hnew2].
      apply Hkeep2; [by apply Hnew|]. intros b2 Hb2 Hi2.
      apply list_elem_of_lookup in Hb2 as [k Hk]. pose proof (Hdis 0%nat (S k) _ _ i eq_refl Hk Hi Hi2). lia.
Qed.

End Durable.

(** *** The RFC 6962 fetch *)

Section RFCSpec.

Context (net : bytes -> res bytes) (parse : Z -> bytes -> bytes -> res ct_raw)
  (sink : entryBatch -> prog (res unit)).

(** Callbacks that end without an error: every batch converted and sunk. *)
Lemma callbacks_ok bs fe w w' :
  run net (callbacks parse sink bs fe) w = (Ok None, w') ->
  fe = None /\ exists bs', Forall2 (fun p b => convert_batch parse p.1 p.2 = Ok b) bs bs' /\
    run net (sink_all sink bs') w = (Ok tt, w').
Proof.
  revert fe w. induction bs as [|[start les] bs IH]; intros fe w; cbn [callbacks].
  - intros [= -> ->]. split; [done|]. exists []. by split; [constructor|].
  - rewrite run_bind. destruct (convert_batch parse start les) as [b|e|] eqn:Ec; [| |done].
    + destruct (run net (sink b) w) as [r w1] eqn:Es. destruct r as [[]|e|]; [| |done].
      * intros H. apply IH in H as [-> (bs' & Hbs & Hrun)]. split; [done|].
        exists (b :: bs'). split; [by constructor|]. cbn [sink_all]. by rewrite run_try, Es.
      * intros H. apply IH in H as [Hfe _]. by destruct fe.
    + cbn [run]. intros H. apply IH in H as [Hfe _]. by destruct fe.
Qed.

End RFCSpec.

(** *** The tile fetch *)

Section TileSpec.

Context (net : bytes -> res bytes) (http_get : string -> Z -> res bytes)
  (ReadTileLeaf : bytes -> res (static_entry * bytes)) (wait_done : Z -> Z -> bool)
  (root : string) (sink : entryBatch -> prog (res unit)).

(** A reader that takes something off the front never exhausts the fuel. *)
Lemma read_leaves_fuel fuel data out :
  (forall b e rest, ReadTileLeaf b = Ok (e, rest) -> (length rest < length b)%nat) ->
  (length data < fuel)%nat -> is_Some (read_leaves ReadTileLeaf fuel data out).
Proof.
  intros Hshrink. revert data out. induction fuel as [|fuel IH]; intros data out Hf; [lia|].
  cbn [read_leaves]. destruct data as [|x data]; [by eexists|].
  destruct (ReadTileLeaf (x :: data)) as [[e rest]|e|] eqn:E; [|by eexists..].
  apply IH. apply Hshrink in E. lia.
Qed.

Definition renumber (i : Z) (e : static_entry) : RawLogEntry :=
  let r := rawEntryFromStatic e in
  mkEntry i (re_TimestampMs r) (re_EntryType r) (re_Source r) (re_LeafInput r)
    (re_ChainFingerprints r) (re_Precertificate r) (re_IssuerKeyHash r).

Lemma tile_batch_consecutive leaves idx start end_ :
  idx <= Z.max idx start ->
  consecutive (Z.max idx start) (tile_batch leaves idx start end_) /\
  (Z.of_nat (length leaves) = 256 ->
   Z.of_nat (length (tile_batch leaves idx start end_)) =
   Z.max 0 (Z.min end_ (idx + 256) - Z.max idx start)).
Proof.
  assert (Hgen : forall leaves idx,
    consecutive (Z.max idx start) (tile_batch leaves idx start end_) /\
    Z.of_nat (length (tile_batch leaves idx start end_))
    = Z.max 0 (Z.min end_ (idx + Z.of_nat (length leaves)) - Z.max idx start)).
  { clear. induction leaves as [|e leaves IH]; intros idx; cbn [tile_batch].
    - split; [done|]. simpl. lia.
    - destruct (IH (idx + 1)) as [IHc IHl]. cbn [length]. rewrite Nat2Z.inj_succ.
      destruct (Z.ltb_spec idx start); cbn [orb].
      + assert (Z.max idx start = Z.max (idx + 1) start) as -> by lia. split; [done|]. lia.
      + destruct (Z.leb_spec end_ idx).
        * split; [|lia]. assert (tile_batch leaves (idx + 1) start end_ = []) as ->; [|done].
          apply nil_length_inv. lia.
        * assert (Z.max idx start = idx) as -> by lia.
          assert (Z.max (idx + 1) start = idx + 1) as Hm by lia. rewrite Hm in IHc, IHl.
          cbn [length]. split; [|lia].
          unfold consecutive in *. rewrite fmap_cons, IHc. cbn [length]. rewrite (seqZ_cons idx) by lia.
          unfold Z.succ. do 2 f_equal. lia. }
  intros _. destruct (Hgen leaves idx) as [H1 H2]. split; [done|]. intros Hl. by rewrite H2, Hl.
Qed.

(** The batches of the tiles that have entries in range. *)
Definition tile_batches (leaves_of : Z -> list static_entry) (ts : list Z) (start end_ : Z)
  : list (Z * entryBatch) :=
  ts ≫= (fun t => match tile_batch (leaves_of t) (t * 256) start end_ with
                  | [] => []
                  | b => [(Z.max (t * 256) start, mkBatch b [])]
                  end).

Lemma tiles_loop_failed ts start end_ e w :
  run net (tiles_loop http_get ReadTileLeaf wait_done root sink ts start end_ (Some e)) w = (Ok (Some e), w).
Proof. induction ts as [|t ts IH]; [done|]. cbn [tiles_loop]. rewrite run_try. apply IH. Qed.

Lemma tiles_loop_ok leaves_of ts start end_ w w' :
  ctxdone w = [] ->
  (forall t, t ∈ ts -> fetchTile http_get ReadTileLeaf wait_done root t = Ok (leaves_of t)) ->
  run net (tiles_loop http_get ReadTileLeaf wait_done root sink ts start end_ None) w = (Ok None, w') ->
  run net (sink_all sink (map snd (tile_batches leaves_of ts start end_))) w = (Ok tt, w').
Proof.
  revert w. induction ts as [|t ts IH]; intros w Hctx Ht; cbn [tiles_loop].
  - intros [= <-]. done.
  - rewrite run_try. cbn [tile_work]. unfold call at 1. cbn [bind_prog run exec]. rewrite Hctx. cbn [bind_prog].
    rewrite Ht by by left. unfold tile_batches. cbn [mbind list_bind]. fold (tile_batches leaves_of ts start end_).
    change tileWidth with 256.
    destruct (tile_batch (leaves_of t) (t * 256) start end_) as [|r0 rs] eqn:Eb.
    + cbn [run app map]. apply IH; [done|]. intros t' Ht'. apply Ht. by right.
    + rewrite run_bind. destruct (run net (sink _) w) as [r1 w1] eqn:E1.
      destruct r1 as [[]|e|]; cbn [run]; [|by rewrite tiles_loop_failed|done].
      intros H. cbn [app map snd sink_all]. rewrite run_try, E1. apply IH; [|by intros t' Ht'; apply Ht; right|done].
      by eapply run_ctx.
Qed.

End TileSpec.

(** ** Properties *)

(** Entries with consecutive indices: the ones below a bound are a prefix. *)
Lemma take_below_seq start stop (l : list (Z * static_entry)) :
  l.*1 = seqZ start (Z.of_nat (length l)) -> start < stop ->
  take_below stop l = take (Z.to_nat (stop - start)) l.
Proof.
  revert start. induction l as [|[i e] l IH]; intros start Hidx Hlt; [by rewrite take_nil|].
  cbn [length fmap list_fmap fst] in *. rewrite Nat2Z.inj_succ in *. rewrite seqZ_cons in Hidx by lia.
  injection Hidx as Hi Hidx. subst i. cbn [take_below fst]. destruct (Z.leb_spec stop start); [lia|].
  destruct (decide (start + 1 < stop)).
  - replace (Z.to_nat (stop - start)) with (S (Z.to_nat (stop - (start + 1)))) by lia.
    cbn [take]. f_equal. apply IH; [|lia]. refine (eq_trans Hidx _). f_equal; lia.
  - replace (Z.to_nat (stop - start)) with 1%nat by lia. cbn [take]. f_equal.
    destruct l as [|[i' e'] l]; [done|]. cbn in *. rewrite seqZ_cons in Hidx by lia. injection Hidx as Hi _. subst i'.
    destruct (Z.leb_spec stop (Z.succ start)); [done|lia].
Qed.

(** The batches of the tiles [ts]: one per tile that meets the range, disjoint. *)
Section TileBatches.

Context (leaves_of : Z -> list static_entry) (ts : list Z) (start e : Z).
Hypothesis Hnd : NoDup ts.
Hypothesis Hlen : forall t, t ∈ ts -> Z.of_nat (length (tile_batch (leaves_of t) (t * 256) start e))
  = Z.max 0 (Z.min e (t * 256 + 256) - Z.max (t * 256) start).

Lemma elem_tile_batches b : b ∈ tile_batches leaves_of ts start e <-> exists t, t ∈ ts /\
  b = (Z.max (t * 256) start, mkBatch (tile_batch (leaves_of t) (t * 256) start e) []) /\
  tile_batch (leaves_of t) (t * 256) start e <> [].
Proof.
  unfold tile_batches. rewrite list_elem_of_bind. split.
  - intros (t & Hbt & Ht). exists t. split; [done|].
    destruct (tile_batch (leaves_of t) (t * 256) start e); [by apply elem_of_nil in Hbt|].
    by apply list_elem_of_singleton in Hbt as ->.
  - intros (t & Ht & -> & Hne). exists t. split; [|done].
    destruct (tile_batch (leaves_of t) (t * 256) start e); [done|]. by apply list_elem_of_singleton.
Qed.

Lemma tile_batches_nodup : NoDup (tile_batches leaves_of ts start e).
Proof.
  unfold tile_batches. apply NoDup_bind; [| |done].
  - intros t t' b Ht Ht' Hx Hy.
    destruct (tile_batch (leaves_of t) (t * 256) start e) eqn:E1; [by apply elem_of_nil in Hx|].
    destruct (tile_batch (leaves_of t') (t' * 256) start e) eqn:E2; [by apply elem_of_nil in Hy|].
    apply list_elem_of_singleton in Hx as ->, Hy as [= Hm _ _].
    pose proof (Hlen t Ht) as L1. pose proof (Hlen t' Ht') as L2. rewrite E1 in L1. rewrite E2 in L2.
    simpl in L1, L2. lia.
  - intros t Ht. destruct (tile_batch _ _ _ _); [constructor|apply NoDup_singleton].
Qed.

Lemma tile_batches_disjoint j k b b' i :
  tile_batches leaves_of ts start e !! j = Some b -> tile_batches leaves_of ts start e !! k = Some b' ->
  batch_has b i -> batch_has b' i -> j = k.
Proof.
  intros Hj Hk H1 H2. assert (b = b') as <-.
  { apply list_elem_of_lookup_2 in Hj, Hk.
    apply elem_tile_batches in Hj as (t & Ht & -> & _), Hk as (t' & Ht' & -> & _). unfold batch_has in *. simpl in *.
    rewrite Hlen in H1, H2 by done. assert (t = t') as -> by lia. done. }
  eapply NoDup_lookup; [apply tile_batches_nodup|done..].
Qed.

End TileBatches.

(** The three range fetchers over any sink that writes partitions with [W] and whose
    issuer step keeps off them. *)
Section Ranges.

Context (net : bytes -> res bytes).
Context {W : Writer} {stored : world -> string -> option bytes}
  {present ready : world -> string -> Prop} {ok_path : string -> Prop} {ok_data : bytes -> Prop}
  (Hlaws : WriterLaws W stored present ready ok_path ok_data).
Context (marshal : list RawLogEntry -> res bytes) (gran : granularity).
Context (Hpath : forall day n m a b, 0 <= n <= max_int64 -> 0 <= m <= max_int64 ->
  encodeBase36 n = Ok a -> encodeBase36 m = Ok b -> ok_path (part_path day a b)).
Context (Hdata : forall d, ok_data d).
Context (ing : entryBatch -> prog (res unit)).
Context (Hing : forall b w r w', run net (ing b) w = (r, w') ->
  forall q, ok_path q -> (forall h, q <> issuerStorePath h) -> stored w' q = stored w q).

#[local] Abbreviation sink := (writeBatch marshal gran ing).

(** Consecutive pieces of a consecutive list are disjoint batches. *)
Lemma split_batches a bs :
  consecutive a (concat (map eb_entries bs)) -> 0 <= a ->
  a + Z.of_nat (length (concat (map eb_entries bs))) <= max_int64 ->
  exists nbs, map snd nbs = bs /\ Forall batch_ok nbs /\
    (forall b, b ∈ nbs -> a <= b.1) /\
    (forall j k b b' i, nbs !! j = Some b -> nbs !! k = Some b' -> batch_has b i -> batch_has b' i -> j = k) /\
    (forall i, a <= i < a + Z.of_nat (length (concat (map eb_entries bs))) <-> exists b, b ∈ nbs /\ batch_has b i).
Proof.
  revert a. induction bs as [|b bs IH]; intros a Hc Ha Hmax; cbn [map concat] in *.
  - exists []. split; [done|]. split; [constructor|]. split; [by intros b Hb%elem_of_nil|]. split; [done|].
    intros i. split; [simpl; lia|]. intros (b & Hb & _). by apply elem_of_nil in Hb.
  - apply consecutive_app in Hc as [Hc1 Hc2]. rewrite length_app, Nat2Z.inj_add in *.
    destruct (IH _ Hc2) as (nbs & Hm & Hok & Hge & Hdis & Hcov); [lia..|].
    exists ((a, b) :: nbs). split_and!.
    + cbn. by rewrite Hm.
    + constructor; [|done]. unfold batch_ok. cbn. split_and!; [done|lia|lia].
    + intros b' [->|Hb']%elem_of_cons; [done|]. apply Hge in Hb'. lia.
    + assert (Hno : forall k b' i, nbs !! k = Some b' -> batch_has (a, b) i -> batch_has b' i -> False).
      { intros k b' i Hk H1 H2. apply list_elem_of_lookup_2 in Hk. apply Hge in Hk.
        unfold batch_has in *. simpl in *. lia. }
      intros [|j] [|k] b1 b2 i Hj Hk H1 H2; cbn in Hj, Hk; [done| | |].
      * injection Hj as <-. exfalso. by eapply Hno.
      * injection Hk as <-. exfalso. by eapply Hno.
      * f_equal. by eapply Hdis.
    + intros i. split.
      * intros Hi. destruct (decide (i < a + Z.of_nat (length (eb_entries b)))).
        -- exists (a, b). split; [by left|]. unfold batch_has. simpl. lia.
        -- destruct (proj1 (Hcov i)) as (b' & Hb' & Hi'); [lia|]. exists b'. split; [by right|done].
      * intros (b' & [->|Hb']%elem_of_cons & Hi'); [unfold batch_has in Hi'; simpl in Hi'; lia|].
        pose proof (proj2 (Hcov i) ltac:(eauto)). lia.
Qed.

(** How far sunlight's [Entries] goes from [s] in a tree of [n] entries when it meets
    no error: "Iteration may stop before the size of the tree to avoid fetching a
    partial data tile. Resuming with the same tree will yield the remaining
    entries." So at least to the last complete tile, and to the end of the tree
    from there on. *)
Definition served (n s : Z) : Z := if s <? 256 * (n / 256) then 256 * (n / 256) else n.

Lemma served_le n s : served n s <= n.
Proof. unfold served. pose proof (Z.mul_div_le n 256 ltac:(lia)). destruct (_ <? _); lia. Qed.

Lemma static_archive (batchSize n start end_ : Z) (err : option error)
  (entries : Z -> list (Z * static_entry)) (w w' : world)
  (Hbs : 1 <= batchSize) (Hs : 0 <= start) (Hn : n <= max_int64)
  (Hiter : forall s, (entries s).*1 = seqZ s (Z.of_nat (length (entries s))) /\
     Forall (fun p => sl_LeafIndex p.2 = p.1) (entries s) /\
     (err = None -> served n s <= s + Z.of_nat (length (entries s))))
  (Hrun : run net (Static_Fetch batchSize sink err (Ok n) entries start end_) w = (Ok tt, w')) :
  (forall i, start <= i < Z.min (Z.min end_ n) (start + Z.of_nat (length (entries start))) ->
     archived (stored := stored) marshal gran w' i) /\
  (forall i, start <= i < Z.min end_ (served n start) -> archived (stored := stored) marshal gran w' i) /\
  (forall i, archived (stored := stored) marshal gran w i -> ~ start <= i < Z.min end_ n ->
     archived (stored := stored) marshal gran w' i).
Proof.
  revert Hrun. unfold Static_Fetch. cbn [wrap_err].
  replace (if n <? end_ then n else end_) with (Z.min end_ n) by (destruct (Z.ltb_spec n end_); lia).
  destruct (Z.leb_spec (Z.min end_ n) start) as [Hle|Hlt].
  { intros [= <-]. pose proof (served_le n start). split_and!; [lia|lia|done]. }
  intros Hrun. destruct (Hiter start) as (Hidx & Hleaf & Hall).
  assert (err = None) as ->.
  { destruct err as [e|]; [|done]. exfalso.
    destruct (static_loop_spec net batchSize Hbs sink (Some e) (entries start) (Z.min end_ n) [])
      as (bs & rest & _ & _ & _ & Heq); [simpl; lia|]. rewrite Heq, run_try in Hrun.
    destruct (run net (sink_all sink bs) w) as [[[]| |] w1]; simpl in Hrun; congruence. }
  destruct (static_loop_batches net batchSize Hbs sink (entries start) (Z.min end_ n)) as (bs & Hcat & Hbk & Heq).
  rewrite Heq in Hrun. specialize (Hall eq_refl). pose proof (served_le n start) as Hserved.
  rewrite (take_below_seq start) in Hcat by done.
  set (k := Z.min (Z.min end_ n) (start + Z.of_nat (length (entries start)))) in *.
  assert (Hlen : Z.of_nat (length (concat (map eb_entries bs))) = k - start).
  { rewrite Hcat, length_map, length_take. lia. }
  assert (Hcons : consecutive start (concat (map eb_entries bs))).
  { unfold consecutive. rewrite Hlen, Hcat. rewrite <- list_fmap_compose.
    transitivity ((take (Z.to_nat (Z.min end_ n - start)) (entries start)).*1).
    - apply list_fmap_ext. intros j [i e] Hk. cbn. rewrite Forall_forall in Hleaf. apply (Hleaf (i, e)).
      apply list_elem_of_lookup_2 in Hk. by apply elem_of_take in Hk as (j' & Hj%list_elem_of_lookup_2 & _).
    - rewrite fmap_take, Hidx. destruct (decide (k = Z.min end_ n)).
      + rewrite take_seqZ by lia. f_equal; lia.
      + rewrite take_ge by (rewrite length_seqZ; lia). f_equal; lia. }
  destruct (split_batches start bs Hcons Hs ltac:(lia)) as (nbs & Hm & Hok & Hge & Hdis & Hcov).
  rewrite <- Hm in Hrun.
  destruct (sink_all_archives net marshal gran Hpath (fun _ d _ => Hdata d) ing Hing
              nbs w (Ok tt) w' Hok Hdis Hrun) as [Hkeep Hnew].
  assert (Hgot : forall i, start <= i < k -> archived (stored := stored) marshal gran w' i).
  { intros i Hi. destruct (proj1 (Hcov i)) as (b & Hb & Hbi); [lia|]. by eapply Hnew. }
  split_and!; [exact Hgot|intros i Hi; apply Hgot; lia|].
  intros i Hi Hout. apply Hkeep; [done|]. intros b Hb Hbi. apply Hout.
  pose proof (proj2 (Hcov i) ltac:(eauto)). lia.
Qed.

(** The batches a scanner delivers for [s, e). *)
Definition scan_covers (bs : list (Z * list (bytes * bytes))) (s e : Z) : Prop :=
  Forall (fun b => b.2 <> [] /\ s <= b.1 /\ b.1 + Z.of_nat (length b.2) <= e) bs /\
  (forall j k b b' i, bs !! j = Some b -> bs !! k = Some b' ->
     b.1 <= i < b.1 + Z.of_nat (length b.2) -> b'.1 <= i < b'.1 + Z.of_nat (length b'.2) -> j = k) /\
  (forall i, s <= i < e -> exists b, b ∈ bs /\ b.1 <= i < b.1 + Z.of_nat (length b.2)).

Lemma rfc6962_archive (parse : Z -> bytes -> bytes -> res ct_raw)
  (scan : Z -> Z -> list (Z * list (bytes * bytes)) * option error)
  (treeSize start end_ : Z) (w w' : world)
  (Hs : 0 <= start) (Hsize : 0 <= treeSize <= max_int64)
  (Hscan : forall s e bs, scan s e = (bs, None) -> scan_covers bs s e)
  (Hrun : run net (RFC6962_Fetch parse (Ok treeSize) scan start end_ sink) w = (Ok tt, w')) :
  (forall i, start <= i < Z.min end_ treeSize -> archived (stored := stored) marshal gran w' i) /\
  (forall i, archived (stored := stored) marshal gran w i -> ~ start <= i < Z.min end_ treeSize ->
     archived (stored := stored) marshal gran w' i).
Proof.
  revert Hrun. unfold RFC6962_Fetch. cbn [wrap_err]. rewrite wrap64_id by go_lia.
  replace (if treeSize <? end_ then treeSize else end_) with (Z.min end_ treeSize)
    by (destruct (Z.ltb_spec treeSize end_); lia).
  destruct (Z.leb_spec (Z.min end_ treeSize) start) as [Hle|Hlt].
  { intros [= <-]. split; [lia|done]. }
  destruct (scan start (Z.min end_ treeSize)) as [bs runErr] eqn:Escan. rewrite run_try.
  destruct (run net (callbacks parse sink bs None) w) as [[fe|e|] w1] eqn:Ec; [|done..].
  destruct fe as [e|]; [done|]. destruct runErr as [e|]; [done|]. intros [= <-].
  apply callbacks_ok in Ec as [_ (bs' & Hbs & Hrun)]. apply Hscan in Escan as (Hall & Hdis & Hcov).
  set (nbs := zip bs.*1 bs').
  assert (Hlen : length bs = length bs') by by eapply Forall2_length.
  assert (Hsnd : map snd nbs = bs') by (apply (snd_zip bs.*1); rewrite length_fmap; lia).
  assert (Hlook : forall j b, nbs !! j = Some b -> exists les, bs !! j = Some (b.1, les) /\
             convert_batch parse b.1 les = Ok b.2).
  { intros j [a b] Hj. unfold nbs in Hj. apply lookup_zip_with_Some in Hj as (a' & b' & [= -> ->] & Ha & Hb).
    rewrite list_lookup_fmap in Ha. destruct (bs !! j) as [[a0 les]|] eqn:Ej; [|done]. injection Ha as ->.
    exists les. split; [done|]. by eapply (Forall2_lookup_lr _ _ _ _ _ _ Hbs Ej) in Hb. }
  assert (Hhas : forall j b i, nbs !! j = Some b -> batch_has b i -> exists les,
             bs !! j = Some (b.1, les) /\ b.1 <= i < b.1 + Z.of_nat (length les)).
  { intros j b i Hj Hi. destruct (Hlook j b Hj) as (les & He & Hcv). exists les. split; [done|].
    apply convert_batch_spec in Hcv as (_ & Hl & _). unfold batch_has in Hi. lia. }
  rewrite <- Hsnd in Hrun.
  destruct (sink_all_archives net marshal gran Hpath (fun _ d _ => Hdata d) ing Hing
              nbs w (Ok tt) w1) as [Hkeep Hnew]; [| |done|].
  - apply Forall_lookup. intros j b Hj. destruct (Hlook j b Hj) as (les & He & Hcv).
    apply convert_batch_spec in Hcv as (Hc & Hl & _). rewrite Forall_lookup in Hall.
    destruct (Hall _ _ He) as (_ & H1 & H2). simpl in *. unfold batch_ok. rewrite Hl. split; [done|]. go_lia.
  - intros j k b b' i Hj Hk H1 H2. destruct (Hhas _ _ _ Hj H1) as (l1 & E1 & R1).
    destruct (Hhas _ _ _ Hk H2) as (l2 & E2 & R2). by eapply (Hdis j k _ _ i E1 E2).
  - split.
    + intros i Hi. destruct (Hcov i Hi) as ([a les] & Hin & Hai). simpl in Hai.
      apply list_elem_of_lookup in Hin as [j Hj].
      destruct (Forall2_lookup_l _ _ _ _ _ Hbs Hj) as (b & Hb & Hcv). simpl in Hcv.
      apply (Hnew eq_refl (a, b)).
      * apply (list_elem_of_lookup_2 _ j). unfold nbs. apply lookup_zip_with_Some. exists a, b.
        rewrite list_lookup_fmap, Hj. done.
      * apply convert_batch_spec in Hcv as (_ & Hl & _). unfold batch_has. simpl. lia.
    + intros i Hi Hout. apply Hkeep; [done|]. intros b Hb Hbi.
      apply list_elem_of_lookup in Hb as [j Hj]. destruct (Hhas _ _ _ Hj Hbi) as (les & He & Hr).
      rewrite Forall_lookup in Hall. destruct (Hall _ _ He) as (_ & H1 & H2). simpl in *. lia.
Qed.

Lemma tile_archive (http_get : string -> Z -> res bytes)
  (ReadTileLeaf : bytes -> res (static_entry * bytes)) (wait_done : Z -> Z -> bool) (root : string)
  (order : list Z -> list Z) (leaves_of : Z -> list static_entry) (treeSize start end_ : Z) (w w' : world)
  (Hs : 0 <= start) (Hsize : 0 <= treeSize <= max_int64) (Hctx : ctxdone w = [])
  (Horder : forall ts, order ts ≡ₚ ts)
  (Htile : forall t, 0 <= t < treeSize / 256 ->
     fetchTile http_get ReadTileLeaf wait_done root t = Ok (leaves_of t) /\
     Z.of_nat (length (leaves_of t)) = 256)
  (Hrun : run net (Tile_Fetch http_get ReadTileLeaf wait_done root (Ok treeSize) order start end_ sink) w
          = (Ok tt, w')) :
  forall i, start <= i < Z.min end_ (256 * (treeSize / 256)) -> archived (stored := stored) marshal gran w' i.
Proof.
  revert Hrun. unfold Tile_Fetch. cbn [wrap_err]. rewrite wrap64_id by go_lia.
  unfold tileWidth. rewrite Z.quot_div_nonneg by lia.
  set (e := Z.min end_ (256 * (treeSize / 256))).
  replace (if treeSize / 256 * 256 <? end_ then treeSize / 256 * 256 else end_) with e
    by (unfold e; destruct (Z.ltb_spec (treeSize / 256 * 256) end_); lia).
  destruct (Z.leb_spec e start) as [Hle|Hlt]; [intros _ i Hi; lia|].
  rewrite !Z.quot_div_nonneg by lia. rewrite run_try.
  set (ts := order (seqZ (start / 256) ((e - 1) / 256 - start / 256 + 1))).
  destruct (run net (tiles_loop _ _ _ _ sink ts start e None) w) as [[fe|er|] w1] eqn:Et; [|done..].
  destruct fe as [er|]; [done|]. intros [= <-].
  assert (Hts : forall t, t ∈ ts <-> start / 256 <= t <= (e - 1) / 256).
  { intros t. unfold ts. rewrite Horder, elem_of_seqZ. lia. }
  assert (Hnd : NoDup ts) by (unfold ts; rewrite Horder; apply NoDup_seqZ).
  assert (He : e <= 256 * (treeSize / 256)) by (unfold e; lia).
  assert (Ht0 : forall t, t ∈ ts -> 0 <= t < treeSize / 256) by (intros t Ht%Hts; div_lia).
  apply (tiles_loop_ok _ _ _ _ _ _ leaves_of) in Et; [|done|intros t Ht; by apply Htile, Ht0].
  assert (Hlen : forall t, t ∈ ts ->
     Z.of_nat (length (tile_batch (leaves_of t) (t * 256) start e))
     = Z.max 0 (Z.min e (t * 256 + 256) - Z.max (t * 256) start)).
  { intros t Ht. apply tile_batch_consecutive; [lia|]. by apply Htile, Ht0. }
  destruct (sink_all_archives net marshal gran Hpath (fun _ d _ => Hdata d) ing Hing
              (tile_batches leaves_of ts start e) w (Ok tt) w1) as [_ Hnew]; [| |done|].
  - apply Forall_forall. intros b (t & Ht & -> & _)%elem_tile_batches. unfold batch_ok. simpl.
    rewrite Hlen by done. pose proof (Ht0 t Ht). split; [by apply tile_batch_consecutive; lia|].
    assert (treeSize / 256 * 256 <= treeSize) by div_lia. go_lia.
  - by apply tile_batches_disjoint.
  - intros i Hi. assert (Hti : i / 256 ∈ ts) by (apply Hts; div_lia).
    pose proof (Hlen _ Hti) as Hl.
    apply (Hnew eq_refl (Z.max (i / 256 * 256) start, mkBatch (tile_batch (leaves_of (i / 256)) (i / 256 * 256) start e) [])).
    + apply elem_tile_batches. exists (i / 256). split; [done|]. split; [done|]. intros Hnil. rewrite Hnil in Hl. simpl in Hl. div_lia.
    + unfold batch_has. simpl. rewrite Hl. div_lia.
Qed.

End Ranges.

Section Archive.

Context (net : bytes -> res bytes).
Context {W : Writer} {stored : world -> string -> option bytes}
  {present ready : world -> string -> Prop} {ok_path : string -> Prop} {ok_data : bytes -> Prop}
  (Hlaws : WriterLaws W stored present ready ok_path ok_data).
Context (marshal : list RawLogEntry -> res bytes) (gran : granularity).
Context (Hpath : forall day n m a b, 0 <= n <= max_int64 -> 0 <= m <= max_int64 ->
  encodeBase36 n = Ok a -> encodeBase36 m = Ok b -> ok_path (part_path day a b)).
Context (Hissuer : forall h, ok_path (issuerStorePath h)) (Hdata : forall d, ok_data d).
Context (resolver : bool) (map_order : gset bytes -> list bytes).

#[local] Abbreviation sink := (writeBatch marshal gran (ingest resolver map_order)).

Lemma sink_frame b w r w' : run net (ingest resolver map_order b) w = (r, w') ->
  forall q, ok_path q -> (forall h, q <> issuerStorePath h) -> stored w' q = stored w q.
Proof. intros H. exact (ingest_frame net Hissuer Hdata resolver map_order b w r w' H). Qed.

(** C7. What a static-ct-api fetch of [start, end) that returns without an error has
    archived, in complete partition files whose names cover the indices: every
    index of the range that the client's iterator delivered, so every index up to
    the last complete tile of the checkpoint, and the trailing partial tile too
    when the fetch starts behind the last complete one ([served]); and nothing
    archived before is lost. The iterator may stop in front of a partial tile
    without an error (its documentation says so); the indices from there to [end]
    are then missing although the fetch succeeds ([static_tail_dropped]). *)
Theorem static_archive_complete (batchSize n start end_ : Z) (err : option error)
  (entries : Z -> list (Z * static_entry)) (w w' : world)
  (Hbs : 1 <= batchSize) (Hs : 0 <= start) (Hn : n <= max_int64)
  (Hiter : forall s, (entries s).*1 = seqZ s (Z.of_nat (length (entries s))) /\
     Forall (fun p => sl_LeafIndex p.2 = p.1) (entries s) /\
     (err = None -> served n s <= s + Z.of_nat (length (entries s))))
  (Hrun : run net (Static_Fetch batchSize sink err (Ok n) entries start end_) w = (Ok tt, w')) :
  (forall i, start <= i < Z.min (Z.min end_ n) (start + Z.of_nat (length (entries start))) ->
     archived (stored := stored) marshal gran w' i) /\
  (forall i, start <= i < Z.min end_ (served n start) -> archived (stored := stored) marshal gran w' i) /\
  (forall i, archived (stored := stored) marshal gran w i -> ~ start <= i < Z.min end_ n ->
     archived (stored := stored) marshal gran w' i).
Proof. by apply (static_archive net Hlaws marshal gran Hpath Hdata (ingest resolver map_order) sink_frame batchSize n start end_ err entries w w'). Qed.

(** The RFC 6962 fetch archives what it says, for the batches of any
    scanner run that covers the range, in any order of its parallel workers:
    when Fetch returns without an error every index from [start] up to the
    smaller of [end] and the tree size is on disk in a complete partition file,
    and nothing archived before is lost. *)
Theorem rfc6962_archive_complete (parse : Z -> bytes -> bytes -> res ct_raw)
  (scan : Z -> Z -> list (Z * list (bytes * bytes)) * option error)
  (treeSize start end_ : Z) (w w' : world)
  (Hs : 0 <= start) (Hsize : 0 <= treeSize <= max_int64)
  (Hscan : forall s e bs, scan s e = (bs, None) -> scan_covers bs s e)
  (Hrun : run net (RFC6962_Fetch parse (Ok treeSize) scan start end_ sink) w = (Ok tt, w')) :
  (forall i, start <= i < Z.min end_ treeSize -> archived (stored := stored) marshal gran w' i) /\
  (forall i, archived (stored := stored) marshal gran w i -> ~ start <= i < Z.min end_ treeSize ->
     archived (stored := stored) marshal gran w' i).
Proof. by apply (rfc6962_archive net Hlaws marshal gran Hpath Hdata (ingest resolver map_order) sink_frame parse scan treeSize start end_ w w'). Qed.

(** The tile fetch archives what it says when every tile it asks for is
    read whole (256 leaves): with a context that stays alive, whatever order the
    worker pool takes the tiles in, a Fetch without an error leaves every index
    from [start] up to the smaller of [end] and the last complete tile on disk. *)
Theorem tile_archive_complete (http_get : string -> Z -> res bytes)
  (ReadTileLeaf : bytes -> res (static_entry * bytes)) (wait_done : Z -> Z -> bool) (root : string)
  (order : list Z -> list Z) (leaves_of : Z -> list static_entry) (treeSize start end_ : Z) (w w' : world)
  (Hs : 0 <= start) (Hsize : 0 <= treeSize <= max_int64) (Hctx : ctxdone w = [])
  (Horder : forall ts, order ts ≡ₚ ts)
  (Htile : forall t, 0 <= t < treeSize / 256 ->
     fetchTile http_get ReadTileLeaf wait_done root t = Ok (leaves_of t) /\
     Z.of_nat (length (leaves_of t)) = 256)
  (Hrun : run net (Tile_Fetch http_get ReadTileLeaf wait_done root (Ok treeSize) order start end_ sink) w
          = (Ok tt, w')) :
  forall i, start <= i < Z.min end_ (256 * (treeSize / 256)) -> archived (stored := stored) marshal gran w' i.
Proof. by apply (tile_archive net Hlaws marshal gran Hpath Hdata (ingest resolver map_order) sink_frame http_get ReadTileLeaf wait_done root order leaves_of treeSize start end_ w w'). Qed.

Hypothesis (Hpart : forall day n m a b, 0 <= n <= max_int64 -> 0 <= m <= max_int64 ->
  encodeBase36 n = Ok a -> encodeBase36 m = Ok b -> ok_path (part_path day a b)).

#[local] Abbreviation rfc_sink := (writeBatch marshal gran (ingest false map_order)).
#[local] Abbreviation no_dangling := (closed_step (stored := stored) (present := present) (ok_path := ok_path) marshal).

Lemma callbacks_closed parse bs fe w r w' :
  Forall (fun b => 0 <= b.1 /\ b.1 + Z.of_nat (length b.2) <= max_int64) bs -> seen_present (present := present) w ->
  run net (callbacks parse rfc_sink bs fe) w = (r, w') -> no_dangling w w' /\ seen_present (present := present) w'.
Proof.
  intros Hbs. revert fe w. induction Hbs as [|[start les] bs [Hlo Hhi] _ IH]; intros fe w Hseen; cbn [callbacks].
  { intros [= _ <-]. split; [by apply closed_step_quiet|done]. }
  rewrite run_bind. destruct (run net (match convert_batch parse start les with Ok b => _ | Err e => _ | Panic => _ end) w) as [r1 w1] eqn:E1.
  assert (H1 : no_dangling w w1 /\ seen_present (present := present) w1).
  { destruct (convert_batch parse start les) as [b|e|] eqn:Eb; [|injection E1 as _ <-; split; [by apply closed_step_quiet|done]..].
    apply convert_batch_spec in Eb as (Hc & Hl & Hch & Hcov & _). cbn [fst snd] in Hlo, Hhi.
    destruct (batch_closed net Hissuer Hdata marshal gran Hpart map_order b w r1 w1 Hch Hseen Hcov) as (C & S & _); [|done|done].
    apply Forall_forall. intros e He. apply (list_elem_of_fmap_2 re_Index) in He. unfold consecutive in Hc. rewrite Hc in He.
    apply elem_of_seqZ in He. unfold index_ok. lia. }
  destruct H1 as [C1 S1]. destruct r1 as [u|e|]; [| |intros [= _ <-]; by split].
  all: intros H; apply IH in H as [C2 S2]; [|done]; (split; [by eapply closed_step_trans|done]).
Qed.

(** C27. An RFC 6962 range job never leaves a dangling fingerprint. Over any batches
    of the scanner, taken one after the other, with any system call failing,
    torn or the last before a crash, and from the empty memory of certificates a
    job starts with: every file that the job has put on disk outside the issuer
    store holds the marshalled entries of a run whose every chain fingerprint has
    its issuer file; issuer files hold certificates with the SHA-256 their names
    say; and no file goes away. Batches written concurrently do not have this
    property ([concurrent_dangling]), nor have static-ct-api jobs, whose
    certificates are fetched best-effort ([static_job_dangles]). *)
Theorem rfc6962_job_no_dangling (parse : Z -> bytes -> bytes -> res ct_raw)
  (scan : Z -> Z -> list (Z * list (bytes * bytes)) * option error)
  (sth : res Z) (start end_ : Z) (w w' : world) (r : res unit)
  (Hscan : forall e, Forall (fun b => 0 <= b.1 /\ b.1 + Z.of_nat (length b.2) <= max_int64) (scan start e).1)
  (Hseen : seen w = ∅)
  (Hrun : run net (RFC6962_Fetch parse sth scan start end_ rfc_sink) w = (r, w')) :
  (forall q d, ok_path q -> (forall h, q <> issuerStorePath h) -> stored w' q = Some d ->
    stored w q = Some d \/
    exists entries, marshal entries = Ok d /\
      forall e fp, e ∈ entries -> fp ∈ re_ChainFingerprints e -> present w' (issuerStorePath fp)) /\
  ((forall h d, stored w (issuerStorePath h) = Some d -> sha256 d = h) ->
   forall h d, stored w' (issuerStorePath h) = Some d -> sha256 d = h) /\
  (forall q, ok_path q -> present w q -> present w' q).
Proof.
  assert (no_dangling w w') as [[H1 H2] H3]; [|by split_and!].
  assert (Hq : no_dangling w w) by by apply closed_step_quiet.
  revert Hrun. unfold RFC6962_Fetch. destruct (wrap_err _ sth) as [n|e|]; [|by intros [= _ <-]..].
  set (e := if wrap64 n <? end_ then _ else _). destruct (e <=? start); [by intros [= _ <-]|].
  specialize (Hscan e). destruct (scan start e) as [bs runErr]. rewrite run_try.
  destruct (run net (callbacks parse rfc_sink bs None) w) as [r1 w1] eqn:Ec.
  apply callbacks_closed in Ec as [C _]; [|done|by intros h; rewrite Hseen, elem_of_empty].
  destruct r1 as [[x|]|x|]; [| destruct runErr | |]; by intros [= _ <-].
Qed.

End Archive.

(** ** Witnesses *)

Definition mini_static (i : Z) : static_entry := mkStatic i (1709251200000 + i) false [x01] [] [] [].
Definition mini_entries (s : Z) : list (Z * static_entry) :=
  map (fun i => (i, mini_static i)) (seqZ s (10 - s)).
Definition local_sink : entryBatch -> prog (res unit) :=
  @writeBatch (LocalFSWriter "data") sample_marshal GRAN_DAY (@ingest (LocalFSWriter "data") false elements).

Lemma local_paths day n m a b :
  0 <= n <= max_int64 -> 0 <= m <= max_int64 -> encodeBase36 n = Ok a -> encodeBase36 m = Ok b ->
  fs_path "data" (part_path day a b).
Proof. intros Hn Hm Ha Hb. apply (part_path_clean "data" day n m a b Hn Hm Ha Hb). Qed.

Lemma mini_entries_iter s :
  (mini_entries s).*1 = seqZ s (Z.of_nat (length (mini_entries s))) /\
  Forall (fun p => sl_LeafIndex p.2 = p.1) (mini_entries s) /\
  (@None error = None -> served 10 s <= s + Z.of_nat (length (mini_entries s))).
Proof.
  unfold mini_entries. rewrite length_map, length_seqZ. split; [|split].
  - rewrite <- list_fmap_compose. unfold compose. simpl. rewrite list_fmap_id.
    destruct (decide (10 - s <= 0)); [by rewrite !seqZ_nil by lia|f_equal; lia].
  - apply Forall_map, Forall_true. done.
  - pose proof (served_le 10 s). lia.
Qed.

(** A log of 300 entries, whose client stops in front of its partial tile. *)
Definition partial_entries (s : Z) : list (Z * static_entry) :=
  map (fun i => (i, mini_static i)) (seqZ s (served 300 s - s)).

Lemma partial_entries_iter s :
  (partial_entries s).*1 = seqZ s (Z.of_nat (length (partial_entries s))) /\
  Forall (fun p => sl_LeafIndex p.2 = p.1) (partial_entries s) /\
  (@None error = None -> served 300 s <= s + Z.of_nat (length (partial_entries s))).
Proof.
  unfold partial_entries. rewrite length_map, length_seqZ. split; [|split].
  - rewrite <- list_fmap_compose. unfold compose. simpl. rewrite list_fmap_id.
    destruct (decide (served 300 s - s <= 0)); [by rewrite !seqZ_nil by lia|f_equal; lia].
  - apply Forall_map, Forall_true. done.
  - lia.
Qed.

Definition fetch_from (start : Z) : res unit * world :=
  run Ok (Static_Fetch 4 local_sink None (Ok 300) partial_entries start 300) quiet_world.

Lemma static_archive_complete_witness :
  (fetch_from 251).1 = Ok tt /\
  (forall i, 251 <= i < 256 -> archived (stored := fs_stored "data") sample_marshal GRAN_DAY (fetch_from 251).2 i) /\
  (fetch_from 290).1 = Ok tt /\
  (forall i, 290 <= i < 300 -> archived (stored := fs_stored "data") sample_marshal GRAN_DAY (fetch_from 290).2 i).
Proof.
  assert (H : forall start, 0 <= start -> (fetch_from start).1 = Ok tt ->
    forall i, start <= i < Z.min 300 (served 300 start) ->
      archived (stored := fs_stored "data") sample_marshal GRAN_DAY (fetch_from start).2 i).
  { intros start Hs Hok.
    refine (proj1 (proj2 (static_archive_complete Ok (LocalFS_laws "data") sample_marshal GRAN_DAY local_paths
      (issuer_path_clean "data") (fun _ => I) false elements 4 300 start 300 None partial_entries quiet_world (fetch_from start).2
      _ Hs _ partial_entries_iter _))); [lia|unfold max_int64; lia|].
    change (fetch_from start = (Ok tt, (fetch_from start).2)). rewrite <- Hok. apply surjective_pairing. }
  assert (E1 : (fetch_from 251).1 = Ok tt) by (vm_compute; reflexivity).
  assert (E2 : (fetch_from 290).1 = Ok tt) by (vm_compute; reflexivity).
  split_and!; [exact E1|exact (H 251 ltac:(lia) E1)|exact E2|exact (H 290 ltac:(lia) E2)].
Defined.

(** The first of these fetches asks for [251, 300) and succeeds, with the entries from
    256 left out: the only file written is of [251, 256). *)
Lemma static_tail_dropped :
  (fetch_from 251).1 = Ok tt /\
  forallb (fun f => match parseRangeFromName (Base f.1) with Some r => rend r <=? 256 | None => false end)
    (map_to_list (files (fetch_from 251).2)) = true.
Proof. vm_compute. by split. Qed.

(** A scanner that delivers the range in two batches, the later one first. *)
Definition two_scan (s e : Z) : list (Z * list (bytes * bytes)) * option error :=
  if e - s =? 3 then ([(s + 1, [([x01], []); ([x02], [])]); (s, [([x00], [])])], None)
  else ([], Some ErrSyscall).

Definition mini_parse (i : Z) (leaf extra : bytes) : res ct_raw :=
  Ok (mkCtRaw (Some (mkTimestamped false 1709251200000 None)) [] [[x30]]).

Lemma two_scan_covers s e bs : two_scan s e = (bs, None) -> scan_covers bs s e.
Proof.
  unfold two_scan. destruct (Z.eqb_spec (e - s) 3); [|done]. intros [= <-]. split; [|split].
  - repeat constructor; simpl; try done; lia.
  - intros [|[|[|j]]] [|[|[|k]]] b b' i Hj Hk; simpl in *; simplify_eq; simpl; lia.
  - intros i Hi. destruct (decide (i = s)) as [->|].
    + eexists. split; [by right; left|]. simpl. lia.
    + eexists. split; [by left|]. simpl. lia.
Qed.

(** A job over [two_scan] whose second batch fails: the partition of the first one is
    there, and the issuer files of its certificates too. *)
Definition cert_of_leaf (i : Z) (leaf extra : bytes) : res ct_raw :=
  Ok (mkCtRaw (Some (mkTimestamped false 1709251200000 None)) [] [leaf]).
Definition cut_job : res unit * world :=
  run Ok (RFC6962_Fetch cert_of_leaf (Ok 8) two_scan 5 8 local_sink) (set_faults (repeat NoFault 20 ++ [Fault]) quiet_world).

Lemma rfc6962_job_no_dangling_witness :
  cut_job.1 = Err ErrSyscall /\
  exists d, files cut_job.2 !! "data/2024-03-01/6-7.binpb" = Some d /\
    exists entries, sample_marshal entries = Ok d /\
      forall e fp, e ∈ entries -> fp ∈ re_ChainFingerprints e -> fs_present "data" cut_job.2 (issuerStorePath fp).
Proof.
  assert (Hr : cut_job.1 = Err ErrSyscall) by (vm_compute; reflexivity).
  assert (Hd : match files cut_job.2 !! "data/2024-03-01/6-7.binpb" with Some _ => true | None => false end = true) by (vm_compute; reflexivity).
  split; [exact Hr|]. destruct (files cut_job.2 !! "data/2024-03-01/6-7.binpb") as [d|] eqn:Ed; [|discriminate Hd]. exists d. split; [reflexivity|].
  destruct (rfc6962_job_no_dangling Ok (LocalFS_laws "data") sample_marshal GRAN_DAY (issuer_path_clean "data") (fun _ => I) elements
    local_paths cert_of_leaf two_scan (Ok 8) 5 8 (set_faults (repeat NoFault 20 ++ [Fault]) quiet_world) cut_job.2 cut_job.1) as [H _].
  - intros e. unfold two_scan. destruct (e - 5 =? 3); repeat constructor; vm_compute; discriminate.
  - reflexivity.
  - unfold cut_job. apply surjective_pairing.
  - destruct (H "2024-03-01/6-7.binpb" d) as [H0|H0]; [reflexivity| |exact Ed|discriminate H0|exact H0].
    intros h. apply (part_not_issuer "2024-03-01" "6" "7").
Defined.

(** A static-ct-api job whose issuer endpoint fails: the fetch succeeds, the partition
    is written and its fingerprint has no issuer file. *)
Lemma static_job_dangles :
  let r := run (fun _ => Err ErrSyscall)
    (@writeBatch (LocalFSWriter "data") sample_marshal GRAN_DAY (@ingest (LocalFSWriter "data") true elements)
       (mkBatch (eb_entries (chain_batch 5 0)) [])) quiet_world in
  r.1 = Ok tt /\ map fst (map_to_list (files r.2)) = ["data/1970-01-01/5-5.binpb"].
Proof. vm_compute. by split. Qed.

Lemma rfc6962_archive_complete_witness :
  (run Ok (RFC6962_Fetch mini_parse (Ok 8) two_scan 5 100 local_sink) quiet_world).1 = Ok tt /\
  forall i, 5 <= i < Z.min 100 8 ->
    archived (stored := fs_stored "data") sample_marshal GRAN_DAY
      (run Ok (RFC6962_Fetch mini_parse (Ok 8) two_scan 5 100 local_sink) quiet_world).2 i.
Proof.
  split; [vm_compute; reflexivity|].
  refine (proj1 (rfc6962_archive_complete Ok (LocalFS_laws "data") sample_marshal GRAN_DAY local_paths
    (issuer_path_clean "data") (fun _ => I) false elements mini_parse two_scan 8 5 100 quiet_world _
    _ _ two_scan_covers _)); [lia|unfold max_int64; lia|].
  vm_compute. reflexivity.
Defined.

(** A tile of one-byte leaves. *)
Definition byte_leaf (b : bytes) : res (static_entry * bytes) :=
  match b with [] => Err EOF | _ :: r => Ok (mini_static 0, r) end.
Definition tile_body (_ : string) (_ : Z) : res bytes := Ok (repeat x01 256).

Lemma tile_archive_complete_witness :
  (run Ok (Tile_Fetch tile_body byte_leaf (fun _ _ => false) "t/" (Ok 600) reverse 200 300 local_sink) quiet_world).1 = Ok tt /\
  forall i, 200 <= i < Z.min 300 (256 * (600 / 256)) ->
    archived (stored := fs_stored "data") sample_marshal GRAN_DAY
      (run Ok (Tile_Fetch tile_body byte_leaf (fun _ _ => false) "t/" (Ok 600) reverse 200 300 local_sink)
         quiet_world).2 i.
Proof.
  split; [vm_compute; reflexivity|].
  refine (tile_archive_complete Ok (LocalFS_laws "data") sample_marshal GRAN_DAY local_paths
    (issuer_path_clean "data") (fun _ => I) false elements tile_body byte_leaf (fun _ _ => false) "t/" reverse
    (fun _ => repeat (mini_static 0) 256) 600 200 300 quiet_world _ _ _ _ _ _ _);
    [lia|unfold max_int64; lia|reflexivity|intros ts; apply reverse_Permutation|intros t _; split; reflexivity|].
  vm_compute. reflexivity.
Defined.

(** Three empty bodies and no parse error: the tile counts as read, with no
    leaves, and the fetch succeeds without having archived anything. *)
Lemma tile_fetch_empty_body :
  run Ok (Tile_Fetch (fun _ _ => Ok []) byte_leaf (fun _ _ => false) "t/" (Ok 600) id 0 256 local_sink) quiet_world
  = (Ok tt, quiet_world).
Proof. vm_compute. reflexivity. Qed.

(** A context cancelled before the first tile: also a success. *)
Lemma tile_fetch_cancelled :
  let w := set_ctxdone [true; true] quiet_world in
  (run Ok (Tile_Fetch tile_body byte_leaf (fun _ _ => false) "t/" (Ok 600) id 0 512 local_sink) w).1 = Ok tt /\
  files (run Ok (Tile_Fetch tile_body byte_leaf (fun _ _ => false) "t/" (Ok 600) id 0 512 local_sink) w).2 = ∅.
Proof. vm_compute. by split. Qed.
