(* ===== verification/Archive.v ===== *)
(** Reading an archive back: internal/ctv2/verify.go, resolve.go, roots.go, subjects.go
    and the directory scan of coverage.go. A directory walk is the list of what
    filepath.WalkDir visits; file contents, gunzip, protobuf, x509 and the
    network are parameters. Reasons leave out the quotes of [%q]. *)

From S2P Require Import Prelude GoStd Sha256 Base36 Coverage FileSys Writer Partition Issuers Fetch.

(** ** Definitions *)

(** One callback of filepath.WalkDir. *)
Record dirent := mkDirent { de_path : string; de_isdir : bool; de_err : option error }.

(** pb.RawLogEntryBatch as far as it is read: the log's monitoring URL and the entries. *)
Record raw_batch := mkRawBatch { rb_MonitoringUrl : string; rb_Entries : list RawLogEntry }.

Section Reader.

Variable read_file : string -> res bytes.
Variable gunzip : bytes -> res bytes.
Variable unmarshal : bytes -> res raw_batch.

Definition is_partition (d : dirent) : bool :=
  negb (de_isdir d) && has_suffix (trim_suffix (Base (de_path d)) ".gz") ".binpb".

(** os.ReadFile, gunzip for a .gz name, proto.Unmarshal. *)
Definition read_partition (p : string) : res raw_batch :=
  let? data := read_file p in
  let? data := if has_suffix (Base p) ".gz" then wrap_err (p +:+ ": gunzip") (gunzip data) else Ok data in
  wrap_err (p +:+ ": unmarshal") (unmarshal data).

(** coverage.go: the ranges of all partition files and their number. *)
Fixpoint scan_loop (ds : list dirent) (ranges : list idxRange) (n : Z) : res (list idxRange * Z) :=
  match ds with
  | [] => Ok (ranges, n)
  | d :: ds' =>
      match de_err d with
      | Some ErrNotExist => scan_loop ds' ranges n
      | Some e => Err e
      | None =>
          if de_isdir d then scan_loop ds' ranges n else
          match parseRangeFromName (Base (de_path d)) with
          | Some r => scan_loop ds' (ranges ++ [r]) (n + 1)
          | None => scan_loop ds' ranges n
          end
      end
  end.

Definition scanPartitionRanges (ds : list dirent) : res (list idxRange * Z) := scan_loop ds [] 0.

(** verify.go: the first entry with the index in the partitions that bracket it. *)
Fixpoint find_loop (ds : list dirent) (index : Z) : res (option RawLogEntry) :=
  match ds with
  | [] => Ok None
  | d :: ds' =>
      match de_err d with
      | Some e => Err e
      | None =>
          if negb (is_partition d) then find_loop ds' index else
          match parseRangeFromName (Base (de_path d)) with
          | None => find_loop ds' index
          | Some r =>
              if (index <? rstart r) || (rend r <=? index) then find_loop ds' index else
              let? batch := read_partition (de_path d) in
              match list_find (fun e => re_Index e = index) (rb_Entries batch) with
              | Some (_, e) => Ok (Some e)
              | None => find_loop ds' index
              end
          end
      end
  end.

Definition findEntry (root : string) (ds : list dirent) (index : Z) : res RawLogEntry :=
  let? found := find_loop ds index in
  match found with
  | Some e => Ok e
  | None => Err (Errorf ("index " +:+ dec index +:+ " not found under " +:+ root))
  end.

(** resolve.go: the fingerprints of the entries without inline chains. *)
Definition is_static_source (s : Z) : bool := (s =? 2) || (s =? 3).

Definition static_fps (es : list RawLogEntry) : gset bytes :=
  list_to_set (filter (fun fp => length fp = 32%nat)
    (filter (fun e => is_static_source (re_Source e) = true) es ≫= re_ChainFingerprints)).

Fixpoint refs_loop (ds : list dirent) (fps : gset bytes) (monURL : string) : res (gset bytes * string) :=
  match ds with
  | [] => Ok (fps, monURL)
  | d :: ds' =>
      match de_err d with
      | Some e => Err e
      | None =>
          if negb (is_partition d) then refs_loop ds' fps monURL else
          let? batch := read_partition (de_path d) in
          refs_loop ds' (fps ∪ static_fps (rb_Entries batch))
            (if String.eqb monURL "" then rb_MonitoringUrl batch else monURL)
      end
  end.

Definition collectStaticIssuerRefs (ds : list dirent) : res (gset bytes * string) := refs_loop ds ∅ "".

End Reader.

(** *** verify.go *)

Section Verify.

(** crypto/x509 and the TLS decoder of leaf_input (an outer [None] is a missing
    TimestampedEntry or X509Entry). *)
Context {cert : Type}.
Variable ParseCertificate : bytes -> res cert.
Variable tls_x509_entry : bytes -> res (option bytes).
Variable Subject : cert -> string.
Variable CheckSignatureFrom : cert -> cert -> res unit.
Variable Raw : cert -> bytes.
Variable NotBefore NotAfter : cert -> Z.
Variable read_file : string -> res bytes.

Definition leafCertificate (e : RawLogEntry) : res cert :=
  if re_EntryType e =? 2 then
    match re_Precertificate e with
    | [] => Err (Errorf "precert entry has no precertificate")
    | pc => ParseCertificate pc
    end
  else
    let? leaf := wrap_err "parse leaf_input" (tls_x509_entry (re_LeafInput e)) in
    match leaf with
    | None => Err (Errorf "leaf_input has no X509 entry")
    | Some der => ParseCertificate der
    end.

Record VerifyEntryResponse := mkVerify {
  Valid : bool;
  Reason : string;
  LeafSubject : string;
  ChainSubjects : list string;
  AnchorSubject : string;
  WithinValidity : bool }.

(** The issuer chain in stored order: [inl] the reason it cannot be built, with
    the subjects read so far, [inr] the certificates. *)
Fixpoint load_chain (root : string) (fps : list bytes) (chain : list cert)
  : res ((string * list cert) + list cert) :=
  match fps with
  | [] => Ok (inr chain)
  | fp :: fps' =>
      if negb (Nat.eqb (length fp) 32) then Ok (inl ("malformed chain fingerprint", chain)) else
      match read_file (Join root (issuerStorePath fp)) with
      | Panic => Panic
      | Err e => Ok (inl ("missing issuer " +:+ hex_encode fp +:+ " in store (run ResolveIssuers): " +:+ error_text e, chain))
      | Ok der =>
          match ParseCertificate der with
          | Panic => Panic
          | Err e => Ok (inl ("parse issuer " +:+ hex_encode fp +:+ ": " +:+ error_text e, chain))
          | Ok c => load_chain root fps' (chain ++ [c])
          end
      end
  end.

(** The signature path; [inl] the reason of a broken link, [inr] the last certificate. *)
Fixpoint check_links (prev : cert) (chain : list cert) : res (string + cert) :=
  match chain with
  | [] => Ok (inr prev)
  | c :: chain' =>
      match CheckSignatureFrom prev c with
      | Ok _ => check_links c chain'
      | Err e => Ok (inl ("broken link " +:+ Subject prev +:+ " signed by " +:+ Subject c +:+ ": " +:+ error_text e)%string)
      | Panic => Panic
      end
  end.

(** roots.go: the parsed roots and their fingerprints; unparseable files are skipped. *)
Fixpoint loadRoots (ds : list dirent) (certs : list cert) (set : gset bytes) : res (list cert * gset bytes) :=
  match ds with
  | [] => Ok (certs, set)
  | d :: ds' =>
      match de_err d with
      | Some ErrNotExist => loadRoots ds' certs set
      | Some e => Err e
      | None =>
          if de_isdir d || negb (has_suffix (Base (de_path d)) ".der") then loadRoots ds' certs set else
          let? der := read_file (de_path d) in
          match ParseCertificate der with
          | Ok c => loadRoots ds' (certs ++ [c]) (set ∪ {[sha256 der]})
          | _ => loadRoots ds' certs set
          end
      end
  end.

(** [top.CheckSignatureFrom(r) == nil] for the first such root. *)
Fixpoint find_anchor (top : cert) (roots : list cert) : option cert :=
  match roots with
  | [] => None
  | r :: roots' => if is_ok (CheckSignatureFrom top r) then Some r else find_anchor top roots'
  end.

Definition invalid (reason leaf : string) (chain : list cert) : VerifyEntryResponse :=
  mkVerify false reason leaf (map Subject chain) "" false.

(** [rootsWalk] is the walk of <root>/roots. *)
Definition verifyEntryChain (root : string) (rootsWalk : list dirent) (e : RawLogEntry)
  : res VerifyEntryResponse :=
  match leafCertificate e with
  | Panic => Panic
  | Err err => Ok (invalid (error_text err) "" [])
  | Ok leaf =>
      let? loaded := load_chain root (re_ChainFingerprints e) [] in
      match loaded with
      | inl (reason, chain) => Ok (invalid reason (Subject leaf) chain)
      | inr chain =>
          let? link := check_links leaf chain in
          match link with
          | inl reason => Ok (invalid reason (Subject leaf) chain)
          | inr top =>
              let? (roots, set) := loadRoots rootsWalk [] ∅ in
              match (if bool_decide (sha256 (Raw top) ∈ set) then Some top else find_anchor top roots) with
              | None =>
                  Ok (invalid ("chain terminates at " +:+ Subject top +:+
                    ", which is not a mirrored accepted root (run MirrorRoots)") (Subject leaf) chain)
              | Some anchor =>
                  let t := re_TimestampMs e in
                  Ok (mkVerify true "" (Subject leaf) (map Subject chain) (Subject anchor)
                    (forallb (fun c => negb ((t <? NotBefore c) || (NotAfter c <? t))) (leaf :: chain)))
              end
          end
      end
  end.

End Verify.

(** *** subjects.go *)

Section Subjects.

Variable read_file : string -> res bytes.
Variable gunzip : bytes -> res bytes.
Variable unmarshal : bytes -> res raw_batch.
Context {cert : Type}.
Variable ParseCertificate : bytes -> res cert.
Variable tls_x509_entry : bytes -> res (option bytes).
(** [Subject.CommonName] and [DNSNames] of a certificate. *)
Variable CommonName : cert -> string.
Variable DNSNames : cert -> list string.

(** The entry is returned beside the error when only its certificate fails. *)
Definition EntryWithCert (root : string) (ds : list dirent) (index : Z) : option RawLogEntry * res cert :=
  match findEntry read_file gunzip unmarshal root ds index with
  | Ok e => (Some e, leafCertificate ParseCertificate tls_x509_entry e)
  | Err err => (None, Err err)
  | Panic => (None, Panic)
  end.

Definition EntryWithSubjects (root : string) (ds : list dirent) (index : Z)
  : option RawLogEntry * res (string * list string) :=
  match findEntry read_file gunzip unmarshal root ds index with
  | Ok e => (Some e, let? c := leafCertificate ParseCertificate tls_x509_entry e in Ok (CommonName c, DNSNames c))
  | Err err => (None, Err err)
  | Panic => (None, Panic)
  end.

End Subjects.

(** *** resolve.go and service.go: ResolveIssuers *)

Fixpoint trim_right_slashes (n : nat) (s : string) : string :=
  match n with
  | O => s
  | S n' => if has_suffix s "/" then trim_right_slashes n' (trim_suffix s "/") else s
  end.

(** [strings.TrimRight(s, "/")] *)
Definition TrimRightSlash (s : string) : string := trim_right_slashes (String.length s) s.

Section Resolve.

(** The GET of an issuer URL: status and body. *)
Variable http : string -> res (Z * bytes).

Definition fetchIssuerDER (prefix : string) (fp : bytes) : res bytes :=
  let url := (TrimRightSlash prefix +:+ "/issuer/" +:+ hex_encode fp)%string in
  let? (code, der) := http url in
  if negb (code =? 200) then Err (Errorf ("HTTP " +:+ dec code)) else
  if bool_decide (sha256 der = fp) then Ok der
  else Err (Errorf ("fingerprint mismatch: got " +:+ hex_encode (sha256 der))).

End Resolve.

Record ResolveIssuersResponse := mkResolve {
  Referenced : Z;
  AlreadyPresent : Z;
  Fetched : Z;
  Failed : Z;
  Errors : list string }.

Section ResolveIssuers.

Variable Root : string.
Context {W : Writer}.
Variable map_order : gset bytes -> list bytes.

Definition issuerPresent (fp : bytes) : prog bool :=
  let! r := call (Stat (Join Root (issuerStorePath fp))) in Ret (is_ok r).

(** Split the referenced fingerprints into missing ones and a count of the rest. *)
Fixpoint partition_refs (fps missing : list bytes) (present : Z) : prog (list bytes * Z) :=
  match fps with
  | [] => Ret (missing, present)
  | fp :: fps' =>
      let! b := issuerPresent fp in
      if b then partition_refs fps' missing (present + 1)
      else partition_refs fps' (missing ++ [fp]) present
  end.

(** The workers' loop, one fingerprint after the other, until the context ends. *)
Fixpoint resolve_missing (fps : list bytes) (resp : ResolveIssuersResponse) : prog (res ResolveIssuersResponse) :=
  match fps with
  | [] => Ret (Ok resp)
  | fp :: fps' =>
      let! done := call CtxErr in
      if done then Ret (Ok resp) else
      let! der := call (Resolve fp) in
      let! r := match der with
                | Ok der => PutIfAbsent (issuerStorePath fp) der
                | Err e => Ret (Err e)
                | Panic => Ret Panic
                end in
      match r with
      | Ok _ => resolve_missing fps' (mkResolve (Referenced resp) (AlreadyPresent resp) (Fetched resp + 1)
                                        (Failed resp) (Errors resp))
      | Err e => resolve_missing fps' (mkResolve (Referenced resp) (AlreadyPresent resp) (Fetched resp)
                   (Failed resp + 1)
                   (if (length (Errors resp) <? 10)%nat
                    then Errors resp ++ [hex_encode fp +:+ ": " +:+ error_text e] else Errors resp))
      | Panic => Ret Panic
      end
  end.

(** The handler after the scan: [refs] and [monURL] from collectStaticIssuerRefs,
    [selURL] the monitoring URL of the resolved selector. *)
Definition ResolveIssuers (scan : res (gset bytes * string)) (dryRun : bool) (selURL : res string)
  : prog (res ResolveIssuersResponse) :=
  match wrap_err "scan" scan with
  | Err e => Ret (Err e)
  | Panic => Ret Panic
  | Ok (refs, monURL) =>
      let! (missing, present) := partition_refs (map_order refs) [] 0 in
      let resp := mkResolve (Z.of_nat (size refs)) present 0 0 [] in
      if dryRun || bool_decide (missing = []) then Ret (Ok resp) else
      let monURL := if String.eqb monURL ""
                    then match selURL with Ok u => u | _ => "" end else monURL in
      if String.eqb monURL "" then
        Ret (Err (Errorf "no monitoring_url found in stored batches; provide a log selector to locate the issuer endpoint"))
      else resolve_missing missing resp
  end.

End ResolveIssuers.

(** *** roots.go *)

Definition rootsDir : string := "roots".

Definition rootStorePath (hash : bytes) : string := Join rootsDir (hex_encode hash +:+ ".der").

Fixpoint mirror_loop {W : Writer} (roots : list bytes) (total present stored : Z)
  : prog (Z * Z * Z * res unit) :=
  match roots with
  | [] => Ret (total, present, stored, Ok tt)
  | der :: roots' =>
      let rel := rootStorePath (sha256 der) in
      let! h := Has rel in
      match h with
      | Ok true => mirror_loop roots' (total + 1) (present + 1) stored
      | _ =>
          let! r := PutIfAbsent rel der in
          match r with
          | Ok _ => mirror_loop roots' (total + 1) present (stored + 1)
          | e => Ret (total + 1, present, stored, e)
          end
      end
  end.

(** [fetched]: the answer of get-roots. *)
Definition mirrorRoots {W : Writer} (fetched : res (list bytes)) : prog (Z * Z * Z * res unit) :=
  match fetched with
  | Ok roots => mirror_loop roots 0 0 0
  | Err e => Ret (0, 0, 0, Err e)
  | Panic => Ret (0, 0, 0, Panic)
  end.

(** [entries]: os.ReadDir of <root>/roots, name and kind. *)
Definition rootsAlreadyMirrored (entries : res (list (string * bool))) : bool :=
  match entries with
  | Ok es => existsb (fun e => negb (snd e) && has_suffix (fst e) ".der") es
  | _ => false
  end.

(** ** Lemmas *)

Lemma find_loop_found read_file gunzip unmarshal ds i :
  (forall d, d ∈ ds -> de_err d = None) ->
  (forall d r, d ∈ ds -> is_partition d = true -> parseRangeFromName (Base (de_path d)) = Some r -> rstart r <= i < rend r ->
     is_ok (read_partition read_file gunzip unmarshal (de_path d)) = true) ->
  (exists d r batch e, d ∈ ds /\ is_partition d = true /\ parseRangeFromName (Base (de_path d)) = Some r /\
     rstart r <= i < rend r /\ read_partition read_file gunzip unmarshal (de_path d) = Ok batch /\
     e ∈ rb_Entries batch /\ re_Index e = i) ->
  exists e, find_loop read_file gunzip unmarshal ds i = Ok (Some e) /\ re_Index e = i.
Proof.
  induction ds as [|d ds IH]; intros Herr Hread (d0 & r & batch & e & Hin & Hp & Hr & Hi & Hb & He & Hidx).
  - by apply elem_of_nil in Hin.
  - cbn [find_loop]. rewrite (Herr d) by by left.
    assert (Hlater : d0 ∈ ds -> exists e, find_loop read_file gunzip unmarshal ds i = Ok (Some e) /\ re_Index e = i).
    { intros Hd. apply IH; [intros; apply Herr; by right|intros d1 r1 Hd1; apply Hread; by right|].
      by exists d0, r, batch, e. }
    destruct (is_partition d) eqn:Ep; cbn [negb].
    2: { apply Hlater. apply elem_of_cons in Hin as [->|Hin]; [congruence|done]. }
    destruct (parseRangeFromName (Base (de_path d))) as [r'|] eqn:Er.
    2: { apply Hlater. apply elem_of_cons in Hin as [->|Hin]; [congruence|done]. }
    destruct ((i <? rstart r') || (rend r' <=? i)) eqn:Ei.
    { apply Hlater. apply elem_of_cons in Hin as [->|Hin]; [|done].
      assert (r' = r) as -> by congruence. apply orb_true_iff in Ei as [Ei%Z.ltb_lt|Ei%Z.leb_le]; lia. }
    apply orb_false_iff in Ei as [E1%Z.ltb_ge E2%Z.leb_gt].
    pose proof (Hread d r' ltac:(by left) Ep Er ltac:(lia)) as Hok.
    destruct (read_partition read_file gunzip unmarshal (de_path d)) as [b| |] eqn:Eb; [|done..]. cbn [bind_res].
    destruct (list_find (fun e => re_Index e = i) (rb_Entries b)) as [[k e']|] eqn:Ef.
    { apply list_find_Some in Ef as (_ & Hx & _). by exists e'. }
    apply Hlater. apply elem_of_cons in Hin as [->|Hin]; [|done].
    assert (b = batch) as -> by congruence. apply list_find_None in Ef.
    rewrite Forall_forall in Ef. by destruct (Ef e He).
Qed.

Lemma find_loop_sound read_file gunzip unmarshal ds i e :
  find_loop read_file gunzip unmarshal ds i = Ok (Some e) ->
  re_Index e = i /\ exists d r batch, d ∈ ds /\ parseRangeFromName (Base (de_path d)) = Some r /\
    rstart r <= i < rend r /\ read_partition read_file gunzip unmarshal (de_path d) = Ok batch /\ e ∈ rb_Entries batch.
Proof.
  induction ds as [|d ds IH]; cbn [find_loop]; [done|].
  assert (Hl : find_loop read_file gunzip unmarshal ds i = Ok (Some e) ->
    re_Index e = i /\ exists d0 r batch, d0 ∈ d :: ds /\ parseRangeFromName (Base (de_path d0)) = Some r /\
    rstart r <= i < rend r /\ read_partition read_file gunzip unmarshal (de_path d0) = Ok batch /\ e ∈ rb_Entries batch).
  { intros H. destruct (IH H) as (H1 & d0 & r & b & H2 & H3). split; [done|]. exists d0, r, b. split; [by right|done]. }
  destruct (de_err d); [done|]. destruct (is_partition d); [|exact Hl]. cbn [negb].
  destruct (parseRangeFromName (Base (de_path d))) as [r|] eqn:Er; [|exact Hl].
  destruct ((i <? rstart r) || (rend r <=? i)) eqn:Ei; [exact Hl|].
  apply orb_false_iff in Ei as [E1%Z.ltb_ge E2%Z.leb_gt].
  destruct (read_partition _ _ _ _) as [b| |] eqn:Eb; [|done..]. cbn [bind_res].
  destruct (list_find _ _) as [[k e']|] eqn:Ef; [|exact Hl].
  intros [= ->]. apply list_find_Some in Ef as (Hk & Hx & _). split; [done|].
  exists d, r, b. split; [by left|]. split; [done|]. split; [lia|]. split; [done|]. by eapply list_elem_of_lookup_2.
Qed.

Section VerifySpec.

Context {cert : Type} (parse : bytes -> res cert) (tls : bytes -> res (option bytes)) (subj : cert -> string)
  (check : cert -> cert -> res unit) (raw : cert -> bytes) (nb na : cert -> Z) (read_file : string -> res bytes).

(** The issuer file of a fingerprint, parsed. *)
Definition stored_cert (root : string) (fp : bytes) (c : cert) : Prop :=
  length fp = 32%nat /\ exists der, read_file (Join root (issuerStorePath fp)) = Ok der /\ parse der = Ok c.

Lemma load_chain_inr root fps acc chain :
  load_chain parse read_file root fps acc = Ok (inr chain) <->
  exists cs, chain = acc ++ cs /\ Forall2 (stored_cert root) fps cs.
Proof using parse read_file.
  revert acc. induction fps as [|fp fps IH]; intros acc; cbn [load_chain].
  - split.
    + intros [= <-]. exists []. by rewrite app_nil_r.
    + intros (cs & -> & H). inversion H. by rewrite app_nil_r.
  - destruct (Nat.eqb_spec (length fp) 32) as [Hl|Hl]; cbn [negb].
    2: { split; [done|]. intros (cs & _ & H). inversion H as [|? ? ? ? [? _]]; subst. done. }
    destruct (read_file _) as [der|e|] eqn:Er.
    2-3: split; [done|]; intros (cs & _ & H); inversion H as [|? ? ? ? (? & der & Hd & _)]; subst; congruence.
    destruct (parse der) as [c|e|] eqn:Ep.
    2-3: split; [done|]; intros (cs & _ & H); inversion H as [|? ? ? ? (? & der' & Hd & ?)]; subst; congruence.
    rewrite IH. split.
    + intros (cs & -> & H). exists (c :: cs). split; [by rewrite <- app_assoc|]. constructor; [|done].
      split; [done|]. by exists der.
    + intros (cs & -> & H). inversion H as [|? c' ? cs' (? & der' & Hd & Hp)]; subst.
      assert (c' = c) as -> by congruence. exists cs'. split; [by rewrite <- app_assoc|done].
Qed.

(** Every certificate is signed by the next. *)
Fixpoint links_ok (prev : cert) (chain : list cert) : Prop :=
  match chain with
  | [] => True
  | c :: chain' => check prev c = Ok tt /\ links_ok c chain'
  end.

Lemma check_links_inr prev chain top :
  check_links subj check prev chain = Ok (inr top) <-> links_ok prev chain /\ top = List.last chain prev.
Proof using subj check.
  revert prev. induction chain as [|c chain IH]; intros prev; cbn [check_links links_ok].
  - split; [by intros [= <-]|by intros [_ ->]].
  - destruct (check prev c) as [[]|e|]; [|split; [done|by intros [[? _] _]]..].
    rewrite IH. assert (List.last (c :: chain) prev = List.last chain c) as ->.
    { clear. revert c. induction chain as [|c' chain IH]; intros c; [done|]. cbn [List.last] in *. by destruct chain. }
    split; [intros [? ?]; by repeat split|intros [[_ ?] ?]; by split].
Qed.

Lemma find_anchor_some top roots : is_Some (find_anchor check top roots) <-> exists r, r ∈ roots /\ check top r = Ok tt.
Proof using check.
  induction roots as [|r roots IH]; cbn [find_anchor].
  - split; [by intros [? ?]|]. by intros (r & Hr%elem_of_nil & _).
  - destruct (check top r) as [[]|e|] eqn:E; cbn [is_ok].
    + split; [|by eexists]. intros _. exists r. split; [by left|done].
    + rewrite IH. split; intros (r' & Hr' & Hc); exists r'; split; try done; [by right|].
      apply elem_of_cons in Hr' as [->|?]; [congruence|done].
    + rewrite IH. split; intros (r' & Hr' & Hc); exists r'; split; try done; [by right|].
      apply elem_of_cons in Hr' as [->|?]; [congruence|done].
Qed.

End VerifySpec.

Section ResolveSpec.

Context (net : bytes -> res bytes) (Root : string).
Hypothesis Hnet : forall fp der, net fp = Ok der -> sha256 der = fp.

#[local] Existing Instance LocalFSWriter.

Lemma partition_refs_spec fps missing k w missing' k' w' :
  run net (partition_refs Root fps missing k) w = (missing', k', w') ->
  files w' = files w /\ dirs w' = dirs w /\ ctxdone w' = ctxdone w /\
  exists miss, missing' = missing ++ miss /\ k' + Z.of_nat (length miss) = k + Z.of_nat (length fps) /\
    (forall fp, fp ∈ fps -> fp ∉ miss -> fs_present Root w (issuerStorePath fp)).
Proof.
  revert missing k w. induction fps as [|fp fps IH]; intros missing k w; cbn [partition_refs].
  - intros [= <- <- <-]. split_and!; try done. exists []. rewrite app_nil_r. split_and!; try done.
  - unfold issuerPresent, call. cbn [bind_prog run].
    destruct (exec net (Stat _) w) as [r w1] eqn:Es.
    assert (Hctx : ctxdone w1 = ctxdone w).
    { revert Es. cbn [exec]. unfold pop_fault. destruct (faults w) as [|[] ?]; try destruct (_ || _); by intros [= <- <-]. }
    apply exec_Stat in Es as (Hf & Hd & Hok & _). cbn [bind_prog run].
    assert (Hpres : forall p, fs_present Root w1 p <-> fs_present Root w p) by (intros p; unfold fs_present; by rewrite Hf, Hd).
    destruct r as [[]|e|]; cbn [is_ok]; intros H; apply IH in H as (Hf2 & Hd2 & Hc2 & miss & Hm & Hk & Hp);
      (split; [congruence|]); (split; [congruence|]); (split; [congruence|]).
    + exists miss. split; [done|]. split; [simpl length; lia|].
      intros fp' [->|Hin]%elem_of_cons Hn; [by apply Hok|]. by apply Hpres, Hp.
    + exists (fp :: miss). split; [by rewrite Hm, <- app_assoc|]. split; [simpl length; lia|].
      intros fp' [->|Hin]%elem_of_cons Hn; [by destruct Hn; left|]. apply Hpres, Hp; [done|]. intros ?. apply Hn. by right.
    + exists (fp :: miss). split; [by rewrite Hm, <- app_assoc|]. split; [simpl length; lia|].
      intros fp' [->|Hin]%elem_of_cons Hn; [by destruct Hn; left|]. apply Hpres, Hp; [done|]. intros ?. apply Hn. by right.
Qed.

#[local] Abbreviation istep := (issuer_step (stored := fs_stored Root) (present := fs_present Root) (ok_path := fs_path Root)).

Lemma resolve_missing_spec fps resp w resp' w' :
  ctxdone w = [] ->
  run net (@resolve_missing (LocalFSWriter Root) fps resp) w = (Ok resp', w') ->
  istep w w' /\ Referenced resp' = Referenced resp /\ AlreadyPresent resp' = AlreadyPresent resp /\
  Fetched resp' + Failed resp' = Fetched resp + Failed resp + Z.of_nat (length fps) /\
  Failed resp <= Failed resp' /\
  (Failed resp' = Failed resp -> forall fp, fp ∈ fps -> fs_present Root w' (issuerStorePath fp)).
Proof.
  revert resp w. induction fps as [|fp fps IH]; intros resp w Hctx; cbn [resolve_missing].
  - intros [= <- <-]. split; [by apply (issuer_step_quiet (WriterLaws0 := LocalFS_laws Root))|].
    split_and!; try done; try (simpl; lia). by intros _ fp Hfp%elem_of_nil.
  - unfold call. cbn [bind_prog run exec]. rewrite Hctx. cbn [bind_prog run exec].
    rewrite run_bind.
    destruct (run net _ w) as [r w1] eqn:Er.
    assert (Hc1 : ctxdone w1 = []) by by eapply run_ctx.
    assert (H1 : istep w w1 /\ (r = Ok tt -> fs_present Root w1 (issuerStorePath fp))).
    { destruct (net fp) as [der|e|] eqn:En.
      - destruct (put_one net (WriterLaws0 := LocalFS_laws Root) (issuer_path_clean Root) (fun _ => I) fp der w r w1
                    (Hnet _ _ En) Er) as (Hs & Hp & _). done.
      - injection Er as <- <-. split; [|done].
        by apply (issuer_step_quiet (WriterLaws0 := LocalFS_laws Root)).
      - injection Er as <- <-. split; [|done].
        by apply (issuer_step_quiet (WriterLaws0 := LocalFS_laws Root)). }
    destruct H1 as [Hs1 Hp1].
    destruct r as [[]|e|]; [| |done]; intros H; apply IH in H as (Hs2 & HR & HA & HF & Hle & Hall); [|done| |done];
      cbn [Referenced AlreadyPresent Fetched Failed] in *;
      (split; [by eapply issuer_step_trans|]); split_and!; try done; try (simpl length; lia).
    intros Hz fp' [->|Hin]%elem_of_cons; [|by apply Hall].
    apply Hs2; [apply issuer_path_clean|]. by apply Hp1.
Qed.

End ResolveSpec.

(** EntryWithSubjects is the view of EntryWithCert that its callers print. *)
Lemma entry_with_subjects_of_cert {cert : Type} read_file gunzip unmarshal (parse : bytes -> res cert) tls cn names root ds index :
  EntryWithSubjects read_file gunzip unmarshal parse tls cn names root ds index =
  (let (e, c) := EntryWithCert read_file gunzip unmarshal parse tls root ds index in
   (e, let? c := c in Ok (cn c, names c))).
Proof. unfold EntryWithSubjects, EntryWithCert. by destruct (findEntry _ _ _ root ds index). Qed.

(** ** Properties *)

(** C37. Reading back: an index that is archived is found. If the walk lists the
    files of the archive without errors and the partition files whose names cover
    the index can be read, whatever state the others are in, findEntry returns an
    entry with the requested index, and the entry is one of a listed file whose
    name covers it. *)
Theorem find_entry_archived (root : string) (ds : list dirent) (w : world) (i : Z)
  (gunzip : bytes -> res bytes) (unmarshal : bytes -> res raw_batch)
  (marshal : list RawLogEntry -> res bytes) (gran : granularity)
  (Hrt : forall rn d, marshal rn = Ok d -> exists url, unmarshal d = Ok (mkRawBatch url rn))
  (Hwalk : forall p b, files w !! Join root p = Some b -> mkDirent (Join root p) false None ∈ ds)
  (Herr : forall d, d ∈ ds -> de_err d = None)
  (Hread : forall d r, d ∈ ds -> is_partition d = true -> parseRangeFromName (Base (de_path d)) = Some r -> rstart r <= i < rend r ->
     is_ok (read_partition (fun p => match files w !! p with Some b => Ok b | None => Err ErrNotExist end)
              gunzip unmarshal (de_path d)) = true)
  (Harch : archived (stored := fs_stored root) marshal gran w i) :
  let read_file := fun p => match files w !! p with Some b => Ok b | None => Err ErrNotExist end in
  exists e d r batch, findEntry read_file gunzip unmarshal root ds i = Ok e /\ re_Index e = i /\
    d ∈ ds /\ parseRangeFromName (Base (de_path d)) = Some r /\ rstart r <= i < rend r /\
    read_partition read_file gunzip unmarshal (de_path d) = Ok batch /\ e ∈ rb_Entries batch.
Proof.
  cbv zeta.
  destruct Harch as (rn & p & d & a & Hf & Hc & Ha & Hmax & Hi & _ & Hs).
  pose proof (file_of_range marshal gran rn p d a Hf Hc Ha Hmax) as Hrange.
  assert (Hbase : Base (Join root p) = Base p /\ has_suffix (Base p) ".gz" = false /\
                  has_suffix (trim_suffix (Base p) ".gz") ".binpb" = true).
  { destruct Hf as (e0 & en & day & sa & sb & H0 & Hn & _ & Ea & Eb & -> & _).
    destruct (consecutive_ends _ _ _ _ Hc H0 Hn) as [E0 En].
    assert (0 < Z.of_nat (length rn)) by (destruct rn; [done|simpl; lia]).
    assert (Hna : str_forallb (fun c => negb (Ascii.eqb c "/")) sa = true) by (eapply digits36_no_slash; [|done]; lia).
    assert (Hnb : str_forallb (fun c => negb (Ascii.eqb c "/")) sb = true) by (eapply digits36_no_slash; [|done]; lia).
    assert (Hname : partition_name sa sb "" = ((sa +:+ "-" +:+ sb) +:+ ".binpb")%string)
      by (unfold partition_name; rewrite !str_app_assoc; done).
    rewrite part_path_base by done. split.
    - unfold part_path. rewrite Join_assoc. apply Base_Join. unfold partition_name.
      rewrite str_forallb_app, Hna. cbn [str_forallb]. by rewrite str_forallb_app, Hnb.
    - rewrite Hname. rewrite binpb_not_gz. split; [done|].
      rewrite trim_suffix_neq by apply binpb_not_gz. apply has_suffix_app. }
  destruct Hbase as (Hb1 & Hb2 & Hb3).
  assert (Hmarsh : marshal rn = Ok d) by (by destruct Hf as (? & ? & ? & ? & ? & _ & _ & _ & _ & _ & _ & ?)).
  destruct (Hrt rn d Hmarsh) as [url Hurl].
  assert (exists e, e ∈ rn /\ re_Index e = i) as (e & He & Hidx).
  { unfold consecutive in Hc. assert (i ∈ re_Index <$> rn) as Hin by (rewrite Hc; apply elem_of_seqZ; lia).
    apply list_elem_of_fmap in Hin as (e & -> & He). eauto. }
  destruct (find_loop_found (fun p => match files w !! p with Some b => Ok b | None => Err ErrNotExist end)
              gunzip unmarshal ds i Herr Hread) as (e' & Hfind & He').
  - exists (mkDirent (Join root p) false None), (mkRange a (a + Z.of_nat (length rn))), (mkRawBatch url rn), e.
    split; [by eapply Hwalk|]. split; [unfold is_partition; cbn; by rewrite Hb1, Hb3|].
    split; [cbn; by rewrite Hb1|]. split; [done|]. split; [|done].
    unfold read_partition. cbn. unfold fs_stored in Hs. rewrite Hs. cbn. rewrite Hb1, Hb2. cbn. by rewrite Hurl.
  - destruct (find_loop_sound _ _ _ _ _ _ Hfind) as (_ & d' & r' & batch' & Hd' & Hr' & Hi' & Hb' & Hin').
    exists e', d', r', batch'. unfold findEntry. rewrite Hfind. destruct Hi'. done.
Qed.

(** C38. VerifyEntry answers valid exactly when the leaf certificate parses, every
    chain fingerprint has a parseable certificate in the issuer store, each
    certificate is signed by the next, and the last one is a mirrored root or
    signed by one. *)
Theorem verify_valid_iff {cert : Type} (parse : bytes -> res cert) (tls : bytes -> res (option bytes))
  (subj : cert -> string) (check : cert -> cert -> res unit) (raw : cert -> bytes) (nb na : cert -> Z)
  (read_file : string -> res bytes) (root : string) (ws : list dirent) (e : RawLogEntry)
  (roots : list cert) (set : gset bytes) (resp : VerifyEntryResponse)
  (Hroots : loadRoots parse read_file ws [] ∅ = Ok (roots, set))
  (Hresp : verifyEntryChain parse tls subj check raw nb na read_file root ws e = Ok resp) :
  Valid resp = true <->
  exists leaf chain, leafCertificate parse tls e = Ok leaf /\
    Forall2 (stored_cert parse read_file root) (re_ChainFingerprints e) chain /\
    links_ok check leaf chain /\
    (sha256 (raw (List.last chain leaf)) ∈ set \/ exists r, r ∈ roots /\ check (List.last chain leaf) r = Ok tt).
Proof.
  revert Hresp. unfold verifyEntryChain. destruct (leafCertificate parse tls e) as [leaf|err|] eqn:El; [| |done].
  2: { intros [= <-]. split; [done|]. by intros (? & ? & ? & _). }
  destruct (load_chain parse read_file root (re_ChainFingerprints e) []) as [[[reason ch]|chain]|er|] eqn:Ec; [| |done..];
    cbn [bind_res].
  { intros [= <-]. split; [done|]. intros (leaf' & chain & _ & Hch & _).
    assert (load_chain parse read_file root (re_ChainFingerprints e) [] = Ok (inr chain)) by (apply load_chain_inr; eauto).
    congruence. }
  assert (Huniq : forall chain', Forall2 (stored_cert parse read_file root) (re_ChainFingerprints e) chain' -> chain' = chain).
  { intros chain' H. assert (load_chain parse read_file root (re_ChainFingerprints e) [] = Ok (inr chain')) as H2
      by (apply load_chain_inr; eauto). congruence. }
  apply load_chain_inr in Ec as (cs & -> & Hch). simpl in Huniq, Hch |- *.
  destruct (check_links subj check leaf cs) as [[reason|top]|er|] eqn:Ek; [| |done..]; cbn [bind_res].
  { intros [= <-]. split; [done|]. intros (leaf' & chain & [= <-] & Hch' & Hlink & _). apply Huniq in Hch' as ->.
    assert (check_links subj check leaf cs = Ok (inr (List.last cs leaf))) by (by apply check_links_inr). congruence. }
  apply check_links_inr in Ek as [Hlinks ->]. rewrite Hroots. cbn [bind_res].
  set (top := List.last cs leaf).
  assert (Hanch : is_Some (if bool_decide (sha256 (raw top) ∈ set) then Some top else find_anchor check top roots) <->
                  sha256 (raw top) ∈ set \/ exists r, r ∈ roots /\ check top r = Ok tt).
  { case_bool_decide; [split; [by left|by eexists]|]. rewrite find_anchor_some. naive_solver. }
  destruct (if bool_decide _ then Some top else find_anchor check top roots) as [anchor|]; intros [= <-]; cbn [Valid].
  - split; [|done]. intros _. exists leaf, cs. do 3 (split; [done|]). apply Hanch. by eexists.
  - split; [done|]. intros (leaf' & chain & [= <-] & Hch' & _ & Ha). apply Huniq in Hch' as ->.
    apply Hanch in Ha as [? ?]. done.
Qed.

(** ResolveIssuers on a local archive, with a live context, for any faults of
    the file system: the counts add up, the store stays content-addressed
    because fetchIssuerDER checks the hash, and when nothing failed every
    referenced fingerprint has its certificate on disk. *)
Theorem resolve_issuers_complete (http : string -> res (Z * bytes)) (prefix Root : string)
  (map_order : gset bytes -> list bytes) (refs : gset bytes) (monURL : string) (selURL : res string)
  (w w' : world) (resp : ResolveIssuersResponse)
  (Hord : forall s, map_order s ≡ₚ elements s) (Hctx : ctxdone w = [])
  (Hrun : run (fetchIssuerDER http prefix) (@ResolveIssuers Root (LocalFSWriter Root) map_order (Ok (refs, monURL)) false selURL) w
          = (Ok resp, w')) :
  Referenced resp = Z.of_nat (size refs) /\
  Referenced resp = AlreadyPresent resp + Fetched resp + Failed resp /\
  (store_sound (stored := fs_stored Root) w -> store_sound (stored := fs_stored Root) w') /\
  (Failed resp = 0 -> forall fp, fp ∈ refs -> fs_present Root w' (issuerStorePath fp)).
Proof.
  assert (Hnet : forall fp der, fetchIssuerDER http prefix fp = Ok der -> sha256 der = fp).
  { intros fp der. unfold fetchIssuerDER. destruct (http _) as [[code b]| |]; cbn [bind_res]; [|done..].
    destruct (negb _); [done|]. case_bool_decide; [by intros [= <-]|done]. }
  revert Hrun. unfold ResolveIssuers. cbn [wrap_err]. rewrite run_bind.
  destruct (run _ (partition_refs Root (map_order refs) [] 0) w) as [[missing present] w1] eqn:Ep.
  apply partition_refs_spec in Ep as (Hf & Hd & Hc & miss & Hm & Hk & Hpres). simpl in Hm. subst missing.
  assert (Hlen : Z.of_nat (length (map_order refs)) = Z.of_nat (size refs)) by (by rewrite Hord).
  assert (Hin : forall fp, fp ∈ refs -> fp ∈ map_order refs) by (intros fp Hfp; rewrite Hord; by apply elem_of_elements).
  assert (H01 : store_sound (stored := fs_stored Root) w -> store_sound (stored := fs_stored Root) w1).
  { intros Hs h dd Hh. apply Hs. unfold fs_stored in *. by rewrite <- Hf. }
  assert (Hpres1 : forall fp, fs_present Root w fp -> fs_present Root w1 fp)
    by (intros fp; unfold fs_present; by rewrite Hf, Hd).
  cbn [orb]. case_bool_decide as Hmiss.
  - subst miss. intros [= <- <-]. cbn. simpl in Hk. split; [done|]. split; [lia|]. split; [done|].
    intros _ fp Hfp. apply Hpres1, Hpres; [by apply Hin|]. by apply not_elem_of_nil.
  - destruct (String.eqb (if String.eqb monURL "" then _ else _) ""); [done|].
    intros H. apply resolve_missing_spec in H as (Hs & HR & HA & HF & Hle & Hall); [|done|congruence].
    cbn in *. split; [congruence|]. split; [lia|]. split; [intros Hss; by apply Hs, H01|].
    intros Hz fp Hfp. destruct (decide (fp ∈ miss)); [by apply Hall|].
    apply Hs; [apply issuer_path_clean|]. apply Hpres1, Hpres; [by apply Hin|done].
Qed.

(** ** Witnesses *)

#[export] Instance RawLogEntry_eq_dec : EqDecision RawLogEntry.
Proof. solve_decision. Defined.

Definition entry7 : RawLogEntry := sample_raw 7 0.
(** The archive also has a damaged partition, of index 9. *)
Definition world7 : world := set_files (<["data/1970-01-01/7-7.binpb" := [x07]]> {["data/1970-01-01/9-9.binpb" := [xff]]}) quiet_world.
Definition walk7 : list dirent :=
  [mkDirent "data/1970-01-01/9-9.binpb" false None; mkDirent "data/1970-01-01/7-7.binpb" false None].
Definition marshal7 (rn : list RawLogEntry) : res bytes :=
  if bool_decide (rn = [entry7]) then Ok [x07] else Err ErrSyscall.
Definition unmarshal7 (d : bytes) : res raw_batch :=
  if bool_decide (d = [x07]) then Ok (mkRawBatch "https://l/" [entry7]) else Err ErrSyscall.
Definition read7 (p : string) : res bytes := match files world7 !! p with Some b => Ok b | None => Err ErrNotExist end.

Lemma find_entry_archived_witness :
  is_ok (read_partition read7 Ok unmarshal7 "data/1970-01-01/9-9.binpb") = false /\
  exists e d r batch, findEntry read7 Ok unmarshal7 "data" walk7 7 = Ok e /\ re_Index e = 7 /\
    d ∈ walk7 /\ parseRangeFromName (Base (de_path d)) = Some r /\ rstart r <= 7 < rend r /\
    read_partition read7 Ok unmarshal7 (de_path d) = Ok batch /\ e ∈ rb_Entries batch.
Proof.
  split; [vm_compute; reflexivity|].
  apply (find_entry_archived "data" walk7 world7 7 Ok unmarshal7 marshal7 GRAN_DAY).
  - intros rn d. unfold marshal7. case_bool_decide as H; [|done]. intros [= <-]. exists "https://l/". by rewrite H.
  - intros p b H. change (files world7) with (<["data/1970-01-01/7-7.binpb" := [x07]]> {["data/1970-01-01/9-9.binpb" := [xff]]} : gmap string bytes) in H.
    apply lookup_insert_Some in H as [[<- _]|[_ [H _]%lookup_singleton_Some]]; [right; by left|]. rewrite <- H. by left.
  - by intros d [->|[->|?%elem_of_nil]%elem_of_cons]%elem_of_cons.
  - intros d r [->|[->|?%elem_of_nil]%elem_of_cons]%elem_of_cons _ Hr Hi; [|vm_compute; reflexivity|done].
    vm_compute in Hr. injection Hr as <-. cbn in Hi. lia.
  - exists [entry7], "1970-01-01/7-7.binpb", [x07], 7. split_and!; try done.
    + exists entry7, entry7, "1970-01-01", "7", "7". split_and!; try done. by repeat constructor.
Defined.

(** Certificates are byte strings; one signs another when the first bytes agree. *)
Definition toy_check (a b : bytes) : res unit :=
  if bool_decide (take 1 a = take 1 b) then Ok tt else Err ErrSyscall.
Definition toy_leaf : RawLogEntry := mkEntry 1 0 1 1 [x01] [sha256 [x01; x02]] [] [].

Lemma verify_valid_iff_witness :
  let resp := mkVerify true "" "cn" ["cn"] "cn" true in
  verifyEntryChain Ok (fun b => Ok (Some b)) (fun _ => "cn") toy_check id (fun _ => 0) (fun _ => 1)
    (fun _ => Ok [x01; x02]) "data" [mkDirent "data/roots/a.der" false None] toy_leaf = Ok resp /\
  (Valid resp = true <->
   exists leaf chain, leafCertificate Ok (fun b => Ok (Some b)) toy_leaf = Ok leaf /\
     Forall2 (stored_cert Ok (fun _ => Ok [x01; x02]) "data") (re_ChainFingerprints toy_leaf) chain /\
     links_ok toy_check leaf chain /\
     (sha256 (id (List.last chain leaf)) ∈ ({[sha256 [x01; x02]]} : gset bytes) \/
      exists r, r ∈ [[x01; x02]] /\ toy_check (List.last chain leaf) r = Ok tt)).
Proof.
  cbv zeta.
  assert (loadRoots Ok (fun _ => Ok [x01; x02]) [mkDirent "data/roots/a.der" false None] [] ∅
          = Ok ([[x01; x02]], {[sha256 [x01; x02]]} : gset bytes)) as H1.
  { cbn [loadRoots de_err de_isdir de_path bind_res].
    replace (has_suffix (Base "data/roots/a.der") ".der") with true by reflexivity.
    cbn [orb negb app]. by rewrite (left_id_L ∅ (∪)). }
  assert (verifyEntryChain Ok (fun b => Ok (Some b)) (fun _ => "cn") toy_check id (fun _ => 0) (fun _ => 1)
    (fun _ => Ok [x01; x02]) "data" [mkDirent "data/roots/a.der" false None] toy_leaf
    = Ok (mkVerify true "" "cn" ["cn"] "cn" true)) as H2 by (vm_compute; reflexivity).
  split; [exact H2|].
  exact (verify_valid_iff Ok (fun b => Ok (Some b)) (fun _ => "cn") toy_check id (fun _ => 0) (fun _ => 1)
    (fun _ => Ok [x01; x02]) "data" [mkDirent "data/roots/a.der" false None] toy_leaf _ _ _ H1 H2).
Defined.

Definition one_issuer (url : string) : res (Z * bytes) := Ok (200, [x30]).

Lemma resolve_issuers_complete_witness :
  let refs : gset bytes := {[sha256 [x30]]} in
  let out := run (fetchIssuerDER one_issuer "https://l/")
               (@ResolveIssuers "data" (LocalFSWriter "data") elements (Ok (refs, "https://l/")) false (Err EOF)) quiet_world in
  out.1 = Ok (mkResolve 1 0 1 0 []) /\
  forall fp, fp ∈ refs -> fs_present "data" out.2 (issuerStorePath fp).
Proof.
  cbv zeta. split; [vm_compute; reflexivity|].
  refine (proj2 (proj2 (proj2 (resolve_issuers_complete one_issuer "https://l/" "data" elements {[sha256 [x30]]}
    "https://l/" (Err EOF) quiet_world _ (mkResolve 1 0 1 0 []) _ _ _))) eq_refl).
  - done.
  - reflexivity.
  - vm_compute. reflexivity.
Defined.
