(* ===== verification/ServiceV2.v ===== *)
(** internal/ctv2/maploglist.go and the handlers of internal/ctv2/service.go:
    the log list and its cache, selector resolution, GetLogEntries and
    CheckCoverage. gRPC status errors are [Wrap "<code>"]; the log list download
    and parse, the clients and the fetchers' networks are parameters. *)

From S2P Require Import Prelude GoStd Float Sha256 Base36 Coverage FileSys Writer Partition Issuers Fetch Archive.

(** ** Definitions *)

(** *** maploglist.go: from loglist3 to the proto types *)

(** Timestamps are Unix milliseconds. *)
Record LogStates := mkLogStates {
  ls_Pending : option Z; ls_Qualified : option Z; ls_Usable : option Z;
  ls_ReadOnly : option Z; ls_Retired : option Z; ls_Rejected : option Z }.

Record src_log := mkSrcLog {
  sl_LogID : bytes; sl_Key : bytes; sl_Description : string;
  sl_URL : string;              (* RFC 6962 logs *)
  sl_SubmissionURL : string;    (* tiled logs *)
  sl_MonitoringURL : string;
  sl_MMD : Z; sl_Type : string;
  sl_State : option LogStates;
  sl_TemporalInterval : option (Z * Z) }.

Record src_operator := mkSrcOp {
  so_Name : string; so_Email : list string; so_Logs : list src_log; so_TiledLogs : list src_log }.

Record src_list := mkSrcList {
  sll_Version : string; sll_Timestamp : Z; sll_IsAllLogs : bool; sll_Operators : list src_operator }.

Inductive LogProtocol := UNSPECIFIED | RFC6962 | STATIC_CT_API | STATIC_CT_API_NO_CHECKPOINT.

#[export] Instance LogProtocol_eq_dec : EqDecision LogProtocol.
Proof. solve_decision. Defined.

Inductive CTLogState :=
| STATE_UNSPECIFIED | PENDING | QUALIFIED | USABLE | READONLY | RETIRED | REJECTED.

Record CTLog := mkCTLog {
  LogId : bytes; Key : bytes; Description : string; Protocol : LogProtocol;
  Url : string; SubmissionUrl : string; MonitoringUrl : string;
  MmdSeconds : Z; LogType : string; State : CTLogState; StateTimestampMs : Z;
  TemporalInterval : option (Z * Z) }.

Record CTLogOperator := mkOperator { op_Name : string; op_Email : list string; op_Logs : list CTLog }.

Record CTLogList := mkLogList {
  Version : string; LogListTimestampMs : Z; IsAllLogs : bool; Operators : list CTLogOperator }.

Definition mapState (st : option LogStates) : CTLogState * Z :=
  match st with
  | None => (STATE_UNSPECIFIED, 0)
  | Some st =>
      match ls_Pending st, ls_Qualified st, ls_Usable st, ls_ReadOnly st, ls_Retired st, ls_Rejected st with
      | Some t, _, _, _, _, _ => (PENDING, t)
      | None, Some t, _, _, _, _ => (QUALIFIED, t)
      | None, None, Some t, _, _, _ => (USABLE, t)
      | None, None, None, Some t, _, _ => (READONLY, t)
      | None, None, None, None, Some t, _ => (RETIRED, t)
      | None, None, None, None, None, Some t => (REJECTED, t)
      | None, None, None, None, None, None => (STATE_UNSPECIFIED, 0)
      end
  end.

Definition mapRFC6962Log (lg : src_log) : CTLog :=
  let '(state, ts) := mapState (sl_State lg) in
  mkCTLog (sl_LogID lg) (sl_Key lg) (sl_Description lg) RFC6962 (sl_URL lg) "" "" (sl_MMD lg) (sl_Type lg)
    state ts (sl_TemporalInterval lg).

Definition mapTiledLog (lg : src_log) : CTLog :=
  let '(state, ts) := mapState (sl_State lg) in
  mkCTLog (sl_LogID lg) (sl_Key lg) (sl_Description lg) STATIC_CT_API "" (sl_SubmissionURL lg)
    (sl_MonitoringURL lg) (sl_MMD lg) (sl_Type lg) state ts (sl_TemporalInterval lg).

Definition mapLogList (ll : src_list) : CTLogList :=
  mkLogList (sll_Version ll) (sll_Timestamp ll) (sll_IsAllLogs ll)
    (map (fun op => mkOperator (so_Name op) (so_Email op)
                      (map mapRFC6962Log (so_Logs op) ++ map mapTiledLog (so_TiledLogs op)))
       (sll_Operators ll)).

(** *** The service's log-list cache *)

Record Service := mkService {
  defaultRoot : string;
  logList : option CTLogList;
  byLogID : gmap string CTLog }.

Definition logs_of (l : CTLogList) : list CTLog := Operators l ≫= op_Logs.

(** [s.byLogID[hex(log_id)] = lg] over all operators: the last log with an id wins. *)
Definition index_logs (l : CTLogList) : gmap string CTLog :=
  fold_left (fun m lg => <[hex_encode (LogId lg) := lg]> m) (logs_of l) ∅.

Section LogList.

(** Download and parse of a log list URL, and loglist3's default URL. *)
Variable download : string -> res src_list.
Variable LogListURL : string.

Definition fetchLogList (s : Service) (url : string) : Service * res CTLogList :=
  match download url with
  | Ok ll =>
      let mapped := mapLogList ll in
      (mkService (defaultRoot s) (Some mapped) (index_logs mapped), Ok mapped)
  | Err e => (s, Err e)
  | Panic => (s, Panic)
  end.

Definition GetLogList (s : Service) (url : string) : Service * res CTLogList :=
  let url := if String.eqb url "" then LogListURL else url in
  let '(s, r) := fetchLogList s url in
  (s, wrap_err "Unavailable: fetch log list" r).

Definition lookupLog (s : Service) (logID : bytes) : Service * res CTLog :=
  let key := hex_encode logID in
  let not_found := Err (Errorf ("log_id " +:+ key +:+ " not found in log list")) in
  match byLogID s !! key with
  | Some lg => (s, Ok lg)
  | None =>
      if bool_decide (byLogID s = ∅) then
        match fetchLogList s LogListURL with
        | (s, Err e) => (s, Err e)
        | (s, Panic) => (s, Panic)
        | (s, Ok _) =>
            match byLogID s !! key with
            | Some lg => (s, Ok lg)
            | None => (s, not_found)
            end
        end
      else (s, not_found)
  end.

Record LogSelector := mkSelector {
  sel_LogId : bytes; sel_MonitoringUrl : string; sel_Protocol : LogProtocol; sel_PublicKey : bytes }.

Definition invalid_argument {A} (msg : string) : res A := Err (Wrap "InvalidArgument" (Errorf msg)).

Definition resolveSelector (s : Service) (sel : option LogSelector) : Service * res LogSelector :=
  match sel with
  | None => (s, invalid_argument "log selector required")
  | Some sel =>
      if negb (String.eqb (sel_MonitoringUrl sel) "") && negb (bool_decide (sel_Protocol sel = UNSPECIFIED))
      then (s, Ok sel)
      else if bool_decide (sel_LogId sel = [])
      then (s, invalid_argument "selector needs either (monitoring_url + protocol) or log_id")
      else
        match lookupLog s (sel_LogId sel) with
        | (s, Err e) => (s, Err (Wrap "NotFound" e))
        | (s, Panic) => (s, Panic)
        | (s, Ok lg) =>
            (s, Ok (mkSelector (sel_LogId sel)
                      (if String.eqb (sel_MonitoringUrl sel) ""
                       then (if bool_decide (Protocol lg = STATIC_CT_API) then MonitoringUrl lg else Url lg)
                       else sel_MonitoringUrl sel)
                      (Protocol lg)
                      (match sel_PublicKey sel with [] => Key lg | k => k end)))
        end
  end.

(** The base URL of get-roots; the empty string when it is unknown. *)
Definition getRootsBase (s : Service) (sel : LogSelector) : Service * string :=
  let fallback := if bool_decide (sel_Protocol sel = RFC6962) then sel_MonitoringUrl sel else "" in
  if bool_decide (sel_LogId sel = []) then (s, fallback) else
  match lookupLog s (sel_LogId sel) with
  | (s, Ok lg) =>
      if bool_decide (Protocol lg = STATIC_CT_API) then
        (s, if String.eqb (SubmissionUrl lg) "" then fallback else SubmissionUrl lg)
      else (s, if String.eqb (Url lg) "" then fallback else Url lg)
  | (s, _) => (s, fallback)
  end.

End LogList.

(** *** CheckCoverage *)

Record CheckCoverageResponse := mkCoverage {
  TreeSize : Z; StoredEntries : Z; Frontier : Z; ContiguousThrough : Z;
  PartitionFiles : Z; SthError : string; CoveragePct : float64; Gaps : list idxRange }.

(** [scan]: the walk of output_root; [sth]: the tree size of the resolved
    selector's STH, asked only when [querySth]. *)
Definition CheckCoverage (outputRoot : string) (scan : res (list idxRange * Z)) (querySth includeGaps : bool)
    (sth : res Z) : res CheckCoverageResponse :=
  if String.eqb outputRoot "" then invalid_argument "output_root required" else
  let? (ranges, files) := wrap_err ("Internal: scan " +:+ outputRoot) scan in
  let '(treeSize, sthErr) :=
    if querySth then match sth with Ok t => (t, "") | Err e => (0, error_text e) | Panic => (0, "") end
    else (0, "") in
  let sm := summarizeRanges ranges treeSize in
  Ok (mkCoverage treeSize (sm_stored sm) (sm_frontier sm) (sm_contiguous sm) files sthErr
        (if 0 <? treeSize then fmul (fdiv (of_int (sm_stored sm)) (of_int treeSize)) (of_int 100) else S754_zero false)
        (if includeGaps then sm_gaps sm else [])).

(** *** GetLogEntries *)

Record GetLogEntriesRequest := mkGetLogEntries {
  StartIndex : Z; EndIndex : Z; req_OutputRoot : string; req_gzip : bool; req_gran : granularity }.

Record GetLogEntriesResponse := mkGetLogEntriesResponse {
  EntriesWritten : Z; BytesWritten : Z; FirstIndex : Z; LastIndex : Z }.

Section GetLogEntries.

Variable download : string -> res src_list.
Variable LogListURL : string.
Variable gz : bytes -> res bytes.
Variable marshal : list RawLogEntry -> res bytes.
Variable map_order : gset bytes -> list bytes.
(** The fetchers' constructors: a Fetch method awaiting its sink. *)
Definition fetch_method : Type := (entryBatch -> prog (res unit)) -> prog (res unit).
Variable newRFC6962Fetcher : LogSelector -> res fetch_method.
Variable newStaticFetcher : LogSelector -> res fetch_method.
Variable newTileFetcher : LogSelector -> res fetch_method.
(** os.ReadDir of a directory, and the get-roots answer of a base URL. *)
Variable read_dir : world -> string -> res (list (string * bool)).
Variable get_roots : string -> res (list bytes).

(** The checks before any fetching, in the code's order. *)
Definition check_request (s : Service) (req : GetLogEntriesRequest) (sel : option LogSelector)
  : Service * res (string * LogSelector * fetch_method) :=
  if (StartIndex req <? 0) || (EndIndex req <? StartIndex req) then
    (s, invalid_argument ("invalid range [" +:+ dec (StartIndex req) +:+ ", " +:+ dec (EndIndex req) +:+ ")"))
  else
    let '(s, sel) := resolveSelector download LogListURL s sel in
    (s,
     let? sel := sel in
     let root := if String.eqb (req_OutputRoot req) "" then defaultRoot s else req_OutputRoot req in
     if String.eqb root "" then invalid_argument "output_root required (no server default configured)" else
     let? fetch :=
       match sel_Protocol sel with
       | RFC6962 => wrap_err "InvalidArgument: build fetcher" (newRFC6962Fetcher sel)
       | STATIC_CT_API => wrap_err "InvalidArgument: build fetcher" (newStaticFetcher sel)
       | STATIC_CT_API_NO_CHECKPOINT => wrap_err "InvalidArgument: build fetcher" (newTileFetcher sel)
       | UNSPECIFIED => invalid_argument "unknown or unspecified log protocol"
       end in
     Ok (root, sel, fetch)).

(** The best-effort mirror of the accepted roots that ends a range job. *)
Definition mirror_after (s : Service) (root : string) (sel : LogSelector)
    (net : bytes -> res bytes) (w : world) : Service * world :=
  if rootsAlreadyMirrored (read_dir w (Join root rootsDir)) then (s, w) else
  let '(s, base) := getRootsBase download LogListURL s sel in
  if String.eqb base "" then (s, w)
  else (s, (run net (@mirrorRoots (LocalFSWriter root) (get_roots base)) w).2).

Definition GetLogEntries (s : Service) (req : GetLogEntriesRequest) (sel : option LogSelector)
    (net : bytes -> res bytes) (w : world) : Service * res GetLogEntriesResponse * world :=
  match check_request s req sel with
  | (s, Err e) => (s, Err e, w)
  | (s, Panic) => (s, Panic, w)
  | (s, Ok (root, sel, fetch)) =>
      let base := LocalFSWriter root in
      let partW := if req_gzip req then gzipWriter gz base else base in
      let resolver := negb (bool_decide (sel_Protocol sel = RFC6962)) in
      let w := set_seen ∅ (set_resolved 0 0 [] (set_stats 0 0 (-1) (-1) w)) in
      let sink := @writeBatch partW marshal (req_gran req) (@ingest base resolver map_order) in
      match run net (fetch sink) w with
      | (Ok _, w) =>
          let '(s, w) := mirror_after s root sel net w in
          (s, Ok (mkGetLogEntriesResponse (entriesWritten w) (bytesWritten w) (firstIndex w) (lastIndex w)), w)
      | (Err e, w) => (s, Err (Wrap "Internal: fetch range" e), w)
      | (Panic, w) => (s, Panic, w)
      end
  end.

(** *** MirrorRoots *)

Record MirrorRootsResponse := mkMirror { mr_Total : Z; mr_AlreadyPresent : Z; mr_Stored : Z; mr_Error : string }.

Definition MirrorRoots (s : Service) (outputRoot : string) (sel : option LogSelector)
    (net : bytes -> res bytes) (w : world) : Service * res MirrorRootsResponse * world :=
  let root := if String.eqb outputRoot "" then defaultRoot s else outputRoot in
  if String.eqb root "" then (s, invalid_argument "output_root required (no server default configured)", w) else
  match resolveSelector download LogListURL s sel with
  | (s, Err e) => (s, Err e, w)
  | (s, Panic) => (s, Panic, w)
  | (s, Ok sel) =>
      let '(s, base) := getRootsBase download LogListURL s sel in
      if String.eqb base "" then
        (s, invalid_argument "cannot determine get-roots endpoint; provide a log_id (or an RFC6962 url)", w)
      else
        match run net (@mirrorRoots (LocalFSWriter root) (get_roots base)) w with
        | (_, _, _, Panic, w) => (s, Panic, w)
        | (total, present, stored, Err e, w) => (s, Ok (mkMirror total present stored (error_text e)), w)
        | (total, present, stored, Ok _, w) => (s, Ok (mkMirror total present stored ""), w)
        end
  end.

End GetLogEntries.

(** ** Lemmas *)

Definition index_from (m : gmap string CTLog) (ls : list CTLog) : gmap string CTLog :=
  fold_left (fun m lg => <[hex_encode (LogId lg) := lg]> m) ls m.

Lemma index_from_lookup ls m key lg :
  index_from m ls !! key = Some lg -> m !! key = Some lg \/ (lg ∈ ls /\ hex_encode (LogId lg) = key).
Proof.
  revert m. induction ls as [|x ls IH]; intros m; cbn [index_from fold_left]; [by left|]. intros H.
  apply IH in H as [H|[H1 H2]]; [|right; split; [by right|done]].
  apply lookup_insert_Some in H as [[<- ->]|[_ H]]; [right; split; [by left|done]|by left].
Qed.

Lemma index_from_complete ls m lg :
  is_Some (m !! hex_encode (LogId lg)) \/ lg ∈ ls -> is_Some (index_from m ls !! hex_encode (LogId lg)).
Proof.
  revert m. induction ls as [|x ls IH]; intros m; cbn [index_from fold_left].
  - intros [H|H%elem_of_nil]; done.
  - intros H. apply IH. destruct (decide (hex_encode (LogId x) = hex_encode (LogId lg))) as [->|Hne].
    + left. rewrite lookup_insert_eq. by eexists.
    + rewrite lookup_insert_ne by done. destruct H as [H|[->|H]%elem_of_cons]; [by left|done|by right].
Qed.

Lemma index_logs_lookup l key lg :
  index_logs l !! key = Some lg -> lg ∈ logs_of l /\ hex_encode (LogId lg) = key.
Proof. intros H. apply index_from_lookup in H as [H|H]; [by rewrite lookup_empty in H|done]. Qed.

Lemma index_logs_complete l lg : lg ∈ logs_of l -> is_Some (index_logs l !! hex_encode (LogId lg)).
Proof. intros H. apply index_from_complete. by right. Qed.

(** What [lookupLog] answers: a log of the cached list, or of the default list
    fetched into an empty cache. *)
Lemma lookupLog_spec download url s id s' r :
  lookupLog download url s id = (s', r) ->
  (byLogID s <> ∅ -> s' = s) /\
  (forall lg, r = Ok lg -> byLogID s' !! hex_encode id = Some lg /\
     (s' = s \/ exists ll, download url = Ok ll /\ byLogID s' = index_logs (mapLogList ll))) /\
  (is_Some (byLogID s !! hex_encode id) -> s' = s /\ is_ok r = true).
Proof.
  unfold lookupLog. destruct (byLogID s !! hex_encode id) as [lg|] eqn:E.
  { intros [= <- <-]. split; [done|]. split; [|done]. intros ? [= <-]. split; [done|by left]. }
  case_bool_decide as Hem.
  - unfold fetchLogList. destruct (download url) as [ll|e|] eqn:Ed.
    + cbn [byLogID]. destruct (index_logs (mapLogList ll) !! hex_encode id) as [lg|] eqn:El; intros [= <- <-].
      * split; [done|]. split; [|by intros [? ?]]. intros ? [= <-]. split; [done|right]. by exists ll.
      * split; [done|]. split; [done|by intros [? ?]].
    + intros [= <- <-]. split; [done|]. split; [done|by intros [? ?]].
    + intros [= <- <-]. split; [done|]. split; [done|by intros [? ?]].
  - intros [= <- <-]. split; [done|]. split; [done|by intros [? ?]].
Qed.

(** What mirroring does to a local archive, whatever the file system's faults. *)
Section MirrorSpec.

Context (net : bytes -> res bytes) (Root : string).

Lemma root_path_clean h : clean (Join Root (rootStorePath h)) = true.
Proof. apply der_path_clean. Qed.

Lemma LocalFS_Has_spec p w h w' :
  run net (LocalFS_Has Root p) w = (h, w') ->
  files w' = files w /\ dirs w' = dirs w /\ (h = Ok true -> fs_present Root w p).
Proof.
  unfold LocalFS_Has, call. cbn [bind_prog run].
  destruct (exec net (Stat _) w) as [r w1] eqn:Es. apply exec_Stat in Es as (Hf & Hd & Hok & _).
  by destruct r as [[]|[]|]; intros [= <- <-]; (split; [done|split; [done|]]); intros; [apply Hok|..].
Qed.

Definition mirror_post (roots : list bytes) (w w' : world) : Prop :=
  (forall q, fs_path Root q -> fs_present Root w q -> fs_present Root w' q) /\
  (forall q, fs_path Root q -> fs_stored Root w' q = fs_stored Root w q \/
     exists der, der ∈ roots /\ q = rootStorePath (sha256 der) /\ fs_stored Root w' q = Some der).

Lemma mirror_post_cons der roots w w1 w' :
  mirror_post [der] w w1 -> mirror_post roots w1 w' -> mirror_post (der :: roots) w w'.
Proof.
  intros [H1 H2] [H3 H4]. split; [by auto|]. intros q Hq.
  destruct (H4 q Hq) as [->|(d & Hd & -> & E)]; [|right; exists d; split; [by right|done]].
  destruct (H2 q Hq) as [->|(d & ->%list_elem_of_singleton & -> & E)]; [by left|].
  right. exists der. split; [by left|done].
Qed.

Lemma put_root_spec der w r w' :
  run net (LocalFS_PutIfAbsent Root (rootStorePath (sha256 der)) der) w = (r, w') ->
  mirror_post [der] w w' /\ (r = Ok tt -> fs_present Root w' (rootStorePath (sha256 der))).
Proof.
  intros Hr. pose proof (run_dirs _ _ _ _ _ Hr) as Hd. apply LocalFS_PutIfAbsent_spec in Hr as [Hs Hok].
  assert (Hk : forall q, fs_path Root q -> fs_present Root w q -> fs_present Root w' q)
    by (intros q Hq; by eapply present_mono).
  split; [split; [done|]|].
  - intros q Hq. destruct (Hs _ Hq) as [H|[H1%Join_inj H2]]; [by left|right].
    exists der. split; [by left|done].
  - intros ->. destruct (Hok eq_refl) as [H|[_ H]]; [left; by eexists|]. apply Hk; [apply root_path_clean|done].
Qed.

Lemma mirror_loop_spec roots t p s w t' p' s' r w' :
  run net (@mirror_loop (LocalFSWriter Root) roots t p s) w = (t', p', s', r, w') ->
  mirror_post roots w w' /\
  (r = Ok tt -> t' = t + Z.of_nat (length roots) /\ p' + s' = p + s + Z.of_nat (length roots) /\
     forall der, der ∈ roots -> fs_present Root w' (rootStorePath (sha256 der))).
Proof.
  revert t p s w. induction roots as [|der roots IH]; intros t p s w; cbn [mirror_loop].
  { intros [= <- <- <- <- <-]. split; [split; [done|by left]|]. intros _. split; [simpl; lia|]. split; [simpl; lia|].
    by intros der H%elem_of_nil. }
  set (rel := rootStorePath (sha256 der)). rewrite run_bind.
  destruct (run net (@Has (LocalFSWriter Root) rel) w) as [h w1] eqn:Eh.
  apply LocalFS_Has_spec in Eh as (Hf & Hd & Hh).
  assert (H01 : mirror_post [der] w w1) by (split; [intros q _; unfold fs_present; by rewrite Hf, Hd|left; unfold fs_stored; by rewrite Hf]).
  assert (Hgo : forall t1 p1 s1 w2, t1 = t + 1 -> p1 + s1 = p + s + 1 -> mirror_post [der] w w2 ->
    fs_present Root w2 rel ->
    run net (@mirror_loop (LocalFSWriter Root) roots t1 p1 s1) w2 = (t', p', s', r, w') ->
    mirror_post (der :: roots) w w' /\
    (r = Ok tt -> t' = t + Z.of_nat (length (der :: roots)) /\ p' + s' = p + s + Z.of_nat (length (der :: roots)) /\
       forall d, d ∈ der :: roots -> fs_present Root w' (rootStorePath (sha256 d)))).
  { intros t1 p1 s1 w2 -> Hps H2 Hp Hr. apply IH in Hr as [H3 H4]. split; [by eapply mirror_post_cons|].
    intros Hr. destruct (H4 Hr) as (-> & -> & Ha). simpl length. split; [lia|]. split; [lia|].
    intros d [->|Hin]%elem_of_cons; [|by apply Ha]. apply H3; [apply root_path_clean|done]. }
  assert (Hput : run net (let! r := @PutIfAbsent (LocalFSWriter Root) rel der in
                          match r with
                          | Ok _ => @mirror_loop (LocalFSWriter Root) roots (t + 1) p (s + 1)
                          | e => Ret (t + 1, p, s, e)
                          end) w1 = (t', p', s', r, w') ->
    mirror_post (der :: roots) w w' /\
    (r = Ok tt -> t' = t + Z.of_nat (length (der :: roots)) /\ p' + s' = p + s + Z.of_nat (length (der :: roots)) /\
       forall d, d ∈ der :: roots -> fs_present Root w' (rootStorePath (sha256 d)))).
  { rewrite run_bind. destruct (run net (@PutIfAbsent (LocalFSWriter Root) rel der) w1) as [r1 w2] eqn:Er.
    apply put_root_spec in Er as [[Hk Hs] Hok].
    assert (H02 : mirror_post [der] w w2).
    { destruct H01 as [Hk1 Hs1]. split; [by auto|]. intros q Hq. destruct (Hs q Hq) as [E|E]; [|by right].
      left. rewrite E. unfold fs_stored. by rewrite Hf. }
    assert (H0n : mirror_post (der :: roots) w w2).
    { eapply mirror_post_cons; [exact H02|]. split; [done|by left]. }
    destruct r1 as [[]|e|]; [|by intros [= <- <- <- <- <-]..]. by apply Hgo; [lia..| |apply Hok]. }
  destruct h as [[]|e|]; [|exact Hput..].
  apply Hgo; [lia..|done|]. specialize (Hh eq_refl). apply H01; [apply root_path_clean|done].
Qed.

End MirrorSpec.

(** ** Selector resolution *)

(** Every cached log sits under its own id and names a protocol. *)
Definition cache_ok (s : Service) : Prop :=
  forall key lg, byLogID s !! key = Some lg -> hex_encode (LogId lg) = key /\ Protocol lg <> UNSPECIFIED.

Lemma cache_ok_empty root : cache_ok (mkService root None ∅).
Proof. intros key lg H. cbn [byLogID] in H. by rewrite lookup_empty in H. Qed.

Lemma mapped_protocol ll lg : lg ∈ logs_of (mapLogList ll) -> Protocol lg <> UNSPECIFIED.
Proof.
  unfold logs_of, mapLogList. cbn [Operators]. intros (op & Hlg & Hop)%list_elem_of_bind.
  apply list_elem_of_fmap in Hop as (o & -> & _). cbn [op_Logs] in Hlg.
  apply elem_of_app in Hlg as [(x & -> & _)%list_elem_of_fmap|(x & -> & _)%list_elem_of_fmap];
    [unfold mapRFC6962Log|unfold mapTiledLog]; by destruct (mapState (sl_State x)).
Qed.

Lemma lookupLog_cache_ok download url s id s' r :
  cache_ok s -> lookupLog download url s id = (s', r) -> cache_ok s' /\
  (forall lg, r = Ok lg -> byLogID s' !! hex_encode id = Some lg) /\ r <> Panic \/ download url = Panic.
Proof.
  intros Hc. unfold lookupLog. destruct (byLogID s !! hex_encode id) as [lg|] eqn:E.
  { intros [= <- <-]. left. split; [done|split; [by intros ? [= <-]|done]]. }
  case_bool_decide; [|intros [= <- <-]; left; by split].
  unfold fetchLogList. destruct (download url) as [ll|e|] eqn:Ed; [| |by right].
  - set (s1 := mkService _ _ _). assert (cache_ok s1).
    { intros key lg (Hin & He)%index_logs_lookup. split; [done|]. by eapply mapped_protocol. }
    destruct (byLogID s1 !! hex_encode id) as [lg|] eqn:El; intros [= <- <-]; left; split; try done.
    split; [by intros ? [= <-]|done].
  - intros [= <- <-]. left. by split.
Qed.

(** resolveSelector: an explicit selector is returned unchanged; otherwise the
    log of the list with exactly the requested log id supplies the protocol, and
    the monitoring URL and public key where the request leaves them out; the
    resolved protocol is always specified; every failure is InvalidArgument or
    NotFound and the log cache stays well-formed. *)
Theorem resolve_selector_sound (download : string -> res src_list) (url : string) (s s' : Service)
  (sel : option LogSelector) (r : res LogSelector)
  (Hc : cache_ok s) (Hd : download url <> Panic)
  (Hr : resolveSelector download url s sel = (s', r)) :
  cache_ok s' /\
  match r with
  | Ok out => sel_Protocol out <> UNSPECIFIED /\ exists sel0, sel = Some sel0 /\ sel_LogId out = sel_LogId sel0 /\
      (out = sel0 \/
       exists lg, byLogID s' !! hex_encode (sel_LogId sel0) = Some lg /\ LogId lg = sel_LogId sel0 /\
         sel_Protocol out = Protocol lg /\
         sel_PublicKey out = (if bool_decide (sel_PublicKey sel0 = []) then Key lg else sel_PublicKey sel0) /\
         sel_MonitoringUrl out =
           (if String.eqb (sel_MonitoringUrl sel0) ""
            then if bool_decide (Protocol lg = STATIC_CT_API) then MonitoringUrl lg else Url lg
            else sel_MonitoringUrl sel0))
  | Err e => exists code e', e = Wrap code e' /\ (code = "InvalidArgument" \/ code = "NotFound")
  | Panic => False
  end.
Proof.
  revert Hr. unfold resolveSelector, invalid_argument. destruct sel as [sel|]; [|intros [= <- <-]; split; [done|eauto]].
  destruct (String.eqb (sel_MonitoringUrl sel) "") eqn:Eu; cbn [negb andb].
  2: case_bool_decide as Hp; cbn [negb]; [|intros [= <- <-]; split; [done|split; [done|exists sel; auto]]].
  all: case_bool_decide as Hid; [intros [= <- <-]; split; [done|eauto]|].
  all: destruct (lookupLog download url s (sel_LogId sel)) as [s1 [lg|e|]] eqn:El;
    apply lookupLog_cache_ok in El as [(Hc1 & Hlg & Hnp)|?]; try done;
    intros [= <- <-]; (split; [done|]); try (by eauto).
  all: specialize (Hlg lg eq_refl); destruct (Hc1 _ _ Hlg) as [Hhex%hex_encode_inj Hproto]; cbn [sel_Protocol];
    (split; [done|]); exists sel; (split; [done|]); (split; [done|]); right; exists lg; cbn;
    (split_and!; try done); rewrite ?Eu; by destruct (sel_PublicKey sel).
Qed.

(** ** Mirroring the accepted roots *)

(** MirrorRoots into a local archive, under any faults and crashes of the file
    system: without an error the counts add up and every accepted root is on disk
    under its own hash; in every case nothing already on disk is lost, each path
    holds what it held or a whole accepted root, and the store stays
    content-addressed. *)
Theorem mirror_roots_exact (net : bytes -> res bytes) (Root : string) (roots : list bytes)
  (w w' : world) (total present stored : Z) (r : res unit)
  (Hrun : run net (@mirrorRoots (LocalFSWriter Root) (Ok roots)) w = (total, present, stored, r, w')) :
  (r = Ok tt -> total = Z.of_nat (length roots) /\ present + stored = total /\
     forall der, der ∈ roots -> fs_present Root w' (rootStorePath (sha256 der))) /\
  (forall q, fs_path Root q -> fs_present Root w q -> fs_present Root w' q) /\
  (forall q, fs_path Root q -> fs_stored Root w' q = fs_stored Root w q \/
     exists der, der ∈ roots /\ q = rootStorePath (sha256 der) /\ fs_stored Root w' q = Some der) /\
  ((forall h d, fs_stored Root w (rootStorePath h) = Some d -> sha256 d = h) ->
   forall h d, fs_stored Root w' (rootStorePath h) = Some d -> sha256 d = h).
Proof.
  unfold mirrorRoots in Hrun. apply mirror_loop_spec in Hrun as [[Hk Hs] Hok]. split_and!; [|done|done|].
  - intros Hr. destruct (Hok Hr) as (-> & Hps & Ha). split_and!; [lia|lia|done].
  - intros Hsound h d Hd. destruct (Hs (rootStorePath h)) as [E|(der & _ & He & E)]; [apply root_path_clean|..].
    + apply Hsound. congruence.
    + assert (h = sha256 der) as ->; [|congruence]. unfold rootStorePath, Join in He.
      apply str_app_inj_l, str_app_inj_l, str_app_inj_r in He. by apply hex_encode_inj.
Qed.

(** ** Witnesses *)

Definition argon_log : src_log :=
  mkSrcLog [x0a] [x4b] "argon" "https://ct/argon" "" "" 86400 "prod"
    (Some (mkLogStates None None (Some 1700000000000) None None None)) None.
Definition tuscolo_log : src_log :=
  mkSrcLog [x0b] [x54] "tuscolo" "" "https://sub/" "https://mon/" 86400 "prod" None None.
Definition one_operator : src_list := mkSrcList "1" 0 true [mkSrcOp "op" [] [argon_log] [tuscolo_log]].
Definition empty_service : Service := mkService "data" None ∅.
Definition after_list : Service :=
  mkService "data" (Some (mapLogList one_operator)) (index_logs (mapLogList one_operator)).

Example mapped_state : mapState (sl_State argon_log) = (USABLE, 1700000000000). Proof. reflexivity. Qed.

Lemma resolve_selector_sound_witness :
  let out := mkSelector [x0b] "https://mon/" STATIC_CT_API [x54] in
  resolveSelector (fun _ => Ok one_operator) "u" empty_service (Some (mkSelector [x0b] "" UNSPECIFIED []))
    = (after_list, Ok out) /\ cache_ok after_list /\ sel_Protocol out <> UNSPECIFIED.
Proof.
  cbv zeta.
  assert (resolveSelector (fun _ => Ok one_operator) "u" empty_service (Some (mkSelector [x0b] "" UNSPECIFIED []))
    = (after_list, Ok (mkSelector [x0b] "https://mon/" STATIC_CT_API [x54]))) as H by (vm_compute; reflexivity).
  split; [exact H|].
  destruct (resolve_selector_sound (fun _ => Ok one_operator) "u" empty_service after_list _ _
              (cache_ok_empty "data") ltac:(discriminate) H) as (Hc & Hp & _).
  exact (conj Hc Hp).
Defined.

Lemma mirror_roots_exact_witness :
  let out := run Ok (@mirrorRoots (LocalFSWriter "data") (Ok [[x01]; [x01]])) quiet_world in
  out.1 = (2, 1, 1, Ok tt) /\ fs_present "data" out.2 (rootStorePath (sha256 [x01])).
Proof.
  cbv zeta.
  assert ((run Ok (@mirrorRoots (LocalFSWriter "data") (Ok [[x01]; [x01]])) quiet_world).1 = (2, 1, 1, Ok tt)) as E
    by (vm_compute; reflexivity).
  split; [exact E|].
  destruct (run Ok _ quiet_world) as [[[[t p] s] r] w'] eqn:Hrun. cbn [fst snd] in *.
  destruct (mirror_roots_exact _ _ _ _ _ _ _ _ _ Hrun) as (H & _). injection E as _ _ _ ->.
  apply (H eq_refl). by left.
Defined.
