(* ===== verification/Archiver.v ===== *)
(** internal/ctv2 put together: the constructors of the range fetchers, the tree
    heads, and the handlers GetSTH, GetLogEntries, CheckCoverage and VerifyEntry; a
    range that GetLogEntries has answered for is a range that CheckCoverage
    reports as stored. *)

From S2P Require Import Prelude GoStd Float Sha256 Base36 Coverage FileSys Writer Partition Issuers Fetch Archive ServiceV2.

(** ** Definitions *)

(** *** The client libraries, by what they return *)

(** A checkpoint: the tree size, the root hash, and the signatures of its note,
    when there is one. *)
Record checkpoint := mkCheckpoint { cp_N : Z; cp_Hash : bytes; cp_Sigs : option (list bytes) }.

(** A sunlight client: its checkpoint, its iterator from an index, and its error
    after an iteration. *)
Record sunlight_client := mkSunlight {
  sc_Checkpoint : res checkpoint; sc_Entries : Z -> list (Z * static_entry); sc_Err : option error }.

(** A signed tree head (the size and the time are uint64), with its signature in
    TLS encoding when that succeeds. *)
Record sth := mkSth { th_TreeSize : Z; th_Timestamp : Z; th_RootHash : bytes; th_Signature : res bytes }.

(** A certificate-transparency-go client: GetSTH, and what the scanner delivers
    over a range with a batch size and a number of workers. *)
Record log_client := mkLogClient {
  lc_GetSTH : res sth; lc_scan : Z -> Z -> Z -> Z -> list (Z * list (bytes * bytes)) * option error }.

Record STHResponse := mkSTH {
  sr_LogId : bytes; sr_TreeSize : Z; sr_Timestamp : Z; sr_Sha256RootHash : bytes; sr_TreeHeadSignature : bytes }.

(** The options of a GetLogEntries request that reach the fetchers. *)
Record fetch_options := mkOptions { fo_PageSize : Z; fo_FetchConcurrency : Z }.

Section Clients.

Context {pubkey : Type}.
Variable ParsePKIXPublicKey : bytes -> res pubkey.
Variable sunlight_NewClient : string -> pubkey -> Z -> res sunlight_client.
Variable RFC6962SignatureTimestamp : bytes -> res Z.
(** client.New: the base URL and the public key, empty without one. *)
Variable client_New : string -> bytes -> res log_client.

(** *** fetch_static.go *)

Definition defaultStaticBatchSize : Z := 256.

Record staticFetcher := mkStaticFetcher { sf_client : sunlight_client; sf_batchSize : Z }.

Definition newStaticFetcher (sel : LogSelector) (concurrency batchSize : Z) : res staticFetcher :=
  match sel_PublicKey sel with
  | [] => Err (Errorf "static-ct-api log requires public_key (DER SPKI) to verify the checkpoint")
  | der =>
      let? pub := wrap_err "parse static log public key" (ParsePKIXPublicKey der) in
      let? c := wrap_err "new sunlight client" (sunlight_NewClient (sel_MonitoringUrl sel) pub concurrency) in
      Ok (mkStaticFetcher c (if batchSize <=? 0 then defaultStaticBatchSize else batchSize))
  end.

(** The first signature of the note that carries a time. *)
Fixpoint first_timestamp (sigs : list bytes) : Z :=
  match sigs with
  | [] => 0
  | sig :: sigs => match RFC6962SignatureTimestamp sig with Ok ts => ts | _ => first_timestamp sigs end
  end.

Definition static_sth (f : staticFetcher) (logID : bytes) : res STHResponse :=
  let? cp := wrap_err "fetch checkpoint" (sc_Checkpoint (sf_client f)) in
  Ok (mkSTH logID (cp_N cp) (match cp_Sigs cp with Some sigs => first_timestamp sigs | None => 0 end) (cp_Hash cp) []).

(** *** fetch_rfc6962.go *)

Definition defaultRFC6962BatchSize : Z := 256.

Record rfc6962Fetcher := mkRfcFetcher { rf_lc : log_client; rf_batchSize : Z; rf_parallel : Z }.

Definition newRFC6962Fetcher (sel : LogSelector) (pageSize concurrency : Z) : res rfc6962Fetcher :=
  let? lc := wrap_err "new rfc6962 client" (client_New (sel_MonitoringUrl sel) (sel_PublicKey sel)) in
  Ok (mkRfcFetcher lc (if pageSize <=? 0 then defaultRFC6962BatchSize else pageSize) (Z.max concurrency 1)).

(** *** fetch_tiles.go *)

Record tileFetcher := mkTileFetcher { tf_lc : log_client; tf_tileDataRoot : string; tf_concurrency : Z }.

Definition newTileFetcher (sel : LogSelector) (concurrency : Z) : res tileFetcher :=
  let base := TrimRightSlash (sel_MonitoringUrl sel) in
  if String.eqb base "" then
    Err (Errorf "tile fetcher needs monitoring_url (the log's base, serving /tile/data and /ct/v1/get-sth)")
  else
    let? lc := wrap_err "new rfc6962 client (for get-sth)" (client_New base []) in
    Ok (mkTileFetcher lc (base +:+ "/tile/data/") (Z.max concurrency 1)).

(** *** GetSTH *)

Definition fetchSTH (sel : LogSelector) : res STHResponse :=
  match sel_Protocol sel with
  | RFC6962 =>
      let? lc := wrap_err "Internal: rfc6962 client" (client_New (sel_MonitoringUrl sel) []) in
      let? th := wrap_err "Unavailable: get-sth" (lc_GetSTH lc) in
      Ok (mkSTH (sel_LogId sel) (wrap64 (th_TreeSize th)) (wrap64 (th_Timestamp th)) (th_RootHash th)
            (match th_Signature th with Ok sig => sig | _ => [] end))
  | STATIC_CT_API =>
      let? sf := wrap_err "InvalidArgument" (newStaticFetcher sel 0 0) in
      static_sth sf (sel_LogId sel)
  | _ => invalid_argument "unknown or unspecified log protocol"
  end.

Variable download : string -> res src_list.
Variable LogListURL : string.

Definition GetSTH (s : Service) (sel : option LogSelector) : Service * res STHResponse :=
  let '(s, sel) := resolveSelector download LogListURL s sel in
  (s, let? sel := sel in fetchSTH sel).

(** *** CheckCoverage *)

(** The whole handler, over the walk [ds] of output_root. *)
Definition CheckCoverage_handler (s : Service) (sel : option LogSelector) (outputRoot : string) (ds : list dirent)
    (querySth includeGaps : bool) : Service * res CheckCoverageResponse :=
  let scan := scanPartitionRanges ds in
  let '(s, size) :=
    if negb (String.eqb outputRoot "") && is_ok scan && querySth then
      let '(s, r) := GetSTH s sel in (s, let? th := r in Ok (sr_TreeSize th))
    else (s, Ok 0) in
  (s, CheckCoverage outputRoot scan querySth includeGaps size).

(** *** GetLogEntries with its fetchers *)

Section Fetchers.

Variable opts : fetch_options.
(** The parser of get-entries leaves, the tile endpoint, the tile leaf reader,
    the waits between retries, and the order in which tile workers finish. *)
Variable RawLogEntryFromLeaf : Z -> bytes -> bytes -> res ct_raw.
Variable http_get : string -> Z -> res bytes.
Variable ReadTileLeaf : bytes -> res (static_entry * bytes).
Variable wait_done : Z -> Z -> bool.
Variable order : list Z -> list Z.
Variable start end_ : Z.

Definition rfc6962_method (sel : LogSelector) : res fetch_method :=
  let? f := newRFC6962Fetcher sel (fo_PageSize opts) (fo_FetchConcurrency opts) in
  Ok (fun sink => RFC6962_Fetch RawLogEntryFromLeaf (let? th := lc_GetSTH (rf_lc f) in Ok (th_TreeSize th))
                    (lc_scan (rf_lc f) (rf_batchSize f) (rf_parallel f)) start end_ sink).

Definition static_method (sel : LogSelector) : res fetch_method :=
  let? f := newStaticFetcher sel (fo_FetchConcurrency opts) (fo_PageSize opts) in
  Ok (fun sink => Static_Fetch (sf_batchSize f) sink (sc_Err (sf_client f))
                    (let? cp := sc_Checkpoint (sf_client f) in Ok (cp_N cp)) (sc_Entries (sf_client f)) start end_).

Definition tile_method (sel : LogSelector) : res fetch_method :=
  let? f := newTileFetcher sel (fo_FetchConcurrency opts) in
  Ok (fun sink => Tile_Fetch http_get ReadTileLeaf wait_done (tf_tileDataRoot f)
                    (let? th := lc_GetSTH (tf_lc f) in Ok (th_TreeSize th)) order start end_ sink).

End Fetchers.

End Clients.

(** *** VerifyEntry *)

Section Verification.

Variable read_file : string -> res bytes.
Variable gunzip : bytes -> res bytes.
Variable unmarshal : bytes -> res raw_batch.
Context {cert : Type}.
Variable ParseCertificate : bytes -> res cert.
Variable tls_x509_entry : bytes -> res (option bytes).
Variable Subject : cert -> string.
Variable CheckSignatureFrom : cert -> cert -> res unit.
Variable Raw : cert -> bytes.
Variable NotBefore NotAfter : cert -> Z.

(** Over the walks of output_root and of its root store. *)
Definition VerifyEntry (s : Service) (outputRoot : string) (index : Z) (walk rootsWalk : string -> list dirent)
  : res VerifyEntryResponse :=
  let root := if String.eqb outputRoot "" then defaultRoot s else outputRoot in
  if String.eqb root "" then invalid_argument "output_root required (no server default configured)" else
  let? e := wrap_err "NotFound" (findEntry read_file gunzip unmarshal root (walk root) index) in
  wrap_err "Internal: verify"
    (verifyEntryChain ParseCertificate tls_x509_entry Subject CheckSignatureFrom Raw NotBefore NotAfter
       read_file root (rootsWalk root) e).

End Verification.

(** ** Lemmas *)

(** *** The scan of an archive *)

Lemma scan_loop_covers ds rs n :
  (forall d, d ∈ ds -> de_err d = None) ->
  exists rs' n', scan_loop ds rs n = Ok (rs ++ rs', n') /\
    (forall r, r ∈ rs' -> exists d, d ∈ ds /\ parseRangeFromName (Base (de_path d)) = Some r) /\
    (forall d r, d ∈ ds -> de_isdir d = false -> parseRangeFromName (Base (de_path d)) = Some r -> r ∈ rs').
Proof.
  revert rs n. induction ds as [|d ds IH]; intros rs n Herr; cbn [scan_loop].
  { exists [], n. rewrite app_nil_r. split; [done|]. split; [by intros r ?%not_elem_of_nil|by intros d r ?%not_elem_of_nil]. }
  rewrite (Herr d) by by left. assert (Herr' : forall x, x ∈ ds -> de_err x = None) by (intros x Hx; apply Herr; by right).
  assert (Hskip : (forall r, de_isdir d = false -> parseRangeFromName (Base (de_path d)) = Some r -> False) ->
    exists rs' n', scan_loop ds rs n = Ok (rs ++ rs', n') /\
      (forall r, r ∈ rs' -> exists x, x ∈ d :: ds /\ parseRangeFromName (Base (de_path x)) = Some r) /\
      (forall x r, x ∈ d :: ds -> de_isdir x = false -> parseRangeFromName (Base (de_path x)) = Some r -> r ∈ rs')).
  { intros Hno. destruct (IH rs n Herr') as (rs' & n' & -> & H1 & H2). exists rs', n'. split; [done|]. split.
    - intros r Hr. destruct (H1 r Hr) as (x & Hx & E). exists x. split; [by right|done].
    - intros x r [->|Hx]%elem_of_cons Hd E; [by destruct (Hno r Hd E)|by apply (H2 x)]. }
  destruct (de_isdir d) eqn:Ed; [by apply Hskip|]. destruct (parseRangeFromName (Base (de_path d))) as [r|] eqn:Er; [|by apply Hskip].
  destruct (IH (rs ++ [r]) (n + 1) Herr') as (rs' & n' & -> & H1 & H2). exists (r :: rs'), n'. rewrite <- app_assoc. split; [done|]. split.
  - intros r' [->|Hr]%elem_of_cons; [exists d; split; [by left|done]|]. destruct (H1 r' Hr) as (x & Hx & E). exists x. split; [by right|done].
  - intros x r' [Hx|Hx]%elem_of_cons Hd E; [|right; by apply (H2 x)]. rewrite Hx, Er in E. injection E as <-. by left.
Qed.

(** A file of the archive whose name covers the index. *)
Definition on_disk (root : string) (w : world) (i : Z) : Prop :=
  exists p d r, files w !! Join root p = Some d /\ clean (Join root p) = true /\
    parseRangeFromName (Base (Join root p)) = Some r /\ in_range i r.

(** The name of a partition file, plain or compressed. *)
Lemma file_of_name marshal gran root rn p d a ext :
  file_of marshal gran rn p d -> consecutive a rn -> 0 <= a -> a + Z.of_nat (length rn) <= max_int64 -> ext = "" \/ ext = ".gz" ->
  clean (Join root (p +:+ ext)) = true /\
  parseRangeFromName (Base (Join root (p +:+ ext))) = Some (mkRange a (a + Z.of_nat (length rn))).
Proof.
  intros (e0 & en & day & sa & sb & H0 & Hn & _ & Ea & Eb & -> & _) Hc Ha Hmax Hext.
  destruct (consecutive_ends _ _ _ _ Hc H0 Hn) as [E0 En].
  assert (0 < Z.of_nat (length rn)) by (destruct rn; [done|simpl; lia]).
  assert (Hb : Base (Join root (part_path day sa sb +:+ ext)) = partition_name sa sb ext).
  { assert (Join root (part_path day sa sb +:+ ext) = Join (Join root day) (partition_name sa sb ext)) as ->.
    { unfold part_path, Join, partition_name. repeat (rewrite !str_app_assoc; cbn [String.append]). done. }
    apply Base_Join. unfold partition_name. rewrite str_forallb_app, (digits36_no_slash (re_Index e0) sa) by (done || lia). cbn [str_forallb].
    rewrite str_forallb_app, (digits36_no_slash (re_Index en) sb) by (done || lia). by destruct Hext as [-> | ->]. }
  rewrite Hb. split.
  - destruct (part_path_clean root day (re_Index e0) (re_Index en) sa sb) as [H1 H2]; [lia|lia|done|done|].
    destruct Hext as [-> | ->]; [by rewrite str_app_nil_r|exact H2].
  - rewrite (parse_written_name (re_Index e0) (re_Index en)) by (done || lia). rewrite E0, En. do 2 f_equal. lia.
Qed.

Lemma archived_on_disk marshal gran root w i : archived (stored := fs_stored root) marshal gran w i -> on_disk root w i.
Proof.
  intros (rn & p & d & a & Hf & Hc & Ha & Hmax & Hi & _ & Hs).
  destruct (file_of_name marshal gran root rn p d a "" Hf Hc Ha Hmax (or_introl eq_refl)) as [H1 H2]. rewrite str_app_nil_r in H1, H2.
  exists p, d, (mkRange a (a + Z.of_nat (length rn))). by split_and!.
Qed.

Lemma gzip_archived_on_disk gunzip marshal gran root w i :
  archived (stored := gzip_stored gunzip (fs_stored root)) marshal gran w i -> on_disk root w i.
Proof.
  intros (rn & p & d & a & Hf & Hc & Ha & Hmax & Hi & _ & Hs). unfold gzip_stored in Hs. apply bind_Some in Hs as (z & Hz & _).
  destruct (file_of_name marshal gran root rn p d a ".gz" Hf Hc Ha Hmax (or_intror eq_refl)) as [H1 H2].
  exists (gz_path p), z, (mkRange a (a + Z.of_nat (length rn))). by split_and!.
Qed.

(** Mirroring the roots takes no file away. *)
Lemma mirror_after_keeps download url read_dir get_roots s root sel net w s' w' i :
  mirror_after download url read_dir get_roots s root sel net w = (s', w') -> on_disk root w i -> on_disk root w' i.
Proof.
  unfold mirror_after. destruct (rootsAlreadyMirrored _); [by intros [= _ <-]|].
  destruct (getRootsBase download url s sel) as [s1 base]. destruct (String.eqb base ""); [by intros [= _ <-]|].
  intros [= _ <-] (p & d & r & Hp & Hcl & Hr & Hi).
  assert (Hk : is_Some (fs_stored root (run net (@mirrorRoots (LocalFSWriter root) (get_roots base)) w).2 p)).
  { destruct (get_roots base) as [roots|e|]; [|by exists d..]. cbn [mirrorRoots].
    destruct (run net _ w) as [[[[t pr] st] r1] w1] eqn:Er. destruct (mirror_loop_spec net root roots 0 0 0 w t pr st r1 w1 Er) as [[_ Hs] _].
    destruct (Hs p Hcl) as [E|(der & _ & _ & E)]; cbn [snd]; rewrite E; [by exists d|by eexists]. }
  destruct Hk as [d' Hd']. exists p, d', r. by split_and!.
Qed.

(** *** The three fetchers as the handler uses them *)

Section Delivery.

Context {pubkey : Type}.
Context (ParsePKIXPublicKey : bytes -> res pubkey) (sunlight_NewClient : string -> pubkey -> Z -> res sunlight_client).
Context (client_New : string -> bytes -> res log_client) (opts : fetch_options).
Context (RawLogEntryFromLeaf : Z -> bytes -> bytes -> res ct_raw) (http_get : string -> Z -> res bytes).
Context (ReadTileLeaf : bytes -> res (static_entry * bytes)) (wait_done : Z -> Z -> bool) (order : list Z -> list Z).
Context (start end_ : Z).

#[local] Abbreviation rfc_m := (rfc6962_method client_New opts RawLogEntryFromLeaf start end_).
#[local] Abbreviation static_m := (static_method ParsePKIXPublicKey sunlight_NewClient opts start end_).
#[local] Abbreviation tile_m := (tile_method client_New opts http_get ReadTileLeaf wait_done order start end_).

Definition method_of (sel : LogSelector) : res fetch_method :=
  match sel_Protocol sel with
  | RFC6962 => wrap_err "InvalidArgument: build fetcher" (rfc_m sel)
  | STATIC_CT_API => wrap_err "InvalidArgument: build fetcher" (static_m sel)
  | STATIC_CT_API_NO_CHECKPOINT => wrap_err "InvalidArgument: build fetcher" (tile_m sel)
  | UNSPECIFIED => invalid_argument "unknown or unspecified log protocol"
  end.

(** The clients of the log [sel] deliver what their documentation says, and the
    log can be read up to [hi]: a scanner run without an error has covered its
    range; an iterator yields the entries in order, as far as [served] says (it may
    stop in front of a partial tile) unless it ends in an error; every complete tile
    can be read and has 256 leaves. *)
Definition delivers (sel : LogSelector) (hi : Z) : Prop :=
  match sel_Protocol sel with
  | RFC6962 => forall f, newRFC6962Fetcher client_New sel (fo_PageSize opts) (fo_FetchConcurrency opts) = Ok f ->
      exists th, lc_GetSTH (rf_lc f) = Ok th /\ hi = th_TreeSize th /\ 0 <= hi <= max_int64 /\
        forall s e bs, lc_scan (rf_lc f) (rf_batchSize f) (rf_parallel f) s e = (bs, None) -> scan_covers bs s e
  | STATIC_CT_API => forall f, newStaticFetcher ParsePKIXPublicKey sunlight_NewClient sel (fo_FetchConcurrency opts) (fo_PageSize opts) = Ok f ->
      exists cp, sc_Checkpoint (sf_client f) = Ok cp /\ hi = served (cp_N cp) start /\ cp_N cp <= max_int64 /\
        forall s, let es := sc_Entries (sf_client f) s in
          es.*1 = seqZ s (Z.of_nat (length es)) /\ Forall (fun p => sl_LeafIndex p.2 = p.1) es /\
          (sc_Err (sf_client f) = None -> served (cp_N cp) s <= s + Z.of_nat (length es))
  | STATIC_CT_API_NO_CHECKPOINT => forall f, newTileFetcher client_New sel (fo_FetchConcurrency opts) = Ok f ->
      exists th leaves_of, lc_GetSTH (tf_lc f) = Ok th /\ 0 <= th_TreeSize th <= max_int64 /\ hi = 256 * (th_TreeSize th / 256) /\
        (forall ts, order ts ≡ₚ ts) /\
        forall t, 0 <= t < th_TreeSize th / 256 ->
          fetchTile http_get ReadTileLeaf wait_done (tf_tileDataRoot f) t = Ok (leaves_of t) /\ Z.of_nat (length (leaves_of t)) = 256
  | UNSPECIFIED => True
  end.

Lemma wrap_ok {A} msg (r : res A) a : wrap_err msg r = Ok a -> r = Ok a.
Proof. by destruct r. Qed.

Lemma method_archives (net : bytes -> res bytes) {W : Writer} {stored : world -> string -> option bytes}
  {present ready : world -> string -> Prop} {ok_path : string -> Prop} {ok_data : bytes -> Prop}
  (Hlaws : WriterLaws W stored present ready ok_path ok_data) (marshal : list RawLogEntry -> res bytes) (gran : granularity)
  (Hpath : forall day n m a b, 0 <= n <= max_int64 -> 0 <= m <= max_int64 ->
     encodeBase36 n = Ok a -> encodeBase36 m = Ok b -> ok_path (part_path day a b))
  (Hdata : forall d, ok_data d) (ing : entryBatch -> prog (res unit))
  (Hing : forall b w r w', run net (ing b) w = (r, w') ->
     forall q, ok_path q -> (forall h, q <> issuerStorePath h) -> stored w' q = stored w q)
  (sel : LogSelector) (hi : Z) (m : fetch_method) (w w' : world) :
  0 <= start -> ctxdone w = [] -> delivers sel hi -> method_of sel = Ok m ->
  run net (m (writeBatch marshal gran ing)) w = (Ok tt, w') ->
  forall i, start <= i < Z.min end_ hi -> archived (stored := stored) marshal gran w' i.
Proof.
  intros Hs Hctx Hd Hm Hrun. unfold delivers in Hd. unfold method_of in Hm. destruct (sel_Protocol sel); [done| | |]; apply wrap_ok in Hm.
  - unfold rfc6962_method in Hm. destruct (newRFC6962Fetcher _ _ _ _) as [f|e|]; [|done..]. cbn [bind_res] in Hm.
    destruct (Hd f eq_refl) as (th & Hth & -> & Hr & Hscan). rewrite Hth in Hm. injection Hm as <-.
    by apply (rfc6962_archive net Hlaws marshal gran Hpath Hdata ing Hing _ _ _ _ _ _ _ Hs Hr Hscan Hrun).
  - unfold static_method in Hm. destruct (newStaticFetcher _ _ _ _ _) as [f|e|] eqn:Ef; [|done..]. cbn [bind_res] in Hm.
    destruct (Hd f eq_refl) as (cp & Hcp & -> & Hmax & Hiter). rewrite Hcp in Hm. injection Hm as <-.
    assert (Hbs : 1 <= sf_batchSize f).
    { unfold newStaticFetcher in Ef. destruct (sel_PublicKey sel); [done|]. destruct (wrap_err _ (ParsePKIXPublicKey _)); [|done..].
      cbn [bind_res] in Ef. destruct (wrap_err _ (sunlight_NewClient _ _ _)); [|done..]. cbn [bind_res] in Ef. injection Ef as <-. cbn.
      destruct (Z.leb_spec (fo_PageSize opts) 0); unfold defaultStaticBatchSize; lia. }
    by apply (proj2 (static_archive net Hlaws marshal gran Hpath Hdata ing Hing _ _ _ _ _ _ _ _ Hbs Hs Hmax Hiter Hrun)).
  - unfold tile_method in Hm. destruct (newTileFetcher _ _ _) as [f|e|]; [|done..]. cbn [bind_res] in Hm.
    destruct (Hd f eq_refl) as (th & leaves_of & Hth & Hr & -> & Hord & Ht). rewrite Hth in Hm. injection Hm as <-.
    by apply (tile_archive net Hlaws marshal gran Hpath Hdata ing Hing _ _ _ _ _ leaves_of _ _ _ _ _ Hs Hr Hctx Hord Ht Hrun).
Qed.

End Delivery.

(** The issuer step of the handler writes to the plain store; it keeps off the
    partitions, plain or compressed. *)
Lemma plain_frame net root resolver map_order b w r w' :
  run net (@ingest (LocalFSWriter root) resolver map_order b) w = (r, w') ->
  forall q, fs_path root q -> (forall h, q <> issuerStorePath h) -> fs_stored root w' q = fs_stored root w q.
Proof. exact (@ingest_frame net _ _ _ _ _ _ (LocalFS_laws root) (issuer_path_clean root) (fun _ => I) resolver map_order b w r w'). Qed.

Lemma gzip_frame_issuers net root gunzip resolver map_order b w r w' :
  run net (@ingest (LocalFSWriter root) resolver map_order b) w = (r, w') ->
  forall q, fs_path root (gz_path q) -> (forall h, q <> issuerStorePath h) ->
    gzip_stored gunzip (fs_stored root) w' q = gzip_stored gunzip (fs_stored root) w q.
Proof.
  intros H q Hq _. unfold gzip_stored. f_equal. apply (plain_frame net root resolver map_order b w r w' H _ Hq).
  intros h E. apply (f_equal (fun s => has_suffix s ".gz")) in E. unfold gz_path in E. rewrite has_suffix_app in E.
  assert (issuerStorePath h = ((issuerDir +:+ "/" +:+ hex_encode h) +:+ ".der")%string) as Eh by (unfold issuerStorePath, Join; by rewrite !str_app_assoc).
  rewrite Eh, has_suffix_app_le in E by (cbn; lia). discriminate E.
Qed.

(** ** Properties *)

Section Handlers.

Context {pubkey : Type}.
Context (ParsePKIXPublicKey : bytes -> res pubkey) (sunlight_NewClient : string -> pubkey -> Z -> res sunlight_client).
Context (client_New : string -> bytes -> res log_client) (opts : fetch_options).
Context (RawLogEntryFromLeaf : Z -> bytes -> bytes -> res ct_raw) (http_get : string -> Z -> res bytes).
Context (ReadTileLeaf : bytes -> res (static_entry * bytes)) (wait_done : Z -> Z -> bool) (order : list Z -> list Z).
Context (download : string -> res src_list) (LogListURL : string) (gz : bytes -> res bytes) (gunzip : bytes -> option bytes).
Context (marshal : list RawLogEntry -> res bytes) (map_order : gset bytes -> list bytes).
Context (read_dir : world -> string -> res (list (string * bool))) (get_roots : string -> res (list bytes)).

(** GetLogEntries with the three fetchers of the repository. *)
Definition GetLogEntries_handler (s : Service) (req : GetLogEntriesRequest) (sel : option LogSelector)
    (net : bytes -> res bytes) (w : world) : Service * res GetLogEntriesResponse * world :=
  GetLogEntries download LogListURL gz marshal map_order
    (rfc6962_method client_New opts RawLogEntryFromLeaf (StartIndex req) (EndIndex req))
    (static_method ParsePKIXPublicKey sunlight_NewClient opts (StartIndex req) (EndIndex req))
    (tile_method client_New opts http_get ReadTileLeaf wait_done order (StartIndex req) (EndIndex req))
    read_dir get_roots s req sel net w.

#[local] Abbreviation log_delivers := (delivers ParsePKIXPublicKey sunlight_NewClient client_New opts http_get ReadTileLeaf wait_done order).

(** The output root of a request. *)
Definition root_of (s : Service) (req : GetLogEntriesRequest) : string :=
  if String.eqb (req_OutputRoot req) "" then defaultRoot s else req_OutputRoot req.

Lemma resolve_root s sel s1 r : resolveSelector download LogListURL s sel = (s1, r) -> defaultRoot s1 = defaultRoot s.
Proof.
  assert (Hl : forall id s1 r, lookupLog download LogListURL s id = (s1, r) -> defaultRoot s1 = defaultRoot s).
  { intros id s2 r2. unfold lookupLog, fetchLogList. destruct (byLogID s !! _); [by intros [= <- _]|]. case_bool_decide; [|by intros [= <- _]].
    destruct (download LogListURL) as [ll|e|]; [|by intros [= <- _]..]. cbn [byLogID]. destruct (index_logs _ !! _); by intros [= <- _]. }
  unfold resolveSelector. destruct sel as [x|]; [|by intros [= <- _]]. destruct (_ && _); [by intros [= <- _]|].
  case_bool_decide; [by intros [= <- _]|]. destruct (lookupLog download LogListURL s (sel_LogId x)) as [s2 r2] eqn:E. apply Hl in E.
  destruct r2; intros [= <- _]; done.
Qed.

Lemma handler_on_disk s s' req sel net w w' resp hi :
  ctxdone w = [] -> (forall d z, gz d = Ok z -> gunzip z = Some d) -> (forall d, exists z, gz d = Ok z) ->
  (forall s1 sel1, resolveSelector download LogListURL s sel = (s1, Ok sel1) -> log_delivers (StartIndex req) sel1 hi) ->
  GetLogEntries_handler s req sel net w = (s', Ok resp, w') ->
  root_of s req <> "" /\ forall i, StartIndex req <= i < Z.min (EndIndex req) hi -> on_disk (root_of s req) w' i.
Proof.
  intros Hctx Hgz Hall Hd. unfold GetLogEntries_handler, GetLogEntries, check_request.
  destruct (Z.ltb_spec (StartIndex req) 0) as [|Hs]; [done|]. cbn [orb]. destruct (EndIndex req <? StartIndex req); [done|].
  destruct (resolveSelector download LogListURL s sel) as [s1 [sel1|e|]] eqn:Er; [|done..]. cbn [bind_res].
  specialize (Hd s1 sel1 eq_refl). pose proof (resolve_root _ _ _ _ Er) as Hroot. rewrite Hroot. fold (root_of s req).
  destruct (String.eqb_spec (root_of s req) "") as [|Hne]; [done|].
  change (match sel_Protocol sel1 with UNSPECIFIED => _ | _ => _ end) with
    (method_of ParsePKIXPublicKey sunlight_NewClient client_New opts RawLogEntryFromLeaf http_get ReadTileLeaf wait_done order (StartIndex req) (EndIndex req) sel1).
  destruct (method_of _ _ _ _ _ _ _ _ _ _ _ sel1) as [m|e|] eqn:Em; [|done..]. cbn [bind_res].
  set (root := root_of s req) in *. set (w0 := set_seen _ _).
  assert (Hctx0 : ctxdone w0 = []) by done.
  set (ing := @ingest (LocalFSWriter root) _ map_order).
  destruct (run net _ w0) as [[[]|e|] w1] eqn:Erun; [|done..].
  destruct (mirror_after _ _ _ _ s1 root sel1 net w1) as [s2 w2] eqn:Emir. intros [= <- _ <-]. split; [done|].
  intros i Hi. apply (mirror_after_keeps _ _ _ _ _ _ _ _ _ _ _ i Emir). destruct (req_gzip req).
  - apply (gzip_archived_on_disk gunzip marshal (req_gran req)).
    apply (method_archives ParsePKIXPublicKey sunlight_NewClient client_New opts RawLogEntryFromLeaf http_get ReadTileLeaf wait_done order
             (StartIndex req) (EndIndex req) net (gzip_laws (WriterLaws0 := LocalFS_laws root) gz gunzip Hgz _ _ _ _ _ _) marshal (req_gran req)
             (fun day n m a b Hn Hm Ha Hb => proj2 (part_path_clean root day n m a b Hn Hm Ha Hb))
             (fun d => let (z, Hz) := Hall d in ex_intro _ z (conj Hz I)) ing
             (gzip_frame_issuers net root gunzip _ map_order) sel1 hi m w0 w1 Hs Hctx0 Hd Em Erun i Hi).
  - apply (archived_on_disk marshal (req_gran req)).
    apply (method_archives ParsePKIXPublicKey sunlight_NewClient client_New opts RawLogEntryFromLeaf http_get ReadTileLeaf wait_done order
             (StartIndex req) (EndIndex req) net (LocalFS_laws root) marshal (req_gran req)
             (fun day n m a b Hn Hm Ha Hb => proj1 (part_path_clean root day n m a b Hn Hm Ha Hb))
             (fun _ => I) ing (plain_frame net root _ map_order) sel1 hi m w0 w1 Hs Hctx0 Hd Em Erun i Hi).
Qed.

(** What CheckCoverage answers about a range that is on disk. *)
Lemma coverage_of_range outputRoot ds q gaps size cov lo hi :
  (forall i, lo <= i < hi -> exists d r, d ∈ ds /\ de_isdir d = false /\ parseRangeFromName (Base (de_path d)) = Some r /\ in_range i r) ->
  (forall d, d ∈ ds -> de_err d = None) ->
  (forall d r, d ∈ ds -> parseRangeFromName (Base (de_path d)) = Some r -> valid_range r) ->
  CheckCoverage outputRoot (scanPartitionRanges ds) q gaps size = Ok cov ->
  (forall i, lo <= i < hi -> ~ covered (Gaps cov) i /\ i < Frontier cov) /\ (lo <= 0 -> hi <= ContiguousThrough cov).
Proof.
  intros Hdisk Herr Hnames. unfold CheckCoverage. destruct (String.eqb outputRoot ""); [done|].
  destruct (scan_loop_covers ds [] 0 Herr) as (rs & n & E & H1 & H2). unfold scanPartitionRanges. rewrite E. cbn [app wrap_err bind_res].
  assert (Hv : Forall valid_range rs) by (apply Forall_forall; intros r Hr; destruct (H1 r Hr) as (d & Hd & Er); by apply (Hnames d)).
  assert (Hcov : forall i, lo <= i < hi -> covered rs i).
  { intros i Hi. destruct (Hdisk i Hi) as (d & r & Hd & Hdir & Er & Hr). apply Exists_exists. exists r. split; [by apply (H2 d)|done]. }
  destruct (if q then _ else _) as [treeSize sthErr]. intros [= <-]. cbn [Gaps Frontier ContiguousThrough].
  destruct (summarize_stats rs treeSize Hv) as (_ & Hfr & _ & _ & Hc0 & Hcn). split.
  - intros i Hi. split; [|by apply Hfr, Hcov]. destruct gaps; [|by intros ?%covered_nil].
    intros Hg. apply (summarize_gaps_exact rs treeSize Hv) in Hg as [_ Hno]. by apply Hno, Hcov.
  - intros Hlo. destruct (decide (hi <= sm_contiguous (summarizeRanges rs treeSize))); [done|]. exfalso. apply Hcn, Hcov. lia.
Qed.

(** C3. The archiver end to end, for all three protocols, plain or compressed: a
    range that GetLogEntries has answered for without an error is on disk, up to
    the index [hi] to which the log can be read: the tree size of an RFC 6962 log;
    the last complete tile of a log read by tiles; and of a static log the last
    complete tile, or the checkpoint's size when the range starts behind that tile,
    because the client's iterator may stop in front of a partial tile without an
    error ([delivers]). CheckCoverage of the same root says so: no
    reported gap has an index of the range, the frontier is past it, and a range
    from index 0 is part of the contiguous prefix. *)
Theorem mirrored_range_covered (s s' : Service) (req : GetLogEntriesRequest) (sel : option LogSelector)
  (net : bytes -> res bytes) (w w' : world) (resp : GetLogEntriesResponse) (hi : Z) (ds : list dirent)
  (Hctx : ctxdone w = []) (Hgz : forall d z, gz d = Ok z -> gunzip z = Some d) (Hall : forall d, exists z, gz d = Ok z)
  (Hlog : forall s1 sel1, resolveSelector download LogListURL s sel = (s1, Ok sel1) -> log_delivers (StartIndex req) sel1 hi)
  (Hwalk : forall p b, files w' !! Join (root_of s req) p = Some b -> mkDirent (Join (root_of s req) p) false None ∈ ds)
  (Herr : forall d, d ∈ ds -> de_err d = None)
  (Hnames : forall d r, d ∈ ds -> parseRangeFromName (Base (de_path d)) = Some r -> valid_range r)
  (Hrun : GetLogEntries_handler s req sel net w = (s', Ok resp, w')) :
  (forall i, StartIndex req <= i < Z.min (EndIndex req) hi -> on_disk (root_of s req) w' i) /\
  forall RFC6962SignatureTimestamp s2 sel2 querySth includeGaps s3 cov,
    CheckCoverage_handler ParsePKIXPublicKey sunlight_NewClient RFC6962SignatureTimestamp client_New download LogListURL
      s2 sel2 (root_of s req) ds querySth includeGaps = (s3, Ok cov) ->
    (forall i, StartIndex req <= i < Z.min (EndIndex req) hi -> ~ covered (Gaps cov) i /\ i < Frontier cov) /\
    (StartIndex req = 0 -> Z.min (EndIndex req) hi <= ContiguousThrough cov).
Proof.
  destruct (handler_on_disk s s' req sel net w w' resp hi Hctx Hgz Hall Hlog Hrun) as [_ Hd]. split; [exact Hd|].
  intros ts s2 sel2 q gaps s3 cov. unfold CheckCoverage_handler.
  destruct (if _ && _ && q then _ else _) as [s4 size]. intros H.
  assert (Hc : CheckCoverage (root_of s req) (scanPartitionRanges ds) q gaps size = Ok cov) by congruence.
  destruct (coverage_of_range (root_of s req) ds q gaps size cov (StartIndex req) (Z.min (EndIndex req) hi)) with (4 := Hc) as [H1 H2]; [|done|done|].
  - intros i Hi. destruct (Hd i Hi) as (p & b & r & Hp & _ & Er & Hr). exists (mkDirent (Join (root_of s req) p) false None), r.
    split_and!; [by eapply Hwalk|done|done|done].
  - split; [done|]. intros H0. apply H2. lia.
Qed.

End Handlers.

(** A verdict of VerifyEntry is about an entry of the index asked for, out of a
    partition file whose name brackets it. *)
Lemma verify_entry_of_index {cert} read_file gunzip unmarshal (parse : bytes -> res cert) tls subj check raw nb na
  (s : Service) outputRoot i walk rootsWalk resp :
  VerifyEntry read_file gunzip unmarshal parse tls subj check raw nb na s outputRoot i walk rootsWalk = Ok resp ->
  exists root e d r batch, root <> "" /\ d ∈ walk root /\ parseRangeFromName (Base (de_path d)) = Some r /\ rstart r <= i < rend r /\
    read_partition read_file gunzip unmarshal (de_path d) = Ok batch /\ e ∈ rb_Entries batch /\ re_Index e = i /\
    verifyEntryChain parse tls subj check raw nb na read_file root (rootsWalk root) e = Ok resp.
Proof.
  unfold VerifyEntry. set (root := if String.eqb outputRoot "" then _ else _).
  destruct (String.eqb_spec root "") as [|Hne]; [done|]. unfold findEntry.
  destruct (find_loop _ _ _ _ _) as [[e|]| |] eqn:Ef; [|done..]. cbn [bind_res wrap_err]. intros H.
  apply find_loop_sound in Ef as (Hi & d & r & b & Hd & Hr & Hb & Hp & He).
  exists root, e, d, r, b. split_and!; [done..|lia|lia|done|done|done|].
  destruct (verifyEntryChain _ _ _ _ _ _ _ _ _ _ _) as [x| |]; cbn [wrap_err] in H; congruence.
Qed.

(** ** Findings *)

(** The tree head of a log with tiles but no checkpoint cannot be asked for: the
    protocol that GetLogEntries serves is unknown to GetSTH and CheckCoverage. *)
Lemma no_checkpoint_no_sth {pubkey} (parse : bytes -> res pubkey) new ts cn download url s id key :
  (GetSTH parse new ts cn download url s (Some (mkSelector id "https://log/" STATIC_CT_API_NO_CHECKPOINT key))).2 =
    invalid_argument "unknown or unspecified log protocol".
Proof. reflexivity. Qed.

(** ** Witnesses *)

(** A static log of ten entries, asked for [2, 7) with pages of two, compressed. *)
Definition tuscolo_client : sunlight_client := mkSunlight (Ok (mkCheckpoint 10 [x09] None)) mini_entries None.
Definition tuscolo : LogSelector := mkSelector [x0b] "https://mon/" STATIC_CT_API [x54].
Definition no_log_client : log_client := mkLogClient (Err ErrSyscall) (fun _ _ _ _ => ([], Some ErrSyscall)).

Definition mirrored : Service * res GetLogEntriesResponse * world :=
  GetLogEntries_handler (pubkey := bytes) Ok (fun _ _ _ => Ok tuscolo_client) (fun _ _ => Ok no_log_client) (mkOptions 2 4)
    mini_parse tile_body byte_leaf (fun _ _ => false) id (fun _ => Err ErrSyscall) "list" (fun d => Ok (x1f :: d)) sample_marshal elements
    (fun _ _ => Err ErrNotExist) (fun _ => Ok [[x30]]) empty_service (mkGetLogEntries 2 7 "" true GRAN_DAY) (Some tuscolo) Ok quiet_world.

Definition walked (w : world) : list dirent := map (fun f => mkDirent f.1 false None) (map_to_list (files w)).

Definition valid_names (ds : list dirent) : bool :=
  forallb (fun d => match parseRangeFromName (Base (de_path d)) with
                    | Some r => (0 <=? rstart r) && (rstart r <? rend r) && (rend r <=? max_int64)
                    | None => true
                    end) ds.

Lemma valid_names_spec ds : valid_names ds = true ->
  forall d r, d ∈ ds -> parseRangeFromName (Base (de_path d)) = Some r -> valid_range r.
Proof.
  unfold valid_names. rewrite forallb_forall. intros H d r Hd Hr. apply list_elem_of_In, H in Hd. rewrite Hr in Hd.
  unfold valid_range. lia.
Qed.

Lemma mirrored_range_covered_witness :
  is_ok mirrored.1.2 = true /\
  forall i, 2 <= i < 7 -> on_disk "data" mirrored.2 i.
Proof.
  assert (Hok : is_ok mirrored.1.2 = true) by (vm_compute; reflexivity). split; [exact Hok|].
  assert (Hnames : valid_names (walked mirrored.2) = true) by (vm_compute; reflexivity).
  destruct mirrored as [[s' r] w'] eqn:E. cbn [fst snd] in *. destruct r as [resp|e|]; [|discriminate Hok..].
  refine (proj1 (mirrored_range_covered (pubkey := bytes) Ok (fun _ _ _ => Ok tuscolo_client) (fun _ _ => Ok no_log_client) (mkOptions 2 4)
    mini_parse tile_body byte_leaf (fun _ _ => false) id (fun _ => Err ErrSyscall) "list" (fun d => Ok (x1f :: d))
    (fun z => match z with _ :: d => Some d | [] => None end) sample_marshal elements
    (fun _ _ => Err ErrNotExist) (fun _ => Ok [[x30]]) empty_service s' (mkGetLogEntries 2 7 "" true GRAN_DAY) (Some tuscolo) Ok quiet_world w' resp
    10 (walked w') _ _ _ _ _ _ (valid_names_spec _ Hnames) E)).
  - reflexivity.
  - intros d z [= <-]. reflexivity.
  - intros d. by eexists.
  - intros s1 sel1. cbn. intros [= _ <-]. unfold delivers. cbn. intros f [= <-]. cbn. eexists. split; [reflexivity|].
    split; [reflexivity|]. split; [vm_compute; discriminate|]. intros s. apply mini_entries_iter.
  - intros p b Hp. unfold walked. rewrite list_elem_of_In, in_map_iff. exists (Join "data" p, b). split; [reflexivity|].
    rewrite <- list_elem_of_In. by apply elem_of_map_to_list.
  - intros d. unfold walked. rewrite list_elem_of_In, in_map_iff. by intros (x & <- & _).
Defined.
