(* ===== verification/Sql.v ===== *)
(** The SQLite databases of internal/db as the program's statements see them: a
    subjects table with its unique indexes, the dedup sets, and a monad in which
    every statement or file operation may fail or be cut short by a crash. The
    SQL of the source is translated statement by statement; WAL sidecars and
    pragmas, which only affect speed and power-loss durability, have no state. *)

From S2P Require Import Prelude GoStd.

(** ** Definitions *)

(** *** The subjects table *)

(** The columns of [subjectCols]; [None] is NULL. *)
Record row := mkRow {
  ca_id : Z; serial_number : string; common_name : string; organization : string;
  state : string; country : string; not_before : string; not_after : string;
  san_domains : string; san_ips : string; url : string;
  is_wildcard : Z; san_count : Z; entry_type : string;
  tile_idx : option Z; entry_idx : option Z;
  cert_hash : option bytes; log_id : option bytes }.

(** A subjects database: the rows in rowid order with their ids, the
    AUTOINCREMENT sequence, which unique indexes are in force, and the names of
    the query indexes. *)
Record db := mkDb {
  rows : list (Z * row);
  seq : Z;
  ix_tile : bool;
  ix_hash : bool;
  ix_query : list string }.

Definition empty_db (tile hash : bool) : db := mkDb [] 0 tile hash [].

Definition tile_key (r : row) : option (Z * Z) :=
  match tile_idx r, entry_idx r with Some t, Some e => Some (t, e) | _, _ => None end.

Definition hashes (d : db) : list bytes := omap (fun p => cert_hash p.2) (rows d).
Definition tile_keys (d : db) : list (Z * Z) := omap (fun p => tile_key p.2) (rows d).

(** Does inserting [r] violate a unique index? NULL keys never conflict. *)
Definition conflicts (d : db) (r : row) : bool :=
  match tile_key r with Some k => ix_tile d && bool_decide (k ∈ tile_keys d) | None => false end ||
  match cert_hash r with Some h => ix_hash d && bool_decide (h ∈ hashes d) | None => false end.

(** INSERT OR IGNORE INTO subjects. *)
Definition insert_or_ignore (d : db) (r : row) : db :=
  if conflicts d r then d
  else mkDb (rows d ++ [(seq d + 1, r)]) (seq d + 1) (ix_tile d) (ix_hash d) (ix_query d).

Definition insert_all (d : db) (rs : list row) : db := foldl insert_or_ignore d rs.

(** SELECT subjectCols FROM subjects *)
Definition all_rows (d : db) : list row := map snd (rows d).

Definition set_ix_hash (b : bool) (d : db) : db := mkDb (rows d) (seq d) (ix_tile d) b (ix_query d).
Definition set_ix_tile (b : bool) (d : db) : db := mkDb (rows d) (seq d) b (ix_hash d) (ix_query d).
Definition set_ix_query (q : list string) (d : db) : db := mkDb (rows d) (seq d) (ix_tile d) (ix_hash d) q.

Definition ErrUnique : error := Errorf "UNIQUE constraint failed".

(** CREATE UNIQUE INDEX IF NOT EXISTS idx_subjects_cert_hash … WHERE cert_hash IS NOT NULL *)
Definition create_hash_index (d : db) : res db :=
  if ix_hash d then Ok d
  else if bool_decide (NoDup (hashes d)) then Ok (set_ix_hash true d) else Err ErrUnique.

(** CREATE UNIQUE INDEX IF NOT EXISTS idx_subjects_tile_entry *)
Definition create_tile_index (d : db) : res db :=
  if ix_tile d then Ok d
  else if bool_decide (NoDup (tile_keys d)) then Ok (set_ix_tile true d) else Err ErrUnique.

Definition create_query_index (name : string) (d : db) : db :=
  if bool_decide (name ∈ ix_query d) then d else set_ix_query (ix_query d ++ [name]) d.

(** DROP INDEX IF EXISTS *)
Definition drop_index (name : string) (d : db) : db :=
  if String.eqb name "idx_subjects_cert_hash" then set_ix_hash false d
  else set_ix_query (filter (fun n => n <> name) (ix_query d)) d.

(** *** The progress and issuer tables *)

(** A row of [runs] (progress.go). *)
Record run_row := mkRunRow {
  rr_id : Z; rr_monitoring_root : string; rr_started_at : string; rr_updated_at : string;
  rr_status : string; rr_next_tile_idx : Z; rr_total_processed : Z }.

(** A row of [log_runs]. *)
Record log_run_row := mkLogRunRow {
  lr_id : Z; lr_log_id : bytes; lr_description : string; lr_submission_url : string;
  lr_monitoring_url : option string; lr_protocol : string; lr_operator : string; lr_state : string;
  lr_next_entry_idx : Z; lr_tree_size_at_start : option Z; lr_total_processed : Z;
  lr_started_at : string; lr_updated_at : string }.

Record progress_db := mkProgress {
  run_rows : list run_row; runs_seq : Z;
  log_run_rows : list log_run_row; log_runs_seq : Z }.

(** A row of [issuers] (db.go). *)
Record issuer_row := mkIssuerRow {
  is_ca_id : Z; is_fingerprint : string; is_common_name : string; is_organization : string; is_country : string }.

Record issuer_db := mkIssuerDb { issuer_rows : list issuer_row; issuers_seq : Z }.

(** *** Files, failures and the monad *)

(** A database file, or what an interrupted write left. *)
Inductive dbfile :=
| DB (d : db)
| Torn.

Record store := mkStore {
  dbs : gmap string dbfile;               (* subjects databases by path *)
  seens : gmap string (gset bytes);       (* dedup sets by path *)
  progs : gmap string progress_db;        (* progress databases by path *)
  issdbs : gmap string issuer_db;         (* issuer databases by path *)
  logged : list string }.                 (* the lines of log.Printf, oldest first *)

Definition set_db (p : string) (f : dbfile) (s : store) : store :=
  mkStore (<[p := f]> (dbs s)) (seens s) (progs s) (issdbs s) (logged s).
Definition del_db (p : string) (s : store) : store :=
  mkStore (delete p (dbs s)) (seens s) (progs s) (issdbs s) (logged s).
Definition set_seen_at (p : string) (x : gset bytes) (s : store) : store :=
  mkStore (dbs s) (<[p := x]> (seens s)) (progs s) (issdbs s) (logged s).
Definition set_prog (p : string) (d : progress_db) (s : store) : store :=
  mkStore (dbs s) (seens s) (<[p := d]> (progs s)) (issdbs s) (logged s).
Definition set_issdb (p : string) (d : issuer_db) (s : store) : store :=
  mkStore (dbs s) (seens s) (progs s) (<[p := d]> (issdbs s)) (logged s).
Definition add_log (line : string) (s : store) : store :=
  mkStore (dbs s) (seens s) (progs s) (issdbs s) (logged s ++ [line]).

(** What happens to one statement or call. *)
Inductive outcome := Done | Failed | Crashed.

Definition M (A : Type) : Type := store -> list outcome -> res A * store * list outcome.

Definition ret {A} (a : A) : M A := fun s fl => (Ok a, s, fl).
Definition fail {A} (e : error) : M A := fun s fl => (Err e, s, fl).

Definition bindM {A B} (m : M A) (k : A -> M B) : M B := fun s fl =>
  match m s fl with
  | (Ok a, s, fl) => k a s fl
  | (Err e, s, fl) => (Err e, s, fl)
  | (Panic, s, fl) => (Panic, s, fl)
  end.

(** The code looks at the error itself; a crash stays a crash. *)
Definition attempt {A} (m : M A) : M (A + error) := fun s fl =>
  match m s fl with
  | (Ok a, s, fl) => (Ok (inl a), s, fl)
  | (Err e, s, fl) => (Ok (inr e), s, fl)
  | (Panic, s, fl) => (Panic, s, fl)
  end.

Definition wrapM {A} (msg : string) (m : M A) : M A := fun s fl =>
  let '(r, s, fl) := m s fl in (wrap_err msg r, s, fl).

(** One atomic statement or call: it takes effect, fails without effect, or the
    process dies before it. [interrupted] is the state a failing or dying
    operation leaves when it is not atomic. *)
Definition step_or {A} (interrupted : store -> store) (f : store -> res A * store) : M A := fun s fl =>
  match fl with
  | [] => (f s, [])
  | Done :: fl => (f s, fl)
  | Failed :: fl => (Err ErrSyscall, interrupted s, fl)
  | Crashed :: fl => (Panic, interrupted s, fl)
  end.

Definition step {A} (f : store -> res A * store) : M A := step_or id f.

(** A statement with no effect on the tables (PRAGMA, BEGIN, ATTACH, MkdirAll …). *)
Definition nop : M unit := step (fun s => (Ok tt, s)).

(** Reading and updating the database of a path. *)
Definition read_db (p : string) (s : store) : res db :=
  match dbs s !! p with
  | Some (DB d) => Ok d
  | Some Torn => Err (Errorf "database disk image is malformed")
  | None => Err (Errorf "no such table: subjects")
  end.

Definition query {A} (p : string) (f : db -> A) : M A :=
  step (fun s => match read_db p s with Ok d => (Ok (f d), s) | Err e => (Err e, s) | Panic => (Panic, s) end).

Definition update (p : string) (f : db -> res db) : M unit :=
  step (fun s =>
    match read_db p s with
    | Ok d => match f d with Ok d' => (Ok tt, set_db p (DB d') s) | Err e => (Err e, s) | Panic => (Panic, s) end
    | Err e => (Err e, s)
    | Panic => (Panic, s)
    end).

(** os.Remove, os.RemoveAll: a missing file is not looked at by any caller. *)
Definition remove (p : string) : M unit := step (fun s => (Ok tt, del_db p s)).

(** os.Rename *)
Definition rename (a b : string) : M unit :=
  step (fun s =>
    match dbs s !! a with
    | Some f => (Ok tt, set_db b f (del_db a s))
    | None => (Err ErrNotExist, s)
    end).

(** os.Stat *)
Definition stat (p : string) : M unit :=
  step (fun s => match dbs s !! p with Some _ => (Ok tt, s) | None => (Err ErrNotExist, s) end).

Declare Scope sql_scope.
Delimit Scope sql_scope with sql.
Notation "'let@' p ':=' m 'in' k" := (bindM m (fun p => k))
  (at level 10, p pattern, m at level 100, k at level 200) : sql_scope.

(** ** Lemmas *)

(** *** Reasoning over every plan of failures *)

(** [wp m Q s]: whatever fails, [m] started in [s] ends with a result and state in [Q]. *)
Definition wp {A} (m : M A) (Q : res A -> store -> Prop) (s : store) : Prop :=
  forall fl, Q (m s fl).1.1 (m s fl).1.2.

Lemma wp_ret {A} (a : A) Q s : Q (Ok a) s -> wp (ret a) Q s.
Proof. by intros H fl. Qed.

Lemma wp_fail {A} e (Q : res A -> store -> Prop) s : Q (Err e) s -> wp (fail e) Q s.
Proof. by intros H fl. Qed.

Lemma wp_mono {A} (m : M A) (Q Q' : res A -> store -> Prop) s :
  wp m Q s -> (forall r s', Q r s' -> Q' r s') -> wp m Q' s.
Proof. intros H HQ fl. by apply HQ. Qed.

Lemma wp_bind {A B} (m : M A) (k : A -> M B) Q s :
  wp m (fun r s' => match r with Ok a => wp (k a) Q s' | Err e => Q (Err e) s' | Panic => Q Panic s' end) s ->
  wp (bindM m k) Q s.
Proof.
  intros H fl. specialize (H fl). unfold bindM. destruct (m s fl) as [[[a|e|] s'] fl']; cbn in *; [apply H|done..].
Qed.

Lemma wp_attempt {A} (m : M A) Q s :
  wp m (fun r s' => match r with
                   | Ok a => Q (Ok (inl a)) s' | Err e => Q (Ok (inr e)) s' | Panic => Q Panic s'
                   end) s -> wp (attempt m) Q s.
Proof.
  intros H fl. specialize (H fl). unfold attempt. by destruct (m s fl) as [[[a|e|] s'] fl'].
Qed.

Lemma wp_wrap {A} msg (m : M A) Q s :
  wp m (fun r s' => Q (wrap_err msg r) s') s -> wp (wrapM msg m) Q s.
Proof. intros H fl. specialize (H fl). unfold wrapM. by destruct (m s fl) as [[r s'] fl']. Qed.

Lemma wp_step_or {A} g (f : store -> res A * store) Q s :
  Q (Err ErrSyscall) (g s) -> Q Panic (g s) -> Q (f s).1 (f s).2 -> wp (step_or g f) Q s.
Proof. intros H1 H2 H3 [|[] fl]; unfold step_or; cbn; try done; by destruct (f s). Qed.

Lemma wp_step {A} (f : store -> res A * store) Q s :
  Q (Err ErrSyscall) s -> Q Panic s -> Q (f s).1 (f s).2 -> wp (step f) Q s.
Proof. apply (wp_step_or id). Qed.

Lemma wp_nop Q s : Q (Err ErrSyscall) s -> Q Panic s -> Q (Ok tt) s -> wp nop Q s.
Proof. intros. by apply wp_step. Qed.

Lemma wp_run {A} (m : M A) Q s fl r s' fl' : wp m Q s -> m s fl = (r, s', fl') -> Q r s'.
Proof. intros H E. specialize (H fl). by rewrite E in H. Qed.

(** *** Row identity *)

(** [held d r]: the database has a row with [r]'s identity — its certificate
    hash, else its tile and entry, else the row itself. *)
Definition held (d : db) (r : row) : Prop :=
  match cert_hash r with
  | Some h => h ∈ hashes d
  | None => match tile_key r with Some k => k ∈ tile_keys d | None => r ∈ all_rows d end
  end.

Definition db_le (d d' : db) : Prop := forall r, held d r -> held d' r.

#[export] Instance db_le_preorder : PreOrder db_le.
Proof. split; [by intros d r|intros a b c H1 H2 r Hr; auto]. Qed.

(** One identity per row: multi-log rows have no tile position. *)
Definition row_ok (r : row) : Prop := cert_hash r = None \/ tile_key r = None.

Lemma held_in d r : r ∈ all_rows d -> held d r.
Proof.
  intros Hr. pose proof Hr as Hr'. unfold all_rows in Hr'. apply list_elem_of_fmap in Hr' as (p & -> & Hp).
  unfold held. destruct (cert_hash p.2) eqn:E; [|destruct (tile_key p.2) eqn:E2; [|done]].
  - apply list_elem_of_omap. by exists p.
  - apply list_elem_of_omap. by exists p.
Qed.

Lemma held_rows d d' : (forall p, p ∈ rows d -> p ∈ rows d') -> db_le d d'.
Proof.
  intros Hs r. unfold held, hashes, tile_keys, all_rows.
  destruct (cert_hash r); [|destruct (tile_key r)].
  - rewrite !list_elem_of_omap. naive_solver.
  - rewrite !list_elem_of_omap. naive_solver.
  - rewrite !list_elem_of_fmap. naive_solver.
Qed.

Lemma insert_le d r : db_le d (insert_or_ignore d r).
Proof.
  apply held_rows. intros p Hp. unfold insert_or_ignore. destruct (conflicts d r); [done|].
  cbn. apply elem_of_app. by left.
Qed.

Lemma insert_held d r : row_ok r -> held (insert_or_ignore d r) r.
Proof.
  intros Hok. unfold insert_or_ignore. destruct (conflicts d r) eqn:Ec.
  - unfold conflicts in Ec. unfold held. destruct Hok as [E|E]; rewrite E in *; cbn in *.
    + destruct (tile_key r); [|done]. rewrite orb_false_r in Ec. apply andb_true_iff in Ec as [_ Ec].
      by apply bool_decide_eq_true in Ec.
    + destruct (cert_hash r); [|done]. apply andb_true_iff in Ec as [_ Ec]. by apply bool_decide_eq_true in Ec.
  - apply held_in. unfold all_rows. cbn. rewrite map_app. apply elem_of_app. right. by left.
Qed.

Lemma insert_all_le rs d : db_le d (insert_all d rs).
Proof.
  revert d. induction rs as [|r rs IH]; intros d; cbn; [done|].
  etransitivity; [apply insert_le|apply IH].
Qed.

Lemma insert_all_held rs d r : Forall row_ok rs -> r ∈ rs -> held (insert_all d rs) r.
Proof.
  intros Hok. revert d. induction Hok as [|x rs Hx _ IH]; intros d; [by intros H%elem_of_nil|].
  intros [->|Hr]%elem_of_cons; cbn; [|by apply IH]. by apply insert_all_le, insert_held.
Qed.

Lemma insert_all_app rs rs' d : insert_all d (rs ++ rs') = insert_all (insert_all d rs) rs'.
Proof. unfold insert_all. apply foldl_app. Qed.

(** The database at path [p] has a row with [r]'s identity. *)
Definition held_at (s : store) (p : string) (r : row) : Prop := exists d, dbs s !! p = Some (DB d) /\ held d r.

Lemma held_at_ext s s' q x : dbs s' !! q = dbs s !! q -> held_at s q x -> held_at s' q x.
Proof. intros E (d & Hd & Hx). exists d. by rewrite E. Qed.

(** *** Well-formed databases *)

Record db_wf (d : db) : Prop := {
  wf_hash : ix_hash d = true -> NoDup (hashes d);
  wf_tile : ix_tile d = true -> NoDup (tile_keys d);
  wf_ids : StronglySorted Z.lt ((rows d).*1);
  wf_seq : Forall (fun i => i <= seq d) ((rows d).*1) }.

Lemma hashes_snoc d r i sq t h q :
  hashes (mkDb (rows d ++ [(i, r)]) sq t h q) = hashes d ++ option_list (cert_hash r).
Proof. unfold hashes. cbn. rewrite omap_app. cbn. by destruct (cert_hash r). Qed.

Lemma tile_keys_snoc d r i sq t h q :
  tile_keys (mkDb (rows d ++ [(i, r)]) sq t h q) = tile_keys d ++ option_list (tile_key r).
Proof. unfold tile_keys. cbn. rewrite omap_app. cbn. by destruct (tile_key r). Qed.

Lemma NoDup_snoc_opt {A} (l : list A) (o : option A) :
  NoDup l -> (forall x, o = Some x -> x ∉ l) -> NoDup (l ++ option_list o).
Proof.
  intros Hl Ho. apply NoDup_app. split; [done|]. split.
  - intros x Hx Hin. destruct o as [y|]; cbn in Hin; [|by apply elem_of_nil in Hin].
    apply list_elem_of_singleton in Hin as ->. by apply (Ho y).
  - destruct o; cbn; [apply NoDup_singleton|constructor].
Qed.

Lemma StronglySorted_snoc l i :
  StronglySorted Z.lt l -> Forall (fun j => j < i) l -> StronglySorted Z.lt (l ++ [i]).
Proof.
  induction 1 as [|x l Hs IH Hx]; cbn; intros Hi; [by repeat constructor|].
  apply Forall_cons in Hi as [Hxi Hi]. constructor; [by apply IH|]. apply Forall_app. split; [done|by repeat constructor].
Qed.

Lemma insert_wf d r : db_wf d -> db_wf (insert_or_ignore d r).
Proof.
  intros [Hh Ht Hi Hs]. unfold insert_or_ignore. destruct (conflicts d r) eqn:Ec; [done|].
  unfold conflicts in Ec. apply orb_false_iff in Ec as [E1 E2]. split.
  - intros Hix. rewrite hashes_snoc. cbn in Hix. apply NoDup_snoc_opt; [by apply Hh|].
    intros h E. rewrite E, Hix in E2. cbn in E2. by apply bool_decide_eq_false in E2.
  - intros Hix. rewrite tile_keys_snoc. cbn in Hix. apply NoDup_snoc_opt; [by apply Ht|].
    intros k E. rewrite E, Hix in E1. cbn in E1. by apply bool_decide_eq_false in E1.
  - cbn. rewrite fmap_app. cbn. apply StronglySorted_snoc; [done|]. eapply Forall_impl; [exact Hs|]. cbn. lia.
  - cbn. rewrite fmap_app. cbn. apply Forall_app. split; [eapply Forall_impl; [exact Hs|]; cbn; lia|].
    repeat constructor. lia.
Qed.

Lemma insert_all_wf rs d : db_wf d -> db_wf (insert_all d rs).
Proof. revert d. induction rs as [|r rs IH]; intros d H; cbn; [done|]. by apply IH, insert_wf. Qed.

Lemma empty_wf t h : db_wf (empty_db t h).
Proof. split; intros; constructor. Qed.

Lemma wf_flags d t h q :
  db_wf d -> (h = true -> NoDup (hashes d)) -> (t = true -> NoDup (tile_keys d)) ->
  db_wf (mkDb (rows d) (seq d) t h q).
Proof. intros [_ _ Hi Hs] Hh Ht. by split. Qed.

Lemma insert_flags d rs :
  ix_tile (insert_all d rs) = ix_tile d /\ ix_hash (insert_all d rs) = ix_hash d /\
  ix_query (insert_all d rs) = ix_query d.
Proof.
  revert d. induction rs as [|r rs IH]; intros d; [done|].
  change (insert_all d (r :: rs)) with (insert_all (insert_or_ignore d r) rs).
  destruct (IH (insert_or_ignore d r)) as (-> & -> & ->). unfold insert_or_ignore. by destruct (conflicts d r).
Qed.

(** *** Invariants of a program under every plan of failures *)

Definition pres (I : store -> Prop) {A} (m : M A) : Prop := forall s, I s -> wp m (fun _ s' => I s') s.

Section Pres.

Context (I : store -> Prop).

Lemma pres_ret {A} (a : A) : pres I (ret a).
Proof. intros s H. by apply wp_ret. Qed.

Lemma pres_fail {A} e : pres I (@fail A e).
Proof. intros s H. by apply wp_fail. Qed.

Lemma pres_step_or {A} g (f : store -> res A * store) :
  (forall s, I s -> I (g s)) -> (forall s, I s -> I (f s).2) -> pres I (step_or g f).
Proof. intros Hg Hf s H. apply wp_step_or; auto. Qed.

Lemma pres_step {A} (f : store -> res A * store) : (forall s, I s -> I (f s).2) -> pres I (step f).
Proof. apply pres_step_or. by intros. Qed.

Lemma pres_nop : pres I nop.
Proof. by apply pres_step. Qed.

Lemma pres_query {A} p (f : db -> A) : pres I (query p f).
Proof. apply pres_step. intros s H. by destruct (read_db p s). Qed.

Lemma pres_stat p : pres I (stat p).
Proof. apply pres_step. intros s H. by destruct (dbs s !! p). Qed.

Lemma pres_bind {A B} (m : M A) (k : A -> M B) : pres I m -> (forall a, pres I (k a)) -> pres I (bindM m k).
Proof.
  intros Hm Hk s H. apply wp_bind. eapply wp_mono; [by apply Hm|]. intros [a|e|] s' H'; [by apply Hk|done..].
Qed.

Lemma pres_attempt {A} (m : M A) : pres I m -> pres I (attempt m).
Proof. intros Hm s H. apply wp_attempt. eapply wp_mono; [by apply Hm|]. by intros [a|e|] s' H'. Qed.

Lemma pres_wrap {A} msg (m : M A) : pres I m -> pres I (wrapM msg m).
Proof. intros Hm s H. apply wp_wrap. eapply wp_mono; [by apply Hm|]. done. Qed.

Lemma pres_update p (f : db -> res db) :
  (forall s d d', I s -> dbs s !! p = Some (DB d) -> f d = Ok d' -> I (set_db p (DB d') s)) -> pres I (update p f).
Proof.
  intros Hf. apply pres_step. intros s H. unfold read_db. destruct (dbs s !! p) as [[d|]|] eqn:E; [|done..].
  destruct (f d) eqn:Ef; [by eapply Hf|done..].
Qed.

Lemma pres_remove p : (forall s, I s -> I (del_db p s)) -> pres I (remove p).
Proof. intros Hf. by apply pres_step. Qed.

End Pres.

Create HintDb pres.
#[export] Hint Resolve pres_ret pres_fail pres_nop pres_query pres_stat pres_bind pres_attempt pres_wrap : pres.

(** Run the invariant through a bind and continue with the result at hand. *)
Lemma wp_bind_pres (I : store -> Prop) {A B} (m : M A) (k : A -> M B) (Q : res B -> store -> Prop) s :
  pres I m -> I s -> (forall s', I s' -> (forall e, Q (Err e) s') /\ Q Panic s') ->
  (forall a s', I s' -> wp (k a) Q s') -> wp (bindM m k) Q s.
Proof.
  intros Hm H Hb Hk. apply wp_bind. eapply wp_mono; [by apply Hm|].
  intros [a|e|] s' H'; [by apply Hk|by apply Hb..].
Qed.

(** *** Look-ups in an updated store *)

Lemma dbs_set p f s q : dbs (set_db p f s) !! q = if decide (p = q) then Some f else dbs s !! q.
Proof. cbn. case_decide as H; [subst; apply lookup_insert_eq|by apply lookup_insert_ne]. Qed.

Lemma dbs_del p s q : dbs (del_db p s) !! q = if decide (p = q) then None else dbs s !! q.
Proof. cbn. case_decide as H; [subst; apply lookup_delete_eq|by apply lookup_delete_ne]. Qed.

Lemma wp_update p (f : db -> res db) Q s d :
  dbs s !! p = Some (DB d) -> Q (Err ErrSyscall) s -> Q Panic s ->
  match f d with Ok d' => Q (Ok tt) (set_db p (DB d') s) | Err e => Q (Err e) s | Panic => Q Panic s end ->
  wp (update p f) Q s.
Proof. intros Hd H1 H2 H3. apply wp_step; [done..|]. unfold read_db. rewrite Hd. by destruct (f d). Qed.

Lemma wp_query {A} p (f : db -> A) Q s d :
  dbs s !! p = Some (DB d) -> Q (Err ErrSyscall) s -> Q Panic s -> Q (Ok (f d)) s -> wp (query p f) Q s.
Proof. intros Hd H1 H2 H3. apply wp_step; [done..|]. unfold read_db. by rewrite Hd. Qed.

Lemma db_le_hashes d d' h : db_le d d' -> h ∈ hashes d -> h ∈ hashes d'.
Proof.
  intros Hle. exact (Hle (mkRow 0 "" "" "" "" "" "" "" "" "" "" 0 0 "" None None (Some h) None)).
Qed.

Lemma db_le_same d d' : rows d = rows d' -> db_le d d'.
Proof. intros E. apply held_rows. by rewrite E. Qed.

Definition db_good (d : db) : Prop := db_wf d /\ Forall row_ok (all_rows d).

Lemma insert_all_good rs d : db_good d -> Forall row_ok rs -> db_good (insert_all d rs).
Proof.
  intros [Hw Ho] Hrs. split; [by apply insert_all_wf|].
  revert d Hw Ho. induction Hrs as [|r rs Hr Hrs IH]; intros d Hw Ho; [done|].
  apply IH; [by apply insert_wf|]. unfold insert_or_ignore. destruct (conflicts d r); [done|].
  unfold all_rows. cbn. rewrite map_app. apply Forall_app. split; [done|by apply Forall_singleton].
Qed.

Lemma drop_index_spec n d :
  rows (drop_index n d) = rows d /\ (db_good d -> db_good (drop_index n d)) /\
  ix_tile (drop_index n d) = ix_tile d /\ (ix_hash d = false -> ix_hash (drop_index n d) = false).
Proof.
  unfold drop_index. case_match; cbn; split_and!; try done; intros [Hw Ho]; split; try done;
    apply wf_flags; try done; apply Hw.
Qed.

Lemma query_index_spec n d :
  rows (create_query_index n d) = rows d /\ (db_good d -> db_good (create_query_index n d)) /\
  ix_tile (create_query_index n d) = ix_tile d /\ ix_hash (create_query_index n d) = ix_hash d.
Proof.
  unfold create_query_index. case_match; split_and!; try done. intros [Hw Ho]; split; [|done].
  apply wf_flags; try done; apply Hw.
Qed.

Lemma sorted_bounds (l : list Z) a b x :
  StronglySorted Z.lt l -> head l = Some a -> last l = Some b -> x ∈ l -> a <= x <= b.
Proof.
  intros Hs Ha Hb Hx. split.
  - destruct l as [|y l]; [done|]. injection Ha as ->. apply StronglySorted_inv in Hs as [_ Hf].
    apply elem_of_cons in Hx as [->|Hx]; [lia|]. rewrite Forall_forall in Hf. specialize (Hf x Hx). lia.
  - clear Ha. revert x Hx. induction Hs as [|y l Hs IH Hf]; intros x Hx; [by apply elem_of_nil in Hx|].
    destruct l as [|z l].
    + injection Hb as ->. apply list_elem_of_singleton in Hx as ->. lia.
    + rewrite last_cons_cons in Hb. specialize (IH Hb). apply elem_of_cons in Hx as [->|Hx]; [|by apply IH].
      apply Forall_cons in Hf as [Hyz _]. assert (z <= b) by (apply IH; by left). lia.
Qed.

(** Holding every row of a database means holding every identity of it. *)
Lemma rows_le d d' : Forall row_ok (all_rows d) -> (forall r, r ∈ all_rows d -> held d' r) -> db_le d d'.
Proof.
  intros Hok Hall r Hr.
  assert (exists r', r' ∈ all_rows d /\ forall d', held d' r' -> held d' r) as (r' & Hin & Himp); [|by apply Himp, Hall].
  unfold held in Hr. destruct (cert_hash r) as [h|] eqn:Eh; [|destruct (tile_key r) as [k|] eqn:Ek].
  - apply list_elem_of_omap in Hr as (p & Hp & Hc). exists p.2. split; [apply list_elem_of_fmap; by exists p|].
    intros d1. unfold held. by rewrite Hc, Eh.
  - apply list_elem_of_omap in Hr as (p & Hp & Hk). exists p.2.
    assert (Hin : p.2 ∈ all_rows d) by (apply list_elem_of_fmap; by exists p). split; [done|].
    rewrite Forall_forall in Hok. destruct (Hok _ Hin) as [Hc|Hc]; [|congruence].
    intros d1. unfold held. by rewrite Hc, Hk, Eh, Ek.
  - by exists r.
Qed.

(** Every identity of a database survives INSERT OR IGNORE … SELECT into another. *)
Lemma copy_le dd d : Forall row_ok (all_rows d) -> db_le d (insert_all dd (all_rows d)).
Proof. intros Hok. apply rows_le; [done|]. intros r Hr. by apply insert_all_held. Qed.

Lemma empty_good t h : db_good (empty_db t h).
Proof. split; [apply empty_wf|constructor]. Qed.

(** *** Runs in which nothing fails *)

Definition quiet {A} (m : M A) (Q : A -> store -> Prop) (s : store) : Prop :=
  exists a s', m s [] = (Ok a, s', []) /\ Q a s'.

Definition runs {A} (m : M A) (s : store) : Prop := quiet m (fun _ _ => True) s.

Lemma quiet_ret {A} (a : A) (Q : A -> store -> Prop) s : Q a s -> quiet (ret a) Q s.
Proof. intros H. by exists a, s. Qed.

Lemma quiet_mono {A} (m : M A) (Q Q' : A -> store -> Prop) s :
  quiet m Q s -> (forall a s', Q a s' -> Q' a s') -> quiet m Q' s.
Proof. intros (a & s' & E & H) HQ. exists a, s'. auto. Qed.

Lemma quiet_bind {A B} (m : M A) (k : A -> M B) Q s :
  quiet m (fun a s' => quiet (k a) Q s') s -> quiet (bindM m k) Q s.
Proof. intros (a & s' & E & b & s'' & E' & H). exists b, s''. unfold bindM. by rewrite E. Qed.

Lemma quiet_attempt {A} (m : M A) (Q : A + error -> store -> Prop) s :
  quiet m (fun a s' => Q (inl a) s') s -> quiet (attempt m) Q s.
Proof. intros (a & s' & E & H). exists (inl a), s'. unfold attempt. by rewrite E. Qed.

Lemma quiet_wrap {A} msg (m : M A) Q s : quiet m Q s -> quiet (wrapM msg m) Q s.
Proof. intros (a & s' & E & H). exists a, s'. unfold wrapM. by rewrite E. Qed.

Lemma quiet_step_or {A} g (f : store -> res A * store) a s' (Q : A -> store -> Prop) s :
  f s = (Ok a, s') -> Q a s' -> quiet (step_or g f) Q s.
Proof. intros E H. exists a, s'. unfold step_or. by rewrite E. Qed.

Lemma quiet_nop (Q : unit -> store -> Prop) s : Q tt s -> quiet nop Q s.
Proof. by apply quiet_step_or. Qed.

Lemma quiet_query {A} p (f : db -> A) d (Q : A -> store -> Prop) s :
  dbs s !! p = Some (DB d) -> Q (f d) s -> quiet (query p f) Q s.
Proof. intros Hd. apply quiet_step_or. unfold read_db. by rewrite Hd. Qed.

Lemma quiet_update p (f : db -> res db) d d' (Q : unit -> store -> Prop) s :
  dbs s !! p = Some (DB d) -> f d = Ok d' -> Q tt (set_db p (DB d') s) -> quiet (update p f) Q s.
Proof. intros Hd Hf. apply quiet_step_or. unfold read_db. by rewrite Hd, Hf. Qed.

Lemma quiet_remove p (Q : unit -> store -> Prop) s : Q tt (del_db p s) -> quiet (remove p) Q s.
Proof. by apply quiet_step_or. Qed.

(** What holds whatever fails also holds when nothing does. *)
Lemma quiet_wp {A} (m : M A) (R : res A -> store -> Prop) (Q : A -> store -> Prop) s :
  wp m R s -> quiet m (fun _ _ => True) s -> (forall a s', R (Ok a) s' -> Q a s') -> quiet m Q s.
Proof. intros Hw (a & s' & E & _) H. exists a, s'. split; [done|]. apply H. specialize (Hw []). by rewrite E in Hw. Qed.

Lemma quiet_and {A} (m : M A) (Q : A -> store -> Prop) (R : res A -> store -> Prop) s :
  quiet m Q s -> wp m R s -> quiet m (fun a s' => Q a s' /\ R (Ok a) s') s.
Proof. intros (a & s' & E & H) Hw. exists a, s'. split; [done|]. split; [done|]. specialize (Hw []). by rewrite E in Hw. Qed.

(** The bind of a step whose success is known with an invariant that holds anyway. *)
Lemma quiet_bind_wp {A B} (m : M A) (k : A -> M B) (R : res A -> store -> Prop) (Q : B -> store -> Prop) s :
  wp m R s -> quiet m (fun _ _ => True) s -> (forall a s', R (Ok a) s' -> quiet (k a) Q s') -> quiet (bindM m k) Q s.
Proof. intros Hw Hq Hk. apply quiet_bind. by eapply quiet_wp. Qed.

Lemma surjective_pairing_3 {A B C} (x : A * B * C) : x = (x.1.1, x.1.2, x.2).
Proof. by destruct x as [[a b] c]. Qed.

(** *** Deleting rows *)

Lemma NoDup_omap_filter {A B} (f : A -> option B) (P : A -> Prop) `{!forall x, Decision (P x)} l :
  NoDup (omap f l) -> NoDup (omap f (filter P l)).
Proof.
  induction l as [|x l IH]; [done|]. rewrite filter_cons. cbn. intros Hn.
  assert (NoDup (omap f l)) by (destruct (f x); [by apply NoDup_cons in Hn as [_ ?]|done]).
  case_decide; [|by apply IH]. cbn. destruct (f x) as [y|]; [|by apply IH].
  apply NoDup_cons in Hn as [Hy _]. apply NoDup_cons. split; [|by apply IH].
  intros (z & Hz & E)%list_elem_of_omap. apply Hy, list_elem_of_omap. exists z. split; [|done].
  by apply list_elem_of_filter in Hz as [_ Hz].
Qed.

Lemma sorted_filter {B} (P : Z * B -> Prop) `{!forall x, Decision (P x)} l :
  StronglySorted Z.lt (l.*1) -> StronglySorted Z.lt ((filter P l).*1).
Proof.
  induction l as [|x l IH]; [done|]. rewrite filter_cons. cbn. intros [Hs Hf]%StronglySorted_inv.
  case_decide; [|by apply IH]. cbn. constructor; [by apply IH|]. rewrite Forall_forall in Hf |- *.
  intros i (y & -> & Hy)%list_elem_of_fmap. apply Hf, list_elem_of_fmap. exists y. split; [done|].
  by apply list_elem_of_filter in Hy as [_ Hy].
Qed.

Lemma filter_good (P : Z * row -> Prop) `{!forall x, Decision (P x)} d :
  db_good d -> db_good (mkDb (filter P (rows d)) (seq d) (ix_tile d) (ix_hash d) (ix_query d)).
Proof.
  intros [[Hh Ht Hi Hs] Ho].
  assert (Hin : forall p, p ∈ filter P (rows d) -> p ∈ rows d) by (by intros p [_ ?]%list_elem_of_filter).
  split; [split|].
  - intros E. by apply NoDup_omap_filter, Hh.
  - intros E. by apply NoDup_omap_filter, Ht.
  - by apply sorted_filter.
  - cbn. rewrite Forall_forall in Hs |- *. intros i (p & -> & Hp)%list_elem_of_fmap. apply Hs, list_elem_of_fmap. eauto.
  - rewrite Forall_forall in Ho |- *. intros r (p & -> & Hp)%list_elem_of_fmap. apply Ho, list_elem_of_fmap. eauto.
Qed.
