(* ===== verification/SubjectDB.v ===== *)
(** internal/db/db.go: the monthly subjects databases — inserting batches, the
    rebuild of an archive month on scratch space, and the index-free heap. *)

From S2P Require Import Prelude GoStd FileSys Sql.

#[local] Open Scope sql_scope.

(** ** Definitions *)

(** Falls back to "unknown" for short values. *)
Definition certMonth (notBefore : string) : string :=
  if (7 <=? Z.of_nat (String.length notBefore)) then String.substring 0 7 notBefore else "unknown".

Record Subject := mkSubject {
  CAID : Z; SerialNumber : string; CommonName : string; Organization : string;
  State : string; Country : string; NotBefore : string; NotAfter : string;
  SANDomains : string; SANIPS : string; URL : string;
  IsWildcard : Z; SANCount : Z; EntryType : string;
  TileIdx : Z; EntryIdx : Z; CertHash : bytes; LogID : bytes }.

(** The column values of INSERT: an empty hash is NULL and keeps the tile
    position as the key; a hash leaves the position NULL. *)
Definition subject_row (s : Subject) : row :=
  mkRow (CAID s) (SerialNumber s) (CommonName s) (Organization s) (State s) (Country s)
    (NotBefore s) (NotAfter s) (SANDomains s) (SANIPS s) (URL s)
    (IsWildcard s) (SANCount s) (EntryType s)
    (if bool_decide (CertHash s = []) then Some (TileIdx s) else None)
    (if bool_decide (CertHash s = []) then Some (EntryIdx s) else None)
    (if bool_decide (CertHash s = []) then None else Some (CertHash s))
    (if bool_decide (LogID s = []) then None else Some (LogID s)).

(** CREATE TABLE IF NOT EXISTS subjects *)
Definition create_table (path : string) : M unit :=
  step (fun s => match dbs s !! path with
                 | None => (Ok tt, set_db path (DB (empty_db false false)) s)
                 | Some (DB _) => (Ok tt, s)
                 | Some Torn => (Err (Errorf "database disk image is malformed"), s)
                 end).

(** The indexes' failures after the first statement are only logged. The ALTER
    TABLE migrations of older schemas are left out. *)
Definition OpenSubjectDB (path : string) : M unit :=
  let@ _ := wrapM "create subjects table" (let@ _ := create_table path in update path create_tile_index) in
  let@ _ := attempt (update path create_tile_index) in
  let@ _ := attempt (update path create_hash_index) in
  ret tt.

Fixpoint exec_inserts (d : db) (subjects : list Subject) : M db :=
  match subjects with
  | [] => ret d
  | s :: rest =>
      let@ _ := wrapM ("insert subject tile=" +:+ dec (TileIdx s) +:+ " entry=" +:+ dec (EntryIdx s)) nop in
      exec_inserts (insert_or_ignore d (subject_row s)) rest
  end.

(** One transaction: only COMMIT makes the rows visible. *)
Definition InsertSubjectBatch (path : string) (subjects : list Subject) : M unit :=
  match subjects with
  | [] => ret tt
  | _ :: _ =>
      let@ d := wrapM "begin batch" (query path id) in
      let@ _ := wrapM "prepare insert" nop in
      let@ d' := exec_inserts d subjects in
      update path (fun _ => Ok d')
  end.

(** DROP/CREATE of the read-path indexes. *)
Definition queryIndexNames : list string :=
  ["idx_subjects_ca_id"; "idx_subjects_cn"; "idx_subjects_not_after"; "idx_subjects_wildcard"].

Fixpoint exec_each (path : string) (names : list string) (f : string -> db -> db) : M unit :=
  match names with
  | [] => ret tt
  | n :: names => let@ _ := update path (fun d => Ok (f n d)) in exec_each path names f
  end.

Definition BuildQueryIndexes (path : string) : M unit :=
  let@ _ := nop in
  wrapM "create index" (exec_each path queryIndexNames create_query_index).

(** [io.Copy] into a truncated file: a failing or dying copy leaves a torn file. *)
Definition copySubjectDB (src dst : string) : M unit :=
  let@ content := step (fun s => match dbs s !! src with
                                 | Some f => (Ok f, s) | None => (Err ErrNotExist, s) end) in
  let@ _ := step_or id (fun s => (Ok tt, set_db dst Torn s)) in
  let@ r := attempt (step (fun s => (Ok tt, set_db dst content s))) in
  match r with
  | inl _ => nop
  | inr e => let@ _ := attempt (remove dst) in fail e
  end.

(** CREATE TABLE subjects and its unique indexes in a new file. *)
Definition create_schema (path : string) (hash : bool) : M unit :=
  step (fun s => match dbs s !! path with
                 | None => (Ok tt, set_db path (DB (empty_db true hash)) s)
                 | Some _ => (Err (Errorf "table subjects already exists"), s)
                 end).

(** INSERT OR IGNORE … SELECT under journal_mode=OFF: a statement that fails or
    dies leaves a damaged file. *)
Definition insert_select (dst src : string) : M unit :=
  step_or (set_db dst Torn) (fun s =>
    match read_db src s, read_db dst s with
    | Ok ds, Ok dd => (Ok tt, set_db dst (DB (insert_all dd (all_rows ds))) s)
    | Err e, _ | _, Err e => (Err e, s)
    | _, _ => (Panic, s)
    end).

Definition attach (path : string) : M unit := nop.

Definition buildMergedSubjectDB (existingPath srcPath newPath : string) : M unit :=
  let@ _ := nop in
  let@ _ := wrapM "create schema in merged db" (create_schema newPath true) in
  let@ _ := wrapM "attach existing subjects" (attach existingPath) in
  let@ _ := wrapM "attach src subjects" (attach srcPath) in
  let@ _ := wrapM "copy existing subjects" (insert_select newPath existingPath) in
  let@ _ := wrapM "merge src subjects" (insert_select newPath srcPath) in
  nop.

Definition buildIndexFreeHeap (existingPath newPath : string) : M unit :=
  let@ _ := nop in
  let@ _ := wrapM "create index-free schema" (create_schema newPath false) in
  let@ _ := wrapM "attach existing subjects" (attach existingPath) in
  let@ _ := wrapM "copy existing into heap" (insert_select newPath existingPath) in
  nop.

(** The sidecars have no state of their own. *)
Definition removeDBFiles (path : string) : M unit := let@ _ := attempt (remove path) in ret tt.

Section Scratch.

Variable pid : Z.

Definition scratchRebuildArchive (dstPath scratchDir tag : string) (build : string -> M unit) : M unit :=
  let hddNew := (dstPath +:+ ".new." +:+ dec pid)%string in
  let@ (buildPath, crossFS) :=
    if String.eqb scratchDir "" then ret (hddNew, false)
    else
      let@ r := attempt nop in
      match r with
      | inl _ => ret (Join scratchDir (Base (Dir dstPath) +:+ "." +:+ tag +:+ "." +:+ dec pid)%string, true)
      | inr _ => ret (hddNew, false)
      end in
  let@ _ := removeDBFiles buildPath in
  let@ r := attempt (build buildPath) in
  match r with
  | inl _ =>
      if negb crossFS then rename buildPath dstPath else
      let@ r := attempt (copySubjectDB buildPath hddNew) in
      match r with
      | inl _ =>
          let@ _ := removeDBFiles buildPath in
          rename hddNew dstPath
      | inr e =>
          let@ _ := removeDBFiles buildPath in
          let@ _ := attempt (remove hddNew) in
          fail (Wrap "copy rebuilt month to archive fs" e)
      end
  | inr e =>
      let@ _ := removeDBFiles buildPath in
      fail e
  end.

Definition MergeSubjectDBsScratch (srcPath dstPath scratchDir : string) : M unit :=
  scratchRebuildArchive dstPath scratchDir "merge" (fun buildPath =>
    let@ _ := buildMergedSubjectDB dstPath srcPath buildPath in
    let@ _ := attempt (BuildQueryIndexes buildPath) in
    ret tt).

End Scratch.

(** *** SubjectDBPool *)

Record SubjectDBPool := mkPool {
  pool_dbs : gset string;      (* the months with an open database *)
  activeDir : string }.

Definition NewSubjectDBPool (dir : string) : SubjectDBPool := mkPool ∅ dir.

Definition month_path (dir month : string) : string := Join (Join dir month) "subjects.db".

Definition GetOrOpen (p : SubjectDBPool) (month : string) : M SubjectDBPool :=
  if bool_decide (month ∈ pool_dbs p) then ret p else
  let@ _ := wrapM ("pool mkdir " +:+ Join (activeDir p) month) nop in
  let@ _ := OpenSubjectDB (month_path (activeDir p) month) in
  ret (mkPool ({[month]} ∪ pool_dbs p) (activeDir p)).

(** [byMonth]: the months in the order of the map's iteration. *)
Definition group_month (subjects : list Subject) (month : string) : list Subject :=
  filter (fun s => certMonth (NotBefore s) = month) subjects.

(** The pool keeps the months it opened also when an insert fails. *)
Fixpoint insert_months (p : SubjectDBPool) (subjects : list Subject) (months : list string)
  : M (SubjectDBPool * res unit) :=
  match months with
  | [] => ret (p, Ok tt)
  | m :: months =>
      let@ r := attempt (GetOrOpen p m) in
      match r with
      | inr e => ret (p, Err e)
      | inl p =>
          let@ r := attempt (InsertSubjectBatch (month_path (activeDir p) m) (group_month subjects m)) in
          match r with
          | inr e => ret (p, Err e)
          | inl _ => insert_months p subjects months
          end
      end
  end.

Definition InsertBatch (map_order : gset string -> list string) (p : SubjectDBPool) (subjects : list Subject)
  : M (SubjectDBPool * res unit) :=
  insert_months p subjects (map_order (list_to_set (map (fun s => certMonth (NotBefore s)) subjects))).

Definition CloseAll (p : SubjectDBPool) : SubjectDBPool := mkPool ∅ (activeDir p).

(** ** Lemmas *)

Lemma month_path_inj dir m m' : month_path dir m = month_path dir m' -> m = m'.
Proof. unfold month_path, Join. rewrite <- !str_app_assoc. by intros H%str_app_inj_r%str_app_inj_r%str_app_inj_l. Qed.

Lemma subject_row_ok s : row_ok (subject_row s).
Proof. unfold row_ok, subject_row, tile_key. cbn. destruct (bool_decide (CertHash s = [])); auto. Qed.

Lemma subject_rows_ok l : Forall row_ok (map subject_row l).
Proof. apply Forall_fmap, Forall_forall. intros s _. apply subject_row_ok. Qed.

Section OnePath.

Context (path : string) (s0 : store).

(** Only the database at [path] has changed since [s0]: it is well-formed and
    has every row it had. *)
Record db_grown (s : store) : Prop := {
  dg_other : forall q, q <> path -> dbs s !! q = dbs s0 !! q;
  dg_seens : seens s = seens s0;
  dg_progs : progs s = progs s0;
  dg_issdbs : issdbs s = issdbs s0;
  dg_logged : logged s = logged s0;
  dg_good : forall d, dbs s !! path = Some (DB d) -> db_good d;
  dg_le : forall d0, dbs s0 !! path = Some (DB d0) -> exists d, dbs s !! path = Some (DB d) /\ db_le d0 d;
  dg_torn : dbs s0 !! path = Some Torn -> dbs s !! path = Some Torn }.

Hypothesis Hgood : forall d, dbs s0 !! path = Some (DB d) -> db_good d.

Lemma db_grown_refl : db_grown s0.
Proof. split; try done. intros d Hd. by exists d. Qed.

(** Writing a database that is well-formed and holds what was there. *)
Lemma db_grown_set s d d' :
  db_grown s -> (dbs s !! path = Some (DB d) \/ dbs s0 !! path = None) -> db_good d' -> db_le d d' ->
  db_grown (set_db path (DB d') s).
Proof.
  intros [H1 H2 H3 H4 H5 H6 H7 H8] Hd Hg Hle. split; try done.
  - intros q Hq. rewrite dbs_set, decide_False by done. by apply H1.
  - intros x. rewrite dbs_set, decide_True by done. by intros [= <-].
  - intros d0 Hd0. rewrite dbs_set, decide_True by done. exists d'. split; [done|].
    destruct (H7 d0 Hd0) as (d1 & Hd1 & Hle1). destruct Hd as [Hd|Hd]; [|congruence].
    etransitivity; [exact Hle1|]. by replace d1 with d by congruence.
  - intros Ht. destruct Hd as [Hd|Hd]; [|congruence]. specialize (H8 Ht). congruence.
Qed.

Lemma create_table_pres : pres db_grown (create_table path).
Proof.
  apply pres_step. intros s H. destruct (dbs s !! path) as [[d|]|] eqn:E; cbn; [done..|].
  assert (dbs s0 !! path = None) as E0.
  { destruct (dbs s0 !! path) as [[d|]|] eqn:E0; [|pose proof (dg_torn _ H E0); congruence|done].
    destruct (dg_le _ H d E0) as (d' & Hd' & _). congruence. }
  eapply (db_grown_set s (empty_db false false)); [done|by right|apply empty_good|done].
Qed.

Lemma update_grown (f : db -> res db) :
  (forall d d', db_good d -> f d = Ok d' -> db_good d' /\ db_le d d') -> pres db_grown (update path f).
Proof.
  intros Hf. apply pres_update. intros s d d' H Hd E. destruct (Hf d d' (dg_good _ H d Hd) E).
  eapply db_grown_set; eauto.
Qed.

Lemma tile_index_grown d d' : db_good d -> create_tile_index d = Ok d' -> db_good d' /\ db_le d d'.
Proof.
  intros [Hw Ho]. unfold create_tile_index. destruct (ix_tile d); [by intros [= <-]|].
  case_bool_decide as Hn; [|done]. intros [= <-]. split; [split; [|done]|by apply db_le_same].
  apply wf_flags; [done|apply Hw|done].
Qed.

Lemma hash_index_grown d d' : db_good d -> create_hash_index d = Ok d' -> db_good d' /\ db_le d d'.
Proof.
  intros [Hw Ho]. unfold create_hash_index. destruct (ix_hash d); [by intros [= <-]|].
  case_bool_decide as Hn; [|done]. intros [= <-]. split; [split; [|done]|by apply db_le_same].
  apply wf_flags; [done|done|apply Hw].
Qed.

Definition is_db (s : store) : Prop := exists d, dbs s !! path = Some (DB d).

Lemma create_table_db s :
  wp (create_table path) (fun r s' => r = Ok tt -> is_db s') s.
Proof.
  apply wp_step; [done..|]. destruct (dbs s !! path) as [[d|]|] eqn:E; cbn; intros H; [by exists d|done|].
  exists (empty_db false false). apply lookup_insert_eq.
Qed.

Lemma update_keeps_db (f : db -> res db) : pres is_db (update path f).
Proof. apply pres_update. intros s d d' _ _ _. exists d'. rewrite dbs_set. by rewrite decide_True. Qed.

Lemma open_grown : pres db_grown (OpenSubjectDB path).
Proof.
  unfold OpenSubjectDB. pose proof create_table_pres. pose proof (update_grown _ tile_index_grown).
  pose proof (update_grown _ hash_index_grown). auto 10 with pres.
Qed.

Lemma open_db s : wp (OpenSubjectDB path) (fun r s' => r = Ok tt -> is_db s') s.
Proof.
  unfold OpenSubjectDB. apply wp_bind, wp_wrap, wp_bind. eapply wp_mono; [apply create_table_db|].
  intros [[]|e|] s1 H1; [|done..]. specialize (H1 eq_refl).
  assert (Hk : pres is_db (let@ _ := attempt (update path create_tile_index) in
                           let@ _ := attempt (update path create_hash_index) in ret tt)).
  { pose proof (update_keeps_db create_tile_index). pose proof (update_keeps_db create_hash_index). auto with pres. }
  eapply wp_mono; [by apply update_keeps_db|]. intros [[]|e|] s2 H2; cbn [wrap_err]; [|done..].
  eapply wp_mono; [by apply Hk|]. done.
Qed.

Lemma exec_inserts_wp d subjects (Q : res db -> store -> Prop) s :
  (forall r, is_ok r = false -> Q r s) -> Q (Ok (insert_all d (map subject_row subjects))) s ->
  wp (exec_inserts d subjects) Q s.
Proof.
  revert d. induction subjects as [|x subjects IH]; intros d Hbad Hok; cbn [exec_inserts]; [by apply wp_ret|].
  apply wp_bind, wp_wrap, wp_nop; [by apply Hbad..|]. by apply IH.
Qed.

(** A batch is inserted whole or, with an error, not at all. *)
Lemma insert_batch_wp subjects d :
  dbs s0 !! path = Some (DB d) ->
  wp (InsertSubjectBatch path subjects)
     (fun r s' => r = Ok tt /\ s' = set_db path (DB (insert_all d (map subject_row subjects))) s0 \/
                  is_ok r = false /\ s' = s0) s0.
Proof.
  intros Hd. destruct subjects as [|x xs]; unfold InsertSubjectBatch.
  { apply wp_ret. left. split; [done|]. destruct s0 as [d0 ? ? ? ?]. unfold set_db. cbn in *. by rewrite insert_id. }
  apply wp_bind, wp_wrap. apply (wp_query _ _ _ _ _ Hd); [by right..|]. cbn [wrap_err].
  apply wp_bind, wp_wrap, wp_nop; [by right..|]. cbn [wrap_err].
  apply wp_bind, exec_inserts_wp; [intros [?|?|] Hr; try done; by right|].
  apply (wp_update _ _ _ _ d Hd); [by right..|]. by left.
Qed.

Lemma insert_batch_grown subjects :
  (exists d, dbs s0 !! path = Some (DB d)) ->
  wp (InsertSubjectBatch path subjects)
     (fun r s' => db_grown s' /\ is_db s' /\
        (r = Ok tt -> exists d, dbs s' !! path = Some (DB d) /\ forall x, x ∈ subjects -> held d (subject_row x))) s0.
Proof.
  intros [d Hd]. eapply wp_mono; [by apply insert_batch_wp|].
  intros r s' [[-> ->]|[Hr ->]].
  - assert (Hset : dbs (set_db path (DB (insert_all d (map subject_row subjects))) s0) !! path =
      Some (DB (insert_all d (map subject_row subjects)))) by (rewrite dbs_set; by rewrite decide_True).
    split; [|split; [by eexists|]].
    + apply (db_grown_set s0 d); [apply db_grown_refl|by left| |apply insert_all_le].
      apply insert_all_good; [by apply Hgood|apply subject_rows_ok].
    + intros _. eexists. split; [done|]. intros x Hx. apply insert_all_held; [apply subject_rows_ok|].
      by apply list_elem_of_fmap_2.
  - split; [apply db_grown_refl|]. split; [by exists d|]. by intros ->.
Qed.

End OnePath.
