(* ===== verification/Dedup.v ===== *)
(** internal/db/dedup.go and the pool's FlushAll: appending the active month to
    the archive behind the SSD dedup set, migrating a month to the append-only
    heap, and sealing it. *)

From S2P Require Import Prelude GoStd FileSys Sql SubjectDB.

#[local] Open Scope sql_scope.

(** ** Definitions *)

(** *** DedupStore *)

Definition OpenDedupStore (path : string) : M unit :=
  let@ _ := wrapM "mkdir dedup dir" nop in
  wrapM "create seen table" (step (fun s => (Ok tt, set_seen_at path (default ∅ (seens s !! path)) s))).

Definition seen_of (path : string) (s : store) : gset bytes := default ∅ (seens s !! path).

Definition Count (path : string) : M Z := step (fun s => (Ok (Z.of_nat (size (seen_of path s))), s)).

Section Dedup.

(** The raw page scan of an archive file (RawScan.v), as a function of the table:
    the hashes of the rows it reads. *)
Variable scanArchiveCertHashes : db -> res (list bytes).
(** Rows per seeding transaction and per append transaction. *)
Variable batchSize appendBatchRows : Z.
Variable pid : Z.

(** One seeding transaction. *)
Fixpoint seed_execs (batch : list bytes) : M unit :=
  match batch with
  | [] => ret tt
  | _ :: batch => let@ _ := nop in seed_execs batch
  end.

Definition seed_flush (path : string) (batch : list bytes) : M unit :=
  match batch with
  | [] => ret tt
  | _ :: _ =>
      let@ _ := nop in
      let@ _ := nop in
      let@ _ := seed_execs batch in
      step (fun s => (Ok tt, set_seen_at path (list_to_set batch ∪ seen_of path s) s))
  end.

(** The scan's callback: flush every [batchSize] hashes until a flush fails. *)
Fixpoint seed_loop (path : string) (hs batch : list bytes) (flushErr : option error)
  : M (list bytes * option error) :=
  match hs with
  | [] => ret (batch, flushErr)
  | h :: hs =>
      let batch := batch ++ [h] in
      match flushErr with
      | None =>
          if (batchSize <=? Z.of_nat (length batch)) then
            let@ r := attempt (seed_flush path batch) in
            match r with
            | inl _ => seed_loop path hs [] None
            | inr e => seed_loop path hs batch (Some e)
            end
          else seed_loop path hs batch None
      | Some e => seed_loop path hs batch (Some e)
      end
  end.

Definition PopulateFromArchive (path archivePath : string) : M Z :=
  let@ st := attempt (stat archivePath) in
  match st with
  | inr _ => Count path
  | inl _ =>
      let@ hs := wrapM "raw-scan archive for dedup seed"
        (step (fun s => (match read_db archivePath s with
                         | Ok d => scanArchiveCertHashes d | Err e => Err e | Panic => Panic end, s))) in
      let@ (batch, flushErr) := seed_loop path hs [] None in
      match flushErr with
      | Some e => fail (Wrap "seed dedup from archive" e)
      | None =>
          let@ _ := wrapM "seed dedup from archive" (seed_flush path batch) in
          Count path
      end
  end.

(** The final checkpoint is best effort. *)
Definition CloseDedup : M unit := let@ _ := attempt nop in nop.

Definition dedupPathFor (dedupDir month : string) : string := Join dedupDir (month +:+ ".db").

(** *** The append *)

(** [a.cert_hash IS NULL OR NOT EXISTS (SELECT 1 FROM dd.seen …)] *)
Definition is_new (seen : gset bytes) (r : row) : bool :=
  match cert_hash r with None => true | Some h => bool_decide (h ∉ seen) end.

Definition batch_rows (d : db) (seen : gset bytes) (start end_ : Z) : list row :=
  map snd (filter (fun p => start <= p.1 <= end_ /\ is_new seen p.2 = true) (rows d)).

(** MIN(rowid), MAX(rowid) of a table in rowid order. *)
Definition rowid_range (d : db) : option (Z * Z) :=
  match head (rows d), last (rows d) with
  | Some a, Some b => Some (a.1, b.1)
  | _, _ => None
  end.

Fixpoint append_loop (fuel : nat) (archivePath : string) (src : db) (seen : gset bytes) (start hi : Z) : M unit :=
  match fuel with
  | O => fail (Errorf "out of fuel")
  | S fuel =>
      if (start <=? hi) then
        let end_ := start + appendBatchRows - 1 in
        let msg := (" append batch [" +:+ dec start +:+ "," +:+ dec end_ +:+ "]")%string in
        let@ _ := wrapM ("begin" +:+ msg) nop in
        let@ r := attempt (query archivePath (fun d => insert_all d (batch_rows src seen start end_))) in
        match r with
        | inr e => let@ _ := attempt nop in fail (Wrap ("deduped" +:+ msg) e)
        | inl d' =>
            let@ _ := wrapM ("commit" +:+ msg) (update archivePath (fun _ => Ok d')) in
            append_loop fuel archivePath src seen (start + appendBatchRows) hi
        end
      else ret tt
  end.

Definition appendDedupedNewRows (activePath archivePath dedupPath : string) : M unit :=
  let@ _ := wrapM "pin archive conn" nop in
  let@ _ := wrapM "archive pragma" (let@ _ := nop in let@ _ := nop in nop) in
  let@ _ := wrapM "attach active" nop in
  let@ _ := wrapM "attach dedup" nop in
  let@ seen := step (fun s => (Ok (seen_of dedupPath s), s)) in
  let@ hasNew := wrapM "probe for new rows" (query activePath (fun d => existsb (is_new seen) (all_rows d))) in
  if negb hasNew then ret tt else
  let@ range := wrapM "scan src rowid range" (query activePath rowid_range) in
  match range with
  | None => ret tt
  | Some (lo, hi) =>
      let@ _ := wrapM "drop index" (exec_each archivePath ("idx_subjects_cert_hash" :: queryIndexNames) drop_index) in
      let@ src := query activePath id in
      append_loop (Z.to_nat ((hi - lo) / appendBatchRows) + 2) archivePath src seen lo hi
  end.

(** *** Migration to the append-only heap *)

(** On a path without a file SQLite makes an empty one and reports that the table is
    missing; the model reports it and leaves no file. FlushAll comes here only when
    os.Stat found the archive, or failed otherwise than by its absence. *)
Definition hasCertHashIndex (archivePath : string) : M bool :=
  wrapM "query archive indexes" (query archivePath ix_hash).

Definition migrateMonthToAppendOnly (archivePath scratchDir : string) : M unit :=
  scratchRebuildArchive pid archivePath scratchDir "migrate" (fun buildPath => buildIndexFreeHeap archivePath buildPath).

Definition MigrateArchiveMonth (archivePath scratchDir : string) : M bool :=
  let@ has := hasCertHashIndex archivePath in
  if negb has then ret false else
  let@ _ := migrateMonthToAppendOnly archivePath scratchDir in
  ret true.

(** *** The deduped flush *)

Definition FlushMonthDeduped (activePath archivePath dedupPath scratchDir : string) : M unit :=
  let@ _ := OpenDedupStore dedupPath in
  let@ n := Count dedupPath in
  let@ _ := (if (n =? 0) then let@ _ := PopulateFromArchive dedupPath archivePath in ret tt else ret tt) in
  let@ _ := CloseDedup in
  let@ hasIdx := hasCertHashIndex archivePath in
  let@ _ := (if (hasIdx : bool)
             then wrapM ("migrate " +:+ archivePath +:+ " to append-only")
                    (migrateMonthToAppendOnly archivePath scratchDir)
             else ret tt) in
  let@ _ := appendDedupedNewRows activePath archivePath dedupPath in
  let@ _ := OpenDedupStore dedupPath in
  let@ _ := wrapM "attach active for seen record" nop in
  wrapM "record seen"
    (step (fun s => match read_db activePath s with
                    | Ok d => (Ok tt, set_seen_at dedupPath (list_to_set (hashes d) ∪ seen_of dedupPath s) s)
                    | Err e => (Err e, s)
                    | Panic => (Panic, s)
                    end)).

(** *** Sealing *)

(** DELETE the rows that have a lower-rowid twin. *)
Definition has_twin (l : list (Z * row)) (p : Z * row) : bool :=
  match cert_hash p.2 with
  | None => false
  | Some h => existsb (fun q => bool_decide (cert_hash q.2 = Some h) && (q.1 <? p.1)) l
  end.

Definition compact_rows (l : list (Z * row)) : list (Z * row) := filter (fun p => has_twin l p = false) l.

Definition compact (d : db) : db := mkDb (compact_rows (rows d)) (seq d) (ix_tile d) (ix_hash d) (ix_query d).

Definition rebuildUniqueCertHash (path : string) : M unit :=
  let@ r := attempt (update path create_hash_index) in
  match r with
  | inl _ => ret tt
  | inr (Errorf msg) =>
      if negb (String.eqb msg "UNIQUE constraint failed") then fail (Wrap "build cert_hash index" (Errorf msg)) else
      let@ _ := wrapM "build temp index for cert_hash compaction" nop in
      let@ _ := wrapM "compact duplicate cert_hash rows" (update path (fun d => Ok (compact d))) in
      let@ _ := wrapM "drop temp cert_hash index" nop in
      wrapM "rebuild cert_hash index after compaction" (update path create_hash_index)
  | inr e => fail (Wrap "build cert_hash index" e)
  end.

(** [emptySrc]: the path of the fresh empty source database. *)
Definition SealMonth (emptySrc archivePath scratchDir : string) : M unit :=
  let@ _ := wrapM ("seal " +:+ archivePath) (stat archivePath) in
  if negb (String.eqb scratchDir "") then
    let@ _ := wrapM "seal scratch src dir" nop in
    let@ _ := wrapM "seal empty src" (OpenSubjectDB emptySrc) in
    let@ _ := attempt nop in
    let@ r := attempt (MergeSubjectDBsScratch pid emptySrc archivePath scratchDir) in
    let@ _ := attempt (remove emptySrc) in
    match r with inl _ => ret tt | inr e => fail e end
  else
    let@ _ := wrapM "pin archive conn" nop in
    let@ _ := nop in
    let@ _ := rebuildUniqueCertHash archivePath in
    wrapM "seal build query index" (exec_each archivePath queryIndexNames create_query_index).

(** *** FlushAll *)

(** One open month: close it, put its rows into the archive, and remove the
    active copy when that succeeded. *)
Definition flush_files (activePath archivePath dedupPath scratchDir : string) : M unit :=
  let@ _ := nop in
  let@ _ := nop in
  let@ st := attempt (stat archivePath) in
  let@ _ := match st with
            | inr ErrNotExist =>
                let@ _ := attempt (BuildQueryIndexes activePath) in
                let@ _ := copySubjectDB activePath archivePath in
                let@ r := attempt (OpenDedupStore dedupPath) in
                match r with
                | inr _ => ret tt
                | inl _ =>
                    let@ _ := attempt (PopulateFromArchive dedupPath archivePath) in
                    let@ _ := attempt CloseDedup in
                    ret tt
                end
            | _ => FlushMonthDeduped activePath archivePath dedupPath scratchDir
            end in
  let@ _ := attempt (remove activePath) in
  ret tt.

Definition flush_month (p : SubjectDBPool) (archiveRoot dedupDir month : string) : M unit :=
  flush_files (month_path (activeDir p) month) (month_path archiveRoot month)
    (dedupPathFor dedupDir month) (activeDir p).

(** Every month is attempted; the first error is kept. *)
Fixpoint flush_months (p : SubjectDBPool) (archiveRoot dedupDir : string) (months : list string)
    (firstErr : option error) : M (option error) :=
  match months with
  | [] => ret firstErr
  | m :: months =>
      let@ r := attempt (flush_month p archiveRoot dedupDir m) in
      flush_months p archiveRoot dedupDir months
        (match r, firstErr with inr e, None => Some e | _, _ => firstErr end)
  end.

(** Returns the emptied pool. *)
Definition FlushAll (map_order : gset string -> list string) (p : SubjectDBPool) (archiveRoot : string)
  : M (SubjectDBPool * option error) :=
  let dedupDir := Join (Dir (activeDir p)) "dedup" in
  let@ firstErr := flush_months p archiveRoot dedupDir (map_order (pool_dbs p)) None in
  ret (mkPool ∅ (activeDir p), firstErr).

End Dedup.

(** ** Lemmas *)

(** The paths of subjects databases end in ".db"; scratch files end in a pid. *)
Definition db_file (p : string) : Prop := exists q, p = (q +:+ ".db")%string.

Lemma month_path_db dir m : db_file (month_path dir m).
Proof. exists (Join dir m +:+ "/subjects")%string. unfold month_path, Join. rewrite !str_app_assoc. reflexivity. Qed.

Fixpoint last_char (s : string) : option ascii :=
  match s with
  | "" => None
  | String c "" => Some c
  | String _ s' => last_char s'
  end.

Lemma last_char_app a b : b <> "" -> last_char (a +:+ b) = last_char b.
Proof.
  intros Hb. induction a as [|c a IH]; [done|]. cbn [String.append last_char]. rewrite IH.
  by destruct a, b.
Qed.

Lemma last_char_forall f s c : str_forallb f s = true -> last_char s = Some c -> f c = true.
Proof.
  induction s as [|x s IH]; [done|]. cbn [str_forallb last_char]. intros [Hx Hs]%andb_true_iff.
  destruct s; [by intros [= ->]|by apply IH].
Qed.

Lemma not_db_file_dec x n : 0 <= n -> ~ db_file (x +:+ dec n).
Proof.
  intros Hn [q Hq]. assert (dec n <> "") as Hne 
    by (intros E; pose proof (dec_val_dec n Hn) as H; rewrite E in H; cbn in H; by subst n).
  assert (last_char (x +:+ dec n) = last_char (q +:+ ".db")) as E by congruence.
  rewrite !last_char_app in E by done. cbn in E.
  pose proof (last_char_forall _ _ _ (dec_digits n Hn) E) as H. by vm_compute in H.
Qed.

(** *** Rebuilding the month elsewhere *)

(** What a rebuild of an archive month needs of the invariant of its caller: the
    month is [d], it may be replaced by one that holds as much, and files that
    are not subjects databases may come and go. *)
Class MonthInv (archive : string) (Inv : db -> store -> Prop) := {
  mi_db d s : Inv d s -> dbs s !! archive = Some (DB d);
  mi_set d d' s : Inv d s -> db_le d d' -> Inv d' (set_db archive (DB d') s);
  mi_other d s q f : ~ db_file q -> Inv d s -> Inv d (set_db q f s) /\ Inv d (del_db q s) }.

Section Rebuild.

Context (pid : Z) (archive : string) (Inv : db -> store -> Prop) `{!MonthInv archive Inv}.
Hypothesis Hdb : db_file archive.
Hypothesis Hpid : 0 <= pid.

Lemma inv_db d s : Inv d s -> dbs s !! archive = Some (DB d).
Proof. apply mi_db. Qed.

Lemma inv_set d d' s : Inv d s -> db_le d d' -> Inv d' (set_db archive (DB d') s).
Proof. apply mi_set. Qed.

Lemma inv_other d s q f : ~ db_file q -> Inv d s -> Inv d (set_db q f s) /\ Inv d (del_db q s).
Proof. apply mi_other. Qed.

Definition at_build (d : db) (bp : string) (dn : db) (s : store) : Prop :=
  Inv d s /\ dbs s !! bp = Some (DB dn).

Lemma create_schema_wp d bp hash s :
  ~ db_file bp -> Inv d s ->
  wp (create_schema bp hash) (fun r s' => Inv d s' /\
     (r = Ok tt -> dbs s' !! bp = Some (DB (empty_db true hash)))) s.
Proof.
  intros Hbp Hs. apply wp_step; [by split..|]. destruct (dbs s !! bp); [by split|]. cbn [fst snd].
  split; [by apply inv_other|]. intros _. rewrite dbs_set. by case_decide.
Qed.

(** Copying a subjects database into the build file. *)
Lemma insert_select_wp d bp dn p dp s :
  ~ db_file bp -> db_file p -> at_build d bp dn s -> dbs s !! p = Some (DB dp) ->
  wp (insert_select bp p) (fun r s' => Inv d s' /\
     (r = Ok tt -> at_build d bp (insert_all dn (all_rows dp)) s' /\
        forall q, db_file q -> dbs s' !! q = dbs s !! q)) s.
Proof.
  intros Hbp Hp [Hs Hb] Hdp. assert (bp <> p) by (by intros ->).
  apply wp_step_or; [by split; [apply inv_other|]..|].
  unfold read_db. rewrite Hdp, Hb. cbn [fst snd]. split; [by apply inv_other|]. intros _.
  split; [split; [by apply inv_other|]|].
  - rewrite dbs_set. by case_decide.
  - intros q Hq. rewrite dbs_set. case_decide; [by subst|done].
Qed.

Lemma heap_wp d bp s :
  ~ db_file bp -> db_good d -> Inv d s ->
  wp (buildIndexFreeHeap archive bp) (fun r s' => Inv d s' /\
     (r = Ok tt -> exists dn, at_build d bp dn s' /\ db_le d dn /\ db_good dn /\ ix_hash dn = false)) s.
Proof.
  intros Hbp [Hw Hok] Hs. unfold buildIndexFreeHeap.
  apply wp_bind, wp_nop; [by split..|].
  apply wp_bind, wp_wrap. eapply wp_mono; [by apply create_schema_wp|].
  intros [[]|e|] s1 [H1 E1]; cbn [wrap_err]; [|by split..]. specialize (E1 eq_refl).
  apply wp_bind, wp_wrap, wp_nop; [by split..|]. cbn [wrap_err].
  apply wp_bind, wp_wrap. eapply wp_mono.
  { apply (insert_select_wp d bp (empty_db true false) archive d); [done|done|by split|by apply inv_db]. }
  intros [[]|e|] s2 [H2 E2]; cbn [wrap_err]; [|by split..]. destruct (E2 eq_refl) as [E3 _].
  apply wp_nop; [by split..|]. split; [done|]. intros _. eexists. split; [exact E3|].
  split; [by apply copy_le|]. split; [apply insert_all_good; [apply empty_good|done]|].
  by destruct (insert_flags (empty_db true false) (all_rows d)) as (_ & -> & _).
Qed.

Lemma remove_files_pres d bp : ~ db_file bp -> pres (Inv d) (removeDBFiles bp).
Proof.
  intros Hbp. unfold removeDBFiles. apply pres_bind; [|auto with pres].
  apply pres_attempt, pres_remove. intros s Hs. by apply (inv_other d s bp Torn).
Qed.

(** [copySubjectDB] into a scratch file. *)
Lemma copy_wp d bp dn new s :
  ~ db_file new -> at_build d bp dn s ->
  wp (copySubjectDB bp new) (fun r s' => Inv d s' /\ (r = Ok tt -> dbs s' !! new = Some (DB dn))) s.
Proof.
  intros Hnew [Hs Hb]. unfold copySubjectDB.
  apply wp_bind, wp_step; [by split..|]. rewrite Hb. cbn [fst snd].
  apply wp_bind, wp_step_or; [by split..|]. cbn [fst snd].
  assert (Ht : Inv d (set_db new Torn s)) by (by apply inv_other).
  apply wp_bind, wp_attempt, wp_step; [|by split|].
  - apply (wp_bind_pres (Inv d)); [|done|by split|].
    + apply pres_attempt, pres_remove. intros s1 H1. by apply (inv_other d s1 new Torn).
    + intros a s1 H1. by apply wp_fail.
  - cbn [fst snd]. assert (Inv d (set_db new (DB dn) (set_db new Torn s))) by (by apply inv_other).
    apply wp_nop; [by split..|]. split; [done|]. intros _. rewrite dbs_set. by case_decide.
Qed.

Lemma rename_wp d dn new s :
  ~ db_file new -> Inv d s -> (dbs s !! new = Some (DB dn) \/ dbs s !! new = None) -> db_le d dn ->
  wp (rename new archive) (fun r s' => Inv d s' /\ r <> Ok tt \/ Inv dn s') s.
Proof.
  intros Hnew Hs Hn Hle. apply wp_step; [by left..|].
  destruct Hn as [-> | ->]; cbn [fst snd]; [right|by left].
  apply (inv_set d); [|done]. by apply (inv_other d s new Torn).
Qed.

Lemma scratch_wp d (P : db -> Prop) scratchDir tag build s :
  (forall dn, P dn -> db_le d dn) ->
  (forall bp s1, ~ db_file bp -> Inv d s1 ->
     wp (build bp) (fun r s' => Inv d s' /\
       (r = Ok tt -> exists dn, at_build d bp dn s' /\ P dn)) s1) ->
  Inv d s ->
  wp (scratchRebuildArchive pid archive scratchDir tag build)
     (fun r s' => Inv d s' /\ r <> Ok tt \/ exists dn, Inv dn s' /\ P dn) s.
Proof.
  intros HP Hbuild Hs. unfold scratchRebuildArchive. set (hdd := (archive +:+ ".new." +:+ dec pid)%string).
  assert (Hh : ~ db_file hdd) by (unfold hdd; rewrite <- str_app_assoc; by apply not_db_file_dec).
  apply wp_bind. apply wp_mono with (Q := fun r s' => Inv d s' /\
    match r with Ok (bp, _) => ~ db_file bp | _ => True end).
  { destruct (String.eqb scratchDir ""); [by apply wp_ret|]. apply wp_bind, wp_attempt, wp_nop.
    - by apply wp_ret.
    - done.
    - apply wp_ret. split; [done|]. unfold Join. rewrite <- !str_app_assoc. by apply not_db_file_dec. }
  clear dependent s. intros [[bp cross]|e|] s [Hs Hbp]; [|by left..].
  apply wp_bind. eapply wp_mono; [by apply remove_files_pres|]. clear dependent s. intros [[]|e|] s Hs; [|by left..].
  apply wp_bind, wp_attempt. eapply wp_mono; [by apply Hbuild|]. clear dependent s.
  intros [[]|e|] s [Hs Hb]; [|..].
  - destruct (Hb eq_refl) as (dn & Hab & Hg). destruct cross; cbn [negb].
    + apply wp_bind, wp_attempt. eapply wp_mono; [by apply (copy_wp d bp dn hdd)|].
      intros [[]|e|] s1 [H1 Hc]; [specialize (Hc eq_refl)| |by left].
      * apply wp_bind. eapply wp_mono.
        { apply (pres_bind (fun s' => Inv d s' /\ (dbs s' !! hdd = Some (DB dn) \/ dbs s' !! hdd = None))); [|auto with pres|by auto].
          apply pres_attempt, pres_remove. intros s2 [H2 E2]. split; [by apply (inv_other d s2 bp Torn)|].
          rewrite dbs_del. case_decide; auto. }
        intros [[]|e|] s2 [H2 E2]; [|by left..].
        eapply wp_mono; [apply (rename_wp d dn hdd); auto|]. intros r s3 [?|?]; [by left|right; by exists dn].
      * apply (wp_bind_pres (Inv d)); [by apply remove_files_pres|done|by split; left|]. intros _ s2 H2.
        apply (wp_bind_pres (Inv d)); [|done|by split; left|].
        -- apply pres_attempt, pres_remove. intros s3 H3. by apply (inv_other d s3 hdd Torn).
        -- intros _ s3 H3. apply wp_fail. by left.
    + eapply wp_mono; [apply (rename_wp d dn bp); [done|done|left; apply Hab|auto]|].
      intros r s3 [?|?]; [by left|right; by exists dn].
  - apply (wp_bind_pres (Inv d)); [by apply remove_files_pres|done|by split; left|]. intros _ s2 H2.
    apply wp_fail. by left.
  - by left.
Qed.

End Rebuild.

Section FlushSpec.

Context (scan : db -> res (list bytes)) (batchSize appendBatchRows pid : Z).
Context (active archive dedup : string).
Context (s0 : store) (d0 a0 : db).

(** The page scan reads hashes that are in the file. *)
Hypothesis Hscan : forall d hs, scan d = Ok hs -> forall h, h ∈ hs -> h ∈ hashes d.
Hypothesis Hdb : db_file active /\ db_file archive.
Hypothesis Hne : active <> archive.
Hypothesis Hpid : 0 <= pid.

(** Other months are not touched. *)
Definition frame (s : store) : Prop :=
  (forall q, db_file q -> q <> archive -> q <> active -> dbs s !! q = dbs s0 !! q) /\
  (forall q, q <> dedup -> seens s !! q = seens s0 !! q).

Definition active_kept (s : store) : Prop := exists a, dbs s !! active = Some (DB a) /\ rows a = rows a0 /\ (db_good a0 -> db_good a).

(** The archive month is [d], and the dedup set only names hashes it holds. *)
Definition at_month (d : db) (s : store) : Prop :=
  frame s /\ active_kept s /\ dbs s !! archive = Some (DB d) /\
  (forall h, h ∈ seen_of dedup s -> h ∈ hashes d).

(** The archive month has grown from [d]. *)
Definition grown (d : db) (s : store) : Prop := exists d', db_le d d' /\ db_good d' /\ at_month d' s.
Definition month_inv (s : store) : Prop := grown d0 s.

Lemma at_month_seen d s x :
  at_month d s -> (forall h, h ∈ x -> h ∈ hashes d) -> at_month d (set_seen_at dedup x s).
Proof.
  intros ([F1 F2] & Ha & Hd & Hs) Hx. split_and!; [|done|done|].
  - split; [done|]. intros q Hq. cbn. rewrite lookup_insert_ne by done. by apply F2.
  - intros h. unfold seen_of. cbn. rewrite lookup_insert_eq. apply Hx.
Qed.

Lemma at_month_set d d' s : at_month d s -> db_le d d' -> at_month d' (set_db archive (DB d') s).
Proof.
  intros ([F1 F2] & (a & Ha & Hr) & Hd & Hs) Hle. split_and!; [|..].
  - split; [|done]. intros q Hq H1 H2. rewrite dbs_set. case_decide; [congruence|]. by apply F1.
  - exists a. rewrite dbs_set. case_decide; [congruence|]. done.
  - rewrite dbs_set. by case_decide.
  - intros h Hh. apply (db_le_hashes d); [done|]. by apply Hs.
Qed.

(** A file that is not a subjects database may come and go. *)
Lemma at_month_other d s q f : ~ db_file q -> at_month d s -> at_month d (set_db q f s) /\ at_month d (del_db q s).
Proof.
  intros Hq ([F1 F2] & (a & Ha & Hr) & Hd & Hs).
  assert (q <> active) by (intros ->; apply Hq, Hdb). assert (q <> archive) by (intros ->; apply Hq, Hdb).
  assert (Hk : forall s', (forall q', q' <> q -> dbs s' !! q' = dbs s !! q') -> seens s' = seens s -> at_month d s').
  { intros s' E1 E2. split_and!.
    - split; [|by rewrite E2]. intros q' Hq' H1 H2. rewrite E1; [by apply F1|by intros ->].
    - exists a. by rewrite E1.
    - by rewrite E1.
    - unfold seen_of. by rewrite E2. }
  split; apply Hk; try done; intros q' Hq'; rewrite ?dbs_set, ?dbs_del; by case_decide.
Qed.

#[export] Instance at_month_inv : MonthInv archive at_month.
Proof. split; [by intros d s (_ & _ & ? & _)|exact at_month_set|intros; by apply at_month_other]. Qed.

(** *** The dedup set *)

Lemma open_dedup_pres d : pres (at_month d) (OpenDedupStore dedup).
Proof.
  unfold OpenDedupStore. apply pres_bind; [auto with pres|intros _]. apply pres_wrap, pres_step.
  intros s H. apply at_month_seen; [done|]. apply H.
Qed.

Lemma count_pres d : pres (at_month d) (Count dedup).
Proof. by apply pres_step. Qed.

Lemma seed_flush_pres d batch : (forall h, h ∈ batch -> h ∈ hashes d) -> pres (at_month d) (seed_flush dedup batch).
Proof.
  intros Hb. destruct batch as [|h0 b]; [apply pres_ret|]. set (bs := h0 :: b) in *.
  unfold seed_flush. fold bs. apply pres_bind; [apply pres_nop|intros _]. apply pres_bind; [apply pres_nop|intros _].
  apply pres_bind.
  - clearbody bs. clear Hb. induction bs; [apply pres_ret|]. apply pres_bind; [apply pres_nop|done].
  - intros _. apply pres_step. intros s H. apply at_month_seen; [done|]. intros h.
    rewrite elem_of_union, elem_of_list_to_set. intros [?|?]; [by apply Hb|by apply H].
Qed.

Lemma seed_loop_wp d hs batch e s :
  (forall h, h ∈ hs -> h ∈ hashes d) -> (forall h, h ∈ batch -> h ∈ hashes d) -> at_month d s ->
  wp (seed_loop batchSize dedup hs batch e)
     (fun r s' => at_month d s' /\ match r with Ok (b, _) => forall h, h ∈ b -> h ∈ hashes d | _ => True end) s.
Proof.
  revert batch e s. induction hs as [|h hs IH]; intros batch e s Hhs Hb Hs.
  - apply wp_ret. done.
  - assert (Hb' : forall x, x ∈ batch ++ [h] -> x ∈ hashes d).
    { intros x [Hx| ->%list_elem_of_singleton]%elem_of_app; [by apply Hb|]. apply Hhs. by left. }
    assert (Hhs' : forall x, x ∈ hs -> x ∈ hashes d) by (intros x Hx; apply Hhs; by right).
    assert (Hn : forall x : bytes, x ∈ ([] : list bytes) -> x ∈ hashes d) by (by intros x ?%elem_of_nil).
    cbn [seed_loop]. destruct e; [by apply IH|]. case_match; [|by apply IH].
    apply (wp_bind_pres (at_month d)); [by apply pres_attempt, seed_flush_pres|done|done|].
    intros [u|e] s' H'; by apply IH.
Qed.

Lemma populate_pres d : pres (at_month d) (PopulateFromArchive scan batchSize dedup archive).
Proof.
  unfold PopulateFromArchive. apply pres_bind; [auto with pres|]. intros [u|e]; [|apply count_pres].
  intros s Hs. apply wp_bind, wp_wrap, wp_step; [done..|]. cbn [fst snd].
  assert (read_db archive s = Ok d) as -> by (unfold read_db; by destruct Hs as (_ & _ & -> & _)).
  destruct (scan d) as [hs|e|] eqn:Es; cbn [wrap_err]; [|done..].
  pose proof (Hscan d hs Es) as Hin. apply wp_bind.
  eapply wp_mono; [apply (seed_loop_wp d hs [] None); [done|by intros h ?%elem_of_nil|done]|].
  intros [[b fe]|e|] s' [H' Hb]; [|done..]. destruct fe; [by apply wp_fail|].
  refine (pres_bind _ _ _ (pres_wrap _ _ _ (seed_flush_pres d b Hb)) _ s' H'). intros _. apply count_pres.
Qed.

Lemma close_pres d : pres (at_month d) CloseDedup.
Proof. unfold CloseDedup. auto with pres. Qed.

(** *** The append *)

Lemma read_archive d s : at_month d s -> read_db archive s = Ok d.
Proof. intros (_ & _ & Hd & _). unfold read_db. by rewrite Hd. Qed.

Lemma month_inv_at d s : db_le d0 d -> db_good d -> at_month d s -> month_inv s.
Proof. intros. by exists d. Qed.

Lemma active_rows s a : active_kept s -> dbs s !! active = Some (DB a) -> rows a = rows a0.
Proof. intros (a' & Ha & Hr & _) H. congruence. Qed.

Lemma exec_each_drop d0' names : pres (grown d0') (exec_each archive names drop_index).
Proof.
  induction names as [|n names IH]; [apply pres_ret|]. apply pres_bind; [|done].
  apply pres_update. intros s d d' (d1 & Hle & Hg & Ha) Hd [= <-].
  assert (d1 = d) as -> by (destruct Ha as (_ & _ & Hd' & _); congruence).
  destruct (drop_index_spec n d) as (Hr & Hgd & _).
  assert (db_le d (drop_index n d)) by (by apply db_le_same).
  exists (drop_index n d). split; [by etransitivity|]. split; [by apply Hgd|]. by apply (at_month_set d).
Qed.

Lemma batch_rows_ok src seen st en : Forall row_ok (all_rows src) -> Forall row_ok (batch_rows src seen st en).
Proof.
  rewrite !Forall_forall. intros H r (p & -> & Hp)%list_elem_of_fmap. apply H, list_elem_of_fmap.
  exists p. split; [done|]. by apply list_elem_of_filter in Hp as [_ Hp].
Qed.

(** Every row up to the batch in turn has reached the archive. *)
Lemma append_loop_wp fuel src seen start hi d s :
  rows src = rows a0 -> Forall row_ok (all_rows a0) ->
  1 <= appendBatchRows ->
  (forall h, h ∈ seen -> h ∈ hashes d) -> db_le d0 d -> db_good d -> at_month d s ->
  (forall p, p ∈ rows a0 -> p.1 < start -> held d p.2) ->
  wp (append_loop appendBatchRows fuel archive src seen start hi)
     (fun r s' => month_inv s' /\
        (r = Ok tt -> exists d', db_le d0 d' /\ db_good d' /\ at_month d' s' /\
           forall p, p ∈ rows a0 -> p.1 <= hi -> held d' p.2)) s.
Proof.
  intros Hsrc Hok Hb. revert start d s. induction fuel as [|fuel IH]; intros start d s Hseen Hle Hg Ha Hdone.
  { apply wp_fail. split; [by apply (month_inv_at d)|done]. }
  assert (Hi : month_inv s) by (by apply (month_inv_at d)).
  cbn [append_loop]. destruct (Z.leb_spec start hi) as [Hsh|Hsh].
  2: { apply wp_ret. split; [done|]. intros _. exists d. split_and!; try done. intros p Hp Hph. apply Hdone; [done|lia]. }
  set (en := start + appendBatchRows - 1). set (d' := insert_all d (batch_rows src seen start en)).
  apply wp_bind, wp_wrap, wp_nop; [by split..|]. cbn [wrap_err].
  apply wp_bind, wp_attempt, (wp_query archive _ _ _ d); [by destruct Ha as (_ & _ & ? & _)|..].
  - apply (wp_bind_pres month_inv); [auto with pres|done|done|]. intros a s' H'. by apply wp_fail.
  - by split.
  - cbn. fold d'. assert (Hsok : Forall row_ok (batch_rows src seen start en)).
    { apply batch_rows_ok. unfold all_rows in *. by rewrite Hsrc. }
    assert (Hle' : db_le d d') by apply insert_all_le.
    apply wp_bind, wp_wrap, (wp_update archive _ _ _ d); [by destruct Ha as (_ & _ & ? & _)|by split..|].
    cbn [wrap_err]. apply (IH (start + appendBatchRows) d').
    + intros h Hh. apply (db_le_hashes d); [done|]. by apply Hseen.
    + by etransitivity.
    + by apply insert_all_good.
    + by apply (at_month_set d).
    + intros p Hp Hlt. destruct (decide (p.1 < start)) as [H|H]; [by apply Hle', Hdone|].
      destruct (is_new seen p.2) eqn:En.
      * apply insert_all_held; [done|]. apply list_elem_of_fmap. exists p. split; [done|].
        apply list_elem_of_filter. split; [|by rewrite Hsrc]. split; [unfold en; lia|done].
      * apply Hle'. unfold is_new in En. unfold held. destruct (cert_hash p.2) as [h|]; [|done].
        apply bool_decide_eq_false, dec_stable in En. by apply Hseen.
Qed.

Lemma append_wp s :
  Forall row_ok (all_rows a0) -> StronglySorted Z.lt ((rows a0).*1) -> 1 <= appendBatchRows -> month_inv s ->
  wp (appendDedupedNewRows appendBatchRows active archive dedup)
     (fun r s' => month_inv s' /\
        (r = Ok tt -> exists d', db_le d0 d' /\ db_good d' /\ at_month d' s' /\
           forall p, p ∈ rows a0 -> held d' p.2)) s.
Proof.
  intros Hok Hsort Hb Hs. unfold appendDedupedNewRows.
  do 4 (apply (wp_bind_pres month_inv); [by auto 10 with pres|done|by split|]; intros _ s1 Hs1; clear dependent s; rename s1 into s, Hs1 into Hs).
  destruct Hs as (d & Hle & Hg & Ha). assert (Hi : month_inv s) by (by apply (month_inv_at d)).
  apply wp_bind, wp_step; [by split..|]. cbn [fst snd]. set (seen := seen_of dedup s).
  assert (Hseen : forall h, h ∈ seen -> h ∈ hashes d) by apply Ha.
  pose proof Ha as (_ & (a & Hact & Hra & _) & _).
  apply wp_bind, wp_wrap, (wp_query active _ _ _ a); [done|by split..|]. cbn [wrap_err].
  destruct (existsb (is_new seen) (all_rows a)) eqn:En; cbn [negb].
  2: { apply wp_ret. split; [done|]. intros _. exists d. split_and!; try done.
       intros p Hp. rewrite <- Hra in Hp. destruct (is_new seen p.2) eqn:Ep.
       - assert (existsb (is_new seen) (all_rows a) = true); [|congruence].
         apply existsb_exists. exists p.2. split; [|done]. apply list_elem_of_In, list_elem_of_fmap. by exists p.
       - unfold is_new in Ep. unfold held. destruct (cert_hash p.2) as [h|]; [|done].
         apply bool_decide_eq_false, dec_stable in Ep. by apply Hseen. }
  apply wp_bind, wp_wrap, (wp_query active _ _ _ a); [done|by split..|]. cbn [wrap_err].
  unfold rowid_range. destruct (head (rows a)) as [p0|] eqn:Eh.
  2: { apply head_None in Eh. unfold all_rows in En. by rewrite Eh in En. }
  destruct (last (rows a)) as [pn|] eqn:El.
  2: { apply last_None in El. unfold all_rows in En. by rewrite El in En. }
  assert (Hbounds : forall p, p ∈ rows a0 -> p0.1 <= p.1 <= pn.1).
  { rewrite <- Hra in Hsort |- *. intros p Hp. apply (sorted_bounds ((rows a).*1)); [done| | |].
    - destruct (rows a) as [|x l]; [done|]. by injection Eh as ->.
    - by rewrite fmap_last, El.
    - apply list_elem_of_fmap. by exists p. }
  assert (Hup : forall s', grown d s' -> month_inv s').
  { intros s' (d' & Hle' & Hg' & Ha'). exists d'. split; [by etransitivity|done]. }
  apply (wp_bind_pres (grown d)); [apply pres_wrap, exec_each_drop|exists d; by split|
    intros s' Hs'; split; [intros e|]; (split; [by apply Hup|done])|].
  intros _ s' Hgr. pose proof (Hup s' Hgr) as Hi'. destruct Hgr as (d' & Hle' & Hg' & Ha').
  pose proof Ha' as (_ & (a' & Hact' & Hra' & _) & Hd' & _).
  apply wp_bind, (wp_query active _ _ _ a'); [done|by split..|].
  eapply wp_mono; [apply (append_loop_wp _ a' seen p0.1 pn.1 d'); try done|].
  - intros h Hh. apply (db_le_hashes d); [done|by apply Hseen].
  - by etransitivity.
  - intros p Hp Hlt. specialize (Hbounds p Hp). lia.
  - intros r s'' [H1 H2]. split; [done|]. intros Hr. destruct (H2 Hr) as (d'' & L & G & A & Hall).
    exists d''. split_and!; try done. intros p Hp. apply Hall; [done|]. by apply Hbounds.
Qed.

(** *** The whole flush of a month *)

Lemma held_rows_same d d' r : rows d = rows d' -> held d r -> held d' r.
Proof. intros E. by apply db_le_same. Qed.

Lemma hash_held d h (p : Z * row) : cert_hash p.2 = Some h -> held d p.2 -> h ∈ hashes d.
Proof. unfold held. by intros ->. Qed.

Lemma record_seen_wp d s :
  at_month d s -> (forall p, p ∈ rows a0 -> held d p.2) ->
  wp (let@ _ := OpenDedupStore dedup in
      let@ _ := wrapM "attach active for seen record" nop in
      wrapM "record seen"
        (step (fun s => match read_db active s with
                        | Ok d => (Ok tt, set_seen_at dedup (list_to_set (hashes d) ∪ seen_of dedup s) s)
                        | Err e => (Err e, s)
                        | Panic => (Panic, s)
                        end))) (fun _ s' => at_month d s') s.
Proof.
  intros Hs Hall. revert Hs. apply pres_bind; [apply open_dedup_pres|intros _].
  apply pres_bind; [auto with pres|intros _]. apply pres_wrap, pres_step.
  intros s1 H1. pose proof H1 as (_ & (a & Ha & Hra & _) & _). unfold read_db. rewrite Ha. cbn [fst snd].
  apply at_month_seen; [done|]. intros h [Hh|Hh]%elem_of_union; [|by apply H1].
  apply elem_of_list_to_set, list_elem_of_omap in Hh as (p & Hp & Hc).
  apply (hash_held d h p); [done|]. apply Hall. by rewrite <- Hra.
Qed.

(** The error and crash cases of a bind: the invariant, and nothing about success. *)
Ltac err_case := intros; split; [intros ?|]; (split; [by auto|done]).

Lemma flush_deduped_wp scratchDir s :
  db_good a0 -> db_good d0 -> 1 <= appendBatchRows -> at_month d0 s ->
  wp (FlushMonthDeduped scan batchSize appendBatchRows pid active archive dedup scratchDir)
     (fun r s' => month_inv s' /\
        (r = Ok tt -> exists d', db_le d0 d' /\ db_good d' /\ at_month d' s' /\
           forall p, p ∈ rows a0 -> held d' p.2)) s.
Proof.
  intros [Haw Hao] Hg Hb Hs. unfold FlushMonthDeduped.
  assert (Hup : forall d s', db_le d0 d -> db_good d -> at_month d s' -> month_inv s') by (intros; by eapply month_inv_at).
  assert (Hup0 : forall s', at_month d0 s' -> month_inv s') by (intros; by eapply month_inv_at).
  apply (wp_bind_pres (at_month d0)); [apply open_dedup_pres|done|err_case|]. intros _ s1 H1.
  apply (wp_bind_pres (at_month d0)); [apply count_pres|done|err_case|]. intros n s2 H2.
  apply (wp_bind_pres (at_month d0)); [|done|err_case|].
  { destruct (n =? 0); [|apply pres_ret]. apply pres_bind; [apply populate_pres|auto with pres]. }
  intros _ s3 H3. apply (wp_bind_pres (at_month d0)); [apply close_pres|done|err_case|]. intros _ s4 H4.
  apply (wp_bind_pres (at_month d0)); [unfold hasCertHashIndex; auto with pres|done|err_case|]. intros hasIdx s5 H5.
  apply wp_bind. apply wp_mono with (Q := fun r s' => month_inv s').
  { destruct hasIdx; [|apply wp_ret; by apply Hup0].
    apply wp_wrap. eapply wp_mono; [apply (scratch_wp pid archive at_month Hpid d0 (fun dn => db_le d0 dn /\ db_good dn /\ ix_hash dn = false))|].
    - by intros dn [? _].
    - intros bp s6 Hbp H6. by apply (heap_wp archive at_month (proj2 Hdb)).
    - done.
    - intros r s6 [[H6 _]|(dn & H6 & Hle & Hgn & _)]; [by apply Hup0|by apply (Hup dn)]. }
  intros [[]|e|] s6 H6; [|by split..].
  apply wp_bind. eapply wp_mono; [apply append_wp; [done|by destruct Haw|done|done]|].
  intros [[]|e|] s7 [H7 Hok]; [|by split..].
  destruct (Hok eq_refl) as (d & Hle & Hgd & Hat & Hall).
  eapply wp_mono; [by apply (record_seen_wp d)|]. intros r s8 H8.
  split; [by apply (Hup d)|]. intros _. by exists d.
Qed.

(** *** A month without an archive file *)

(** The copy is in progress, done, or cut short; the active rows are still there. *)
Definition fresh (s : store) : Prop :=
  frame s /\ active_kept s /\
  (forall h, h ∈ seen_of dedup s -> exists d, dbs s !! archive = Some (DB d) /\ h ∈ hashes d) /\
  (forall d, dbs s !! archive = Some (DB d) -> rows d = rows a0 /\ db_good d).

Definition no_archive (s : store) : Prop :=
  frame s /\ active_kept s /\ seen_of dedup s = ∅ /\ (dbs s !! archive = None \/ dbs s !! archive = Some Torn).

Lemma no_archive_fresh s : no_archive s -> fresh s.
Proof.
  intros (Hf & Ha & Hs & Hn). split_and!; [done|done| |].
  - intros h. rewrite Hs. set_solver.
  - intros d Hd. destruct Hn as [Hn|Hn]; congruence.
Qed.

Lemma frame_step s s' :
  (forall q, q <> archive -> q <> active -> dbs s' !! q = dbs s !! q) -> seens s' = seens s -> frame s -> frame s'.
Proof.
  intros Hd Hs [F1 F2]. split; [|by rewrite Hs]. intros q Hq H1 H2. rewrite Hd by done. by apply F1.
Qed.

Lemma frame_set p f s : p = archive \/ p = active -> frame s -> frame (set_db p f s).
Proof.
  intros Hp. apply frame_step; [|done]. intros q H1 H2. rewrite dbs_set. by case_decide; [destruct Hp; congruence|].
Qed.

Lemma frame_del p s : p = archive \/ p = active -> frame s -> frame (del_db p s).
Proof.
  intros Hp. apply frame_step; [|done]. intros q H1 H2. rewrite dbs_del. by case_decide; [destruct Hp; congruence|].
Qed.

Lemma active_kept_step s s' : dbs s' !! active = dbs s !! active -> active_kept s -> active_kept s'.
Proof. intros E (a & Ha & Hr). exists a. by rewrite E. Qed.

Lemma set_archive_active f s : dbs (set_db archive f s) !! active = dbs s !! active.
Proof. rewrite dbs_set. by case_decide. Qed.

Lemma del_archive_active s : dbs (del_db archive s) !! active = dbs s !! active.
Proof. rewrite dbs_del. by case_decide. Qed.

Lemma index_active_pres : pres no_archive (BuildQueryIndexes active).
Proof.
  unfold BuildQueryIndexes. apply pres_bind; [auto with pres|intros _]. apply pres_wrap.
  induction queryIndexNames as [|n names IH]; [apply pres_ret|]. apply pres_bind; [|done].
  apply pres_update. intros s d d' (Hf & (a & Ha & Hr & Hg) & Hs & Hn) Hd [= <-].
  assert (a = d) as -> by congruence. destruct (query_index_spec n d) as (E & G & _).
  split_and!; [apply frame_set; auto| |done|].
  - exists (create_query_index n d). rewrite dbs_set. case_decide; [|done]. rewrite E. auto.
  - rewrite dbs_set. case_decide; [congruence|done].
Qed.

(** After an error the archive holds no usable file; on success it is the copy. *)
Lemma copy_fresh_wp s :
  db_good a0 -> no_archive s ->
  wp (copySubjectDB active archive) (fun r s' => fresh s' /\
     (r = Ok tt -> exists d, dbs s' !! archive = Some (DB d) /\ at_month d s' /\ rows d = rows a0 /\ db_good d)) s.
Proof.
  intros Hg0 Hn. pose proof Hn as (Hf & (a & Ha & Hr & Hg) & Hs & Harch).
  assert (Hbad : forall s' (r : res unit), no_archive s' -> r <> Ok tt -> fresh s' /\
    (r = Ok tt -> exists d, dbs s' !! archive = Some (DB d) /\ at_month d s' /\ rows d = rows a0 /\ db_good d))
    by (intros s' r H' Hr'; split; [by apply no_archive_fresh|done]).
  assert (Hset : forall s', no_archive s' -> no_archive (set_db archive Torn s') /\ no_archive (del_db archive s')).
  { intros s' (Hf' & Ha' & Hs' & Hn'). split; split_and!; try done.
    - by apply frame_set; [left|].
    - eapply active_kept_step; [apply set_archive_active|done].
    - rewrite dbs_set. case_decide; auto.
    - by apply frame_del; [left|].
    - eapply active_kept_step; [apply del_archive_active|done].
    - rewrite dbs_del. case_decide; auto. }
  unfold copySubjectDB. apply wp_bind, wp_step; [by apply Hbad..|]. rewrite Ha. cbn [fst snd].
  apply wp_bind, wp_step_or; [by apply Hbad..|]. cbn [fst snd]. destruct (Hset s Hn) as [Ht _].
  apply wp_bind, wp_attempt, wp_step; [|by apply Hbad|].
  - apply (wp_bind_pres no_archive); [|done|intros; split; intros; by apply Hbad|].
    + apply pres_attempt, pres_remove. intros s1 H1. by apply Hset.
    + intros u s1 H1. apply wp_fail. by apply Hbad.
  - cbn [fst snd]. set (s1 := set_db archive (DB a) (set_db archive Torn s)).
    assert (Ha1 : dbs s1 !! archive = Some (DB a)) by (unfold s1; rewrite dbs_set; by case_decide).
    assert (Hat : at_month a s1).
    { split_and!; [|eapply active_kept_step; [apply set_archive_active|apply Ht]|done|].
      - apply frame_set; [by left|]. apply frame_set; [by left|done].
      - intros h Hh. unfold seen_of in Hh, Hs. cbn in Hh. rewrite Hs in Hh. set_solver. }
    assert (Hfr : fresh s1).
    { split_and!; try apply Hat; [|intros d Hd; assert (d = a) as -> by congruence; auto].
      intros h Hh. exists a. split; [done|by apply Hat]. }
    apply wp_nop; [by split..|]. split; [done|]. intros _. exists a. auto.
Qed.

Lemma missing_pres_read s : no_archive s -> exists e, read_db archive s = Err e.
Proof. intros (_ & _ & _ & [Hn|Hn]); unfold read_db; rewrite Hn; by eexists. Qed.

Lemma no_archive_seen s : no_archive s -> no_archive (set_seen_at dedup (seen_of dedup s) s).
Proof.
  intros ([F1 F2] & Ha & Hs & Hn). split_and!; try done.
  - split; [done|]. intros q Hq. cbn. rewrite lookup_insert_ne by done. by apply F2.
  - unfold seen_of at 1. cbn. by rewrite lookup_insert_eq.
Qed.

(** Without a readable archive file the deduped flush fails and changes nothing. *)
Lemma flush_missing_wp scratchDir s :
  no_archive s ->
  wp (FlushMonthDeduped scan batchSize appendBatchRows pid active archive dedup scratchDir)
     (fun r s' => no_archive s' /\ r <> Ok tt) s.
Proof.
  intros Hs. unfold FlushMonthDeduped.
  apply (wp_bind_pres no_archive); [|done|done|].
  { apply pres_bind; [auto with pres|intros _]. apply pres_wrap, pres_step. intros s1 H1. by apply no_archive_seen. }
  intros _ s1 H1. apply (wp_bind_pres no_archive); [by apply pres_step|done|done|].
  intros n s2 H2. apply (wp_bind_pres no_archive); [|done|done|].
  { destruct (n =? 0); [|apply pres_ret]. apply pres_bind; [|auto with pres]. unfold PopulateFromArchive.
    apply pres_bind; [auto with pres|]. intros [u|e]; [|by apply pres_step].
    intros s3 H3. destruct (missing_pres_read s3 H3) as [e Hr].
    apply wp_bind, wp_wrap, wp_step; [done..|]. by rewrite Hr. }
  intros _ s3 H3. apply (wp_bind_pres no_archive); [unfold CloseDedup; auto with pres|done|done|].
  intros _ s4 H4. destruct (missing_pres_read s4 H4) as [e Hr].
  apply wp_bind, wp_wrap, wp_step; [done..|]. by rewrite Hr.
Qed.

(** *** One month of FlushAll *)

(** The archive file, when readable, is well-formed, and the dedup set only
    names hashes that it holds. *)
Definition archive_sound (s : store) : Prop :=
  (forall d, dbs s !! archive = Some (DB d) -> db_good d) /\
  (forall h, h ∈ seen_of dedup s -> exists d, dbs s !! archive = Some (DB d) /\ h ∈ hashes d).

(** The archive month is a database. *)
Definition is_archived (s : store) : Prop := exists d, dbs s !! archive = Some (DB d).

Definition month_post (r : res unit) (s : store) : Prop :=
  frame s /\ archive_sound s /\ (forall a, dbs s !! active = Some (DB a) -> db_good a) /\
  (forall x, held_at s0 archive x -> held_at s archive x) /\
  (forall x, held_at s0 active x -> held_at s active x \/ held_at s archive x) /\
  (forall x, r = Ok tt -> held_at s0 active x -> held_at s archive x) /\
  (r = Ok tt \/ is_archived s0 -> is_archived s).

Section OneMonth.

Hypothesis Hact0 : dbs s0 !! active = Some (DB a0).
Hypothesis Ha0 : db_good a0.

Lemma held_active0 x : held_at s0 active x -> held a0 x.
Proof. intros (d & Hd & Hx). congruence. Qed.

Lemma at_month_sound d s : db_good d -> at_month d s -> archive_sound s.
Proof.
  intros Hg (_ & _ & Hd & Hs). split; [intros d' Hd'; by assert (d' = d) as -> by congruence|].
  intros h Hh. exists d. auto.
Qed.

Lemma active_kept_good s a : active_kept s -> dbs s !! active = Some (DB a) -> db_good a.
Proof. intros (a' & Ha' & _ & Hg) Ha. assert (a' = a) as -> by congruence. auto. Qed.

Lemma active_kept_held s x : active_kept s -> held_at s0 active x -> held_at s active x.
Proof. intros (a & Ha & Hr & _) Hx%held_active0. exists a. split; [done|]. by apply (held_rows_same a0). Qed.

(** The month's rows are in the archive: the active file may go. *)
Lemma month_done d s :
  db_good d -> at_month d s -> (forall x, held_at s0 archive x -> held d x) -> (forall p, p ∈ rows a0 -> held d p.2) ->
  wp (let@ _ := attempt (remove active) in ret tt) month_post s.
Proof.
  intros Hg Hat Hold Hall. pose proof Hat as (Hf & Hk & Hd & Hs).
  assert (Hle : db_le a0 d).
  { apply rows_le; [apply Ha0|]. intros r (p & -> & Hp)%list_elem_of_fmap. by apply Hall. }
  assert (Hx : forall s', dbs s' !! archive = Some (DB d) -> forall x, held_at s0 active x -> held_at s' archive x).
  { intros s' Hd' x Hx%held_active0. exists d. auto. }
  assert (Hpost : forall r, month_post r s).
  { intros r. split_and!; try done; [by apply (at_month_sound d)|by intros a; apply active_kept_good|..].
    - intros x Hx'. exists d. auto.
    - intros x Hx'. right. by apply Hx.
    - intros x _. by apply Hx.
    - intros _. by exists d. }
  assert (Hd' : dbs (del_db active s) !! archive = Some (DB d)) by (rewrite dbs_del; by case_decide).
  assert (Hdel : forall r, month_post r (del_db active s)).
  { intros r. split_and!; [by apply frame_del; [right|]|..].
    - split; [intros d1 Hd1; by assert (d1 = d) as -> by congruence|]. intros h Hh. exists d. auto.
    - intros a. rewrite dbs_del. by case_decide.
    - intros x Hx'. exists d. auto.
    - intros x Hx'. right. by apply Hx.
    - intros x _. by apply Hx.
    - intros _. by exists d. }
  apply wp_bind, wp_attempt, wp_step; [by apply wp_ret|done|by apply wp_ret].
Qed.

Lemma month_inv_post r s : (forall x, held_at s0 archive x -> held d0 x) -> month_inv s -> r <> Ok tt -> month_post r s.
Proof.
  intros Hold (d & Hle & Hg & Hat) Hr. pose proof Hat as (Hf & Hk & Hd & Hs).
  split_and!; try done; [by apply (at_month_sound d)|by intros a; apply active_kept_good|..].
  - intros x Hx. exists d. auto.
  - intros x Hx. left. by apply active_kept_held.
  - intros _. by exists d.
Qed.

Lemma fresh_post r s : ~ is_archived s0 -> fresh s -> r <> Ok tt -> month_post r s.
Proof.
  intros Hno (Hf & Hk & Hs & Hd) Hr. split_and!; try done; [split; [|done]|by intros a; apply active_kept_good|..].
  - intros d Hd'. by apply Hd.
  - intros x (d & Hx & _). destruct Hno. by exists d.
  - intros x Hx. left. by apply active_kept_held.
  - by intros [?|?].
Qed.

Lemma at_month_refl d : dbs s0 !! archive = Some (DB d) -> archive_sound s0 -> at_month d s0.
Proof.
  intros Hd [_ Hs]. split_and!; [by split|exists a0; auto|done|].
  intros h Hh. destruct (Hs h Hh) as (d' & Hd' & Hin). congruence.
Qed.

Lemma flush_existing_wp scratchDir :
  1 <= appendBatchRows -> dbs s0 !! archive = Some (DB d0) -> archive_sound s0 ->
  wp (flush_files scan batchSize appendBatchRows pid active archive dedup scratchDir) month_post s0.
Proof.
  intros Hb Hd0 Hsound. pose proof (at_month_refl d0 Hd0 Hsound) as Hat.
  assert (Hg0 : db_good d0) by (by apply Hsound).
  assert (Hold : forall x, held_at s0 archive x -> held d0 x) by (intros x (d & Hd & Hx); congruence).
  assert (Hi : month_inv s0) by (by apply (month_inv_at d0)).
  unfold flush_files. apply wp_bind, wp_nop; [by apply month_inv_post..|].
  apply wp_bind, wp_nop; [by apply month_inv_post..|].
  assert (Hflush : wp (let@ _ := FlushMonthDeduped scan batchSize appendBatchRows pid active archive dedup scratchDir in
                       let@ _ := attempt (remove active) in ret tt) month_post s0).
  { apply wp_bind. eapply wp_mono; [by apply flush_deduped_wp|].
    intros [[]|e|] s' [H' Hok]; [|by apply month_inv_post..].
    destruct (Hok eq_refl) as (d & Hle & Hg & Hat' & Hall). apply (month_done d); auto. }
  apply wp_bind, wp_attempt, wp_step; [exact Hflush|by apply month_inv_post|]. rewrite Hd0. exact Hflush.
Qed.

Lemma flush_new_wp scratchDir :
  dbs s0 !! archive = None \/ dbs s0 !! archive = Some Torn -> archive_sound s0 ->
  wp (flush_files scan batchSize appendBatchRows pid active archive dedup scratchDir) month_post s0.
Proof.
  intros Hnone Hsound.
  assert (Hno : ~ is_archived s0) by (intros (d & Hd); destruct Hnone; congruence).
  assert (Hn : no_archive s0).
  { split_and!; [by split|exists a0; auto| |done]. apply set_eq. intros h. split; [|set_solver].
    intros Hh. destruct (proj2 Hsound h Hh) as (d & Hd & _). destruct Hnone; congruence. }
  assert (Hbad : forall s' r, no_archive s' -> r <> Ok tt -> month_post r s')
    by (intros; apply fresh_post; [done|by apply no_archive_fresh|done]).
  unfold flush_files. apply wp_bind, wp_nop; [by apply Hbad..|]. apply wp_bind, wp_nop; [by apply Hbad..|].
  assert (Hflush : wp (let@ _ := FlushMonthDeduped scan batchSize appendBatchRows pid active archive dedup scratchDir in
                       let@ _ := attempt (remove active) in ret tt) month_post s0).
  { apply wp_bind. eapply wp_mono; [by apply flush_missing_wp|].
    intros [[]|e|] s' [H' Hr]; [done|by apply Hbad..]. }
  apply wp_bind, wp_attempt, wp_step; [exact Hflush|by apply Hbad|].
  destruct Hnone as [Hnone|Hnone]; rewrite Hnone; [|exact Hflush]. cbn [fst snd].
  apply wp_bind. apply wp_mono with (Q := fun r s' => fresh s' /\ (r = Ok tt -> exists d,
      at_month d s' /\ rows d = rows a0 /\ db_good d)).
  - apply (wp_bind_pres no_archive); [apply pres_attempt, index_active_pres|done| |].
    { intros s' H'. split; intros; (split; [by apply no_archive_fresh|done]). }
    intros _ s1 H1. apply wp_bind. eapply wp_mono; [by apply copy_fresh_wp|].
    intros [[]|e|] s2 [H2 Hok]; [|by split..]. destruct (Hok eq_refl) as (d & _ & Hat & Hr & Hg).
    assert (Hgo : forall s', at_month d s' -> forall r : res unit, fresh s' /\ (r = Ok tt -> exists d,
      at_month d s' /\ rows d = rows a0 /\ db_good d)).
    { intros s' (Hf' & Hk' & Hd' & Hs') r. split.
      - split_and!; try done; [intros h Hh; exists d; auto|]. intros d1 Hd1. by assert (d1 = d) as -> by congruence.
      - intros _. exists d. by split_and!. }
    apply wp_mono with (Q := fun _ s' => at_month d s'); [|by intros r s' H'; apply Hgo]. revert Hat. apply pres_bind.
    + apply pres_attempt, open_dedup_pres.
    + intros [u|e]; [|auto with pres]. apply pres_bind; [apply pres_attempt, populate_pres|intros _].
      apply pres_bind; [apply pres_attempt, close_pres|auto with pres].
  - intros [[]|e|] s' [Hf Hok]; [|by apply fresh_post..]. destruct (Hok eq_refl) as (d & Hat & Hr & Hg).
    apply (month_done d); [done|done|by intros x (d' & Hd' & _); destruct Hno; exists d'|]. intros p Hp. apply held_in, list_elem_of_fmap.
    exists p. split; [done|]. by rewrite Hr.
Qed.

Lemma flush_files_wp scratchDir :
  1 <= appendBatchRows -> archive_sound s0 -> (forall d, dbs s0 !! archive = Some (DB d) -> d = d0) ->
  wp (flush_files scan batchSize appendBatchRows pid active archive dedup scratchDir) month_post s0.
Proof.
  intros Hb Hs Hd0. destruct (dbs s0 !! archive) as [[d|]|] eqn:E; [|by apply flush_new_wp; auto..].
  apply flush_existing_wp; [done| |done]. by rewrite (Hd0 d eq_refl) in E.
Qed.

End OneMonth.

End FlushSpec.

(** *** All months *)

Section FlushAllSpec.

Context (scan : db -> res (list bytes)) (batchSize appendBatchRows pid : Z).
Context (p : SubjectDBPool) (root dedupDir : string).
Hypothesis Hscan : forall d hs, scan d = Ok hs -> forall h, h ∈ hs -> h ∈ hashes d.
Hypothesis Hpid : 0 <= pid.
Hypothesis Hb : 1 <= appendBatchRows.
(** The active and the archive trees are separate. *)
Hypothesis Hsep : forall m m', month_path (activeDir p) m <> month_path root m'.

#[local] Abbreviation act := (month_path (activeDir p)).
#[local] Abbreviation arch := (month_path root).
#[local] Abbreviation ddp := (dedupPathFor dedupDir).


Lemma dedup_path_inj m m' : ddp m = ddp m' -> m = m'.
Proof. unfold dedupPathFor, Join. by intros H%str_app_inj_l%str_app_inj_l%str_app_inj_r. Qed.

Definition archives_sound (s : store) : Prop := forall m, archive_sound (arch m) (ddp m) s.
Definition actives_ok (ms : list string) (s : store) : Prop :=
  forall m, m ∈ ms -> exists a, dbs s !! act m = Some (DB a) /\ db_good a.

(** What a flush of the months [ms] promises, from [s] to [s']. *)
Record flushed (ms : list string) (s s' : store) : Prop := {
  fl_sound : archives_sound s';
  fl_archive : forall m x, held_at s (arch m) x -> held_at s' (arch m) x;
  fl_db : forall m, is_archived (arch m) s -> is_archived (arch m) s';
  fl_other : forall m, m ∉ ms -> dbs s' !! act m = dbs s !! act m;
  fl_active : forall m x, held_at s (act m) x -> held_at s' (act m) x \/ held_at s' (arch m) x;
  fl_good : forall m a, m ∈ ms -> dbs s' !! act m = Some (DB a) -> db_good a;
  fl_frame : forall q, db_file q -> (forall m, q <> arch m) -> (forall m, q <> act m) -> dbs s' !! q = dbs s !! q;
  fl_rest : forall m, m ∉ ms -> dbs s' !! arch m = dbs s !! arch m }.

Definition all_archived (ms : list string) (s s' : store) : Prop :=
  forall m, m ∈ ms -> is_archived (arch m) s' /\ forall x, held_at s (act m) x -> held_at s' (arch m) x.

Lemma flush_month_wp m s :
  actives_ok [m] s -> archives_sound s ->
  wp (flush_month scan batchSize appendBatchRows pid p root dedupDir m)
     (fun r s' => flushed [m] s s' /\ (r = Ok tt -> all_archived [m] s s')) s.
Proof.
  intros Hact Hs. destruct (Hact m) as (a & Ha & Hg); [by left|].
  set (d0 := match dbs s !! arch m with Some (DB d) => d | _ => empty_db true true end).
  unfold flush_month. eapply wp_mono.
  { apply (flush_files_wp scan batchSize appendBatchRows pid (act m) (arch m) (ddp m) s d0 a); try done.
    - split; apply month_path_db.
    - intros d Hd. unfold d0. by rewrite Hd. }
  intros r s' ([F1 F2] & Hsound & Hgood & Harch & Hor & Hok & Hdb).
  assert (Hother : forall m', m' <> m -> dbs s' !! act m' = dbs s !! act m' /\ dbs s' !! arch m' = dbs s !! arch m' /\
                     seens s' !! ddp m' = seens s !! ddp m').
  { intros m' Hne. split; [|split].
    - apply F1; [apply month_path_db|apply Hsep|]. by intros ?%month_path_inj.
    - apply F1; [apply month_path_db| |by apply not_eq_sym, Hsep]. by intros ?%month_path_inj.
    - apply F2. by intros ?%dedup_path_inj. }
  split; [split|].
  - intros m'. destruct (decide (m' = m)) as [->|Hne]; [done|]. destruct (Hother m' Hne) as (_ & E & E2).
    destruct (Hs m') as [H1 H2]. split; [intros d; rewrite E; apply H1|]. intros h. unfold seen_of. rewrite E, E2. apply H2.
  - intros m' x Hx. destruct (decide (m' = m)) as [->|Hne]; [by apply Harch|].
    eapply held_at_ext; [|exact Hx]. by apply Hother.
  - intros m' Hx. destruct (decide (m' = m)) as [->|Hne]; [by apply Hdb; right|].
    unfold is_archived in *. by rewrite (proj1 (proj2 (Hother m' Hne))).
  - intros m' Hne. apply Hother. intros ->. apply Hne. by left.
  - intros m' x Hx. destruct (decide (m' = m)) as [->|Hne]; [by apply Hor|]. left.
    eapply held_at_ext; [|exact Hx]. by apply Hother.
  - intros m' a' ->%list_elem_of_singleton. apply Hgood.
  - intros q Hq H1 H2. by apply F1.
  - intros m' Hne. apply Hother. intros ->. apply Hne. by left.
  - intros Hr m' ->%list_elem_of_singleton. split; [by apply Hdb; left|]. intros x. by apply Hok.
Qed.

Lemma flushed_cons m ms s s1 s' : flushed [m] s s1 -> flushed ms s1 s' -> flushed (m :: ms) s s'.
Proof.
  intros [A1 A2 A0 A3 A4 A5 A6 A7] [B1 B2 B0 B3 B4 B5 B6 B7]. split; [done|by auto|by auto| | | | |].
  - intros m' Hm. rewrite B3, A3; [done| |]; intros Hin; apply Hm; [|by right].
    apply list_elem_of_singleton in Hin as ->. by left.
  - intros m' x Hx. destruct (A4 m' x Hx) as [H|H]; [by apply B4|right; by apply B2].
  - intros m' a Hm Ha. destruct (decide (m' ∈ ms)) as [Hin|Hin]; [by eapply B5|].
    apply elem_of_cons in Hm as [->|Hm]; [|done]. rewrite B3 in Ha by done. eapply A5; [by left|done].
  - intros q Hq H1 H2. rewrite B6, A6; done.
  - intros m' Hm. rewrite B7, A7; [done| |]; intros Hin; apply Hm; [|by right].
    apply list_elem_of_singleton in Hin as ->. by left.
Qed.

Lemma flush_months_wp ms fe s :
  NoDup ms -> actives_ok ms s -> archives_sound s ->
  wp (flush_months scan batchSize appendBatchRows pid p root dedupDir ms fe)
     (fun r s' => flushed ms s s' /\ (r = Ok None -> fe = None /\ all_archived ms s s')) s.
Proof.
  intros Hnd. revert fe s. induction Hnd as [|m ms Hm Hnd IH]; intros fe s Hact Hs; cbn [flush_months].
  { apply wp_ret. split; [split; auto; by intros m a ?%elem_of_nil|]. intros [= ->]. split; [done|]. by intros m ?%elem_of_nil. }
  apply wp_bind, wp_attempt. eapply wp_mono.
  { apply (flush_month_wp m); [|done]. intros m' ->%list_elem_of_singleton. apply Hact. by left. }
  intros r s1 [H1 Hok].
  assert (Hstop : flushed (m :: ms) s s1).
  { destruct H1 as [A1 A2 A0 A3 A4 A5 A6 A7]. split; auto.
    - intros m' Hm'. apply A3. intros ->%list_elem_of_singleton. apply Hm'. by left.
    - intros m' a' Hm' Ha'. destruct (decide (m' = m)) as [->|Hne]; [eapply A5; [by left|done]|].
      apply elem_of_cons in Hm' as [->|Hm']; [done|]. destruct (Hact m') as (b & Hb' & Hg'); [by right|].
      rewrite A3, Hb' in Ha' by (by intros ->%list_elem_of_singleton). by injection Ha' as <-.
    - intros m' Hm'. apply A7. intros ->%list_elem_of_singleton. apply Hm'. by left. }
  assert (Hact1 : actives_ok ms s1).
  { intros m' Hm'. destruct (Hact m') as (a & Ha & Hg); [by right|]. exists a. split; [|done].
    rewrite (fl_other _ _ _ H1); [done|]. by intros ->%list_elem_of_singleton. }
  destruct r as [[]|e|]; [..|by split].
  - eapply wp_mono; [apply IH; [done|apply H1]|]. intros r s' [H2 Hr]. split; [by eapply flushed_cons|].
    intros E. destruct (Hr E) as [-> Hall]. split; [done|].
    intros m' [->|Hin]%elem_of_cons.
    + destruct (Hok eq_refl m) as [Hd Hx]; [by left|]. split; [by apply (fl_db _ _ _ H2)|]. intros x Hm'. by apply H2, Hx.
    + split; [by apply Hall|]. destruct (decide (m' = m)) as [->|Hne]; [done|]. intros x Hx. apply Hall; [done|].
      eapply held_at_ext; [|exact Hx]. apply H1. by intros ->%list_elem_of_singleton.
  - eapply wp_mono; [apply IH; [done|apply H1]|]. intros r s' [H2 Hr]. split; [by eapply flushed_cons|].
    intros E. destruct (Hr E) as [H _]. by destruct fe.
Qed.

End FlushAllSpec.
