(* ===== verification/DedupLive.v ===== *)
(** The flush of internal/db when nothing fails: it terminates with success, so
    that with Dedup.v every row of the pool is archived and the pool's files are
    gone. *)

From S2P Require Import Prelude GoStd FileSys Sql SubjectDB Dedup.

#[local] Open Scope sql_scope.

(** ** Lemmas *)

(** The trivial postcondition of a run without failures. *)
Definition runs {A} (m : M A) (s : store) : Prop := quiet m (fun _ _ => True) s.

Lemma runs_nop s : runs nop s.
Proof. by apply quiet_nop. Qed.

Lemma runs_bind {A B} (m : M A) (k : A -> M B) s : runs m s -> (forall a s', runs (k a) s') -> runs (bindM m k) s.
Proof. intros H Hk. apply quiet_bind. eapply quiet_mono; [exact H|]. intros a s' _. apply Hk. Qed.

Lemma runs_attempt {A} (m : M A) s : runs m s -> runs (attempt m) s.
Proof. intros H. apply quiet_attempt. by eapply quiet_mono. Qed.

Lemma quiet_bind_pres (I : store -> Prop) {A B} (m : M A) (k : A -> M B) (Q : B -> store -> Prop) s :
  pres I m -> I s -> runs m s -> (forall a s', I s' -> quiet (k a) Q s') -> quiet (bindM m k) Q s.
Proof. intros Hp Hs Hr Hk. eapply (quiet_bind_wp m k (fun _ s' => I s')); [by apply Hp|done|done]. Qed.

Section Live.

Context (scan : db -> res (list bytes)) (batchSize appendBatchRows pid : Z).
Context (active archive dedup : string).
Context (s0 : store) (d0 a0 : db).
Hypothesis Hscan : forall d hs, scan d = Ok hs -> forall h, h ∈ hs -> h ∈ hashes d.
Hypothesis Hscan_ok : forall d, is_ok (scan d) = true.
Hypothesis Hdb : db_file active /\ db_file archive.
Hypothesis Hne : active <> archive.
Hypothesis Hpid : 0 <= pid.

#[local] Abbreviation at_m := (at_month active archive dedup s0 a0).

#[local] Instance live_inv : MonthInv archive at_m.
Proof. by apply at_month_inv. Qed.
#[local] Abbreviation inv := (month_inv active archive dedup s0 d0 a0).

Lemma open_dedup_runs s : runs (OpenDedupStore dedup) s.
Proof. apply runs_bind; [apply runs_nop|intros _ s']. apply quiet_wrap. by eapply quiet_step_or. Qed.

Lemma count_runs s : runs (Count dedup) s.
Proof. by eapply quiet_step_or. Qed.

Lemma seed_flush_runs batch s : runs (seed_flush dedup batch) s.
Proof.
  destruct batch as [|h b]; [by apply quiet_ret|]. unfold seed_flush. generalize (h :: b). intros bs.
  apply runs_bind; [apply runs_nop|intros _ s1]. apply runs_bind; [apply runs_nop|intros _ s2].
  apply runs_bind; [|intros _ s3; by eapply quiet_step_or].
  revert s2. generalize bs at 1. intros l. induction l; intros s2; [by apply quiet_ret|]. apply runs_bind; [apply runs_nop|auto].
Qed.

Lemma seed_loop_quiet hs batch s : quiet (seed_loop batchSize dedup hs batch None) (fun r _ => r.2 = None) s.
Proof.
  revert batch s. induction hs as [|h hs IH]; intros batch s; cbn [seed_loop]; [by apply quiet_ret|].
  case_match; [|by apply IH]. apply quiet_bind, quiet_attempt.
  eapply quiet_mono; [apply seed_flush_runs|]. intros u s' _. apply IH.
Qed.

Lemma populate_runs d s : dbs s !! archive = Some (DB d) -> runs (PopulateFromArchive scan batchSize dedup archive) s.
Proof.
  intros Hd. apply quiet_bind, quiet_attempt. eapply quiet_step_or; [by rewrite Hd|]. cbn beta iota.
  pose proof (Hscan_ok d) as Hok. destruct (scan d) as [hs| |] eqn:Es; [|done..].
  apply quiet_bind, quiet_wrap. eapply quiet_step_or; [unfold read_db; by rewrite Hd, Es|].
  apply quiet_bind. eapply quiet_mono; [apply seed_loop_quiet|]. intros [b fe] s1 E. cbn in E. subst fe.
  apply runs_bind; [by apply quiet_wrap, seed_flush_runs|intros _ s2; apply count_runs].
Qed.

Lemma close_runs s : runs CloseDedup s.
Proof. apply runs_bind; [by apply runs_attempt, runs_nop|intros _ s'; apply runs_nop]. Qed.

(** Each round moves on by a batch: the fuel is enough. *)
Lemma append_loop_runs fuel src seen start hi d s :
  1 <= appendBatchRows -> dbs s !! archive = Some (DB d) ->
  hi < start + Z.of_nat fuel * appendBatchRows -> (0 < fuel)%nat ->
  runs (append_loop appendBatchRows (S fuel) archive src seen start hi) s.
Proof.
  intros Hb. revert start d s. induction fuel as [|fuel IH]; intros start d s Hd Hfuel Hpos; [lia|].
  cbn [append_loop]. destruct (Z.leb_spec start hi); [|by apply quiet_ret].
  apply quiet_bind, quiet_wrap, quiet_nop. apply quiet_bind, quiet_attempt, (quiet_query archive _ d); [done|].
  apply quiet_bind, quiet_wrap. eapply (quiet_update archive _ d); [done..|].
  destruct fuel as [|fuel].
  - cbn [append_loop]. destruct (Z.leb_spec (start + appendBatchRows) hi); [lia|by apply quiet_ret].
  - eapply IH; [rewrite dbs_set; by case_decide|lia|lia].
Qed.

Lemma exec_each_quiet p names f d s :
  dbs s !! p = Some (DB d) -> quiet (exec_each p names f) (fun _ s' =>
    (exists d', dbs s' !! p = Some (DB d')) /\ forall q, q <> p -> dbs s' !! q = dbs s !! q) s.
Proof.
  revert d s. induction names as [|n names IH]; intros d s Hd; [apply quiet_ret; eauto|].
  apply quiet_bind. eapply (quiet_update p _ d); [done..|].
  eapply quiet_mono; [apply (IH (f n d)); rewrite dbs_set; by case_decide|].
  intros u s' [H1 H2]. split; [done|]. intros q Hq. rewrite H2, dbs_set by done. by case_decide.
Qed.

Lemma append_runs a d s :
  1 <= appendBatchRows -> dbs s !! active = Some (DB a) -> dbs s !! archive = Some (DB d) ->
  StronglySorted Z.lt ((rows a).*1) ->
  runs (appendDedupedNewRows appendBatchRows active archive dedup) s.
Proof.
  intros Hb Ha Hd Hsort. unfold appendDedupedNewRows.
  apply quiet_bind, quiet_wrap, quiet_nop.
  apply quiet_bind, quiet_wrap, quiet_bind, quiet_nop, quiet_bind, quiet_nop, quiet_nop.
  do 2 apply quiet_bind, quiet_wrap, quiet_nop.
  apply quiet_bind. eapply quiet_step_or; [done|].
  apply quiet_bind, quiet_wrap, (quiet_query active _ a); [done|].
  destruct (negb _); [by apply quiet_ret|].
  apply quiet_bind, quiet_wrap, (quiet_query active _ a); [done|].
  unfold rowid_range. destruct (head (rows a)) as [p0|] eqn:Eh; [|by apply quiet_ret].
  destruct (last (rows a)) as [pn|] eqn:El; [|by apply quiet_ret].
  apply quiet_bind, quiet_wrap. eapply quiet_mono; [by apply (exec_each_quiet archive _ _ d)|].
  intros u s' [[d' Hd'] Hq]. apply quiet_bind, (quiet_query active _ a); [by rewrite Hq|].
  set (k := (pn.1 - p0.1) / appendBatchRows).
  assert (p0.1 <= pn.1).
  { apply (sorted_bounds ((rows a).*1) p0.1 pn.1 pn.1); [done| |by rewrite fmap_last, El|].
    - destruct (rows a) as [|x l]; [done|]. by injection Eh as ->.
    - apply last_Some_elem_of. by rewrite fmap_last, El. }
  assert (0 <= k) by (apply Z.div_pos; lia).
  replace (Z.to_nat k + 2)%nat with (S (Z.to_nat k + 1)) by lia.
  eapply append_loop_runs; [done|done| |lia].
  pose proof (Z.mul_succ_div_gt (pn.1 - p0.1) appendBatchRows ltac:(lia)). fold k in H0. nia.
Qed.

(** *** Rebuilding on scratch *)

Lemma remove_files_quiet bp s : quiet (removeDBFiles bp) (fun _ s' => s' = del_db bp s) s.
Proof. apply quiet_bind, quiet_attempt, quiet_remove. by apply quiet_ret. Qed.

Lemma create_schema_quiet bp hash s :
  dbs s !! bp = None -> quiet (create_schema bp hash) (fun _ s' => s' = set_db bp (DB (empty_db true hash)) s) s.
Proof. intros Hn. eapply quiet_step_or; [by rewrite Hn|done]. Qed.

Lemma insert_select_quiet bp p dn dp s :
  dbs s !! bp = Some (DB dn) -> dbs s !! p = Some (DB dp) ->
  quiet (insert_select bp p) (fun _ s' => s' = set_db bp (DB (insert_all dn (all_rows dp))) s) s.
Proof. intros Hb Hp. eapply quiet_step_or; [unfold read_db; by rewrite Hp, Hb|done]. Qed.

Lemma heap_quiet bp d s :
  bp <> archive -> dbs s !! archive = Some (DB d) -> dbs s !! bp = None ->
  quiet (buildIndexFreeHeap archive bp) (fun _ s' => exists dn, dbs s' !! bp = Some (DB dn)) s.
Proof.
  intros Hne' Hd Hn. apply quiet_bind, quiet_nop.
  apply quiet_bind, quiet_wrap. eapply quiet_mono; [by apply create_schema_quiet|]. intros _ s1 ->.
  apply quiet_bind, quiet_wrap, quiet_nop. apply quiet_bind, quiet_wrap.
  eapply quiet_mono; [apply (insert_select_quiet bp archive (empty_db true false) d)|].
  - rewrite dbs_set. by case_decide.
  - rewrite dbs_set. by case_decide.
  - intros _ s2 ->. apply quiet_nop. eexists. rewrite dbs_set. by case_decide.
Qed.

Lemma copy_quiet src new f s :
  dbs s !! src = Some f -> quiet (copySubjectDB src new) (fun _ s' =>
    dbs s' !! new = Some f /\ forall q, q <> new -> dbs s' !! q = dbs s !! q) s.
Proof.
  intros Hf. apply quiet_bind. eapply quiet_step_or; [by rewrite Hf|].
  apply quiet_bind. eapply quiet_step_or; [done|]. apply quiet_bind, quiet_attempt. eapply quiet_step_or; [done|].
  apply quiet_nop. split; [rewrite dbs_set; by case_decide|]. intros q Hq.
  rewrite !dbs_set. by case_decide.
Qed.

Lemma rename_runs a b f s : dbs s !! a = Some f -> runs (rename a b) s.
Proof. intros Hf. eapply quiet_step_or; [by rewrite Hf|done]. Qed.

Lemma scratch_names scratchDir x tag :
  last_char tag = Some "e"%char ->
  Join scratchDir (x +:+ "." +:+ tag +:+ "." +:+ dec pid) <> (archive +:+ ".new." +:+ dec pid)%string.
Proof.
  intros Ht H. assert (tag <> "") by (by intros ->).
  assert (Join scratchDir (x +:+ "." +:+ tag) +:+ ("." +:+ dec pid) = (archive +:+ ".new") +:+ ("." +:+ dec pid))%string as E.
  { unfold Join in *. rewrite !str_app_assoc in *. exact H. }
  apply str_app_inj_r in E. apply (f_equal last_char) in E. unfold Join in E.
  rewrite <- !str_app_assoc in E. by rewrite !last_char_app, Ht in E.
Qed.

Lemma scratch_runs scratchDir tag build s :
  last_char tag = Some "e"%char ->
  (forall bp s1, ~ db_file bp -> (forall q, db_file q -> dbs s1 !! q = dbs s !! q) -> dbs s1 !! bp = None ->
     quiet (build bp) (fun _ s' => exists dn, dbs s' !! bp = Some (DB dn)) s1) ->
  runs (scratchRebuildArchive pid archive scratchDir tag build) s.
Proof.
  intros Ht Hbuild. unfold scratchRebuildArchive. set (hdd := (archive +:+ ".new." +:+ dec pid)%string).
  assert (Hh : ~ db_file hdd) by (unfold hdd; rewrite <- str_app_assoc; by apply not_db_file_dec).
  apply quiet_bind. apply quiet_mono with (Q := fun r s' => s' = s /\ ~ db_file r.1 /\ (r.2 = true -> r.1 <> hdd)).
  { destruct (String.eqb scratchDir ""); [by apply quiet_ret|]. apply quiet_bind, quiet_attempt, quiet_nop, quiet_ret.
    split_and!; [done| |intros _; by apply scratch_names]. cbn [fst]. unfold Join.
    rewrite <- !str_app_assoc. by apply not_db_file_dec. }
  intros [bp cross] ? (-> & Hbp & Hcross). cbn [fst snd] in *.
  apply quiet_bind. eapply quiet_mono; [apply remove_files_quiet|]. intros _ ? ->.
  apply quiet_bind, quiet_attempt. eapply quiet_mono.
  { apply Hbuild; [done| |rewrite dbs_del; by case_decide]. intros q Hq. rewrite dbs_del. case_decide; [by subst|done]. }
  intros _ s1 [dn Hdn]. destruct cross; cbn [negb]; [|by eapply rename_runs].
  apply quiet_bind, quiet_attempt. eapply quiet_mono; [by apply copy_quiet|]. intros _ s2 [E _].
  apply quiet_bind. eapply quiet_mono; [apply remove_files_quiet|]. intros _ ? ->.
  eapply rename_runs. rewrite dbs_del. case_decide; [|done]. by destruct Hcross.
Qed.

(** *** The flush of a month *)

Lemma flush_deduped_runs scratchDir :
  db_good a0 -> db_good d0 -> 1 <= appendBatchRows -> forall s, at_m d0 s ->
  runs (FlushMonthDeduped scan batchSize appendBatchRows pid active archive dedup scratchDir) s.
Proof.
  intros [Haw Hao] Hg Hb s Hs. unfold FlushMonthDeduped.
  assert (Hd : forall d s', at_m d s' -> dbs s' !! archive = Some (DB d)) by (by intros d s' (_ & _ & ? & _)).
  apply (quiet_bind_pres (at_m d0)); [by apply open_dedup_pres|done|apply open_dedup_runs|]. intros u1 s1 H1.
  apply (quiet_bind_pres (at_m d0)); [by apply count_pres|done|apply count_runs|]. intros n s2 H2.
  eapply (quiet_bind_wp _ _ (fun _ s' => at_m d0 s')); [| |].
  { destruct (n =? 0); [|by apply wp_ret]. revert H2. apply pres_bind; [by apply populate_pres|auto with pres]. }
  { destruct (n =? 0); [|by apply quiet_ret]. apply runs_bind; [by eapply populate_runs, Hd|]. intros; by apply quiet_ret. }
  intros u3 s3 H3. apply (quiet_bind_pres (at_m d0)); [by apply close_pres|done|apply close_runs|]. intros u4 s4 H4.
  apply quiet_bind, quiet_wrap, (quiet_query archive _ d0); [by apply Hd|].
  eapply (quiet_bind_wp _ _ (fun _ s' => inv s')); [| |].
  { destruct (ix_hash d0); [|apply wp_ret; by eapply month_inv_at].
    apply wp_wrap. eapply wp_mono; [eapply (scratch_wp pid archive (at_month active archive dedup s0 a0) Hpid d0 (fun dn => db_le d0 dn /\ db_good dn /\ ix_hash dn = false))|].
    - by intros dn [? _].
    - intros bp s6 Hbp H6. by apply (heap_wp archive (at_month active archive dedup s0 a0) (proj2 Hdb)).
    - done.
    - intros r s6 [[H6 _]|(dn & H6 & Hle & Hgn & _)]; by eapply month_inv_at. }
  { destruct (ix_hash d0); [|by apply quiet_ret]. apply quiet_wrap.
    apply scratch_runs; [done|]. intros bp s1' Hbp Hq Hn. apply (heap_quiet bp d0); [by intros ->; apply Hbp, Hdb| |done].
    rewrite Hq by apply Hdb. by apply Hd. }
  intros u5 s5 (d & Hle & Hgd & Hat). pose proof Hat as (_ & (a & Ha & Hr & _) & Hda & _).
  eapply (quiet_bind_wp _ _ (fun _ s' => inv s')).
  - eapply wp_mono; [eapply append_wp; try done; [apply Haw|by exists d]|]. by intros r s' [H' _].
  - eapply append_runs; [done|done|done|]. rewrite Hr. apply Haw.
  - intros u6 s6 (d' & _ & _ & (_ & (a' & Ha' & _) & _ & _)).
    assert (dbs s6 !! active = Some (DB a')) by done.
    apply quiet_bind. exists tt. eexists. split; [reflexivity|].
    apply quiet_bind, quiet_wrap, quiet_nop. apply quiet_wrap. eapply quiet_step_or; [|done].
    unfold read_db. cbn [dbs set_seen_at]. by rewrite Ha'.
Qed.

Lemma remove_active_quiet s :
  quiet (let@ _ := attempt (remove active) in ret tt) (fun _ s' => dbs s' !! active = None) s.
Proof. apply quiet_bind, quiet_attempt, quiet_remove, quiet_ret. rewrite dbs_del. by case_decide. Qed.

(** Without failures a month is archived and its active file is gone. *)
Lemma flush_files_quiet scratchDir :
  db_good a0 -> 1 <= appendBatchRows -> dbs s0 !! active = Some (DB a0) ->
  archive_sound archive dedup s0 -> dbs s0 !! archive <> Some Torn ->
  (forall d, dbs s0 !! archive = Some (DB d) -> d = d0) ->
  quiet (flush_files scan batchSize appendBatchRows pid active archive dedup scratchDir)
        (fun _ s' => dbs s' !! active = None) s0.
Proof.
  intros Hg Hb Ha Hs Hnt Hd0. unfold flush_files. do 2 apply quiet_bind, quiet_nop.
  destruct (dbs s0 !! archive) as [[d|]|] eqn:Ed; [| done|].
  - assert (d = d0) as -> by auto. apply quiet_bind, quiet_attempt. eapply quiet_step_or; [by rewrite Ed|].
    apply quiet_bind. eapply quiet_mono; [|intros u s' _; apply remove_active_quiet].
    apply flush_deduped_runs; [done|by apply Hs|done|]. by apply at_month_refl.
  - apply quiet_bind. exists (inr ErrNotExist), s0. split; [unfold attempt, stat, step, step_or; by rewrite Ed|].
    apply quiet_bind. eapply quiet_mono; [|intros u s' _; apply remove_active_quiet].
    apply quiet_bind, quiet_attempt, quiet_bind, quiet_nop, quiet_wrap.
    eapply quiet_mono; [by apply (exec_each_quiet active _ _ a0)|]. intros u1 s1 [[a1 Ha1] _].
    apply quiet_bind. eapply quiet_mono; [by apply copy_quiet|]. intros u2 s2 [E2 _].
    apply quiet_bind, quiet_attempt. apply quiet_bind, quiet_nop, quiet_wrap. eapply quiet_step_or; [done|].
    apply runs_bind; [apply runs_attempt; by eapply populate_runs|intros _ s3].
    apply runs_bind; [apply runs_attempt, close_runs|intros _ s4; by apply quiet_ret].
Qed.

End Live.

(** *** All months *)

Section LiveAll.

Context (scan : db -> res (list bytes)) (batchSize appendBatchRows pid : Z).
Context (p : SubjectDBPool) (root dedupDir : string).
Hypothesis Hscan : forall d hs, scan d = Ok hs -> forall h, h ∈ hs -> h ∈ hashes d.
Hypothesis Hscan_ok : forall d, is_ok (scan d) = true.
Hypothesis Hpid : 0 <= pid.
Hypothesis Hb : 1 <= appendBatchRows.
Hypothesis Hsep : forall m m', month_path (activeDir p) m <> month_path root m'.

#[local] Abbreviation act := (month_path (activeDir p)).
#[local] Abbreviation arch := (month_path root).

Lemma flush_months_quiet ms fe s :
  NoDup ms -> actives_ok p ms s -> archives_sound root dedupDir s ->
  (forall m, m ∈ ms -> dbs s !! arch m <> Some Torn) ->
  quiet (flush_months scan batchSize appendBatchRows pid p root dedupDir ms fe)
        (fun r s' => r = fe /\ forall m, m ∈ ms -> dbs s' !! act m = None) s.
Proof.
  intros Hnd. revert s. induction Hnd as [|m ms Hm Hnd IH]; intros s Hact Hs Ht; cbn [flush_months].
  { apply quiet_ret. split; [done|]. by intros m ?%elem_of_nil. }
  apply quiet_bind, quiet_attempt.
  destruct (Hact m) as (a & Ha & Hg); [by left|].
  set (d0 := match dbs s !! arch m with Some (DB d) => d | _ => empty_db true true end).
  assert (Hd0 : forall d, dbs s !! arch m = Some (DB d) -> d = d0) by (intros d Hd; unfold d0; by rewrite Hd).
  assert (Hdbf : db_file (act m) /\ db_file (arch m)) by (split; apply month_path_db).
  pose proof (flush_files_wp scan batchSize appendBatchRows pid (act m) (arch m) (dedupPathFor dedupDir m) s d0 a
    Hscan Hdbf (Hsep m m) Hpid Ha Hg (activeDir p) Hb (Hs m) Hd0) as Hfile.
  destruct (flush_files_quiet scan batchSize appendBatchRows pid (act m) (arch m) (dedupPathFor dedupDir m) s d0 a
    Hscan Hscan_ok Hdbf (Hsep m m) Hpid (activeDir p) Hg Hb Ha (Hs m) (Ht m ltac:(by left)) Hd0) as ([] & s1 & E1 & Hgone).
  pose proof (flush_month_wp scan batchSize appendBatchRows pid p root dedupDir Hscan Hpid Hb Hsep m s) as Hw.
  destruct Hw with (fl := @nil outcome) as [Hfl _]; [by intros m' ->%list_elem_of_singleton; exists a|done|].
  unfold flush_month in *. rewrite E1 in Hfl. cbn [fst snd] in Hfl.
  specialize (Hfile []). rewrite E1 in Hfile. cbn [fst snd] in Hfile. destruct Hfile as ([F1 _] & _).
  exists tt, s1. split; [done|].
  assert (Hact1 : actives_ok p ms s1).
  { intros m' Hm'. destruct (Hact m') as (a' & Ha' & Hg'); [by right|]. exists a'. split; [|done].
    rewrite (fl_other _ _ _ _ _ _ Hfl); [done|]. by intros ->%list_elem_of_singleton. }
  assert (Hs1 : archives_sound root dedupDir s1) by apply Hfl.
  eapply quiet_mono; [apply quiet_and; [apply IH; [done..|]|]|].
  - intros m' Hm'. rewrite F1; [apply Ht; by right|apply month_path_db| |by apply not_eq_sym, Hsep].
    intros ->%month_path_inj. done.
  - by apply (flush_months_wp scan batchSize appendBatchRows pid p root dedupDir Hscan Hpid Hb Hsep ms fe s1 Hnd).
  - intros r s' [[-> Hall] [Hfl' _]]. split; [done|]. intros m' [->|Hin]%elem_of_cons; [|by apply Hall].
    by rewrite (fl_other _ _ _ _ _ _ Hfl').
Qed.

End LiveAll.

(** A flush in which nothing fails. *)
Lemma flush_all_quiet (scan : db -> res (list bytes)) (batchSize appendBatchRows pid : Z)
  (map_order : gset string -> list string) (p : SubjectDBPool) (root : string) (s : store)
  (Hscan : forall d hs, scan d = Ok hs -> forall h, h ∈ hs -> h ∈ hashes d)
  (Hscan_ok : forall d, is_ok (scan d) = true)
  (Hpid : 0 <= pid) (Hb : 1 <= appendBatchRows)
  (Hord : forall x, map_order x ≡ₚ elements x)
  (Hsep : forall m m', month_path (activeDir p) m <> month_path root m')
  (Hact : actives_ok p (map_order (pool_dbs p)) s)
  (Hsound : archives_sound root (Join (Dir (activeDir p)) "dedup") s)
  (Htorn : forall m, m ∈ pool_dbs p -> dbs s !! month_path root m <> Some Torn) :
  exists s', FlushAll scan batchSize appendBatchRows pid map_order p root s [] = (Ok (mkPool ∅ (activeDir p), None), s', []) /\
    forall m, m ∈ pool_dbs p -> dbs s' !! month_path (activeDir p) m = None /\ is_archived (month_path root m) s' /\
      forall x, held_at s (month_path (activeDir p) m) x -> held_at s' (month_path root m) x.
Proof.
  assert (Hnd : NoDup (map_order (pool_dbs p))) by (rewrite Hord; apply NoDup_elements).
  assert (Hin : forall m, m ∈ pool_dbs p <-> m ∈ map_order (pool_dbs p)) by (intros m; by rewrite Hord, elem_of_elements).
  destruct (flush_months_quiet scan batchSize appendBatchRows pid p root (Join (Dir (activeDir p)) "dedup")
    Hscan Hscan_ok Hpid Hb Hsep _ None s Hnd Hact Hsound) as (fe & s' & E & -> & Hgone).
  { intros m Hm. by apply Htorn, Hin. }
  pose proof (flush_months_wp scan batchSize appendBatchRows pid p root (Join (Dir (activeDir p)) "dedup")
    Hscan Hpid Hb Hsep _ None s Hnd Hact Hsound []) as Hw. rewrite E in Hw. cbn [fst snd] in Hw.
  destruct Hw as [_ Hok]. destruct (Hok eq_refl) as [_ Hall].
  exists s'. split; [unfold FlushAll, bindM; by rewrite E|]. intros m Hm%Hin. split; [by apply Hgone|]. by apply Hall.
Qed.

(** ** Properties *)

(** C1. Whatever statement or file operation of FlushAll fails, and wherever the
    process dies: every certificate of the archive stays in the archive, every
    certificate of the pool is afterwards in the pool's file or in the archive,
    and the dedup sets still name only archived hashes. A flush that reports no
    error has put the whole pool into the archive. *)
Theorem flush_all_conserves (scan : db -> res (list bytes)) (batchSize appendBatchRows pid : Z)
  (map_order : gset string -> list string) (p : SubjectDBPool) (root : string)
  (s s' : store) (fl fl' : list outcome) (r : res (SubjectDBPool * option error))
  (Hscan : forall d hs, scan d = Ok hs -> forall h, h ∈ hs -> h ∈ hashes d)
  (Hpid : 0 <= pid) (Hb : 1 <= appendBatchRows)
  (Hord : forall x, map_order x ≡ₚ elements x)
  (Hsep : forall m m', month_path (activeDir p) m <> month_path root m')
  (Hact : actives_ok p (map_order (pool_dbs p)) s)
  (Hsound : archives_sound root (Join (Dir (activeDir p)) "dedup") s)
  (Hrun : FlushAll scan batchSize appendBatchRows pid map_order p root s fl = (r, s', fl')) :
  archives_sound root (Join (Dir (activeDir p)) "dedup") s' /\
  (forall m x, held_at s (month_path root m) x -> held_at s' (month_path root m) x) /\
  (forall m x, held_at s (month_path (activeDir p) m) x ->
     held_at s' (month_path (activeDir p) m) x \/ held_at s' (month_path root m) x) /\
  (forall p', r = Ok (p', None) -> pool_dbs p' = ∅ /\
     forall m x, m ∈ pool_dbs p -> held_at s (month_path (activeDir p) m) x -> held_at s' (month_path root m) x).
Proof.
  assert (Hnd : NoDup (map_order (pool_dbs p))) by (rewrite Hord; apply NoDup_elements).
  pose proof (flush_months_wp scan batchSize appendBatchRows pid p root (Join (Dir (activeDir p)) "dedup")
    Hscan Hpid Hb Hsep _ None s Hnd Hact Hsound) as Hw.
  specialize (Hw fl). revert Hrun Hw. unfold FlushAll, bindM.
  destruct (flush_months _ _ _ _ _ _ _ _ _ s fl) as [[[fe|e|] s1] fl1]; cbn [fst snd ret];
    intros [= <- <- <-] [[H1 H2 _ H3 H4 _ _ _] Hok]; (split_and!; [done..|]); intros p' [= <- ->].
  split; [done|]. intros m x Hm. destruct (Hok eq_refl) as [_ Hall]. apply Hall. rewrite Hord. by apply elem_of_elements.
Qed.

(** C32. When nothing fails, FlushAll terminates without an error (its append loop
    has enough fuel), every row of the pool is archived and the pool's files are
    removed, provided no archive month is a torn file. *)
Theorem flush_all_completes (scan : db -> res (list bytes)) (batchSize appendBatchRows pid : Z)
  (map_order : gset string -> list string) (p : SubjectDBPool) (root : string) (s : store)
  (Hscan : forall d hs, scan d = Ok hs -> forall h, h ∈ hs -> h ∈ hashes d)
  (Hscan_ok : forall d, is_ok (scan d) = true)
  (Hpid : 0 <= pid) (Hb : 1 <= appendBatchRows)
  (Hord : forall x, map_order x ≡ₚ elements x)
  (Hsep : forall m m', month_path (activeDir p) m <> month_path root m')
  (Hact : actives_ok p (map_order (pool_dbs p)) s)
  (Hsound : archives_sound root (Join (Dir (activeDir p)) "dedup") s)
  (Htorn : forall m, m ∈ pool_dbs p -> dbs s !! month_path root m <> Some Torn) :
  exists s', FlushAll scan batchSize appendBatchRows pid map_order p root s [] = (Ok (mkPool ∅ (activeDir p), None), s', []) /\
    forall m, m ∈ pool_dbs p -> dbs s' !! month_path (activeDir p) m = None /\
      forall x, held_at s (month_path (activeDir p) m) x -> held_at s' (month_path root m) x.
Proof.
  destruct (flush_all_quiet scan batchSize appendBatchRows pid map_order p root s) as (s' & E & H); try done.
  exists s'. split; [done|]. intros m Hm. by destruct (H m Hm) as (? & _ & ?).
Qed.

(** ** Witnesses and findings *)

Definition plain_row (h : bytes) : row :=
  mkRow 1 "" "" "" "" "" "2025-02-01" "" "" "" "" 0 0 "x509" None None (Some h) None.
Definition db_of (hs : list bytes) : db := insert_all (empty_db true true) (map plain_row hs).
Definition pool02 : SubjectDBPool := mkPool {["2025-02"]} "data/active".
Definition store02 (arch : option dbfile) (seen : gset bytes) : store :=
  mkStore (<["data/active/2025-02/subjects.db" := DB (db_of [[x01]; [x02]])]>
             (match arch with Some f => {["hdd/2025-02/subjects.db" := f]} | None => ∅ end))
          {["data/dedup/2025-02.db" := seen]} ∅ ∅ [].
Definition scan_all (d : db) : res (list bytes) := Ok (hashes d).

Lemma scan_all_sound d hs : scan_all d = Ok hs -> forall h, h ∈ hs -> h ∈ hashes d.
Proof. by intros [= <-]. Qed.

Lemma pool02_sep m m' : month_path (activeDir pool02) m <> month_path "hdd" m'.
Proof. unfold month_path, Join. cbn. congruence. Qed.

Lemma store02_active m arch seen :
  m ∈ elements (pool_dbs pool02) -> exists a, dbs (store02 arch seen) !! month_path (activeDir pool02) m = Some (DB a) /\ db_good a.
Proof.
  intros Hm. cbn [pool_dbs pool02] in Hm. rewrite elements_singleton in Hm. apply list_elem_of_singleton in Hm as ->.
  exists (db_of [[x01]; [x02]]). split; [apply lookup_insert_eq|].
  apply insert_all_good; [apply empty_good|]. by repeat constructor.
Qed.

Lemma db_of_good hs : db_good (db_of hs).
Proof.
  apply insert_all_good; [apply empty_good|]. apply Forall_forall. intros r (h & -> & _)%list_elem_of_fmap. by right.
Qed.

Lemma store02_arch m : dbs (store02 (Some (DB (db_of [[x01]]))) {[ [x01] ]}) !! month_path "hdd" m =
  if decide (m = "2025-02") then Some (DB (db_of [[x01]])) else None.
Proof.
  unfold store02. cbn [dbs]. rewrite lookup_insert_ne by (by unfold month_path, Join). case_decide as H.
  - subst. apply lookup_singleton_eq.
  - apply lookup_singleton_ne. unfold month_path, Join. cbn. intros E. apply H.
    injection E as E. change "2025-02/subjects.db"%string with ("2025-02" +:+ "/subjects.db")%string in E.
    by apply str_app_inj_r in E.
Qed.

Lemma store02_sound : archives_sound "hdd" (Join (Dir (activeDir pool02)) "dedup") (store02 (Some (DB (db_of [[x01]]))) {[ [x01] ]}).
Proof.
  intros m. split; intros x; rewrite store02_arch.
  - case_decide; [|done]. intros [= <-]. apply db_of_good.
  - unfold seen_of, store02. cbn [seens]. intros Hx. case_decide as Hm.
    + subst m. exists (db_of [[x01]]). split; [done|]. revert Hx.
      change (dedupPathFor (Join (Dir (activeDir pool02)) "dedup") "2025-02") with "data/dedup/2025-02.db".
      rewrite lookup_singleton_eq. intros Hx.
      rewrite (proj1 (elem_of_singleton (C := gset bytes) x [x01]) Hx). by left.
    + rewrite lookup_singleton_ne in Hx; [by apply elem_of_empty in Hx|].
      change (Join (Dir (activeDir pool02)) "dedup") with "data/dedup". unfold dedupPathFor, Join. cbn.
      intros E. apply Hm. injection E as E. change "2025-02.db"%string with ("2025-02" +:+ ".db")%string in E.
      by apply str_app_inj_r in E.
Qed.

(** A flush that dies in its last month's append loses nothing. *)
Lemma flush_all_conserves_witness :
  let s := store02 (Some (DB (db_of [[x01]]))) {[ [x01] ]} in
  let out := FlushAll scan_all 2 1 7 elements pool02 "hdd" s (repeat Done 30 ++ [Crashed]) in
  out.1.1 = Panic /\
  forall m x, held_at s (month_path (activeDir pool02) m) x ->
    held_at out.1.2 (month_path (activeDir pool02) m) x \/ held_at out.1.2 (month_path "hdd" m) x.
Proof.
  cbv zeta. split; [vm_compute; reflexivity|].
  refine (proj1 (proj2 (proj2 (flush_all_conserves scan_all 2 1 7 elements pool02 "hdd" _ _ _ _ _
    scan_all_sound ltac:(lia) ltac:(lia) ltac:(done) pool02_sep _ store02_sound (surjective_pairing_3 _))))).
  intros m. apply store02_active.
Defined.

Lemma flush_all_completes_witness :
  let s := store02 (Some (DB (db_of [[x01]]))) {[ [x01] ]} in
  exists s', FlushAll scan_all 2 1 7 elements pool02 "hdd" s [] = (Ok (mkPool ∅ "data/active", None), s', []) /\
    forall m, m ∈ pool_dbs pool02 -> dbs s' !! month_path (activeDir pool02) m = None /\
      forall x, held_at s (month_path (activeDir pool02) m) x -> held_at s' (month_path "hdd" m) x.
Proof.
  apply (flush_all_completes scan_all 2 1 7 elements pool02 "hdd" (store02 (Some (DB (db_of [[x01]]))) {[ [x01] ]})
    scan_all_sound (fun d => eq_refl) ltac:(lia) ltac:(lia) ltac:(done) pool02_sep).
  - intros m. apply store02_active.
  - apply store02_sound.
  - intros m _. rewrite store02_arch. by case_decide.
Defined.

(** A dedup set that names a hash the archive does not hold makes a successful
    flush drop that certificate: it is neither archived nor kept. *)
Lemma stale_set_loses_rows :
  let out := FlushAll scan_all 2 1 7 elements pool02 "hdd" (store02 (Some (DB (db_of [[x01]]))) {[ [x01]; [x02] ]}) [] in
  out.1.1 = Ok (mkPool ∅ "data/active", None) /\
  dbs out.1.2 !! "data/active/2025-02/subjects.db" = None /\
  match dbs out.1.2 !! "hdd/2025-02/subjects.db" with Some (DB d) => hashes d = [[x01]] | _ => False end.
Proof. split; [|split]; vm_compute; reflexivity. Qed.

(** A crash while a new month is copied leaves a torn archive file, and later
    flushes of that month keep failing. *)
Lemma torn_new_month :
  let out := FlushAll scan_all 2 1 7 elements pool02 "hdd" (store02 None ∅) (repeat Done 10 ++ [Crashed]) in
  out.1.1 = Panic /\ dbs out.1.2 !! "hdd/2025-02/subjects.db" = Some Torn /\
  match FlushAll scan_all 2 1 7 elements pool02 "hdd" out.1.2 [] with
  | (Ok (_, Some _), s, _) => dbs s !! "hdd/2025-02/subjects.db" = Some Torn
  | _ => False
  end.
Proof. split; [|split]; vm_compute; reflexivity. Qed.
