(* ===== verification/Seal.v ===== *)
(** Sealing an archive month (internal/db/dedup.go SealMonth, MigrateArchiveMonth):
    the in-place DELETE and the rebuild through fresh unique indexes are both the
    reference "keep the first row of each certificate". *)

From stdpp Require Import infinite.
From S2P Require Import Prelude GoStd FileSys Sql SubjectDB Dedup DedupLive.

#[local] Open Scope sql_scope.

(** ** Specification *)

(** The rows in order, without those whose certificate occurred before. *)
Fixpoint keep_first (seen : list bytes) (rs : list row) : list row :=
  match rs with
  | [] => []
  | r :: rs =>
      match cert_hash r with
      | Some h => if bool_decide (h ∈ seen) then keep_first seen rs else r :: keep_first (h :: seen) rs
      | None => r :: keep_first seen rs
      end
  end.

(** ** Lemmas *)

Lemma keep_first_ext rs s1 s2 : (forall h, h ∈ s1 <-> h ∈ s2) -> keep_first s1 rs = keep_first s2 rs.
Proof.
  revert s1 s2. induction rs as [|r rs IH]; intros s1 s2 He; cbn [keep_first]; [done|].
  destruct (cert_hash r) as [h|]; [|by rewrite (IH s1 s2)].
  rewrite (bool_decide_ext _ _ (He h)). case_bool_decide; [by apply IH|]. f_equal. apply IH.
  intros x. by rewrite !elem_of_cons, He.
Qed.

Lemma tile_keys_all d : tile_keys d = omap tile_key (all_rows d).
Proof. unfold tile_keys, all_rows. induction (rows d) as [|p l IH]; [done|]. cbn. by rewrite IH. Qed.

Lemma hashes_all d : hashes d = omap cert_hash (all_rows d).
Proof. unfold hashes, all_rows. induction (rows d) as [|p l IH]; [done|]. cbn. by rewrite IH. Qed.

Lemma held_all d d' r : all_rows d = all_rows d' -> held d r -> held d' r.
Proof. intros E. unfold held. by rewrite !hashes_all, !tile_keys_all, E. Qed.

(** INSERT OR IGNORE through the unique indexes, of rows that the tile index, if
    there is one, does not refuse. *)
Lemma insert_all_keep rs e :
  ix_hash e = true -> (ix_tile e = true -> NoDup (tile_keys e ++ omap tile_key rs)) ->
  all_rows (insert_all e rs) = all_rows e ++ keep_first (hashes e) rs.
Proof.
  revert e. induction rs as [|r rs IH]; intros e Hh Hnd; [by rewrite app_nil_r|].
  change (insert_all e (r :: rs)) with (insert_all (insert_or_ignore e r) rs).
  cbn [keep_first].
  assert (Hk : forall k, ix_tile e = true -> tile_key r = Some k -> k ∉ tile_keys e).
  { intros k Ht E Hin. specialize (Hnd Ht). cbn in Hnd. rewrite E in Hnd. apply NoDup_app in Hnd as (_ & Hd & _).
    apply (Hd k Hin). by left. }
  assert (Hc : conflicts e r = match cert_hash r with Some h => bool_decide (h ∈ hashes e) | None => false end).
  { unfold conflicts. rewrite Hh. destruct (tile_key r) as [k|] eqn:E; cbn; [|by destruct (cert_hash r)].
    destruct (ix_tile e) eqn:Et; [|by destruct (cert_hash r)].
    rewrite bool_decide_eq_false_2 by (by apply Hk). by destruct (cert_hash r). }
  assert (Hnd' : ix_tile e = true -> NoDup (tile_keys e ++ omap tile_key rs)).
  { intros Ht. specialize (Hnd Ht). cbn in Hnd. destruct (tile_key r); [|done].
    apply NoDup_app in Hnd as (H1 & H2 & H3). apply NoDup_cons in H3 as [_ H3].
    apply NoDup_app. split_and!; [done| |done]. intros x Hx Hin. apply (H2 x Hx). by right. }
  unfold insert_or_ignore. rewrite Hc.
  assert (Hins : all_rows (insert_all (mkDb (rows e ++ [(seq e + 1, r)]) (seq e + 1) (ix_tile e) (ix_hash e) (ix_query e)) rs)
                 = all_rows e ++ r :: keep_first (hashes e ++ option_list (cert_hash r)) rs).
  { rewrite IH; [|done|].
    - rewrite hashes_snoc. unfold all_rows at 1. cbn. rewrite map_app, <- app_assoc. done.
    - intros Ht. specialize (Hnd Ht). rewrite tile_keys_snoc, <- app_assoc. cbn in Hnd. by destruct (tile_key r). }
  destruct (cert_hash r) as [h|]; [case_bool_decide|].
  - by apply IH.
  - rewrite Hins. do 2 f_equal. apply keep_first_ext. intros x. cbn. set_solver.
  - rewrite Hins. cbn. by rewrite app_nil_r.
Qed.

(** DELETE of the rows with a lower-rowid twin. *)
Lemma compact_keep l1 l2 :
  StronglySorted Z.lt ((l1 ++ l2).*1) ->
  map snd (filter (fun p => has_twin (l1 ++ l2) p = false) l2) =
  keep_first (omap (fun p => cert_hash p.2) l1) (map snd l2).
Proof.
  revert l1. induction l2 as [|p l2 IH]; intros l1 Hs; [done|].
  assert (Ht : has_twin (l1 ++ p :: l2) p =
               match cert_hash p.2 with Some h => bool_decide (h ∈ omap (fun p => cert_hash p.2) l1) | None => false end).
  { unfold has_twin. destruct (cert_hash p.2) as [h|]; [|done]. apply eq_bool_prop_intro.
    rewrite bool_decide_spec. unfold Is_true.
    assert (Hsp : forall q, q ∈ l1 -> q.1 < p.1).
    { intros q Hq. clear -Hs Hq. induction l1 as [|x l1 IH]; [by apply elem_of_nil in Hq|]. cbn in Hs.
      apply StronglySorted_inv in Hs as [Hs Hf]. apply elem_of_cons in Hq as [->|Hq]; [|by apply IH].
      rewrite fmap_app in Hf. cbn in Hf. apply Forall_app in Hf as [_ Hf]. by apply Forall_cons in Hf as [? _]. }
    assert (Hge : forall q, q ∈ p :: l2 -> p.1 <= q.1).
    { intros q Hq. clear -Hs Hq. induction l1 as [|x l1 IH]; cbn in Hs; apply StronglySorted_inv in Hs as [Hs Hf]; [|by apply IH].
      apply elem_of_cons in Hq as [->|Hq]; [lia|]. rewrite Forall_forall in Hf.
      assert (p.1 < q.1) by (apply Hf, list_elem_of_fmap; by exists q). lia. }
    rewrite list_elem_of_omap. destruct (existsb _ _) eqn:E.
    - apply existsb_exists in E as (q & Hq%list_elem_of_In & [Hq1%bool_decide_eq_true Hq2%Z.ltb_lt]%andb_true_iff).
      split; [|done]. intros _. exists q. split; [|done]. apply elem_of_app in Hq as [Hq|Hq]; [done|]. specialize (Hge q Hq). lia.
    - split; [done|]. intros (q & Hq & Hc). apply not_true_iff_false in E. apply E, existsb_exists. exists q.
      split; [apply list_elem_of_In, elem_of_app; by left|]. apply andb_true_iff. split; [by apply bool_decide_eq_true|].
      apply Z.ltb_lt. by apply Hsp. }
  assert (Hrest : map snd (filter (fun q => has_twin (l1 ++ p :: l2) q = false) l2) =
                  keep_first (omap (fun p => cert_hash p.2) (l1 ++ [p])) (map snd l2)).
  { rewrite (cons_middle p l1 l2), app_assoc. apply IH. by rewrite <- app_assoc. }
  cbn [map keep_first]. rewrite filter_cons, Ht.
  destruct (cert_hash p.2) as [h|] eqn:Eh; [case_bool_decide as Hin|].
  - rewrite decide_False by done. rewrite Hrest. apply keep_first_ext. intros x. rewrite omap_app, elem_of_app.
    cbn. rewrite Eh. rewrite list_elem_of_singleton. split; [|tauto]. intros [?| ->]; done.
  - rewrite decide_True by done. cbn [map]. f_equal. rewrite Hrest. apply keep_first_ext. intros x. rewrite omap_app, elem_of_app.
    cbn. rewrite Eh, list_elem_of_singleton, elem_of_cons. tauto.
  - rewrite decide_True by done. cbn [map]. f_equal. rewrite Hrest. apply keep_first_ext. intros x. rewrite omap_app, elem_of_app.
    cbn. rewrite Eh. rewrite elem_of_nil. tauto.
Qed.

Lemma compact_all d : db_wf d -> all_rows (compact d) = keep_first [] (all_rows d).
Proof. intros Hw. exact (compact_keep [] (rows d) (wf_ids d Hw)). Qed.

Lemma rebuilt_all d :
  db_wf d -> ix_tile d = true -> all_rows (insert_all (empty_db true true) (all_rows d)) = keep_first [] (all_rows d).
Proof.
  intros Hw Ht. rewrite insert_all_keep; [done|done|]. intros _. cbn. rewrite <- tile_keys_all. by apply Hw.
Qed.

Lemma compact_le d : db_good d -> db_le d (compact d).
Proof.
  intros [Hw Ho] r Hr. apply (held_all (insert_all (empty_db false true) (all_rows d))).
  - by rewrite insert_all_keep, compact_all.
  - by apply (copy_le _ d).
Qed.

Lemma keep_first_nodup seen rs :
  NoDup (omap cert_hash (keep_first seen rs)) /\ forall h, h ∈ seen -> h ∉ omap cert_hash (keep_first seen rs).
Proof.
  revert seen. induction rs as [|r rs IH]; intros seen; cbn; [split; [constructor|by intros h _ ?%elem_of_nil]|].
  destruct (cert_hash r) as [h|] eqn:E; cbn; [case_bool_decide as Hb; [by apply IH|]|]; cbn; rewrite ?E; [|by apply IH].
  destruct (IH (h :: seen)) as [H1 H2]. split.
  - apply NoDup_cons. split; [|done]. apply H2. by left.
  - intros x Hx [->|Hin]%elem_of_cons; [done|]. apply (H2 x); [by right|done].
Qed.

(** Without duplicates there is nothing to drop. *)
Lemma keep_first_id seen rs :
  NoDup (omap cert_hash rs) -> (forall h, h ∈ omap cert_hash rs -> h ∉ seen) -> keep_first seen rs = rs.
Proof.
  revert seen. induction rs as [|r rs IH]; intros seen Hnd Hs; cbn in *; [done|].
  destruct (cert_hash r) as [h|]; [|by rewrite IH].
  apply NoDup_cons in Hnd as [Hh Hnd]. rewrite bool_decide_eq_false_2 by (apply Hs; by left).
  f_equal. apply IH; [done|]. intros x Hx [->|Hin]%elem_of_cons; [done|]. apply (Hs x); [by right|done].
Qed.

Lemma keep_first_hashes d h : h ∈ omap cert_hash (keep_first [] (all_rows d)) -> h ∈ hashes d.
Proof.
  rewrite hashes_all. generalize (@nil bytes). induction (all_rows d) as [|r rs IH]; intros seen; [done|].
  cbn. destruct (cert_hash r) as [x|] eqn:E; cbn; [case_bool_decide as Hb; cbn; rewrite ?E|rewrite E]; try apply IH.
  - intros Hx%IH. by right.
  - intros [->|Hx%IH]%elem_of_cons; [by left|by right].
Qed.

Section SealSpec.

Context (pid : Z) (emptySrc archive dedup : string) (s0 : store).
Hypothesis Hdb : db_file emptySrc /\ db_file archive.
Hypothesis Hne : emptySrc <> archive.
Hypothesis Hpid : 0 <= pid.

(** *** In place *)

(** The archive holds a month of the same certificates. *)
Definition sealing (d : db) (s : store) : Prop :=
  exists d', dbs s !! archive = Some (DB d') /\ db_le d d' /\ db_good d'.

(** The archive is sealed: the reference rows behind the unique index. *)
Definition sealed (d : db) (s : store) : Prop :=
  exists d', dbs s !! archive = Some (DB d') /\ db_le d d' /\ db_good d' /\ ix_hash d' = true /\
    (ix_tile d = true -> all_rows d' = keep_first [] (all_rows d)).

Lemma sealed_sealing d s : sealed d s -> sealing d s.
Proof. intros (d' & ? & ? & ? & ? & _). by exists d'. Qed.

Lemma rebuild_index_wp d s :
  dbs s !! archive = Some (DB d) -> db_good d ->
  wp (rebuildUniqueCertHash archive) (fun r s' => sealing d s' /\ (r = Ok tt -> sealed d s')) s.
Proof.
  intros Hd Hg. assert (Hs : sealing d s) by (by exists d).
  assert (Hset : forall d', dbs (set_db archive (DB d') s) !! archive = Some (DB d')) by (intros d'; rewrite dbs_set; by case_decide).
  assert (Hseal : forall d' s', dbs s' !! archive = Some (DB d') -> db_le d d' -> db_good d' ->
             all_rows d' = keep_first [] (all_rows d) -> NoDup (hashes d') ->
             wp (update archive create_hash_index) (fun r s' => sealing d s' /\ (r = Ok tt -> sealed d s')) s').
  { intros d' s' Hd' Hle Hg' Hr Hnd. assert (Hs' : sealing d s') by (by exists d').
    apply (wp_update archive _ _ _ d'); [done|by split..|]. unfold create_hash_index.
    rewrite (bool_decide_eq_true_2 _ Hnd). destruct (ix_hash d') eqn:E.
    - assert (sealed d (set_db archive (DB d') s')); [|split; [by apply sealed_sealing|done]].
      exists d'. split; [rewrite dbs_set; by case_decide|done].
    - assert (sealed d (set_db archive (DB (set_ix_hash true d')) s')); [|split; [by apply sealed_sealing|done]].
      exists (set_ix_hash true d'). split; [rewrite dbs_set; by case_decide|]. split; [done|]. split; [|done].
      destruct Hg' as [Hw' Ho']. split; [|done]. apply wf_flags; [done|done|by apply Hw']. }
  unfold rebuildUniqueCertHash.
  apply wp_bind, wp_attempt, (wp_update archive _ _ _ d); [done|by apply wp_fail|by split|].
  assert (Hok : forall d', rows d' = rows d -> db_good d' -> ix_hash d' = true ->
    sealed d (set_db archive (DB d') s)).
  { intros d' Hr Hg' Hh. exists d'. split; [apply Hset|].
    assert (Ha : all_rows d' = all_rows d) by (unfold all_rows; by rewrite Hr).
    split_and!; try done; [by apply db_le_same|]. rewrite Ha. symmetry. apply keep_first_id.
    - rewrite <- Ha, <- hashes_all. by apply Hg'.
    - intros h _. by apply not_elem_of_nil. }
  unfold create_hash_index at 1. destruct (ix_hash d) eqn:Eh.
  { apply wp_ret. pose proof (Hok d eq_refl Hg Eh). split; [by apply sealed_sealing|done]. }
  case_bool_decide as Hnd.
  { apply wp_ret. assert (sealed d (set_db archive (DB (set_ix_hash true d)) s)); [|split; [by apply sealed_sealing|done]].
    apply Hok; try done. destruct Hg as [Hw Ho]. split; [|done]. apply wf_flags; [done|done|apply Hw]. }
  cbn [String.eqb Ascii.eqb Bool.eqb negb ErrUnique].
  apply wp_bind, wp_wrap, wp_nop; [by split..|]. cbn [wrap_err].
  pose proof (compact_all d (proj1 Hg)) as Hc. pose proof (compact_le d Hg) as Hle.
  assert (Hgc : db_good (compact d)) by (by apply filter_good).
  apply wp_bind, wp_wrap, (wp_update archive _ _ _ d); [done|by split..|]. cbn [wrap_err].
  set (s1 := set_db archive (DB (compact d)) s).
  assert (Hs1 : sealing d s1) by (exists (compact d); split; [apply Hset|done]).
  apply wp_bind, wp_wrap, wp_nop; [by split..|]. cbn [wrap_err].
  apply wp_wrap. eapply wp_mono; [apply (Hseal (compact d)); try done; [apply Hset|]|by intros [[]|e|] s' [? ?]].
  rewrite hashes_all, Hc. apply keep_first_nodup.
Qed.

Lemma seal_inplace_wp d s :
  dbs s !! archive = Some (DB d) -> db_good d ->
  wp (let@ _ := rebuildUniqueCertHash archive in
      wrapM "seal build query index" (exec_each archive queryIndexNames create_query_index))
     (fun r s' => sealing d s' /\ (r = Ok tt -> sealed d s')) s.
Proof.
  intros Hd Hg. apply wp_bind. eapply wp_mono; [by apply rebuild_index_wp|].
  intros [[]|e|] s1 [H1 H2]; [|by split..]. specialize (H2 eq_refl).
  apply wp_mono with (Q := fun _ s' => sealed d s'); [|intros r s' H'; by split; [apply sealed_sealing|]].
  revert H2. apply pres_wrap. induction queryIndexNames as [|n names IH]; [apply pres_ret|].
  apply pres_bind; [|done]. apply pres_update.
  intros s2 d2 d2' (d' & Hd' & Hle & Hg' & Hh & Hr) Hd2 [= <-]. assert (d' = d2) as -> by congruence.
  destruct (query_index_spec n d2) as (E & G & T & Hx). exists (create_query_index n d2).
  split_and!; [rewrite dbs_set; by case_decide| |by apply G|congruence|].
  - etransitivity; [exact Hle|by apply db_le_same].
  - intros Ht. rewrite <- (Hr Ht). unfold all_rows. by rewrite E.
Qed.

(** *** On scratch *)

#[local] Abbreviation at_m := (at_month emptySrc archive dedup s0 (empty_db true true)).

#[local] Instance seal_inv : MonthInv archive at_m.
Proof. by apply at_month_inv. Qed.

Definition sealed_db (d dn : db) : Prop :=
  db_le d dn /\ db_good dn /\ ix_hash dn = true /\ (ix_tile d = true -> all_rows dn = keep_first [] (all_rows d)).

Lemma merged_wp d bp s :
  ~ db_file bp -> db_good d -> at_m d s ->
  wp (buildMergedSubjectDB archive emptySrc bp) (fun r s' => at_m d s' /\
     (r = Ok tt -> exists dn, at_build (at_month emptySrc archive dedup s0 (empty_db true true)) d bp dn s' /\ sealed_db d dn)) s.
Proof.
  intros Hbp Hg Hs. unfold buildMergedSubjectDB. apply wp_bind, wp_nop; [by split..|].
  apply wp_bind, wp_wrap. eapply wp_mono; [by apply (create_schema_wp archive (at_month emptySrc archive dedup s0 (empty_db true true)) d)|].
  intros [[]|e|] s1 [H1 E1]; cbn [wrap_err]; [|by split..]. specialize (E1 eq_refl).
  do 2 (apply wp_bind, wp_wrap, wp_nop; [by split..|]; cbn [wrap_err]).
  apply wp_bind, wp_wrap. eapply wp_mono.
  { apply (insert_select_wp archive (at_month emptySrc archive dedup s0 (empty_db true true)) d bp (empty_db true true) archive d);
      [done|apply Hdb|by split|apply H1]. }
  intros [[]|e|] s2 [H2 E2]; cbn [wrap_err]; [|by split..]. destruct (E2 eq_refl) as [H3 _].
  set (dn := insert_all (empty_db true true) (all_rows d)) in *.
  pose proof H2 as (_ & (a & Ha & Hra & _) & _).
  apply wp_bind, wp_wrap. eapply wp_mono.
  { apply (insert_select_wp archive (at_month emptySrc archive dedup s0 (empty_db true true)) d bp dn emptySrc a);
      [done|apply Hdb|done|done]. }
  intros [[]|e|] s3 [H4 E4]; cbn [wrap_err]; [|by split..]. destruct (E4 eq_refl) as [H5 _].
  replace (insert_all dn (all_rows a)) with dn in H5 by (unfold all_rows; by rewrite Hra).
  apply wp_nop; [by split..|]. split; [done|]. intros _. exists dn. split; [done|].
  destruct (insert_flags (empty_db true true) (all_rows d)) as (_ & F2 & _).
  split_and!; [by apply copy_le, Hg|by apply insert_all_good; [apply empty_good|apply Hg]|exact F2|].
  intros Ht. apply rebuilt_all; [apply Hg|done].
Qed.

Definition built (d : db) (bp : string) (s : store) : Prop :=
  exists dn, at_build (at_month emptySrc archive dedup s0 (empty_db true true)) d bp dn s /\ sealed_db d dn.

Lemma index_build_pres d bp : ~ db_file bp -> pres (built d bp) (BuildQueryIndexes bp).
Proof.
  intros Hbp. unfold BuildQueryIndexes. apply pres_bind; [auto with pres|intros _]. apply pres_wrap.
  induction queryIndexNames as [|n names IH]; [apply pres_ret|]. apply pres_bind; [|done]. apply pres_update.
  intros s d1 d2 (dn & [Hs Hb] & (Hle & Hg & Hh & Hr)) Hd1 [= <-]. assert (d1 = dn) as -> by congruence.
  destruct (query_index_spec n dn) as (E & G & T & Hx). exists (create_query_index n dn).
  split; [split; [by apply at_month_other|rewrite dbs_set; by case_decide]|].
  split_and!; [|by apply G|congruence|].
  - etransitivity; [exact Hle|by apply db_le_same].
  - intros Ht. rewrite <- (Hr Ht). unfold all_rows. by rewrite E.
Qed.

Lemma merge_scratch_wp d scratchDir s :
  db_good d -> at_m d s ->
  wp (MergeSubjectDBsScratch pid emptySrc archive scratchDir)
     (fun r s' => at_m d s' /\ r <> Ok tt \/ exists dn, at_m dn s' /\ sealed_db d dn) s.
Proof.
  intros Hg Hs. apply (scratch_wp pid archive (at_month emptySrc archive dedup s0 (empty_db true true)) Hpid d (sealed_db d)); [by intros dn [? _]| |done].
  intros bp s1 Hbp H1. apply wp_bind. eapply wp_mono; [by apply merged_wp|].
  intros [[]|e|] s2 [H2 Hb]; [|by split..]. specialize (Hb eq_refl).
  apply wp_mono with (Q := fun _ s' => built d bp s');
    [|intros r s' (dn & Ha & HP); split; [apply Ha|intros _; by exists dn]].
  refine (pres_bind (built d bp) _ _ (pres_attempt _ _ (index_build_pres d bp Hbp)) _ s2 Hb). auto with pres.
Qed.

(** *** The empty source *)

Lemma open_empty_wp d s :
  dbs s !! archive = Some (DB d) -> dbs s !! emptySrc = None -> frame emptySrc archive dedup s0 s ->
  (forall h, h ∈ seen_of dedup s -> h ∈ hashes d) ->
  wp (OpenSubjectDB emptySrc) (fun r s' => dbs s' !! archive = Some (DB d) /\ (r = Ok tt -> at_m d s')) s.
Proof.
  intros Hd Hn Hf Hs.
  assert (Hset : forall a s', rows a = [] -> db_good a -> dbs s' !! archive = Some (DB d) ->
     frame emptySrc archive dedup s0 s' -> seens s' = seens s -> at_m d (set_db emptySrc (DB a) s')).
  { intros a s' Hr Ha Hd' Hf' Es. split_and!.
    - by apply frame_set; [right|].
    - exists a. split; [rewrite dbs_set; by case_decide|]. by rewrite Hr.
    - rewrite dbs_set. by case_decide.
    - intros h. unfold seen_of in *. cbn. rewrite Es. apply Hs. }
  unfold OpenSubjectDB. apply wp_bind, wp_wrap, wp_bind, wp_step; [by split..|]. rewrite Hn. cbn [fst snd].
  set (s1 := set_db emptySrc (DB (empty_db false false)) s).
  assert (Hd1 : dbs s1 !! archive = Some (DB d)) by (unfold s1; rewrite dbs_set; by case_decide).
  assert (Hf1 : frame emptySrc archive dedup s0 s1) by (by apply frame_set; [right|]).
  apply (wp_update emptySrc _ _ _ (empty_db false false)); [unfold s1; rewrite dbs_set; by case_decide|by split..|].
  unfold create_tile_index at 1. cbn [ix_tile empty_db]. rewrite bool_decide_eq_true_2 by constructor. cbn [wrap_err].
  set (I := fun s' => exists a, rows a = [] /\ db_good a /\ ix_tile a = true /\ dbs s' !! emptySrc = Some (DB a) /\ at_m d s').
  assert (HI : I (set_db emptySrc (DB (set_ix_tile true (empty_db false false))) s1)).
  { assert (db_good (set_ix_tile true (empty_db false false))) by (split; [apply empty_wf|constructor]).
    eexists. split_and!; [| | |rewrite dbs_set; by case_decide|by apply Hset]; done. }
  assert (Hpost : forall (r : res unit) s', I s' -> dbs s' !! archive = Some (DB d) /\ (r = Ok tt -> at_m d s')).
  { intros r s' (a & _ & _ & _ & _ & Hat). split; [apply Hat|done]. }
  assert (Hupd : forall f, (forall a a', rows a = [] -> db_good a -> ix_tile a = true -> f a = Ok a' -> rows a' = [] /\ db_good a' /\ ix_tile a' = true) ->
     pres I (attempt (update emptySrc f))).
  { intros f Hfa. apply pres_attempt, pres_update. intros s' a a' (a1 & Hr & Ha & Hta & Hda & Hat) Hda' E.
    assert (a1 = a) as -> by congruence. destruct (Hfa a a' Hr Ha Hta E) as (Hr' & Ha' & Hta').
    exists a'. split_and!; [done..|rewrite dbs_set; by case_decide|].
    destruct Hat as (F & K & D & S). split_and!; [by apply frame_set; [right|]| | |done].
    - exists a'. split; [rewrite dbs_set; by case_decide|]. by rewrite Hr'.
    - rewrite dbs_set. by case_decide. }
  apply wp_mono with (Q := fun _ s' => I s'); [|exact Hpost]. revert HI. apply pres_bind; [|intros _; apply pres_bind; [|auto with pres]].
  - apply Hupd. intros a a' Hr Ha Hta. unfold create_tile_index. rewrite Hta. by intros [= <-].
  - apply Hupd. intros a a' Hr Ha Hta. unfold create_hash_index. destruct (ix_hash a); [by intros [= <-]|].
    case_bool_decide as Hnd; [|done]. intros [= <-]. split_and!; [done| |done].
    destruct Ha as [Hw Ho]. split; [|done]. apply wf_flags; [done|done|apply Hw].
Qed.

End SealSpec.

(** *** What sealing leaves alone *)

Section SealMonth.

Context (pid : Z) (emptySrc archive : string) (s : store).
Hypothesis Hdb : db_file emptySrc /\ db_file archive.
Hypothesis Hne : emptySrc <> archive.
Hypothesis Hpid : 0 <= pid.

(** Besides the month and the empty source only scratch files are written, and
    the empty source is well-formed or not there. *)
Definition others (s' : store) : Prop :=
  (forall q, db_file q -> q <> archive -> q <> emptySrc -> dbs s' !! q = dbs s !! q) /\ seens s' = seens s /\
  forall d, dbs s' !! emptySrc = Some (DB d) -> db_good d.

Definition writable (p : string) : Prop := db_file p -> p = archive.

Lemma others_set p f s' : writable p -> others s' -> others (set_db p f s').
Proof.
  intros Hp (H1 & H2 & H3). split; [|split; [done|]].
  - intros q Hq Ha He. rewrite dbs_set. case_decide as E; [subst|by apply H1]. by rewrite (Hp Hq) in Ha.
  - intros d. rewrite dbs_set. case_decide as E; [subst|by apply H3]. by destruct Hne; apply Hp, Hdb.
Qed.

Lemma others_del p s' : p = emptySrc \/ writable p -> others s' -> others (del_db p s').
Proof.
  intros Hp (H1 & H2 & H3). split; [|split; [done|]].
  - intros q Hq Ha He. rewrite dbs_del. case_decide as E; [subst|by apply H1]. by destruct Hp as [?|Hp]; [|rewrite (Hp Hq) in Ha].
  - intros d. rewrite dbs_del. case_decide as E; [done|by apply H3].
Qed.

Ltac others :=
  repeat first
    [ assumption
    | apply pres_ret | apply pres_fail | apply pres_nop | apply pres_query | apply pres_stat
    | apply pres_bind; [|intros] | apply pres_attempt | apply pres_wrap
    | apply pres_update; intros ? ? ? ? _ _ | apply pres_remove; intros
    | apply others_set | apply others_del; [first [by left | right]|]
    | match goal with
      | |- pres _ (match ?x with _ => _ end) => destruct x
      | |- pres _ (step_or _ _) => apply pres_step_or; intros; cbn
      | |- pres _ (step _) => apply pres_step; intros; cbn
      | |- others _ => repeat case_match; cbn; solve [assumption | by apply others_set | by apply others_set, others_del; [|right|]]
      end ].

Lemma exec_each_others p names f : writable p -> pres others (exec_each p names f).
Proof. intros Hp. induction names; cbn [exec_each]; others. Qed.

Lemma open_others : pres others (OpenSubjectDB emptySrc).
Proof.
  intros s' (H1 & H2 & H3). eapply wp_mono; [by apply (open_grown emptySrc s'); [|apply db_grown_refl]|].
  intros r s'' [G1 G2 _ _ _ G3 _ _]. split; [|split; [congruence|done]]. intros q Hq Ha He. rewrite G1 by done. by apply H1.
Qed.

Lemma copy_others src dst : writable dst -> pres others (copySubjectDB src dst).
Proof. intros Hp. unfold copySubjectDB. others. Qed.

Lemma remove_files_others p : writable p -> pres others (removeDBFiles p).
Proof. intros Hp. unfold removeDBFiles. others. Qed.

Lemma rename_others a b : writable a -> writable b -> pres others (rename a b).
Proof. intros Ha Hb. unfold rename. others. Qed.

Lemma merged_others bp : writable bp -> pres others (buildMergedSubjectDB archive emptySrc bp).
Proof. intros Hp. unfold buildMergedSubjectDB, create_schema, insert_select, attach. others. Qed.

Lemma scratch_others scratchDir tag build :
  (forall bp, writable bp -> pres others (build bp)) -> pres others (scratchRebuildArchive pid archive scratchDir tag build).
Proof.
  intros Hbuild s1 H1. unfold scratchRebuildArchive. set (hdd := (archive +:+ ".new." +:+ dec pid)%string).
  assert (Hh : writable hdd).
  { intros Hd. exfalso. revert Hd. unfold hdd. rewrite <- str_app_assoc. by apply not_db_file_dec. }
  assert (Ha : writable archive) by done.
  apply wp_bind. apply wp_mono with (Q := fun r s' => others s' /\ forall bp c, r = Ok (bp, c) -> writable bp).
  - destruct (String.eqb scratchDir ""); [apply wp_ret; split; [done|by intros ? ? [= <- _]]|].
    assert (Hb : writable (Join scratchDir (Base (Dir archive) +:+ "." +:+ tag +:+ "." +:+ dec pid))).
    { intros Hd. exfalso. revert Hd. unfold Join. rewrite <- !str_app_assoc. by apply not_db_file_dec. }
    apply wp_bind, wp_attempt, wp_nop; [|done|]; apply wp_ret; (split; [done|]); by intros ? ? [= <- _].
  - intros [[bp cross]|e|] s2 [H2 Hw]; [|done..]. specialize (Hw bp cross eq_refl).
    pose proof (Hbuild bp Hw). pose proof (remove_files_others bp Hw). pose proof (rename_others bp _ Hw Ha).
    pose proof (rename_others hdd _ Hh Ha). pose proof (copy_others bp _ Hh).
    revert s2 H2. change (pres others (let@ _ := removeDBFiles bp in
      let@ r := attempt (build bp) in
      match r with
      | inl _ =>
          if negb cross then rename bp archive else
          let@ r := attempt (copySubjectDB bp hdd) in
          match r with
          | inl _ => let@ _ := removeDBFiles bp in rename hdd archive
          | inr e => let@ _ := removeDBFiles bp in let@ _ := attempt (remove hdd) in fail (Wrap "copy rebuilt month to archive fs" e)
          end
      | inr e => let@ _ := removeDBFiles bp in fail e
      end)). others.
Qed.

Lemma seal_others scratchDir : pres others (SealMonth pid emptySrc archive scratchDir).
Proof.
  assert (Ha : writable archive) by done.
  pose proof open_others. pose proof (fun p => exec_each_others p queryIndexNames create_query_index).
  unfold SealMonth, MergeSubjectDBsScratch, rebuildUniqueCertHash, BuildQueryIndexes.
  assert (pres others (scratchRebuildArchive pid archive scratchDir "merge" (fun bp =>
    let@ _ := buildMergedSubjectDB archive emptySrc bp in
    let@ _ := attempt (let@ _ := nop in wrapM "create index" (exec_each bp queryIndexNames create_query_index)) in
    ret tt))).
  { apply scratch_others. intros bp Hbp. pose proof (merged_others bp Hbp). pose proof (exec_each_others bp queryIndexNames create_query_index Hbp). others. }
  others.
Qed.

Lemma seal_month_wp scratchDir d :
  dbs s !! archive = Some (DB d) -> db_good d -> dbs s !! emptySrc = None ->
  wp (SealMonth pid emptySrc archive scratchDir)
     (fun r s' => sealing archive d s' /\ (r = Ok tt -> sealed archive d s')) s.
Proof.
  intros Hd Hg Hempty.
  assert (Hs : sealing archive d s) by (by exists d).
  unfold SealMonth. apply wp_bind, wp_wrap, wp_step; [by split..|]. rewrite Hd. cbn [fst snd wrap_err].
  destruct (negb _).
  2: { apply wp_bind, wp_wrap, wp_nop; [by split..|]. apply wp_bind, wp_nop; [by split..|]. by apply seal_inplace_wp. }
  apply wp_bind, wp_wrap, wp_nop; [by split..|]. cbn [wrap_err].
  set (dedup := infinite_fresh (elements (dom (D := gset string) (seens s)))).
  assert (Hseen : seen_of dedup s = ∅).
  { unfold seen_of. assert (seens s !! dedup = None) as ->; [|done]. apply (not_elem_of_dom (D := gset string)). rewrite <- elem_of_elements. apply infinite_is_fresh. }
  apply wp_bind, wp_wrap. eapply wp_mono.
  { apply (open_empty_wp emptySrc archive dedup s Hne d s); [done|done|by split|]. rewrite Hseen. set_solver. }
  intros [[]|e|] s1 [H1 Hat]; cbn [wrap_err]; [|split; [by exists d|done]..]. specialize (Hat eq_refl).
  assert (Hkeep : forall s2, at_month emptySrc archive dedup s (empty_db true true) d s2 -> sealing archive d s2)
    by (intros s2 (_ & _ & ? & _); by exists d).
  apply (wp_bind_pres (at_month emptySrc archive dedup s (empty_db true true) d)); [auto with pres|done|
    intros; split; intros; (split; [by apply Hkeep|done])|]. intros _ s2 H2.
  assert (Hdel : forall (b : bool) s3, (if b then sealed archive d s3 else sealing archive d s3) ->
    (if b then sealed archive d (del_db emptySrc s3) else sealing archive d (del_db emptySrc s3))).
  { intros [] s3 (d' & Hd' & HP); exists d'; (split; [rewrite dbs_del; by case_decide|done]). }
  apply wp_bind, wp_attempt. eapply wp_mono; [by apply (merge_scratch_wp pid emptySrc archive dedup s Hdb Hne Hpid d)|].
  intros r3 s3 H3. assert (Hs3 : sealing archive d s3 /\ (r3 = Ok tt -> sealed archive d s3)).
  { destruct H3 as [[Ha Hr]|(dn & (_ & _ & Hdn & _) & HP)]; [split; [by apply Hkeep|done]|].
    assert (sealed archive d s3) by (exists dn; split; [done|exact HP]). split; [by apply sealed_sealing|done]. }
  destruct Hs3 as [Hs3 Hok]. destruct r3 as [[]|e|]; [| |by split].
  - specialize (Hok eq_refl). apply wp_bind, wp_attempt, wp_step; [by apply wp_ret|by split|].
    apply wp_ret. pose proof (Hdel true s3 Hok). split; [by apply sealed_sealing|done].
  - apply wp_bind, wp_attempt, wp_step; [by apply wp_fail|by split|]. apply wp_fail. split; [by apply (Hdel false)|done].
Qed.

End SealMonth.

(** *** Without failures *)

Lemma seal_inplace_runs (archive : string) d s :
  dbs s !! archive = Some (DB d) -> db_good d ->
  runs (let@ _ := rebuildUniqueCertHash archive in
        wrapM "seal build query index" (exec_each archive queryIndexNames create_query_index)) s.
Proof.
  intros Hd Hg.
  apply (quiet_bind_wp _ _ (fun r s' => sealing archive d s')).
  - eapply wp_mono; [by apply rebuild_index_wp|]. by intros r s' [H _].
  - unfold rebuildUniqueCertHash, runs. unfold create_hash_index at 1.
    destruct (ix_hash d) eqn:Eh; [|destruct (decide (NoDup (hashes d))) as [Hnd|Hnd]].
    + apply quiet_bind, quiet_attempt. eapply (quiet_update archive _ d); [done|by rewrite Eh|by apply quiet_ret].
    + apply quiet_bind, quiet_attempt. eapply (quiet_update archive _ d); [done|by rewrite Eh, bool_decide_eq_true_2|by apply quiet_ret].
    + apply quiet_bind. exists (inr ErrUnique), s. split.
      { unfold attempt, update, step, step_or, read_db. by rewrite Hd, Eh, bool_decide_eq_false_2. }
      cbn [String.eqb Ascii.eqb Bool.eqb negb ErrUnique].
      apply quiet_bind, quiet_wrap, quiet_nop. apply quiet_bind, quiet_wrap.
      eapply (quiet_update archive _ d); [done..|]. apply quiet_bind, quiet_wrap, quiet_nop, quiet_wrap.
      eapply (quiet_update archive _ (compact d)); [rewrite dbs_set; by case_decide| |done].
      unfold create_hash_index. change (ix_hash (compact d)) with (ix_hash d). rewrite Eh.
      by rewrite bool_decide_eq_true_2 by (rewrite hashes_all, compact_all by apply Hg; apply keep_first_nodup).
  - intros u s1 (d' & Hd' & _). apply quiet_wrap. eapply quiet_mono; [by apply (exec_each_quiet archive _ _ d')|done].
Qed.

Lemma open_empty_quiet p s :
  dbs s !! p = None ->
  quiet (OpenSubjectDB p) (fun _ s' => (exists a, dbs s' !! p = Some (DB a)) /\ forall q, q <> p -> dbs s' !! q = dbs s !! q) s.
Proof.
  intros Hn. set (s1 := set_db p (DB (empty_db false false)) s).
  set (s2 := set_db p (DB (empty_db true false)) s1). set (s3 := set_db p (DB (empty_db true false)) s2).
  apply quiet_bind, quiet_wrap, quiet_bind. eapply quiet_step_or; [by rewrite Hn|]. fold s1.
  eapply (quiet_update p _ (empty_db false false) (empty_db true false)); [unfold s1; rewrite dbs_set; by case_decide|done|].
  fold s2. apply quiet_bind, quiet_attempt.
  eapply (quiet_update p _ (empty_db true false) (empty_db true false)); [unfold s2; rewrite dbs_set; by case_decide|done|].
  fold s3. apply quiet_bind, quiet_attempt.
  eapply (quiet_update p _ (empty_db true false) (empty_db true true)); [unfold s3; rewrite dbs_set; by case_decide|done|].
  apply quiet_ret. split; [eexists; rewrite dbs_set; by case_decide|].
  intros q Hq. unfold s3, s2, s1. rewrite !dbs_set. by case_decide.
Qed.

Lemma merged_quiet src archive bp d a s :
  bp <> archive -> bp <> src -> dbs s !! archive = Some (DB d) -> dbs s !! src = Some (DB a) -> dbs s !! bp = None ->
  quiet (buildMergedSubjectDB archive src bp) (fun _ s' => exists dn, dbs s' !! bp = Some (DB dn)) s.
Proof.
  intros H1 H2 Hd Ha Hn. apply quiet_bind, quiet_nop.
  apply quiet_bind, quiet_wrap. eapply quiet_mono; [by apply create_schema_quiet|]. intros _ s1 ->.
  do 2 apply quiet_bind, quiet_wrap, quiet_nop. apply quiet_bind, quiet_wrap.
  eapply quiet_mono; [apply (insert_select_quiet bp archive (empty_db true true) d)|].
  1, 2: rewrite dbs_set; by case_decide.
  intros _ s2 ->. apply quiet_bind, quiet_wrap.
  eapply quiet_mono; [apply (insert_select_quiet bp src (insert_all (empty_db true true) (all_rows d)) a)|].
  1, 2: rewrite !dbs_set; by repeat case_decide.
  intros _ s3 ->. apply quiet_nop. eexists. rewrite dbs_set. by case_decide.
Qed.

Lemma merge_runs pid src archive scratchDir d a s :
  db_file src -> db_file archive -> 0 <= pid ->
  dbs s !! archive = Some (DB d) -> dbs s !! src = Some (DB a) ->
  runs (MergeSubjectDBsScratch pid src archive scratchDir) s.
Proof.
  intros Hsrc Harch Hpid Hd Ha. apply (scratch_runs pid archive Hpid); [done|].
  intros bp s1 Hbp Hq Hn. apply quiet_bind. eapply quiet_mono.
  - apply (merged_quiet src archive bp d a); [by intros -> |by intros -> |by rewrite Hq..|done].
  - intros u s2 [dn Hdn]. apply quiet_bind, quiet_attempt, quiet_bind, quiet_nop, quiet_wrap.
    eapply quiet_mono; [by apply (exec_each_quiet bp _ _ dn)|]. intros u' s3 [H3 _]. by apply quiet_ret.
Qed.

(** ** Properties *)

(** C8. SealMonth, in place or by a rebuild on scratch, under any failure or
    crash: the archive month stays readable and keeps every certificate, and no
    other database changes. When it reports success the month's certificates are
    behind the unique index, and if its tile positions were too, its rows are
    exactly the reference "first row of each certificate", in order. So both ways
    of sealing agree. *)
Theorem seal_month_exact (pid : Z) (emptySrc archive scratchDir : string) (s s' : store) (d : db)
  (fl fl' : list outcome) (r : res unit)
  (Hdb : db_file emptySrc /\ db_file archive) (Hne : emptySrc <> archive) (Hpid : 0 <= pid)
  (Hd : dbs s !! archive = Some (DB d)) (Hg : db_good d) (Hempty : dbs s !! emptySrc = None)
  (Hrun : SealMonth pid emptySrc archive scratchDir s fl = (r, s', fl')) :
  (forall q, db_file q -> q <> archive -> q <> emptySrc -> dbs s' !! q = dbs s !! q) /\
  exists d', dbs s' !! archive = Some (DB d') /\ db_le d d' /\
    (r = Ok tt -> ix_hash d' = true /\ NoDup (hashes d') /\
       (ix_tile d = true -> all_rows d' = keep_first [] (all_rows d))).
Proof.
  pose proof (seal_month_wp pid emptySrc archive s Hdb Hne Hpid scratchDir d Hd Hg Hempty) as Hw.
  assert (Hs : others emptySrc archive s s) by (split_and!; [done..|by rewrite Hempty]).
  pose proof (seal_others pid emptySrc archive s Hdb Hne Hpid scratchDir s Hs) as Ho.
  pose proof (wp_run _ _ _ _ _ _ _ Ho Hrun) as (Hq & _). split; [done|].
  pose proof (wp_run _ _ _ _ _ _ _ Hw Hrun) as [(d' & Hd' & Hle & _) Hok].
  destruct r as [[]|e|]; [|by exists d'..].
  destruct (Hok eq_refl) as (d2 & Hd2 & Hle2 & Hg2 & Hh & Hr). exists d2. split_and!; try done.
  intros _. split_and!; try done. by apply Hg2.
Qed.

(** When nothing fails SealMonth succeeds, in place and on scratch, on any
    readable month: duplicates never make it fail. *)
Theorem seal_month_completes (pid : Z) (emptySrc archive scratchDir : string) (s : store) (d : db)
  (Hdb : db_file emptySrc /\ db_file archive) (Hne : emptySrc <> archive) (Hpid : 0 <= pid)
  (Hd : dbs s !! archive = Some (DB d)) (Hg : db_good d)
  (Hempty : dbs s !! emptySrc = None) :
  exists s', SealMonth pid emptySrc archive scratchDir s [] = (Ok tt, s', []).
Proof.
  assert (runs (SealMonth pid emptySrc archive scratchDir) s) as ([] & s' & E & _); [|by exists s'].
  unfold SealMonth. apply quiet_bind, quiet_wrap. eapply quiet_step_or; [by rewrite Hd|].
  destruct (negb _).
  - apply quiet_bind, quiet_wrap, quiet_nop. apply quiet_bind, quiet_wrap.
    eapply quiet_mono; [by apply open_empty_quiet|]. intros u s1 [[a Ha] Hq].
    apply quiet_bind, quiet_attempt, quiet_nop. apply quiet_bind, quiet_attempt.
    eapply quiet_mono; [apply (merge_runs pid emptySrc archive scratchDir d a); [apply Hdb|apply Hdb|done|by rewrite Hq|done]|].
    intros u2 s2 _. apply quiet_bind, quiet_attempt, quiet_remove. by apply quiet_ret.
  - apply quiet_bind, quiet_wrap, quiet_nop. apply quiet_bind, quiet_nop. by apply (seal_inplace_runs archive d).
Qed.

(** ** Witnesses *)

(** A month with a duplicate certificate, as a retried flush leaves it. *)
Definition dup_month : db := insert_all (empty_db true false) (map plain_row [[x01]; [x02]; [x01]]).
Definition dup_store : store := mkStore {["hdd/2025-02/subjects.db" := DB dup_month]} ∅ ∅ ∅ [].

Lemma dup_month_good : db_good dup_month.
Proof. apply insert_all_good; [apply empty_good|]. repeat constructor; by right. Qed.

Lemma seal_paths : db_file "hdd/2025-02/.seal-src-1/subjects.db" /\ db_file "hdd/2025-02/subjects.db".
Proof. split; [by exists "hdd/2025-02/.seal-src-1/subjects"|by exists "hdd/2025-02/subjects"]. Qed.

Definition dup_arch (s : store) : list bytes :=
  match dbs s !! "hdd/2025-02/subjects.db" with Some (DB d) => hashes d | _ => [] end.

(** Both ways of sealing drop the same row. *)
Example sealed_both_ways :
  dup_arch (SealMonth 1 "hdd/2025-02/.seal-src-1/subjects.db" "hdd/2025-02/subjects.db" "" dup_store []).1.2 = [[x01]; [x02]] /\
  dup_arch (SealMonth 1 "hdd/2025-02/.seal-src-1/subjects.db" "hdd/2025-02/subjects.db" "ssd" dup_store []).1.2 = [[x01]; [x02]].
Proof. split; vm_compute; reflexivity. Qed.

Lemma seal_month_exact_witness :
  let out := SealMonth 1 "hdd/2025-02/.seal-src-1/subjects.db" "hdd/2025-02/subjects.db" "ssd" dup_store (repeat Done 5 ++ [Crashed]) in
  out.1.1 = Panic /\
  exists d', dbs out.1.2 !! "hdd/2025-02/subjects.db" = Some (DB d') /\ db_le dup_month d'.
Proof.
  cbv zeta. split; [vm_compute; reflexivity|].
  destruct (seal_month_exact 1 "hdd/2025-02/.seal-src-1/subjects.db" "hdd/2025-02/subjects.db" "ssd" dup_store _ dup_month
    (repeat Done 5 ++ [Crashed]) _ _ seal_paths ltac:(discriminate) ltac:(lia) eq_refl dup_month_good eq_refl
    (surjective_pairing_3 _)) as (_ & d' & H1 & H2 & _).
  exists d'. exact (conj H1 H2).
Defined.

Lemma seal_month_completes_witness :
  exists s', SealMonth 1 "hdd/2025-02/.seal-src-1/subjects.db" "hdd/2025-02/subjects.db" "" dup_store [] = (Ok tt, s', []).
Proof.
  apply (seal_month_completes 1 "hdd/2025-02/.seal-src-1/subjects.db" "hdd/2025-02/subjects.db" "" dup_store dup_month
    seal_paths ltac:(discriminate) ltac:(lia) eq_refl dup_month_good eq_refl).
Defined.
