(* ===== verification/FlushFrame.v ===== *)
(** FlushAll writes subjects databases and dedup sets only: the progress and
    issuer tables and the log lines of the workers are as before, whatever fails. *)

From S2P Require Import Prelude GoStd FileSys Sql SubjectDB Dedup.

#[local] Open Scope sql_scope.

(** The tables outside the archive and the pools. *)
Definition tables_kept (s0 s : store) : Prop :=
  progs s = progs s0 /\ issdbs s = issdbs s0 /\ logged s = logged s0.

(** Binds, attempts and statements that only write databases and dedup sets. *)
Ltac tables :=
  repeat first
    [ assumption
    | apply pres_ret | apply pres_fail | apply pres_nop | apply pres_query | apply pres_stat
    | apply pres_bind; [|intros] | apply pres_attempt | apply pres_wrap
    | apply pres_update; intros ? ? ? ? _ _; assumption
    | apply pres_remove; intros; assumption
    | match goal with
      | |- pres _ (match ?x with _ => _ end) => destruct x
      | |- pres _ (step_or _ _) => apply pres_step_or; intros; cbn
      | |- pres _ (step _) => apply pres_step; intros; cbn
      | |- tables_kept _ _ => repeat case_match; assumption
      end ].

Section FlushFrame.

Context (scan : db -> res (list bytes)) (batchSize appendBatchRows pid : Z) (s0 : store).

#[local] Abbreviation kept := (pres (tables_kept s0)).

Lemma open_dedup_tables path : kept (OpenDedupStore path).
Proof. unfold OpenDedupStore. tables. Qed.

Lemma count_tables path : kept (Count path).
Proof. unfold Count. tables. Qed.

Lemma seed_flush_tables path batch : kept (seed_flush path batch).
Proof.
  assert (He : forall b, kept (seed_execs b)) by (induction b; cbn [seed_execs]; tables).
  unfold seed_flush. specialize (He batch). tables.
Qed.

Lemma seed_loop_tables path hs batch fe : kept (seed_loop batchSize path hs batch fe).
Proof.
  revert batch fe. induction hs as [|h hs IH]; intros batch fe; cbn [seed_loop]; [tables|].
  destruct fe; [apply IH|]. destruct (batchSize <=? _); [|apply IH].
  apply pres_bind; [apply pres_attempt, seed_flush_tables|]. intros [u|e]; apply IH.
Qed.

Lemma populate_tables path archive : kept (PopulateFromArchive scan batchSize path archive).
Proof.
  unfold PopulateFromArchive. apply pres_bind; [tables|]. intros [u|e]; [|apply count_tables].
  apply pres_bind; [tables|]. intros hs. apply pres_bind; [apply seed_loop_tables|]. intros [batch [e|]]; [tables|].
  apply pres_bind; [apply pres_wrap, seed_flush_tables|]. intros _. apply count_tables.
Qed.

Lemma exec_each_tables path names f : kept (exec_each path names f).
Proof. induction names; cbn [exec_each]; tables. Qed.

Lemma append_loop_tables fuel archive src seen start hi :
  kept (append_loop appendBatchRows fuel archive src seen start hi).
Proof.
  revert start. induction fuel as [|fuel IH]; intros start; cbn [append_loop]; [tables|].
  specialize (IH (start + appendBatchRows)). destruct (start <=? hi); tables.
Qed.

Lemma append_tables active archive dedup : kept (appendDedupedNewRows appendBatchRows active archive dedup).
Proof.
  unfold appendDedupedNewRows. do 4 (apply pres_bind; [tables|intros _]).
  apply pres_bind; [tables|intros seen]. apply pres_bind; [tables|intros has]. destruct (negb has); [tables|].
  apply pres_bind; [tables|intros [[lo hi]|]]; [|tables].
  apply pres_bind; [apply pres_wrap, exec_each_tables|intros _].
  apply pres_bind; [tables|intros src]. apply append_loop_tables.
Qed.

Lemma remove_files_tables path : kept (removeDBFiles path).
Proof. unfold removeDBFiles. tables. Qed.

Lemma rename_tables a b : kept (rename a b).
Proof. unfold rename. tables. Qed.

Lemma copy_tables src dst : kept (copySubjectDB src dst).
Proof. unfold copySubjectDB. tables. Qed.

Lemma heap_tables existing new : kept (buildIndexFreeHeap existing new).
Proof. unfold buildIndexFreeHeap, create_schema, insert_select, attach. tables. Qed.

Lemma migrate_tables archive scratchDir : kept (migrateMonthToAppendOnly pid archive scratchDir).
Proof.
  unfold migrateMonthToAppendOnly, scratchRebuildArchive.
  pose proof remove_files_tables. pose proof rename_tables. pose proof copy_tables. pose proof heap_tables.
  apply pres_bind; [destruct (String.eqb _ _); tables|]. intros [buildPath crossFS].
  apply pres_bind; [auto|intros _]. apply pres_bind; [by apply pres_attempt|]. intros [u|e].
  - destruct (negb crossFS); [auto|]. apply pres_bind; [by apply pres_attempt|]. intros [u'|e'].
    + apply pres_bind; [auto|intros _; auto].
    + apply pres_bind; [auto|intros _]. tables.
  - apply pres_bind; [auto|intros _]. tables.
Qed.

Lemma flush_deduped_tables active archive dedup scratchDir :
  kept (FlushMonthDeduped scan batchSize appendBatchRows pid active archive dedup scratchDir).
Proof.
  unfold FlushMonthDeduped, CloseDedup, hasCertHashIndex.
  pose proof open_dedup_tables. pose proof count_tables. pose proof populate_tables.
  pose proof migrate_tables. pose proof append_tables.
  apply pres_bind; [auto|intros _]. apply pres_bind; [auto|intros n].
  apply pres_bind; [destruct (n =? 0); [apply pres_bind; [auto|tables]|tables]|intros _].
  apply pres_bind; [tables|intros _]. apply pres_bind; [tables|intros hasIdx].
  apply pres_bind; [destruct hasIdx; [by apply pres_wrap|tables]|intros _].
  apply pres_bind; [auto|intros _]. apply pres_bind; [auto|intros _]. tables.
Qed.

Lemma flush_files_tables active archive dedup scratchDir :
  kept (flush_files scan batchSize appendBatchRows pid active archive dedup scratchDir).
Proof.
  unfold flush_files. pose proof flush_deduped_tables. pose proof copy_tables. pose proof open_dedup_tables.
  pose proof populate_tables. pose proof exec_each_tables.
  do 2 (apply pres_bind; [tables|intros _]). apply pres_bind; [tables|intros st].
  assert (kept (let@ _ := attempt (BuildQueryIndexes active) in
                let@ _ := copySubjectDB active archive in
                let@ r := attempt (OpenDedupStore dedup) in
                match r with
                | inr _ => ret tt
                | inl _ =>
                    let@ _ := attempt (PopulateFromArchive scan batchSize dedup archive) in
                    let@ _ := attempt CloseDedup in
                    ret tt
                end)).
  { unfold BuildQueryIndexes, CloseDedup. apply pres_bind; [apply pres_attempt; apply pres_bind; [tables|intros _; auto with pres]|intros _].
    apply pres_bind; [auto|intros _]. apply pres_bind; [auto with pres|]. intros [u|e]; [|tables].
    apply pres_bind; [auto with pres|intros _]. tables. }
  apply pres_bind; [|intros _; tables]. destruct st as [u|[]]; auto.
Qed.

(** FlushAll keeps every other table. *)
Lemma flush_all_tables map_order p root : kept (FlushAll scan batchSize appendBatchRows pid map_order p root).
Proof.
  unfold FlushAll. apply pres_bind; [|intros; tables]. generalize (map_order (pool_dbs p)) (@None error).
  induction l as [|m l IH]; intros fe; cbn [flush_months]; [tables|].
  apply pres_bind; [apply pres_attempt, flush_files_tables|]. intros r. apply IH.
Qed.

End FlushFrame.
