(* ===== verification/RowsFrame.v ===== *)
(** Where the rows of the databases come from: a flush moves rows between
    databases and an insert adds those of its batch, so a property that all rows
    have, and those of the inserted batches, is never lost, whatever fails. *)

From S2P Require Import Prelude GoStd FileSys Sql SubjectDB Dedup.

#[local] Open Scope sql_scope.

(** ** Results that carry a property *)

(** [m] keeps [I], and what it returns satisfies [R]. *)
Definition yielding (I : store -> Prop) {A} (m : M A) (R : A -> Prop) : Prop :=
  forall s, I s -> wp m (fun r s' => I s' /\ forall a, r = Ok a -> R a) s.

Lemma pres_bind_yielding (I : store -> Prop) {A B} (m : M A) (k : A -> M B) (R : A -> Prop) :
  yielding I m R -> (forall a, R a -> pres I (k a)) -> pres I (bindM m k).
Proof.
  intros Hm Hk s H. apply wp_bind. eapply wp_mono; [by apply Hm|]. intros [a|e|] s' [H' Ha]; [by apply Hk; [apply Ha|]|done..].
Qed.

Lemma yielding_wrap (I : store -> Prop) {A} msg (m : M A) R : yielding I m R -> yielding I (wrapM msg m) R.
Proof. intros Hm s H. apply wp_wrap. eapply wp_mono; [by apply Hm|]. intros [a|e|] s' [H' Ha]; cbn; split; done || auto. Qed.

Lemma yielding_attempt (I : store -> Prop) {A} (m : M A) R :
  yielding I m R -> yielding I (attempt m) (fun r => match r with inl a => R a | inr _ => True end).
Proof.
  intros Hm s H. apply wp_attempt. eapply wp_mono; [by apply Hm|].
  intros [a|e|] s' [H' Ha]; split; try done; intros ? [= <-]; auto.
Qed.

Lemma yielding_step (I : store -> Prop) {A} (f : store -> res A * store) (R : A -> Prop) :
  (forall s, I s -> I (f s).2 /\ forall a, (f s).1 = Ok a -> R a) -> yielding I (step f) R.
Proof. intros Hf s H. apply wp_step; [done..|]. by apply Hf. Qed.

Lemma yielding_bind (I : store -> Prop) {A B} (m : M A) (k : A -> M B) (R : A -> Prop) (R' : B -> Prop) :
  yielding I m R -> (forall a, R a -> yielding I (k a) R') -> yielding I (bindM m k) R'.
Proof. intros Hm Hk s H. apply wp_bind. eapply wp_mono; [by apply Hm|]. intros [a|e|] s' [H' Ha]; [by apply Hk; [apply Ha|]|done..]. Qed.

Lemma yielding_ret (I : store -> Prop) {A} (a : A) (R : A -> Prop) : R a -> yielding I (ret a) R.
Proof. intros Ha s H. apply wp_ret. split; [done|]. by intros ? [= <-]. Qed.

Lemma yielding_pres (I : store -> Prop) {A} (m : M A) : pres I m -> yielding I m (fun _ => True).
Proof. intros Hm s H. eapply wp_mono; [by apply Hm|]. done. Qed.

Lemma pres_yielding (I : store -> Prop) {A} (m : M A) R : yielding I m R -> pres I m.
Proof. intros Hm s H. eapply wp_mono; [by apply Hm|]. by intros r s' [? _]. Qed.

(** Statements that write no subjects database. *)
Ltac unwritten :=
  repeat first
    [ assumption
    | apply pres_ret | apply pres_fail | apply pres_nop | apply pres_query | apply pres_stat
    | apply pres_bind; [|intros] | apply pres_attempt | apply pres_wrap
    | match goal with
      | |- pres _ (match ?x with _ => _ end) => destruct x
      | |- pres _ (step _) => apply pres_step; intros; cbn
      end
    | solve [repeat case_match; assumption] ].

Section Rows.

Context (P : row -> Prop).

Definition db_clean (d : db) : Prop := forall r, r ∈ all_rows d -> P r.
Definition file_clean (f : dbfile) : Prop := match f with DB d => db_clean d | Torn => True end.

(** All rows of all databases have the property. *)
Definition clean (s : store) : Prop := forall p d, dbs s !! p = Some (DB d) -> db_clean d.

Lemma clean_file s p f : clean s -> dbs s !! p = Some f -> file_clean f.
Proof. intros Hs E. destruct f as [d|]; [by eapply Hs|done]. Qed.

Lemma clean_set s p f : clean s -> file_clean f -> clean (set_db p f s).
Proof. intros Hs Hf q d. rewrite dbs_set. case_decide; [intros [= ->]; exact Hf|apply Hs]. Qed.

Lemma clean_del s p : clean s -> clean (del_db p s).
Proof. intros Hs q d. rewrite dbs_del. case_decide; [done|apply Hs]. Qed.

Lemma clean_dbs s s' : dbs s' = dbs s -> clean s -> clean s'.
Proof. intros E Hs p d. rewrite E. apply Hs. Qed.

Lemma same_rows_clean d d' : rows d' = rows d -> db_clean d -> db_clean d'.
Proof. unfold db_clean, all_rows. by intros ->. Qed.

Lemma empty_clean t h : db_clean (empty_db t h).
Proof. by intros r ?%elem_of_nil. Qed.

Lemma insert_clean d r : db_clean d -> P r -> db_clean (insert_or_ignore d r).
Proof.
  intros Hd Hr. unfold insert_or_ignore. destruct (conflicts d r); [done|]. intros x. unfold all_rows. cbn [rows]. rewrite map_app.
  intros [Hx|Hx]%elem_of_app; [by apply Hd|]. by apply list_elem_of_singleton in Hx as ->.
Qed.

Lemma insert_all_clean d rs : db_clean d -> (forall r, r ∈ rs -> P r) -> db_clean (insert_all d rs).
Proof.
  revert d. induction rs as [|r rs IH]; intros d Hd Hrs; [done|]. change (insert_all d (r :: rs)) with (insert_all (insert_or_ignore d r) rs).
  apply IH; [apply insert_clean; [done|apply Hrs; by left]|]. intros x Hx. apply Hrs. by right.
Qed.

Lemma batch_rows_clean d seen a b : db_clean d -> forall r, r ∈ batch_rows d seen a b -> P r.
Proof.
  intros Hd r (p & -> & Hp)%list_elem_of_fmap. apply list_elem_of_filter in Hp as [_ Hp]. apply Hd. by apply list_elem_of_fmap_2.
Qed.

Lemma create_tile_clean d d' : create_tile_index d = Ok d' -> rows d' = rows d.
Proof. unfold create_tile_index. repeat case_match; by intros [= <-]. Qed.

Lemma create_hash_clean d d' : create_hash_index d = Ok d' -> rows d' = rows d.
Proof. unfold create_hash_index. repeat case_match; by intros [= <-]. Qed.

Lemma create_query_rows n d : rows (create_query_index n d) = rows d.
Proof. unfold create_query_index. by case_match. Qed.

Lemma drop_rows n d : rows (drop_index n d) = rows d.
Proof. unfold drop_index. by case_match. Qed.

#[local] Abbreviation kept := (pres clean).

(** An update that keeps the rows. *)
Lemma update_rows_clean p (f : db -> res db) : (forall d d', f d = Ok d' -> rows d' = rows d) -> kept (update p f).
Proof.
  intros Hf. apply pres_update. intros s d d' Hs Hd E. apply clean_set; [done|]. eapply same_rows_clean; [by eapply Hf|by eapply Hs].
Qed.

Lemma read_clean p : yielding clean (query p id) db_clean.
Proof.
  apply yielding_step. intros s Hs. unfold read_db. destruct (dbs s !! p) as [[d|]|] eqn:E; cbn; split; try done. intros a [= <-]. by eapply Hs.
Qed.

Lemma exec_each_clean path names f : (forall n d, rows (f n d) = rows d) -> kept (exec_each path names f).
Proof.
  intros Hf. induction names as [|n names IH]; cbn [exec_each]; [apply pres_ret|]. apply pres_bind; [|done].
  apply update_rows_clean. by intros d d' [= <-].
Qed.

Lemma remove_clean p : kept (remove p).
Proof. apply pres_remove. intros s. apply clean_del. Qed.

Lemma rename_clean a b : kept (rename a b).
Proof.
  apply pres_step. intros s Hs. destruct (dbs s !! a) as [f|] eqn:E; cbn; [|done].
  apply clean_set; [by apply clean_del|by eapply clean_file].
Qed.

Lemma copy_clean src dst : kept (copySubjectDB src dst).
Proof.
  unfold copySubjectDB. eapply (pres_bind_yielding _ _ _ file_clean).
  { apply yielding_step. intros s Hs. destruct (dbs s !! src) as [f|] eqn:E; cbn; split; try done. intros a [= <-]. by eapply clean_file. }
  intros f Hf. apply pres_bind; [by apply pres_step_or; [|intros s Hs; apply clean_set]|intros _].
  apply pres_bind; [apply pres_attempt, pres_step; intros s Hs; by apply clean_set|]. intros [u|e]; [apply pres_nop|].
  apply pres_bind; [apply pres_attempt, remove_clean|intros _; apply pres_fail].
Qed.

Lemma create_schema_clean p h : kept (create_schema p h).
Proof. apply pres_step. intros s Hs. destruct (dbs s !! p); cbn; [done|]. apply clean_set; [done|apply empty_clean]. Qed.

Lemma insert_select_clean dst src : kept (insert_select dst src).
Proof.
  apply pres_step_or; [intros s Hs; by apply clean_set|]. intros s Hs. unfold read_db.
  destruct (dbs s !! src) as [[ds|]|] eqn:E1, (dbs s !! dst) as [[dd|]|] eqn:E2; cbn; try done.
  apply clean_set; [done|]. apply insert_all_clean; [by eapply Hs|]. by eapply Hs.
Qed.

Lemma heap_clean existing new : kept (buildIndexFreeHeap existing new).
Proof.
  unfold buildIndexFreeHeap, attach. pose proof create_schema_clean. pose proof insert_select_clean. auto 10 with pres.
Qed.

Lemma remove_files_clean p : kept (removeDBFiles p).
Proof. unfold removeDBFiles. pose proof remove_clean. auto with pres. Qed.

Lemma query_indexes_clean p : kept (BuildQueryIndexes p).
Proof. unfold BuildQueryIndexes. pose proof (exec_each_clean p queryIndexNames _ create_query_rows). auto with pres. Qed.

(** *** Opening and inserting *)

Lemma open_clean p : kept (OpenSubjectDB p).
Proof.
  unfold OpenSubjectDB. pose proof (update_rows_clean p _ create_tile_clean). pose proof (update_rows_clean p _ create_hash_clean).
  assert (kept (create_table p)).
  { apply pres_step. intros s Hs. destruct (dbs s !! p) as [[d|]|]; cbn; try done. apply clean_set; [done|apply empty_clean]. }
  auto 10 with pres.
Qed.

Lemma get_or_open_clean p m : kept (GetOrOpen p m).
Proof. unfold GetOrOpen. pose proof open_clean. case_match; auto with pres. Qed.

Lemma exec_inserts_clean subjects d : db_clean d -> (forall x, x ∈ subjects -> P (subject_row x)) ->
  yielding clean (exec_inserts d subjects) db_clean.
Proof.
  revert d. induction subjects as [|x subjects IH]; intros d Hd Hx s Hs; cbn [exec_inserts].
  { apply wp_ret. split; [done|]. by intros ? [= <-]. }
  apply wp_bind, wp_wrap, wp_nop; [by split..|]. apply IH; [|intros y Hy; apply Hx; by right|done].
  apply insert_clean; [done|]. apply Hx. by left.
Qed.

Lemma insert_batch_clean path subjects : (forall x, x ∈ subjects -> P (subject_row x)) -> kept (InsertSubjectBatch path subjects).
Proof.
  intros Hx. destruct subjects as [|x xs]; [apply pres_ret|]. unfold InsertSubjectBatch.
  eapply pres_bind_yielding; [apply yielding_wrap, read_clean|]. intros d Hd. apply pres_bind; [auto with pres|intros _].
  eapply pres_bind_yielding; [by apply exec_inserts_clean|]. intros d' Hd'. apply pres_update. intros s d0 d1 Hs _ [= <-]. by apply clean_set.
Qed.

Lemma insert_months_clean p subjects months : (forall x, x ∈ subjects -> P (subject_row x)) -> kept (insert_months p subjects months).
Proof.
  intros Hx. revert p. induction months as [|m months IH]; intros p; cbn [insert_months]; [apply pres_ret|].
  apply pres_bind; [apply pres_attempt, get_or_open_clean|]. intros [p'|e]; [|apply pres_ret].
  apply pres_bind; [|intros [u|e]; [apply IH|apply pres_ret]]. apply pres_attempt, insert_batch_clean.
  intros x [_ H]%list_elem_of_filter. by apply Hx.
Qed.

(** *** The flush *)

Section Flush.

Context (scan : db -> res (list bytes)) (batchSize appendBatchRows pid : Z).

Lemma append_loop_clean fuel archive src seen start hi : db_clean src ->
  kept (append_loop appendBatchRows fuel archive src seen start hi).
Proof.
  intros Hsrc. revert start. induction fuel as [|fuel IH]; intros start; cbn [append_loop]; [apply pres_fail|].
  destruct (start <=? hi); [|apply pres_ret]. apply pres_bind; [auto with pres|intros _].
  eapply pres_bind_yielding.
  { apply yielding_attempt, (yielding_step clean _ db_clean). intros s Hs. unfold read_db.
    destruct (dbs s !! archive) as [[d|]|] eqn:E; cbn; split; try done. intros a [= <-]. apply insert_all_clean; [by eapply Hs|].
    by apply batch_rows_clean. }
  intros [d'|e] Hd'; [|apply pres_bind; [auto with pres|intros _; apply pres_fail]].
  apply pres_bind; [|intros _; apply IH]. apply pres_wrap, pres_update. intros s d0 d1 Hs _ [= <-]. by apply clean_set.
Qed.

Lemma append_clean active archive dedup : kept (appendDedupedNewRows appendBatchRows active archive dedup).
Proof.
  unfold appendDedupedNewRows. do 4 (apply pres_bind; [auto 10 with pres|intros _]).
  apply pres_bind; [by apply pres_step|intros seen]. apply pres_bind; [auto with pres|intros has]. destruct (negb has); [apply pres_ret|].
  apply pres_bind; [auto with pres|intros [[lo hi]|]]; [|apply pres_ret].
  apply pres_bind; [apply pres_wrap, exec_each_clean, drop_rows|intros _].
  eapply pres_bind_yielding; [apply read_clean|]. intros src Hsrc. by apply append_loop_clean.
Qed.

Lemma migrate_clean archive scratchDir : kept (migrateMonthToAppendOnly pid archive scratchDir).
Proof.
  unfold migrateMonthToAppendOnly, scratchRebuildArchive.
  pose proof remove_files_clean. pose proof rename_clean. pose proof copy_clean. pose proof heap_clean. pose proof remove_clean.
  apply pres_bind; [destruct (String.eqb _ _); [apply pres_ret|apply pres_bind; [auto with pres|intros [u|e]; apply pres_ret]]|].
  intros [buildPath crossFS].
  apply pres_bind; [auto|intros _]. apply pres_bind; [by apply pres_attempt|]. intros [u|e].
  - destruct (negb crossFS); [auto|]. apply pres_bind; [by apply pres_attempt|]. intros [u'|e']; [auto with pres|].
    apply pres_bind; [auto|intros _]. apply pres_bind; [auto with pres|intros _; apply pres_fail].
  - apply pres_bind; [auto|intros _]. apply pres_fail.
Qed.

Lemma open_dedup_clean path : kept (OpenDedupStore path).
Proof. unfold OpenDedupStore. unwritten. Qed.

Lemma count_clean path : kept (Count path).
Proof. unfold Count. unwritten. Qed.

Lemma seed_flush_clean path batch : kept (seed_flush path batch).
Proof.
  assert (He : forall b, kept (seed_execs b)) by (induction b; cbn [seed_execs]; unwritten).
  unfold seed_flush. specialize (He batch). unwritten.
Qed.

Lemma seed_loop_clean path hs batch fe : kept (seed_loop batchSize path hs batch fe).
Proof.
  revert batch fe. induction hs as [|h hs IH]; intros batch fe; cbn [seed_loop]; [unwritten|].
  destruct fe; [apply IH|]. destruct (batchSize <=? _); [|apply IH].
  apply pres_bind; [apply pres_attempt, seed_flush_clean|]. intros [u|e]; apply IH.
Qed.

Lemma populate_clean path archive : kept (PopulateFromArchive scan batchSize path archive).
Proof.
  unfold PopulateFromArchive. apply pres_bind; [unwritten|]. intros [u|e]; [|apply count_clean].
  apply pres_bind; [unwritten|]. intros hs. apply pres_bind; [apply seed_loop_clean|]. intros [batch [e|]]; [unwritten|].
  apply pres_bind; [apply pres_wrap, seed_flush_clean|]. intros _. apply count_clean.
Qed.

Lemma flush_deduped_clean active archive dedup scratchDir :
  kept (FlushMonthDeduped scan batchSize appendBatchRows pid active archive dedup scratchDir).
Proof.
  unfold FlushMonthDeduped, CloseDedup, hasCertHashIndex.
  pose proof open_dedup_clean. pose proof count_clean. pose proof populate_clean.
  pose proof migrate_clean. pose proof append_clean.
  apply pres_bind; [auto|intros _]. apply pres_bind; [auto|intros n].
  apply pres_bind; [destruct (n =? 0); [apply pres_bind; [auto|unwritten]|unwritten]|intros _].
  apply pres_bind; [unwritten|intros _]. apply pres_bind; [unwritten|intros hasIdx].
  apply pres_bind; [destruct hasIdx; [by apply pres_wrap|unwritten]|intros _].
  apply pres_bind; [auto|intros _]. apply pres_bind; [auto|intros _]. unwritten.
Qed.

Lemma flush_files_clean active archive dedup scratchDir :
  kept (flush_files scan batchSize appendBatchRows pid active archive dedup scratchDir).
Proof.
  unfold flush_files, CloseDedup. pose proof flush_deduped_clean. pose proof copy_clean. pose proof open_dedup_clean.
  pose proof populate_clean. pose proof query_indexes_clean. pose proof remove_clean.
  do 2 (apply pres_bind; [unwritten|intros _]). apply pres_bind; [unwritten|intros st].
  apply pres_bind; [|intros _; auto with pres]. destruct st as [u|[]]; try (by apply flush_deduped_clean).
  apply pres_bind; [by apply pres_attempt|intros _]. apply pres_bind; [done|intros _].
  apply pres_bind; [by apply pres_attempt|]. intros [u|e]; [|apply pres_ret].
  apply pres_bind; [by apply pres_attempt|intros _]. unwritten.
Qed.

Lemma flush_all_clean month_order p root : kept (FlushAll scan batchSize appendBatchRows pid month_order p root).
Proof.
  unfold FlushAll. apply pres_bind; [|intros; unwritten]. generalize (month_order (pool_dbs p)) (@None error).
  induction l as [|m l IH]; intros fe; cbn [flush_months]; [apply pres_ret|].
  apply pres_bind; [apply pres_attempt, flush_files_clean|]. intros r. apply IH.
Qed.

End Flush.

End Rows.
