(* ===== verification/Progress.v ===== *)
(** internal/db/progress.go and the issuer table of internal/db/db.go: the runs,
    the per-log cursors and the ca_id of every issuer, one SQL statement per
    step. [now] is the time the call formats. *)

From S2P Require Import Prelude GoStd Sha256 Sql.

#[local] Open Scope sql_scope.

(** ** Definitions *)

(** *** Statements *)

Definition ErrNoTable (t : string) : error := Errorf ("no such table: " +:+ t).

(** A statement on the progress database at [path]. *)
Definition prog_stmt {A} (path : string) (f : progress_db -> res A * progress_db) : M A :=
  step (fun s => match progs s !! path with
                 | Some d => let '(r, d') := f d in (r, set_prog path d' s)
                 | None => (Err (ErrNoTable "log_runs"), s)
                 end).

(** A statement on the issuer database at [path]. *)
Definition iss_stmt {A} (path : string) (f : issuer_db -> res A * issuer_db) : M A :=
  step (fun s => match issdbs s !! path with
                 | Some d => let '(r, d') := f d in (r, set_issdb path d' s)
                 | None => (Err (ErrNoTable "issuers"), s)
                 end).

(** *** OpenProgressDB *)

(** The two CREATE TABLE IF NOT EXISTS make one step: nothing reads a database
    whose opening failed. *)
Definition OpenProgressDB (path : string) : M unit :=
  let@ _ := wrapM "open progress db" nop in
  let@ _ := nop in
  let@ _ := wrapM "create progress tables" nop in
  let@ _ := wrapM "drop cert_log" nop in
  wrapM "create log_runs"
    (step (fun s => (Ok tt, match progs s !! path with
                            | Some _ => s
                            | None => set_prog path (mkProgress [] 0 [] 0) s
                            end))).

(** *** log_runs *)

Record LogRun := mkLogRun {
  LR_ID : Z; LR_LogID : bytes; LR_Description : string; LR_SubmissionURL : string;
  LR_MonitoringURL : string; LR_Protocol : string; LR_Operator : string; LR_State : string;
  NextEntryIdx : Z; TreeSizeAtStart : Z; TotalProcessed : Z; StartedAt : string; UpdatedAt : string }.

Record LogRunInit := mkLogRunInit {
  LI_LogID : bytes; LI_Description : string; LI_SubmissionURL : string; LI_MonitoringURL : string;
  LI_Protocol : string; LI_Operator : string; LI_State : string }.

(** The SELECT with its two COALESCE, scanned; [copy] into a [32]byte. *)
Definition copy32 (b : bytes) : bytes := take 32 b ++ repeat x00 (32 - length b).

Definition scan_log_run (r : log_run_row) : LogRun :=
  mkLogRun (lr_id r) (copy32 (lr_log_id r)) (lr_description r) (lr_submission_url r)
    (default "" (lr_monitoring_url r)) (lr_protocol r) (lr_operator r) (lr_state r)
    (lr_next_entry_idx r) (default 0 (lr_tree_size_at_start r)) (lr_total_processed r)
    (lr_started_at r) (lr_updated_at r).

Definition set_log_runs (f : log_run_row -> log_run_row) (d : progress_db) : progress_db :=
  mkProgress (run_rows d) (runs_seq d) (map f (log_run_rows d)) (log_runs_seq d).

(** UPDATE log_runs SET description=?, … WHERE id=? *)
Definition refresh_row (init : LogRunInit) (now : string) (id : Z) (r : log_run_row) : log_run_row :=
  if lr_id r =? id then
    mkLogRunRow (lr_id r) (lr_log_id r) (LI_Description init) (LI_SubmissionURL init)
      (Some (LI_MonitoringURL init)) (LI_Protocol init) (LI_Operator init) (LI_State init)
      (lr_next_entry_idx r) (lr_tree_size_at_start r) (lr_total_processed r) (lr_started_at r) now
  else r.

Definition refresh_run (init : LogRunInit) (now : string) (r : LogRun) : LogRun :=
  mkLogRun (LR_ID r) (LR_LogID r) (LI_Description init) (LI_SubmissionURL init) (LI_MonitoringURL init)
    (LI_Protocol init) (LI_Operator init) (LI_State init)
    (NextEntryIdx r) (TreeSizeAtStart r) (TotalProcessed r) (StartedAt r) now.

Definition select_log_run (log_id : bytes) (d : progress_db) : option log_run_row :=
  head (filter (fun r => lr_log_id r = log_id) (log_run_rows d)).

(** INSERT INTO log_runs, with its UNIQUE log_id; answers LastInsertId. *)
Definition insert_log_run (init : LogRunInit) (now : string) (d : progress_db) : res Z * progress_db :=
  if bool_decide (LI_LogID init ∈ map lr_log_id (log_run_rows d)) then (Err ErrUnique, d)
  else
    let id := log_runs_seq d + 1 in
    (Ok id, mkProgress (run_rows d) (runs_seq d)
       (log_run_rows d ++ [mkLogRunRow id (LI_LogID init) (LI_Description init) (LI_SubmissionURL init)
          (Some (LI_MonitoringURL init)) (LI_Protocol init) (LI_Operator init) (LI_State init) 0 None 0 now now]) id).

Definition GetOrCreateLogRun (path now : string) (init : LogRunInit) : M LogRun :=
  let@ r := attempt (prog_stmt path (fun d =>
    (match select_log_run (LI_LogID init) d with Some r => Ok (scan_log_run r) | None => Err ErrNoRows end, d))) in
  match r with
  | inl run =>
      let@ _ := wrapM "refresh log_run metadata"
        (prog_stmt path (fun d => (Ok tt, set_log_runs (refresh_row init now (LR_ID run)) d))) in
      ret (refresh_run init now run)
  | inr ErrNoRows =>
      let@ id := wrapM "insert log_run" (prog_stmt path (insert_log_run init now)) in
      ret (mkLogRun id (LI_LogID init) (LI_Description init) (LI_SubmissionURL init) (LI_MonitoringURL init)
             (LI_Protocol init) (LI_Operator init) (LI_State init) 0 0 0 now now)
  | inr e => fail (Wrap "query log_run" e)
  end.

Definition advance_row (log_id : bytes) (next total : Z) (now : string) (r : log_run_row) : log_run_row :=
  if bool_decide (lr_log_id r = log_id) then
    mkLogRunRow (lr_id r) (lr_log_id r) (lr_description r) (lr_submission_url r) (lr_monitoring_url r)
      (lr_protocol r) (lr_operator r) (lr_state r) next (lr_tree_size_at_start r) total (lr_started_at r) now
  else r.

Definition UpdateLogProgress (path now : string) (logID : bytes) (nextEntryIdx totalProcessed : Z) : M unit :=
  wrapM "update log_run progress"
    (prog_stmt path (fun d => (Ok tt, set_log_runs (advance_row logID nextEntryIdx totalProcessed now) d))).

Definition tree_size_row (log_id : bytes) (size : Z) (r : log_run_row) : log_run_row :=
  if bool_decide (lr_log_id r = log_id) &&
     match lr_tree_size_at_start r with None => true | Some n => n =? 0 end then
    mkLogRunRow (lr_id r) (lr_log_id r) (lr_description r) (lr_submission_url r) (lr_monitoring_url r)
      (lr_protocol r) (lr_operator r) (lr_state r) (lr_next_entry_idx r) (Some size) (lr_total_processed r)
      (lr_started_at r) (lr_updated_at r)
  else r.

Definition SetLogTreeSizeAtStart (path : string) (logID : bytes) (treeSize : Z) : M unit :=
  prog_stmt path (fun d => (Ok tt, set_log_runs (tree_size_row logID treeSize) d)).

(** ORDER BY operator, description (BINARY collation); the order of equal keys
    is SQLite's, here that of the table. *)
Definition run_before (a b : log_run_row) : bool :=
  match String.compare (lr_operator a) (lr_operator b) with
  | Lt => true
  | Gt => false
  | Eq => match String.compare (lr_description a) (lr_description b) with Gt => false | _ => true end
  end.

Fixpoint insert_run (r : log_run_row) (l : list log_run_row) : list log_run_row :=
  match l with
  | [] => [r]
  | x :: l' => if run_before r x then r :: l else x :: insert_run r l'
  end.

Definition ListLogRuns (path : string) : M (list LogRun) :=
  prog_stmt path (fun d => (Ok (map scan_log_run (foldr insert_run [] (log_run_rows d))), d)).

(** *** runs *)

Definition select_run (root : string) (d : progress_db) : option run_row :=
  head (filter (fun r => rr_monitoring_root r = root) (run_rows d)).

Definition insert_run_row (root now : string) (d : progress_db) : res Z * progress_db :=
  if bool_decide (root ∈ map rr_monitoring_root (run_rows d)) then (Err ErrUnique, d)
  else
    let id := runs_seq d + 1 in
    (Ok id, mkProgress (run_rows d ++ [mkRunRow id root now now "in_progress" 0 0]) id
              (log_run_rows d) (log_runs_seq d)).

(** The row is the code's Run. *)
Definition GetOrCreateRun (path now monitoringRoot : string) : M run_row :=
  let@ r := attempt (prog_stmt path (fun d =>
    (match select_run monitoringRoot d with Some r => Ok r | None => Err ErrNoRows end, d))) in
  match r with
  | inl run => ret run
  | inr ErrNoRows =>
      let@ id := wrapM "insert run" (prog_stmt path (insert_run_row monitoringRoot now)) in
      ret (mkRunRow id monitoringRoot now now "in_progress" 0 0)
  | inr e => fail (Wrap "query run" e)
  end.

Definition advance_run (id next total : Z) (now : string) (r : run_row) : run_row :=
  if rr_id r =? id then
    mkRunRow (rr_id r) (rr_monitoring_root r) (rr_started_at r) now (rr_status r) next total
  else r.

Definition UpdateProgress (path now : string) (runID nextTileIdx totalProcessed : Z) : M unit :=
  wrapM "update progress"
    (prog_stmt path (fun d => (Ok tt, mkProgress (map (advance_run runID nextTileIdx totalProcessed now) (run_rows d))
                                        (runs_seq d) (log_run_rows d) (log_runs_seq d)))).

Definition GetTotalProcessed (path monitoringRoot : string) : M Z :=
  let@ r := attempt (prog_stmt path (fun d =>
    (match select_run monitoringRoot d with Some r => Ok (rr_total_processed r) | None => Err ErrNoRows end, d))) in
  match r with
  | inl total => ret total
  | inr ErrNoRows => ret 0
  | inr e => fail e
  end.

(** *** issuers *)

Definition OpenIssuerDB (path : string) : M unit :=
  let@ _ := wrapM "open issuer db" nop in
  let@ _ := nop in
  wrapM "create issuers table"
    (step (fun s => (Ok tt, match issdbs s !! path with
                            | Some _ => s
                            | None => set_issdb path (mkIssuerDb [] 0) s
                            end))).

Definition select_issuer (fpHex : string) (d : issuer_db) : option Z :=
  option_map is_ca_id (head (filter (fun r => is_fingerprint r = fpHex) (issuer_rows d))).

Definition insert_issuer (fpHex cn org country : string) (d : issuer_db) : res Z * issuer_db :=
  if bool_decide (fpHex ∈ map is_fingerprint (issuer_rows d)) then (Err ErrUnique, d)
  else
    let id := issuers_seq d + 1 in
    (Ok id, mkIssuerDb (issuer_rows d ++ [mkIssuerRow id fpHex cn org country]) id).

Definition UpsertIssuer (path : string) (fp : bytes) (commonName organization country : string) : M Z :=
  let fpHex := hex_encode fp in
  let@ r := attempt (iss_stmt path (fun d =>
    (match select_issuer fpHex d with Some id => Ok id | None => Err ErrNoRows end, d))) in
  match r with
  | inl caID => ret caID
  | inr ErrNoRows => wrapM "insert issuer" (iss_stmt path (insert_issuer fpHex commonName organization country))
  | inr e => fail (Wrap "query issuer" e)
  end.

(** ** Specifications *)

(** What a log's row counts: next entry, tree size at start, total. *)
Record counters := mkCounters { c_next : Z; c_tree : Z; c_total : Z }.

(** The abstract store of cursors, by log id. *)
Definition row_counters (r : log_run_row) : counters :=
  mkCounters (lr_next_entry_idx r) (default 0 (lr_tree_size_at_start r)) (lr_total_processed r).

Definition cursors (d : progress_db) : gmap bytes counters :=
  list_to_map (map (fun r => (lr_log_id r, row_counters r)) (log_run_rows d)).

Inductive log_call :=
| CallGetOrCreate (init : LogRunInit)
| CallUpdate (logID : bytes) (next total : Z)
| CallSetTree (logID : bytes) (size : Z).

(** What a call that succeeds means. *)
Definition spec_call (c : log_call) (m : gmap bytes counters) : gmap bytes counters :=
  match c with
  | CallGetOrCreate init => match m !! LI_LogID init with
                            | Some _ => m
                            | None => <[LI_LogID init := mkCounters 0 0 0]> m
                            end
  | CallUpdate id next total => alter (fun k => mkCounters next (c_tree k) total) id m
  | CallSetTree id size => alter (fun k => if c_tree k =? 0 then mkCounters (c_next k) size (c_total k) else k) id m
  end.

(** The calls of a session, each at its own time; a failed call is passed over.
    GetOrCreateLogRun answers a run. *)
Definition do_call (path now : string) (c : log_call) : M (option LogRun) :=
  match c with
  | CallGetOrCreate init => let@ run := GetOrCreateLogRun path now init in ret (Some run)
  | CallUpdate id next total => let@ _ := UpdateLogProgress path now id next total in ret None
  | CallSetTree id size => let@ _ := SetLogTreeSizeAtStart path id size in ret None
  end.

Fixpoint session (path : string) (cs : list (string * log_call)) : M (list (option LogRun + error)) :=
  match cs with
  | [] => ret []
  | (now, c) :: cs =>
      let@ r := attempt (do_call path now c) in
      let@ rs := session path cs in
      ret (r :: rs)
  end.

(** What the abstract store answers to a call: the run has the log's counters and
    the caller's metadata. *)
Definition answers (m : gmap bytes counters) (init : LogRunInit) (run : LogRun) : Prop :=
  let k := default (mkCounters 0 0 0) (m !! LI_LogID init) in
  NextEntryIdx run = c_next k /\ TreeSizeAtStart run = c_tree k /\ TotalProcessed run = c_total k /\
  LR_Description run = LI_Description init /\ LR_State run = LI_State init /\ LR_Operator run = LI_Operator init.

Definition spec_answer (m : gmap bytes counters) (c : log_call) (a : option LogRun) : Prop :=
  match c, a with
  | CallGetOrCreate init, Some run => answers m init run
  | CallGetOrCreate _, None => False
  | _, a => a = None
  end.

(** The run of the abstract store that gives these results: a call that succeeds
    has its effect and its answer, a call that fails has neither. *)
Inductive spec_run : list log_call -> list (option LogRun + error) -> gmap bytes counters -> gmap bytes counters -> Prop :=
| run_nil m : spec_run [] [] m m
| run_ok c cs a rs m m' : spec_answer m c a -> spec_run cs rs (spec_call c m) m' -> spec_run (c :: cs) (inl a :: rs) m m'
| run_err c cs e rs m m' : spec_run cs rs m m' -> spec_run (c :: cs) (inr e :: rs) m m'.

Record progress_wf (d : progress_db) : Prop := {
  pw_logs : NoDup (map lr_log_id (log_run_rows d));
  pw_roots : NoDup (map rr_monitoring_root (run_rows d)) }.

Record issuer_wf (d : issuer_db) : Prop := {
  iw_fps : NoDup (map is_fingerprint (issuer_rows d));
  iw_ids : NoDup (map is_ca_id (issuer_rows d));
  iw_seq : Forall (fun i => i <= issuers_seq d) (map is_ca_id (issuer_rows d)) }.

(** ** Lemmas *)

(** *** Statements *)

Lemma progs_set p d s q : progs (set_prog p d s) !! q = if decide (p = q) then Some d else progs s !! q.
Proof. cbn. case_decide as H; [subst; apply lookup_insert_eq|by apply lookup_insert_ne]. Qed.

Lemma wp_prog_stmt {A} path (f : progress_db -> res A * progress_db) Q s d :
  progs s !! path = Some d -> Q (Err ErrSyscall) s -> Q Panic s ->
  Q (f d).1 (set_prog path (f d).2 s) -> wp (prog_stmt path f) Q s.
Proof. intros Hd H1 H2 H3. apply wp_step; [done..|]. rewrite Hd. by destruct (f d). Qed.

Lemma wp_iss_stmt {A} path (f : issuer_db -> res A * issuer_db) Q s d :
  issdbs s !! path = Some d -> Q (Err ErrSyscall) s -> Q Panic s ->
  Q (f d).1 (set_issdb path (f d).2 s) -> wp (iss_stmt path f) Q s.
Proof. intros Hd H1 H2 H3. apply wp_step; [done..|]. rewrite Hd. by destruct (f d). Qed.

(** *** Rows under an update that keeps the key *)

Lemma cursors_lookup d id k :
  progress_wf d -> cursors d !! id = Some k <->
  exists r, r ∈ log_run_rows d /\ lr_log_id r = id /\ row_counters r = k.
Proof.
  intros Hw. unfold cursors. rewrite <- elem_of_list_to_map.
  - rewrite list_elem_of_fmap. split; [intros (r & [= -> ->] & Hr); eauto|].
    intros (r & Hr & <- & <-). by exists r.
  - rewrite <- list_fmap_compose. apply Hw.
Qed.

Lemma set_log_runs_wf f d : (forall r, lr_log_id (f r) = lr_log_id r) -> progress_wf d -> progress_wf (set_log_runs f d).
Proof.
  intros Hf [H1 H2]. split; [|done]. cbn. rewrite map_map.
  by erewrite map_ext by apply Hf.
Qed.

(** An update of one log's row is an [alter] of the abstract store. *)
Lemma cursors_alter f g id d :
  (forall r, lr_log_id (f r) = lr_log_id r) ->
  (forall r, lr_log_id r = id -> row_counters (f r) = g (row_counters r)) ->
  (forall r, lr_log_id r <> id -> row_counters (f r) = row_counters r) ->
  progress_wf d -> cursors (set_log_runs f d) = alter g id (cursors d).
Proof.
  intros Hid Hg Ho Hw. pose proof (set_log_runs_wf f d Hid Hw) as Hw'. apply map_eq. intros i.
  apply option_eq. intros k. rewrite cursors_lookup by done. cbn [set_log_runs log_run_rows].
  rewrite lookup_alter_Some. setoid_rewrite cursors_lookup; [|done..]. split.
  - intros (r & (r0 & -> & Hr)%list_elem_of_fmap & <- & <-). rewrite Hid.
    destruct (decide (lr_log_id r0 = id)) as [E|E]; [left|right]; (split; [done|]).
    + exists (row_counters r0). split; [by exists r0|by apply Hg].
    + exists r0. by rewrite Ho.
  - intros [(-> & k' & (r & Hr & E & <-) & ->)|(E' & r & Hr & E & <-)].
    + exists (f r). rewrite Hid, Hg by done. split; [by apply list_elem_of_fmap_2|done].
    + exists (f r). rewrite Hid, Ho by congruence. split; [by apply list_elem_of_fmap_2|done].
Qed.

Lemma cursors_same f d :
  (forall r, lr_log_id (f r) = lr_log_id r) -> (forall r, row_counters (f r) = row_counters r) ->
  cursors (set_log_runs f d) = cursors d.
Proof.
  intros Hid Hc. unfold cursors. cbn. rewrite map_map. f_equal. apply map_ext. intros r. by rewrite Hid, Hc.
Qed.

Lemma select_none id d : select_log_run id d = None -> id ∉ map lr_log_id (log_run_rows d).
Proof.
  unfold select_log_run. intros H (r & -> & Hr)%list_elem_of_fmap.
  assert (r ∈ filter (fun x => lr_log_id x = lr_log_id r) (log_run_rows d)) as Hin by (by apply list_elem_of_filter).
  destruct (filter _ _); [by apply elem_of_nil in Hin|done].
Qed.

Lemma select_some id d r : select_log_run id d = Some r -> r ∈ log_run_rows d /\ lr_log_id r = id.
Proof.
  unfold select_log_run. intros H%head_Some_elem_of. apply list_elem_of_filter in H as [H1 H2]. done.
Qed.

Lemma set_prog_id p d s : progs s !! p = Some d -> set_prog p d s = s.
Proof. intros H. destruct s. unfold set_prog. cbn in *. by rewrite insert_id. Qed.

Lemma set_prog_twice p d d' s : set_prog p d' (set_prog p d s) = set_prog p d' s.
Proof. unfold set_prog. cbn. by rewrite insert_insert_eq. Qed.

(** *** The calls on log_runs *)

Section Calls.

Context (path now : string) (s : store) (d : progress_db).

Hypothesis Hd : progs s !! path = Some d.
Hypothesis Hw : progress_wf d.

(** The call ended in a database whose cursors are [m], and touched nothing else. *)
Definition left_at (m : gmap bytes counters) (s' : store) : Prop :=
  exists d', s' = set_prog path d' s /\ progress_wf d' /\ cursors d' = m.

(** Either the call's effect on the cursors, or none and no success. *)
Definition call_post (c : log_call) {A} (r : res A) (s' : store) : Prop :=
  left_at (spec_call c (cursors d)) s' \/ is_ok r = false /\ left_at (cursors d) s'.

Lemma left_same : left_at (cursors d) s.
Proof. exists d. by rewrite set_prog_id. Qed.

Lemma update_log_exact id next total :
  wp (UpdateLogProgress path now id next total)
     (fun r s' => left_at (if is_ok r then spec_call (CallUpdate id next total) (cursors d) else cursors d) s') s.
Proof.
  apply wp_wrap, (wp_prog_stmt _ _ _ _ d Hd); [apply left_same..|].
  eexists. split; [done|]. cbn [fst snd wrap_err is_ok]. split.
  - apply set_log_runs_wf; [|done]. intros r. unfold advance_row. by case_bool_decide.
  - apply cursors_alter; [..|done]; intros r; unfold advance_row; by case_bool_decide.
Qed.

Lemma update_log_wp id next total :
  wp (UpdateLogProgress path now id next total) (call_post (CallUpdate id next total)) s.
Proof.
  eapply wp_mono; [apply update_log_exact|]. intros r s'. unfold call_post. destruct (is_ok r); [by left|by right].
Qed.

Lemma set_tree_exact id size :
  wp (SetLogTreeSizeAtStart path id size)
     (fun r s' => left_at (if is_ok r then spec_call (CallSetTree id size) (cursors d) else cursors d) s') s.
Proof.
  assert (Hid : forall r, lr_log_id (tree_size_row id size r) = lr_log_id r)
    by (intros r; unfold tree_size_row; by case_match).
  apply (wp_prog_stmt _ _ _ _ d Hd); [apply left_same..|].
  eexists. split; [done|]. cbn [fst snd is_ok]. split; [by apply set_log_runs_wf|].
  apply cursors_alter; [done| | |done].
  - intros [? ? ? ? ? ? ? ? ? tree ? ? ?] E. cbn in E. unfold tree_size_row, row_counters. cbn. rewrite bool_decide_true by done.
    destruct tree as [n|]; cbn; [|done]. by destruct (n =? 0).
  - intros r E. unfold tree_size_row. by rewrite bool_decide_false.
Qed.

Lemma set_tree_wp id size :
  wp (SetLogTreeSizeAtStart path id size) (call_post (CallSetTree id size)) s.
Proof.
  eapply wp_mono; [apply set_tree_exact|]. intros r s'. unfold call_post. destruct (is_ok r); [by left|by right].
Qed.

Lemma insert_log_run_spec init :
  select_log_run (LI_LogID init) d = None ->
  exists d', insert_log_run init now d = (Ok (log_runs_seq d + 1), d') /\ progress_wf d' /\
    cursors d' = <[LI_LogID init := mkCounters 0 0 0]> (cursors d) /\ cursors d !! LI_LogID init = None.
Proof.
  intros Hn%select_none. unfold insert_log_run. rewrite bool_decide_false by done.
  assert (Hnone : cursors d !! LI_LogID init = None).
  { apply not_elem_of_list_to_map_1. by rewrite <- list_fmap_compose. }
  eexists. split; [done|]. split; [|split; [|done]].
  - destruct Hw as [H1 H2]. split; [|done]. cbn. rewrite map_app. apply NoDup_app. split; [done|]. split; [|apply NoDup_singleton].
    intros x Hx ->%list_elem_of_singleton. done.
  - unfold cursors in *. cbn. rewrite map_app, list_to_map_app. cbn.
    apply map_eq. intros i. destruct (decide (i = LI_LogID init)) as [->|Hi].
    + rewrite lookup_insert_eq, lookup_union_r by done. by rewrite lookup_insert_eq.
    + rewrite lookup_insert_ne by done. rewrite lookup_union_l; [done|]. by rewrite lookup_insert_ne.
Qed.

Lemma get_or_create_exact init :
  wp (GetOrCreateLogRun path now init)
     (fun r s' => left_at (if is_ok r then spec_call (CallGetOrCreate init) (cursors d) else cursors d) s' /\
        forall run, r = Ok run -> answers (cursors d) init run) s.
Proof.
  assert (Hskip : forall r : res LogRun, is_ok r = false ->
    left_at (if is_ok r then spec_call (CallGetOrCreate init) (cursors d) else cursors d) s /\
    (forall run, r = Ok run -> answers (cursors d) init run)).
  { intros r Hr. rewrite Hr. split; [apply left_same|]. by intros run ->. }
  apply wp_bind, wp_attempt, (wp_prog_stmt _ _ _ _ d Hd); [by apply wp_fail, Hskip|by apply Hskip|].
  cbn [fst snd]. rewrite set_prog_id by done. destruct (select_log_run (LI_LogID init) d) as [row|] eqn:Es.
  - apply select_some in Es as [Hrow Eid].
    assert (Hc : cursors d !! LI_LogID init = Some (row_counters row)) by (apply cursors_lookup; eauto).
    apply wp_bind, wp_wrap, (wp_prog_stmt _ _ _ _ d Hd); [by apply Hskip..|]. apply wp_ret. split.
    + unfold spec_call. rewrite Hc. eexists. split; [done|]. split.
      * apply set_log_runs_wf; [|done]. intros r. unfold refresh_row. by case_match.
      * apply cursors_same; intros r; unfold refresh_row; by case_match.
    + intros run [= <-]. unfold answers. by rewrite Hc.
  - destruct (insert_log_run_spec init Es) as (d' & Ei & Hw' & Ec & Hn).
    apply wp_bind, wp_wrap, (wp_prog_stmt _ _ _ _ d Hd); [by apply Hskip..|]. rewrite Ei. apply wp_ret. split.
    + unfold spec_call. rewrite Hn. by exists d'.
    + intros run [= <-]. unfold answers. by rewrite Hn.
Qed.

Lemma get_or_create_wp init :
  wp (GetOrCreateLogRun path now init)
     (fun r s' => call_post (CallGetOrCreate init) r s' /\ (forall run, r = Ok run -> answers (cursors d) init run)) s.
Proof.
  eapply wp_mono; [apply get_or_create_exact|]. intros r s' [H Ha]. split; [|done]. unfold call_post. destruct (is_ok r); [by left|by right].
Qed.

(** A call succeeds with its effect and its answer, or fails with neither. *)
Lemma do_call_wp c :
  wp (do_call path now c)
     (fun r s' => left_at (if is_ok r then spec_call c (cursors d) else cursors d) s' /\
        forall a, r = Ok a -> spec_answer (cursors d) c a) s.
Proof.
  destruct c as [init|id next total|id size]; apply wp_bind.
  - eapply wp_mono; [apply get_or_create_exact|]. intros [run|e|] s' [H Ha]; [|by split..].
    apply wp_ret. split; [done|]. intros a [= <-]. by apply Ha.
  - eapply wp_mono; [apply update_log_exact|]. intros [[]|e|] s' H; [|by split..]. apply wp_ret. split; [done|]. by intros a [= <-].
  - eapply wp_mono; [apply set_tree_exact|]. intros [[]|e|] s' H; [|by split..]. apply wp_ret. split; [done|]. by intros a [= <-].
Qed.

Lemma quiet_prog_stmt {A} (f : progress_db -> res A * progress_db) a d0 d' (Q : A -> store -> Prop) s1 :
  progs s1 !! path = Some d0 -> f d0 = (Ok a, d') -> Q a (set_prog path d' s1) -> quiet (prog_stmt path f) Q s1.
Proof. intros Hd0 Hf. apply quiet_step_or. by rewrite Hd0, Hf. Qed.

Lemma get_or_create_runs init : runs (GetOrCreateLogRun path now init) s.
Proof.
  unfold runs, GetOrCreateLogRun. destruct (select_log_run (LI_LogID init) d) as [row|] eqn:Es; apply quiet_bind.
  - apply quiet_attempt. eapply quiet_prog_stmt; [done|by rewrite Es|]. rewrite set_prog_id by done.
    apply quiet_bind, quiet_wrap. eapply quiet_prog_stmt; [done|done|]. by apply quiet_ret.
  - exists (inr ErrNoRows), s. split.
    { unfold attempt, prog_stmt, step, step_or. by rewrite Hd, Es, set_prog_id. }
    destruct (insert_log_run_spec init Es) as (d' & Ei & _).
    apply quiet_bind, quiet_wrap. eapply quiet_prog_stmt; [done|exact Ei|]. by apply quiet_ret.
Qed.

(** When no statement fails, no call does. *)
Lemma do_call_runs c : runs (do_call path now c) s.
Proof.
  unfold runs. destruct c as [init|id next total|id size]; apply quiet_bind.
  - eapply quiet_mono; [apply get_or_create_runs|]. intros run s' _. by apply quiet_ret.
  - apply quiet_wrap. eapply quiet_prog_stmt; [done|done|]. by apply quiet_ret.
  - eapply quiet_prog_stmt; [done|done|]. by apply quiet_ret.
Qed.

End Calls.

Lemma left_trans path s m d' s' : left_at path (set_prog path d' s) m s' -> left_at path s m s'.
Proof. intros (d & -> & H). exists d. by rewrite set_prog_twice. Qed.

(** The store refines a run of the abstract one; a process that dies does so
    after some of the calls. *)
Definition refines (cs : list log_call) (m : gmap bytes counters) (r : res (list (option LogRun + error))) (m' : gmap bytes counters) : Prop :=
  match r with
  | Ok rs => spec_run cs rs m m'
  | Err _ => False
  | Panic => exists k rs, (k < length cs)%nat /\ spec_run (take k cs) rs m m'
  end.

Lemma session_wp path cs s d :
  progs s !! path = Some d -> progress_wf d ->
  wp (session path cs) (fun r s' => exists m, refines (map snd cs) (cursors d) r m /\ left_at path s m s') s.
Proof.
  revert s d. induction cs as [|[now c] cs IH]; intros s d Hd Hw; cbn [session map].
  { apply wp_ret. exists (cursors d). split; [constructor|by apply left_same]. }
  apply wp_bind, wp_attempt. eapply wp_mono; [by apply do_call_wp|].
  assert (Hgo : forall (x : option LogRun + error) m s', left_at path s m s' ->
    (forall cs' rs m', spec_run cs' rs m m' -> spec_run (c :: cs') (x :: rs) (cursors d) m') ->
    wp (let@ rs := session path cs in ret (x :: rs))
       (fun r s' => exists m, refines (c :: map snd cs) (cursors d) r m /\ left_at path s m s') s').
  { intros x m s' (d' & -> & Hw' & <-) Hx. apply wp_bind.
    eapply wp_mono; [apply (IH _ d'); [|done]|].
    { rewrite progs_set. by rewrite decide_True. }
    intros [rs|e|] s2 (m2 & He2 & Hl%left_trans); [|done|].
    - apply wp_ret. exists m2. split; [by apply Hx|done].
    - exists m2. split; [|done]. destruct He2 as (k & rs & Hk & Hr). exists (S k), (x :: rs). split; [cbn; lia|by apply Hx]. }
  intros [a|e|] s' [H Ha]; cbn [is_ok] in H.
  - eapply Hgo; [exact H|]. intros cs' rs m'. apply run_ok, Ha. done.
  - eapply Hgo; [exact H|]. intros cs' rs m'. apply run_err.
  - exists (cursors d). split; [|done]. exists 0%nat, []. split; [cbn; lia|constructor].
Qed.

Lemma session_runs path cs s d : progs s !! path = Some d -> progress_wf d ->
  quiet (session path cs) (fun rs _ => Forall (fun r => exists a, r = inl a) rs) s.
Proof.
  revert s d. induction cs as [|[now c] cs IH]; intros s d Hd Hw; cbn [session]; [by apply quiet_ret|].
  apply quiet_bind, quiet_attempt. eapply quiet_wp; [by apply do_call_wp|by eapply do_call_runs|].
  intros a s' [(d' & -> & Hw' & _) _]. apply quiet_bind. eapply quiet_mono; [apply (IH _ d'); [apply lookup_insert_eq|done]|].
  intros rs s2 Hrs. apply quiet_ret. constructor; [by exists a|done].
Qed.

(** *** Issuers *)

(** The issuer with this fingerprint has this ca_id. *)
Definition has_ca_id (d : issuer_db) (fp : bytes) (id : Z) : Prop :=
  exists r, r ∈ issuer_rows d /\ is_fingerprint r = hex_encode fp /\ is_ca_id r = id.

Definition issuers_grown (d d' : issuer_db) : Prop :=
  issuer_wf d' /\ forall fp id, has_ca_id d fp id -> has_ca_id d' fp id.

Lemma NoDup_map_inj {A B} (f : A -> B) l x y : NoDup (map f l) -> x ∈ l -> y ∈ l -> f x = f y -> x = y.
Proof.
  induction l as [|z l IH]; [by intros _ ?%elem_of_nil|]. cbn. intros [Hz Hn]%NoDup_cons Hx Hy E.
  apply elem_of_cons in Hx as [->|Hx], Hy as [->|Hy]; [done| | |by apply IH].
  - destruct Hz. rewrite E. by apply list_elem_of_fmap_2.
  - destruct Hz. rewrite <- E. by apply list_elem_of_fmap_2.
Qed.

Lemma ca_id_fun d fp fp' id id' :
  issuer_wf d -> has_ca_id d fp id -> has_ca_id d fp' id' -> (id = id' <-> fp = fp').
Proof.
  intros Hw (r & Hr & Hf & <-) (r' & Hr' & Hf' & <-). split.
  - intros E. assert (r = r') as -> by (by eapply NoDup_map_inj; [apply (iw_ids _ Hw)|..]).
    rewrite Hf in Hf'. by apply hex_encode_inj.
  - intros ->. f_equal. eapply NoDup_map_inj; [apply (iw_fps _ Hw)|done|done|congruence].
Qed.

Lemma set_issdb_id p d s : issdbs s !! p = Some d -> set_issdb p d s = s.
Proof. intros H. destruct s. unfold set_issdb. cbn in *. by rewrite insert_id. Qed.

Lemma set_issdb_twice p d d' s : set_issdb p d' (set_issdb p d s) = set_issdb p d' s.
Proof. unfold set_issdb. cbn. by rewrite insert_insert_eq. Qed.

Lemma insert_issuer_spec fp cn org country d :
  issuer_wf d -> select_issuer (hex_encode fp) d = None ->
  exists d', insert_issuer (hex_encode fp) cn org country d = (Ok (issuers_seq d + 1), d') /\
    issuers_grown d d' /\ has_ca_id d' fp (issuers_seq d + 1).
Proof.
  intros [H1 H2 H3] Hn. assert (Hfp : hex_encode fp ∉ map is_fingerprint (issuer_rows d)).
  { intros (r & E & Hr)%list_elem_of_fmap. revert Hn. unfold select_issuer.
    assert (r ∈ filter (fun x => is_fingerprint x = hex_encode fp) (issuer_rows d)) as Hin by (by apply list_elem_of_filter).
    destruct (filter _ _); [by apply elem_of_nil in Hin|done]. }
  unfold insert_issuer. rewrite bool_decide_false by done. eexists. split; [done|]. split; [split; [split|]|]; cbn.
  - rewrite map_app. apply (NoDup_snoc_opt _ (Some _)); [done|]. by intros x [= <-].
  - rewrite map_app. apply (NoDup_snoc_opt _ (Some _)); [done|]. intros x [= <-] Hx.
    rewrite Forall_forall in H3. specialize (H3 _ Hx). cbn in H3. lia.
  - rewrite map_app. apply Forall_app. split; [eapply Forall_impl; [exact H3|]; cbn; lia|]. by apply Forall_singleton.
  - intros fp' id (r & Hr & H). exists r. split; [|done]. cbn. apply elem_of_app. by left.
  - eexists. split; [apply elem_of_app; right; by left|]. done.
Qed.

(** What an upsert answers is the issuer's ca_id; nobody else's changes. *)
Definition upsert_post (path : string) (s : store) (d : issuer_db) (fp : bytes) (r : res Z) (s' : store) : Prop :=
  exists d', s' = set_issdb path d' s /\ issuers_grown d d' /\ forall id, r = Ok id -> has_ca_id d' fp id.

Lemma upsert_wp path fp cn org country s d :
  issdbs s !! path = Some d -> issuer_wf d ->
  wp (UpsertIssuer path fp cn org country) (upsert_post path s d fp) s.
Proof.
  intros Hd Hw.
  assert (Hskip : forall r, is_ok r = false -> upsert_post path s d fp r s).
  { intros r Hr. exists d. rewrite set_issdb_id by done. split; [done|]. split; [by split|]. by intros id ->. }
  apply wp_bind, wp_attempt, (wp_iss_stmt _ _ _ _ d Hd); [by apply wp_fail, Hskip|by apply Hskip|].
  cbn [fst snd]. rewrite set_issdb_id by done. destruct (select_issuer (hex_encode fp) d) as [id|] eqn:Es.
  - apply wp_ret. exists d. rewrite set_issdb_id by done. split; [done|]. split; [by split|]. intros ? [= <-].
    unfold select_issuer in Es. destruct (head _) as [r|] eqn:Eh; [|done]. injection Es as <-.
    apply head_Some_elem_of, list_elem_of_filter in Eh as [E Hr]. by exists r.
  - destruct (insert_issuer_spec fp cn org country d Hw Es) as (d' & Ei & Hg & Hc).
    apply wp_wrap, (wp_iss_stmt _ _ _ _ d Hd); [by apply Hskip..|]. rewrite Ei. exists d'. split; [done|].
    split; [done|]. by intros id [= <-].
Qed.

Lemma grown_trans d d' d'' : issuers_grown d d' -> issuers_grown d' d'' -> issuers_grown d d''.
Proof. intros [_ H1] [H2 H3]. split; [done|]. auto. Qed.

(** A sequence of upserts, each failure passed over. *)
Fixpoint upserts (path : string) (calls : list (bytes * (string * string * string))) : M (list (Z + error)) :=
  match calls with
  | [] => ret []
  | (fp, (cn, org, country)) :: calls =>
      let@ r := attempt (UpsertIssuer path fp cn org country) in
      let@ rs := upserts path calls in
      ret (r :: rs)
  end.

Lemma upserts_wp path calls s d :
  issdbs s !! path = Some d -> issuer_wf d ->
  wp (upserts path calls) (fun r s' => exists d', s' = set_issdb path d' s /\ issuers_grown d d' /\
    forall rs, r = Ok rs -> Forall2 (fun c x => forall id, x = inl id -> has_ca_id d' c.1 id) calls rs) s.
Proof.
  revert s d. induction calls as [|[fp [[cn org] country]] calls IH]; intros s d Hd Hw; cbn [upserts].
  { apply wp_ret. exists d. rewrite set_issdb_id by done. split; [done|]. split; [by split|]. by intros ? [= <-]. }
  apply wp_bind, wp_attempt. eapply wp_mono; [by apply upsert_wp|].
  assert (Hgo : forall (x : Z + error) d', issuers_grown d d' -> (forall id, x = inl id -> has_ca_id d' fp id) ->
    wp (let@ rs := upserts path calls in ret (x :: rs)) (fun r s' => exists d'', s' = set_issdb path d'' s /\ issuers_grown d d'' /\
      forall rs, r = Ok rs -> Forall2 (fun c x => forall id, x = inl id -> has_ca_id d'' c.1 id)
        ((fp, (cn, org, country)) :: calls) rs) (set_issdb path d' s)).
  { intros x d' Hg Hx. apply wp_bind. eapply wp_mono; [apply (IH _ d'); [apply lookup_insert_eq|apply Hg]|].
    intros [rs|e|] s' (d'' & -> & Hg' & Hrs).
    1: apply wp_ret. all: exists d''; rewrite set_issdb_twice; (split; [done|]); (split; [by eapply grown_trans|]).
    2,3: done. intros ? [= <-]. constructor; [|by apply Hrs]. intros id ->. by apply Hg', Hx. }
  intros [id|e|] s' (d' & -> & Hg & Hid); [apply Hgo; [done|]; intros ? [= <-]; by apply Hid|by apply Hgo|].
  by exists d'.
Qed.

(** ** Properties *)

(** C9. The log_runs table refines a map from log id to counters: whatever
    statements fail, a sequence of GetOrCreateLogRun, UpdateLogProgress and
    SetLogTreeSizeAtStart leaves the counters of a run of the map that has the
    same results — a call that succeeds has its whole effect, and its answer when
    it has one, a call that fails has no effect; when the process dies, the
    counters are those of the calls before; when no statement fails, no call does.
    Nothing else is touched. *)
Theorem log_runs_refine (path : string) (cs : list (string * log_call)) (s s' : store) (d : progress_db)
  (fl fl' : list outcome) (r : res (list (option LogRun + error)))
  (Hd : progs s !! path = Some d) (Hw : progress_wf d)
  (Hrun : session path cs s fl = (r, s', fl')) :
  (exists d', s' = set_prog path d' s /\ progress_wf d' /\
    match r with
    | Ok rs => spec_run (map snd cs) rs (cursors d) (cursors d')
    | Err _ => False
    | Panic => exists k rs, (k < length cs)%nat /\ spec_run (take k (map snd cs)) rs (cursors d) (cursors d')
    end) /\
  (fl = [] -> exists rs, r = Ok rs /\ Forall (fun x => exists a, x = inl a) rs).
Proof.
  split.
  - pose proof (wp_run _ _ _ _ _ _ _ (session_wp path cs s d Hd Hw) Hrun) as (m & He & d' & -> & Hw' & <-).
    exists d'. split; [done|]. split; [done|]. unfold refines in He. by rewrite length_map in He.
  - intros ->. destruct (session_runs path cs s d Hd Hw) as (rs & s2 & E & Hrs). rewrite E in Hrun. injection Hrun as <- <- <-. by exists rs.
Qed.

(** A ca_id identifies its issuer: over any sequence of UpsertIssuer calls and
    any failures, two calls that answer give the same ca_id exactly when their
    fingerprints are equal, and a ca_id given before is never changed. *)
Theorem upsert_issuer_ids (path : string) (calls : list (bytes * (string * string * string)))
  (s s' : store) (d : issuer_db) (fl fl' : list outcome) (rs : list (Z + error))
  (Hd : issdbs s !! path = Some d) (Hw : issuer_wf d)
  (Hrun : upserts path calls s fl = (Ok rs, s', fl')) :
  (forall i j fp fp' x x' id id', calls !! i = Some (fp, x) -> calls !! j = Some (fp', x') ->
     rs !! i = Some (inl id) -> rs !! j = Some (inl id') -> (id = id' <-> fp = fp')) /\
  exists d', issdbs s' !! path = Some d' /\ forall fp id, has_ca_id d fp id -> has_ca_id d' fp id.
Proof.
  pose proof (wp_run _ _ _ _ _ _ _ (upserts_wp path calls s d Hd Hw) Hrun) as (d' & -> & Hg & H).
  specialize (H rs eq_refl). split.
  - intros i j fp fp' x x' id id' Hi Hj Hri Hrj.
    pose proof (Forall2_lookup_lr _ _ _ _ _ _ H Hi Hri id eq_refl) as H1.
    pose proof (Forall2_lookup_lr _ _ _ _ _ _ H Hj Hrj id' eq_refl) as H2.
    exact (ca_id_fun d' fp fp' id id' (proj1 Hg) H1 H2).
  - exists d'. split; [apply lookup_insert_eq|apply Hg].
Qed.

(** ** Witnesses *)

Definition store_of (p : progress_db) (i : issuer_db) : store :=
  mkStore ∅ ∅ {["progress.db" := p]} {["issuers.db" := i]} [].

Definition init_a : LogRunInit := mkLogRunInit (repeat x01 32) "a" "https://a/" "" "rfc6962" "A" "usable".

(** The second call dies between reading the row and refreshing it. *)
Definition empty_store : store := store_of (mkProgress [] 0 [] 0) (mkIssuerDb [] 0).

Definition three_calls : list (string * log_call) :=
  [("t0", CallGetOrCreate init_a); ("t1", CallUpdate (repeat x01 32) 256 250); ("t2", CallGetOrCreate init_a)].

Lemma log_runs_refine_witness :
  let out := session "progress.db" three_calls empty_store [Done; Done; Done; Done; Crashed] in
  out.1.1 = Panic /\ exists d', out.1.2 = set_prog "progress.db" d' empty_store /\
    exists k rs, (k < 3)%nat /\ spec_run (take k (map snd three_calls)) rs ∅ (cursors d').
Proof.
  split; [vm_compute; reflexivity|].
  assert (E : (session "progress.db" three_calls empty_store [Done; Done; Done; Done; Crashed]).1.1 = Panic) by (vm_compute; reflexivity).
  destruct (log_runs_refine "progress.db" three_calls empty_store _ (mkProgress [] 0 [] 0) _ _ _ (lookup_singleton_eq _ _)
    ltac:(split; constructor) (surjective_pairing_3 (session "progress.db" three_calls empty_store [Done; Done; Done; Done; Crashed])))
    as [(d' & Hs & _ & Hr) _].
  exists d'. split; [exact Hs|]. rewrite E in Hr. exact Hr.
Defined.

Lemma upsert_issuer_ids_witness :
  let calls := [([x01], ("a", "", "")); ([x02], ("b", "", "")); ([x01], ("c", "", ""))] in
  let out := upserts "issuers.db" calls empty_store [Done; Done; Done; Failed] in
  out.1.1 = Ok [inl 1; inr (Wrap "insert issuer" ErrSyscall); inl 1] /\
  ((1 = 1)%Z <-> [x01] = [x01]).
Proof.
  cbv zeta. split; [vm_compute; reflexivity|].
  refine (proj1 (upsert_issuer_ids "issuers.db" [([x01], ("a", "", "")); ([x02], ("b", "", "")); ([x01], ("c", "", ""))]
    empty_store _ (mkIssuerDb [] 0) [Done; Done; Done; Failed] _
    [inl 1; inr (Wrap "insert issuer" ErrSyscall); inl 1]
    (lookup_singleton_eq _ _) ltac:(split; constructor) _) 0%nat 2%nat _ _ _ _ _ _ eq_refl eq_refl eq_refl eq_refl).
  vm_compute. reflexivity.
Defined.
