(* ===== verification/Ctlist.v ===== *)
(** internal/ctlist: parsing the v3 log list into the uniform [Log] records,
    the catalog filters, and the snapshot file with its refresh. The JSON and
    base64 decoders, the time parser and the HTTP client are parameters. *)

From S2P Require Import Prelude GoStd FileSys.

(** ** Definitions *)

(** *** log_list.go: the records *)

Definition DefaultLogListURL : string := "https://www.gstatic.com/ct/log_list/v3/log_list.json".

(** [type Protocol string], [type State string] *)
Definition ProtocolStaticCT : string := "static-ct-api".
Definition ProtocolRFC6962 : string := "rfc6962".
Definition StateUsable : string := "usable".

(** Times are Unix seconds, [None] for the zero Time; MMD is in nanoseconds. *)
Record Log := mkLog {
  lg_LogID : bytes; lg_Description : string; lg_Operator : string; lg_Protocol : string;
  lg_State : string; lg_StateSince : option Z;
  lg_SubmissionURL : string; lg_MonitoringURL : string; lg_MMD : Z;
  lg_TemporalStart : option Z; lg_TemporalEnd : option Z; lg_FinalTreeSize : Z }.

Definition IsUsable (l : Log) : bool := String.eqb (lg_State l) StateUsable.

Definition APIRoot (l : Log) : string :=
  if String.eqb (lg_Protocol l) ProtocolStaticCT && negb (String.eqb (lg_MonitoringURL l) "")
  then lg_MonitoringURL l else lg_SubmissionURL l.

(** The JSON document; the fields the code does not read are left out. *)
Record rawStateVal := mkRawState { rs_Timestamp : string; rs_FinalTreeHead : option Z }.

Record rawLog := mkRawLog {
  rl_Description : string; rl_LogID : string; rl_URL : string; rl_SubmissionURL : string;
  rl_MonitoringURL : string; rl_MMD : Z; rl_State : gmap string rawStateVal;
  rl_TemporalInterval : option (string * string) }.

Record rawOperator := mkRawOp { ro_Name : string; ro_Logs : list rawLog; ro_TiledLogs : list rawLog }.

Definition ensureTrailingSlash (s : string) : string :=
  if String.eqb s "" || has_suffix s "/" then s else (s +:+ "/")%string.

Section Parse.

(** [json.Unmarshal], [base64.StdEncoding.DecodeString], [time.Parse(RFC3339)],
    [strconv.Quote] and the iteration order of a map. *)
Variable json_list : bytes -> res (list rawOperator).
Variable b64 : string -> res bytes.
Variable parse_time : string -> res Z.
Variable quote : string -> string.
Variable map_order : gmap string rawStateVal -> list (string * rawStateVal).

Definition opt_time (s : string) : option Z := match parse_time s with Ok t => Some t | _ => None end.

Definition decodeLogID (s : string) : res bytes :=
  let? b := b64 s in
  if blen b =? 32 then Ok b else Err (Errorf ("expected 32 bytes, got " +:+ dec (blen b))).

(** The first key in iteration order. *)
Definition pickState (m : gmap string rawStateVal) : string * option Z * Z :=
  match map_order m with
  | [] => ("", None, 0)
  | (k, v) :: _ => (k, opt_time (rs_Timestamp v), default 0 (rs_FinalTreeHead v))
  end.

Definition buildLog (r : rawLog) (operator proto : string) : res Log :=
  let? id := wrap_err "log_id" (decodeLogID (rl_LogID r)) in
  let '(state, stateSince, finalSize) := pickState (rl_State r) in
  let submission :=
    if String.eqb proto ProtocolRFC6962 then ensureTrailingSlash (rl_URL r)
    else if String.eqb proto ProtocolStaticCT then ensureTrailingSlash (rl_SubmissionURL r) else "" in
  let monitoring :=
    if String.eqb proto ProtocolStaticCT then ensureTrailingSlash (rl_MonitoringURL r) else "" in
  Ok (mkLog id (rl_Description r) operator proto state stateSince submission monitoring
        (wrap64 (wrap64 (rl_MMD r) * 1000000000))
        (match rl_TemporalInterval r with Some (a, _) => opt_time a | None => None end)
        (match rl_TemporalInterval r with Some (_, b) => opt_time b | None => None end) finalSize).

Fixpoint parse_logs (what proto : string) (op : rawOperator) (rls : list rawLog) (out : list Log) : res (list Log) :=
  match rls with
  | [] => Ok out
  | rl :: rls =>
      let? l := wrap_err ("operator " +:+ quote (ro_Name op) +:+ " " +:+ what +:+ " " +:+ quote (rl_Description rl))
                  (buildLog rl (ro_Name op) proto) in
      parse_logs what proto op rls (out ++ [l])
  end.

Fixpoint parse_operators (ops : list rawOperator) (out : list Log) : res (list Log) :=
  match ops with
  | [] => Ok out
  | op :: ops =>
      let? out := parse_logs "log" ProtocolRFC6962 op (ro_Logs op) out in
      let? out := parse_logs "tiled_log" ProtocolStaticCT op (ro_TiledLogs op) out in
      parse_operators ops out
  end.

Definition ParseLogList (data : bytes) : res (list Log) :=
  let? raw := wrap_err "parse log_list.json" (json_list data) in
  parse_operators raw [].

(** *** refresh.go *)

(** One GET: the transport's error, or a status and the body. *)
Definition fetchBytes (url : string) (http_get : string -> res (Z * res bytes)) : res bytes :=
  let url := if String.eqb url "" then DefaultLogListURL else url in
  let? (code, body) := wrap_err ("get " +:+ url) (http_get url) in
  if negb (code =? 200) then Err (Errorf ("get " +:+ url +:+ ": HTTP " +:+ dec code)) else body.

Definition writeAtomic (path : string) (data : bytes) : prog (res unit) :=
  try! _ := (if String.eqb (Dir path) "." then Ret (Ok tt) else call (MkdirAll (Dir path))) in
  let tmp := (path +:+ ".tmp")%string in
  try! _ := call (WriteFile tmp data) in
  call (Rename tmp path).

Definition DefaultSnapshotPath : string := "data/log_list.json".
Definition snapshot_path (p : string) : string := if String.eqb p "" then DefaultSnapshotPath else p.

(** Download, or fall back to what the snapshot holds. *)
Definition fetch_or_stale (url path : string) (http_get : string -> res (Z * res bytes)) : prog (res (list Log)) :=
  match fetchBytes url http_get with
  | Ok data => let! _ := writeAtomic path data in Ret (ParseLogList data)
  | Err fetchErr =>
      let! r := call (ReadFile path) in
      Ret (match r with Ok data2 => ParseLogList data2 | _ => Err fetchErr end)
  | Panic => Ret Panic
  end.

(** [young]: time.Since(ModTime) < maxAge. *)
Definition LoadOrFetch (url snapshotPath : string) (young : bool) (http_get : string -> res (Z * res bytes))
  : prog (res (list Log)) :=
  let path := snapshot_path snapshotPath in
  let! st := call (Stat path) in
  match st, young with
  | Ok _, true =>
      let! r := call (ReadFile path) in
      match r with
      | Ok data => Ret (ParseLogList data)
      | _ => fetch_or_stale url path http_get
      end
  | _, _ => fetch_or_stale url path http_get
  end.

(** The ticks until the context ends, each with what the server then answers. *)
Fixpoint RefreshLoop (url snapshotPath : string) (ticks : list (string -> res (Z * res bytes))) : prog unit :=
  match ticks with
  | [] => Ret tt
  | http_get :: ticks =>
      let! _ := match fetchBytes url http_get with
                | Ok data => writeAtomic (snapshot_path snapshotPath) data
                | _ => Ret (Ok tt)
                end in
      RefreshLoop url snapshotPath ticks
  end.

End Parse.

(** *** The filters *)

Definition FilterUsable (logs : list Log) : list Log := filter (fun l => IsUsable l = true) logs.

Definition FilterExcludeOperators (logs : list Log) (ops : list string) : list Log :=
  match ops with
  | [] => logs
  | _ :: _ =>
      let skip : gset string := list_to_set ops in
      filter (fun l => lg_Operator l ∉ skip) logs
  end.

Definition FilterByProtocol (logs : list Log) (protos : list string) : list Log :=
  match protos with
  | [] => logs
  | _ :: _ =>
      let want : gset string := list_to_set protos in
      filter (fun l => lg_Protocol l ∈ want) logs
  end.

(** ** Specifications *)

(** The logs of a document in the order of the catalog, with their operator and
    the protocol of the section they stand in. *)
Definition listed (raw : list rawOperator) : list (string * string * rawLog) :=
  raw ≫= fun op => map (fun r => (ro_Name op, ProtocolRFC6962, r)) (ro_Logs op) ++
                   map (fun r => (ro_Name op, ProtocolStaticCT, r)) (ro_TiledLogs op).

(** [t] is [s] as the root of an API: empty, or closed by a slash. *)
Inductive slashed : string -> string -> Prop :=
| slashed_empty : slashed "" ""
| slashed_already s : slashed (s +:+ "/") (s +:+ "/")
| slashed_added s : s <> "" -> has_suffix s "/" = false -> slashed s (s +:+ "/").

(** What a catalog record says of a listed log. *)
Record describes (b64 : string -> res bytes) (parse_time : string -> res Z)
    (e : string * string * rawLog) (l : Log) : Prop := {
  ds_id : b64 (rl_LogID e.2) = Ok (lg_LogID l) /\ length (lg_LogID l) = 32%nat;
  ds_names : lg_Description l = rl_Description e.2 /\ lg_Operator l = e.1.1 /\ lg_Protocol l = e.1.2;
  ds_state : (rl_State e.2 = ∅ /\ lg_State l = "") \/
             exists v, rl_State e.2 !! lg_State l = Some v /\ lg_FinalTreeSize l = default 0 (rs_FinalTreeHead v) /\
               (forall t, parse_time (rs_Timestamp v) = Ok t <-> lg_StateSince l = Some t);
  ds_root : e.1.2 = ProtocolRFC6962 /\ slashed (rl_URL e.2) (APIRoot l) \/
            e.1.2 = ProtocolStaticCT /\ slashed (rl_SubmissionURL e.2) (lg_SubmissionURL l) /\
              slashed (rl_MonitoringURL e.2) (lg_MonitoringURL l) }.

Definition has_id (b64 : string -> res bytes) (r : rawLog) : Prop :=
  exists id, b64 (rl_LogID r) = Ok id /\ length id = 32%nat.

(** ** Lemmas *)

Lemma slashed_ensure s : slashed s (ensureTrailingSlash s).
Proof.
  unfold ensureTrailingSlash. destruct (String.eqb_spec s "") as [->|Hne]; [constructor|].
  destruct (has_suffix s "/") eqn:E; cbn [orb]; [|by constructor].
  rewrite (has_suffix_inv _ _ E). constructor.
Qed.

Section ParseSpec.

Context (json_list : bytes -> res (list rawOperator)) (b64 : string -> res bytes) (parse_time : string -> res Z).
Context (quote : string -> string) (map_order : gmap string rawStateVal -> list (string * rawStateVal)).

Hypothesis Horder : forall m, map_order m ≡ₚ map_to_list m.

Lemma pick_state_spec m s since size :
  pickState parse_time map_order m = (s, since, size) ->
  (m = ∅ /\ s = "") \/
  exists v, m !! s = Some v /\ size = default 0 (rs_FinalTreeHead v) /\
    (forall t, parse_time (rs_Timestamp v) = Ok t <-> since = Some t).
Proof.
  unfold pickState. specialize (Horder m). destruct (map_order m) as [|[k v] l].
  - intros [= <- <- <-]. left. split; [|done]. apply map_to_list_empty_iff. symmetry. by apply Permutation_nil_l.
  - intros [= <- <- <-]. right. exists v. split; [|split; [done|]].
    + apply elem_of_map_to_list. rewrite <- Horder. by left.
    + intros t. unfold opt_time. destruct (parse_time (rs_Timestamp v)); naive_solver.
Qed.

Lemma decode_id_ok s id : decodeLogID b64 s = Ok id <-> b64 s = Ok id /\ length id = 32%nat.
Proof.
  unfold decodeLogID. destruct (b64 s) as [b|e|]; cbn; [|naive_solver..].
  unfold blen. destruct (Z.eqb_spec (Z.of_nat (length b)) 32); split; intros H; destr_hyps; simplify_eq; (split; [done|lia]) || lia || done.
Qed.

Lemma build_log_spec r op proto l :
  proto = ProtocolRFC6962 \/ proto = ProtocolStaticCT ->
  buildLog b64 parse_time map_order r op proto = Ok l -> describes b64 parse_time (op, proto, r) l.
Proof.
  intros Hp. unfold buildLog. destruct (decodeLogID b64 (rl_LogID r)) as [id|e|] eqn:Ei; [|done..]. cbn [wrap_err bind_res].
  apply decode_id_ok in Ei. destruct (pickState _ _ _) as [[st since] size] eqn:Es. apply pick_state_spec in Es.
  intros [= <-]. split; cbn [fst snd lg_LogID lg_Description lg_Operator lg_Protocol lg_State lg_FinalTreeSize lg_StateSince
    lg_SubmissionURL lg_MonitoringURL]; [done..|].
  destruct Hp as [->| ->]; [left|right]; (split; [done|]); unfold APIRoot; cbn; [apply slashed_ensure|].
  split; apply slashed_ensure.
Qed.

Lemma build_log_ok r op proto : is_ok (buildLog b64 parse_time map_order r op proto) = true <-> has_id b64 r.
Proof.
  unfold buildLog, has_id. setoid_rewrite <- decode_id_ok. destruct (decodeLogID b64 (rl_LogID r)) as [id|e|]; cbn.
  - destruct (pickState _ _ _) as [[st since] size]. split; [intros _; by exists id|done].
  - split; [done|]. by intros [? ?].
  - split; [done|]. by intros [? ?].
Qed.

(** One section of an operator: what it appends, and when it fails. *)
Lemma parse_logs_spec what proto op rls out :
  proto = ProtocolRFC6962 \/ proto = ProtocolStaticCT ->
  (forall out', parse_logs b64 parse_time quote map_order what proto op rls out = Ok out' ->
     exists ls, out' = out ++ ls /\ Forall2 (describes b64 parse_time) (map (fun r => (ro_Name op, proto, r)) rls) ls) /\
  (is_ok (parse_logs b64 parse_time quote map_order what proto op rls out) = true <-> Forall (has_id b64) rls).
Proof.
  intros Hp. revert out. induction rls as [|rl rls IH]; intros out; cbn [parse_logs map].
  { split; [intros out' [= <-]; exists []; by rewrite app_nil_r|]. split; [by constructor|done]. }
  rewrite Forall_cons, <- (build_log_ok rl (ro_Name op) proto).
  destruct (buildLog b64 parse_time map_order rl (ro_Name op) proto) as [l|e|] eqn:Eb; cbn [wrap_err bind_res is_ok].
  - destruct (IH (out ++ [l])) as [H1 H2]. split; [|by rewrite H2; naive_solver].
    intros out' (ls & -> & Hls)%H1. exists (l :: ls). rewrite <- app_assoc. split; [done|].
    constructor; [by apply build_log_spec|done].
  - split; [done|]. naive_solver.
  - split; [done|]. naive_solver.
Qed.

Lemma parse_operators_spec raw out :
  (forall out', parse_operators b64 parse_time quote map_order raw out = Ok out' ->
     exists ls, out' = out ++ ls /\ Forall2 (describes b64 parse_time) (listed raw) ls) /\
  (is_ok (parse_operators b64 parse_time quote map_order raw out) = true <-> Forall (fun e => has_id b64 e.2) (listed raw)).
Proof.
  revert out. induction raw as [|op raw IH]; intros out; cbn [parse_operators].
  { split; [intros out' [= <-]; exists []; by rewrite app_nil_r|]. split; [by constructor|done]. }
  change (listed (op :: raw)) with ((map (fun r => (ro_Name op, ProtocolRFC6962, r)) (ro_Logs op) ++
    map (fun r => (ro_Name op, ProtocolStaticCT, r)) (ro_TiledLogs op)) ++ listed raw).
  rewrite !Forall_app, !Forall_map. cbn [snd].
  destruct (parse_logs_spec "log" ProtocolRFC6962 op (ro_Logs op) out ltac:(by left)) as [A1 A2].
  destruct (parse_logs _ _ _ _ "log" _ op _ out) as [out1|e|] eqn:E1; cbn [bind_res is_ok] in *;
    [|split; [done|]; naive_solver..].
  destruct (A1 _ eq_refl) as (ls1 & -> & D1). clear A1.
  destruct (parse_logs_spec "tiled_log" ProtocolStaticCT op (ro_TiledLogs op) (out ++ ls1) ltac:(by right)) as [B1 B2].
  destruct (parse_logs _ _ _ _ "tiled_log" _ op _ (out ++ ls1)) as [out2|e|] eqn:E2; cbn [bind_res is_ok] in *;
    [|split; [done|]; naive_solver..].
  destruct (B1 _ eq_refl) as (ls2 & -> & D2). clear B1.
  destruct (IH ((out ++ ls1) ++ ls2)) as [C1 C2]. split; [|rewrite C2; naive_solver].
  intros out' (ls & -> & D)%C1. exists ((ls1 ++ ls2) ++ ls). rewrite !app_assoc. split; [done|].
  by apply Forall2_app; [apply Forall2_app|].
Qed.

End ParseSpec.

(** *** The snapshot file *)

Lemma write_atomic_spec net p d w r w' :
  run net (writeAtomic p d) w = (r, w') ->
  (files w' !! p = files w !! p \/ files w' !! p = Some d) /\ (r = Ok tt -> files w' !! p = Some d) /\
  forall q, q <> p -> q <> (p +:+ ".tmp")%string -> files w' !! q = files w !! q.
Proof.
  assert (Htmp : p <> (p +:+ ".tmp")%string).
  { intros E. apply (f_equal String.length) in E. rewrite str_length_app in E. cbn in E. lia. }
  unfold writeAtomic, try_prog. rewrite run_bind.
  assert (Hmk : exists r1 w1, run net (if String.eqb (Dir p) "." then Ret (Ok tt) else call (MkdirAll (Dir p))) w = (r1, w1) /\
    files w1 = files w).
  { destruct (String.eqb (Dir p) "."); [by exists (Ok tt), w|]. cbn [run call].
    destruct (exec net (MkdirAll (Dir p)) w) as [r1 w1] eqn:E. exists r1, w1. split; [done|].
    by apply exec_MkdirAll in E as [E _]. }
  destruct Hmk as (r1 & w1 & -> & <-). destruct r1 as [[]|e|]; [|intros [= <- <-]; by split_and!; [left|..]..].
  rewrite run_bind. cbn [run call]. destruct (exec net (WriteFile _ d) w1) as [r2 w2] eqn:E2.
  apply exec_WriteFile in E2 as (Hok & Hoth & _). cbn [run].
  destruct r2 as [[]|e|]; cbn [run]; [|intros [= <- <-]; split; [left; by apply Hoth|]; split; [done|]; auto..].
  specialize (Hok eq_refl). cbn [run call]. destruct (exec net (Rename (p +:+ ".tmp") p) w2) as [r3 w3] eqn:E3. intros [= <- <-].
  apply exec_Rename in E3 as [[(-> & x & Hx & F)|(Hr & F)] _]; rewrite F.
  - rewrite Hok, lookup_insert_eq in Hx. injection Hx as <-. rewrite lookup_insert_eq. split; [by right|]. split; [done|].
    intros q Hq Hqt. by rewrite lookup_insert_ne, lookup_delete_ne, Hoth.
  - split; [left; by apply Hoth|]. split; [done|]. auto.
Qed.

Section Snapshot.

Context (json_list : bytes -> res (list rawOperator)) (b64 : string -> res bytes) (parse_time : string -> res Z).
Context (quote : string -> string) (map_order : gmap string rawStateVal -> list (string * rawStateVal)).
Context (net : bytes -> res bytes).

Abbreviation Parse := (ParseLogList json_list b64 parse_time quote map_order).

(** The snapshot holds what it held or one whole download. *)
Definition whole (url path : string) (ticks : list (string -> res (Z * res bytes))) (w w' : world) : Prop :=
  (files w' !! path = files w !! path \/
   exists g data, g ∈ ticks /\ fetchBytes url g = Ok data /\ files w' !! path = Some data) /\
  forall q, q <> path -> q <> (path +:+ ".tmp")%string -> files w' !! q = files w !! q.

Lemma whole_refl url path ticks w w' : files w' = files w -> whole url path ticks w w'.
Proof. intros E. split; rewrite E; auto. Qed.

Lemma write_whole url path g ticks data w r w' :
  g ∈ ticks -> fetchBytes url g = Ok data -> run net (writeAtomic path data) w = (r, w') -> whole url path ticks w w'.
Proof. intros Hg Hf (H & _ & Ho)%write_atomic_spec. split; [|done]. destruct H; [by left|right; eauto]. Qed.

Lemma whole_cons url path g ticks w w1 w' :
  whole url path [g] w w1 -> whole url path ticks w1 w' -> whole url path (g :: ticks) w w'.
Proof.
  intros [H1 O1] [H2 O2]. split; [|intros q Hq Hq'; rewrite O2, O1; done].
  destruct H2 as [E|(g' & data & Hg & Hf & E)]; [|right; exists g', data; split; [by right|done]].
  rewrite E. destruct H1 as [H1|(g' & data & Hg & Hf & E')]; [by left|]. right. exists g', data. split; [|done].
  apply list_elem_of_singleton in Hg as ->. by left.
Qed.

Lemma refresh_loop_whole url path ticks w :
  whole url (snapshot_path path) ticks w (run net (RefreshLoop url path ticks) w).2.
Proof.
  revert w. induction ticks as [|g ticks IH]; intros w; [by apply whole_refl|]. cbn [RefreshLoop]. rewrite run_bind.
  destruct (fetchBytes url g) as [data|e|] eqn:Ef.
  2,3: eapply whole_cons; [|apply IH]; by apply whole_refl.
  destruct (run net (writeAtomic _ data) w) as [r w1] eqn:E.
  eapply whole_cons; [|apply IH]. eapply write_whole; [by left|done|done].
Qed.

(** Where the catalog of a call comes from. *)
Definition catalog_source (path url : string) (young : bool) (g : string -> res (Z * res bytes)) (w : world)
    (r : res (list Log)) : Prop :=
  (exists data, files w !! path = Some data /\ r = Parse data /\ (young = true \/ is_ok (fetchBytes url g) = false)) \/
  (exists data, fetchBytes url g = Ok data /\ r = Parse data) \/
  (exists e, fetchBytes url g = Err e /\ r = Err e).

Lemma fetch_or_stale_spec url path young g w w0 r w' :
  fetchBytes url g <> Panic -> files w = files w0 ->
  run net (fetch_or_stale json_list b64 parse_time quote map_order url path g) w = (r, w') ->
  catalog_source path url young g w0 r /\ whole url path [g] w0 w'.
Proof.
  intros Hnp Hf. unfold fetch_or_stale. destruct (fetchBytes url g) as [data|e|] eqn:Ef; [| |done].
  - rewrite run_bind. destruct (run net (writeAtomic path data) w) as [r1 w1] eqn:E. intros [= <- <-].
    split; [right; left; eauto|]. apply (write_whole url path g [g]) in E; [|by left|done].
    destruct E as [E1 E2]. rewrite Hf in E1. split; [done|]. intros q. rewrite <- Hf. apply E2.
  - rewrite run_bind. cbn [run call]. destruct (exec net (ReadFile path) w) as [r1 w1] eqn:E. cbn [run].
    apply exec_ReadFile in E as (F & _ & Hr). intros [= <- <-]. split; [|apply whole_refl; congruence].
    destruct r1 as [data|e1|]; [left|right; right; by exists e..]. exists data. rewrite <- Hf. split; [by apply Hr|].
    rewrite Ef. by split; [|right].
Qed.

Lemma load_or_fetch_spec url p young g w r w' :
  fetchBytes url g <> Panic ->
  run net (LoadOrFetch json_list b64 parse_time quote map_order url p young g) w = (r, w') ->
  catalog_source (snapshot_path p) url young g w r /\ whole url (snapshot_path p) [g] w w'.
Proof.
  intros Hnp. unfold LoadOrFetch. rewrite run_bind. cbn [run call].
  destruct (exec net (Stat _) w) as [r1 w1] eqn:E1. apply exec_Stat in E1 as (F1 & _). cbn [run].
  destruct r1 as [[]|e|]; [destruct young|..]; try by apply fetch_or_stale_spec.
  rewrite run_bind. cbn [run call]. destruct (exec net (ReadFile _) w1) as [r2 w2] eqn:E2.
  apply exec_ReadFile in E2 as (F2 & _ & Hr). cbn [run].
  destruct r2 as [data|e|]; [|apply fetch_or_stale_spec; [done|congruence]..].
  intros [= <- <-]. split; [|apply whole_refl; congruence]. left. exists data. rewrite <- F1. split; [by apply Hr|].
  by split; [|left].
Qed.

End Snapshot.

(** ** Properties *)

(** ParseLogList succeeds exactly when every listed log has a base64 id of
    32 bytes, and then gives one record per listed log, in the document's order
    and RFC 6962 logs of an operator before its tiled ones: id, names, a state
    the log has, and API roots that end in a slash. *)
Theorem parse_log_list_exact (json_list : bytes -> res (list rawOperator)) (b64 : string -> res bytes)
  (parse_time : string -> res Z) (quote : string -> string)
  (map_order : gmap string rawStateVal -> list (string * rawStateVal)) (data : bytes) (raw : list rawOperator)
  (Horder : forall m, map_order m ≡ₚ map_to_list m)
  (Hjson : json_list data = Ok raw) :
  (is_ok (ParseLogList json_list b64 parse_time quote map_order data) = true
     <-> Forall (fun e => has_id b64 e.2) (listed raw)) /\
  forall out, ParseLogList json_list b64 parse_time quote map_order data = Ok out ->
    Forall2 (describes b64 parse_time) (listed raw) out.
Proof.
  unfold ParseLogList. rewrite Hjson. cbn [wrap_err bind_res].
  destruct (parse_operators_spec json_list b64 parse_time quote map_order Horder raw []) as [H1 H2].
  split; [done|]. by intros out (ls & -> & Hls)%H1.
Qed.

(** C33. Whatever file operation fails or stops halfway, LoadOrFetch returns the
    parse of the whole snapshot (when it is young, or when the download failed)
    or of the whole download, else the download's error; and afterwards the
    snapshot file is what it was or the whole download, every file but it and
    its .tmp being untouched. *)
Theorem load_or_fetch_whole (json_list : bytes -> res (list rawOperator)) (b64 : string -> res bytes)
  (parse_time : string -> res Z) (quote : string -> string)
  (map_order : gmap string rawStateVal -> list (string * rawStateVal)) (net : bytes -> res bytes)
  (url p : string) (young : bool) (g : string -> res (Z * res bytes)) (w w' : world) (r : res (list Log))
  (Hnp : fetchBytes url g <> Panic)
  (Hrun : run net (LoadOrFetch json_list b64 parse_time quote map_order url p young g) w = (r, w')) :
  catalog_source json_list b64 parse_time quote map_order (snapshot_path p) url young g w r /\
  whole url (snapshot_path p) [g] w w'.
Proof. by eapply load_or_fetch_spec. Qed.

(** ** Witnesses and findings *)

Definition sample_raw : list rawOperator :=
  [mkRawOp "Op" [mkRawLog "log a" "ok" "https://a" "" "" 86400 {["usable" := mkRawState "t" None]} None]
     [mkRawLog "log b" "ok" "" "https://b/" "https://mon.b" 60 ∅ None]].
Definition sample_b64 (s : string) : res bytes := if String.eqb s "ok" then Ok (repeat x07 32) else Err (Errorf "bad").

Lemma parse_log_list_exact_witness :
  Forall2 (describes sample_b64 (fun _ => Ok 5)) (listed sample_raw)
    [mkLog (repeat x07 32) "log a" "Op" "rfc6962" "usable" (Some 5) "https://a/" "" 86400000000000 None None 0;
     mkLog (repeat x07 32) "log b" "Op" "static-ct-api" "" None "https://b/" "https://mon.b/" 60000000000 None None 0].
Proof.
  apply (parse_log_list_exact (fun _ => Ok sample_raw) sample_b64 (fun _ => Ok 5) id map_to_list [] sample_raw
    (fun m => reflexivity _) eq_refl). vm_compute. reflexivity.
Defined.

Definition snap_world (fs : list fault) : world :=
  mkWorld {["data/log_list.json" := [x01]]} {["data"]} fs 0 [] ∅ 0 0 [] 0 0 (-1) (-1).
Definition serve (d : bytes) (_ : string) : res (Z * res bytes) := Ok (200, Ok d).
Definition no_list (d : bytes) : res (list rawOperator) := Ok [].

(** The write of the new list stops halfway: the old snapshot stays. *)
Lemma load_or_fetch_whole_witness :
  let out := run (fun _ => Err EOF) (LoadOrFetch no_list sample_b64 (fun _ => Err EOF) id map_to_list "" "" false
               (serve [x02; x03])) (snap_world [NoFault; NoFault; Torn 1]) in
  out.1 = Ok [] /\ files out.2 !! "data/log_list.json" = Some [x01] /\
  whole "" "data/log_list.json" [serve [x02; x03]] (snap_world [NoFault; NoFault; Torn 1]) out.2.
Proof.
  split; [vm_compute; reflexivity|]. split; [vm_compute; reflexivity|].
  refine (proj2 (load_or_fetch_whole no_list sample_b64 (fun _ => Err EOF) id map_to_list (fun _ => Err EOF) "" "" false
    (serve [x02; x03]) (snap_world [NoFault; NoFault; Torn 1]) _ _ _ (surjective_pairing _))). vm_compute. discriminate.
Defined.

(** The server's RefreshLoop and IngestAll's LoadOrFetch share path.tmp: when a
    second write of it stops halfway before the first is renamed, the snapshot
    is neither the old list nor a whole download. *)
Lemma concurrent_writes_tear :
  let w := (sched (fun _ => Err EOF) [0; 0; 1; 1; 0]%nat
              [writeAtomic "data/log_list.json" [x02; x02]; writeAtomic "data/log_list.json" [x03; x03]]
              (snap_world [NoFault; NoFault; NoFault; Torn 1])).2 in
  files w !! "data/log_list.json" = Some [x03].
Proof. vm_compute. reflexivity. Qed.
