(* ===== verification/LogClient.v ===== *)
(** internal/ctlog/log_client.go: the Go interface [LogClient] as a class, its
    two implementations (the tile client and the RFC 6962 client of
    CtlogClient.v), and the law the ingestion workers rely on. *)

From S2P Require Import Prelude GoStd CtlogParse CtlogClient.

(** ** Definitions *)

(** [C] is the client with its issuer cache; the network's answers are part of
    the client. *)
Class LogClient (C : Type) := {
  TreeSize : C -> res Z;
  FetchEntries : C -> Z -> Z -> C * res (list LogLeaf);
  FetchIssuer : C -> bytes -> res bytes }.

(** *** TileClient.TreeSize: the checkpoint's second line *)

Definition is_space (c : ascii) : bool :=
  let n := Z.of_N (N_of_ascii c) in (n =? 32) || (9 <=? n) && (n <=? 13).

Fixpoint trim_left (s : string) : string :=
  match s with
  | String c s' => if is_space c then trim_left s' else s
  | "" => ""
  end.

Definition str_rev (s : string) : string := string_of_list_ascii (rev (list_ascii_of_string s)).

(** [strings.TrimSpace] of an ASCII string. *)
Definition trim_space (s : string) : string := str_rev (trim_left (str_rev (trim_left s))).

(** [strings.Split] at a one-character separator. *)
Fixpoint split_on (sep : ascii) (s : string) : list string :=
  match s with
  | "" => [""]
  | String c s' =>
      if Ascii.eqb c sep then "" :: split_on sep s'
      else match split_on sep s' with
           | [] => [String c ""]
           | x :: xs => String c x :: xs
           end
  end.

Fixpoint take_digits (s : string) : string :=
  match s with
  | String c s' => if is_digit c then String c (take_digits s') else ""
  | "" => ""
  end.

(** [fmt.Sscanf(s, "%d", &size)] into an int64. *)
Definition sscanf_int (s : string) : res Z :=
  let s := trim_left s in
  let '(neg, s) := match s with
                   | String "-" s' => (true, s')
                   | String "+" s' => (false, s')
                   | _ => (false, s)
                   end in
  let ds := take_digits s in
  if String.eqb ds "" then Err (Errorf "expected integer") else
  let n := if (neg : bool) then - dec_val 0 ds else dec_val 0 ds in
  if (min_int64 <=? n) && (n <=? max_int64) then Ok n else Err (Errorf "integer overflow on token").

Definition newline : ascii := ascii_of_N 10.

Definition parse_checkpoint (body : bytes) : res Z :=
  match split_on newline (trim_space (String.string_of_list_byte body)) with
  | _ :: line1 :: _ => wrap_err "checkpoint parse" (sscanf_int line1)
  | _ => Err (Errorf "checkpoint: unexpected format")
  end.

Definition TileClient_TreeSize (c : tile_client) : res Z :=
  let? body := wrap_err "checkpoint" (tc_get c (logRoot c +:+ "checkpoint")) in
  parse_checkpoint body.

#[export] Instance TileClient_LogClient : LogClient tile_client := {
  TreeSize := TileClient_TreeSize;
  FetchEntries c start end_ := (c, TileClient_FetchEntries c start end_);
  FetchIssuer := TileClient_FetchIssuer }.

(** *** RFC6962Client *)

Record rfc_client := mkRFC {
  rc_get : string -> res bytes;
  rc_json_entries : bytes -> res (list (string * string));
  rc_json_sth : bytes -> res Z;          (* json.Unmarshal into tree_size *)
  rc_b64 : string -> res bytes;
  rc_apiRoot : string;
  rc_issuers : issuer_map }.

(** NewRFC6962Client *)
Definition NewRFC6962Client (getf : string -> res bytes) (je : bytes -> res (list (string * string)))
    (js : bytes -> res Z) (b64 : string -> res bytes) (apiRoot : string) : rfc_client :=
  mkRFC getf je js b64 (if has_suffix apiRoot "/" then apiRoot else (apiRoot +:+ "/")%string) ∅.

Definition RFC6962_TreeSize (c : rfc_client) : res Z :=
  let? body := wrap_err "get-sth" (rc_get c (rc_apiRoot c +:+ "ct/v1/get-sth")) in
  wrap_err "parse sth" (rc_json_sth c body).

Definition set_issuers (c : rfc_client) (m : issuer_map) : rfc_client :=
  mkRFC (rc_get c) (rc_json_entries c) (rc_json_sth c) (rc_b64 c) (rc_apiRoot c) m.

Definition RFC6962_fetch (c : rfc_client) (start end_ : Z) : rfc_client * res (list LogLeaf) :=
  let '(m, r) := default (rc_issuers c, Panic)
    (RFC6962_FetchEntries (rc_get c) (rc_json_entries c) (rc_b64 c) (rc_apiRoot c) (rc_issuers c) start end_) in
  (set_issuers c m, r).

#[export] Instance RFC6962Client_LogClient : LogClient rfc_client := {
  TreeSize := RFC6962_TreeSize;
  FetchEntries := RFC6962_fetch;
  FetchIssuer c fp := RFC6962_FetchIssuer (rc_issuers c) fp }.

(** ** What a client promises *)

(** Entry counts stay far from the end of int64. *)
Definition max_tree : Z := 2305843009213693952.

(** On the ranges a worker asks for, what a good client answers is numbered
    consecutively from the start of the range, and it stays good. *)
Class LogClientLaws (C : Type) `{LogClient C} (good : C -> Prop) := {
  fetch_good c a b : good c -> 0 <= a < b -> b <= max_tree -> b - a <= 256 -> good (FetchEntries c a b).1;
  fetch_numbered c a b ls :
    good c -> 0 <= a < b -> b <= max_tree -> b - a <= 256 -> (FetchEntries c a b).2 = Ok ls ->
    CtlogParse.EntryIdx <$> ls = seqZ a (Z.of_nat (length ls)) /\ a + Z.of_nat (length ls) <= 2 * max_tree }.

(** A static-ct server answers whole tiles or errors. *)
Definition full_tiles (c : tile_client) : Prop :=
  forall t ls, FetchTile c t TileSize = Ok ls -> length ls = 256%nat.

(** An RFC 6962 server's pages are shorter than 2^61 entries. *)
Definition short_pages (c : rfc_client) : Prop :=
  forall m s e m' page,
    fetchEntriesPage (rc_get c) (rc_json_entries c) (rc_b64 c) (rc_apiRoot c) m s e = (m', Ok page) ->
    Z.of_nat (length page) <= max_tree.

(** ** Lemmas *)

Lemma seqZ_nil a n : n <= 0 -> seqZ a n = [].
Proof. intros H. unfold seqZ. by replace (Z.to_nat n) with 0%nat by lia. Qed.

Lemma keep_leaves_idx ls idx start end_ :
  CtlogParse.EntryIdx <$> keep_leaves ls idx start end_ =
  seqZ (Z.max idx start) (Z.min (idx + Z.of_nat (length ls)) end_ - Z.max idx start).
Proof.
  revert idx. induction ls as [|l ls IH]; intros idx; cbn [keep_leaves length].
  { rewrite seqZ_nil; [done|lia]. }
  destruct (Z.ltb_spec idx start), (Z.leb_spec end_ idx); cbn [orb]; try (rewrite IH; f_equal; lia).
  - rewrite IH. rewrite !seqZ_nil; [done|lia..].
  - rewrite fmap_cons, IH. rewrite (seqZ_cons (Z.max idx start)) by lia.
    f_equal; [cbn; unfold tileLeafToLogLeaf; cbn; lia|]. f_equal; lia.
Qed.

Lemma fetch_tiles_idx c n t start end_ out ls :
  full_tiles c -> fetch_tiles_loop n c t start end_ out = Ok ls ->
  CtlogParse.EntryIdx <$> ls = (CtlogParse.EntryIdx <$> out) ++
    seqZ (Z.max (256 * t) start) (Z.min (256 * (t + Z.of_nat n)) end_ - Z.max (256 * t) start).
Proof.
  intros Hf. revert t out. induction n as [|n IH]; intros t out; cbn [fetch_tiles_loop].
  { intros [= <-]. rewrite seqZ_nil by lia. by rewrite app_nil_r. }
  destruct (FetchTile c t TileSize) as [leaves|e|] eqn:E; cbn [bind_res]; [|done..].
  intros H%IH. rewrite H, fmap_app, keep_leaves_idx, <- app_assoc, (Hf _ _ E). f_equal.
  unfold TileSize.
  destruct (Z.le_gt_cases (Z.min (256 * (t + 1)) end_) (Z.max (256 * t) start)).
  - rewrite seqZ_nil by lia. cbn. destruct (Z.le_gt_cases (256 * (t + 1)) start).
    + f_equal; lia.
    + rewrite !seqZ_nil; [done|lia..].
  - rewrite (Z.mul_comm t 256). change (Z.of_nat 256) with 256.
    replace (Z.min (256 * (t + Z.of_nat (S n))) end_ - Z.max (256 * t) start)
      with ((Z.min (256 * t + 256) end_ - Z.max (256 * t) start) +
            Z.max 0 (Z.min (256 * (t + 1 + Z.of_nat n)) end_ - Z.max (256 * (t + 1)) start)) by lia.
    rewrite seqZ_app by lia. f_equal.
    destruct (Z.le_gt_cases (Z.min (256 * (t + 1 + Z.of_nat n)) end_) (Z.max (256 * (t + 1)) start)).
    + rewrite !seqZ_nil; [done|lia..].
    + f_equal; lia.
Qed.

#[export] Instance TileClient_laws : LogClientLaws tile_client full_tiles.
Proof.
  assert (Hun : forall c a b, 0 <= a < b -> b - a <= 256 -> TileClient_FetchEntries c a b =
    fetch_tiles_loop (Z.to_nat ((b - 1) / 256 - a / 256 + 1)) c (a / 256) a b []).
  { intros c a b Ha Hb. unfold TileClient_FetchEntries.
    destruct (Z.ltb_spec a 0), (Z.ltb_spec b a), (Z.eqb_spec a b); try lia. cbn [orb].
    unfold make_ok. destruct (Z.leb_spec 0 ((b - a) * 8)), (Z.leb_spec ((b - a) * 8) 281474976710656); try lia.
    cbn [andb negb]. unfold TileSize. by rewrite !Z.quot_div_nonneg by lia. }
  split; cbn; intros c a b; [done|].
  - intros ls Hc Ha Hmax Hb. rewrite Hun by done. intros H.
    pose proof (fetch_tiles_idx _ _ _ _ _ _ _ Hc H) as Hi. rewrite app_nil_l in Hi.
    assert (256 * (a / 256) <= a < 256 * (a / 256) + 256 /\
      256 * ((b - 1) / 256) <= b - 1 < 256 * ((b - 1) / 256) + 256 /\ a / 256 <= (b - 1) / 256) as (H1 & H2 & H3) by div_lia.
    rewrite Z.max_r, Z.min_r in Hi by lia.
    assert (length ls = Z.to_nat (b - a)) as Hl.
    { apply (f_equal length) in Hi. by rewrite length_fmap, length_seqZ in Hi. }
    rewrite Hi, Hl. split; [f_equal; lia|]. unfold max_tree in *. lia.
Qed.

Lemma fetch_entries_bound c fuel m cursor end_ out m' ls start :
  short_pages c -> end_ <= max_tree -> start + Z.of_nat (length out) <= 2 * max_tree ->
  cursor = start + Z.of_nat (length out) -> 0 <= start ->
  fetch_entries_loop (rc_get c) (rc_json_entries c) (rc_b64 c) (rc_apiRoot c) fuel m cursor end_ out = Some (m', Ok ls) ->
  start + Z.of_nat (length ls) <= 2 * max_tree.
Proof.
  intros Hc Hend. revert m cursor out. induction fuel as [|fuel IH]; intros m cursor out Hout Hcur Hs; [done|].
  cbn [fetch_entries_loop]. destruct (Z.ltb_spec cursor end_) as [Hlt|Hge]; [|by intros [= <- <-]].
  destruct (fetchEntriesPage _ _ _ _ m cursor (end_ - 1)) as [m1 [page|e|]] eqn:E; [|done..].
  apply Hc in E. destruct page as [|l page]; [by intros [= <- <-]|]. remember (l :: page) as pg.
  unfold max_tree in *. apply IH.
  - rewrite length_app, number_page_length. lia.
  - rewrite length_app, number_page_length, wrap64_id by go_lia. lia.
  - done.
Qed.

#[export] Instance RFC6962Client_laws : LogClientLaws rfc_client short_pages.
Proof.
  split; cbn; intros c a b.
  { intros Hc _ _ _. unfold RFC6962_fetch. destruct (default _ _) as [m r]. exact Hc. }
  intros ls Hc Ha Hmax Hb. unfold RFC6962_fetch, RFC6962_FetchEntries.
  destruct (Z.ltb_spec a 0), (Z.ltb_spec b a), (Z.eqb_spec a b); try lia. cbn [orb].
  destruct (fetch_entries_loop_spec (rc_get c) (rc_json_entries c) (rc_b64 c) (rc_apiRoot c) a
    (S (Z.to_nat (b - a))) (rc_issuers c) a b []) as (m' & r & Hr & _ & Hok).
  - intros m s m' page _ Hp. apply Hc in Hp. unfold max_tree in *. go_lia.
  - lia.
  - cbn. lia.
  - unfold max_tree in *. go_lia.
  - done.
  - lia.
  - by intros ? ? ?%elem_of_nil.
  - rewrite Hr. cbn. intros ->. split; [by apply Hok|].
    apply (fetch_entries_bound _ _ _ _ _ _ _ _ a Hc Hmax) in Hr; [done| |cbn; lia|lia].
    cbn. unfold max_tree in *. lia.
Qed.
