(* ===== verification/Leaf.v ===== *)
(** internal/ingestion: from a log entry's certificate to the row of the
    subjects table — processLeaf and processLogLeaf with their helpers. The X.509
    parsers are parameters; a [Certificate] is what the code reads of their
    results. *)

From S2P Require Import Prelude GoStd Netip Sha256 CtlogParse Partition SubjectDB.

(** ** Definitions *)

(** *** package net: IP.String *)

Definition dotted (b : bytes) : string := String.concat "." (map (fun x => dec (bval x)) b).

Fixpoint groups16 (b : bytes) : list Z :=
  match b with
  | x :: y :: b' => (bval x * 256 + bval y) :: groups16 b'
  | _ => []
  end.

(** Lower-case hexadecimal without leading zeros, for 16-bit groups. *)
Definition hex16 (n : Z) : string :=
  let d k := hex_digit (n / 16 ^ k mod 16) in
  if 4096 <=? n then String (d 3) (String (d 2) (String (d 1) (String (d 0) "")))
  else if 256 <=? n then String (d 2) (String (d 1) (String (d 0) ""))
  else if 16 <=? n then String (d 1) (String (d 0) "")
  else String (d 0) "".

Fixpoint zero_run (gs : list Z) : nat :=
  match gs with
  | 0 :: gs' => S (zero_run gs')
  | _ => O
  end.

(** The first longest run of at least two zero groups: its start and end. *)
Fixpoint longest_zeros (i : nat) (gs : list Z) (best : nat * nat) : nat * nat :=
  match gs with
  | [] => best
  | _ :: gs' =>
      let l := zero_run gs in
      longest_zeros (S i) gs'
        (if ((2 <=? l)%nat && (best.2 - best.1 <? l)%nat)%bool then (i, (i + l)%nat) else best)
  end.

Definition hex_groups (gs : list Z) : string := String.concat ":" (map hex16 gs).

Definition ip6_string (b : bytes) : string :=
  let gs := groups16 b in
  let '(z0, z1) := longest_zeros 0 gs (0%nat, 0%nat) in
  if (z0 =? z1)%nat then hex_groups gs
  else (hex_groups (take z0 gs) +:+ "::" +:+ hex_groups (drop z1 gs))%string.

Definition ip_string (ip : bytes) : string :=
  if (length ip =? 0)%nat then "<nil>"
  else if (length ip =? 4)%nat then dotted ip
  else if (length ip =? 16)%nat then
    if bool_decide (take 12 ip = v4_mapped) then dotted (drop 12 ip) else ip6_string ip
  else ("?" +:+ hex_encode ip)%string.

(** *** Times: Format("2006-01-02T15:04:05Z") of a UTC time in Unix seconds *)

Definition format_time (t : Z) : string :=
  let sod := t mod 86400 in
  (format_date (t / 86400) +:+ "T" +:+ pad_int 2 (sod / 3600) +:+ ":" +:+
   pad_int 2 (sod / 60 mod 60) +:+ ":" +:+ pad_int 2 (sod mod 60) +:+ "Z")%string.

(** *** Certificates *)

Record Certificate := mkCert {
  ce_CommonName : string; ce_Organization : list string; ce_Province : list string; ce_Country : list string;
  ce_SerialNumber : option Z; ce_DNSNames : list string; ce_IPAddresses : list bytes;
  ce_NotBefore : Z; ce_NotAfter : Z }.

(** The lenient parser's certificate, copied field by field: no IP addresses. *)
Definition convertCTCert (c : Certificate) : Certificate :=
  mkCert (ce_CommonName c) (ce_Organization c) (ce_Province c) (ce_Country c)
    (ce_SerialNumber c) (ce_DNSNames c) [] (ce_NotBefore c) (ce_NotAfter c).

(** [big.Int.Bytes]: the absolute value, big-endian and minimal. *)
Definition int_bytes (z : Z) : bytes :=
  if z =? 0 then [] else be_bytes (Z.to_nat (Z.log2 (Z.abs z) / 8 + 1)) (Z.abs z).

Definition serialHex (n : option Z) : string :=
  match n with None => "" | Some z => hex_encode (int_bytes z) end.

Fixpoint first_plain (sans : list string) : option string :=
  match sans with
  | [] => None
  | san :: sans => if has_prefix san "*." then first_plain sans else Some san
  end.

Definition buildURL (sans : list string) (cn : string) : string :=
  match first_plain sans with
  | Some san => ("https://" +:+ san)%string
  | None =>
      match sans with
      | san :: _ => ("https://" +:+ trim_prefix san "*.")%string
      | [] => if String.eqb cn "" then "" else ("https://" +:+ cn)%string
      end
  end.

Record issuerInfo := mkInfo {
  ii_caID : Z; ii_commonName : string; ii_organization : string; ii_country : string }.

(** The v1 stream message. *)
Record SubjectRecord := mkRecord {
  sr_Url : string; sr_CommonName : string; sr_Organization : string; sr_State : string; sr_Country : string;
  sr_CaId : Z; sr_SanDomains : list string; sr_NotBefore : string; sr_NotAfter : string;
  sr_IssuerCommonName : string; sr_IssuerOrganization : string; sr_IssuerCountry : string;
  sr_SerialNumber : string; sr_CtLogUri : string }.

Section Leaves.

(** [x509.ParseCertificate] and certificate-transparency-go's. *)
Variable std_parse ct_parse : bytes -> res Certificate.

Definition parseAnyCert (der : bytes) : res Certificate :=
  match std_parse der with
  | Ok cert => Ok cert
  | Err err =>
      match ct_parse der with
      | Ok ctCert => Ok (convertCTCert ctCert)
      | Err ctErr => Err (Errorf ("std: " +:+ error_text err +:+ "; ct: " +:+ error_text ctErr))
      | Panic => Panic
      end
  | Panic => Panic
  end.

Definition parseCert (leaf : TileLeaf) : res Certificate :=
  match tl_Certificate leaf with
  | [] => Err (Errorf "no certificate data")
  | _ :: _ => parseAnyCert (tl_Certificate leaf)
  end.

Definition parseCertLogLeaf (leaf : LogLeaf) : res Certificate :=
  match ll_Certificate leaf with
  | [] => Err (Errorf "no certificate data")
  | _ :: _ => parseAnyCert (ll_Certificate leaf)
  end.

Definition leaf_info (fps : list bytes) (cache : gmap bytes issuerInfo) : option issuerInfo :=
  match fps with [] => None | fp :: _ => cache !! fp end.

Definition is_wildcard_san (s : string) : bool := has_prefix s "*.".

Definition entry_type_string (t : CtlogParse.EntryType) : string :=
  match t with EntryUnset => "" | EntryX509 => "x509" | EntryPrecert => "precert" end.

(** service.go: the row and the stream record of a tile's entry. *)
Definition processLeaf (leaf : TileLeaf) (tileIdx entryIdx : Z) (ctLogURI : string)
    (issuerCache : gmap bytes issuerInfo) : res (SubjectRecord * Subject) :=
  let? cert := wrap_err "parse cert" (parseCert leaf) in
  let info := leaf_info (tl_ChainFingerprints leaf) issuerCache in
  let cn := ce_CommonName cert in
  let org := default "" (head (ce_Organization cert)) in
  let state := default "" (head (ce_Province cert)) in
  let country := default "" (head (ce_Country cert)) in
  let serial := serialHex (ce_SerialNumber cert) in
  let sans := ce_DNSNames cert in
  let ips := map ip_string (ce_IPAddresses cert) in
  let notBefore := format_time (ce_NotBefore cert) in
  let notAfter := format_time (ce_NotAfter cert) in
  let subjectURL := buildURL sans cn in
  let isWildcard := if existsb is_wildcard_san sans then 1 else 0 in
  let entryType := if tl_EntryType leaf =? EntryTypePrecert then "precert" else "x509" in
  let caID := match info with Some i => ii_caID i | None => 0 end in
  let issuerCN := match info with Some i => ii_commonName i | None => "" end in
  let issuerOrg := match info with Some i => ii_organization i | None => "" end in
  let issuerCountry := match info with Some i => ii_country i | None => "" end in
  Ok (mkRecord subjectURL cn org state country caID sans notBefore notAfter issuerCN issuerOrg issuerCountry
        serial ctLogURI,
      mkSubject caID serial cn org state country notBefore notAfter (String.concat "," sans) (String.concat "," ips)
        subjectURL isWildcard (Z.of_nat (length sans)) entryType tileIdx entryIdx [] []).

(** multilog.go: the row of a log entry, keyed by its certificate's hash. *)
Definition processLogLeaf (leaf : LogLeaf) (logID : bytes) (cache : gmap bytes issuerInfo) : res Subject :=
  let? cert := wrap_err "parse cert" (parseCertLogLeaf leaf) in
  let info := leaf_info (ll_ChainFingerprints leaf) cache in
  let cn := ce_CommonName cert in
  let org := default "" (head (ce_Organization cert)) in
  let state := default "" (head (ce_Province cert)) in
  let country := default "" (head (ce_Country cert)) in
  let serial := serialHex (ce_SerialNumber cert) in
  let sans := ce_DNSNames cert in
  let ips := map ip_string (ce_IPAddresses cert) in
  let notBefore := format_time (ce_NotBefore cert) in
  let notAfter := format_time (ce_NotAfter cert) in
  let isWildcard := if existsb is_wildcard_san sans then 1 else 0 in
  let caID := match info with Some i => ii_caID i | None => 0 end in
  let certHash := sha256 (ll_Certificate leaf) in
  Ok (mkSubject caID serial cn org state country notBefore notAfter (String.concat "," sans) (String.concat "," ips)
        (buildURL sans cn) isWildcard (Z.of_nat (length sans)) (entry_type_string (ll_EntryType leaf)) 0 0
        certHash logID).

End Leaves.

(** monthKey mirrors db.certMonth. *)
Definition monthKey (notBefore : string) : string :=
  if (7 <=? Z.of_nat (String.length notBefore)) then String.substring 0 7 notBefore else "unknown".

Example ip_examples :
  ip_string [x0a; x00; x00; x01] = "10.0.0.1" /\
  ip_string ([x20; x01; x0d; xb8] ++ repeat x00 11 ++ [x01]) = "2001:db8::1" /\
  ip_string (repeat x00 16) = "::" /\ ip_string (v4_mapped ++ [x01; x02; x03; x04]) = "1.2.3.4" /\
  ip_string [x00; x00; x00; x00; x00; x01; x00; x00; x00; x00; x00; x00; x00; x02; x00; x03] = "0:0:1::2:3" /\
  format_time 1700000000 = "2023-11-14T22:13:20Z" /\ serialHex (Some 66051) = "010203".
Proof. split_and!; vm_compute; reflexivity. Qed.

(** ** Properties *)

(** The row of processLeaf under the multi-log key. *)
Definition with_identity (s : Subject) (certHash logID : bytes) : Subject :=
  mkSubject (CAID s) (SerialNumber s) (CommonName s) (Organization s) (State s) (Country s) (NotBefore s) (NotAfter s)
    (SANDomains s) (SANIPS s) (URL s) (IsWildcard s) (SANCount s) (EntryType s) 0 0 certHash logID.

(** The two entry processors agree: on a tile's entry converted to a log
    leaf, processLogLeaf fails exactly when processLeaf does and with the same
    error, and otherwise gives the same row up to the key, which becomes the
    SHA-256 of the certificate and the log instead of the tile position. *)
Theorem process_leaf_twins (std_parse ct_parse : bytes -> res Certificate) (t : TileLeaf) (idx tileIdx entryIdx : Z)
  (uri : string) (cache : gmap bytes issuerInfo) (logID : bytes) :
  processLogLeaf std_parse ct_parse (tileLeafToLogLeaf t idx) logID cache =
  match processLeaf std_parse ct_parse t tileIdx entryIdx uri cache with
  | Ok (_, s) => Ok (with_identity s (sha256 (tl_Certificate t)) logID)
  | Err e => Err e
  | Panic => Panic
  end.
Proof.
  unfold processLogLeaf, processLeaf, parseCertLogLeaf, parseCert. cbn [tileLeafToLogLeaf ll_Certificate].
  destruct (tl_Certificate t) as [|x der]; [done|].
  destruct (parseAnyCert std_parse ct_parse (x :: der)) as [cert|e|]; cbn [wrap_err bind_res]; [|done..].
  unfold with_identity. cbn. by destruct (tl_EntryType t =? EntryTypePrecert).
Qed.
