(* ===== verification/Worker.v ===== *)
(** internal/ingestion/multilog.go: the catalog selection of IngestAll and the
    worker of one log — fetch a page, resolve its issuers, insert its rows into
    the current pool, advance the cursor. *)

From S2P Require Import Prelude GoStd Sha256 CtlogParse CtlogClient Sql SubjectDB Progress Ctlist LogClient Leaf.

#[local] Open Scope sql_scope.

(** ** Definitions *)

(** *** Catalog selection *)

(** Requests per second. *)
Definition defaultQPS (lg : Log) : Z :=
  let op := lg_Operator lg in
  if String.eqb op "Let's Encrypt" then 30
  else if String.eqb op "Google" then 25
  else if String.eqb op "Cloudflare" then 15
  else if String.eqb op "Geomys" then 1
  else if String.eqb op "IPng Networks" then 4
  else if String.eqb op "TrustAsia" then 8
  else if String.eqb op "DigiCert" then 12
  else if String.eqb op "Sectigo" then 12
  else if String.eqb (lg_Protocol lg) ProtocolStaticCT then 5
  else if String.eqb (lg_Protocol lg) ProtocolRFC6962 then 5
  else 3.

(** [out := catalog[:0]] and an append per kept element: the slice and its
    result share one array. [i] is the next index read, [w] the next written,
    [n] what is left. *)
Fixpoint filter_in_place (keep : Log -> bool) (n i w : nat) (arr : list Log) : list Log * nat :=
  match n with
  | O => (arr, w)
  | S n =>
      match arr !! i with
      | Some lg =>
          if keep lg then filter_in_place keep n (S i) (S w) (<[w := lg]> arr)
          else filter_in_place keep n (S i) w arr
      | None => (arr, w)
      end
  end.

Definition in_place (keep : Log -> bool) (catalog : list Log) : list Log :=
  let '(arr, w) := filter_in_place keep (length catalog) 0 0 catalog in take w arr.

Definition filterByOperators (catalog : list Log) (ops : list string) : list Log :=
  let want : gset string := list_to_set ops in
  in_place (fun lg => bool_decide (lg_Operator lg ∈ want)) catalog.

Definition filterByDescription (catalog : list Log) (substr : string) : list Log :=
  in_place (fun lg => contains (lg_Description lg) substr) catalog.

Record IngestAllRequest := mkReq {
  rq_LogListUrl : string; rq_Protocols : list string; rq_Operators : list string;
  rq_ExcludedOperators : list string; rq_DescriptionContains : string;
  rq_OutputDir : string; rq_ArchiveDir : string;
  rq_BatchSizePerLog : Z; rq_PerLogQps : Z; rq_ProgressEvery : Z }.

(** The filters of IngestAll. *)
Definition select_catalog (req : IngestAllRequest) (catalog : list Log) : res (list Log) :=
  let catalog := FilterUsable catalog in
  let catalog := match rq_Protocols req with [] => catalog | ps => FilterByProtocol catalog ps end in
  let catalog := match rq_Operators req with [] => catalog | ops => filterByOperators catalog ops end in
  let catalog := match rq_ExcludedOperators req with [] => catalog | ops => FilterExcludeOperators catalog ops end in
  let catalog := if String.eqb (rq_DescriptionContains req) "" then catalog
                 else filterByDescription catalog (rq_DescriptionContains req) in
  match catalog with
  | [] => Err (Wrap "NotFound" (Errorf "no logs match the requested filters"))
  | _ :: _ => Ok catalog
  end.

(** *** Events and log lines *)

Record LogProgress := mkEvent {
  ev_LogId : bytes; ev_Description : string; ev_Operator : string; ev_Protocol : string;
  ev_EntriesProcessed : Z; ev_TotalProcessed : Z; ev_NextEntryIdx : Z; ev_TreeSize : Z;
  ev_Status : string; ev_Error : string }.

Definition buildEvent (lg : Log) (status errStr : string) (sessionProcessed totalProcessed nextIdx treeSize : Z) : LogProgress :=
  mkEvent (lg_LogID lg) (lg_Description lg) (lg_Operator lg) (lg_Protocol lg)
    sessionProcessed totalProcessed nextIdx treeSize status errStr.

Definition buildErrorEvent (lg : Log) (nextIdx total : Z) (e : error) : LogProgress :=
  buildEvent lg "error" (error_text e) 0 total nextIdx 0.

Definition shortDesc (lg : Log) : string := (lg_Operator lg +:+ "/" +:+ lg_Description lg)%string.

Definition logf (line : string) : M unit := fun s fl => (Ok tt, add_log line s, fl).

(** A Go panic ends the process, like a crash. *)
Definition panicM {A} : M A := fun s fl => (Panic, s, fl).

Definition multilogPageSize : Z := 256.

Section Worker.

Context {C : Type} `{LogClient C}.

Variable std_parse ct_parse : bytes -> res Certificate.
Variable month_order : gset string -> list string.
(** The formatted times of the worker's database calls, by cursor. *)
Variable clock : Z -> string.
Variable progressPath issuerPath : string.
Variable lg : Log.

(** *** prefetchIssuersLog *)

(** The first fingerprints that neither the cache nor the page has shown yet. *)
Fixpoint new_fps (fps : list (list bytes)) (cache : gmap bytes issuerInfo) (seen : gset bytes) : list bytes :=
  match fps with
  | [] => []
  | [] :: fps => new_fps fps cache seen
  | (fp :: _) :: fps =>
      if bool_decide (is_Some (cache !! fp)) || bool_decide (fp ∈ seen) then new_fps fps cache seen
      else fp :: new_fps fps cache ({[fp]} ∪ seen)
  end.

(** What one goroutine fetches: the zero info when anything fails. *)
Definition fetch_info (client : C) (fp : bytes) : issuerInfo :=
  match FetchIssuer client fp with
  | Ok der =>
      match parseAnyCert std_parse ct_parse der with
      | Ok cert => mkInfo 0 (ce_CommonName cert) (default "" (head (ce_Organization cert))) (default "" (head (ce_Country cert)))
      | _ => mkInfo 0 "" "" ""
      end
  | _ => mkInfo 0 "" "" ""
  end.

Definition with_id (id : Z) (i : issuerInfo) : issuerInfo :=
  mkInfo id (ii_commonName i) (ii_organization i) (ii_country i).

Fixpoint upsert_infos (results : list (bytes * issuerInfo)) (cache : gmap bytes issuerInfo)
  : M (gmap bytes issuerInfo) :=
  match results with
  | [] => ret cache
  | (fp, info) :: results =>
      let@ r := attempt (UpsertIssuer issuerPath fp (ii_commonName info) (ii_organization info) (ii_country info)) in
      match r with
      | inr e =>
          let@ _ := logf ("warn: upsert issuer " +:+ hex_encode (take 4 fp) +:+ ": " +:+ error_text e) in
          upsert_infos results cache
      | inl id => upsert_infos results (<[fp := with_id id info]> cache)
      end
  end.

(** It never returns an error; the goroutines only read the client. *)
Definition prefetchIssuersLog (leaves : list LogLeaf) (client : C) (cache : gmap bytes issuerInfo)
  : M (gmap bytes issuerInfo) :=
  match new_fps (map ll_ChainFingerprints leaves) cache ∅ with
  | [] => ret cache
  | newFPs => upsert_infos (map (fun fp => (fp, fetch_info client fp)) newFPs) cache
  end.

(** *** One page *)

Definition skip_line (leaf : LogLeaf) (e : error) : string :=
  (shortDesc lg +:+ " entry=" +:+ dec (CtlogParse.EntryIdx leaf) +:+ " skip: " +:+ error_text e)%string.
Definition open_line (month : string) (e : error) : string :=
  (shortDesc lg +:+ " open month " +:+ month +:+ ": " +:+ error_text e)%string.
Definition insert_line (month : string) (e : error) : string :=
  (shortDesc lg +:+ " insert subjects month=" +:+ month +:+ ": " +:+ error_text e)%string.

(** The rows of a page in order; an entry that does not parse is logged. *)
Fixpoint page_subjects (leaves : list LogLeaf) (cache : gmap bytes issuerInfo) : M (list Subject) :=
  match leaves with
  | [] => ret []
  | leaf :: leaves =>
      match processLogLeaf std_parse ct_parse leaf (lg_LogID lg) cache with
      | Ok subject => let@ rest := page_subjects leaves cache in ret (subject :: rest)
      | Err e => let@ _ := logf (skip_line leaf e) in page_subjects leaves cache
      | Panic => panicM
      end
  end.

Definition batch_of (subjects : list Subject) (month : string) : list Subject :=
  filter (fun s => monthKey (NotBefore s) = month) subjects.

(** Every month is tried; failures are logged. *)
Fixpoint insert_page (pool : SubjectDBPool) (subjects : list Subject) (months : list string) : M SubjectDBPool :=
  match months with
  | [] => ret pool
  | month :: months =>
      let@ r := attempt (GetOrOpen pool month) in
      match r with
      | inr e =>
          let@ _ := logf (open_line month e) in
          insert_page pool subjects months
      | inl pool =>
          let@ r := attempt (InsertSubjectBatch (month_path (activeDir pool) month) (batch_of subjects month)) in
          let@ _ := match r with
                    | inr e => logf (insert_line month e)
                    | inl _ => ret tt
                    end in
          insert_page pool subjects months
      end
  end.

(** *** The worker's loop *)

Record wstate := mkW {
  w_client : C; w_cursor : Z; w_session : Z; w_lastEvent : Z; w_cache : gmap bytes issuerInfo }.

(** The parameters of one run: the counters of its log_runs row and the request. *)
Record wparams := mkP {
  p_treeSize : Z; p_runTotal : Z; p_totalTarget : Z; p_progressEvery : Z }.

Inductive turn :=
| Stopped (ev : LogProgress)
| Went (w : wstate) (ev : option LogProgress).

(** The part of an iteration that reads the log. *)
Inductive fetched :=
| FStop (ev : LogProgress)
| FPage (client : C) (leaves : list LogLeaf).

Definition worker_event (p : wparams) (w : wstate) (status errStr : string) : LogProgress :=
  buildEvent lg status errStr (w_session w) (p_runTotal p + w_session w) (w_cursor w) (p_treeSize p).

(** [ctxErr]: ctx.Err() at the top of the loop. *)
Definition worker_fetch (p : wparams) (ctxErr : option error) (w : wstate) : res fetched :=
  match ctxErr with
  | Some e => Ok (FStop (worker_event p w "error" (error_text e)))
  | None =>
      if (0 <? p_totalTarget p) && (p_totalTarget p <=? w_session w) then Ok (FStop (worker_event p w "complete" ""))
      else if (p_treeSize p <=? w_cursor w) then Ok (FStop (worker_event p w "caught_up" ""))
      else
        let end_ := wrap64 (w_cursor w + multilogPageSize) in
        let end_ := if p_treeSize p <? end_ then p_treeSize p else end_ in
        match FetchEntries (w_client w) (w_cursor w) end_ with
        | (_, Panic) => Panic
        | (_, Err e) =>
            if IsNotFound e then Ok (FStop (worker_event p w "caught_up" ""))
            else Ok (FStop (buildErrorEvent lg (w_cursor w) (p_runTotal p + w_session w) e))
        | (_, Ok []) => Ok (FStop (worker_event p w "caught_up" ""))
        | (c, Ok leaves) => Ok (FPage c leaves)
        end
  end.

Definition last_idx (leaves : list LogLeaf) : Z :=
  match last leaves with Some l => CtlogParse.EntryIdx l | None => 0 end.

(** The end of an iteration: the cursor past the page, persisted, and an event
    when one is due. *)
Definition record_page (p : wparams) (w : wstate) (client : C) (leaves : list LogLeaf) (cache : gmap bytes issuerInfo)
  : M (wstate * option LogProgress) :=
  let cursor := wrap64 (last_idx leaves + 1) in
  let session := w_session w + Z.of_nat (length leaves) in
  let@ r := attempt (UpdateLogProgress progressPath (clock cursor) (lg_LogID lg) cursor (p_runTotal p + session)) in
  let@ _ := match r with
            | inr e => logf (shortDesc lg +:+ " update progress: " +:+ error_text e)
            | inl _ => ret tt
            end in
  if (p_progressEvery p <=? session - w_lastEvent w)
  then ret (mkW client cursor session session cache,
            Some (buildEvent lg "running" "" session (p_runTotal p + session) cursor (p_treeSize p)))
  else ret (mkW client cursor session (w_lastEvent w) cache, None).

(** The months of a page, in the order of the map's iteration. *)
Definition page_months (subjects : list Subject) : list string :=
  month_order (list_to_set (map (fun s => monthKey (NotBefore s)) subjects)).

(** From the fetched page to the advanced cursor, with the pool loaded then, when
    nothing else runs meanwhile (System.v has the interleavings). *)
Definition worker_store (p : wparams) (pool : SubjectDBPool) (w : wstate) (client : C) (leaves : list LogLeaf)
  : M (SubjectDBPool * wstate * option LogProgress) :=
  let@ cache := prefetchIssuersLog leaves client (w_cache w) in
  let@ subjects := page_subjects leaves cache in
  let@ pool := insert_page pool subjects (page_months subjects) in
  let@ (w, ev) := record_page p w client leaves cache in
  ret (pool, w, ev).

Definition worker_turn (p : wparams) (ctxErr : option error) (pool : SubjectDBPool) (w : wstate) : M (SubjectDBPool * turn) :=
  match worker_fetch p ctxErr w with
  | Panic => panicM
  | Err e => fail e
  | Ok (FStop ev) => ret (pool, Stopped ev)
  | Ok (FPage client leaves) =>
      let@ (pool, w, ev) := worker_store p pool w client leaves in
      ret (pool, Went w ev)
  end.

(** The loop without rollovers; [ctx i] is ctx.Err() of the [i]th iteration. *)
Fixpoint worker_loop (fuel : nat) (p : wparams) (ctx : nat -> option error) (pool : SubjectDBPool) (w : wstate)
    (evs : list LogProgress) : M (SubjectDBPool * list LogProgress) :=
  match fuel with
  | O => fail (Errorf "out of fuel")
  | S fuel =>
      let@ (pool, t) := worker_turn p (ctx fuel) pool w in
      match t with
      | Stopped ev => ret (pool, evs ++ [ev])
      | Went w ev => worker_loop fuel p ctx pool w (evs ++ option_list ev)
      end
  end.

Definition init_of_log : LogRunInit :=
  mkLogRunInit (lg_LogID lg) (lg_Description lg) (lg_SubmissionURL lg) (lg_MonitoringURL lg) (lg_Protocol lg)
    (lg_Operator lg) (lg_State lg).

(** Everything before the loop: the log_runs row and the tree size. *)
Definition worker_start (req : IngestAllRequest) (progressEvery : Z) (client : C) : M (LogProgress + wparams * wstate) :=
  let@ r := attempt (GetOrCreateLogRun progressPath (clock (-1)) init_of_log) in
  match r with
  | inr e => ret (inl (buildErrorEvent lg 0 0 (Wrap "get_or_create log_run" e)))
  | inl run =>
      match TreeSize client with
      | Panic => panicM
      | Err e => ret (inl (buildErrorEvent lg (NextEntryIdx run) (TotalProcessed run) (Wrap "tree_size" e)))
      | Ok treeSize =>
          let@ _ := attempt (SetLogTreeSizeAtStart progressPath (lg_LogID lg) treeSize) in
          ret (inr (mkP treeSize (TotalProcessed run) (rq_BatchSizePerLog req) progressEvery,
                    mkW client (NextEntryIdx run) 0 0 ∅))
      end
  end.

(** The pages of a run are at most as many as the entries that are left. *)
Definition runLogWorker (req : IngestAllRequest) (progressEvery : Z) (ctx : nat -> option error) (pool : SubjectDBPool)
    (client : C) : M (SubjectDBPool * list LogProgress) :=
  let@ st := worker_start req progressEvery client in
  match st with
  | inl ev => ret (pool, [ev])
  | inr (p, w) => worker_loop (S (Z.to_nat (p_treeSize p - w_cursor w))) p ctx pool w []
  end.

End Worker.

(** Which client a log gets; the network answers come with the constructor. *)
Inductive any_client :=
| TileC (c : tile_client)
| RFCC (c : rfc_client).

Definition client_for (lg : Log) (tile : string -> tile_client) (rfc : string -> rfc_client) : option any_client :=
  if String.eqb (lg_Protocol lg) ProtocolStaticCT then Some (TileC (tile (APIRoot lg +:+ "tile/data/")))
  else if String.eqb (lg_Protocol lg) ProtocolRFC6962 then Some (RFCC (rfc (APIRoot lg)))
  else None.
