(* ===== verification/Catalog.v ===== *)
(** internal/ingestion/multilog.go: the logs an IngestAll request selects. The
    filters of multilog.go overwrite the catalog's own array; those of
    internal/ctlist build a new one. *)

From S2P Require Import Prelude GoStd Ctlist Worker.

(** ** Specification *)

(** A list in a request that is empty does not filter. *)
Definition any_or (l : list string) (x : string) : bool :=
  match l with [] => true | _ :: _ => bool_decide (x ∈ l) end.

(** The log passes every filter of the request. *)
Definition wanted (req : IngestAllRequest) (lg : Log) : bool :=
  IsUsable lg && any_or (rq_Protocols req) (lg_Protocol lg) && any_or (rq_Operators req) (lg_Operator lg) &&
  match rq_ExcludedOperators req with [] => true | ops => negb (bool_decide (lg_Operator lg ∈ ops)) end &&
  (String.eqb (rq_DescriptionContains req) "" || contains (lg_Description lg) (rq_DescriptionContains req)).

(** ** Lemmas *)

#[local] Abbreviation filter_b keep := (filter (fun l : Log => keep l = true)).

(** The written prefix never overtakes the reader. *)
Lemma filter_in_place_spec keep n i w arr arr' w' :
  (w <= i)%nat -> n = length (drop i arr) -> filter_in_place keep n i w arr = (arr', w') ->
  take w' arr' = take w arr ++ filter_b keep (drop i arr).
Proof.
  revert i w arr. induction n as [|n IH]; intros i w arr Hw Hn; cbn [filter_in_place].
  { intros [= <- <-]. destruct (drop i arr); [by rewrite app_nil_r|done]. }
  destruct (arr !! i) as [lg|] eqn:Ei; [|rewrite length_drop in Hn; apply lookup_ge_None in Ei; lia].
  assert (Hi : (i < length arr)%nat) by (by apply lookup_lt_Some in Ei).
  rewrite (drop_S _ _ _ Ei) in Hn |- *. cbn [length] in Hn.
  destruct (keep lg) eqn:Ek; intros H%IH; try lia.
  - rewrite H, filter_cons_True, drop_insert_lt by (done || lia).
    rewrite (take_S_r _ _ lg) by (apply list_lookup_insert_eq; lia).
    by rewrite take_insert_ge, <- (assoc_L (++)) by lia.
  - rewrite drop_insert_lt by lia. by injection Hn.
  - rewrite H, filter_cons_False by (by rewrite Ek). done.
Qed.

(** Overwriting the array filters it. *)
Lemma in_place_filter keep catalog : in_place keep catalog = filter_b keep catalog.
Proof.
  unfold in_place. destruct (filter_in_place _ _ _ _ _) as [arr w] eqn:E.
  apply filter_in_place_spec in E; [|lia|done]. by rewrite E, drop_0.
Qed.

Lemma filter_true keep (l : list Log) : (forall x, keep x = true) -> filter_b keep l = l.
Proof. intros Hk. induction l as [|x l IH]; [done|]. rewrite filter_cons_True, IH; auto. Qed.

Lemma filter_decide (P : Log -> Prop) `{!forall x, Decision (P x)} keep (l : list Log) :
  (forall x, P x <-> keep x = true) -> filter P l = filter_b keep l.
Proof. intros Hk. by apply list_filter_iff. Qed.

(** The steps of select_catalog, each a filter of its own predicate. *)
Lemma by_protocol ps catalog :
  match ps with [] => catalog | p :: ps => FilterByProtocol catalog (p :: ps) end = filter_b (fun l => any_or ps (lg_Protocol l)) catalog.
Proof.
  destruct ps as [|p ps]; [by rewrite filter_true|]. apply filter_decide. intros x. cbn [any_or].
  rewrite bool_decide_eq_true. by rewrite elem_of_list_to_set.
Qed.

Lemma by_operators ops catalog :
  match ops with [] => catalog | o :: ops => filterByOperators catalog (o :: ops) end = filter_b (fun l => any_or ops (lg_Operator l)) catalog.
Proof.
  destruct ops as [|o ops]; [by rewrite filter_true|]. unfold filterByOperators. rewrite in_place_filter.
  apply filter_decide. intros x. cbn [any_or]. by rewrite !bool_decide_eq_true, elem_of_list_to_set.
Qed.

Lemma excluding ops catalog :
  match ops with [] => catalog | o :: ops => FilterExcludeOperators catalog (o :: ops) end =
  filter_b (fun l => match ops with [] => true | o :: ops => negb (bool_decide (lg_Operator l ∈ o :: ops)) end) catalog.
Proof.
  destruct ops as [|o ops]; [by rewrite filter_true|]. apply filter_decide. intros x.
  rewrite negb_true_iff, bool_decide_eq_false. by rewrite elem_of_list_to_set.
Qed.

Lemma by_description substr catalog :
  (if String.eqb substr "" then catalog else filterByDescription catalog substr) =
  filter_b (fun l => String.eqb substr "" || contains (lg_Description l) substr) catalog.
Proof.
  destruct (String.eqb substr ""); [by rewrite filter_true|]. unfold filterByDescription. by rewrite in_place_filter.
Qed.

Lemma filter_twice (p q : Log -> bool) (l : list Log) : filter_b q (filter_b p l) = filter_b (fun x => p x && q x) l.
Proof. rewrite list_filter_filter. apply list_filter_iff. intros x. rewrite andb_true_iff. naive_solver. Qed.

(** ** Properties *)

(** C35. The filters of IngestAll, in the order the code runs them and though
    two of them overwrite the catalog they read, select exactly the logs that
    pass every filter of the request, in catalog order; when none does the
    request is refused. *)
Theorem select_catalog_exact (req : IngestAllRequest) (catalog : list Log) :
  select_catalog req catalog =
  match filter (fun lg => wanted req lg = true) catalog with
  | [] => Err (Wrap "NotFound" (Errorf "no logs match the requested filters"))
  | logs => Ok logs
  end.
Proof.
  unfold select_catalog. cbv zeta. rewrite by_protocol, by_operators, excluding, by_description. unfold FilterUsable.
  rewrite !filter_twice. rewrite (list_filter_iff _ (fun lg => wanted req lg = true)). 1: by case_match.
  intros lg. unfold wanted. by rewrite !andb_assoc.
Qed.
