(* ===== verification/WorkerSafe.v ===== *)
(** What a page of a worker leaves behind, whatever fails: every entry of an
    acknowledged page is in a month of the pool or its loss was logged. *)

From S2P Require Import Prelude GoStd Sha256 CtlogParse CtlogClient Sql SubjectDB Progress Ctlist LogClient Leaf Worker.

#[local] Open Scope sql_scope.

(** ** Definitions *)

(** The months a pool has open are databases, and every database in its
    directory is well-formed. *)
Record pool_ok (p : SubjectDBPool) (s : store) : Prop := {
  po_good : forall m d, dbs s !! month_path (activeDir p) m = Some (DB d) -> db_good d;
  po_open : forall m, m ∈ pool_dbs p -> exists d, dbs s !! month_path (activeDir p) m = Some (DB d) }.

(** The lines logged since. *)
Definition said (s s' : store) (line : string) : Prop :=
  exists lines, logged s' = logged s ++ lines /\ line ∈ lines.

(** From [s] to [s'] only the months under [dir] and the log have grown, the
    progress and the issuer tables apart. *)
Record grew (dir : string) (s s' : store) : Prop := {
  gr_other : forall q, (forall m, q <> month_path dir m) -> dbs s' !! q = dbs s !! q;
  gr_seens : seens s' = seens s;
  gr_held : forall q x, held_at s q x -> held_at s' q x;
  gr_log : exists lines, logged s' = logged s ++ lines }.

#[export] Instance grew_preorder dir : PreOrder (grew dir).
Proof.
  split; [intros s; split; try done; exists []; by rewrite app_nil_r|].
  intros a b c [A1 A2 A3 (l1 & A4)] [B1 B2 B3 (l2 & B4)]. split; [|congruence|auto|].
  - intros q Hq. by rewrite B1, A1.
  - exists (l1 ++ l2). by rewrite B4, A4, app_assoc.
Qed.

Lemma said_mono_r dir s s1 s' line : said s s1 line -> grew dir s1 s' -> said s s' line.
Proof.
  intros (l & E & Hl) [_ _ _ (l2 & E2)]. exists (l ++ l2). rewrite E2, E, app_assoc. split; [done|].
  apply elem_of_app. by left.
Qed.

Lemma said_mono_l dir s s1 s' line : grew dir s s1 -> said s1 s' line -> said s s' line.
Proof.
  intros [_ _ _ (l & E)] (l2 & E2 & Hl). exists (l ++ l2). rewrite E2, E, app_assoc. split; [done|].
  apply elem_of_app. by right.
Qed.

Lemma grew_log dir s line : grew dir s (add_log line s).
Proof. split; try done. by exists [line]. Qed.

Lemma said_log s line : said s (add_log line s) line.
Proof. exists [line]. split; [done|]. by left. Qed.

Lemma wp_logf line Q s : Q (Ok tt) (add_log line s) -> wp (logf line) Q s.
Proof. by intros H fl. Qed.

Lemma wp_and {A} (m : M A) (Q R : res A -> store -> Prop) s :
  wp m Q s -> wp m R s -> wp m (fun r s' => Q r s' /\ R r s') s.
Proof. intros H1 H2 fl. split; [apply H1|apply H2]. Qed.

Lemma db_grown_grew p m s s' :
  db_grown (month_path (activeDir p) m) s s' -> grew (activeDir p) s s'.
Proof.
  intros [H1 H2 H3 H4 H5 H6 H7 H8]. split; [|done| |exists []; by rewrite app_nil_r].
  - intros q Hq. apply H1, Hq.
  - intros q x (d & Hd & Hx). destruct (decide (q = month_path (activeDir p) m)) as [->|Hne].
    + destruct (H7 d Hd) as (d' & Hd' & Hle). exists d'. auto.
    + exists d. by rewrite H1.
Qed.

Lemma pool_ok_grown p m s s' :
  pool_ok p s -> db_grown (month_path (activeDir p) m) s s' -> pool_ok p s'.
Proof.
  intros [P1 P2] [H1 H2 H3 H4 H5 H6 H7 H8]. split.
  - intros m' d. destruct (decide (m' = m)) as [->|Hne]; [apply H6|].
    rewrite H1 by (by intros ?%month_path_inj). apply P1.
  - intros m' Hm'. destruct (P2 m' Hm') as [d Hd]. destruct (decide (m' = m)) as [->|Hne].
    + destruct (H7 d Hd) as (d' & Hd' & _). by exists d'.
    + exists d. by rewrite H1 by (by intros ?%month_path_inj).
Qed.

(** *** Opening a month and inserting into it *)

(** [p'] is [p] with more months open. *)
Record pool_le (p p' : SubjectDBPool) : Prop := { pl_dir : activeDir p' = activeDir p; pl_dbs : pool_dbs p ⊆ pool_dbs p' }.

#[export] Instance pool_le_preorder : PreOrder pool_le.
Proof. split; [by intros p|]. intros a b c [H1 H2] [H3 H4]. split; [congruence|set_solver]. Qed.

Definition same_tables (s s' : store) : Prop := progs s' = progs s /\ issdbs s' = issdbs s.

Lemma get_or_open_wp p m s :
  pool_ok p s ->
  wp (GetOrOpen p m)
     (fun r s' => grew (activeDir p) s s' /\ same_tables s s' /\ pool_ok p s' /\
        forall p', r = Ok p' -> pool_le p p' /\ m ∈ pool_dbs p' /\ pool_ok p' s') s.
Proof.
  intros Hp. unfold GetOrOpen. case_bool_decide as Hm.
  { apply wp_ret. split; [done|]. split; [done|]. split; [done|]. intros p' [= <-]. done. }
  apply wp_bind, wp_wrap, wp_nop; [by split_and!..|]. cbn [wrap_err].
  apply wp_bind. eapply wp_mono; [apply wp_and; [apply open_grown|apply open_db]|].
  - intros d. apply Hp.
  - apply db_grown_refl. intros d. apply Hp.
  - intros r s' [Hg Hopen].
    pose proof (db_grown_grew _ _ _ _ Hg) as Hgr. pose proof (pool_ok_grown _ _ _ _ Hp Hg) as Hp'.
    assert (Ht : same_tables s s') by (split; apply Hg).
    destruct r as [[]|e|]; [|by split_and!..].
    apply wp_ret. split; [done|]. split; [done|]. split; [done|]. intros p' [= <-].
    split; [split; [done|set_solver]|]. split; [set_solver|]. split; [apply Hp'|]. cbn.
    intros m' [->%elem_of_singleton|Hm']%elem_of_union; [by apply Hopen|by apply Hp'].
Qed.

(** The row of [x] is in its month's database under [dir]. *)
Definition kept (dir : string) (s : store) (x : Subject) : Prop :=
  held_at s (month_path dir (certMonth (NotBefore x))) (subject_row x).

Lemma insert_wp p m batch s :
  pool_ok p s -> m ∈ pool_dbs p -> (forall x, x ∈ batch -> certMonth (NotBefore x) = m) ->
  wp (InsertSubjectBatch (month_path (activeDir p) m) batch)
     (fun r s' => grew (activeDir p) s s' /\ same_tables s s' /\ pool_ok p s' /\
        (r = Ok tt -> forall x, x ∈ batch -> kept (activeDir p) s' x)) s.
Proof.
  intros Hp Hm Hb. eapply wp_mono; [apply insert_batch_grown|].
  - intros d. apply Hp.
  - by apply Hp.
  - intros r s' (Hg & _ & Hok). split; [by eapply db_grown_grew|]. split; [split; apply Hg|].
    split; [by eapply pool_ok_grown|]. intros Hr x Hx. destruct (Hok Hr) as (d & Hd & Hall).
    unfold kept. rewrite (Hb x Hx). exists d. auto.
Qed.

(** Through a handle of any kind: a file that is not there is an error. *)
Lemma insert_any_wp p m batch s :
  pool_ok p s -> (forall x, x ∈ batch -> certMonth (NotBefore x) = m) ->
  wp (InsertSubjectBatch (month_path (activeDir p) m) batch)
     (fun r s' => grew (activeDir p) s s' /\ same_tables s s' /\ pool_ok p s' /\
        (r = Ok tt -> forall x, x ∈ batch -> kept (activeDir p) s' x)) s.
Proof.
  intros Hp Hb. destruct (read_db (month_path (activeDir p) m) s) as [d|e|] eqn:E.
  - assert (Hd : dbs s !! month_path (activeDir p) m = Some (DB d))
      by (revert E; unfold read_db; destruct (dbs s !! _) as [[d'|]|]; by intros [= <-]).
    assert (Hp' : pool_ok (mkPool ({[m]} ∪ pool_dbs p) (activeDir p)) s).
    { destruct Hp as [P1 P2]. split; [done|]. cbn. intros m' [->%elem_of_singleton|Hm]%elem_of_union; [by exists d|by apply P2]. }
    eapply wp_mono; [apply (insert_wp _ m batch s Hp'); [set_solver|done]|]. intros r s' (H1 & H2 & [P1 P2] & H3).
    split; [done|]. split; [done|]. split; [|done]. split; [done|]. intros m' Hm. apply P2. set_solver.
  - destruct batch as [|x xs]; [apply wp_ret; split_and!; try done; by intros _ x ?%elem_of_nil|].
    unfold InsertSubjectBatch. apply wp_bind, wp_wrap, wp_step; rewrite ?E; by split_and!.
  - exfalso. revert E. unfold read_db. by destruct (dbs s !! _) as [[d'|]|].
Qed.

Section Page.

Context {C : Type} `{LogClient C}.
Context (std_parse ct_parse : bytes -> res Certificate) (month_order : gset string -> list string).
Context (clock : Z -> string) (progressPath issuerPath : string) (lg : Log).

Hypothesis Horder : forall x, month_order x ≡ₚ elements x.

(** *** Issuers touch only their table and the log *)

(** Only the issuer database and the log have changed. *)
Record issuers_only (s s' : store) : Prop := {
  io_dbs : dbs s' = dbs s;
  io_seens : seens s' = seens s;
  io_progs : progs s' = progs s;
  io_log : exists lines, logged s' = logged s ++ lines }.

Lemma issuers_only_refl s : issuers_only s s.
Proof. split; try done. exists []. by rewrite app_nil_r. Qed.

Lemma issuers_only_trans a b c : issuers_only a b -> issuers_only b c -> issuers_only a c.
Proof.
  intros [A1 A2 A3 (l1 & A4)] [B1 B2 B3 (l2 & B4)]. split; [congruence..|].
  exists (l1 ++ l2). by rewrite B4, A4, app_assoc.
Qed.

Lemma issuers_only_grew dir s s' : issuers_only s s' -> grew dir s s'.
Proof. intros [H1 H2 H3 H4]. split; [by intros; rewrite H1|done| |done]. intros q x. apply held_at_ext. by rewrite H1. Qed.

Lemma iss_stmt_only {A} path (f : issuer_db -> res A * issuer_db) s0 : pres (issuers_only s0) (iss_stmt path f).
Proof.
  apply pres_step. intros s Hs. destruct (issdbs s !! path) as [d|]; [|done]. destruct (f d) as [r d'].
  eapply issuers_only_trans; [exact Hs|]. split; try done. exists []. by rewrite app_nil_r.
Qed.

Lemma upsert_only path fp cn org country s0 : pres (issuers_only s0) (UpsertIssuer path fp cn org country).
Proof.
  unfold UpsertIssuer. apply pres_bind; [apply pres_attempt, iss_stmt_only|].
  intros [id|[]]; auto using iss_stmt_only with pres.
Qed.

Lemma logf_only line s0 : pres (issuers_only s0) (logf line).
Proof.
  intros s Hs. apply wp_logf. eapply issuers_only_trans; [exact Hs|]. split; try done. by exists [line].
Qed.

Lemma upsert_infos_wp results cache s :
  wp (upsert_infos issuerPath results cache) (fun r s' => issuers_only s s' /\ forall e, r <> Err e) s.
Proof.
  revert cache s. induction results as [|[fp info] results IH]; intros cache s; cbn [upsert_infos].
  { apply wp_ret. split; [apply issuers_only_refl|done]. }
  assert (Hgo : forall cache s1, issuers_only s s1 ->
    wp (upsert_infos issuerPath results cache) (fun r s' => issuers_only s s' /\ forall e, r <> Err e) s1).
  { intros cache' s1 H1. eapply wp_mono; [apply IH|]. intros r s' [H2 He]. split; [by eapply issuers_only_trans|done]. }
  apply wp_bind, wp_attempt. eapply wp_mono; [apply (upsert_only _ _ _ _ _ s), issuers_only_refl|].
  intros [id|e|] s1 H1; [by apply Hgo| |done]. apply wp_bind, wp_logf, Hgo.
  eapply issuers_only_trans; [done|]. split; try done. by eexists [_].
Qed.

Lemma prefetch_wp leaves client cache s :
  wp (prefetchIssuersLog std_parse ct_parse issuerPath leaves client cache)
     (fun r s' => issuers_only s s' /\ forall e, r <> Err e) s.
Proof.
  unfold prefetchIssuersLog. destruct (new_fps _ _ _) as [|fp fps]; [|apply upsert_infos_wp].
  apply wp_ret. split; [apply issuers_only_refl|done].
Qed.

(** *** The fate of an entry *)

(** The row of an entry that parses, whatever the issuers. *)
Definition leaf_row (leaf : LogLeaf) (x : Subject) : Prop :=
  exists cache, processLogLeaf std_parse ct_parse leaf (lg_LogID lg) cache = Ok x.

(** A log line that says the entry was dropped: it does not parse, or its
    month's database could not be opened or written. *)
Definition loss_line (leaf : LogLeaf) (line : string) : Prop :=
  (exists cache e, processLogLeaf std_parse ct_parse leaf (lg_LogID lg) cache = Err e /\ line = skip_line lg leaf e) \/
  exists x e, leaf_row leaf x /\
    (line = open_line lg (certMonth (NotBefore x)) e \/ line = insert_line lg (certMonth (NotBefore x)) e).

(** The entry is in its month under [dir], or its loss was logged since [s]. *)
Definition fate (dir : string) (s s' : store) (leaf : LogLeaf) : Prop :=
  (exists x, leaf_row leaf x /\ kept dir s' x) \/ exists line, loss_line leaf line /\ said s s' line.

Lemma kept_mono dir s s' x : grew dir s s' -> kept dir s x -> kept dir s' x.
Proof. intros Hg. apply Hg. Qed.

Lemma fate_mono dir s0 s s1 s2 leaf : grew dir s0 s -> fate dir s s1 leaf -> grew dir s1 s2 -> fate dir s0 s2 leaf.
Proof.
  intros H0 [(x & Hx & Hk)|(line & Hl & Hs)] H2; [left; exists x|right; exists line].
  - split; [done|]. by eapply kept_mono.
  - split; [done|]. eapply said_mono_l; [done|]. by eapply said_mono_r.
Qed.

(** The rows of a page: one per entry that parses, the others are logged. *)
Lemma page_subjects_wp leaves cache s :
  wp (page_subjects std_parse ct_parse lg leaves cache)
     (fun r s' => issuers_only s s' /\ issdbs s' = issdbs s /\ (forall e, r <> Err e) /\
        forall subjects, r = Ok subjects -> forall leaf, leaf ∈ leaves ->
          (exists x, x ∈ subjects /\ leaf_row leaf x) \/ exists line, loss_line leaf line /\ said s s' line) s.
Proof.
  revert s. induction leaves as [|leaf leaves IH]; intros s; cbn [page_subjects].
  { apply wp_ret. split_and!; [apply issuers_only_refl|done|done|]. by intros subjects _ leaf ?%elem_of_nil. }
  destruct (processLogLeaf std_parse ct_parse leaf (lg_LogID lg) cache) as [x|e|] eqn:E.
  - apply wp_bind. eapply wp_mono; [apply IH|]. intros [rest|e|] s' (Ho & Hi & He & Hall).
    + apply wp_ret. split_and!; [done|done|done|]. intros subjects [= <-] leaf' [->|Hl]%elem_of_cons.
      * left. exists x. split; [by left|]. by exists cache.
      * destruct (Hall rest eq_refl leaf' Hl) as [(y & Hy & Hr)|Hr]; [left|by right]. exists y. split; [by right|done].
    + by destruct (He e).
    + by split_and!.
  - apply wp_bind, wp_logf. pose proof (grew_log "" s (skip_line lg leaf e)) as Hg.
    eapply wp_mono; [apply IH|]. intros r s' (Ho & Hi & He & Hall).
    assert (Hos : issuers_only s (add_log (skip_line lg leaf e) s)) by (split; try done; by exists [skip_line lg leaf e]).
    split_and!; [by eapply issuers_only_trans|done|done|]. intros subjects Hr leaf' [->|Hl]%elem_of_cons.
    + right. exists (skip_line lg leaf e). split; [left; by exists cache, e|].
      eapply said_mono_r; [apply said_log|]. by apply (issuers_only_grew "").
    + destruct (Hall subjects Hr leaf' Hl) as [?|(line & H1 & H2)]; [by left|right]. exists line. split; [done|].
      by eapply said_mono_l.
  - intros fl. cbn. split_and!; [apply issuers_only_refl|done..].
Qed.

(** *** The months of a page *)

(** The row is stored, or its month's failure was logged. *)
Definition row_fate (dir : string) (s s' : store) (x : Subject) : Prop :=
  kept dir s' x \/
  exists e line, (line = open_line lg (certMonth (NotBefore x)) e \/ line = insert_line lg (certMonth (NotBefore x)) e) /\
    said s s' line.

Lemma row_fate_mono dir s0 s s1 s2 x :
  grew dir s0 s -> row_fate dir s s1 x -> grew dir s1 s2 -> row_fate dir s0 s2 x.
Proof.
  intros H0 [Hk|(e & line & Hl & Hs)] H2; [left; by eapply kept_mono|right].
  exists e, line. split; [done|]. eapply said_mono_l; [done|]. by eapply said_mono_r.
Qed.

Lemma pool_ok_log p s line : pool_ok p s -> pool_ok p (add_log line s).
Proof. by intros [H1 H2]. Qed.

(** Where the insertions of a page leave the store and the pool. *)
Definition page_post (pool : SubjectDBPool) (s : store) (ok : Subject -> Prop) (r : res SubjectDBPool) (s' : store) : Prop :=
  grew (activeDir pool) s s' /\ same_tables s s' /\ (forall e, r <> Err e) /\
  forall pool', r = Ok pool' ->
    pool_le pool pool' /\ pool_ok pool' s' /\ forall x, ok x -> row_fate (activeDir pool) s s' x.

(** One step of the loop before the rest of it. *)
Lemma page_post_step pool pool1 s s1 r s' (now rest : Subject -> Prop) :
  grew (activeDir pool) s s1 -> same_tables s s1 -> pool_le pool pool1 ->
  (forall x, now x -> row_fate (activeDir pool) s s1 x) ->
  page_post pool1 s1 rest r s' -> page_post pool s (fun x => now x \/ rest x) r s'.
Proof.
  intros Hg [T1 T2] Hle Hnow (Hg' & [T3 T4] & He & Hok). rewrite (pl_dir _ _ Hle) in *.
  split; [by etransitivity|]. split; [split; congruence|]. split; [done|]. intros pool' Hr.
  destruct (Hok pool' Hr) as (Hle' & Hpo & Hrest). split; [by etransitivity|]. split; [done|].
  intros x [Hx|Hx].
  - by apply (row_fate_mono _ s s s1 s'); [|apply Hnow|].
  - by apply (row_fate_mono _ s s1 s' s'); [|apply Hrest|].
Qed.

Lemma insert_page_wp pool subjects months s :
  pool_ok pool s ->
  wp (insert_page lg pool subjects months)
     (page_post pool s (fun x => x ∈ subjects /\ certMonth (NotBefore x) ∈ months)) s.
Proof.
  revert pool s. induction months as [|m months IH]; intros pool s Hp; cbn [insert_page].
  { apply wp_ret. split; [done|]. split; [done|]. split; [done|]. intros ? [= <-]. split; [done|]. split; [done|].
    by intros x [_ ?%elem_of_nil]. }
  assert (Hfin : forall pool1 s1, grew (activeDir pool) s s1 -> same_tables s s1 -> pool_le pool pool1 -> pool_ok pool1 s1 ->
    (forall x, x ∈ subjects -> certMonth (NotBefore x) = m -> row_fate (activeDir pool) s s1 x) ->
    wp (insert_page lg pool1 subjects months)
       (page_post pool s (fun x => x ∈ subjects /\ certMonth (NotBefore x) ∈ m :: months)) s1).
  { intros pool1 s1 Hg Ht Hle Hp1 Hnow. eapply wp_mono; [by apply IH|]. intros r s' H1.
    apply (page_post_step pool pool1 s s1 r s' (fun x => x ∈ subjects /\ certMonth (NotBefore x) = m)) in H1;
      [|done..|intros x [Hx Hm]; exact (Hnow x Hx Hm)].
    destruct H1 as (A & B & D & E). split; [done|]. split; [done|]. split; [done|]. intros pool' Hr.
    destruct (E pool' Hr) as (F & G & K). split; [done|]. split; [done|].
    intros x [Hx [E0|Hm]%elem_of_cons]; apply K; [by left|by right]. }
  apply wp_bind, wp_attempt. eapply wp_mono; [by apply get_or_open_wp|].
  intros r s1 (Hg & Ht & Hp1 & Hopen). destruct r as [pool1|e|].
  - destruct (Hopen pool1 eq_refl) as (Hle & Hm & Hpo). apply wp_bind, wp_attempt.
    rewrite (pl_dir _ _ Hle).
    eapply wp_mono; [rewrite <- (pl_dir _ _ Hle); apply insert_wp; [done|done|]|].
    { intros x Hx. by apply list_elem_of_filter in Hx as [Hx _]. }
    intros r s2 (Hg2 & [T1 T2] & Hp2 & Hok). rewrite (pl_dir _ _ Hle) in *.
    assert (Hg02 : grew (activeDir pool) s s2) by (by etransitivity).
    assert (Ht02 : same_tables s s2) by (destruct Ht; split; congruence).
    destruct r as [[]|e|]; [| |split; [done|]; by split].
    + apply wp_bind, wp_ret, Hfin; [done..|]. intros x Hx Hmx. left. apply Hok; [done|]. by apply list_elem_of_filter.
    + apply wp_bind, wp_logf. apply Hfin; [etransitivity; [done|apply grew_log]|done|done|by apply pool_ok_log|].
      intros x Hx Hmx. right. exists e, (insert_line lg m e). split; [right; by rewrite Hmx|].
      eapply said_mono_l; [done|apply said_log].
  - apply wp_bind, wp_logf. apply Hfin; [etransitivity; [done|apply grew_log]|done|done|by apply pool_ok_log|].
    intros x Hx Hmx. right. exists e, (open_line lg m e). split; [left; by rewrite Hmx|].
    eapply said_mono_l; [done|apply said_log].
  - split; [done|]. by split.
Qed.

(** *** A whole page *)

(** The cursor and session count after a page. *)
Definition next_cursor (leaves : list LogLeaf) : Z := wrap64 (last_idx leaves + 1).

(** What the page [leaves] leaves in the store, from [s]: a progress row only
    moves past the page when every entry of it has its fate. *)
Record stored (dir : string) (s : store) (d : progress_db) (total : Z) (leaves : list LogLeaf) (s' : store) : Prop := {
  st_grew : grew dir s s';
  st_progs : forall q, q <> progressPath -> progs s' !! q = progs s !! q;
  st_cursor : exists d', progs s' !! progressPath = Some d' /\ progress_wf d' /\
    (cursors d' = cursors d \/
     cursors d' = spec_call (CallUpdate (lg_LogID lg) (next_cursor leaves) total) (cursors d) /\
     forall leaf, leaf ∈ leaves -> fate dir s s' leaf) }.

Definition cursors_kept (d : progress_db) (s' : store) : Prop :=
  exists d', progs s' !! progressPath = Some d' /\ progress_wf d' /\ cursors d' = cursors d.

Definition store_post (p : wparams) (pool : SubjectDBPool) (w : wstate (C := C)) (client : C) (leaves : list LogLeaf)
    (s : store) (d : progress_db) (r : res (SubjectDBPool * wstate (C := C) * option LogProgress)) (s' : store) : Prop :=
  stored (activeDir pool) s d (p_runTotal p + (w_session w + Z.of_nat (length leaves))) leaves s' /\
  (forall e, r <> Err e) /\ (is_ok r = false -> cursors_kept d s') /\
  forall pool' w' ev, r = Ok (pool', w', ev) ->
    pool_le pool pool' /\ pool_ok pool' s' /\ (forall leaf, leaf ∈ leaves -> fate (activeDir pool) s s' leaf) /\
    w_client w' = client /\ w_cursor w' = next_cursor leaves /\ w_session w' = w_session w + Z.of_nat (length leaves).

Lemma months_of_subjects subjects x :
  x ∈ subjects -> certMonth (NotBefore x) ∈ page_months month_order subjects.
Proof.
  intros Hx. unfold page_months. rewrite Horder. apply elem_of_elements, elem_of_list_to_set.
  exact (list_elem_of_fmap_2 (fun s => monthKey (NotBefore s)) subjects x Hx).
Qed.

Lemma stored_same dir s d total leaves s' :
  progs s !! progressPath = Some d -> progress_wf d -> grew dir s s' -> progs s' = progs s ->
  stored dir s d total leaves s'.
Proof.
  intros Hd Hw Hg Hp. split; [done|by intros; rewrite Hp|]. exists d. rewrite Hp. split; [done|]. split; [done|by left].
Qed.

Lemma leaves_fate pool s s1 s2 s3 (leaves : list LogLeaf) (subjects : list Subject) :
  grew (activeDir pool) s s1 -> grew (activeDir pool) s1 s2 -> grew (activeDir pool) s2 s3 ->
  (forall leaf, leaf ∈ leaves -> (exists x, x ∈ subjects /\ leaf_row leaf x) \/
     exists line, loss_line leaf line /\ said s1 s2 line) ->
  (forall x, x ∈ subjects -> row_fate (activeDir pool) s2 s3 x) ->
  forall leaf, leaf ∈ leaves -> fate (activeDir pool) s s3 leaf.
Proof.
  intros H01 H12 H23 Hsub Hrow leaf Hl. destruct (Hsub leaf Hl) as [(x & Hx & Hr)|(line & Hll & Hs)].
  - destruct (Hrow x Hx) as [Hk|(e & line & Hline & Hs)]; [left; by exists x|right].
    exists line. split; [right; by exists x, e|]. eapply said_mono_l; [|done]. by etransitivity.
  - right. exists line. split; [done|]. eapply said_mono_l; [done|]. by eapply said_mono_r.
Qed.

Lemma grew_set_prog dir p d s : grew dir s (set_prog p d s).
Proof. split; try done. exists []. by rewrite app_nil_r. Qed.

Lemma grew_fate dir s s1 s2 leaf : grew dir s1 s2 -> fate dir s s1 leaf -> fate dir s s2 leaf.
Proof. intros H1 H2. by eapply (fate_mono dir s s). Qed.

(** The counters stay, or take the page; nothing else changes but the log. *)
Definition recorded (next total : Z) (s : store) (d : progress_db) (s' : store) : Prop :=
  exists d' lines, s' = foldl (fun s line => add_log line s) (set_prog progressPath d' s) lines /\ progress_wf d' /\
    (cursors d' = cursors d \/ cursors d' = spec_call (CallUpdate (lg_LogID lg) next total) (cursors d)).

Lemma recorded_facts next total s d s' : recorded next total s d s' ->
  dbs s' = dbs s /\ (forall dir, grew dir s s') /\ (forall q, q <> progressPath -> progs s' !! q = progs s !! q) /\
  exists d', progs s' !! progressPath = Some d' /\ progress_wf d' /\
    (cursors d' = cursors d \/ cursors d' = spec_call (CallUpdate (lg_LogID lg) next total) (cursors d)).
Proof.
  intros (d' & lines & -> & Hw & Hc).
  assert (Hl : forall s0, dbs (foldl (fun s line => add_log line s) s0 lines) = dbs s0 /\
    progs (foldl (fun s line => add_log line s) s0 lines) = progs s0 /\ forall dir, grew dir s0 (foldl (fun s line => add_log line s) s0 lines)).
  { induction lines as [|line lines IH]; intros s0; cbn [foldl]; [done|]. destruct (IH (add_log line s0)) as (-> & -> & G).
    split; [done|]. split; [done|]. intros dir. etransitivity; [apply grew_log|apply G]. }
  destruct (Hl (set_prog progressPath d' s)) as (-> & -> & G). split; [done|]. split.
  - intros dir. etransitivity; [apply grew_set_prog|apply G].
  - split; [intros q Hq; cbn; by rewrite lookup_insert_ne|]. exists d'. split; [apply lookup_insert_eq|done].
Qed.

Definition record_post (p : wparams) (w : wstate (C := C)) (client : C) (leaves : list LogLeaf) (s : store) (d : progress_db)
    (r : res (wstate (C := C) * option LogProgress)) (s' : store) : Prop :=
  recorded (next_cursor leaves) (p_runTotal p + (w_session w + Z.of_nat (length leaves))) s d s' /\
  (forall e, r <> Err e) /\ (is_ok r = false -> cursors_kept d s') /\
  forall w' ev, r = Ok (w', ev) ->
    w_client w' = client /\ w_cursor w' = next_cursor leaves /\ w_session w' = w_session w + Z.of_nat (length leaves).

(** Recording the cursor after the page. *)
Lemma record_page_wp p w client leaves cache s d :
  progs s !! progressPath = Some d -> progress_wf d ->
  wp (record_page clock progressPath lg p w client leaves cache) (record_post p w client leaves s d) s.
Proof.
  intros Hd Hw. unfold record_page. fold (next_cursor leaves). set (session := w_session w + _).
  assert (Hend : forall s', recorded (next_cursor leaves) (p_runTotal p + session) s d s' ->
    wp (if p_progressEvery p <=? session - w_lastEvent w
        then ret (mkW client (next_cursor leaves) session session cache,
               Some (buildEvent lg "running" "" session (p_runTotal p + session) (next_cursor leaves) (p_treeSize p)))
        else ret (mkW client (next_cursor leaves) session (w_lastEvent w) cache, None)) (record_post p w client leaves s d) s').
  { intros s' Hs. destruct (_ <=? _); apply wp_ret; (split; [done|]); (split; [done|]); (split; [done|]); by intros ? ? [= <- <-]. }
  apply wp_bind, wp_attempt. eapply wp_mono; [by apply update_log_exact|]. intros r s4 (d' & -> & Hw' & Hc).
  assert (Hor : cursors d' = cursors d \/ cursors d' = spec_call (CallUpdate (lg_LogID lg) (next_cursor leaves) (p_runTotal p + session)) (cursors d))
    by (destruct (is_ok r); auto).
  destruct r as [[]|e|].
  - apply wp_bind, wp_ret, Hend. by exists d', [].
  - apply wp_bind, wp_logf, Hend. by exists d', [(shortDesc lg +:+ " update progress: " +:+ error_text e)%string].
  - split; [by exists d', []|]. split; [done|]. split; [|done]. intros _. exists d'. split; [apply lookup_insert_eq|done].
Qed.

Lemma worker_store_wp p pool w client leaves s d :
  pool_ok pool s -> progs s !! progressPath = Some d -> progress_wf d ->
  wp (worker_store std_parse ct_parse month_order clock progressPath issuerPath lg p pool w client leaves)
     (store_post p pool w client leaves s d) s.
Proof.
  intros Hp Hd Hw. set (dir := activeDir pool).
  assert (Hbad : forall (r : res (SubjectDBPool * wstate (C := C) * option LogProgress)) s', is_ok r = false -> (forall e, r <> Err e) ->
    grew dir s s' -> progs s' = progs s -> store_post p pool w client leaves s d r s').
  { intros r s' Hr He Hg Hpr. split; [by apply stored_same|]. split; [done|].
    split; [intros _; exists d; by rewrite Hpr|]. by intros ? ? ? ->. }
  apply wp_bind. eapply wp_mono; [apply prefetch_wp|].
  intros [cache|e|] s1 [H1 He1]; [|by destruct (He1 e)|apply Hbad; [done|done|by apply issuers_only_grew|apply H1]].
  pose proof (issuers_only_grew dir _ _ H1) as G1.
  apply wp_bind. eapply wp_mono; [apply page_subjects_wp|].
  intros [subjects|e|] s2 (H2 & _ & He2 & Hsub); [|by destruct (He2 e)|].
  2: { apply Hbad; [done|done| |]; [etransitivity; [done|by apply issuers_only_grew]|].
       rewrite (io_progs _ _ H2). apply H1. }
  specialize (Hsub subjects eq_refl). pose proof (issuers_only_grew dir _ _ H2) as G2.
  assert (Hp2 : pool_ok pool s2).
  { destruct Hp as [P1 P2]. split; intros m; rewrite (io_dbs _ _ H2), (io_dbs _ _ H1); [apply P1|apply P2]. }
  assert (Hprog2 : progs s2 = progs s) by (rewrite (io_progs _ _ H2); apply H1).
  apply wp_bind. eapply wp_mono; [by apply insert_page_wp|].
  intros [pool3|e|] s3 (G3 & [T3 _] & He3 & Hok3); [|by destruct (He3 e)|].
  2: { apply Hbad; [done|done| |congruence]. etransitivity; [done|]. by etransitivity. }
  destruct (Hok3 pool3 eq_refl) as (Hle & Hpo & Hrows).
  assert (G03 : grew dir s s3) by (etransitivity; [done|]; by etransitivity).
  assert (Hfate : forall leaf, leaf ∈ leaves -> fate dir s s3 leaf).
  { apply (leaves_fate pool s s1 s2 s3 leaves subjects G1 G2 G3 Hsub). intros x Hx. apply Hrows. split; [done|].
    by apply months_of_subjects. }
  apply wp_bind. assert (Hd3 : progs s3 !! progressPath = Some d) by (by rewrite T3, Hprog2).
  eapply wp_mono; [by eapply record_page_wp|]. intros r s' (Hrec & He & Hbad' & Hok').
  destruct (recorded_facts _ _ _ _ _ Hrec) as (Hdb & G4 & Hother & d' & D1 & D2 & D3).
  assert (Hf' : forall leaf, leaf ∈ leaves -> fate dir s s' leaf) by (intros leaf Hl; eapply grew_fate; [apply G4|auto]).
  assert (Hs' : stored dir s d (p_runTotal p + (w_session w + Z.of_nat (length leaves))) leaves s').
  { split; [by etransitivity|intros q Hq; rewrite Hother, T3 by done; by rewrite Hprog2|]. exists d'. split; [done|]. split; [done|].
    destruct D3 as [D3|D3]; [by left|by right]. }
  assert (Hpo' : pool_ok pool3 s') by (destruct Hpo as [P1 P2]; split; intros m; rewrite Hdb; [apply P1|apply P2]).
  destruct r as [[w' ev]|e|]; [apply wp_ret|by destruct (He e)|by split_and!].
  split; [done|]. split; [done|]. split; [done|]. intros ? ? ? [= <- <- <-]. by destruct (Hok' w' ev eq_refl).
Qed.

End Page.
