(* ===== verification/System.v ===== *)
(** internal/ingestion/multilog.go: IngestAll as a system — one worker per log,
    the rollover coordinator that swaps the pool, the flush worker behind its
    queue, and crashes with restarts — as a step relation over the store. No lock
    is held from one call of a worker to the next, so its page is stored in
    several steps, and the months of a pool are flushed one at a time between
    them: what is atomic is one call of the packages db and ctlog. *)

From S2P Require Import Prelude GoStd Sha256 FileSys CtlogParse CtlogClient Sql SubjectDB Dedup FlushFrame Progress Ctlist.
From S2P Require Import LogClient Leaf Worker WorkerSafe.

#[local] Open Scope sql_scope.

(** ** Definitions *)

(** The database handle a worker got for a month: open; closed by FlushAll, which
    left the file in place; or closed and the file removed. A transaction that was
    begun before the close goes on, in the file it was begun in. *)
Inductive handle := Live | Closed | Gone.

(** A page on its way: what was fetched, the number of log lines written before,
    the issuers and rows resolved, the directory of the pool that was loaded. [pg_cut]
    is history: the months whose transaction committed after their file was gone. *)
Record page (C : Type) := mkPage {
  pg_client : C; pg_leaves : list LogLeaf; pg_lo : nat;
  pg_cache : gmap bytes issuerInfo; pg_subjects : list Subject; pg_dir : string; pg_cut : list string }.
Arguments mkPage {C} _ _ _ _ _ _ _.
Arguments pg_client {C} _.
Arguments pg_leaves {C} _.
Arguments pg_lo {C} _.
Arguments pg_cache {C} _.
Arguments pg_subjects {C} _.
Arguments pg_dir {C} _.
Arguments pg_cut {C} _.

Definition with_cache {C : Type} (cache : gmap bytes issuerInfo) (pg : page C) : page C :=
  mkPage (pg_client pg) (pg_leaves pg) (pg_lo pg) cache (pg_subjects pg) (pg_dir pg) (pg_cut pg).
Definition with_rows {C : Type} (subjects : list Subject) (dir : string) (pg : page C) : page C :=
  mkPage (pg_client pg) (pg_leaves pg) (pg_lo pg) (pg_cache pg) subjects dir (pg_cut pg).
Definition cut_month {C : Type} (m : string) (pg : page C) : page C :=
  mkPage (pg_client pg) (pg_leaves pg) (pg_lo pg) (pg_cache pg) (pg_subjects pg) (pg_dir pg) (m :: pg_cut pg).

(** The call that comes next: prefetchIssuersLog; the rows and the pool; GetOrOpen
    of the first of the months, or the progress when none is left; Begin on the
    month's handle; the inserts and Commit of its transaction. *)
Inductive stage :=
| Resolving
| Resolved
| Storing (months : list string)
| Opened (m : string) (h : handle) (months : list string)
| Inserting (m : string) (h : handle) (months : list string).

(** Where a worker is: not running, at the top of its loop, or storing a page. *)
Inductive phase (C : Type) :=
| Idle
| Looping (p : wparams) (w : wstate (C := C))
| Paged (p : wparams) (w : wstate (C := C)) (pg : page C) (st : stage).
Arguments Idle {C}.
Arguments Looping {C} _ _.
Arguments Paged {C} _ _ _ _.

(** History: a page of [pn_log] was stored, from which cursor to which; the log
    lines written meanwhile are those numbered [pn_lo] to [pn_hi]; and the months
    that were cut off. *)
Record page_note := mkNote { pn_log : Log; pn_from : Z; pn_to : Z; pn_lo : nat; pn_hi : nat; pn_cut : list string }.

(** FlushAll at work: the directory of the pool, whose lock it holds, the months
    that are left and the first error. *)
Record flushing := mkFlush { fl_dir : string; fl_months : list string; fl_err : option error }.

(** [sy_pools]: the open months of every pool of the process, by directory;
    [sy_live] is poolRef, [sy_queue] flushCh and [sy_flush] what the flush worker
    is doing. [sy_dirs] (every directory a pool ever had) and [sy_pages] are
    history. *)
Record sys (C : Type) := mkSys {
  sy_store : store;
  sy_pools : gmap string (gset string);
  sy_live : string;
  sy_queue : list string;
  sy_flush : option flushing;
  sy_workers : list (Log * phase C);
  sy_dirs : list string;
  sy_pages : list page_note }.
Arguments mkSys {C} _ _ _ _ _ _ _ _.
Arguments sy_store {C} _.
Arguments sy_pools {C} _.
Arguments sy_live {C} _.
Arguments sy_queue {C} _.
Arguments sy_flush {C} _.
Arguments sy_workers {C} _.
Arguments sy_dirs {C} _.
Arguments sy_pages {C} _.

(** What a worker's call comes to: its next phase, the months its pool has open
    when it opened one, and the note of a stored page. *)
Record turned (C : Type) := mkTurned {
  tn_phase : phase C; tn_open : option (string * gset string); tn_note : option (nat -> page_note) }.
Arguments mkTurned {C} _ _ _.
Arguments tn_phase {C} _.
Arguments tn_open {C} _.
Arguments tn_note {C} _.

Definition on_to {C : Type} (ph : phase C) : turned C := mkTurned ph None None.

(** The months of two directories never share a path. *)
Definition separate (d d' : string) : Prop := forall m m', month_path d m <> month_path d' m'.

Section System.

Context {C : Type} `{LogClient C}.
Variable std_parse ct_parse : bytes -> res Certificate.
Variable month_order : gset string -> list string.
Variable clock : Z -> string.
Variable progressPath issuerPath : string.
(** The parameters of FlushAll (Dedup.v). *)
Variable scan : db -> res (list bytes).
Variable batchSize appendBatchRows pid : Z.
(** The staging directory of the pools and the archive root. *)
Variable base root : string.
Variable req : IngestAllRequest.
Variable progressEvery : Z.
(** The clients a worker of a log may be given. *)
Variable new_client : Log -> C -> Prop.

Definition pool_at (y : sys C) (dir : string) : SubjectDBPool := mkPool (default ∅ (sy_pools y !! dir)) dir.

Definition set_worker (i : nat) (ph : phase C) (ws : list (Log * phase C)) : list (Log * phase C) :=
  match ws !! i with Some (lg, _) => <[i := (lg, ph)]> ws | None => ws end.

Definition set_store (st : store) (y : sys C) : sys C :=
  mkSys st (sy_pools y) (sy_live y) (sy_queue y) (sy_flush y) (sy_workers y) (sy_dirs y) (sy_pages y).

Definition move_worker (i : nat) (ph : phase C) (y : sys C) : sys C :=
  mkSys (sy_store y) (sy_pools y) (sy_live y) (sy_queue y) (sy_flush y) (set_worker i ph (sy_workers y)) (sy_dirs y) (sy_pages y).

(** poolDirName: a directory of the staging area that no pool had before. *)
Record fresh_dir (dir : string) (y : sys C) : Prop := {
  fd_base : Dir dir = base;
  fd_sep : forall d, d ∈ root :: sy_dirs y -> separate dir d /\ separate d dir;
  fd_none : forall m, dbs (sy_store y) !! month_path dir m = None }.

(** The process is gone; a new one starts with an empty pool and no worker. *)
Definition restart (st : store) (dir : string) (y : sys C) : sys C :=
  mkSys st {[dir := ∅]} dir [] None (map (fun w => (w.1, Idle)) (sy_workers y)) (dir :: sy_dirs y) (sy_pages y).

(** *** A worker's calls *)

Definition ErrDBClosed : error := Wrap "begin batch" (Errorf "sql: database is closed").

(** The inserts and the commit of a transaction. When the file is gone they go
    into the removed inode. *)
Definition insert_through (h : handle) (path : string) (batch : list Subject) : M unit :=
  match h with
  | Gone => let@ _ := wrapM "prepare insert" nop in let@ _ := exec_inserts (empty_db true true) batch in nop
  | Live | Closed => InsertSubjectBatch path batch
  end.

(** FlushAll holds the pool's lock. *)
Definition is_flushing (y : sys C) (dir : string) : bool :=
  match sy_flush y with Some f => String.eqb (fl_dir f) dir | None => false end.

(** The next call of the worker of [lg]; none while it waits for the pool's lock.
    prefetchIssuersLog writes under issuerMu, and the rows only read the page. *)
Definition page_turn (y : sys C) (lg : Log) (p : wparams) (w : wstate (C := C)) (pg : page C) (st : stage) : option (M (turned C)) :=
  match st with
  | Resolving => Some (
      let@ cache := prefetchIssuersLog std_parse ct_parse issuerPath (pg_leaves pg) (pg_client pg) (w_cache w) in
      ret (on_to (Paged p w (with_cache cache pg) Resolved)))
  | Resolved => Some (
      let@ subjects := page_subjects std_parse ct_parse lg (pg_leaves pg) (pg_cache pg) in
      ret (on_to (Paged p w (with_rows subjects (sy_live y) pg) (Storing (page_months month_order subjects)))))
  | Storing [] => Some (
      let@ (w', _) := record_page clock progressPath lg p w (pg_client pg) (pg_leaves pg) (pg_cache pg) in
      ret (mkTurned (Looping p w') None (Some (fun hi => mkNote lg (w_cursor w) (w_cursor w') (pg_lo pg) hi (pg_cut pg)))))
  | Storing (m :: months) =>
      if is_flushing y (pg_dir pg) then None else Some (
      let@ r := attempt (GetOrOpen (pool_at y (pg_dir pg)) m) in
      match r with
      | inr e =>
          let@ _ := logf (open_line lg m e) in
          ret (on_to (Paged p w pg (Storing months)))
      | inl pool => ret (mkTurned (Paged p w pg (Opened m Live months)) (Some (pg_dir pg, pool_dbs pool)) None)
      end)
  | Opened m h months => Some (
      match h with
      | Live => ret (on_to (Paged p w pg (Inserting m Live months)))
      | Closed | Gone =>
          let@ _ := logf (insert_line lg m ErrDBClosed) in
          ret (on_to (Paged p w pg (Storing months)))
      end)
  | Inserting m h months => Some (
      let@ r := attempt (insert_through h (month_path (pg_dir pg) m) (batch_of (pg_subjects pg) m)) in
      match r with
      | inr e =>
          let@ _ := logf (insert_line lg m e) in
          ret (on_to (Paged p w pg (Storing months)))
      | inl _ => ret (on_to (Paged p w (match h with Gone => cut_month m pg | Live | Closed => pg end) (Storing months)))
      end)
  end.

Definition after_turn (i : nat) (t : turned C) (st : store) (y : sys C) : sys C :=
  mkSys st (match tn_open t with Some (dir, ms) => <[dir := ms]> (sy_pools y) | None => sy_pools y end)
    (sy_live y) (sy_queue y) (sy_flush y) (set_worker i (tn_phase t) (sy_workers y)) (sy_dirs y)
    (match tn_note t with Some note => note (length (logged st)) :: sy_pages y | None => sy_pages y end).

(** *** A flush *)

(** The month's handle is closed, and its file is there or gone. *)
Definition close_handle (gone : bool) (h : handle) : handle :=
  match h with Gone => Gone | Live | Closed => if gone then Gone else Closed end.

Definition close_stage (m : string) (gone : bool) (st : stage) : stage :=
  match st with
  | Opened m' h ms => if String.eqb m' m then Opened m' (close_handle gone h) ms else st
  | Inserting m' h ms => if String.eqb m' m then Inserting m' (close_handle gone h) ms else st
  | _ => st
  end.

Definition close_phase (dir m : string) (gone : bool) (ph : phase C) : phase C :=
  match ph with
  | Paged p w pg st => if String.eqb (pg_dir pg) dir then Paged p w pg (close_stage m gone st) else ph
  | _ => ph
  end.

(** One month of FlushAll: closed, put into the archive, removed. *)
Definition after_month (dir m : string) (months : list string) (err : option error) (r : unit + error) (st : store) (y : sys C) : sys C :=
  mkSys st (<[dir := pool_dbs (pool_at y dir) ∖ {[m]}]> (sy_pools y)) (sy_live y) (sy_queue y)
    (Some (mkFlush dir months (match r, err with inr e, None => Some e | _, _ => err end)))
    (map (fun w => (w.1, close_phase dir m (match dbs st !! month_path dir m with Some _ => false | None => true end) w.2)) (sy_workers y))
    (sy_dirs y) (sy_pages y).

Definition flush_line (err : option error) : string :=
  match err with
  | Some e => ("background flush: " +:+ error_text e)%string
  | None => "background flush: pool flushed to archive"
  end.

Definition flush_one (y : sys C) (dir m : string) : M (unit + error) :=
  attempt (flush_month scan batchSize appendBatchRows pid (pool_at y dir) root (Join (Dir dir) "dedup") m).

Inductive sys_step : sys C -> sys C -> Prop :=
| step_start y i lg client fl ev st fl' :
    sy_workers y !! i = Some (lg, Idle) -> new_client lg client ->
    worker_start clock progressPath lg req progressEvery client (sy_store y) fl = (Ok (inl ev), st, fl') ->
    sys_step y (set_store st y)
| step_started y i lg client fl p w st fl' :
    sy_workers y !! i = Some (lg, Idle) -> new_client lg client ->
    worker_start clock progressPath lg req progressEvery client (sy_store y) fl = (Ok (inr (p, w)), st, fl') ->
    sys_step y (move_worker i (Looping p w) (set_store st y))
| step_stop y i lg p w ctxErr ev :
    sy_workers y !! i = Some (lg, Looping p w) ->
    worker_fetch lg p ctxErr w = Ok (FStop ev) ->
    sys_step y (move_worker i Idle y)
| step_fetch y i lg p w ctxErr client leaves :
    sy_workers y !! i = Some (lg, Looping p w) ->
    worker_fetch lg p ctxErr w = Ok (FPage client leaves) ->
    sys_step y (move_worker i (Paged p w (mkPage client leaves (length (logged (sy_store y))) (w_cache w) [] "" []) Resolving) y)
| step_turn y i lg p w pg stg m fl t st fl' :
    sy_workers y !! i = Some (lg, Paged p w pg stg) -> page_turn y lg p w pg stg = Some m ->
    m (sy_store y) fl = (Ok t, st, fl') ->
    sys_step y (after_turn i t st y)
| step_swap y dir :
    fresh_dir dir y ->
    sys_step y (mkSys (sy_store y) (<[dir := ∅]> (sy_pools y)) dir (sy_queue y ++ [sy_live y]) (sy_flush y) (sy_workers y)
                  (dir :: sy_dirs y) (sy_pages y))
| step_flush y dir queue :
    sy_queue y = dir :: queue -> sy_flush y = None ->
    sys_step y (mkSys (sy_store y) (sy_pools y) (sy_live y) queue
                  (Some (mkFlush dir (month_order (pool_dbs (pool_at y dir))) None)) (sy_workers y) (sy_dirs y) (sy_pages y))
| step_flush_month y dir m months err fl r st fl' :
    sy_flush y = Some (mkFlush dir (m :: months) err) -> flush_one y dir m (sy_store y) fl = (Ok r, st, fl') ->
    sys_step y (after_month dir m months err r st y)
| step_flush_end y dir err :
    sy_flush y = Some (mkFlush dir [] err) ->
    sys_step y (mkSys (add_log (flush_line err) (sy_store y)) (<[dir := ∅]> (sy_pools y)) (sy_live y) (sy_queue y) None
                  (sy_workers y) (sy_dirs y) (sy_pages y))
(** The process may die at any point, between two steps or inside one. *)
| step_crash y dir : fresh_dir dir y -> sys_step y (restart (sy_store y) dir y)
| step_crash_start y i lg client fl st fl' dir :
    sy_workers y !! i = Some (lg, Idle) -> new_client lg client ->
    worker_start clock progressPath lg req progressEvery client (sy_store y) fl = (Panic, st, fl') ->
    fresh_dir dir (set_store st y) -> sys_step y (restart st dir y)
| step_crash_turn y i lg p w pg stg m fl st fl' dir :
    sy_workers y !! i = Some (lg, Paged p w pg stg) -> page_turn y lg p w pg stg = Some m ->
    m (sy_store y) fl = (Panic, st, fl') ->
    fresh_dir dir (set_store st y) -> sys_step y (restart st dir y)
| step_crash_flush y dir m months err fl st fl' dir' :
    sy_flush y = Some (mkFlush dir (m :: months) err) -> flush_one y dir m (sy_store y) fl = (Panic, st, fl') ->
    fresh_dir dir' (set_store st y) -> sys_step y (restart st dir' y).

(** *** What must hold of an acknowledged entry *)

(** The entries of the logs, by log id and index. *)
Variable L : bytes -> Z -> LogLeaf.

(** The row of the entry is in its month under one of [dirs]. *)
Definition on_disk (dirs : list string) (s : store) (id : bytes) (i : Z) : Prop :=
  exists dir lg x, dir ∈ dirs /\ lg_LogID lg = id /\ leaf_row std_parse ct_parse lg (L id i) x /\ kept dir s x.

(** The page that had the entry logged its loss. *)
Definition loss_logged (pages : list page_note) (s : store) (id : bytes) (i : Z) : Prop :=
  exists n line, n ∈ pages /\ lg_LogID (pn_log n) = id /\ pn_from n <= i < pn_to n /\
    loss_line std_parse ct_parse (pn_log n) (L id i) line /\
    line ∈ take (pn_hi n - pn_lo n) (drop (pn_lo n) (logged s)).

(** The page's transaction for the entry's month was open when FlushAll closed the
    month, and committed after the file was gone. *)
Definition cut_off (pages : list page_note) (id : bytes) (i : Z) : Prop :=
  exists n x, n ∈ pages /\ lg_LogID (pn_log n) = id /\ pn_from n <= i < pn_to n /\
    leaf_row std_parse ct_parse (pn_log n) (L id i) x /\ certMonth (NotBefore x) ∈ pn_cut n.

Definition settled (dirs : list string) (pages : list page_note) (s : store) (id : bytes) (i : Z) : Prop :=
  on_disk dirs s id i \/ loss_logged pages s id i \/ cut_off pages id i.

End System.
