(* ===== verification/SystemSeq.v ===== *)
(** Nothing between its steps, the system runs the functions: the steps of a flush
    come to FlushAll, the calls for a page to worker_store. *)

From S2P Require Import Prelude GoStd Sha256 FileSys CtlogParse CtlogClient Sql SubjectDB Dedup FlushFrame Progress Ctlist.
From S2P Require Import LogClient Leaf Worker WorkerSafe System.

#[local] Open Scope sql_scope.

Lemma bind_ok {A B} (m : M A) (k : A -> M B) s fl b s' fl' :
  bindM m k s fl = (Ok b, s', fl') -> exists a s1 fl1, m s fl = (Ok a, s1, fl1) /\ k a s1 fl1 = (Ok b, s', fl').
Proof. unfold bindM. destruct (m s fl) as [[[a|e|] s1] fl1]; [|done..]. intros E. by exists a, s1, fl1. Qed.

Section Sequential.

Context {C : Type} `{LogClient C}.
Context (std_parse ct_parse : bytes -> res Certificate) (month_order : gset string -> list string) (clock : Z -> string).
Context (progressPath issuerPath : string) (scan : db -> res (list bytes)) (batchSize appendBatchRows pid : Z).
Context (base root : string) (req : IngestAllRequest) (progressEvery : Z) (new_client : Log -> C -> Prop).

#[local] Abbreviation step := (sys_step std_parse ct_parse month_order clock progressPath issuerPath scan batchSize
  appendBatchRows pid base root req progressEvery new_client).

(** *** A flush *)

Lemma flush_months_steps y dir pool months err fl r st fl' :
  sy_flush y = Some (mkFlush dir months err) -> activeDir pool = dir ->
  flush_months scan batchSize appendBatchRows pid pool root (Join (Dir dir) "dedup") months err (sy_store y) fl = (Ok r, st, fl') ->
  exists y', rtc step y y' /\ sy_store y' = st /\ sy_flush y' = Some (mkFlush dir [] r) /\ sy_live y' = sy_live y /\ sy_queue y' = sy_queue y /\
    forall ms, <[dir := ms]> (sy_pools y') = <[dir := ms]> (sy_pools y).
Proof.
  revert y err fl. induction months as [|m months IH]; intros y err fl Hf Hd; cbn [flush_months].
  { intros [= <- <- <-]. by exists y. }
  intros (o & s1 & fl1 & E1 & E2)%bind_ok.
  assert (Hs : step y (after_month dir m months err o s1 y)) by (eapply step_flush_month; [done|]; unfold flush_one, flush_month in *; rewrite Hd in E1; exact E1).
  destruct (IH (after_month dir m months err o s1 y) _ _ eq_refl Hd E2) as (y' & H1 & H2 & H3 & H4 & H5 & H6).
  exists y'. split; [by eapply rtc_l|]. split; [done|]. split; [done|]. split; [done|]. split; [done|].
  intros ms. rewrite H6. cbn. by rewrite insert_insert_eq.
Qed.

(** FlushAll of the pool at the head of the queue is a sequence of steps. *)
Lemma flush_all_steps y dir queue fl pool' err st fl' :
  sy_queue y = dir :: queue -> sy_flush y = None ->
  FlushAll scan batchSize appendBatchRows pid month_order (pool_at y dir) root (sy_store y) fl = (Ok (pool', err), st, fl') ->
  exists y', rtc step y y' /\ sy_store y' = add_log (flush_line err) st /\ sy_flush y' = None /\ sy_live y' = sy_live y /\
    sy_queue y' = queue /\ sy_pools y' = <[dir := pool_dbs pool']> (sy_pools y).
Proof.
  intros Hq Hn. unfold FlushAll. intros (e & s1 & fl1 & E1 & [= <- <- <- <-])%bind_ok. cbn [pool_dbs].
  set (y0 := mkSys (sy_store y) (sy_pools y) (sy_live y) queue (Some (mkFlush dir (month_order (pool_dbs (pool_at y dir))) None))
               (sy_workers y) (sy_dirs y) (sy_pages y)).
  assert (H0 : step y y0) by (by apply step_flush).
  destruct (flush_months_steps y0 dir (pool_at y dir) _ None fl e s1 fl1 eq_refl eq_refl E1) as (y1 & H1 & <- & H2 & H3 & H4 & H5).
  eexists. split; [eapply rtc_l; [exact H0|]; eapply rtc_r; [exact H1|by eapply step_flush_end]|].
  cbn. split; [done|]. split; [done|]. split; [done|]. split; [done|]. by rewrite H5.
Qed.

(** *** A page *)

Section Page.

Context (i : nat) (lg : Log) (p : wparams) (w : wstate (C := C)).

#[local] Abbreviation turn := (page_turn std_parse ct_parse month_order clock progressPath issuerPath).

Definition worker_in (y : sys C) (pg : page C) (stg : stage) : Prop := sy_workers y !! i = Some (lg, Paged p w pg stg).

Lemma set_worker_at (ph : phase C) y old : sy_workers y !! i = Some (lg, old) -> set_worker i ph (sy_workers y) !! i = Some (lg, ph).
Proof. intros E. unfold set_worker. rewrite E. apply list_lookup_insert_eq. by eapply lookup_lt_Some. Qed.

(** One call, under the plan of failures that is left. *)
Lemma call_step y pg stg fl t st fl' :
  worker_in y pg stg -> match turn y lg p w pg stg with Some m => m (sy_store y) fl = (Ok t, st, fl') | None => False end ->
  step y (after_turn i t st y) /\ sy_workers (after_turn i t st y) !! i = Some (lg, tn_phase t).
Proof.
  intros Hi Hr. destruct (turn y lg p w pg stg) as [m|] eqn:Hm; [|done]. split; [by eapply step_turn|]. by eapply set_worker_at.
Qed.

Lemma insert_page_steps months : forall y pg pool fl pool' st fl',
  worker_in y pg (Storing months) -> pool_at y (pg_dir pg) = pool -> is_flushing y (pg_dir pg) = false ->
  insert_page lg pool (pg_subjects pg) months (sy_store y) fl = (Ok pool', st, fl') ->
  exists y', rtc step y y' /\ sy_store y' = st /\ worker_in y' pg (Storing []) /\ pool_at y' (pg_dir pg) = pool' /\
    sy_live y' = sy_live y /\ sy_flush y' = sy_flush y.
Proof.
  induction months as [|m months IH]; intros y pg pool fl pool' st fl' Hi <- Hf; cbn [insert_page].
  { intros [= <- <- <-]. by exists y. }
  intros (r & s1 & fl1 & E1 & E2)%bind_ok. unfold attempt in E1.
  destruct (GetOrOpen (pool_at y (pg_dir pg)) m (sy_store y) fl) as [[[pool1|e|] s1'] fl1'] eqn:Eo; [|..|done]; injection E1 as <- <- <-.
  2: { cbv [bindM logf] in E2.
    destruct (call_step y pg (Storing (m :: months)) fl (on_to (Paged p w pg (Storing months))) (add_log (open_line lg m e) s1') fl1' Hi) as [S1 W1].
    { cbn [page_turn]. rewrite Hf. unfold bindM, attempt, logf. by rewrite Eo. }
    edestruct (IH (after_turn i (on_to (Paged p w pg (Storing months))) (add_log (open_line lg m e) s1') y)) as (y' & H1 & H2 & H3 & H4 & H5 & H6);
      [exact W1|reflexivity|exact Hf|exact E2|].
    exists y'. split; [by eapply rtc_l|]. done. }
  assert (Ed : activeDir pool1 = pg_dir pg).
  { unfold GetOrOpen in Eo. destruct (bool_decide _) in Eo; [by injection Eo as <- _ _|].
    apply bind_ok in Eo as (? & ? & ? & _ & Eo). apply bind_ok in Eo as (? & ? & ? & _ & Eo). by injection Eo as <- _ _. }
  set (t1 := mkTurned (Paged p w pg (Opened m Live months)) (Some (pg_dir pg, pool_dbs pool1)) None).
  destruct (call_step y pg (Storing (m :: months)) fl t1 s1' fl1' Hi) as [S1 W1].
  { cbn [page_turn]. rewrite Hf. unfold bindM, attempt, ret. by rewrite Eo. }
  set (y1 := after_turn i t1 s1' y) in *.
  destruct (call_step y1 pg (Opened m Live months) fl1' (on_to (Paged p w pg (Inserting m Live months))) s1' fl1' W1 eq_refl) as [S2 W2].
  set (y2 := after_turn i (on_to (Paged p w pg (Inserting m Live months))) s1' y1) in *.
  assert (Hp2 : pool_at y2 (pg_dir pg) = pool1).
  { unfold pool_at. cbn. rewrite lookup_insert_eq. destruct pool1 as [ms dir]. cbn in *. by rewrite Ed. }
  apply bind_ok in E2 as (r & s2 & fl2 & Ei & E2). apply bind_ok in E2 as ([] & s3 & fl3 & El & E2). rewrite Ed in Ei.
  destruct (call_step y2 pg (Inserting m Live months) fl1' (on_to (Paged p w pg (Storing months))) s3 fl3 W2) as [S3 W3].
  { cbn [page_turn insert_through]. unfold bindM. change (sy_store y2) with s1'. rewrite Ei. destruct r as [[]|e]; [by injection El as <- <-|].
    by injection El as <- <-. }
  edestruct (IH (after_turn i (on_to (Paged p w pg (Storing months))) s3 y2)) as (y' & H1 & H2 & H3 & H4 & H5 & H6);
    [exact W3|exact Hp2|exact Hf|exact E2|].
  exists y'. split; [|done]. eapply rtc_l; [exact S1|]. eapply rtc_l; [exact S2|]. by eapply rtc_l.
Qed.

(** The calls for a page, with nothing between them, are worker_store on the
    pool that is live. *)
Lemma worker_store_steps y pg fl pool' w' ev st fl' :
  worker_in y pg Resolving -> is_flushing y (sy_live y) = false ->
  worker_store std_parse ct_parse month_order clock progressPath issuerPath lg p (pool_at y (sy_live y)) w (pg_client pg) (pg_leaves pg)
    (sy_store y) fl = (Ok (pool', w', ev), st, fl') ->
  exists y', rtc step y y' /\ sy_store y' = st /\ sy_workers y' !! i = Some (lg, Looping p w') /\ pool_at y' (sy_live y) = pool'.
Proof.
  intros Hi Hf. unfold worker_store.
  intros (cache & s1 & fl1 & E1 & (subjects & s2 & fl2 & E2 & (pool3 & s3 & fl3 & E3 & ([w3 ev3] & s4 & fl4 & E4 & [= <- <- <- <- <-])%bind_ok)%bind_ok)%bind_ok)%bind_ok.
  destruct (call_step y pg Resolving fl (on_to (Paged p w (with_cache cache pg) Resolved)) s1 fl1 Hi) as [S1 W1].
  { cbn [page_turn]. unfold bindM. by rewrite E1. }
  set (y1 := after_turn i _ s1 y) in *.
  destruct (call_step y1 (with_cache cache pg) Resolved fl1
    (on_to (Paged p w (with_rows subjects (sy_live y) (with_cache cache pg)) (Storing (page_months month_order subjects)))) s2 fl2 W1) as [S2 W2].
  { cbn [page_turn]. unfold bindM. cbn [pg_leaves with_cache pg_cache]. change (sy_store y1) with s1. by rewrite E2. }
  set (y2 := after_turn i _ s2 y1) in *. set (pg2 := with_rows subjects (sy_live y) (with_cache cache pg)) in *.
  destruct (insert_page_steps (page_months month_order subjects) y2 pg2 (pool_at y (sy_live y)) fl2 pool3 s3 fl3 W2 eq_refl Hf E3)
    as (y3 & S3 & <- & W3 & H4 & H5 & H6).
  destruct (call_step y3 pg2 (Storing []) fl3
    (mkTurned (Looping p w3) None (Some (fun hi => mkNote lg (w_cursor w) (w_cursor w3) (pg_lo pg2) hi (pg_cut pg2)))) s4 fl4 W3) as [S4 W4].
  { cbn [page_turn]. unfold bindM. cbn [pg2 with_rows with_cache pg_client pg_leaves pg_cache]. by rewrite E4. }
  eexists. split; [|split; [|split; [exact W4|exact H4]]]; [|done].
  eapply rtc_l; [exact S1|]. eapply rtc_l; [exact S2|]. by eapply rtc_r.
Qed.

End Page.

End Sequential.
