(* ===== verification/SystemSafe.v ===== *)
(** The ingestion system never forgets an acknowledged entry: the invariant of
    System.v and its preservation by every step. *)

From S2P Require Import Prelude GoStd Sha256 FileSys CtlogParse CtlogClient Sql SubjectDB Dedup FlushFrame Progress Ctlist.
From S2P Require Import LogClient Leaf Worker WorkerSafe System.

#[local] Open Scope sql_scope.

(** ** Lemmas *)

(** *** The start of a worker keeps the counters *)

Definition zero_counters : counters := mkCounters 0 0 0.

Definition count (m : gmap bytes counters) (id : bytes) : counters := default zero_counters (m !! id).

(** Every log counts what it counted; a new row counts nothing. *)
Definition same_counts (m m' : gmap bytes counters) : Prop :=
  forall id, c_next (count m' id) = c_next (count m id) /\ c_total (count m' id) = c_total (count m id).

Lemma same_counts_create init m : same_counts m (spec_call (CallGetOrCreate init) m).
Proof.
  intros id. cbn. destruct (m !! LI_LogID init) as [k0|] eqn:E; [done|]. unfold count.
  destruct (decide (id = LI_LogID init)) as [->|Hne]; [by rewrite lookup_insert_eq, E|by rewrite lookup_insert_ne].
Qed.

Lemma same_counts_tree id0 size m : same_counts m (spec_call (CallSetTree id0 size) m).
Proof.
  intros id. cbn. unfold count. destruct (decide (id = id0)) as [->|Hne]; [|by rewrite lookup_alter_ne].
  rewrite lookup_alter_eq. destruct (m !! id0) as [k|]; [|done]. cbn. by destruct (c_tree k =? 0).
Qed.

Section Start.

Context {C : Type} `{LogClient C}.
Context (clock : Z -> string) (progressPath : string) (lg : Log) (req : IngestAllRequest) (progressEvery : Z).

(** The store after a start, and the worker when there is one. *)
Definition start_post (client : C) (s : store) (d : progress_db) (r : res (LogProgress + wparams * wstate (C := C))) (s' : store) : Prop :=
  exists d', s' = set_prog progressPath d' s /\ progress_wf d' /\ same_counts (cursors d) (cursors d') /\
    forall p w, r = Ok (inr (p, w)) ->
      let k := count (cursors d) (lg_LogID lg) in
      w_client w = client /\ w_cursor w = c_next k /\ w_session w = 0 /\ p_runTotal p = c_total k /\
      TreeSize client = Ok (p_treeSize p) /\ p_totalTarget p = rq_BatchSizePerLog req /\
      is_Some (cursors d' !! lg_LogID lg).

Lemma create_some init m : is_Some (spec_call (CallGetOrCreate init) m !! LI_LogID init).
Proof. cbn. destruct (m !! LI_LogID init) eqn:E; [by rewrite E|by rewrite lookup_insert_eq]. Qed.

Lemma tree_some id id' size m : is_Some (m !! id) -> is_Some (spec_call (CallSetTree id' size) m !! id).
Proof.
  intros [k Hk]. cbn. destruct (decide (id = id')) as [->|Hne]; [rewrite lookup_alter_eq, Hk; by eexists|].
  rewrite lookup_alter_ne by done. by exists k.
Qed.

Lemma worker_start_wp client s d :
  progs s !! progressPath = Some d -> progress_wf d ->
  wp (worker_start clock progressPath lg req progressEvery client) (start_post client s d) s.
Proof.
  intros Hd Hw. unfold worker_start. apply wp_bind, wp_attempt.
  eapply wp_mono; [by apply get_or_create_wp|]. intros r s1 [Hpost Hans].
  assert (exists d1, s1 = set_prog progressPath d1 s /\ progress_wf d1 /\ same_counts (cursors d) (cursors d1) /\
    (is_ok r = true -> is_Some (cursors d1 !! lg_LogID lg))) as (d1 & -> & Hw1 & Hs1 & Hrow).
  { destruct Hpost as [(d1 & -> & Hw1 & E)|[Hr (d1 & -> & Hw1 & E)]]; exists d1; (split; [done|]); (split; [done|]); rewrite E.
    - split; [apply same_counts_create|]. intros _. apply (create_some (init_of_log lg)).
    - by rewrite Hr. }
  destruct r as [run|e|]; [|apply wp_ret; by exists d1|by exists d1].
  destruct (Hans run eq_refl) as (A1 & _ & A3 & _).
  destruct (TreeSize client) as [treeSize|e|] eqn:Et; [|apply wp_ret; by exists d1|intros fl; by exists d1].
  apply wp_bind, wp_attempt. eapply wp_mono; [apply (set_tree_wp _ _ d1); [by rewrite progs_set, decide_True|done]|].
  intros r s2 Hp2.
  specialize (Hrow eq_refl).
  assert (exists d2, s2 = set_prog progressPath d2 s /\ progress_wf d2 /\ same_counts (cursors d) (cursors d2) /\
    is_Some (cursors d2 !! lg_LogID lg)) as (d2 & -> & Hw2 & Hs2 & Hrow2).
  { destruct Hp2 as [(d2 & -> & Hw2 & E)|[_ (d2 & -> & Hw2 & E)]]; exists d2; rewrite set_prog_twice, E; split_and!; try done;
      [|by apply tree_some].
    intros id. destruct (same_counts_tree (lg_LogID lg) treeSize (cursors d1) id) as [-> ->]. apply Hs1. }
  destruct r as [[]|e|]; [apply wp_ret|apply wp_ret|by exists d2].
  all: exists d2; split_and!; [done..|]; intros p w [= <- <-]; cbn; unfold count, zero_counters; by rewrite A1, A3.
Qed.

End Start.

(** *** What the rest of the store may do to a settled entry *)

(** Rows stay in some directory's month, the log only grows. *)
Definition evolves (dirs : list string) (s s' : store) : Prop :=
  (forall dir x, dir ∈ dirs -> kept dir s x -> exists dir', dir' ∈ dirs /\ kept dir' s' x) /\
  exists lines, logged s' = logged s ++ lines.

Lemma evolves_refl dirs s : evolves dirs s s.
Proof. split; [|exists []; by rewrite app_nil_r]. intros dir x Hd Hk. by exists dir. Qed.

Lemma grew_evolves dirs dir s s' : grew dir s s' -> evolves dirs s s'.
Proof. intros Hg. split; [|apply Hg]. intros d x Hd Hk. exists d. split; [done|]. by apply (gr_held _ _ _ Hg). Qed.

Lemma same_files_evolves dirs s s' : dbs s' = dbs s -> logged s' = logged s -> evolves dirs s s'.
Proof.
  intros E El. split; [|exists []; by rewrite app_nil_r]. intros d x Hd Hk. exists d. split; [done|].
  eapply held_at_ext; [|exact Hk]. by rewrite E.
Qed.

Lemma elem_take_drop_app {A} lo n (l more : list A) x : x ∈ take n (drop lo l) -> x ∈ take n (drop lo (l ++ more)).
Proof.
  destruct (Nat.le_gt_cases (length l) lo) as [Hlo|Hlo].
  - rewrite (drop_ge l) by done. by rewrite take_nil, elem_of_nil.
  - intros Hx. rewrite drop_app_le by lia.
    destruct (Nat.le_gt_cases n (length (drop lo l))) as [Hn|Hn]; [by rewrite take_app_le|].
    rewrite take_ge in Hx by lia. rewrite take_app_ge by lia. apply elem_of_app. by left.
Qed.

Lemma elem_drop_app {A} lo (l more : list A) x : x ∈ drop lo l -> x ∈ drop lo (l ++ more).
Proof. rewrite drop_app. intros Hx. apply elem_of_app. by left. Qed.

Section Settled.

Context (std_parse ct_parse : bytes -> res Certificate) (L : bytes -> Z -> LogLeaf).

#[local] Abbreviation settled := (settled std_parse ct_parse L).
#[local] Abbreviation leaf_row := (leaf_row std_parse ct_parse).
#[local] Abbreviation loss_line := (loss_line std_parse ct_parse).

Lemma settled_evolves dirs dirs' pages pages' s s' id i :
  evolves dirs s s' -> dirs ⊆ dirs' -> pages ⊆ pages' -> settled dirs pages s id i -> settled dirs' pages' s' id i.
Proof.
  intros [Hk [lines El]] Hd Hp [(dir & lg & x & Hin & E & Hr & Hx)|[(n & line & Hn & E & Hi & Hl & Hin)|(n & x & Hn & Hx)]].
  - left. destruct (Hk dir x Hin Hx) as (dir' & Hin' & Hx'). exists dir', lg, x. auto.
  - right. left. exists n, line. split_and!; auto; [lia..|]. rewrite El. by apply elem_take_drop_app.
  - right. right. exists n, x. auto.
Qed.

Section OnePage.

Context {C : Type} (lg : Log).

(** The line was logged since the page was fetched. *)
Definition page_said (pg : page C) (s : store) (line : string) : Prop := line ∈ drop (pg_lo pg) (logged s).

(** What became of a row: in its month, its loss logged, or cut off. *)
Definition row_done (dirs : list string) (s : store) (pg : page C) (x : Subject) : Prop :=
  (exists dir, dir ∈ dirs /\ kept dir s x) \/
  (exists e line, (line = open_line lg (certMonth (NotBefore x)) e \/ line = insert_line lg (certMonth (NotBefore x)) e) /\
     page_said pg s line) \/
  certMonth (NotBefore x) ∈ pg_cut pg.

(** What became of an entry. *)
Definition leaf_done (dirs : list string) (s : store) (pg : page C) (leaf : LogLeaf) : Prop :=
  (exists x, leaf_row lg leaf x /\ row_done dirs s pg x) \/
  exists line, loss_line lg leaf line /\ page_said pg s line.

(** Every entry of the page is done, or has a row for one of the [months] that are left. *)
Definition page_left (dirs : list string) (s : store) (pg : page C) (months : list string) : Prop :=
  forall leaf, leaf ∈ pg_leaves pg -> leaf_done dirs s pg leaf \/
    exists x, x ∈ pg_subjects pg /\ leaf_row lg leaf x /\ certMonth (NotBefore x) ∈ months.

Lemma page_said_evolves dirs pg s s' line : evolves dirs s s' -> page_said pg s line -> page_said pg s' line.
Proof. intros [_ [lines El]]. unfold page_said. rewrite El. apply elem_drop_app. Qed.

Lemma page_said_now pg s s' line : (pg_lo pg <= length (logged s))%nat -> said s s' line -> page_said pg s' line.
Proof. intros Hlo (lines & El & Hl). unfold page_said. rewrite El, drop_app_le by done. apply elem_of_app. by right. Qed.

Lemma row_done_evolves dirs dirs' s s' pg x : evolves dirs s s' -> dirs ⊆ dirs' -> row_done dirs s pg x -> row_done dirs' s' pg x.
Proof.
  intros He Hd [(dir & Hin & Hk)|[(e & line & Hl & Hs)|Hc]].
  - left. destruct He as [Hk' _]. destruct (Hk' _ _ Hin Hk) as (dir' & Hin' & Hx). exists dir'. auto.
  - right. left. exists e, line. split; [done|]. by eapply page_said_evolves.
  - by right; right.
Qed.

Lemma leaf_done_evolves dirs dirs' s s' pg leaf : evolves dirs s s' -> dirs ⊆ dirs' -> leaf_done dirs s pg leaf -> leaf_done dirs' s' pg leaf.
Proof.
  intros He Hd [(x & Hr & Hx)|(line & Hl & Hs)]; [left; exists x|right; exists line]; (split; [done|]);
    [by eapply row_done_evolves|by eapply page_said_evolves].
Qed.

Lemma page_left_evolves dirs dirs' s s' pg months :
  evolves dirs s s' -> dirs ⊆ dirs' -> page_left dirs s pg months -> page_left dirs' s' pg months.
Proof. intros He Hd Hp leaf Hl. destruct (Hp leaf Hl) as [H|H]; [left; by eapply leaf_done_evolves|by right]. Qed.

(** One month less. *)
Lemma page_left_next dirs s s' pg m months :
  evolves dirs s s' -> page_left dirs s pg (m :: months) ->
  (forall x, x ∈ pg_subjects pg -> certMonth (NotBefore x) = m -> row_done dirs s' pg x) -> page_left dirs s' pg months.
Proof.
  intros He Hp Hm leaf Hl. destruct (Hp leaf Hl) as [H|(x & Hx & Hr & [E|Hin]%elem_of_cons)].
  - left. by eapply leaf_done_evolves.
  - left. left. exists x. split; [done|]. by apply Hm.
  - right. by exists x.
Qed.

(** A month that was cut off is noted with the page. *)
Lemma page_left_cut dirs s pg m months : page_left dirs s pg (m :: months) -> page_left dirs s (cut_month m pg) months.
Proof.
  intros Hp leaf Hl. destruct (Hp leaf Hl) as [[(x & Hr & Hx)|H]|(x & Hx & Hr & [E|Hin]%elem_of_cons)].
  - left. left. exists x. split; [done|]. destruct Hx as [H|[H|H]]; [by left|by right; left|]. right. right. cbn. by right.
  - left. by right.
  - left. left. exists x. split; [done|]. right. right. cbn. rewrite E. by left.
  - right. by exists x.
Qed.

(** Once the page is noted its entries are settled. *)
Lemma leaf_done_settled dirs pages s pg from to leaf :
  leaf_done dirs s pg leaf -> leaf = L (lg_LogID lg) (CtlogParse.EntryIdx leaf) -> from <= CtlogParse.EntryIdx leaf < to ->
  settled dirs (mkNote lg from to (pg_lo pg) (length (logged s)) (pg_cut pg) :: pages) s (lg_LogID lg) (CtlogParse.EntryIdx leaf).
Proof.
  intros Hd E Hi. set (n := mkNote _ _ _ _ _ _).
  assert (Hline : forall line, loss_line lg leaf line -> page_said pg s line ->
    loss_logged std_parse ct_parse L (n :: pages) s (lg_LogID lg) (CtlogParse.EntryIdx leaf)).
  { intros line Hl Hs. exists n, line. cbn. rewrite <- E. split_and!; [by left|done|lia|lia|done|].
    rewrite take_ge; [done|]. by rewrite length_drop. }
  destruct Hd as [(x & Hr & [(dir & Hin & Hk)|[(e & line & Hl & Hs)|Hc]])|(line & Hl & Hs)].
  - left. exists dir, lg, x. by rewrite <- E.
  - right. left. apply (Hline line); [|done]. right. exists x, e. split; [done|]. by destruct Hl; [left|right].
  - right. right. exists n, x. cbn. rewrite <- E. split_and!; [by left|done|lia|lia|done..].
  - right. left. by apply (Hline line).
Qed.

End OnePage.

End Settled.

(** *** Reading a page *)

Section Fetch.

Context {C : Type} `{LogClient C} (good : C -> Prop) `{!LogClientLaws C good}.
Context (lg : Log) (L : bytes -> Z -> LogLeaf) (honest : bytes -> C -> Prop).

(** An honest client reads the log's entries under their indices. *)
Hypothesis Hhonest : forall id c a b, good c -> honest id c -> 0 <= a < b -> b <= max_tree -> b - a <= 256 ->
  honest id (FetchEntries c a b).1 /\
  forall ls, (FetchEntries c a b).2 = Ok ls -> forall leaf, leaf ∈ ls -> leaf = L id (CtlogParse.EntryIdx leaf).

(** A page read at [cursor]. *)
Record page_read (cursor : Z) (client : C) (leaves : list LogLeaf) : Prop := {
  pr_good : good client;
  pr_honest : honest (lg_LogID lg) client;
  pr_ne : leaves <> [];
  pr_idx : CtlogParse.EntryIdx <$> leaves = seqZ cursor (Z.of_nat (length leaves));
  pr_max : cursor + Z.of_nat (length leaves) <= 2 * max_tree;
  pr_leaf : forall leaf, leaf ∈ leaves -> leaf = L (lg_LogID lg) (CtlogParse.EntryIdx leaf) }.

Lemma worker_fetch_page p ctxErr w client leaves :
  good (w_client w) -> honest (lg_LogID lg) (w_client w) -> 0 <= w_cursor w -> p_treeSize p <= max_tree ->
  worker_fetch lg p ctxErr w = Ok (FPage client leaves) -> page_read (w_cursor w) client leaves.
Proof.
  intros Hg Hh H0 Hmax. unfold worker_fetch. destruct ctxErr; [done|].
  destruct (_ && _); [done|]. destruct (Z.leb_spec (p_treeSize p) (w_cursor w)) as [|Hlt]; [done|].
  unfold multilogPageSize. rewrite wrap64_id by (unfold max_tree in *; go_lia).
  set (b := if p_treeSize p <? w_cursor w + 256 then p_treeSize p else w_cursor w + 256).
  assert (0 <= w_cursor w < b /\ b <= max_tree /\ b - w_cursor w <= 256) as (Hb1 & Hb2 & Hb3)
    by (unfold b; destruct (Z.ltb_spec (p_treeSize p) (w_cursor w + 256)); lia).
  pose proof (fetch_good (good := good) (w_client w) (w_cursor w) b Hg Hb1 Hb2 Hb3) as G1.
  pose proof (fetch_numbered (good := good) (w_client w) (w_cursor w) b) as G2.
  destruct (Hhonest _ _ _ _ Hg Hh Hb1 Hb2 Hb3) as [H1 H2].
  destruct (FetchEntries (w_client w) (w_cursor w) b) as [c [ls|e|]] eqn:Ef; cbn in *; [|by destruct (IsNotFound e)|done].
  destruct ls as [|leaf ls]; [done|]. intros [= <- <-].
  destruct (G2 _ Hg Hb1 Hb2 Hb3 eq_refl) as [G3 G4]. by split; [| | | | |apply H2].
Qed.

Lemma seqZ_last a n : 0 < n -> last (seqZ a n) = Some (a + n - 1).
Proof.
  intros Hn. replace n with (n - 1 + 1) at 1 by lia. rewrite seqZ_app by lia. rewrite last_app.
  rewrite (seqZ_cons _ 1) by lia. replace (1 - 1) with 0 by lia. cbn. f_equal. lia.
Qed.

Lemma page_next cursor client leaves :
  0 <= cursor -> page_read cursor client leaves -> next_cursor leaves = cursor + Z.of_nat (length leaves).
Proof.
  intros H0 [_ _ Hne Hidx Hmax _]. unfold next_cursor, last_idx.
  assert (0 < Z.of_nat (length leaves)) as Hl by (destruct leaves; [done|cbn; lia]).
  apply (f_equal last) in Hidx. rewrite fmap_last, seqZ_last in Hidx by done.
  destruct (last leaves) as [l|]; [|done]. injection Hidx as ->. rewrite wrap64_id; unfold max_tree in *; go_lia.
Qed.

Lemma page_has cursor client leaves i :
  page_read cursor client leaves -> cursor <= i < cursor + Z.of_nat (length leaves) ->
  exists leaf, leaf ∈ leaves /\ CtlogParse.EntryIdx leaf = i.
Proof.
  intros [_ _ _ Hidx _ _] Hi. assert (i ∈ CtlogParse.EntryIdx <$> leaves) as (leaf & -> & Hl)%list_elem_of_fmap; [|by exists leaf].
  rewrite Hidx. apply elem_of_seqZ. lia.
Qed.

End Fetch.

(** ** The invariant *)

Section Invariant.

Context {C : Type} `{LogClient C} (good : C -> Prop) `{!LogClientLaws C good}.
Context (std_parse ct_parse : bytes -> res Certificate) (month_order : gset string -> list string) (clock : Z -> string).
Context (progressPath issuerPath : string) (scan : db -> res (list bytes)) (batchSize appendBatchRows pid : Z).
Context (base root : string) (req : IngestAllRequest) (progressEvery : Z) (new_client : Log -> C -> Prop).
Context (L : bytes -> Z -> LogLeaf) (honest : bytes -> C -> Prop).
(** Where the history starts, per log, and the entries its total leaves out. *)
Context (start delta : bytes -> Z).

Hypothesis Horder : forall x, month_order x ≡ₚ elements x.
Hypothesis Hscan : forall d hs, scan d = Ok hs -> forall h, h ∈ hs -> h ∈ hashes d.
Hypothesis Hpid : 0 <= pid.
Hypothesis Hb : 1 <= appendBatchRows.
Hypothesis Hnew : forall lg c, new_client lg c ->
  good c /\ honest (lg_LogID lg) c /\ forall n, TreeSize c = Ok n -> n <= max_tree.
Hypothesis Hhonest : forall id c a b, good c -> honest id c -> 0 <= a < b -> b <= max_tree -> b - a <= 256 ->
  honest id (FetchEntries c a b).1 /\
  forall ls, (FetchEntries c a b).2 = Ok ls -> forall leaf, leaf ∈ ls -> leaf = L id (CtlogParse.EntryIdx leaf).

#[local] Abbreviation step := (sys_step std_parse ct_parse month_order clock progressPath issuerPath scan batchSize
  appendBatchRows pid base root req progressEvery new_client).

(** The store with the history of directories and pages. *)
Record view := mkView { v_store : store; v_dirs : list string; v_pages : list page_note }.

Definition view_of (y : sys C) : view := mkView (sy_store y) (sy_dirs y) (sy_pages y).

Definition settled_in (v : view) (id : bytes) (i : Z) : Prop :=
  settled std_parse ct_parse L (root :: v_dirs v) (v_pages v) (v_store v) id i.

Definition settled_to (v : view) (id : bytes) (n : Z) : Prop := forall i, start id <= i < n -> settled_in v id i.

Record worker_ok (v : view) (lg : Log) (p : wparams) (w : wstate (C := C)) : Prop := {
  wk_good : good (w_client w);
  wk_honest : honest (lg_LogID lg) (w_client w);
  wk_cursor : 0 <= w_cursor w;
  wk_tree : p_treeSize p <= max_tree;
  wk_delta : w_cursor w - (p_runTotal p + w_session w) = delta (lg_LogID lg);
  wk_settled : settled_to v (lg_LogID lg) (w_cursor w) }.

Definition stage_ok (v : view) (pools : gmap string (gset string)) (lg : Log) (pg : page C) (st : stage) : Prop :=
  let left := fun months => is_Some (pools !! pg_dir pg) /\
    page_left std_parse ct_parse lg (root :: v_dirs v) (v_store v) pg months in
  match st with
  | Resolving | Resolved => True
  | Storing months => left months
  | Opened m _ months | Inserting m _ months => left (m :: months)
  end.

Definition phase_ok (v : view) (pools : gmap string (gset string)) (lg : Log) (ph : phase C) : Prop :=
  match ph with
  | Idle => True
  | Looping p w => worker_ok v lg p w
  | Paged p w pg st =>
      worker_ok v lg p w /\ page_read good lg L honest (w_cursor w) (pg_client pg) (pg_leaves pg) /\
      (pg_lo pg <= length (logged (v_store v)))%nat /\ stage_ok v pools lg pg st
  end.

Record progress_ok (v : view) (d : progress_db) : Prop := {
  pg_at : progs (v_store v) !! progressPath = Some d;
  pg_wf : progress_wf d;
  pg_next : forall id, 0 <= c_next (count (cursors d) id);
  pg_delta : forall id, c_next (count (cursors d) id) - c_total (count (cursors d) id) = delta id;
  pg_settled : forall id, settled_to v id (c_next (count (cursors d) id)) }.

Record dirs_ok (v : view) : Prop := {
  do_base : forall dir, dir ∈ v_dirs v -> Dir dir = base;
  do_sep : forall d d', d ∈ root :: v_dirs v -> d' ∈ root :: v_dirs v -> d <> d' -> separate d d';
  do_root : root ∉ v_dirs v;
  do_arch : archives_sound root (Join base "dedup") (v_store v) }.

(** What survives a crash. *)
Definition durable (v : view) : Prop := (exists d, progress_ok v d) /\ dirs_ok v.

Record pools_ok (v : view) (pools : gmap string (gset string)) (live : string) (queue : list string) (fl : option flushing) : Prop := {
  po_pools : forall dir ms, pools !! dir = Some ms -> pool_ok (mkPool ms dir) (v_store v) /\ dir ∈ v_dirs v;
  po_live : is_Some (pools !! live);
  po_queue : forall dir, dir ∈ queue -> is_Some (pools !! dir);
  po_flush : forall f, fl = Some f -> NoDup (fl_months f) /\ exists ms, pools !! fl_dir f = Some ms /\ forall m, m ∈ fl_months f -> m ∈ ms }.

Record Inv (y : sys C) : Prop := {
  iv_durable : durable (view_of y);
  iv_workers : forall i lg ph, sy_workers y !! i = Some (lg, ph) -> phase_ok (view_of y) (sy_pools y) lg ph;
  iv_pools : pools_ok (view_of y) (sy_pools y) (sy_live y) (sy_queue y) (sy_flush y) }.

(** *** Steps that only add to what is settled *)

(** [v'] has settled what [v] had. *)
Definition keeps (v v' : view) : Prop := forall id i, settled_in v id i -> settled_in v' id i.

Lemma keeps_intro v v' :
  evolves (root :: v_dirs v) (v_store v) (v_store v') -> v_dirs v ⊆ v_dirs v' -> v_pages v ⊆ v_pages v' -> keeps v v'.
Proof. intros He Hd Hp id i. apply settled_evolves; [done|set_solver|done]. Qed.

Lemma worker_ok_keeps v v' lg p w : keeps v v' -> worker_ok v lg p w -> worker_ok v' lg p w.
Proof. intros Hk [A1 A2 A3 A4 A5 A6]. split; try done. intros i Hi. apply Hk, A6, Hi. Qed.

Lemma phase_ok_keeps v v' pools pools' lg ph :
  evolves (root :: v_dirs v) (v_store v) (v_store v') -> v_dirs v ⊆ v_dirs v' -> v_pages v ⊆ v_pages v' ->
  (forall dir, is_Some (pools !! dir) -> is_Some (pools' !! dir)) ->
  phase_ok v pools lg ph -> phase_ok v' pools' lg ph.
Proof.
  intros He Hd Hpg Hp. assert (Hk : keeps v v') by (by apply keeps_intro).
  destruct ph as [|p w|p w pg st]; cbn; [done|by apply worker_ok_keeps|].
  intros (A & B & D & E). split; [by eapply worker_ok_keeps|]. split; [done|]. split.
  { destruct He as [_ [lines ->]]. rewrite length_app. lia. }
  assert (Hleft : forall months, is_Some (pools !! pg_dir pg) /\ page_left std_parse ct_parse lg (root :: v_dirs v) (v_store v) pg months ->
    is_Some (pools' !! pg_dir pg) /\ page_left std_parse ct_parse lg (root :: v_dirs v') (v_store v') pg months).
  { intros months [H1 H2]. split; [auto|]. eapply page_left_evolves; [done|set_solver|done]. }
  destruct st; [done|done|by apply Hleft..].
Qed.

Lemma progress_ok_keeps v v' d :
  keeps v v' -> progs (v_store v') !! progressPath = progs (v_store v) !! progressPath -> progress_ok v d -> progress_ok v' d.
Proof. intros Hk E [A1 A2 A3 A4 A5]. split; try done; [by rewrite E|]. intros id i Hi. apply Hk, (A5 id), Hi. Qed.

Lemma worker_at i (ph : phase C) (ws : list (Log * phase C)) j lg ph' :
  set_worker i ph ws !! j = Some (lg, ph') -> ws !! j = Some (lg, ph') \/ (j = i /\ ph' = ph /\ exists old, ws !! i = Some (lg, old)).
Proof.
  unfold set_worker. destruct (ws !! i) as [[lg0 old]|] eqn:E; [|by left].
  destruct (decide (j = i)) as [->|Hne]; [|rewrite list_lookup_insert_ne by done; by left].
  rewrite list_lookup_insert_eq by (by eapply lookup_lt_Some). intros [= <- <-]. right. eauto.
Qed.

(** *** The steps of one worker *)

(** A worker moves on; nothing else changes. *)
Lemma inv_move i ph y :
  (forall lg old, sy_workers y !! i = Some (lg, old) -> phase_ok (view_of y) (sy_pools y) lg ph) -> Inv y -> Inv (move_worker i ph y).
Proof.
  intros Hph [A B D]. split; [exact A| |exact D].
  intros j lg ph' [Hj|(-> & -> & old & Hj)]%worker_at; [exact (B j lg ph' Hj)|exact (Hph lg old Hj)].
Qed.

(** The counters' table is written without moving a cursor. *)
Lemma inv_counts y d d' :
  let v' := mkView (set_prog progressPath d' (sy_store y)) (sy_dirs y) (sy_pages y) in
  progress_ok (view_of y) d -> dirs_ok (view_of y) -> progress_wf d' -> same_counts (cursors d) (cursors d') ->
  keeps (view_of y) v' /\ durable v'.
Proof.
  intros v' [P1 P2 P3 P4 P5] [D1 D2 D3 D4] Hw Hc. assert (Hk : keeps (view_of y) v').
  { apply keeps_intro; [|done..]. by apply same_files_evolves. }
  split; [done|]. split; [exists d'; split|split]; try done.
  - cbn. apply lookup_insert_eq.
  - intros id. destruct (Hc id) as [-> _]. apply P3.
  - intros id. destruct (Hc id) as [-> ->]. apply P4.
  - intros id i Hi. apply Hk, (P5 id). by destruct (Hc id) as [<- _].
Qed.

Lemma inv_start y i lg client fl r st fl' :
  Inv y -> sy_workers y !! i = Some (lg, Idle) -> new_client lg client ->
  worker_start clock progressPath lg req progressEvery client (sy_store y) fl = (r, st, fl') ->
  Inv (set_store st y) /\ forall p w, r = Ok (inr (p, w)) -> Inv (move_worker i (Looping p w) (set_store st y)).
Proof.
  intros [[[d Hp] Hd] Hws Hpl] Hi Hc Hrun.
  pose proof (wp_run _ _ _ _ _ _ _ (worker_start_wp clock progressPath lg req progressEvery client (sy_store y) d
    (pg_at _ _ Hp) (pg_wf _ _ Hp)) Hrun) as (d' & -> & Hw & Hsame & Hok).
  destruct (inv_counts y d d' Hp Hd Hw Hsame) as [Hk Hdur].
  assert (HI : Inv (set_store (set_prog progressPath d' (sy_store y)) y)).
  { split; [done| |].
    - intros j lg' ph Hj. eapply (phase_ok_keeps (view_of y)); [by apply same_files_evolves|done|done|done|by eapply Hws].
    - destruct Hpl as [L1 L2 L3 L4]. split; [|done..]. intros dir ms Hdir. destruct (L1 dir ms Hdir) as [[Q1 Q2] Q3]. by split; [split|]. }
  split; [done|]. intros p w Hr. destruct (Hok p w Hr) as (E1 & E2 & E3 & E4 & E5 & _ & _).
  destruct (Hnew lg client Hc) as (N1 & N2 & N3). apply inv_move; [|done].
  intros lg' old Hj. cbn in Hj. rewrite Hi in Hj. injection Hj as <- <-. cbn [phase_ok].
  split; rewrite ?E1; auto; rewrite ?E2.
  - apply Hp.
  - rewrite E3, E4, Z.add_0_r. apply Hp.
  - intros k Hk'. apply Hk, (pg_settled _ _ Hp _ k Hk').
Qed.

Lemma inv_fetch y i lg p w ctxErr client leaves :
  Inv y -> sy_workers y !! i = Some (lg, Looping p w) ->
  worker_fetch lg p ctxErr w = Ok (FPage client leaves) ->
  Inv (move_worker i (Paged p w (mkPage client leaves (length (logged (sy_store y))) (w_cache w) [] "" []) Resolving) y).
Proof.
  intros HI Hi Hf. apply inv_move; [|done]. intros lg' old Hj. rewrite Hi in Hj. injection Hj as <- <-.
  destruct (iv_workers y HI i lg _ Hi) as [W1 W2 W3 W4 W5 W6]. split; [by split|]. split; [|done].
  by eapply worker_fetch_page.
Qed.

(** *** Storing a page *)

Lemma separate_dirs v d d' m : dirs_ok v -> d ∈ root :: v_dirs v -> d' ∈ root :: v_dirs v -> d <> d' ->
  forall m', month_path d m <> month_path d' m'.
Proof. intros [_ Hs _ _] Hd Hd' Hne m'. by apply Hs. Qed.

Lemma archives_other dd s s' :
  (forall m, dbs s' !! month_path root m = dbs s !! month_path root m) -> seens s' = seens s ->
  archives_sound root dd s -> archives_sound root dd s'.
Proof.
  intros E1 E2 Ha m. destruct (Ha m) as [H1 H2]. unfold archive_sound, seen_of in *. rewrite E1, E2. done.
Qed.

Lemma dirs_ok_grew v dir st pages :
  dirs_ok v -> dir ∈ v_dirs v -> grew dir (v_store v) st -> dirs_ok (mkView st (v_dirs v) pages).
Proof.
  intros Hd Hin Hg. pose proof Hd as [D1 D2 D3 D4]. split; try done. eapply archives_other; [|apply Hg|exact D4].
  intros m. apply Hg. apply (separate_dirs v); [done|by left|by right|]. intros ->. done.
Qed.

(** The pools other than [dir]'s are as they were. *)
Lemma pools_ok_grew v pools live queue fl dir ms0 ms pages st :
  dirs_ok v -> pools_ok v pools live queue fl -> pools !! dir = Some ms0 -> ms0 ⊆ ms -> grew dir (v_store v) st ->
  pool_ok (mkPool ms dir) st -> pools_ok (mkView st (v_dirs v) pages) (<[dir := ms]> pools) live queue fl.
Proof.
  intros Hd [L1 L2 L3 L4] Hms Hsub Hg Hp.
  assert (Hin : dir ∈ v_dirs v) by (by apply (L1 dir ms0)).
  assert (Hsome : forall x, is_Some (pools !! x) -> is_Some (<[dir := ms]> pools !! x)).
  { intros x Hx. destruct (decide (x = dir)) as [->|Hne]; [by rewrite lookup_insert_eq|by rewrite lookup_insert_ne]. }
  split; [|auto|auto|].
  - intros dir' ms' [[<- <-]|[Hne Hms']]%lookup_insert_Some; [done|].
    destruct (L1 dir' ms' Hms') as [[P1 P2] P3]. split; [|done].
    assert (E : forall m, dbs st !! month_path dir' m = dbs (v_store v) !! month_path dir' m).
    { intros m. apply Hg. apply (separate_dirs v); [done|by right|by right|congruence]. }
    split; intros m; cbn [v_store activeDir pool_dbs]; rewrite E; [apply P1|apply P2].
  - intros f Hf. destruct (L4 f Hf) as (Hnd & ms1 & E1 & Hin1). split; [done|].
    destruct (decide (fl_dir f = dir)) as [Ef|Hne]; [rewrite Ef in *; exists ms; rewrite lookup_insert_eq|exists ms1; rewrite lookup_insert_ne by done].
    + split; [done|]. intros m Hm. apply Hsub. replace ms0 with ms1 by congruence. by apply Hin1.
    + by split.
Qed.

Lemma count_update m id next total id' :
  count (spec_call (CallUpdate id next total) m) id' =
  if decide (id' = id) then match m !! id with Some k => mkCounters next (c_tree k) total | None => zero_counters end
  else count m id'.
Proof.
  unfold count. cbn. case_decide as Hi; [subst; rewrite lookup_alter_eq; by destruct (m !! id)|by rewrite lookup_alter_ne].
Qed.

(** A step that lets only the months under [dir] grow, of a pool of the process. *)
Record calm (y : sys C) (dir : string) (ms ms' : gset string) (st : store) : Prop := {
  ca_pool : sy_pools y !! dir = Some ms;
  ca_open : ms ⊆ ms';
  ca_grew : grew dir (sy_store y) st;
  ca_progs : progs st = progs (sy_store y);
  ca_ok : pool_ok (mkPool ms' dir) st }.

Lemma calm_durable y dir ms ms' st : Inv y -> calm y dir ms ms' st -> durable (mkView st (sy_dirs y) (sy_pages y)).
Proof.
  intros [[[d Hp] Hd] _ Hpl] [C1 C2 C3 C4 C5]. destruct (po_pools _ _ _ _ _ Hpl dir ms C1) as [_ Hin]. split.
  - exists d. apply (progress_ok_keeps (view_of y)); [|cbn; by rewrite C4|done]. apply keeps_intro; [by eapply grew_evolves|done..].
  - by eapply (dirs_ok_grew (view_of y)).
Qed.

Lemma calm_inv y i lg old ph dir ms ms' st :
  Inv y -> sy_workers y !! i = Some (lg, old) -> calm y dir ms ms' st ->
  phase_ok (mkView st (sy_dirs y) (sy_pages y)) (<[dir := ms']> (sy_pools y)) lg ph ->
  Inv (mkSys st (<[dir := ms']> (sy_pools y)) (sy_live y) (sy_queue y) (sy_flush y) (set_worker i ph (sy_workers y)) (sy_dirs y) (sy_pages y)).
Proof.
  intros HI Hi Hc Hph. pose proof HI as [[_ Hd] Hws Hpl]. pose proof Hc as [C1 C2 C3 C4 C5]. split.
  - exact (calm_durable _ _ _ _ _ HI Hc).
  - intros j lg' ph' [Hj|(-> & -> & old' & Hj)]%worker_at; cbn [sy_pools].
    + eapply (phase_ok_keeps (view_of y)); [by eapply grew_evolves|done|done| |by eapply Hws].
      intros x Hx. destruct (decide (x = dir)) as [->|Hne]; [by rewrite lookup_insert_eq|by rewrite lookup_insert_ne].
    + rewrite Hi in Hj. by injection Hj as <- <-.
  - by eapply (pools_ok_grew (view_of y)).
Qed.

(** The same, when no month is opened. *)
Lemma calm_inv_same y i lg old ph dir ms st :
  Inv y -> sy_workers y !! i = Some (lg, old) -> calm y dir ms ms st ->
  phase_ok (mkView st (sy_dirs y) (sy_pages y)) (sy_pools y) lg ph ->
  Inv (mkSys st (sy_pools y) (sy_live y) (sy_queue y) (sy_flush y) (set_worker i ph (sy_workers y)) (sy_dirs y) (sy_pages y)).
Proof.
  intros HI Hi Hc Hph. pose proof (calm_inv y i lg old ph dir ms ms st HI Hi Hc) as Hinv.
  rewrite insert_id in Hinv by apply Hc. by apply Hinv.
Qed.

(** A statement on the issuers, or a log line. *)
Lemma calm_issuers y st : Inv y -> issuers_only (sy_store y) st -> exists ms, calm y (sy_live y) ms ms st.
Proof.
  intros HI Hio. destruct (po_live _ _ _ _ _ (iv_pools y HI)) as [ms Hms]. exists ms.
  destruct (po_pools _ _ _ _ _ (iv_pools y HI) _ _ Hms) as [[P1 P2] _].
  split; [done|done|by apply issuers_only_grew|apply Hio|]. split; intros m; rewrite (io_dbs _ _ Hio); [apply P1|apply P2].
Qed.

Lemma issuers_only_line s line : issuers_only s (add_log line s).
Proof. split; try done. by exists [line]. Qed.

(** What a worker's call comes to. *)
Definition turn_post (y : sys C) (i : nat) (r : res (turned C)) (st : store) : Prop :=
  (is_ok r = false -> durable (mkView st (sy_dirs y) (sy_pages y))) /\ forall t, r = Ok t -> Inv (after_turn i t st y).

(** A call that goes on to another phase and opens no month. *)
Lemma turn_on y i lg old ph dir ms st :
  Inv y -> sy_workers y !! i = Some (lg, old) -> calm y dir ms ms st ->
  phase_ok (mkView st (sy_dirs y) (sy_pages y)) (sy_pools y) lg ph -> turn_post y i (Ok (on_to ph)) st.
Proof. intros HI Hi Hc Hph. split; [done|]. intros t [= <-]. by eapply calm_inv_same. Qed.

Lemma turn_died y i r dir ms ms' st : Inv y -> is_ok r = false -> calm y dir ms ms' st -> turn_post y i r st.
Proof. intros HI Hr Hc. split; [intros _; by eapply calm_durable|]. by intros t ->. Qed.

Section Turn.

Context (y : sys C) (i : nat) (lg : Log) (p : wparams) (w : wstate (C := C)) (pg : page C).
Hypothesis HI : Inv y.

#[local] Abbreviation dirs := (root :: sy_dirs y).
#[local] Abbreviation left := (page_left std_parse ct_parse lg dirs).

(** The page's worker in the store after a call. *)
Lemma paged_ok st st' stg stg' pg' dir :
  phase_ok (view_of y) (sy_pools y) lg (Paged p w pg stg) -> grew dir (sy_store y) st ->
  pg_client pg' = pg_client pg -> pg_leaves pg' = pg_leaves pg -> pg_lo pg' = pg_lo pg -> st' = st ->
  stage_ok (mkView st (sy_dirs y) (sy_pages y)) (sy_pools y) lg pg' stg' ->
  phase_ok (mkView st' (sy_dirs y) (sy_pages y)) (sy_pools y) lg (Paged p w pg' stg').
Proof.
  intros (A & B & D & _) Hg E1 E2 E3 -> Hst. cbn [phase_ok]. rewrite E1, E2, E3. split; [|split; [done|split; [|done]]].
  - eapply worker_ok_keeps; [|exact A]. apply keeps_intro; [by eapply grew_evolves|done..].
  - destruct (gr_log _ _ _ Hg) as [lines El]. cbn [v_store view_of] in *. rewrite El, length_app. lia.
Qed.

Lemma turn_resolving :
  sy_workers y !! i = Some (lg, Paged p w pg Resolving) -> phase_ok (view_of y) (sy_pools y) lg (Paged p w pg Resolving) ->
  wp (let@ cache := prefetchIssuersLog std_parse ct_parse issuerPath (pg_leaves pg) (pg_client pg) (w_cache w) in
      ret (on_to (Paged p w (with_cache cache pg) Resolved))) (turn_post y i) (sy_store y).
Proof.
  intros Hi Hph. apply wp_bind. eapply wp_mono; [apply prefetch_wp|]. intros r s1 [H1 He].
  destruct (calm_issuers y s1 HI H1) as [ms Hc]. destruct r as [cache|e|]; [apply wp_ret|by destruct (He e)|by eapply turn_died].
  eapply turn_on; [done..|]. eapply (paged_ok s1 s1 Resolving); [done|apply Hc|done..].
Qed.

Lemma turn_resolved :
  sy_workers y !! i = Some (lg, Paged p w pg Resolved) -> phase_ok (view_of y) (sy_pools y) lg (Paged p w pg Resolved) ->
  wp (let@ subjects := page_subjects std_parse ct_parse lg (pg_leaves pg) (pg_cache pg) in
      ret (on_to (Paged p w (with_rows subjects (sy_live y) pg) (Storing (page_months month_order subjects)))))
    (turn_post y i) (sy_store y).
Proof.
  intros Hi Hph. apply wp_bind. eapply wp_mono; [apply page_subjects_wp|]. intros r s1 (H1 & _ & He & Hall).
  destruct (calm_issuers y s1 HI H1) as [ms Hc]. destruct r as [subjects|e|]; [apply wp_ret|by destruct (He e)|by eapply turn_died].
  specialize (Hall subjects eq_refl). eapply turn_on; [done..|]. eapply (paged_ok s1 s1 Resolved); [done|apply Hc|done..|].
  cbn [stage_ok pg_dir with_rows v_dirs v_store]. split; [exists ms; apply Hc|]. intros leaf Hl. cbn [pg_leaves] in Hl.
  destruct (Hall leaf Hl) as [(x & Hx & Hr)|(line & Hl' & Hs)]; [right|left; right].
  - exists x. split; [done|]. split; [done|]. by apply months_of_subjects.
  - exists line. split; [done|]. eapply page_said_now; [|done]. by destruct Hph as (_ & _ & ? & _).
Qed.

(** A log line says that a month is lost. *)
Lemma turn_lost m months stg st line dir ms :
  sy_workers y !! i = Some (lg, Paged p w pg stg) -> phase_ok (view_of y) (sy_pools y) lg (Paged p w pg stg) ->
  is_Some (sy_pools y !! pg_dir pg) -> left (sy_store y) pg (m :: months) -> calm y dir ms ms st ->
  (exists e, line = open_line lg m e \/ line = insert_line lg m e) ->
  wp (let@ _ := logf line in ret (on_to (Paged p w pg (Storing months)))) (turn_post y i) st.
Proof.
  intros Hi Hph Hpool Hleft [C1 C2 C3 C4 C5] [e He]. apply wp_bind, wp_logf, wp_ret.
  assert (Hg : grew dir (sy_store y) (add_log line st)) by (etransitivity; [done|apply grew_log]).
  assert (Hs : said (sy_store y) (add_log line st) line).
  { eapply said_mono_l; [exact C3|]. apply said_log. }
  eapply (turn_on _ _ _ _ _ dir ms); [done..| |].
  { split; try done. by apply pool_ok_log. }
  eapply (paged_ok _ _ stg); [done|exact Hg|done..|]. split; [done|].
  eapply page_left_next; [by eapply grew_evolves|exact Hleft|]. intros x Hx Em. right. left. exists e, line. rewrite Em.
  split; [done|]. eapply page_said_now; [|done]. by destruct Hph as (_ & _ & ? & _).
Qed.

Lemma turn_open m months :
  sy_workers y !! i = Some (lg, Paged p w pg (Storing (m :: months))) ->
  phase_ok (view_of y) (sy_pools y) lg (Paged p w pg (Storing (m :: months))) ->
  wp (let@ r := attempt (GetOrOpen (pool_at y (pg_dir pg)) m) in
      match r with
      | inr e => let@ _ := logf (open_line lg m e) in ret (on_to (Paged p w pg (Storing months)))
      | inl pool => ret (mkTurned (Paged p w pg (Opened m Live months)) (Some (pg_dir pg, pool_dbs pool)) None)
      end) (turn_post y i) (sy_store y).
Proof.
  intros Hi Hph. pose proof Hph as (Hw & Hpr & Hlo & [ms Hms] & Hleft).
  destruct (po_pools _ _ _ _ _ (iv_pools y HI) _ _ Hms) as [Hpool Hin]. cbn [v_store view_of] in Hpool.
  unfold pool_at. rewrite Hms. cbn [default]. apply wp_bind, wp_attempt.
  eapply wp_mono; [by apply get_or_open_wp|]. intros r s1 (Hg & [T1 _] & Hp1 & Hopen). cbn [activeDir] in Hg.
  assert (Hc : calm y (pg_dir pg) ms ms s1) by (by split).
  destruct r as [pool|e|]; [apply wp_ret| |by eapply turn_died].
  - destruct (Hopen pool eq_refl) as ([E1 E2] & _ & Hp2). cbn [activeDir pool_dbs] in *. destruct pool as [ms' dir']. cbn in *. subst dir'.
    split; [done|]. intros t [= <-]. eapply (calm_inv y i lg); [done..| |].
    { split; [exact Hms|exact E2|done..]. }
    eapply phase_ok_keeps; [apply evolves_refl|done|done| |].
    2: { eapply (paged_ok s1 s1 (Storing (m :: months))); [exact Hph|exact Hg|done..|]. split; [by exists ms|]. eapply page_left_evolves; [by eapply grew_evolves|done|done]. }
    intros x Hx. destruct (decide (x = pg_dir pg)) as [->|Hne]; [by rewrite lookup_insert_eq|by rewrite lookup_insert_ne].
  - eapply turn_lost; [done|done|by exists ms|done|done|]. exists e. by left.
Qed.

Lemma turn_begin m h months :
  sy_workers y !! i = Some (lg, Paged p w pg (Opened m h months)) ->
  phase_ok (view_of y) (sy_pools y) lg (Paged p w pg (Opened m h months)) ->
  wp (match h with
      | Live => ret (on_to (Paged p w pg (Inserting m Live months)))
      | Closed | Gone => let@ _ := logf (insert_line lg m ErrDBClosed) in ret (on_to (Paged p w pg (Storing months)))
      end) (turn_post y i) (sy_store y).
Proof.
  intros Hi Hph. pose proof Hph as (Hw & Hpr & Hlo & [ms Hms] & Hleft).
  destruct (calm_issuers y (sy_store y) HI (issuers_only_refl _)) as [ms' Hc].
  destruct h; [apply wp_ret; by eapply turn_on| |]; (eapply turn_lost; [done|done|by exists ms|done|done|]; exists ErrDBClosed; by right).
Qed.

Lemma insert_through_wp h m :
  is_Some (sy_pools y !! pg_dir pg) ->
  wp (insert_through h (month_path (pg_dir pg) m) (batch_of (pg_subjects pg) m))
     (fun r s' => (exists ms, calm y (pg_dir pg) ms ms s') /\
        (r = Ok tt -> h <> Gone -> forall x, x ∈ pg_subjects pg -> certMonth (NotBefore x) = m -> kept (pg_dir pg) s' x)) (sy_store y).
Proof.
  intros [ms Hms]. destruct (po_pools _ _ _ _ _ (iv_pools y HI) _ _ Hms) as [Hpool Hin]. cbn [v_store view_of] in Hpool.
  assert (Hsame : exists ms, calm y (pg_dir pg) ms ms (sy_store y)) by (by exists ms).
  assert (Hlive : wp (InsertSubjectBatch (month_path (pg_dir pg) m) (batch_of (pg_subjects pg) m))
    (fun r s' => (exists ms, calm y (pg_dir pg) ms ms s') /\
        (r = Ok tt -> h <> Gone -> forall x, x ∈ pg_subjects pg -> certMonth (NotBefore x) = m -> kept (pg_dir pg) s' x)) (sy_store y)).
  { eapply wp_mono; [apply (insert_any_wp (mkPool ms (pg_dir pg)) m); [done|]|].
    { by intros x [? _]%list_elem_of_filter. }
    intros r s' (Hg & [T1 _] & Hp' & Hok). split; [exists ms; by split|]. intros Hr _ x Hx Em. apply Hok; [done|].
    by apply list_elem_of_filter. }
  destruct h; [exact Hlive|exact Hlive|]. cbn [insert_through]. apply wp_bind, wp_wrap, wp_nop; [by split..|]. cbn [wrap_err].
  apply wp_bind, exec_inserts_wp; [intros [d|e|] Hr; [done|by split..]|]. by apply wp_nop.
Qed.

Lemma turn_insert m h months :
  sy_workers y !! i = Some (lg, Paged p w pg (Inserting m h months)) ->
  phase_ok (view_of y) (sy_pools y) lg (Paged p w pg (Inserting m h months)) ->
  wp (let@ r := attempt (insert_through h (month_path (pg_dir pg) m) (batch_of (pg_subjects pg) m)) in
      match r with
      | inr e => let@ _ := logf (insert_line lg m e) in ret (on_to (Paged p w pg (Storing months)))
      | inl _ => ret (on_to (Paged p w (match h with Gone => cut_month m pg | Live | Closed => pg end) (Storing months)))
      end) (turn_post y i) (sy_store y).
Proof.
  intros Hi Hph. pose proof Hph as (Hw & Hpr & Hlo & Hms & Hleft). apply wp_bind, wp_attempt.
  eapply wp_mono; [by apply insert_through_wp|]. intros r s1 ([ms Hc] & Hok).
  destruct r as [[]|e|]; [apply wp_ret| |by eapply turn_died].
  - assert (Hdir : pg_dir pg ∈ dirs).
    { right. destruct Hms as [ms0 E]. by destruct (po_pools _ _ _ _ _ (iv_pools y HI) _ _ E). }
    pose proof (ca_grew _ _ _ _ _ Hc) as Hg. pose proof (grew_evolves dirs _ _ _ Hg) as He.
    assert (Hdone : h <> Gone -> left s1 pg months).
    { intros Hh. eapply page_left_next; [exact He|exact Hleft|]. intros x Hx Em. left. exists (pg_dir pg). split; [done|]. by apply Hok. }
    eapply turn_on; [done..|]. destruct h; (eapply (paged_ok s1 s1 (Inserting m _ months)); [exact Hph|exact Hg|done..|]; split; [done|]); [by apply Hdone..|].
    apply page_left_cut. by eapply page_left_evolves.
  - eapply turn_lost; [done|done|done|done|done|]. exists e. by right.
Qed.

(** The page is settled when every entry of it is done. *)
Lemma page_settled st dir :
  grew dir (sy_store y) st -> phase_ok (view_of y) (sy_pools y) lg (Paged p w pg (Storing [])) ->
  settled_to (mkView st (sy_dirs y)
    (mkNote lg (w_cursor w) (next_cursor (pg_leaves pg)) (pg_lo pg) (length (logged st)) (pg_cut pg) :: sy_pages y))
    (lg_LogID lg) (next_cursor (pg_leaves pg)).
Proof.
  intros Hg (Hw & Hp & _ & _ & Hleft) k Hk. destruct (Z.lt_ge_cases k (w_cursor w)) as [Hlt|Hge].
  - eapply settled_evolves; [by eapply grew_evolves|done|by apply list_subseteq_cons|]. apply (wk_settled _ _ _ _ Hw). lia.
  - pose proof (page_next good lg L honest _ _ _ (wk_cursor _ _ _ _ Hw) Hp) as Hn. rewrite Hn in Hk.
    destruct (page_has good lg L honest _ _ _ k Hp) as (leaf & Hl & <-); [lia|].
    destruct (Hleft leaf Hl) as [Hd|(x & _ & _ & ?%elem_of_nil)]; [|done].
    apply leaf_done_settled; [|by apply Hp|lia]. eapply leaf_done_evolves; [by eapply grew_evolves|done|exact Hd].
Qed.

Lemma progress_ok_record d st pages :
  progress_ok (view_of y) d -> phase_ok (view_of y) (sy_pools y) lg (Paged p w pg (Storing [])) ->
  pages = mkNote lg (w_cursor w) (next_cursor (pg_leaves pg)) (pg_lo pg) (length (logged st)) (pg_cut pg) :: sy_pages y ->
  recorded progressPath lg (next_cursor (pg_leaves pg)) (p_runTotal p + (w_session w + Z.of_nat (length (pg_leaves pg)))) (sy_store y) d st ->
  exists d', progress_ok (mkView st (sy_dirs y) pages) d'.
Proof.
  intros Hp Hph -> Hrec. pose proof Hph as (Hw & Hpr & _ & _ & _).
  destruct (recorded_facts _ _ _ _ _ _ _ Hrec) as (_ & G & _ & d' & D1 & D2 & D3).
  set (v' := mkView st (sy_dirs y) _).
  assert (Hk : keeps (view_of y) v') by (apply keeps_intro; [eapply grew_evolves, (G "")|done|by apply list_subseteq_cons]).
  exists d'. destruct D3 as [E|E].
  { destruct Hp as [P1 P2 P3 P4 P5]. split; try done; intros id; rewrite E; [apply P3|apply P4|].
    intros k Hk'. apply Hk, (P5 id), Hk'. }
  pose proof (page_settled st "" (G "") Hph) as Hs.
  pose proof (page_next good lg L honest _ _ _ (wk_cursor _ _ _ _ Hw) Hpr) as Hn.
  destruct Hp as [P1 P2 P3 P4 P5]. destruct Hw as [W1 W2 W3 W4 W5 W6].
  assert (Hc : forall id, count (cursors d') id = count (cursors d) id \/
    id = lg_LogID lg /\ c_next (count (cursors d') id) = next_cursor (pg_leaves pg) /\
    c_total (count (cursors d') id) = p_runTotal p + (w_session w + Z.of_nat (length (pg_leaves pg)))).
  { intros id. rewrite E, count_update. case_decide as Hid; [subst id|by left].
    unfold count. destruct (cursors d !! lg_LogID lg); [by right|by left]. }
  split; try done; intros id; destruct (Hc id) as [Ec|(-> & En & Et)]; rewrite ?Ec, ?En, ?Et; [apply P3|lia|apply P4|lia| |done].
  intros k Hk'. apply Hk, (P5 id), Hk'.
Qed.

Lemma turn_record :
  sy_workers y !! i = Some (lg, Paged p w pg (Storing [])) -> phase_ok (view_of y) (sy_pools y) lg (Paged p w pg (Storing [])) ->
  wp (let@ (w', _) := record_page clock progressPath lg p w (pg_client pg) (pg_leaves pg) (pg_cache pg) in
      ret (mkTurned (Looping p w') None (Some (fun hi => mkNote lg (w_cursor w) (w_cursor w') (pg_lo pg) hi (pg_cut pg)))))
    (turn_post y i) (sy_store y).
Proof.
  intros Hi Hph. pose proof HI as [[[d Hp] Hd] Hws Hpl]. pose proof Hph as (Hw & Hpr & Hlo & _ & _).
  apply wp_bind. eapply wp_mono; [apply record_page_wp; [apply (pg_at _ _ Hp)|apply (pg_wf _ _ Hp)]|].
  intros r st (Hrec & He & Hbad & Hok). destruct (recorded_facts _ _ _ _ _ _ _ Hrec) as (Hdb & G & Hpr' & _).
  destruct (po_live _ _ _ _ _ Hpl) as [ms Hms]. destruct (po_pools _ _ _ _ _ Hpl _ _ Hms) as [Hpool Hin].
  assert (Hpool' : pool_ok (mkPool ms (sy_live y)) st) by (destruct Hpool as [P1 P2]; split; intros m; rewrite Hdb; [apply P1|apply P2]).
  destruct r as [[w' ev]|e|]; [apply wp_ret|by destruct (He e)|].
  2: { split; [|done]. intros _. destruct (Hbad eq_refl) as (d' & D1 & D2 & D3).
       split; [exists d'|by eapply (dirs_ok_grew (view_of y) (sy_live y))].
       assert (Hk : keeps (view_of y) (mkView st (sy_dirs y) (sy_pages y))) by (apply keeps_intro; [eapply grew_evolves, (G "")|done..]).
       destruct Hp as [P1 P2 P3 P4 P5]. split; try done; intros id; rewrite D3; [apply P3|apply P4|].
       intros k Hk'. apply Hk, (P5 id), Hk'. }
  split; [done|]. intros t [= <-]. destruct (Hok w' ev eq_refl) as (E1 & E2 & E3).
  unfold after_turn. cbn [tn_open tn_note tn_phase]. rewrite E2.
  set (pages := _ :: sy_pages y). split.
  - split; [by eapply progress_ok_record|by eapply (dirs_ok_grew (view_of y) (sy_live y))].
  - intros j lg' ph [Hj|(-> & -> & old & Hj)]%worker_at; cbn [sy_pools].
    + eapply (phase_ok_keeps (view_of y)); [eapply grew_evolves, (G "")|done|by apply list_subseteq_cons|done|by eapply Hws].
    + rewrite Hi in Hj. injection Hj as <- <-. cbn [phase_ok].
      pose proof (page_settled st "" (G "") Hph) as Hs.
      pose proof (page_next good lg L honest _ _ _ (wk_cursor _ _ _ _ Hw) Hpr) as Hn.
      destruct Hw as [W1 W2 W3 W4 W5 W6]. split; rewrite ?E1, ?E2, ?E3; [apply Hpr|apply Hpr|lia|done|lia|done].
  - pose proof (pools_ok_grew (view_of y) _ _ _ _ (sy_live y) ms ms pages st Hd Hpl Hms ltac:(done) (G _) Hpool') as H1.
    by rewrite insert_id in H1.
Qed.

End Turn.

(** Whatever call is next. *)
Lemma inv_turn y i lg p w pg stg m fl r st fl' :
  Inv y -> sy_workers y !! i = Some (lg, Paged p w pg stg) ->
  page_turn std_parse ct_parse month_order clock progressPath issuerPath y lg p w pg stg = Some m ->
  m (sy_store y) fl = (r, st, fl') -> turn_post y i r st.
Proof.
  intros HI Hi Hm Hrun. pose proof (iv_workers y HI i lg _ Hi) as Hph.
  assert (Hw : wp m (turn_post y i) (sy_store y)); [|exact (wp_run _ _ _ _ _ _ _ Hw Hrun)].
  destruct stg as [| |[|mo months]|mo h months|mo h months]; cbn [page_turn] in Hm; [| | |destruct (is_flushing y (pg_dir pg))| |];
    try discriminate; injection Hm as <-.
  - by apply turn_resolving with (lg := lg).
  - by apply turn_resolved.
  - by apply turn_record.
  - by apply turn_open.
  - by apply turn_begin.
  - by apply turn_insert.
Qed.

(** *** New pools and restarts *)

Lemma root_ne dir (y : sys C) : fresh_dir base root dir y -> root <> dir.
Proof. intros [_ Hs _] ->. destruct (Hs dir ltac:(by left)) as [H1 _]. by apply (H1 "" ""). Qed.

Lemma durable_fresh (y : sys C) dir :
  durable (view_of y) -> fresh_dir base root dir y -> durable (mkView (sy_store y) (dir :: sy_dirs y) (sy_pages y)).
Proof.
  intros [[d Hp] [D1 D2 D3 D4]] Hf. pose proof (root_ne _ _ Hf) as Hne. destruct Hf as [F1 F2 F3]. split.
  - exists d. apply (progress_ok_keeps (view_of y)); [|done|exact Hp]. apply keeps_intro; [apply evolves_refl|by apply list_subseteq_cons|done].
  - assert (Hnew' : forall x, x ∈ root :: dir :: sy_dirs y -> x = dir \/ x ∈ root :: sy_dirs y) by (intros x Hx; set_solver).
    split; cbn [v_dirs v_store]; [| |set_solver|done].
    + intros x [->|Hx]%elem_of_cons; [done|by apply D1].
    + intros x x' [->|Hx]%Hnew' [->|Hx']%Hnew' Hxx; [done|by apply F2|by apply F2|by apply D2].
Qed.

Lemma fresh_pool (y : sys C) dir : fresh_dir base root dir y -> pool_ok (mkPool ∅ dir) (sy_store y).
Proof. intros [_ _ F]. split; cbn [activeDir pool_dbs]; [intros m d; by rewrite F|intros m Hm; set_solver]. Qed.

Lemma inv_restart y st dir :
  durable (mkView st (sy_dirs y) (sy_pages y)) -> fresh_dir base root dir (set_store st y) -> Inv (restart st dir y).
Proof.
  intros Hd Hf. split.
  - by apply (durable_fresh (set_store st y)).
  - intros i lg ph Hi. cbn in Hi. apply list_lookup_fmap_Some in Hi as ([lg' ph'] & E & _). by injection E as -> ->.
  - split; cbn [sy_pools restart sy_live sy_queue sy_flush view_of v_store v_dirs]; [|by rewrite lookup_singleton_eq|by intros x ?%elem_of_nil|done].
    intros x ms [<- <-]%lookup_singleton_Some. split; [by apply (fresh_pool (set_store st y))|by left].
Qed.

Lemma inv_swap y dir :
  Inv y -> fresh_dir base root dir y ->
  Inv (mkSys (sy_store y) (<[dir := ∅]> (sy_pools y)) dir (sy_queue y ++ [sy_live y]) (sy_flush y) (sy_workers y)
         (dir :: sy_dirs y) (sy_pages y)).
Proof.
  intros [Hd Hws [L1 L2 L3 L4]] Hf. set (y' := mkSys _ _ _ _ _ _ _ _).
  assert (Hsome : forall x, is_Some (sy_pools y !! x) -> is_Some (sy_pools y' !! x)).
  { intros x Hx. cbn. destruct (decide (x = dir)) as [->|Hne]; [by rewrite lookup_insert_eq|by rewrite lookup_insert_ne]. }
  assert (Hnew' : dir ∉ sy_dirs y).
  { intros Hin. destruct (fd_sep _ _ _ _ Hf dir ltac:(by right)) as [H1 _]. by apply (H1 "" ""). }
  split; [exact (durable_fresh y dir Hd Hf)| |split].
  - intros i lg ph Hi. eapply (phase_ok_keeps (view_of y)); [apply evolves_refl|by apply list_subseteq_cons|done|exact Hsome|by eapply Hws].
  - cbn [y' sy_pools]. intros x ms [[<- <-]|[Hne Hms]]%lookup_insert_Some; [split; [exact (fresh_pool y dir Hf)|cbn; by left]|].
    destruct (L1 x ms Hms) as [P1 P2]. split; [done|cbn; by right].
  - cbn. by rewrite lookup_insert_eq.
  - intros x [Hx| ->%list_elem_of_singleton]%elem_of_app; apply Hsome; [by apply L3|done].
  - cbn [y' sy_flush sy_pools]. intros f Ef. destruct (L4 f Ef) as (Hnd & ms & E & Hin). split; [done|]. exists ms. split; [|done].
    rewrite lookup_insert_ne; [done|]. intros ->. by destruct (L1 _ _ E) as [_ ?].
Qed.

(** *** Flushing a pool *)

Lemma flush_all_wp p s :
  (forall m m', month_path (activeDir p) m <> month_path root m') -> pool_ok p s ->
  archives_sound root (Join (Dir (activeDir p)) "dedup") s ->
  wp (FlushAll scan batchSize appendBatchRows pid month_order p root)
     (fun r s' => flushed p root (Join (Dir (activeDir p)) "dedup") (month_order (pool_dbs p)) s s' /\ tables_kept s s' /\
        forall p' e, r = Ok (p', e) -> p' = mkPool ∅ (activeDir p)) s.
Proof.
  intros Hsep [P1 P2] Hs.
  assert (Ht : wp (FlushAll scan batchSize appendBatchRows pid month_order p root) (fun _ s' => tables_kept s s') s)
    by (by apply flush_all_tables).
  assert (Hf : wp (FlushAll scan batchSize appendBatchRows pid month_order p root)
    (fun r s' => flushed p root (Join (Dir (activeDir p)) "dedup") (month_order (pool_dbs p)) s s' /\
       forall p' e, r = Ok (p', e) -> p' = mkPool ∅ (activeDir p)) s).
  2: { eapply wp_mono; [exact (wp_and _ _ _ _ Ht Hf)|]. by intros r s' (H1 & H2 & H3). }
  unfold FlushAll. apply wp_bind. eapply wp_mono; [apply (flush_months_wp scan batchSize appendBatchRows pid p root); try done|].
  - rewrite Horder. apply NoDup_elements.
  - intros m Hm. rewrite Horder in Hm. apply elem_of_elements in Hm. destruct (P2 m Hm) as [d Hd]. exists d. eauto.
  - intros [fe|e|] s' [Hf _]; [apply wp_ret|..]; (split; [done|]); [|done..]. by intros ? ? [= <- <-].
Qed.

Lemma flushed_evolves y dir p ms s' :
  activeDir p = dir -> dir ∈ sy_dirs y -> dirs_ok (view_of y) ->
  flushed p root (Join base "dedup") ms (sy_store y) s' -> tables_kept (sy_store y) s' ->
  evolves (root :: sy_dirs y) (sy_store y) s' /\
  forall d m, d ∈ sy_dirs y -> d <> dir -> dbs s' !! month_path d m = dbs (sy_store y) !! month_path d m.
Proof.
  intros Hp Hin Hd [F1 F2 _ F3 F4 F5 F6 _] (_ & _ & Hlog). rewrite Hp in *.
  assert (Hroot : root <> dir) by (intros E; apply (do_root _ Hd); cbn; by rewrite E).
  assert (Hfr : forall d m, d ∈ sy_dirs y -> d <> dir -> dbs s' !! month_path d m = dbs (sy_store y) !! month_path d m).
  { intros d m Hd' Hne. apply F6; [apply month_path_db| |];
      apply (separate_dirs (view_of y)); try done; [by right|by left| |by right|by right].
    intros E. apply (do_root _ Hd). cbn. by rewrite <- E. }
  split; [|done]. split; [|exists []; by rewrite app_nil_r]. intros d x Hd' Hk.
  destruct (decide (d = dir)) as [->|Hne].
  - destruct (F4 _ _ Hk) as [H1|H1]; [exists dir|exists root]; (split; [set_solver|done]).
  - apply elem_of_cons in Hd' as [->|Hd']; [exists root; split; [by left|by apply F2]|].
    exists d. split; [by right|]. eapply held_at_ext; [|exact Hk]. by apply Hfr.
Qed.

(** One month: what is there moves to the archive or stays. *)
Lemma flush_one_wp y dir m ms :
  Inv y -> sy_pools y !! dir = Some ms -> m ∈ ms ->
  wp (flush_one scan batchSize appendBatchRows pid root y dir m)
     (fun _ s' => flushed (mkPool ms dir) root (Join base "dedup") [m] (sy_store y) s' /\ tables_kept (sy_store y) s') (sy_store y).
Proof.
  intros [[_ Hd] _ Hpl] Hms Hm. destruct (po_pools _ _ _ _ _ Hpl dir ms Hms) as [[P1 P2] Hin]. cbn [v_store view_of] in *.
  unfold flush_one, pool_at. rewrite Hms. cbn [default]. rewrite (do_base _ Hd dir Hin).
  assert (Hroot : root <> dir) by (intros E; apply (do_root _ Hd); cbn; by rewrite E).
  apply wp_attempt. eapply wp_mono.
  { apply wp_and; [apply (flush_month_wp scan batchSize appendBatchRows pid (mkPool ms dir) root (Join base "dedup")); try done|].
    - intros m1 m2. by apply (separate_dirs (view_of y)); [|right|left|].
    - intros m' ->%list_elem_of_singleton. destruct (P2 m Hm) as [d Hdb]. exists d. eauto.
    - apply (do_arch _ Hd).
    - by apply (flush_files_tables scan batchSize appendBatchRows pid (sy_store y)). }
  by intros [[]|e|] s' [[H1 _] H2].
Qed.

Lemma phase_ok_close v pools lg dir m gone ph : phase_ok v pools lg ph -> phase_ok v pools lg (close_phase dir m gone ph).
Proof.
  destruct ph as [|p w|p w pg st]; cbn [close_phase]; [done..|]. destruct (String.eqb _ _); [|done].
  destruct st as [| |months|m' h months|m' h months]; cbn [close_stage]; try done; by destruct (String.eqb m' m).
Qed.

Lemma inv_flush y dir queue :
  Inv y -> sy_queue y = dir :: queue -> sy_flush y = None ->
  Inv (mkSys (sy_store y) (sy_pools y) (sy_live y) queue (Some (mkFlush dir (month_order (pool_dbs (pool_at y dir))) None))
         (sy_workers y) (sy_dirs y) (sy_pages y)).
Proof.
  intros [Hd Hws [L1 L2 L3 L4]] Hq _. split; [done|done|]. split; [done|done| |].
  - intros x Hx. apply L3. cbn. rewrite Hq. by right.
  - cbn [sy_flush sy_pools]. intros f [= <-]. cbn [fl_months fl_dir]. destruct (L3 dir) as [ms Hms]; [rewrite Hq; by left|].
    unfold pool_at. rewrite Hms. cbn [default pool_dbs]. split; [rewrite Horder; apply NoDup_elements|]. exists ms. split; [done|].
    intros m. rewrite Horder. apply elem_of_elements.
Qed.

Lemma inv_flush_month y dir m months err fl r st fl' :
  Inv y -> sy_flush y = Some (mkFlush dir (m :: months) err) ->
  flush_one scan batchSize appendBatchRows pid root y dir m (sy_store y) fl = (r, st, fl') ->
  durable (mkView st (sy_dirs y) (sy_pages y)) /\ forall o, r = Ok o -> Inv (after_month dir m months err o st y).
Proof.
  intros HI Hf Hrun. pose proof HI as [[[d Hp] Hd] Hws [L1 L2 L3 L4]].
  destruct (L4 _ Hf) as (Hnd & ms & Hms & Hin). cbn [fl_dir fl_months] in *. apply NoDup_cons in Hnd as [Hm Hnd].
  destruct (L1 dir ms Hms) as [[P1 P2] Hdir]. cbn [v_store v_dirs view_of] in *.
  destruct (wp_run _ _ _ _ _ _ _ (flush_one_wp y dir m ms HI Hms ltac:(by apply Hin; left)) Hrun) as [Hfl Ht].
  destruct (flushed_evolves y dir (mkPool ms dir) [m] st eq_refl Hdir Hd Hfl Ht) as [Hev Hfr].
  assert (Hdur : durable (mkView st (sy_dirs y) (sy_pages y))).
  { split; [exists d; apply (progress_ok_keeps (view_of y)); [by apply keeps_intro|cbn; by destruct Ht as [-> _]|done]|].
    destruct Hd as [D1 D2 D3 D4]. split; try done. apply Hfl. }
  split; [done|]. intros o _.
  assert (Hsome : forall x ms', is_Some (sy_pools y !! x) -> is_Some (<[dir := ms']> (sy_pools y) !! x)).
  { intros x ms' Hx. destruct (decide (x = dir)) as [->|Hne]; [by rewrite lookup_insert_eq|by rewrite lookup_insert_ne]. }
  split; [done| |split; cbn [after_month sy_pools sy_live sy_queue sy_flush sy_store sy_dirs view_of v_store v_dirs]].
  - intros i lg ph Hi. cbn in Hi. apply list_lookup_fmap_Some in Hi as ([lg' ph'] & E & Hi). cbn [fst snd] in E. injection E as -> ->.
    apply phase_ok_close. eapply (phase_ok_keeps (view_of y)); [exact Hev|done|done|by intros x; apply Hsome|by eapply Hws].
  - unfold pool_at. rewrite Hms. cbn [default pool_dbs]. intros x ms' [[<- <-]|[Hne Hms']]%lookup_insert_Some.
    + split; [|done]. assert (Hother : forall m', m' <> m -> dbs st !! month_path dir m' = dbs (sy_store y) !! month_path dir m').
      { intros m' Hne. apply (fl_other _ _ _ _ _ _ Hfl). by intros ?%list_elem_of_singleton. }
      split; cbn [activeDir pool_dbs v_store].
      * intros m' a Ha. destruct (decide (m' = m)) as [->|Hne]; [apply (fl_good _ _ _ _ _ _ Hfl m a); [by left|done]|].
        rewrite Hother in Ha by done. by eapply P1.
      * intros m' [Hm' Hne]%elem_of_difference. rewrite Hother by set_solver. by apply P2.
    + destruct (L1 x ms' Hms') as [[Q1 Q2] Q3]. split; [|done].
      split; intros m'; cbn [activeDir pool_dbs]; rewrite Hfr by (done || congruence); [apply Q1|apply Q2].
  - by apply Hsome.
  - intros x Hx. by apply Hsome, L3.
  - unfold pool_at. rewrite Hms. cbn [default pool_dbs]. intros f [= <-]. cbn [fl_months fl_dir]. split; [done|].
    rewrite lookup_insert_eq. eexists. split; [done|]. intros m' Hm'. apply elem_of_difference.
    split; [apply Hin; by right|]. intros ->%elem_of_singleton. done.
Qed.

Lemma inv_flush_end y dir err :
  Inv y -> sy_flush y = Some (mkFlush dir [] err) ->
  Inv (mkSys (add_log (flush_line err) (sy_store y)) (<[dir := ∅]> (sy_pools y)) (sy_live y) (sy_queue y) None
         (sy_workers y) (sy_dirs y) (sy_pages y)).
Proof.
  intros HI Hf. pose proof HI as [[[d Hp] Hd] Hws [L1 L2 L3 L4]]. set (line := flush_line err).
  destruct (L4 _ Hf) as (_ & ms & Hms & _). cbn [fl_dir] in Hms. destruct (L1 dir ms Hms) as [[P1 P2] Hdir].
  assert (Hg : grew dir (sy_store y) (add_log line (sy_store y))) by apply grew_log.
  assert (Hsome : forall x, is_Some (sy_pools y !! x) -> is_Some (<[dir := ∅]> (sy_pools y) !! x)).
  { intros x Hx. destruct (decide (x = dir)) as [->|Hne]; [by rewrite lookup_insert_eq|by rewrite lookup_insert_ne]. }
  split; [split| |split; cbn [sy_pools sy_live sy_queue sy_flush sy_store sy_dirs view_of v_store v_dirs]].
  - exists d. apply (progress_ok_keeps (view_of y)); [|done|done]. apply keeps_intro; [by eapply grew_evolves|done..].
  - by eapply (dirs_ok_grew (view_of y)).
  - intros i lg ph Hi. eapply (phase_ok_keeps (view_of y)); [by eapply grew_evolves|done|done|exact Hsome|by eapply Hws].
  - intros x ms' [[<- <-]|[Hne Hms']]%lookup_insert_Some; [split; [|done]; split; [exact P1|set_solver]|].
    destruct (L1 x ms' Hms') as [Q1 Q2]. split; [by apply pool_ok_log|done].
  - by apply Hsome.
  - intros x Hx. by apply Hsome, L3.
  - done.
Qed.

(** Every step keeps the invariant. *)
Lemma inv_step y y' : Inv y -> step y y' -> Inv y'.
Proof.
  intros HI Hs. destruct Hs as
    [y i lg client fl ev st fl' Hi Hc Hr|y i lg client fl p w st fl' Hi Hc Hr|y i lg p w ctxErr ev Hi Hf
    |y i lg p w ctxErr client leaves Hi Hf|y i lg p w pg stg m fl t st fl' Hi Hm Hr|y dir Hf
    |y dir queue Hq Hn|y dir m months err fl r st fl' Hf Hr|y dir err Hf|y dir Hf|y i lg client fl st fl' dir Hi Hc Hr Hf
    |y i lg p w pg stg m fl st fl' dir Hi Hm Hr Hf|y dir m months err fl st fl' dir' Hq Hr Hf].
  - by eapply inv_start.
  - destruct (inv_start _ _ _ _ _ _ _ _ HI Hi Hc Hr) as [_ H']. by apply H'.
  - by apply inv_move.
  - by eapply inv_fetch.
  - destruct (inv_turn _ _ _ _ _ _ _ _ _ _ _ _ HI Hi Hm Hr) as [_ H']. by apply H'.
  - by apply inv_swap.
  - by apply inv_flush.
  - destruct (inv_flush_month _ _ _ _ _ _ _ _ _ HI Hf Hr) as [_ H']. by apply H'.
  - by apply inv_flush_end.
  - apply inv_restart; [apply HI|]. by destruct y.
  - destruct (inv_start _ _ _ _ _ _ _ _ HI Hi Hc Hr) as [H' _]. apply inv_restart; [apply H'|done].
  - destruct (inv_turn _ _ _ _ _ _ _ _ _ _ _ _ HI Hi Hm Hr) as [H' _]. apply inv_restart; [by apply H'|done].
  - destruct (inv_flush_month _ _ _ _ _ _ _ _ _ HI Hq Hr) as [H' _]. by apply inv_restart.
Qed.

Lemma inv_steps y y' : Inv y -> rtc step y y' -> Inv y'.
Proof. intros HI Hs. induction Hs as [|y y1 y2 H1 _ IH]; [done|]. apply IH. by eapply inv_step. Qed.

End Invariant.
