(* ===== verification/Demo.v ===== *)
(** A small log for the witnesses of the ingestion theorems: three entries, a
    client that reads them from a list, one-byte certificates. *)

From S2P Require Import Prelude GoStd Sha256 CtlogParse CtlogClient Ctlist LogClient Leaf Worker.

(** ** Definitions *)

(** A client over a stored log. *)
#[export] Instance list_client : LogClient (list LogLeaf) := {
  TreeSize l := Ok (Z.of_nat (length l));
  FetchEntries l a b := (l, Ok (take (Z.to_nat (b - a)) (drop (Z.to_nat a) l)));
  FetchIssuer l fp := Err ErrNotExist }.

Definition demo_leaf (i : Z) : LogLeaf :=
  mkLogLeaf i EntryX509 0 [byte_of i] [] zero_hash [] [].
Definition demo_log : list LogLeaf := [demo_leaf 0; demo_leaf 1; demo_leaf 2].

Definition demo_good (l : list LogLeaf) : Prop := l = demo_log.

(** Certificates of one byte: the entry 2's does not parse. *)
Definition demo_cert (der : bytes) : res Certificate :=
  match der with
  | [b] => if bval b =? 2 then Err (Errorf "bad der")
           else Ok (mkCert "cn" [] [] [] (Some 7) ["a.example"] [] (1700000000 + bval b * 5000000) 1800000000)
  | _ => Err (Errorf "bad der")
  end.

Definition demo_lg : Log := mkLog (repeat x01 32) "demo" "Op" "rfc6962" "usable" None "https://l/" "" 0 None None 0.
Definition demo_req : IngestAllRequest := mkReq "" [] [] [] "" "" "" 0 0 0.

(** ** Lemmas *)

Lemma seqZ_slice a k n : 0 <= a ->
  take k (drop (Z.to_nat a) (seqZ 0 n)) = seqZ a (Z.of_nat (length (take k (drop (Z.to_nat a) (seqZ 0 n))))).
Proof.
  intros Ha. assert (Hd : drop (Z.to_nat a) (seqZ 0 n) = seqZ a (n - a)).
  { destruct (Z.le_gt_cases a n) as [Hle|Hgt].
    - replace n with (a + (n - a)) at 1 by lia. rewrite seqZ_app by lia. rewrite drop_app_length'; [done|].
      rewrite length_seqZ. lia.
    - rewrite drop_ge by (rewrite length_seqZ; lia). by rewrite seqZ_nil by lia. }
  rewrite Hd. destruct (Z.le_gt_cases (Z.of_nat k) (n - a)) as [Hk|Hk].
  - rewrite take_seqZ by done. rewrite length_seqZ. f_equal. lia.
  - rewrite take_ge by (rewrite length_seqZ; lia). rewrite length_seqZ.
    destruct (Z.le_gt_cases 0 (n - a)); [f_equal; lia|]. by rewrite !seqZ_nil by lia.
Qed.

#[export] Instance demo_laws : LogClientLaws (list LogLeaf) demo_good.
Proof.
  split; [by intros c a b ->|]. intros c a b ls -> Ha Hb Hab [= <-].
  assert (E : CtlogParse.EntryIdx <$> demo_log = seqZ 0 3) by reflexivity. split.
  - rewrite <- (length_fmap CtlogParse.EntryIdx), fmap_take, fmap_drop, E. apply seqZ_slice. lia.
  - rewrite length_take, length_drop. change (length demo_log) with 3%nat. unfold max_tree in *. lia.
Qed.

Lemma demo_honest id c a b :
  c = demo_log -> (FetchEntries c a b).1 = demo_log /\
  forall ls, (FetchEntries c a b).2 = Ok ls -> forall leaf, leaf ∈ ls -> leaf = (fun (_ : bytes) i => demo_leaf i) id (CtlogParse.EntryIdx leaf).
Proof.
  intros ->. split; [done|]. intros ls [= <-] leaf Hl. assert (Hin : leaf ∈ demo_log).
  { rewrite <- (take_drop (Z.to_nat a) demo_log). apply elem_of_app. right.
    rewrite <- (take_drop (Z.to_nat (b - a)) (drop _ _)). apply elem_of_app. by left. }
  apply elem_of_cons in Hin as [->|Hin]; [done|]. apply elem_of_cons in Hin as [->|Hin]; [done|].
  by apply list_elem_of_singleton in Hin as ->.
Qed.

Lemma demo_cert_no_panic der : demo_cert der <> Panic.
Proof. destruct der as [|b [|b' der]]; try done. cbn. by destruct (bval b =? 2). Qed.
