(* ===== verification/WorkerLive.v ===== *)
(** A worker's run ends whatever fails, and when nothing fails it catches up:
    every entry up to the tree size is in the pool, and the cursor says so. *)

From S2P Require Import Prelude GoStd Sha256 FileSys CtlogParse CtlogClient Sql SubjectDB Dedup FlushFrame Progress Ctlist.
From S2P Require Import LogClient Leaf Worker WorkerSafe System SystemSafe Demo.

#[local] Open Scope sql_scope.

(** ** Lemmas *)

(** *** Statements that succeed when nothing fails *)

Lemma open_fresh_runs path s : dbs s !! path = None -> runs (OpenSubjectDB path) s.
Proof.
  intros Hn. unfold runs, OpenSubjectDB.
  assert (Hset : forall d s, dbs (set_db path (DB d) s) !! path = Some (DB d)) by (intros; rewrite dbs_set; by rewrite decide_True).
  apply quiet_bind, quiet_wrap, quiet_bind.
  eapply quiet_step_or; [by rewrite Hn|].
  eapply quiet_update; [apply Hset|done|].
  apply quiet_bind, quiet_attempt. eapply quiet_update; [apply Hset|done|].
  apply quiet_bind, quiet_attempt. eapply quiet_update; [apply Hset|done|]. by apply quiet_ret.
Qed.

(** Months that are not open have no file yet. *)
Definition unopened (p : SubjectDBPool) (s : store) : Prop :=
  forall m, m ∉ pool_dbs p -> dbs s !! month_path (activeDir p) m = None.

Lemma get_or_open_quiet p m s :
  pool_ok p s -> unopened p s ->
  quiet (GetOrOpen p m)
    (fun p' s' => grew (activeDir p) s s' /\ same_tables s s' /\ logged s' = logged s /\ pool_le p p' /\
       m ∈ pool_dbs p' /\ pool_ok p' s' /\ unopened p' s') s.
Proof.
  intros Hp Hu. unfold GetOrOpen. case_bool_decide as Hm; [by apply quiet_ret|].
  apply quiet_bind, quiet_wrap, quiet_nop, quiet_bind.
  eapply (quiet_wp _ (fun r s' => db_grown (month_path (activeDir p) m) s s' /\ (r = Ok tt -> is_db (month_path (activeDir p) m) s'))).
  - apply wp_and; [|apply open_db]. apply open_grown; [intros d; apply Hp|]. apply db_grown_refl. intros d. apply Hp.
  - apply open_fresh_runs. by apply Hu.
  - intros [] s' [H1 H2]. apply quiet_ret. pose proof (db_grown_grew _ _ _ _ H1) as Hgr.
    pose proof (pool_ok_grown _ _ _ _ Hp H1) as [P1 P2].
    split; [done|]. split; [split; apply H1|]. split; [apply H1|]. split; [split; [done|set_solver]|].
    split; [set_solver|]. split; [split; [done|]|].
    + cbn [pool_dbs]. intros m' [->%elem_of_singleton|Hm']%elem_of_union; [by apply H2|by apply P2].
    + intros m' Hm'. cbn [pool_dbs activeDir] in *. rewrite (dg_other _ _ _ H1); [apply Hu; set_solver|].
      intros ->%month_path_inj. set_solver.
Qed.

Lemma insert_batch_runs path subjects d s : dbs s !! path = Some (DB d) -> runs (InsertSubjectBatch path subjects) s.
Proof.
  intros Hd. unfold runs. destruct subjects as [|x xs]; [by apply quiet_ret|]. unfold InsertSubjectBatch.
  apply quiet_bind, quiet_wrap. eapply quiet_query; [done|].
  apply quiet_bind, quiet_wrap, quiet_nop, quiet_bind.
  assert (Hx : forall l d0, quiet (exec_inserts d0 l) (fun _ s' => s' = s) s).
  { induction l as [|y l IH]; intros d0; cbn [exec_inserts]; [by apply quiet_ret|].
    apply quiet_bind, quiet_wrap, quiet_nop, IH. }
  eapply quiet_mono; [apply Hx|]. intros d' s' ->. by eapply quiet_update.
Qed.

Lemma insert_quiet p m batch s :
  pool_ok p s -> unopened p s -> m ∈ pool_dbs p -> (forall x, x ∈ batch -> certMonth (NotBefore x) = m) ->
  quiet (InsertSubjectBatch (month_path (activeDir p) m) batch)
    (fun _ s' => grew (activeDir p) s s' /\ same_tables s s' /\ logged s' = logged s /\ pool_ok p s' /\ unopened p s' /\
       forall x, x ∈ batch -> kept (activeDir p) s' x) s.
Proof.
  intros Hp Hu Hm Hb. destruct (po_open _ _ Hp m Hm) as [d Hd].
  eapply quiet_wp; [apply insert_batch_grown; [intros d'; apply Hp|by exists d]|by eapply insert_batch_runs|].
  intros [] s' (H1 & _ & Hok). split; [by eapply db_grown_grew|]. split; [split; apply H1|]. split; [apply H1|].
  split; [by eapply pool_ok_grown|]. split.
  - intros m' Hm'. rewrite (dg_other _ _ _ H1); [by apply Hu|]. by intros ->%month_path_inj.
  - intros x Hx. destruct (Hok eq_refl) as (d' & Hd' & Hall). unfold kept. rewrite (Hb x Hx). exists d'. auto.
Qed.

Section Live.

Context {C : Type} `{LogClient C} (good : C -> Prop) `{!LogClientLaws C good}.
Context (std_parse ct_parse : bytes -> res Certificate) (month_order : gset string -> list string) (clock : Z -> string).
Context (progressPath issuerPath : string) (lg : Log).

Hypothesis Horder : forall x, month_order x ≡ₚ elements x.

(** A page's months when nothing fails: every row is stored, nothing is logged. *)
Lemma insert_page_quiet pool subjects months s :
  pool_ok pool s -> unopened pool s ->
  quiet (insert_page lg pool subjects months)
    (fun pool' s' => grew (activeDir pool) s s' /\ same_tables s s' /\ pool_le pool pool' /\ pool_ok pool' s' /\
       unopened pool' s' /\
       forall x, x ∈ subjects -> certMonth (NotBefore x) ∈ months -> kept (activeDir pool) s' x) s.
Proof.
  revert pool s. induction months as [|m months IH]; intros pool s Hp Hu; cbn [insert_page].
  { apply quiet_ret. split_and!; try done. by intros x _ ?%elem_of_nil. }
  apply quiet_bind, quiet_attempt. eapply quiet_mono; [by apply get_or_open_quiet|].
  intros p1 s1 (G1 & [T1 T1'] & _ & Hle & Hm & Hp1 & Hu1). pose proof (pl_dir _ _ Hle) as Ed.
  apply quiet_bind, quiet_attempt. eapply quiet_mono; [apply insert_quiet; try done|].
  { intros x Hx. by apply list_elem_of_filter in Hx as [Hx _]. }
  intros [] s2 (G2 & [T2 T2'] & _ & Hp2 & Hu2 & Hkept). apply quiet_bind, quiet_ret.
  eapply quiet_mono; [by apply IH|]. intros p3 s3 (G3 & [T3 T3'] & Hle3 & Hp3 & Hu3 & Hrest).
  rewrite Ed in *. split; [etransitivity; [done|]; by etransitivity|]. split; [split; congruence|].
  split; [by etransitivity|]. split; [done|]. split; [done|].
  intros x Hx [E|Hin]%elem_of_cons; [|by apply Hrest].
  eapply kept_mono; [done|]. apply Hkept. by apply list_elem_of_filter.
Qed.

(** Without faults every call returns; only a Go panic would not. *)
Lemma attempt_stmt_runs {A} (f : store -> res A * store) s : (f s).1 <> Panic -> runs (attempt (step f)) s.
Proof.
  intros Hf. unfold runs, quiet, attempt, step, step_or. destruct (f s) as [[a|e|] s'] eqn:E; [by exists (inl a), s'|by exists (inr e), s'|done].
Qed.

Lemma runs_attempt_bind {A B} (m : M A) (k : A -> M B) s :
  runs (attempt m) s -> (forall a s', runs (attempt (k a)) s') -> runs (attempt (bindM m k)) s.
Proof.
  intros (r & s1 & E & _) Hk. unfold attempt in E. destruct (m s []) as [[[a|e|] s2] fl] eqn:Em; [| |done].
  - injection E as <- <- ->. destruct (Hk a s2) as (r2 & s3 & E2 & _). exists r2, s3. split; [|done].
    unfold attempt, bindM in *. by rewrite Em.
  - injection E as <- <- ->. exists (inr e), s2. split; [|done]. unfold attempt, bindM. by rewrite Em.
Qed.

Lemma upsert_runs path fp cn org country s : runs (attempt (UpsertIssuer path fp cn org country)) s.
Proof.
  assert (Hstmt : forall A (f : issuer_db -> res A * issuer_db) s, (forall d, (f d).1 <> Panic) -> runs (attempt (iss_stmt path f)) s).
  { intros A f s' Hf. apply attempt_stmt_runs. destruct (issdbs s' !! path) as [d|]; [|done]. specialize (Hf d). by destruct (f d). }
  unfold UpsertIssuer. apply runs_attempt_bind.
  - destruct (Hstmt _ (fun d => (match select_issuer (hex_encode fp) d with Some id => Ok id | None => Err ErrNoRows end, d)) s)
      as (r & s1 & E & _); [intros d; by destruct (select_issuer _ d)|].
    exists (inl r), s1. unfold attempt at 1. by rewrite E.
  - intros r s1. assert (Hsimple : forall (x : res Z), x <> Panic -> forall s2, runs (attempt (fun s fl => (x, s, fl))) s2).
    { intros [a|e|] Hx s2; [by exists (inl a), s2|by exists (inr e), s2|done]. }
    assert (Hins : forall s2, runs (attempt (wrapM "insert issuer" (iss_stmt path (insert_issuer (hex_encode fp) cn org country)))) s2).
    { intros s2. destruct (Hstmt _ (insert_issuer (hex_encode fp) cn org country) s2) as (r2 & s3 & E & _).
      { intros d. unfold insert_issuer. by case_match. }
      unfold runs, quiet, attempt, wrapM in *. destruct (iss_stmt path _ s2 []) as [[[a|e|] s4] fl4]; cbn [wrap_err];
        [by injection E as <- <- ->; exists (inl a), s4|injection E as <- <- ->; by eexists (inr _), s4|done]. }
    destruct r as [id|[]]; first [apply Hins|by apply (Hsimple (Ok _))|by apply (Hsimple (Err _))].
Qed.

Lemma upsert_infos_runs results cache s : runs (upsert_infos issuerPath results cache) s.
Proof.
  revert cache s. induction results as [|[fp info] results IH]; intros cache s; cbn [upsert_infos]; [by apply quiet_ret|].
  apply quiet_bind. eapply quiet_mono; [apply upsert_runs|]. intros [id|e] s1 _; [apply IH|].
  apply quiet_bind. eexists _, _. split; [reflexivity|]. apply IH.
Qed.

Lemma prefetch_quiet leaves client cache s :
  quiet (prefetchIssuersLog std_parse ct_parse issuerPath leaves client cache) (fun _ s' => issuers_only s s') s.
Proof.
  eapply quiet_wp; [apply prefetch_wp| |by intros a s' [H1 _]].
  unfold prefetchIssuersLog. destruct (new_fps _ _ _); [by apply quiet_ret|apply upsert_infos_runs].
Qed.

(** The entry is stored, or it does not parse. *)
Definition stored_or_bad (dir : string) (s : store) (leaf : LogLeaf) : Prop :=
  (exists x, leaf_row std_parse ct_parse lg leaf x /\ kept dir s x) \/
  exists cache e, processLogLeaf std_parse ct_parse leaf (lg_LogID lg) cache = Err e.

(** The parsers do not panic. *)
Hypothesis Hnopanic : forall leaf cache, processLogLeaf std_parse ct_parse leaf (lg_LogID lg) cache <> Panic.

Lemma page_subjects_quiet leaves cache s :
  quiet (page_subjects std_parse ct_parse lg leaves cache)
    (fun subjects s' => issuers_only s s' /\ forall leaf, leaf ∈ leaves ->
       (exists x, x ∈ subjects /\ leaf_row std_parse ct_parse lg leaf x) \/
       exists cache e, processLogLeaf std_parse ct_parse leaf (lg_LogID lg) cache = Err e) s.
Proof.
  revert s. induction leaves as [|leaf leaves IH]; intros s; cbn [page_subjects].
  { apply quiet_ret. split; [apply issuers_only_refl|]. by intros leaf ?%elem_of_nil. }
  destruct (processLogLeaf std_parse ct_parse leaf (lg_LogID lg) cache) as [x|e|] eqn:E; [| |by destruct (Hnopanic _ _ E)].
  - apply quiet_bind. eapply quiet_mono; [apply IH|]. intros rest s' [H1 Hall]. apply quiet_ret. split; [done|].
    intros leaf' [->|Hl]%elem_of_cons; [left; exists x; split; [by left|by exists cache]|].
    destruct (Hall leaf' Hl) as [(y & Hy & Hr)|Hr]; [left; exists y; split; [by right|done]|by right].
  - apply quiet_bind. eexists _, _. split; [reflexivity|]. eapply quiet_mono; [apply IH|].
    intros rest s' [H1 Hall]. split.
    + eapply issuers_only_trans; [|exact H1]. split; try done. by exists [skip_line lg leaf e].
    + intros leaf' [->|Hl]%elem_of_cons; [right; by exists cache, e|by apply Hall].
Qed.

Lemma update_log_quiet now id next total s d :
  progs s !! progressPath = Some d -> progress_wf d ->
  quiet (UpdateLogProgress progressPath now id next total)
    (fun _ s' => left_at progressPath s (spec_call (CallUpdate id next total) (cursors d)) s') s.
Proof.
  intros Hd Hw. eapply quiet_wp; [by apply update_log_exact| |by intros [] s' H1].
  apply quiet_wrap. unfold prog_stmt. eapply quiet_step_or; [by rewrite Hd|done].
Qed.

Lemma worker_store_quiet p pool w client leaves s d :
  pool_ok pool s -> unopened pool s -> progs s !! progressPath = Some d -> progress_wf d ->
  quiet (worker_store std_parse ct_parse month_order clock progressPath issuerPath lg p pool w client leaves)
    (fun r s' => grew (activeDir pool) s s' /\ pool_le pool r.1.1 /\ pool_ok r.1.1 s' /\ unopened r.1.1 s' /\
       (exists d', progs s' !! progressPath = Some d' /\ progress_wf d' /\
          cursors d' = spec_call (CallUpdate (lg_LogID lg) (next_cursor leaves)
            (p_runTotal p + (w_session w + Z.of_nat (length leaves)))) (cursors d)) /\
       w_client r.1.2 = client /\ w_cursor r.1.2 = next_cursor leaves /\
       forall leaf, leaf ∈ leaves -> stored_or_bad (activeDir pool) s' leaf) s.
Proof.
  intros Hp Hu Hd Hw. set (dir := activeDir pool). unfold worker_store.
  apply quiet_bind. eapply quiet_mono; [apply prefetch_quiet|]. intros cache s1 H1.
  apply quiet_bind. eapply quiet_mono; [apply page_subjects_quiet|]. intros subjects s2 [H2 Hsub].
  pose proof (issuers_only_trans _ _ _ H1 H2) as H02. pose proof (issuers_only_grew dir _ _ H02) as G2.
  apply quiet_bind. eapply quiet_mono; [apply insert_page_quiet|].
  { destruct Hp as [P1 P2]. split; intros m; rewrite (io_dbs _ _ H02); [apply P1|apply P2]. }
  { intros m Hm. rewrite (io_dbs _ _ H02). by apply Hu. }
  intros pool3 s3 (G3 & [T3 _] & Hle & Hp3 & Hu3 & Hkept).
  assert (Hd3 : progs s3 !! progressPath = Some d) by (rewrite T3, (io_progs _ _ H02); done).
  apply quiet_bind. unfold record_page. apply quiet_bind, quiet_attempt. eapply quiet_mono; [by apply update_log_quiet|].
  intros [] s4 (d' & -> & Hw' & Hc). set (s4 := set_prog progressPath d' s3).
  assert (Hst : grew dir s s4) by (etransitivity; [done|]; etransitivity; [done|apply grew_set_prog]).
  assert (Hfin : forall leaf, leaf ∈ leaves -> stored_or_bad dir s4 leaf).
  { intros leaf Hl. destruct (Hsub leaf Hl) as [(x & Hx & Hr)|Hbad]; [left; exists x|by right].
    split; [done|]. apply (Hkept x Hx). by apply (months_of_subjects month_order Horder). }
  assert (Hrow : exists d', progs s4 !! progressPath = Some d' /\ progress_wf d' /\
    cursors d' = spec_call (CallUpdate (lg_LogID lg) (next_cursor leaves) (p_runTotal p + (w_session w + Z.of_nat (length leaves)))) (cursors d))
    by (exists d'; split; [apply lookup_insert_eq|done]).
  assert (Hp4 : pool_ok pool3 s4) by (by destruct Hp3; split).
  apply quiet_bind, quiet_ret. destruct (p_progressEvery p <=? _); apply quiet_ret, quiet_ret; by split_and!.
Qed.

End Live.

(** *** Catching up *)

Section Loop.

Context {C : Type} `{LogClient C} (good : C -> Prop) `{!LogClientLaws C good}.
Context (std_parse ct_parse : bytes -> res Certificate) (month_order : gset string -> list string) (clock : Z -> string).
Context (progressPath issuerPath : string) (lg : Log) (L : bytes -> Z -> LogLeaf) (honest : bytes -> C -> Prop).

Hypothesis Hhonest : forall id c a b, good c -> honest id c -> 0 <= a < b -> b <= max_tree -> b - a <= 256 ->
  honest id (FetchEntries c a b).1 /\
  forall ls, (FetchEntries c a b).2 = Ok ls -> forall leaf, leaf ∈ ls -> leaf = L id (CtlogParse.EntryIdx leaf).
Hypothesis Horder : forall x, month_order x ≡ₚ elements x.

#[local] Abbreviation store_page := (worker_store std_parse ct_parse month_order clock progressPath issuerPath lg).
#[local] Abbreviation loop := (worker_loop std_parse ct_parse month_order clock progressPath issuerPath lg).
#[local] Abbreviation id := (lg_LogID lg).

(** *** Termination: the cursor moves with every page *)

(** A start never fails; when it stops it says why. *)
Lemma worker_start_event req progressEvery client s :
  wp (worker_start clock progressPath lg req progressEvery client)
     (fun r _ => (forall e, r <> Err e) /\ forall ev, r = Ok (inl ev) -> ev_Status ev = "error") s.
Proof.
  unfold worker_start. apply wp_bind, wp_attempt. intros fl.
  destruct (GetOrCreateLogRun _ _ _ s fl) as [[[run|e|] s1] fl1]; cbn [fst snd]; [|apply wp_ret; split; [done|by intros ev [= <-]]|done].
  destruct (TreeSize client) as [n|e|]; [|apply wp_ret; split; [done|by intros ev [= <-]]|by intros fl'].
  apply wp_bind, wp_attempt. intros fl2. destruct (SetLogTreeSizeAtStart _ _ _ s1 fl2) as [[[[]|e|] s2] fl3]; cbn [fst snd];
    [by apply wp_ret|by apply wp_ret|done].
Qed.

(** The last event of a run says how it ended. *)
Definition ended (evs : list LogProgress) : Prop :=
  exists ev, last evs = Some ev /\ ev_Status ev ∈ ["complete"; "caught_up"; "error"].

Lemma worker_fetch_ends p ctxErr w ev : worker_fetch lg p ctxErr w = Ok (FStop ev) -> forall evs, ended (evs ++ [ev]).
Proof.
  intros E evs. exists ev. split; [by rewrite last_snoc|]. revert E. unfold worker_fetch.
  destruct ctxErr; [intros [= <-]; cbn; set_solver|]. destruct (_ && _); [intros [= <-]; cbn; set_solver|].
  destruct (_ <=? _); [intros [= <-]; cbn; set_solver|].
  destruct (FetchEntries _ _ _) as [c [[|l ls]|e|]]; [intros [= <-]; cbn; set_solver|done| |done].
  destruct (IsNotFound e); intros [= <-]; cbn; set_solver.
Qed.

Lemma worker_fetch_no_err p ctxErr w e : worker_fetch lg p ctxErr w <> Err e.
Proof.
  unfold worker_fetch. destruct ctxErr; [done|]. destruct (_ && _); [done|]. destruct (_ <=? _); [done|].
  destruct (FetchEntries _ _ _) as [c [[|l ls]|e'|]]; try done. by destruct (IsNotFound e').
Qed.

Lemma page_nonempty cursor client leaves : page_read good lg L honest cursor client leaves -> (0 < length leaves)%nat.
Proof. intros Hp. pose proof (pr_ne _ _ _ _ _ _ _ Hp). destruct leaves; [done|cbn; lia]. Qed.

Lemma worker_loop_wp fuel p ctx pool w evs s d :
  good (w_client w) -> honest id (w_client w) -> 0 <= w_cursor w -> p_treeSize p <= max_tree ->
  p_treeSize p - w_cursor w < Z.of_nat fuel ->
  pool_ok pool s -> progs s !! progressPath = Some d -> progress_wf d -> (0 < fuel)%nat ->
  wp (loop fuel p ctx pool w evs)
     (fun r _ => (forall e, r <> Err e) /\ forall pool' evs', r = Ok (pool', evs') -> ended evs') s.
Proof.
  revert pool w evs s d. induction fuel as [|fuel IH]; intros pool w evs s d Hg Hh H0 Hmax Hf Hp Hd Hw; [lia|intros _].
  cbn [worker_loop]. apply wp_bind. unfold worker_turn.
  destruct (worker_fetch lg p (ctx fuel) w) as [[ev|client leaves]|e|] eqn:E; [| |by apply worker_fetch_no_err in E|by intros fl].
  { apply wp_ret, wp_ret. split; [done|]. intros pool' evs' [= _ <-]. by eapply worker_fetch_ends. }
  pose proof (worker_fetch_page good lg L honest Hhonest p _ w client leaves Hg Hh H0 Hmax E) as Hpage.
  assert (Hlt : w_cursor w < p_treeSize p).
  { revert E. unfold worker_fetch. destruct (ctx fuel); [done|]. destruct (_ && _); [done|].
    by destruct (Z.leb_spec (p_treeSize p) (w_cursor w)). }
  pose proof (page_next good lg L honest _ _ _ H0 Hpage) as Hnext. pose proof (page_nonempty _ _ _ Hpage) as Hlen.
  apply wp_bind. eapply wp_mono; [by apply worker_store_wp|]. intros r s' (Hst & He & _ & Hok).
  destruct r as [[[pool' w'] ev]|e|]; [|by destruct (He e)|done].
  destruct (Hok _ _ _ eq_refl) as (_ & Hp' & _ & Ec & En & _). destruct (st_cursor _ _ _ _ _ _ _ _ _ _ Hst) as (d' & Hd' & Hw' & _).
  apply wp_ret. eapply IH; try done; rewrite ?Ec, ?En, ?Hnext; try lia; apply Hpage.
Qed.

(** *** Without faults: every page is stored *)

(** [serves n c]: the client answers every range below [n]. *)
Variable serves : Z -> C -> Prop.
Hypothesis Hserves : forall n c a b, good c -> serves n c -> 0 <= a < b -> b <= n -> b - a <= 256 ->
  serves n (FetchEntries c a b).1 /\ exists l ls, (FetchEntries c a b).2 = Ok (l :: ls).
Hypothesis Hnopanic : forall leaf cache, processLogLeaf std_parse ct_parse leaf id cache <> Panic.

Lemma worker_fetch_serves p w :
  good (w_client w) -> serves (p_treeSize p) (w_client w) -> 0 <= w_cursor w < p_treeSize p -> p_treeSize p <= max_tree ->
  p_totalTarget p <= 0 ->
  exists client leaves, worker_fetch lg p None w = Ok (FPage client leaves) /\ serves (p_treeSize p) client.
Proof.
  intros Hg Hs H0 Hmax Ht. unfold worker_fetch. destruct (Z.ltb_spec 0 (p_totalTarget p)); [lia|]. cbn [andb].
  destruct (Z.leb_spec (p_treeSize p) (w_cursor w)); [lia|]. unfold multilogPageSize. rewrite wrap64_id by (unfold max_tree in *; go_lia).
  set (b := if _ <? _ then _ else _). assert (w_cursor w < b /\ b <= p_treeSize p /\ b - w_cursor w <= 256) as (B1 & B2 & B3)
    by (unfold b; destruct (Z.ltb_spec (p_treeSize p) (w_cursor w + 256)); lia).
  destruct (Hserves (p_treeSize p) (w_client w) (w_cursor w) b) as [S1 (l & ls & S2)]; [done..|lia|lia|lia|].
  destruct (FetchEntries _ _ _) as [c r]. cbn in S1, S2. subst r. by exists c, (l :: ls).
Qed.

Lemma worker_fetch_done p w : p_totalTarget p <= 0 -> p_treeSize p <= w_cursor w ->
  worker_fetch lg p None w = Ok (FStop (worker_event lg p w "caught_up" "")).
Proof.
  intros Ht Hc. unfold worker_fetch. destruct (Z.ltb_spec 0 (p_totalTarget p)); [lia|]. cbn [andb].
  by destruct (Z.leb_spec (p_treeSize p) (w_cursor w)); [|lia].
Qed.

#[local] Abbreviation stored_or_bad := (stored_or_bad std_parse ct_parse lg).

Lemma stored_or_bad_mono dir s s' leaf : grew dir s s' -> stored_or_bad dir s leaf -> stored_or_bad dir s' leaf.
Proof. intros Hg [(x & Hx & Hk)|Hb]; [left; exists x|by right]. split; [done|]. by eapply kept_mono. Qed.

(** What a quiet run from the cursor [from] leaves. *)
Definition caught_up (dir : string) (from size : Z) (r : SubjectDBPool * list LogProgress) (s s' : store) : Prop :=
  grew dir s s' /\ (exists ev, last r.2 = Some ev /\ ev_Status ev = "caught_up") /\
  (exists d, progs s' !! progressPath = Some d /\ size <= c_next (count (cursors d) id)) /\
  forall i, from <= i < size -> stored_or_bad dir s' (L id i).

Lemma next_after_update next total m : is_Some (m !! id) -> c_next (count (spec_call (CallUpdate id next total) m) id) = next.
Proof. intros [k Hk]. cbn. unfold count. by rewrite lookup_alter_eq, Hk. Qed.

Lemma worker_loop_quiet fuel p pool w evs s d :
  good (w_client w) -> honest id (w_client w) -> serves (p_treeSize p) (w_client w) ->
  0 <= w_cursor w -> p_treeSize p <= max_tree -> p_totalTarget p <= 0 -> p_treeSize p - w_cursor w < Z.of_nat fuel ->
  (0 < fuel)%nat -> pool_ok pool s -> unopened pool s -> progs s !! progressPath = Some d -> progress_wf d ->
  is_Some (cursors d !! id) -> c_next (count (cursors d) id) = w_cursor w ->
  quiet (loop fuel p (fun _ => None) pool w evs)
    (fun r s' => caught_up (activeDir pool) (w_cursor w) (p_treeSize p) r s s') s.
Proof.
  intros Hg Hh Hs H0 Hmax Ht. revert pool w evs s d Hg Hh Hs H0.
  induction fuel as [|fuel IH]; intros pool w evs s d Hg Hh Hs H0 Hf Hpos Hp Hu Hd Hw Hrow Hc; [lia|].
  cbn [worker_loop]. apply quiet_bind. unfold worker_turn.
  destruct (Z.le_gt_cases (p_treeSize p) (w_cursor w)) as [Hge|Hlt].
  { rewrite worker_fetch_done by done. apply quiet_ret, quiet_ret. split; [done|].
    split; [eexists; split; [apply last_snoc|done]|]. split; [exists d; split; [done|lia]|intros i Hi; lia]. }
  destruct (worker_fetch_serves p w) as (client & leaves & E & Hs'); [done..|]. rewrite E.
  pose proof (worker_fetch_page good lg L honest Hhonest p _ w client leaves Hg Hh H0 Hmax E) as Hpage.
  pose proof (page_next good lg L honest _ _ _ H0 Hpage) as Hnext. pose proof (page_nonempty _ _ _ Hpage) as Hlen.
  apply quiet_bind. eapply quiet_mono; [by eapply worker_store_quiet|].
  intros [[pool' w'] ev] s' (G & Hle & Hp' & Hu' & (d' & Hd' & Hw' & Hcur) & Ec & En & Hall). cbn [fst snd] in *.
  assert (Hrow' : is_Some (cursors d' !! id)).
  { rewrite Hcur. destruct Hrow as [k Hk]. cbn. rewrite lookup_alter_eq, Hk. by eexists. }
  assert (Hnew : c_next (count (cursors d') id) = w_cursor w') by (rewrite Hcur, next_after_update by done; congruence).
  rewrite Hnext in En. apply quiet_ret. cbn beta iota.
  eapply quiet_mono; [apply (IH pool' w' _ s' d'); try done; rewrite ?Ec, ?En; try apply Hpage; try done; lia|].
  intros r s2 (G2 & Hev & Hcnt & Hst). rewrite (pl_dir _ _ Hle) in *. split; [by etransitivity|]. split; [done|]. split; [done|].
    intros i Hi. destruct (Z.lt_ge_cases i (w_cursor w + Z.of_nat (length leaves))) as [Hin|Hout].
    + destruct (page_has good lg L honest _ _ _ i Hpage) as (leaf & Hl & <-); [lia|].
      rewrite <- (pr_leaf _ _ _ _ _ _ _ Hpage leaf Hl). eapply stored_or_bad_mono; [done|]. by apply Hall.
    + apply Hst. rewrite En. lia.
Qed.

Lemma worker_start_quiet req progressEvery client s d n :
  progs s !! progressPath = Some d -> progress_wf d -> TreeSize client = Ok n ->
  quiet (worker_start clock progressPath lg req progressEvery client)
    (fun r s' => (exists p w, r = inr (p, w)) /\ start_post progressPath lg req client s d (Ok r) s') s.
Proof.
  intros Hd Hw Hn. apply (quiet_and _ (fun r _ => exists p w, r = inr (p, w))); [|by apply worker_start_wp].
  unfold worker_start. apply quiet_bind, quiet_attempt.
  eapply quiet_wp; [by apply get_or_create_wp|by eapply get_or_create_runs|].
  intros run s1 [[(d1 & -> & _)|[? _]] _]; [|done]. rewrite Hn.
  apply quiet_bind, quiet_attempt. eapply quiet_prog_stmt; [apply lookup_insert_eq|done|]. apply quiet_ret. by eexists _, _.
Qed.

End Loop.

Lemma process_log_leaf_no_panic (std_parse ct_parse : bytes -> res Certificate) leaf id cache :
  (forall der, std_parse der <> Panic) -> (forall der, ct_parse der <> Panic) ->
  processLogLeaf std_parse ct_parse leaf id cache <> Panic.
Proof.
  intros H1 H2. unfold processLogLeaf, parseCertLogLeaf. destruct (ll_Certificate leaf) as [|b der]; [done|].
  assert (Hany : parseAnyCert std_parse ct_parse (b :: der) <> Panic).
  { unfold parseAnyCert. specialize (H1 (b :: der)). specialize (H2 (b :: der)).
    by destruct (std_parse _), (ct_parse _). }
  by destruct (parseAnyCert _ _ _).
Qed.

(** ** Properties *)

(** C10. When no statement fails and the context is not cancelled, a worker
    without a session limit catches up with a client that answers: its last
    event is "caught_up", the log's row has reached the tree size, and every
    entry from the old cursor on is a row of its month in the pool, unless its
    certificate does not parse. *)
Theorem worker_catches_up {C : Type} `{LogClient C} (good : C -> Prop) `{!LogClientLaws C good}
  (std_parse ct_parse : bytes -> res Certificate) (month_order : gset string -> list string) (clock : Z -> string)
  (progressPath issuerPath : string) (lg : Log) (L : bytes -> Z -> LogLeaf) (honest : bytes -> C -> Prop)
  (serves : Z -> C -> Prop) (req : IngestAllRequest) (progressEvery : Z) (pool : SubjectDBPool) (client : C) (n : Z)
  (s : store) (d : progress_db)
  (Hhonest : forall id c a b, good c -> honest id c -> 0 <= a < b -> b <= max_tree -> b - a <= 256 ->
     honest id (FetchEntries c a b).1 /\
     forall ls, (FetchEntries c a b).2 = Ok ls -> forall leaf, leaf ∈ ls -> leaf = L id (CtlogParse.EntryIdx leaf))
  (Hserves : forall n c a b, good c -> serves n c -> 0 <= a < b -> b <= n -> b - a <= 256 ->
     serves n (FetchEntries c a b).1 /\ exists l ls, (FetchEntries c a b).2 = Ok (l :: ls))
  (Horder : forall x, month_order x ≡ₚ elements x)
  (Hstd : forall der, std_parse der <> Panic) (Hct : forall der, ct_parse der <> Panic)
  (Hg : good client) (Hh : honest (lg_LogID lg) client) (Hs : serves n client)
  (Hn : TreeSize client = Ok n) (Hmax : n <= max_tree) (Hlimit : rq_BatchSizePerLog req <= 0)
  (Hp : pool_ok pool s) (Hu : unopened pool s)
  (Hd : progs s !! progressPath = Some d) (Hw : progress_wf d) (H0 : 0 <= c_next (count (cursors d) (lg_LogID lg))) :
  exists pool' evs s',
    runLogWorker std_parse ct_parse month_order clock progressPath issuerPath lg req progressEvery (fun _ => None) pool client s []
      = (Ok (pool', evs), s', []) /\
    (exists ev, last evs = Some ev /\ ev_Status ev = "caught_up") /\
    (exists d', progs s' !! progressPath = Some d' /\ n <= c_next (count (cursors d') (lg_LogID lg))) /\
    forall i, c_next (count (cursors d) (lg_LogID lg)) <= i < n ->
      stored_or_bad std_parse ct_parse lg (activeDir pool) s' (L (lg_LogID lg) i).
Proof.
  assert (Hq : quiet (runLogWorker std_parse ct_parse month_order clock progressPath issuerPath lg req progressEvery (fun _ => None) pool client)
    (fun r s' => caught_up std_parse ct_parse progressPath lg L (activeDir pool) (c_next (count (cursors d) (lg_LogID lg))) n r s s') s).
  { unfold runLogWorker. apply quiet_bind. eapply quiet_mono; [by eapply worker_start_quiet|].
    intros r s1 [(p & w & ->) (d1 & -> & Hw1 & Hsame & Hok)]. destruct (Hok p w eq_refl) as (Ec & En & _ & _ & Et & El & Hrow).
    rewrite Hn in Et. injection Et as Et. rewrite <- En, Et.
    eapply quiet_mono; [apply (worker_loop_quiet good std_parse ct_parse month_order clock progressPath issuerPath lg L honest
      Hhonest Horder serves Hserves) with (d := d1)|]; rewrite ?Ec, ?En, <- ?Et; try done; try lia.
    - intros leaf cache. by apply process_log_leaf_no_panic.
    - by destruct Hp.
    - apply lookup_insert_eq.
    - apply Hsame.
    - intros r s' (G & Hrest). split; [|done]. etransitivity; [apply grew_set_prog|exact G]. }
  destruct Hq as ([pool' evs] & s' & E & _ & Hrest). by exists pool', evs, s'.
Qed.

(** A worker's run ends, whatever statements fail and whenever its context is
    cancelled: it returns events the last of which is "complete", "caught_up"
    or "error", or the process died; it never loops on. *)
Theorem run_log_worker_ends {C : Type} `{LogClient C} (good : C -> Prop) `{!LogClientLaws C good}
  (std_parse ct_parse : bytes -> res Certificate) (month_order : gset string -> list string) (clock : Z -> string)
  (progressPath issuerPath : string) (lg : Log) (L : bytes -> Z -> LogLeaf) (honest : bytes -> C -> Prop)
  (req : IngestAllRequest) (progressEvery : Z) (ctx : nat -> option error) (pool : SubjectDBPool) (client : C)
  (s : store) (d : progress_db) (fl : list outcome)
  (Hhonest : forall id c a b, good c -> honest id c -> 0 <= a < b -> b <= max_tree -> b - a <= 256 ->
     honest id (FetchEntries c a b).1 /\
     forall ls, (FetchEntries c a b).2 = Ok ls -> forall leaf, leaf ∈ ls -> leaf = L id (CtlogParse.EntryIdx leaf))
  (Horder : forall x, month_order x ≡ₚ elements x)
  (Hg : good client) (Hh : honest (lg_LogID lg) client) (Hn : forall n, TreeSize client = Ok n -> n <= max_tree)
  (Hp : pool_ok pool s) (Hd : progs s !! progressPath = Some d) (Hw : progress_wf d)
  (H0 : 0 <= c_next (count (cursors d) (lg_LogID lg))) :
  match (runLogWorker std_parse ct_parse month_order clock progressPath issuerPath lg req progressEvery ctx pool client s fl).1.1 with
  | Ok (_, evs) => ended evs
  | Err _ => False
  | Panic => True
  end.
Proof.
  assert (Hwp : wp (runLogWorker std_parse ct_parse month_order clock progressPath issuerPath lg req progressEvery ctx pool client)
    (fun r _ => (forall e, r <> Err e) /\ forall pool' evs, r = Ok (pool', evs) -> ended evs) s).
  { apply wp_bind. eapply wp_mono; [apply wp_and; [by apply worker_start_wp|apply worker_start_event]|].
    intros r s1 [(d1 & -> & Hw1 & _ & Hok) [He Hev]]. destruct r as [[ev|[p w]]|e|]; [|..|by destruct (He e)|done].
    { apply wp_ret. split; [done|]. intros pool' evs [= _ <-]. exists ev. split; [done|]. rewrite (Hev ev eq_refl). set_solver. }
    destruct (Hok p w eq_refl) as (Ec & En & _ & _ & Et & _).
    eapply (worker_loop_wp good std_parse ct_parse month_order clock progressPath issuerPath lg L honest Hhonest Horder);
      rewrite ?Ec, ?En; first [done|lia|by apply Hn|apply lookup_insert_eq|by destruct Hp; split|idtac]. }
  specialize (Hwp fl). destruct (runLogWorker _ _ _ _ _ _ _ _ _ _ _ _ s fl) as [[[[pool' evs]|e|] s'] fl']; cbn in *;
    [by eapply Hwp|by destruct (proj1 Hwp e)|done].
Qed.

(** ** Witnesses *)

Definition demo_store : store := mkStore ∅ ∅ {["progress.db" := mkProgress [] 0 [] 0]} {["issuers.db" := mkIssuerDb [] 0]} [].
Definition demo_pool : SubjectDBPool := mkPool ∅ "data/p1".

Definition statuses (r : res (SubjectDBPool * list LogProgress)) : list string :=
  match r with Ok (_, evs) => map ev_Status evs | _ => [] end.

Definition demo_worker (fl : list outcome) : res (SubjectDBPool * list LogProgress) * store * list outcome :=
  runLogWorker demo_cert demo_cert elements (fun _ => "t") "progress.db" "issuers.db" demo_lg demo_req 10
    (fun _ => None) demo_pool demo_log demo_store fl.

(** The row cannot be created: one event, and the run is over. *)
Lemma run_log_worker_ends_witness :
  statuses (demo_worker [Failed]).1.1 = ["error"] /\
  match (demo_worker [Failed]).1.1 with Ok (_, evs) => ended evs | Err _ => False | Panic => True end.
Proof.
  split; [vm_compute; reflexivity|].
  apply (run_log_worker_ends demo_good demo_cert demo_cert elements (fun _ => "t") "progress.db" "issuers.db" demo_lg
    (fun _ i => demo_leaf i) (fun _ c => c = demo_log) demo_req 10 (fun _ => None) demo_pool demo_log demo_store
    (mkProgress [] 0 [] 0) [Failed]); try done.
  - intros id c a b _ Hc _ _ _. by apply demo_honest.
  - intros n [= <-]. unfold max_tree. cbn. lia.
  - split; constructor.
Defined.

Definition demo_serves (n : Z) (c : list LogLeaf) : Prop := c = demo_log /\ n <= 3.

Lemma demo_serves_ok n c a b : demo_serves n c -> 0 <= a < b -> b <= n ->
  demo_serves n (FetchEntries c a b).1 /\ exists l ls, (FetchEntries c a b).2 = Ok (l :: ls).
Proof.
  intros [-> Hn] Ha Hb. split; [done|]. cbn [FetchEntries list_client snd].
  destruct (take (Z.to_nat (b - a)) (drop (Z.to_nat a) demo_log)) as [|l ls] eqn:E; [|by exists l, ls].
  apply (f_equal length) in E. rewrite length_take, length_drop in E. cbn [length demo_log] in E. lia.
Qed.

(** The three entries are read; the last one's certificate does not parse. *)
Lemma worker_catches_up_witness :
  exists pool' evs s',
    demo_worker [] = (Ok (pool', evs), s', []) /\ (exists ev, last evs = Some ev /\ ev_Status ev = "caught_up") /\
    (exists d', progs s' !! "progress.db" = Some d' /\ 3 <= c_next (count (cursors d') (lg_LogID demo_lg))) /\
    forall i, 0 <= i < 3 -> stored_or_bad demo_cert demo_cert demo_lg "data/p1" s' (demo_leaf i).
Proof.
  apply (worker_catches_up demo_good demo_cert demo_cert elements (fun _ => "t") "progress.db" "issuers.db" demo_lg
    (fun _ i => demo_leaf i) (fun _ c => c = demo_log) demo_serves demo_req 10 demo_pool demo_log 3 demo_store
    (mkProgress [] 0 [] 0)); try done.
  - intros id c a b _ Hc _ _ _. by apply demo_honest.
  - intros n c a b _ Hs Ha Hb _. by apply demo_serves_ok.
  - apply demo_cert_no_panic.
  - apply demo_cert_no_panic.
  - split; constructor.
Defined.
