(* ===== verification/Ingest.v ===== *)
(** What the ingestion system guarantees: an entry below a log's persisted
    cursor is in a database on disk or the page that held it logged its loss,
    through faults, rollovers, flushes and crashes; and the cursor and the total
    move together. *)

From S2P Require Import Prelude GoStd Sha256 FileSys CtlogParse CtlogClient Sql SubjectDB Dedup FlushFrame Progress Ctlist.
From S2P Require Import LogClient Leaf Worker WorkerSafe System SystemSafe Demo.

#[local] Open Scope sql_scope.

(** ** Definitions *)

(** IngestAll's state before its goroutines start. *)
Definition boot {C} (st : store) (dir : string) (logs : list Log) : sys C :=
  mkSys st {[dir := ∅]} dir [] None (map (fun lg => (lg, Idle)) logs) [dir] [].

(** One action of the system, computed. *)
Inductive action (C : Type) :=
| AStart (i : nat) (client : C) (fl : list outcome)
| AFetch (i : nat) (ctxErr : option error)
| ATurn (i : nat) (fl : list outcome)
| ASwap (dir : string)
| AFlush
| AMonth (fl : list outcome)
| AFlushed.
Arguments AStart {C} _ _ _.
Arguments AFetch {C} _ _.
Arguments ATurn {C} _ _.
Arguments ASwap {C} _.
Arguments AFlush {C}.
Arguments AMonth {C} _.
Arguments AFlushed {C}.

Section Exec.

Context {C : Type} `{LogClient C}.
Context (std_parse ct_parse : bytes -> res Certificate) (month_order : gset string -> list string) (clock : Z -> string).
Context (progressPath issuerPath : string) (scan : db -> res (list bytes)) (batchSize appendBatchRows pid : Z).
Context (base root : string) (req : IngestAllRequest) (progressEvery : Z) (new_client : Log -> C -> Prop).

Definition sys_exec (a : action C) (y : sys C) : option (sys C) :=
  match a with
  | AStart i client fl =>
      match sy_workers y !! i with
      | Some (lg, Idle) =>
          match worker_start clock progressPath lg req progressEvery client (sy_store y) fl with
          | (Ok (inl _), st, _) => Some (set_store st y)
          | (Ok (inr (p, w)), st, _) => Some (move_worker i (Looping p w) (set_store st y))
          | _ => None
          end
      | _ => None
      end
  | AFetch i ctxErr =>
      match sy_workers y !! i with
      | Some (lg, Looping p w) =>
          match worker_fetch lg p ctxErr w with
          | Ok (FStop _) => Some (move_worker i Idle y)
          | Ok (FPage client leaves) => Some (move_worker i (Paged p w (mkPage client leaves (length (logged (sy_store y))) (w_cache w) [] "" []) Resolving) y)
          | _ => None
          end
      | _ => None
      end
  | ATurn i fl =>
      match sy_workers y !! i with
      | Some (lg, Paged p w pg stg) =>
          match page_turn std_parse ct_parse month_order clock progressPath issuerPath y lg p w pg stg with
          | Some m => match m (sy_store y) fl with (Ok t, st, _) => Some (after_turn i t st y) | _ => None end
          | None => None
          end
      | _ => None
      end
  | ASwap dir =>
      Some (mkSys (sy_store y) (<[dir := ∅]> (sy_pools y)) dir (sy_queue y ++ [sy_live y]) (sy_flush y) (sy_workers y)
              (dir :: sy_dirs y) (sy_pages y))
  | AFlush =>
      match sy_queue y, sy_flush y with
      | dir :: queue, None =>
          Some (mkSys (sy_store y) (sy_pools y) (sy_live y) queue
                  (Some (mkFlush dir (month_order (pool_dbs (pool_at y dir))) None)) (sy_workers y) (sy_dirs y) (sy_pages y))
      | _, _ => None
      end
  | AMonth fl =>
      match sy_flush y with
      | Some (mkFlush dir (m :: months) err) =>
          match flush_one scan batchSize appendBatchRows pid root y dir m (sy_store y) fl with
          | (Ok r, st, _) => Some (after_month dir m months err r st y)
          | _ => None
          end
      | _ => None
      end
  | AFlushed =>
      match sy_flush y with
      | Some (mkFlush dir [] err) =>
          Some (mkSys (add_log (flush_line err) (sy_store y)) (<[dir := ∅]> (sy_pools y)) (sy_live y) (sy_queue y) None
                  (sy_workers y) (sy_dirs y) (sy_pages y))
      | _ => None
      end
  end.

(** What the step relation asks of an action besides its result. *)
Definition allowed (a : action C) (y : sys C) : Prop :=
  match a with
  | AStart i client _ => forall lg ph, sy_workers y !! i = Some (lg, ph) -> new_client lg client
  | ASwap dir => fresh_dir base root dir y
  | _ => True
  end.

#[local] Abbreviation step := (sys_step std_parse ct_parse month_order clock progressPath issuerPath scan batchSize
  appendBatchRows pid base root req progressEvery new_client).

(** ** Lemmas *)

Lemma sys_exec_step a y y' : allowed a y -> sys_exec a y = Some y' -> step y y'.
Proof.
  destruct a as [i client fl|i ctxErr|i fl|dir| |fl|]; cbn [allowed sys_exec]; intros Hc.
  - destruct (sy_workers y !! i) as [[lg [|p w|p w pg stg]]|] eqn:E; [|done..].
    pose proof (Hc lg Idle eq_refl) as Hn.
    destruct (worker_start _ _ _ _ _ client _ fl) as [[[[ev|[p w]]|e|] st] fl'] eqn:Er; intros [= <-].
    + by eapply step_start.
    + by eapply step_started.
  - destruct (sy_workers y !! i) as [[lg [|p w|p w pg stg]]|] eqn:E; [done| |done..].
    destruct (worker_fetch lg p ctxErr w) as [[ev|client leaves]|e|] eqn:Ef; intros [= <-].
    + by eapply step_stop.
    + by eapply step_fetch.
  - destruct (sy_workers y !! i) as [[lg [|p w|p w pg stg]]|] eqn:E; [done|done| |done].
    destruct (page_turn _ _ _ _ _ _ _ _ _ _ _ _) as [m|] eqn:Em; [|done].
    destruct (m (sy_store y) fl) as [[[t|e|] st] fl'] eqn:Es; intros [= <-]. by eapply step_turn.
  - intros [= <-]. by apply step_swap.
  - destruct (sy_queue y) as [|dir queue] eqn:E; [done|]. destruct (sy_flush y) eqn:Ef; [done|]. intros [= <-]. by apply step_flush.
  - destruct (sy_flush y) as [[dir [|m months] err]|] eqn:Ef; [done| |done].
    destruct (flush_one _ _ _ _ _ _ _ _ _ fl) as [[[r|e|] st] fl'] eqn:Er; intros [= <-]. by eapply step_flush_month.
  - destruct (sy_flush y) as [[dir [|m months] err]|] eqn:Ef; [|done..]. intros [= <-]. by apply step_flush_end.
Qed.

Lemma boot_inv good `{!LogClientLaws C good} L honest st dir logs d0 :
  progs st !! progressPath = Some d0 -> progress_wf d0 -> (forall id, 0 <= c_next (count (cursors d0) id)) ->
  Dir dir = base -> separate dir root -> separate root dir -> (forall m, dbs st !! month_path dir m = None) ->
  archives_sound root (Join base "dedup") st ->
  Inv good std_parse ct_parse progressPath base root L honest (fun id => c_next (count (cursors d0) id))
    (fun id => c_next (count (cursors d0) id) - c_total (count (cursors d0) id)) (boot (C := C) st dir logs).
Proof.
  intros Hp Hw H0 Hbase Hs1 Hs2 Hnone Harch.
  assert (Hne : root <> dir) by (intros ->; by apply (Hs1 "" "")).
  split; [split| |].
  - exists d0. split; try done. intros id i Hi. lia.
  - split; cbn [v_dirs view_of sy_dirs boot v_store sy_store]; [| |set_solver|done].
    + by intros x ->%list_elem_of_singleton.
    + intros x x' Hx Hx' Hxx. assert (x = root /\ x' = dir \/ x = dir /\ x' = root) as [[-> ->]|[-> ->]]; [|done..].
      set_solver.
  - intros i lg ph Hi. cbn in Hi. apply list_lookup_fmap_Some in Hi as (lg' & E & _). by injection E as -> ->.
  - split; cbn [sy_pools boot sy_live sy_queue sy_flush view_of v_store v_dirs sy_store sy_dirs];
      [|by rewrite lookup_singleton_eq|by intros x ?%elem_of_nil|done].
    intros x ms [<- <-]%lookup_singleton_Some. split; [|by left].
    split; cbn [activeDir pool_dbs]; [intros m d; by rewrite Hnone|intros m Hm; set_solver].
Qed.

End Exec.

(** ** Properties *)


(** ** Witness *)

Definition demo_boot : sys (list LogLeaf) :=
  boot (mkStore ∅ ∅ {["progress.db" := mkProgress [] 0 [] 0]} {["issuers.db" := mkIssuerDb [] 0]} []) "data/p1" [demo_lg].

Abbreviation demo_scan := (fun d => Ok (hashes d)).

Definition demo_exec (a : action (list LogLeaf)) (y : sys (list LogLeaf)) : option (sys (list LogLeaf)) :=
  sys_exec demo_cert demo_cert elements (fun _ => "t") "progress.db" "issuers.db" demo_scan 2 1 7 "hdd" demo_req 10 a y.

Definition demo_from (y : sys (list LogLeaf)) (acts : list (action (list LogLeaf))) : sys (list LogLeaf) :=
  foldl (fun y a => default y (demo_exec a y)) y acts.

Definition demo_run (acts : list (action (list LogLeaf))) : sys (list LogLeaf) := demo_from demo_boot acts.

Abbreviation demo_step := (sys_step demo_cert demo_cert elements (fun _ => "t") "progress.db" "issuers.db"
  demo_scan 2 1 7 "data" "hdd" demo_req 10 (fun _ c => c = demo_log)).

(** Every action can be taken where it is. *)
Fixpoint all_taken (y : sys (list LogLeaf)) (acts : list (action (list LogLeaf))) : bool :=
  match acts with
  | [] => true
  | a :: acts => match demo_exec a y with Some y' => all_taken y' acts | None => false end
  end.

Definition no_swap (a : action (list LogLeaf)) : Prop :=
  match a with AStart _ c _ => c = demo_log | ASwap _ => False | _ => True end.

(** A run is a sequence of steps. *)
Lemma demo_from_steps y acts : Forall no_swap acts -> all_taken y acts = true -> rtc demo_step y (demo_from y acts).
Proof.
  intros Hf. revert y. induction Hf as [|a acts Ha _ IH]; intros y Ht; [done|]. cbn [all_taken] in Ht. unfold demo_from. cbn [foldl].
  destruct (demo_exec a y) as [y'|] eqn:E; [|done]. cbn [default]. eapply rtc_l; [|by apply IH].
  eapply sys_exec_step; [|exact E]. destruct a; try done. by intros lg ph _.
Qed.

(** The calls of worker 0 for a page of two months, the first insert under [fl]. *)
Definition page_calls (fl : list outcome) : list (action (list LogLeaf)) :=
  repeat (ATurn 0 []) 4 ++ [ATurn 0 fl] ++ repeat (ATurn 0 []) 4.

(** The first month's insert fails: entry 0 is lost, entry 1 stored, entry 2
    skipped, and the cursor is past all three. *)
Definition demo_actions : list (action (list LogLeaf)) := [AStart 0 demo_log []; AFetch 0 None] ++ page_calls [Done; Done; Done; Failed].

Lemma demo_steps : rtc demo_step demo_boot (demo_run demo_actions).
Proof. apply demo_from_steps; [repeat constructor|vm_compute; reflexivity]. Qed.

Lemma demo_archives : archives_sound "hdd" (Join "data" "dedup") (sy_store demo_boot).
Proof.
  intros m. split; cbn; [by intros d ?%lookup_empty_Some|]. intros h. unfold seen_of. cbn. rewrite lookup_empty. set_solver.
Qed.


(** ** Findings *)

(** The hashes of the rows of a month, when its file is there. *)
Definition month_hashes (dir month : string) (y : sys (list LogLeaf)) : option (list bytes) :=
  match dbs (sy_store y) !! month_path dir month with Some (DB d) => Some (hashes d) | _ => None end.

(** An entry whose month could not be written is never fetched again: the
    cursor is past it, and the next session starts there and stops. *)
Lemma lost_entry_not_refetched :
  let y := demo_run (demo_actions ++ [AFetch 0 None; AStart 0 demo_log []; AFetch 0 None]) in
  rtc demo_step demo_boot y /\ sy_workers y = [(demo_lg, Idle)] /\ month_hashes "data/p1" "2023-11" y = Some [] /\
  certMonth (format_time 1700000000) = "2023-11" /\ month_hashes "data/p1" "2024-01" y = Some [sha256 [x01]].
Proof. split; [apply demo_from_steps; [repeat constructor|vm_compute; reflexivity]|vm_compute; by split_and!]. Qed.

(** The coordinator's swap to a second pool. *)
Lemma demo_swap y : sy_dirs y = ["data/p1"] -> (forall m, dbs (sy_store y) !! month_path "data/p2" m = None) ->
  rtc demo_step y (demo_from y [ASwap "data/p2"]).
Proof.
  intros E H. apply rtc_once, step_swap. split; [done| |done]. rewrite E.
  intros d Hd. split; intros m m'; unfold month_path, Join; cbn; set_solver.
Qed.

(** A worker that loaded the pool before a rollover and opens a month of it after
    the flush opens it again in the old directory: no error is logged, and no
    queue holds the directory any more. *)
Definition late_before : list (action (list LogLeaf)) := [AStart 0 demo_log []; AFetch 0 None; ATurn 0 []; ATurn 0 []].
Definition late_after : list (action (list LogLeaf)) := [AFlush; AFlushed] ++ repeat (ATurn 0 []) 7.

Lemma late_store_reopens_flushed_pool :
  let y := demo_from (demo_from (demo_run late_before) [ASwap "data/p2"]) late_after in
  rtc demo_step demo_boot y /\ month_hashes "data/p1" "2023-11" y = Some [sha256 [x00]] /\
  month_hashes "hdd" "2023-11" y = None /\ sy_live y = "data/p2" /\ sy_queue y = [] /\ sy_flush y = None /\
  logged (sy_store y) = ["Op/demo entry=2 skip: parse cert: std: bad der; ct: bad der"; "background flush: pool flushed to archive"].
Proof.
  cbv zeta. split; [|vm_compute; by split_and!].
  etransitivity; [apply (demo_from_steps demo_boot late_before); [repeat constructor|vm_compute; reflexivity]|].
  etransitivity; [|apply demo_from_steps; [repeat constructor|vm_compute; reflexivity]].
  apply demo_swap; [vm_compute; reflexivity|by intros m; vm_compute].
Qed.

(** A transaction that a worker began before the flush closed its month, and
    commits after the file was removed: the insert succeeds, nothing is logged,
    the cursor passes the page, and entry 0 is in no database. *)
Definition overlap_before : list (action (list LogLeaf)) := late_before ++ [ATurn 0 []; ATurn 0 []].
Definition overlap_after : list (action (list LogLeaf)) := [AFlush; AMonth []; AFlushed] ++ repeat (ATurn 0 []) 5.

Lemma overlapped_commit_lost :
  let y := demo_from (demo_from (demo_run overlap_before) [ASwap "data/p2"]) overlap_after in
  rtc demo_step demo_boot y /\
  (month_hashes "data/p1" "2023-11" y = None /\ month_hashes "data/p2" "2023-11" y = None /\ month_hashes "hdd" "2023-11" y = Some []) /\
  option_map (fun d => c_next (count (cursors d) (repeat x01 32))) (progs (sy_store y) !! "progress.db") = Some 3 /\
  map pn_cut (sy_pages y) = [["2023-11"]] /\
  logged (sy_store y) = ["Op/demo entry=2 skip: parse cert: std: bad der; ct: bad der"; "background flush: pool flushed to archive"].
Proof.
  cbv zeta. split; [|vm_compute; by split_and!].
  etransitivity; [apply (demo_from_steps demo_boot overlap_before); [repeat constructor|vm_compute; reflexivity]|].
  etransitivity; [|apply demo_from_steps; [repeat constructor|vm_compute; reflexivity]].
  apply demo_swap; [vm_compute; reflexivity|]. intros m. replace (dbs (sy_store (demo_run overlap_before))) with ({[month_path "data/p1" "2023-11" := DB (empty_db true true)]} : gmap string dbfile)
      by (vm_compute; reflexivity). apply lookup_singleton_ne. unfold month_path, Join. cbn. congruence.
Qed.
