(* ===== verification/ReverseIP.v ===== *)
(** cmd/reindex, R1: the reverse index from addresses to domains — one table or
    one table per shard — and its lookups. *)

From S2P Require Import Prelude GoStd Order Netip Sha256 LogClient.

(** ** Definitions *)

(** *** Keys *)

(** The 16-byte key of an address and its family, 4 or 6. *)
Definition key16 (s : string) : option (bytes * Z) :=
  match ParseAddr (trim_space s) with
  | None => None
  | Some a => Some (As16 a, if Is4 a || Is4In6 a then 4 else 6)
  end.

(** [hiArr[i/8] |= 1 << (7 - uint(i%8))] *)
Definition set_bit (b : bytes) (i : nat) : bytes :=
  alter (fun x => byte_of (Z.lor (bval x) (Z.shiftl 1 (7 - Z.of_nat i mod 8)))) (i / 8)%nat b.

Definition prefixRange (p : prefix) : bytes * bytes :=
  let p := Masked p in
  let a := As16 (p_addr p) in
  let bits := if Is4 (p_addr p) then p_bits p + 96 else p_bits p in
  (a, foldl set_bit a (seq (Z.to_nat bits) (128 - Z.to_nat bits))).

(** *** Shards *)

Definition v6ShardBit : Z := 65536.

Section Shards.

(** Leading bytes of the key a base shard stands for: 1 or 2. *)
Variable gShardBytes : nat.

Definition key_offset (ver : Z) : nat := if ver =? 4 then 12%nat else 0%nat.

Definition shardPrefixInt (k : bytes) (ver : Z) : Z :=
  foldl (fun v i => Z.lor (Z.shiftl v 8) (bval (default x00 (k !! (key_offset ver + i)%nat)))) 0 (seq 0 gShardBytes).

Definition shardID (k : bytes) (ver : Z) : Z :=
  let v := shardPrefixInt k ver in
  if negb (ver =? 4) then Z.lor v v6ShardBit else v.

(** ["%02x"] of a byte. *)
Definition hex2 (n : Z) : string := hex_encode [byte_of n].

Definition shardName (id : Z) : string :=
  let v6 := negb (Z.land id v6ShardBit =? 0) in
  let v := Z.ldiff id v6ShardBit in
  let lo := Z.land v 255 in
  let hi := Z.land (Z.shiftr v 8) 255 in
  if negb v6 && (gShardBytes =? 1)%nat then "v4_" +:+ dec lo
  else if negb v6 then "v4_" +:+ dec hi +:+ "_" +:+ dec lo
  else if (gShardBytes =? 1)%nat then "v6_" +:+ hex2 lo
  else "v6_" +:+ hex2 hi +:+ hex2 lo.

(** The ids from [loS] to [hiS]. *)
Definition shardsForPrefix (p : prefix) : list Z :=
  let p := Masked p in
  let '(lo, hi) := prefixRange p in
  let ver := if Is4 (p_addr p) then 4 else 6 in
  let loS := shardPrefixInt lo ver in
  let hiS := shardPrefixInt hi ver in
  map (fun s => if ver =? 4 then s else Z.lor v6ShardBit s) (seqZ loS (hiS - loS + 1)).

Definition octetStr (ver n : Z) : string := if ver =? 4 then dec n else hex2 n.

(** The byte of the key after the base shard's. *)
Definition next_octet (k : bytes) (ver : Z) : Z := bval (default x00 (k !! (key_offset ver + gShardBytes)%nat)).

Definition fineName (base : string) (k : bytes) (ver : Z) : string :=
  base +:+ "_" +:+ octetStr ver (next_octet k ver).

Definition fineNamesForBase (base : string) (baseID ver : Z) (lo hi : bytes) : list string :=
  let loP := shardPrefixInt lo ver in
  let hiP := shardPrefixInt hi ver in
  let bp := Z.ldiff baseID v6ShardBit in
  let nLo := if bp =? loP then next_octet lo ver else 0 in
  let nHi := if bp =? hiP then next_octet hi ver else 255 in
  map (fun n => base +:+ "_" +:+ octetStr ver n) (seqZ nLo (nHi - nLo + 1)).

(** *** Reading the source *)

(** A row of dns_records_a or dns_records_aaaa; a column may be NULL. *)
Record src_row := mkSrc { src_domain : option string; src_ip : option string; src_fetched : option Z }.

(** The two tables; either may be missing. *)
Record dns_src := mkDns { dns_records_a : option (list src_row); dns_records_aaaa : option (list src_row) }.

Record rev_row := mkRev { rv_ip : bytes; rv_domain : string; rv_ver : Z; rv_fetched : option Z }.

(** [strings.ToLower] *)
Variable ToLower : string -> string.

(** One table's rows appended to the staged ones; an address that does not
    parse is skipped, a NULL stops the build. *)
Fixpoint load_rows (rows : list src_row) (staged : list rev_row) (skipped : Z) : res (list rev_row * Z) :=
  match rows with
  | [] => Ok (staged, skipped)
  | r :: rows =>
      match src_domain r, src_ip r with
      | Some domain, Some ipstr =>
          match key16 ipstr with
          | None => load_rows rows staged (skipped + 1)
          | Some (k, ver) => load_rows rows (staged ++ [mkRev k (ToLower domain) ver (src_fetched r)]) skipped
          end
      | _, _ => Err (Errorf "sql: Scan error: converting NULL to string is unsupported")
      end
  end.

(** A table that is absent is passed over. *)
Definition load_tables (src : dns_src) : res (list rev_row * Z) :=
  let? (staged, skipped) := match dns_records_a src with Some rows => load_rows rows [] 0 | None => Ok ([], 0) end in
  match dns_records_aaaa src with Some rows => load_rows rows staged skipped | None => Ok (staged, skipped) end.

(** ORDER BY ip, domain, fetched_at DESC *)
Definition pair_of (r : rev_row) : bytes * string := (rv_ip r, rv_domain r).
Definition ip_domain_cmp : bytes * string -> bytes * string -> comparison := pair_cmp blob_cmp text_cmp.
Definition fresh_key (r : rev_row) : bytes * string * option Z := (pair_of r, rv_fetched r).
Definition fresh_cmp : rev_row -> rev_row -> comparison :=
  by_key fresh_key (pair_cmp ip_domain_cmp (desc (null_cmp Z.compare))).

(** A row whose (ip, domain) is the previous one's is dropped. *)
Definition dup (prev : option (bytes * string)) (r : rev_row) : bool := bool_decide (prev = Some (pair_of r)).

Fixpoint emit (prev : option (bytes * string)) (rows : list rev_row) : list rev_row :=
  match rows with
  | [] => []
  | r :: rows => if dup prev r then emit prev rows else r :: emit (Some (pair_of r)) rows
  end.

Definition buildIP (src : dns_src) : res (list rev_row) :=
  let? (staged, _) := load_tables src in
  Ok (emit None (sort_by fresh_cmp staged)).

(** *** Sharded *)

(** The output directory: "<name>.db" files and the manifest's split list. *)
Record ip_dir := mkIpDir { od_files : gmap string (list rev_row); od_split : option (list string) }.

Definition base_of (r : rev_row) : string := shardName (shardID (rv_ip r) (rv_ver r)).
Definition fine_of (r : rev_row) : string := fineName (base_of r) (rv_ip r) (rv_ver r).

(** [count[base]++] for every staged row. *)
Definition base_counts (staged : list rev_row) : gmap string Z :=
  foldl (fun m r => <[base_of r := default 0 (m !! base_of r) + 1]> m) ∅ staged.

(** The base shards over the threshold; 0 splits nothing. *)
Definition split_set (splitMin : Z) (staged : list rev_row) : gset string :=
  if 0 <? splitMin then dom (filter (fun bc => splitMin <= bc.2) (base_counts staged)) else ∅.

(** UPDATE staged SET shard = CASE WHEN base IN splitbase THEN fine ELSE base END *)
Definition shard_of (split : gset string) (r : rev_row) : string :=
  if bool_decide (base_of r ∈ split) then fine_of r else base_of r.

(** ORDER BY shard, ip, domain, fetched_at DESC *)
Definition shard_cmp : string * rev_row -> string * rev_row -> comparison := pair_cmp text_cmp fresh_cmp.

(** The fan-out loop: a new shard replaces its file; [cur] is the shard that is
    open, "" at first. *)
Fixpoint fan_out (rows : list (string * rev_row)) (files : gmap string (list rev_row)) (cur : string)
    (prev : option (bytes * string)) : gmap string (list rev_row) :=
  match rows with
  | [] => files
  | (shard, r) :: rows =>
      let '(files, prev) := if String.eqb shard cur then (files, prev) else (<[shard := []]> files, None) in
      if dup prev r then fan_out rows files shard prev
      else fan_out rows (<[shard := default [] (files !! shard) ++ [r]]> files) shard (Some (pair_of r))
  end.

Definition buildIPSharded (splitMin : Z) (src : dns_src) (dir : ip_dir) : res ip_dir :=
  let? (staged, _) := load_tables src in
  let split := split_set splitMin staged in
  let rows := sort_by shard_cmp (map (fun r => (shard_of split r, r)) staged) in
  Ok (mkIpDir (fan_out rows (od_files dir) "" None) (Some (sort_by text_cmp (elements split)))).

(** *** Lookups *)

(** ip BETWEEN lo AND hi *)
Definition between (lo hi k : bytes) : Prop := le_of blob_cmp lo k /\ le_of blob_cmp k hi.

(** SELECT domain FROM rev_ip WHERE ip BETWEEN ? AND ? ORDER BY ip, domain *)
Definition select_range (lo hi : bytes) (table : list rev_row) : list string :=
  map rv_domain (sort_by (by_key pair_of ip_domain_cmp) (filter (fun r => between lo hi (rv_ip r)) table)).

Definition lookupIP (table : list rev_row) (ip : string) : res (list string) :=
  match key16 ip with
  | None => Err (Errorf ("invalid IP: " +:+ ip))
  | Some (k, _) => Ok (map rv_domain (sort_by (by_key rv_domain text_cmp) (filter (fun r => rv_ip r = k) table)))
  end.

Definition lookupCIDR (table : list rev_row) (cidr : string) : res (list string) :=
  match ParsePrefix cidr with
  | None => Err (Errorf ("netip.ParsePrefix(" +:+ cidr +:+ ")"))
  | Some p => let '(lo, hi) := prefixRange p in Ok (select_range lo hi table)
  end.

(** The files a query opens: a split base's overlapping parts, else the base. *)
Definition names_for (split : list string) (p : prefix) : list string :=
  let '(lo, hi) := prefixRange p in
  let ver := if Is4 (p_addr p) then 4 else 6 in
  concat (map (fun id =>
    let base := shardName id in
    if bool_decide (base ∈ split) then fineNamesForBase base id ver lo hi else [base]) (shardsForPrefix p)).

(** A missing file holds nothing. *)
Definition lookupCIDRSharded (dir : ip_dir) (cidr : string) : res (list string) :=
  match ParsePrefix cidr with
  | None => Err (Errorf ("netip.ParsePrefix(" +:+ cidr +:+ ")"))
  | Some p =>
      let '(lo, hi) := prefixRange p in
      let names := names_for (default [] (od_split dir)) p in
      Ok (concat (map (fun name => match od_files dir !! name with
                                   | Some table => select_range lo hi table
                                   | None => []
                                   end) names))
  end.

End Shards.
