(* ===== verification/IpKeys.v ===== *)
(** Keys and shard names of cmd/reindex: addresses parse to 16 bytes, a shard is
    an interval of keys, and no two shards share a name. *)

From S2P Require Import Prelude GoStd Order Netip Sha256 LogClient ReverseIP.

(** ** Lemmas *)

(** *** Addresses *)

Lemma ipv4_fields_length s val digits fields b :
  (length fields <= 3)%nat -> ipv4_fields s val digits fields = Some b -> length b = 4%nat.
Proof.
  revert val digits fields. induction s as [|c s IH]; intros val digits fields Hl; cbn [ipv4_fields].
  - destruct (Nat.ltb_spec (length fields) 3); [done|]. intros [= <-]. rewrite length_app. cbn. lia.
  - destruct (is_digit c).
    + destruct (_ && _); [done|]. destruct (255 <? _); [done|]. by apply IH.
    + destruct (Ascii.eqb c "."); [|done]. destruct (_ || _); [done|].
      destruct (Nat.eqb_spec (length fields) 3); [done|]. apply IH. rewrite length_app. cbn. lia.
Qed.

Lemma ipv6_fields_length fuel s ip e ip' e' rest :
  (length ip + 2 * fuel = 16)%nat -> (forall n, e = Some n -> (n <= length ip)%nat) ->
  ipv6_fields fuel s ip e = Some (ip', e', rest) ->
  (length ip' <= 16)%nat /\ forall n, e' = Some n -> (n <= length ip')%nat.
Proof.
  revert s ip e. induction fuel as [|fuel IH]; intros s ip e Hl He; cbn [ipv6_fields].
  { intros [= <- <- <-]. split; [lia|done]. }
  destruct (hex_field s 0 0) as [[[acc off] r]|]; [|done]. destruct (off =? 0); [done|].
  pose proof (length_be_bytes 2 acc) as H2. generalize dependent (be_bytes 2 acc). intros two H2.
  assert (Hlen : length (ip ++ two) = (length ip + 2)%nat) by (rewrite length_app; lia).
  assert (Hip : forall n, e = Some n -> (n <= length (ip ++ two))%nat) by (intros n Hn; rewrite Hlen; specialize (He n Hn); lia).
  assert (Hcolon : forall c r', (if negb (Ascii.eqb c ":") then None
              else match r' with
              | "" => None
              | String c2 s2 =>
                  if Ascii.eqb c2 ":" then
                    match e with
                    | Some _ => None
                    | None => if String.eqb s2 "" then Some (ip ++ two, Some (length (ip ++ two)), "")
                              else ipv6_fields fuel s2 (ip ++ two) (Some (length (ip ++ two)))
                    end
                  else ipv6_fields fuel r' (ip ++ two) e
              end) = Some (ip', e', rest) ->
    (length ip' <= 16)%nat /\ forall n, e' = Some n -> (n <= length ip')%nat).
  { intros c r'. destruct (negb _); [done|]. destruct r' as [|c2 s2]; [done|]. destruct (Ascii.eqb c2 ":").
    - destruct e; [done|]. destruct (String.eqb s2 "").
      + intros [= <- <- _]. rewrite Hlen. split; [lia|]. by intros n [= <-].
      + intros H1. apply (IH s2 _ _) in H1; [done|rewrite Hlen; lia|by intros n [= <-]].
    - intros H1. apply (IH (String c2 s2) _ _) in H1; [done|rewrite Hlen; lia|done]. }
  destruct r as [|c r']; [intros [= <- <- _]; rewrite Hlen; split; [lia|intros n Hn; specialize (He n Hn); lia]|].
  assert (Hdot : (if negb (bool_decide (is_Some e)) && negb (length ip =? 12)%nat then None
              else if (16 <? length ip + 4)%nat then None
              else match ipv4_fields s 0 0 [] with None => None | Some b => Some (ip ++ b, e, "") end) = Some (ip', e', rest) ->
    (length ip' <= 16)%nat /\ forall n, e' = Some n -> (n <= length ip')%nat).
  { destruct (_ && _); [done|]. destruct (Nat.ltb_spec 16 (length ip + 4)); [done|].
    destruct (ipv4_fields s 0 0 []) as [b|] eqn:Eb; [|done]. apply ipv4_fields_length in Eb; [|cbn; lia].
    intros [= <- <- _]. rewrite length_app. split; [lia|]. intros n Hn. specialize (He n Hn). lia. }
  destruct c as [[] [] [] [] [] [] [] []];
    first [exact Hdot|match goal with |- context [negb (Ascii.eqb ?c ":")] => exact (Hcolon c r') end].
Qed.

Lemma ipv6_bytes_length s b : ipv6_bytes s = Some b -> length b = 16%nat.
Proof.
  assert (Hfin : forall s e0 b, (forall n, e0 = Some n -> n = 0%nat) ->
    match ipv6_fields 8 s [] e0 with Some (ip, e, r) => ipv6_finish ip e r | None => None end = Some b -> length b = 16%nat).
  { intros s' e0 b' He. destruct (ipv6_fields 8 s' [] e0) as [[[ip e] r]|] eqn:E; [|done].
    apply ipv6_fields_length in E as [H1 H2]; [|done|by intros n ->%He]. unfold ipv6_finish.
    destruct (negb _); [done|]. destruct (Nat.ltb_spec (length ip) 16).
    - destruct e as [n|]; [|done]. specialize (H2 n eq_refl). intros [= <-].
      rewrite !length_app, length_take, length_drop, repeat_length. lia.
    - destruct e; [done|]. intros [= <-]. lia. }
  assert (Hnone : forall n, @None nat = Some n -> n = 0%nat) by done.
  unfold ipv6_bytes. destruct s as [|c s]; [by apply Hfin|].
  destruct s as [|c2 s].
  - destruct c as [[] [] [] [] [] [] [] []]; apply Hfin; done.
  - destruct (Ascii.eqb_spec c ":") as [->|Hc].
    + destruct (Ascii.eqb_spec c2 ":") as [->|Hc2].
      * destruct (String.eqb s ""); [by intros [= <-]|]. apply Hfin. by intros n [= <-].
      * intros H1. apply (Hfin (String ":" (String c2 s)) None b Hnone).
        rewrite <- H1. destruct c2 as [[] [] [] [] [] [] [] []]; first [done|by destruct Hc2].
    + intros H1. apply (Hfin (String c (String c2 s)) None b Hnone).
      rewrite <- H1. destruct c as [[] [] [] [] [] [] [] []]; first [done|by destruct Hc].
Qed.

Lemma As16_length s a : ParseAddr s = Some a -> length (As16 a) = 16%nat.
Proof.
  unfold ParseAddr. destruct (addr_family s) as [c|]; [|done].
  assert (H4 : option_map V4 (ipv4_fields s 0 0 []) = Some a -> length (As16 a) = 16%nat).
  { destruct (ipv4_fields s 0 0 []) as [b|] eqn:E; [|done]. intros [= <-]. apply ipv4_fields_length in E; [|cbn; lia].
    cbn [As16]. rewrite length_app, E. reflexivity. }
  assert (H6 : parseIPv6 s = Some a -> length (As16 a) = 16%nat).
  { unfold parseIPv6. destruct (_ =? _).
    - destruct (ipv6_bytes s) as [b|] eqn:E; [|done]. intros [= <-]. by apply ipv6_bytes_length in E.
    - destruct (String.eqb _ _); [done|]. destruct (ipv6_bytes _) as [b|] eqn:E; [|done]. intros [= <-]. by apply ipv6_bytes_length in E. }
  destruct c as [[] [] [] [] [] [] [] []]; done || exact H4 || exact H6.
Qed.

(** A key: 16 bytes; IPv4 keys are the mapped ones. *)
Record key_ok (k : bytes) (ver : Z) : Prop := {
  ko_length : length k = 16%nat;
  ko_ver : ver = if mapped k then 4 else 6 }.

Lemma key16_ok s k ver : key16 s = Some (k, ver) -> key_ok k ver.
Proof.
  unfold key16. destruct (ParseAddr (trim_space s)) as [a|] eqn:E; [|done]. intros [= <- <-].
  split; [by eapply As16_length|]. destruct a as [b|b z]; cbn [Is4 Is4In6 As16 orb]; [|done].
  unfold mapped. by rewrite take_app_length', bool_decide_true.
Qed.

(** *** Prefixes of a key as numbers *)

Lemma be_take n k : (n <= length k)%nat -> be (take n k) = be k / 256 ^ (Z.of_nat (length k) - Z.of_nat n).
Proof.
  intros Hn. rewrite <- (take_drop n k) at 2. rewrite be_app.
  pose proof (be_bound (drop n k)) as Hb. unfold blen in *. rewrite length_drop in *.
  replace (Z.of_nat (length k - n)) with (Z.of_nat (length k) - Z.of_nat n) in * by lia.
  rewrite Z.div_add_l by lia. rewrite Z.div_small by lia. lia.
Qed.

(** The first [n] bytes as a number. *)
Definition lead (n : nat) (k : bytes) : Z := be (take n k).

Lemma lead_mono n k k' :
  length k = 16%nat -> length k' = 16%nat -> (n <= 16)%nat -> le_of blob_cmp k k' -> lead n k <= lead n k'.
Proof.
  intros Hk Hk' Hn. unfold le_of. rewrite blob_cmp_be by congruence. intros H%Z.compare_ngt_iff.
  unfold lead. rewrite !be_take, Hk, Hk' by lia. apply Z.div_le_mono; lia.
Qed.

Lemma lead_lt n k k' :
  length k = 16%nat -> length k' = 16%nat -> (n <= 16)%nat -> lead n k < lead n k' -> lt_of blob_cmp k k'.
Proof.
  intros Hk Hk' Hn H. unfold lt_of. destruct (blob_cmp k k') eqn:E; [|done|].
  - apply (cmp_eq (cmp := blob_cmp)) in E. subst. lia.
  - assert (H1 : le_of blob_cmp k' k) by (unfold le_of; rewrite (cmp_opp (cmp := blob_cmp) k k'), E; done).
    apply (lead_mono n) in H1; [lia|done..].
Qed.

Lemma lead_inj n k k' : length k = 16%nat -> length k' = 16%nat -> lead n k = lead n k' -> take n k = take n k'.
Proof.
  intros Hk Hk' H. apply (cmp_eq (cmp := blob_cmp)). rewrite blob_cmp_be by (rewrite !length_take; lia).
  apply Z.compare_eq_iff. exact H.
Qed.

Lemma lead_next n k x : k !! n = Some x -> lead (S n) k = lead n k * 256 + bval x.
Proof. intros Hx. unfold lead. by rewrite (take_S_r _ _ x), be_snoc. Qed.

Lemma lor_byte v x : Z.lor (Z.shiftl v 8) (bval x) = v * 256 + bval x.
Proof. rewrite lor_shiftl_add; [done|lia|apply bval_range]. Qed.

Section Shard.

Variable g : nat.
Hypothesis Hg : g = 1%nat \/ g = 2%nat.

(** What the mapped prefix adds in front of an IPv4 shard. *)
Definition family_lead (ver : Z) : Z := if ver =? 4 then be v4_mapped else 0.

Definition in_family (ver : Z) (k : bytes) : Prop := ver = 4 -> take 12 k = v4_mapped.

Lemma shard_prefix_loop off k v n :
  (off + n <= length k)%nat -> 0 <= v ->
  foldl (fun v i => Z.lor (Z.shiftl v 8) (bval (default x00 (k !! (off + i)%nat)))) v (seq 0 n) = be_val (take n (drop off k)) v.
Proof.
  intros Hn Hv. induction n as [|n IH]; [done|]. rewrite seq_S, foldl_app, IH by lia. cbn [foldl Nat.add].
  destruct (lookup_lt_is_Some_2 k (off + n)) as [x Hx]; [lia|]. rewrite Hx. cbn [default].
  rewrite (take_S_r _ _ x) by (by rewrite lookup_drop). rewrite be_val_app. cbn [be_val].
  apply lor_byte.
Qed.

Lemma shard_prefix_be k ver : length k = 16%nat -> shardPrefixInt g k ver = be (take g (drop (key_offset ver) k)).
Proof.
  intros Hk. unfold shardPrefixInt. rewrite shard_prefix_loop; [done| |done]. unfold key_offset. destruct (ver =? 4); lia.
Qed.

Lemma shard_prefix_range k ver : length k = 16%nat -> 0 <= shardPrefixInt g k ver < 256 ^ Z.of_nat g.
Proof.
  intros Hk. rewrite shard_prefix_be by done. pose proof (be_bound (take g (drop (key_offset ver) k))) as H.
  unfold blen in H. rewrite length_take, length_drop in H.
  replace (g `min` (length k - key_offset ver))%nat with g in H; [done|].
  rewrite Hk. unfold key_offset. destruct (ver =? 4); lia.
Qed.

Lemma lead_shard k ver : length k = 16%nat -> in_family ver k ->
  lead (key_offset ver + g) k = family_lead ver * 256 ^ Z.of_nat g + shardPrefixInt g k ver.
Proof.
  intros Hk Hf. rewrite shard_prefix_be by done. unfold lead, family_lead, in_family, key_offset in *.
  destruct (Z.eqb_spec ver 4) as [->|Hv]; [|by rewrite drop_0].
  rewrite <- take_take_drop, be_app, Hf by done.
  replace (blen (take g (drop 12 k))) with (Z.of_nat g); [done|]. unfold blen. rewrite length_take, length_drop, Hk.
  destruct Hg as [->| ->]; reflexivity.
Qed.

(** In a family a greater key has a shard that is not less. *)
Lemma shard_mono k k' ver : length k = 16%nat -> length k' = 16%nat -> in_family ver k -> in_family ver k' ->
  le_of blob_cmp k k' -> shardPrefixInt g k ver <= shardPrefixInt g k' ver.
Proof.
  intros Hk Hk' Hf Hf' Hle. apply (lead_mono (key_offset ver + g)) in Hle; [|done|done|unfold key_offset; destruct (ver =? 4); lia].
  rewrite !lead_shard in Hle by done. lia.
Qed.

Lemma shard_lt k k' ver : length k = 16%nat -> length k' = 16%nat -> in_family ver k -> in_family ver k' ->
  shardPrefixInt g k ver < shardPrefixInt g k' ver -> lt_of blob_cmp k k'.
Proof.
  intros Hk Hk' Hf Hf' Hlt. apply (lead_lt (key_offset ver + g)); [done|done|unfold key_offset; destruct (ver =? 4); lia|].
  rewrite !lead_shard by done. lia.
Qed.

(** The same with the octet that follows. *)
Lemma lead_octet k ver : length k = 16%nat -> in_family ver k ->
  lead (S (key_offset ver + g)) k = (family_lead ver * 256 ^ Z.of_nat g + shardPrefixInt g k ver) * 256 + next_octet g k ver.
Proof.
  intros Hk Hf. destruct (lookup_lt_is_Some_2 k (key_offset ver + g)) as [x Hx].
  { rewrite Hk. unfold key_offset. destruct (ver =? 4); lia. }
  rewrite (lead_next _ _ x), lead_shard by done. unfold next_octet. by rewrite Hx.
Qed.

Lemma octet_range k ver : 0 <= next_octet g k ver < 256.
Proof. apply bval_range. Qed.

Lemma octet_mono k k' ver : length k = 16%nat -> length k' = 16%nat -> in_family ver k -> in_family ver k' ->
  le_of blob_cmp k k' -> shardPrefixInt g k ver = shardPrefixInt g k' ver -> next_octet g k ver <= next_octet g k' ver.
Proof.
  intros Hk Hk' Hf Hf' Hle E. apply (lead_mono (S (key_offset ver + g))) in Hle; [|done|done|unfold key_offset; destruct (ver =? 4); lia].
  rewrite !lead_octet in Hle by done. lia.
Qed.

Lemma octet_lt k k' ver : length k = 16%nat -> length k' = 16%nat -> in_family ver k -> in_family ver k' ->
  shardPrefixInt g k ver = shardPrefixInt g k' ver -> next_octet g k ver < next_octet g k' ver -> lt_of blob_cmp k k'.
Proof.
  intros Hk Hk' Hf Hf' E Hlt. apply (lead_lt (S (key_offset ver + g))); [done|done|unfold key_offset; destruct (ver =? 4); lia|].
  rewrite !lead_octet by done. lia.
Qed.

End Shard.
