(* ===== verification/IpNames.v ===== *)
(** No two shards of the reverse IP index share a file name. *)

From S2P Require Import Prelude GoStd Order Netip Sha256 LogClient ReverseIP IpKeys.

(** ** Definitions *)

Section Names.

Variable g : nat.

(** The fields of a shard's name between underscores: the family, the base
    prefix [s] and, for a split shard, the octet [o]. *)
Definition name_fields (ver s : Z) (o : option Z) : list string :=
  (if ver =? 4 then
     "v4" :: if (g =? 1)%nat then [dec s] else [dec (s / 256); dec (s mod 256)]
   else
     "v6" :: [if (g =? 1)%nat then hex2 s else (hex2 (s / 256) +:+ hex2 (s mod 256))%string]) ++
  match o with None => [] | Some n => [octetStr ver n] end.

Definition shard_file (ver s : Z) (o : option Z) : string := String.concat "_" (name_fields ver s o).

(** The id of base shard [s]. *)
Definition shard_id (ver s : Z) : Z := if ver =? 4 then s else Z.lor s v6ShardBit.

End Names.

(** ** Lemmas *)

Definition no_sep (s : string) : bool := str_forallb (fun c => negb (Ascii.eqb c "_")) s.

Lemma split_on_none s : no_sep s = true -> split_on "_" s = [s].
Proof.
  unfold no_sep. induction s as [|c s IH]; [done|]. cbn [str_forallb split_on]. intros [Hc Hs]%andb_true_iff.
  apply negb_true_iff in Hc. by rewrite Hc, IH.
Qed.

Lemma split_on_app a b : no_sep a = true -> split_on "_" (a +:+ String "_" b) = a :: split_on "_" b.
Proof.
  unfold no_sep. induction a as [|c a IH]; [done|]. cbn [str_forallb String.append split_on]. intros [Hc Hs]%andb_true_iff.
  apply negb_true_iff in Hc. by rewrite Hc, IH.
Qed.

Lemma split_concat l : l <> [] -> Forall (fun s => no_sep s = true) l -> split_on "_" (String.concat "_" l) = l.
Proof.
  induction l as [|a l IH]; [done|]. intros _ [Ha Hl]%Forall_cons. destruct l as [|b l]; [by apply split_on_none|].
  change (String.concat "_" (a :: b :: l)) with (a +:+ String "_" (String.concat "_" (b :: l))).
  by rewrite split_on_app, IH.
Qed.

Lemma no_sep_dec n : 0 <= n -> no_sep (dec n) = true.
Proof.
  intros Hn. eapply str_forallb_impl; [|by apply dec_digits]. intros c Hc. apply negb_true_iff.
  destruct (Ascii.eqb_spec c "_") as [->|]; [done|done].
Qed.

Lemma no_sep_hex b : no_sep (hex_encode b) = true.
Proof.
  eapply str_forallb_impl; [|by apply hex_encode_chars]. intros c Hc. apply negb_true_iff.
  destruct (Ascii.eqb_spec c "_") as [->|]; [done|done].
Qed.

Lemma dec_inj n m : 0 <= n -> 0 <= m -> dec n = dec m -> n = m.
Proof. intros Hn Hm E. rewrite <- (dec_val_dec n), <- (dec_val_dec m) by done. by rewrite E. Qed.

Lemma hex2_inj n m : 0 <= n < 256 -> 0 <= m < 256 -> hex2 n = hex2 m -> n = m.
Proof.
  intros Hn Hm E. apply hex_encode_inj in E. injection E as E. apply (f_equal bval) in E. rewrite !bval_byte_of in E.
  rewrite !Z.mod_small in E; lia.
Qed.

Lemma octetStr_inj ver n m : 0 <= n < 256 -> 0 <= m < 256 -> octetStr ver n = octetStr ver m -> n = m.
Proof. unfold octetStr. intros Hn Hm. destruct (ver =? 4); [apply dec_inj; lia|by apply hex2_inj]. Qed.

(** All the bit operations on shard ids, for every id. *)
Lemma shard_id_bits s : 0 <= s < 65536 ->
  Z.land s v6ShardBit = 0 /\ Z.ldiff s v6ShardBit = s /\ Z.land (Z.lor s v6ShardBit) v6ShardBit <> 0 /\
  Z.ldiff (Z.lor s v6ShardBit) v6ShardBit = s /\ Z.land s 255 = s mod 256 /\
  Z.land (Z.shiftr s 8) 255 = s / 256.
Proof.
  intros Hs. assert (Hbit : Z.land s v6ShardBit = 0).
  { apply Z.bits_inj'. intros i Hi. rewrite Z.land_spec, Z.bits_0. change v6ShardBit with (2 ^ 16).
    rewrite Z.pow2_bits_eqb by lia. destruct (Z.eqb_spec 16 i) as [<-|]; [|by rewrite andb_false_r].
    rewrite <- (Z.mod_small s (2 ^ 16)) by lia. by rewrite Z.mod_pow2_bits_high by lia. }
  assert (Hdiff : Z.ldiff s v6ShardBit = s).
  { apply Z.bits_inj'. intros i Hi. rewrite Z.ldiff_spec. apply (f_equal (fun z => Z.testbit z i)) in Hbit.
    rewrite Z.land_spec, Z.bits_0 in Hbit. by destruct (Z.testbit s i), (Z.testbit v6ShardBit i). }
  split; [done|]. split; [done|]. split.
  { rewrite Z.land_lor_distr_l, Hbit. done. }
  split.
  { rewrite <- Hdiff at 2. apply Z.bits_inj'. intros i Hi. rewrite !Z.ldiff_spec, Z.lor_spec.
    by destruct (Z.testbit s i), (Z.testbit v6ShardBit i). }
  change 255 with (Z.ones 8). rewrite !Z.land_ones, Z.shiftr_div_pow2 by lia. change (2 ^ 8) with 256.
  split; [done|]. apply Z.mod_small. split; [apply Z.div_pos; lia|apply Z.div_lt_upper_bound; lia].
Qed.

Lemma concat_snoc l x : l <> [] -> String.concat "_" (l ++ [x]) = (String.concat "_" l +:+ "_" +:+ x)%string.
Proof.
  induction l as [|a l IH]; [done|]. intros _. destruct l as [|b l]; [done|].
  change (String.concat "_" ((a :: b :: l) ++ [x])) with (a +:+ "_" +:+ String.concat "_" ((b :: l) ++ [x]))%string.
  change (String.concat "_" (a :: b :: l)) with (a +:+ "_" +:+ String.concat "_" (b :: l))%string.
  rewrite IH by done. by rewrite !str_app_assoc.
Qed.

Section Inj.

Variable g : nat.
Hypothesis Hg : g = 1%nat \/ g = 2%nat.

Lemma shard_width s : 0 <= s < 256 ^ Z.of_nat g -> 0 <= s < 65536 /\ (g = 1%nat -> s < 256).
Proof. destruct Hg as [->| ->]; [change (256 ^ Z.of_nat 1) with 256|change (256 ^ Z.of_nat 2) with 65536]; lia. Qed.

Lemma shard_name_file ver s : 0 <= s < 256 ^ Z.of_nat g -> shardName g (shard_id ver s) = shard_file g ver s None.
Proof.
  intros Hs. destruct (shard_width s Hs) as [Hw H1]. destruct (shard_id_bits s Hw) as (B1 & B2 & B3 & B4 & B5 & B6).
  unfold shardName, shard_id, shard_file, name_fields. rewrite app_nil_r.
  destruct (ver =? 4).
  - rewrite B1, B2, B5, B6. change (0 =? 0) with true. cbn [negb andb].
    destruct (Nat.eqb_spec g 1) as [->|]; [|done]. rewrite Z.mod_small by lia. done.
  - apply Z.eqb_neq in B3. rewrite B3, B4, B5, B6. cbn [negb andb].
    destruct (Nat.eqb_spec g 1) as [->|]; [|done]. rewrite Z.mod_small by lia. done.
Qed.

Lemma fine_name_file ver s n :
  (shard_file g ver s None +:+ "_" +:+ octetStr ver n)%string = shard_file g ver s (Some n).
Proof.
  unfold shard_file, name_fields. rewrite app_nil_r, concat_snoc; [done|]. by destruct (ver =? 4).
Qed.

Definition octet_ok (o : option Z) : Prop := match o with None => True | Some n => 0 <= n < 256 end.

Lemma name_fields_ok ver s o : 0 <= s < 256 ^ Z.of_nat g -> octet_ok o ->
  name_fields g ver s o <> [] /\ Forall (fun f => no_sep f = true) (name_fields g ver s o).
Proof.
  intros Hs Ho. unfold name_fields. split; [by destruct (ver =? 4)|]. apply Forall_app. split.
  - pose proof (Z.mod_pos_bound s 256 ltac:(lia)). pose proof (Z.div_pos s 256 ltac:(lia) ltac:(lia)).
    destruct (ver =? 4); (apply Forall_cons; split; [done|]).
    + destruct (g =? 1)%nat; repeat (apply Forall_cons; split); try apply Forall_nil; try apply no_sep_dec; lia || done.
    + apply Forall_singleton. destruct (g =? 1)%nat; [apply no_sep_hex|].
      unfold no_sep. rewrite str_forallb_app. unfold hex2. by rewrite !(no_sep_hex : forall b, str_forallb _ _ = true).
  - destruct o as [n|]; [|done]. apply Forall_singleton. unfold octetStr. cbn in Ho.
    destruct (ver =? 4); [apply no_sep_dec; lia|apply no_sep_hex].
Qed.

Lemma shard_file_inj ver s o ver' s' o' :
  0 <= s < 256 ^ Z.of_nat g -> 0 <= s' < 256 ^ Z.of_nat g -> octet_ok o -> octet_ok o' ->
  shard_file g ver s o = shard_file g ver' s' o' -> (ver =? 4) = (ver' =? 4) /\ s = s' /\ o = o'.
Proof.
  intros Hs Hs' Ho Ho' E. destruct (name_fields_ok ver s o Hs Ho) as [N1 N2].
  destruct (name_fields_ok ver' s' o' Hs' Ho') as [N1' N2']. apply (f_equal (split_on "_")) in E.
  unfold shard_file in E. rewrite !split_concat in E by done. clear N1 N2 N1' N2'.
  destruct (shard_width s Hs) as [Hw H1]. destruct (shard_width s' Hs') as [Hw' H1'].
  pose proof (Z.div_mod s 256 ltac:(lia)). pose proof (Z.div_mod s' 256 ltac:(lia)).
  pose proof (Z.mod_pos_bound s 256 ltac:(lia)). pose proof (Z.mod_pos_bound s' 256 ltac:(lia)).
  assert (Hhi : 0 <= s / 256 < 256) by div_lia. assert (Hhi' : 0 <= s' / 256 < 256) by div_lia.
  unfold name_fields in E.
  assert (Htail : (ver =? 4) = (ver' =? 4) ->
    match o with None => [] | Some n => [octetStr ver n] end = match o' with None => [] | Some n => [octetStr ver' n] end -> o = o').
  { intros Ev Eo. destruct o as [a|], o' as [b|]; try discriminate; [|done]. apply cons_eq_inj in Eo as [Eo _]. f_equal.
    apply (octetStr_inj ver); [done|done|]. unfold octetStr in *. by rewrite Ev in *. }
  destruct (ver =? 4) eqn:Ev, (ver' =? 4) eqn:Ev'; cbn [app] in E; [|discriminate|discriminate|]; split; try done;
    specialize (Htail eq_refl); destruct (Nat.eqb_spec g 1) as [G|G]; cbn [app] in E.
  - apply cons_eq_inj in E as [_ [Es Eo]%cons_eq_inj]. apply dec_inj in Es; [|lia..]. by split; [|apply Htail].
  - apply cons_eq_inj in E as [_ [Es [Es2 Eo]%cons_eq_inj]%cons_eq_inj]. apply dec_inj in Es; [|lia..]. apply dec_inj in Es2; [|lia..].
    split; [lia|by apply Htail].
  - apply cons_eq_inj in E as [_ [Es Eo]%cons_eq_inj]. specialize (H1 G). specialize (H1' G). apply hex2_inj in Es; [|lia..].
    by split; [|apply Htail].
  - apply cons_eq_inj in E as [_ [Es Eo]%cons_eq_inj]. apply str_app_inj_len in Es as [Es Es2]; [|done].
    apply hex2_inj in Es; [|lia..]. apply hex2_inj in Es2; [|lia..]. split; [lia|by apply Htail].
Qed.

Lemma shard_file_ne ver s o : shard_file g ver s o <> "".
Proof. unfold shard_file, name_fields. destruct (ver =? 4), (g =? 1)%nat; done. Qed.

End Inj.
