(* ===== verification/ReverseIPLookup.v ===== *)
(** The two reverse indexes answer alike: what build-ip and build-ip-sharded
    write, and what a lookup in each of them prints. *)

From S2P Require Import Prelude GoStd Order Netip Sha256 LogClient ReverseIP IpKeys IpNames.

(** ** Lemmas *)

(** *** Sort, then unique *)

#[local] Abbreviation pair_lt := (lt_of ip_domain_cmp).

#[export] Instance ip_domain_compare : CompareEq (bytes * string) ip_domain_cmp.
Proof. apply pair_compare_eq; apply _. Qed.

#[export] Instance fresh_compare : Compare rev_row fresh_cmp.
Proof. apply by_key_compare, pair_compare; apply _. Qed.

#[export] Instance shard_compare : Compare (string * rev_row) shard_cmp.
Proof. apply pair_compare; apply _. Qed.

(** A row's fetch time is not before another's; NULL is before all. *)
Definition at_least_as_fresh (a b : option Z) : Prop := le_of (null_cmp Z.compare) b a.

Lemma fresh_le_pair r r' : le_of fresh_cmp r r' -> le_of ip_domain_cmp (pair_of r) (pair_of r').
Proof.
  unfold le_of, fresh_cmp, by_key, pair_cmp at 1, fresh_key. cbn [fst snd]. intros H%then_cmp_ngt.
  destruct H as [H|[H _]]; congruence.
Qed.

Lemma fresh_le_fetched r r' : le_of fresh_cmp r r' -> pair_of r = pair_of r' -> at_least_as_fresh (rv_fetched r) (rv_fetched r').
Proof.
  unfold le_of, fresh_cmp, by_key, pair_cmp at 1, fresh_key. cbn [fst snd]. intros H%then_cmp_ngt E.
  rewrite E, (cmp_refl ip_domain_cmp) in H. by destruct H as [H|[_ H]].
Qed.

(** The rows of [out] are one per pair of [rows], the freshest one. *)
Record unique_rows (rows out : list rev_row) : Prop := {
  un_sorted : StronglySorted pair_lt (map pair_of out);
  un_rows : forall r, r ∈ out -> r ∈ rows /\ forall r', r' ∈ rows -> pair_of r' = pair_of r -> at_least_as_fresh (rv_fetched r) (rv_fetched r');
  un_pairs : forall r, r ∈ rows -> exists r', r' ∈ out /\ pair_of r' = pair_of r }.

(** What follows a row that was written or dropped. *)
Lemma emit_after prev rows :
  StronglySorted (le_of fresh_cmp) rows -> (forall r, r ∈ rows -> le_of ip_domain_cmp prev (pair_of r)) ->
  let out := emit (Some prev) rows in
  StronglySorted pair_lt (map pair_of out) /\
  (forall r, r ∈ out -> pair_lt prev (pair_of r) /\ r ∈ rows /\
     forall r', r' ∈ rows -> pair_of r' = pair_of r -> at_least_as_fresh (rv_fetched r) (rv_fetched r')) /\
  (forall r, r ∈ rows -> pair_of r = prev \/ exists r', r' ∈ out /\ pair_of r' = pair_of r).
Proof.
  intros Hs. revert prev. induction Hs as [|r rows Hs IH Hr]; intros prev Hle; cbn zeta; cbn [emit].
  { split; [constructor|]. split; by intros r ?%elem_of_nil. }
  rewrite Forall_forall in Hr. unfold dup. case_bool_decide as E.
  - injection E as E. destruct (IH prev) as (I1 & I2 & I3); [intros r' Hr'; apply Hle; by right|].
    split; [done|]. split.
    + intros x Hx. destruct (I2 x Hx) as (A & B & D). split; [done|]. split; [by right|].
      intros r' [->|Hr']%elem_of_cons Ep; [|by apply D]. rewrite <- Ep, <- E in A. by apply (lt_irrefl ip_domain_cmp) in A.
    + intros x [->|Hx]%elem_of_cons; [by left|]. by apply I3.
  - assert (Hlt : pair_lt prev (pair_of r)).
    { assert (H1 : le_of ip_domain_cmp prev (pair_of r)) by (apply Hle; by left).
      unfold lt_of, le_of in *. destruct (ip_domain_cmp prev (pair_of r)) eqn:Ec; [|done|done].
      apply (cmp_eq (cmp := ip_domain_cmp)) in Ec. by rewrite Ec in E. }
    destruct (IH (pair_of r)) as (I1 & I2 & I3); [intros r' Hr'; by apply fresh_le_pair, Hr|].
    split; [|split].
    + cbn [map]. constructor; [done|]. apply Forall_forall. intros q (x & -> & Hx)%list_elem_of_fmap. by apply I2.
    + intros x [->|Hx]%elem_of_cons.
      * split; [done|]. split; [by left|]. intros r' [->|Hr']%elem_of_cons Ep; [by apply (le_of_preorder (null_cmp Z.compare))|].
        apply fresh_le_fetched; [by apply Hr|done].
      * destruct (I2 x Hx) as (A & B & D). split; [|split; [by right|]].
        -- eapply (lt_le_trans ip_domain_cmp); [exact Hlt|by apply lt_le].
        -- intros r' [->|Hr']%elem_of_cons Ep; [|by apply D]. rewrite Ep in A. by apply (lt_irrefl ip_domain_cmp) in A.
    + intros x [->|Hx]%elem_of_cons; [right; exists r; split; [by left|done]|].
      destruct (I3 x Hx) as [Ex|(x' & Hx' & Ex)]; right; [exists r; split; [by left|done]|exists x'; split; [by right|done]].
Qed.

Lemma emit_unique rows : StronglySorted (le_of fresh_cmp) rows -> unique_rows rows (emit None rows).
Proof.
  intros Hs. destruct rows as [|r rows]; [split; [constructor|by intros r ?%elem_of_nil..]|].
  apply StronglySorted_inv in Hs as [Hs Hr]. rewrite Forall_forall in Hr. cbn [emit]. unfold dup. rewrite bool_decide_false by done.
  destruct (emit_after (pair_of r) rows Hs) as (I1 & I2 & I3); [intros r' Hr'; by apply fresh_le_pair, Hr|].
  split.
  - cbn [map]. constructor; [done|]. apply Forall_forall. intros q (x & -> & Hx)%list_elem_of_fmap. by apply I2.
  - intros x [->|Hx]%elem_of_cons.
    + split; [by left|]. intros r' [->|Hr']%elem_of_cons Ep; [by apply (le_of_preorder (null_cmp Z.compare))|].
      apply fresh_le_fetched; [by apply Hr|done].
    + destruct (I2 x Hx) as (A & B & D). split; [by right|].
      intros r' [->|Hr']%elem_of_cons Ep; [|by apply D]. rewrite Ep in A. by apply (lt_irrefl ip_domain_cmp) in A.
  - intros x [->|Hx]%elem_of_cons; [exists r; split; [by left|done]|].
    destruct (I3 x Hx) as [Ex|(x' & Hx' & Ex)]; [exists r; split; [by left|done]|exists x'; split; [by right|done]].
Qed.

Lemma unique_perm rows rows' out : rows ≡ₚ rows' -> unique_rows rows out -> unique_rows rows' out.
Proof.
  intros Hp [H1 H2 H3]. split; [done| |].
  - intros r Hr. destruct (H2 r Hr) as [A B]. rewrite Hp in A. split; [done|]. intros r' Hr'. apply B. by rewrite Hp.
  - intros r Hr. apply H3. by rewrite Hp.
Qed.

(** *** The fan-out *)

Definition part (n : string) (rows : list (string * rev_row)) : list rev_row := map snd (filter (fun x => x.1 = n) rows).

Definition shard_le (x y : string * rev_row) : Prop := le_of text_cmp x.1 y.1.

Lemma part_cons n x rows : part n (x :: rows) = if decide (x.1 = n) then x.2 :: part n rows else part n rows.
Proof. unfold part. rewrite filter_cons. by destruct (decide _). Qed.

Lemma part_none n rows : (forall x, x ∈ rows -> x.1 <> n) -> part n rows = [].
Proof.
  intros Hn. induction rows as [|x rows IH]; [done|]. rewrite part_cons, decide_False by (apply Hn; by left).
  apply IH. intros y Hy. apply Hn. by right.
Qed.

(** The file [n] after the rest of the loop. *)
Definition file_after (rows : list (string * rev_row)) (files : gmap string (list rev_row)) (cur : string)
    (prev : option (bytes * string)) (n : string) : option (list rev_row) :=
  if decide (n = cur) then
    match emit prev (part n rows) with [] => files !! n | out => Some (default [] (files !! n) ++ out) end
  else match part n rows with [] => files !! n | rs => Some (emit None rs) end.

Lemma fan_out_spec rows files cur prev :
  StronglySorted shard_le rows -> (forall x, x ∈ rows -> le_of text_cmp cur x.1) ->
  forall n, fan_out rows files cur prev !! n = file_after rows files cur prev n.
Proof.
  intros Hs. revert files cur prev. induction Hs as [|[shard r] rows Hs IH Hx]; intros files cur prev Hle n; cbn [fan_out].
  { unfold file_after. cbn. by destruct (decide (n = cur)). }
  rewrite Forall_forall in Hx. unfold shard_le in Hx. cbn [fst] in Hx.
  destruct (String.eqb_spec shard cur) as [->|Hne].
  - assert (Hstep : forall files prev, fan_out rows files cur prev !! n = file_after rows files cur prev n)
      by (intros; by apply IH).
    destruct (dup prev r) eqn:Ed; rewrite Hstep; unfold file_after; rewrite part_cons; cbn [fst snd];
      (destruct (decide (n = cur)) as [->|Hn]; [rewrite decide_True by done|rewrite decide_False by done]); cbn [emit]; rewrite ?Ed.
    + done.
    + done.
    + rewrite lookup_insert_eq. destruct (emit (Some (pair_of r)) (part cur rows)) as [|y out]; cbn; [done|].
      by rewrite <- (assoc_L (++)).
    + by rewrite lookup_insert_ne.
  - assert (Hlt : lt_of text_cmp cur shard).
    { assert (H1 : le_of text_cmp cur shard) by (apply (Hle (shard, r)); by left). unfold lt_of, le_of in *.
      destruct (text_cmp cur shard) eqn:E; [|done|done]. apply (cmp_eq (cmp := text_cmp)) in E. by destruct Hne. }
    assert (Hcur : part cur rows = []).
    { apply part_none. intros x Hin E. apply (lt_irrefl text_cmp cur). eapply (lt_le_trans text_cmp); [done|]. rewrite <- E. by apply Hx. }
    cbn [dup]. unfold dup. rewrite bool_decide_false by done. rewrite IH by done. unfold file_after. rewrite part_cons. cbn [fst snd].
    rewrite lookup_insert_eq. cbn [default].
    destruct (decide (n = shard)) as [->|Hn].
    + rewrite (decide_False (P := shard = cur)), (decide_True (P := shard = shard)) by done.
      cbn [emit]. unfold dup. rewrite bool_decide_false by done. rewrite lookup_insert_eq. cbn.
      by destruct (emit _ (part shard rows)).
    + rewrite (decide_False (P := shard = n)) by congruence. rewrite !lookup_insert_ne by congruence.
      destruct (decide (n = cur)) as [->|Hc]; [|done]. by rewrite Hcur.
Qed.

(** After the whole loop a shard's file holds its rows, sorted and unique; the
    other files are as they were. *)
Lemma fan_out_files rows files n :
  StronglySorted shard_le rows -> (forall x, x ∈ rows -> x.1 <> "") -> n <> "" ->
  fan_out rows files "" None !! n = match part n rows with [] => files !! n | rs => Some (emit None rs) end.
Proof.
  intros Hs Hne Hn. rewrite fan_out_spec; [|done|].
  - unfold file_after. by rewrite decide_False.
  - intros x _. unfold le_of, text_cmp. cbn. by destruct (list_ascii_of_string x.1).
Qed.

Lemma shard_cmp_le x y : le_of shard_cmp x y -> shard_le x y /\ (x.1 = y.1 -> le_of fresh_cmp x.2 y.2).
Proof.
  unfold shard_le, le_of, shard_cmp, pair_cmp at 1. intros H%then_cmp_ngt. split.
  - destruct H as [H|[H _]]; congruence.
  - intros E. rewrite E, (cmp_refl text_cmp) in H. by destruct H as [H|[_ H]].
Qed.

Lemma sorted_impl {A} (R R' : A -> A -> Prop) l : (forall x y, R x y -> R' x y) -> StronglySorted R l -> StronglySorted R' l.
Proof. intros Hi. induction 1 as [|x l H IH Hx]; constructor; [done|]. eapply Forall_impl; [done|]. auto. Qed.

Lemma part_sorted n rows : StronglySorted (le_of shard_cmp) rows -> StronglySorted (le_of fresh_cmp) (part n rows).
Proof.
  induction 1 as [|x rows Hs IH Hx]; [constructor|]. rewrite part_cons. destruct (decide (x.1 = n)) as [E|]; [|done].
  constructor; [done|]. rewrite Forall_forall in Hx. apply Forall_forall. intros r (y & -> & Hy)%list_elem_of_fmap.
  apply list_elem_of_filter in Hy as [Ey Hy]. apply (shard_cmp_le x y); [by apply Hx|congruence].
Qed.

Lemma elem_of_part n rows r : r ∈ part n rows <-> (n, r) ∈ rows.
Proof.
  unfold part. rewrite list_elem_of_fmap. split.
  - intros ([m x] & -> & [E Hx]%list_elem_of_filter). cbn in *. by subst m.
  - intros Hr. exists (n, r). split; [done|]. by apply list_elem_of_filter.
Qed.

(** The file of shard [n] once the staged rows are written. *)
Definition shard_table (shard : rev_row -> string) (staged : list rev_row) (n : string) : list rev_row :=
  emit None (part n (sort_by shard_cmp (map (fun r => (shard r, r)) staged))).

Lemma shard_table_unique shard staged n :
  unique_rows (filter (fun r => shard r = n) staged) (shard_table shard staged n).
Proof.
  unfold shard_table. set (rows := sort_by shard_cmp _).
  assert (Hp : unique_rows (part n rows) (emit None (part n rows))) by (apply emit_unique, part_sorted, sort_by_sorted; apply _).
  assert (Hin : forall r, r ∈ part n rows <-> r ∈ filter (fun r => shard r = n) staged).
  { intros r. rewrite elem_of_part. unfold rows. rewrite elem_of_sort_by, list_elem_of_fmap, list_elem_of_filter. naive_solver. }
  destruct Hp as [H1 H2 H3]. split; [done| |].
  - intros r Hr. destruct (H2 r Hr) as [A B]. rewrite Hin in A. split; [done|]. intros r' Hr'. apply B. by rewrite Hin.
  - intros r Hr. apply H3. by rewrite Hin.
Qed.

Lemma sharded_files shard staged files n :
  (forall r, r ∈ staged -> shard r <> "") -> n <> "" ->
  fan_out (sort_by shard_cmp (map (fun r => (shard r, r)) staged)) files "" None !! n =
  match shard_table shard staged n with [] => files !! n | t => Some t end.
Proof.
  intros Hs Hn. rewrite fan_out_files; [|..|done].
  - unfold shard_table. destruct (part n _) as [|r rs] eqn:E; [done|]. cbn [emit]. unfold dup. by rewrite bool_decide_false.
  - eapply sorted_impl; [|apply sort_by_sorted; apply _]. intros x y H. by apply shard_cmp_le.
  - intros x. rewrite elem_of_sort_by. intros (r & -> & Hr)%list_elem_of_fmap. by apply Hs.
Qed.

(** *** Selecting a range *)

#[export] Instance pair_key_compare : Compare rev_row (by_key pair_of ip_domain_cmp).
Proof. apply by_key_compare; apply _. Qed.

Lemma sorted_pairs_filter (P : rev_row -> Prop) `{!forall r, Decision (P r)} rows :
  StronglySorted pair_lt (map pair_of rows) -> StronglySorted pair_lt (map pair_of (filter P rows)).
Proof.
  induction rows as [|r rows IH]; [done|]. cbn [map]. intros [Hs Hr]%StronglySorted_inv.
  rewrite filter_cons. destruct (decide (P r)); [|by apply IH]. cbn [map]. constructor; [by apply IH|].
  rewrite Forall_forall in Hr. apply Forall_forall. intros q (x & -> & [_ Hx]%list_elem_of_filter)%list_elem_of_fmap. apply Hr.
  by apply list_elem_of_fmap_2.
Qed.

Lemma sorted_by_pair rows : StronglySorted pair_lt (map pair_of rows) -> StronglySorted (lt_of (by_key pair_of ip_domain_cmp)) rows.
Proof.
  induction rows as [|r rows IH]; cbn [map]; intros Hs; [constructor|]. apply StronglySorted_inv in Hs as [Hs Hr].
  constructor; [by apply IH|]. rewrite Forall_forall in Hr. apply Forall_forall. intros x Hx. by apply Hr, list_elem_of_fmap_2.
Qed.

(** A table that is sorted already is selected from in its order. *)
Lemma select_range_sorted lo hi table :
  StronglySorted pair_lt (map pair_of table) ->
  select_range lo hi table = map snd (map pair_of (filter (fun r => between lo hi (rv_ip r)) table)).
Proof.
  intros Hs. unfold select_range. rewrite (sort_by_id (by_key pair_of ip_domain_cmp)) by (by apply sorted_by_pair, sorted_pairs_filter). by rewrite map_map.
Qed.

(** The pairs of the staged rows in a range, in order: what a lookup prints is
    their domains. *)
Record range_pairs (lo hi : bytes) (staged : list rev_row) (ps : list (bytes * string)) : Prop := {
  rp_sorted : StronglySorted pair_lt ps;
  rp_elem : forall k d, (k, d) ∈ ps <-> between lo hi k /\ exists r, r ∈ staged /\ pair_of r = (k, d) }.

Lemma range_pairs_unique lo hi staged ps qs : range_pairs lo hi staged ps -> range_pairs lo hi staged qs -> ps = qs.
Proof.
  intros [P1 P2] [Q1 Q2]. apply (strict_unique ip_domain_cmp); [done..|]. intros [k d]. by rewrite P2, Q2.
Qed.

Lemma unique_range lo hi staged table :
  unique_rows staged table -> range_pairs lo hi staged (map pair_of (filter (fun r => between lo hi (rv_ip r)) table)).
Proof.
  intros [U1 U2 U3]. split; [by apply sorted_pairs_filter|]. intros k d. rewrite list_elem_of_fmap. split.
  - intros (r & [= -> ->] & [Hb Hr]%list_elem_of_filter). split; [done|]. exists r. split; [|done]. by apply U2.
  - intros [Hb (r & Hr & [= <- <-])]. destruct (U3 r Hr) as (r' & Hr' & E). exists r'. split; [done|].
    apply list_elem_of_filter. split; [|done]. unfold pair_of in E. by injection E as -> _.
Qed.

(** *** Routes: the shards of a query in key order *)

Lemma elem_of_concat_map {A B} (f : A -> list B) l x : x ∈ concat (map f l) <-> exists a, a ∈ l /\ x ∈ f a.
Proof.
  induction l as [|a l IH]; cbn; [split; [by intros ?%elem_of_nil|by intros (a & ?%elem_of_nil & _)]|].
  rewrite elem_of_app, IH. split.
  - intros [Hx|(b & Hb & Hx)]; [exists a; split; [by left|done]|exists b; split; [by right|done]].
  - intros (b & [->|Hb]%elem_of_cons & Hx); [by left|right; by exists b].
Qed.

Lemma sorted_concat {A B} (S : A -> A -> Prop) (R : B -> B -> Prop) (f : A -> list B) l :
  StronglySorted S l -> (forall a, a ∈ l -> StronglySorted R (f a)) ->
  (forall a b, S a b -> forall x y, x ∈ f a -> y ∈ f b -> R x y) -> StronglySorted R (concat (map f l)).
Proof.
  induction 1 as [|a l Hs IH Ha]; intros Hf HR; [constructor|]. cbn [map concat].
  apply StronglySorted_app_2; [| |apply IH; [intros b Hb; apply Hf; by right|done]].
  - intros x y Hx (b & Hb & Hy)%elem_of_concat_map. rewrite Forall_forall in Ha. apply (HR a b); [by apply Ha|done|done].
  - apply Hf. by left.
Qed.

Lemma sorted_seqZ a n : StronglySorted Z.lt (seqZ a n).
Proof.
  destruct (Z.le_gt_cases n 0) as [Hn|Hn]; [rewrite seqZ_nil by done; constructor|].
  revert a. apply (natlike_ind (fun n => forall a, StronglySorted Z.lt (seqZ a n))); [constructor| |lia].
  intros m Hm IH a. rewrite seqZ_cons by lia. replace (Z.pred (Z.succ m)) with m by lia. constructor; [apply IH|].
  apply Forall_forall. intros x Hx%elem_of_seqZ. lia.
Qed.

Definition route : Type := Z * option Z.

Definition route_lt (a b : route) : Prop := a.1 < b.1 \/ a.1 = b.1 /\ exists n m, a.2 = Some n /\ b.2 = Some m /\ n < m.

(** A query's bounds, for keys of one family. *)
Record bounds_ok (ver : Z) (lo hi : bytes) : Prop := {
  bo_lo : length lo = 16%nat /\ in_family ver lo;
  bo_hi : length hi = 16%nat /\ in_family ver hi;
  bo_range : forall k, length k = 16%nat -> between lo hi k -> mapped k = (ver =? 4) }.

Section Routes.

Variable g : nat.
Hypothesis Hg : g = 1%nat \/ g = 2%nat.
Variable split : gset string.
Variable ver : Z.
Hypothesis Hver : ver = 4 \/ ver = 6.
Variables lo hi : bytes.
Hypothesis Hb : bounds_ok ver lo hi.

#[local] Abbreviation pre k := (shardPrefixInt g k ver).

Definition oct_lo (s : Z) : Z := if s =? pre lo then next_octet g lo ver else 0.
Definition oct_hi (s : Z) : Z := if s =? pre hi then next_octet g hi ver else 255.

Definition routes_of (s : Z) : list route :=
  if decide (shard_file g ver s None ∈ split)
  then map (fun n => (s, Some n)) (seqZ (oct_lo s) (oct_hi s - oct_lo s + 1)) else [(s, None)].

Definition routes : list route := concat (map routes_of (seqZ (pre lo) (pre hi - pre lo + 1))).

Lemma routes_sorted : StronglySorted route_lt routes.
Proof.
  eapply (sorted_concat Z.lt); [apply sorted_seqZ| |].
  - intros s _. unfold routes_of. destruct (decide _); [|repeat constructor].
    eapply (StronglySorted_fmap _ Z.lt); [|apply sorted_seqZ].
    intros n m Hnm. right. split; [done|]. by exists n, m.
  - intros a b Hab x y Hx Hy. left. assert (Hfst : forall s r, r ∈ routes_of s -> r.1 = s).
    { intros s r. unfold routes_of. destruct (decide _); [intros (n & -> & _)%list_elem_of_fmap|intros ->%list_elem_of_singleton]; done. }
    by rewrite (Hfst a x Hx), (Hfst b y Hy).
Qed.

(** The route of a key. *)
Definition route_of (k : bytes) : route :=
  (pre k, if decide (shard_file g ver (pre k) None ∈ split) then Some (next_octet g k ver) else None).

Definition key_in (k : bytes) : Prop := length k = 16%nat /\ between lo hi k.

Lemma key_in_family k : key_in k -> in_family ver k.
Proof. intros [Hk Hr] E. pose proof (bo_range _ _ _ Hb k Hk Hr) as Hm. rewrite E in Hm. by apply bool_decide_eq_true in Hm. Qed.

Lemma route_in k : key_in k -> route_of k ∈ routes.
Proof.
  intros Hk. pose proof (key_in_family k Hk) as Hf. destruct Hk as [Hk [Hlo Hhi]].
  destruct (bo_lo _ _ _ Hb) as [L1 L2]. destruct (bo_hi _ _ _ Hb) as [H1 H2].
  apply elem_of_concat_map. exists (pre k). split.
  - apply elem_of_seqZ.
    pose proof (shard_mono g Hg lo k ver L1 Hk L2 Hf Hlo). pose proof (shard_mono g Hg k hi ver Hk H1 Hf H2 Hhi). lia.
  - unfold route_of, routes_of. destruct (decide _); [|by left].
    apply (list_elem_of_fmap_2 (fun n => (pre k, Some n))), elem_of_seqZ. pose proof (octet_range g k ver) as Ho.
    assert (Hol : oct_lo (pre k) <= next_octet g k ver).
    { unfold oct_lo. destruct (Z.eqb_spec (pre k) (pre lo)) as [E|]; [|lia]. by apply (octet_mono g Hg lo k ver). }
    assert (Hoh : next_octet g k ver <= oct_hi (pre k)).
    { unfold oct_hi. destruct (Z.eqb_spec (pre k) (pre hi)) as [E|]; [|lia]. by apply (octet_mono g Hg k hi ver). }
    lia.
Qed.

Lemma route_lt_key k k' : key_in k -> key_in k' -> route_lt (route_of k) (route_of k') -> lt_of blob_cmp k k'.
Proof.
  intros Hk Hk' Hr. pose proof (key_in_family k Hk) as Hf. pose proof (key_in_family k' Hk') as Hf'.
  destruct Hk as [Hk _], Hk' as [Hk' _], Hr as [Hr|[E (n & m & En & Em & Hnm)]]; cbn [route_of fst snd] in *; [by apply (shard_lt g Hg k k' ver)|].
  apply (octet_lt g Hg k k' ver); [done..|]. destruct (decide _), (decide _); try done. congruence.
Qed.

End Routes.

(** *** A sharded lookup reads every pair of its range, in order *)

Section Sharded.

Variable g : nat.
Hypothesis Hg : g = 1%nat \/ g = 2%nat.
Variable split : gset string.
Variable staged : list rev_row.
Hypothesis Hstaged : forall r, r ∈ staged -> key_ok (rv_ip r) (rv_ver r).
Variable ver : Z.
Hypothesis Hver : ver = 4 \/ ver = 6.
Variables lo hi : bytes.
Hypothesis Hb : bounds_ok ver lo hi.

#[local] Abbreviation file ρ := (shard_file g ver ρ.1 ρ.2).
#[local] Abbreviation the_routes := (routes g split ver lo hi).
#[local] Abbreviation the_route := (route_of g split ver).

(** A row of the range is of the query's family, and in the file of its route. *)
Lemma row_file r : r ∈ staged -> between lo hi (rv_ip r) ->
  key_in lo hi (rv_ip r) /\ shard_of g split r = file (the_route (rv_ip r)).
Proof.
  intros Hr Hbt. destruct (Hstaged r Hr) as [Hl Hv]. split; [done|].
  pose proof (bo_range _ _ _ Hb _ Hl Hbt) as Hm. rewrite Hm in Hv.
  assert (Ev : rv_ver r = ver) by (rewrite Hv; destruct Hver as [->| ->]; done). clear Hv.
  pose proof (shard_prefix_range g Hg (rv_ip r) ver Hl) as Hs.
  assert (Hbase : base_of g r = shard_file g ver (shardPrefixInt g (rv_ip r) ver) None).
  { rewrite <- shard_name_file by done. unfold base_of, shardID, shard_id. rewrite Ev. by destruct (ver =? 4). }
  unfold shard_of, fine_of, fineName, route_of. cbn [fst snd]. rewrite Hbase, Ev, fine_name_file.
  destruct (decide _); [by rewrite bool_decide_true|by rewrite bool_decide_false].
Qed.

Lemma route_ok ρ : ρ ∈ the_routes -> 0 <= ρ.1 < 256 ^ Z.of_nat g /\ octet_ok ρ.2.
Proof.
  intros (s & Hs%elem_of_seqZ & Hρ)%elem_of_concat_map.
  destruct (bo_lo _ _ _ Hb) as [L1 L2]. destruct (bo_hi _ _ _ Hb) as [H1 H2].
  pose proof (shard_prefix_range g Hg lo ver L1). pose proof (shard_prefix_range g Hg hi ver H1).
  unfold routes_of in Hρ. destruct (decide _).
  - apply list_elem_of_fmap in Hρ as (n & -> & Hn%elem_of_seqZ). cbn. split; [lia|].
    pose proof (octet_range g lo ver). pose proof (octet_range g hi ver).
    assert (0 <= oct_lo g ver lo s) by (unfold oct_lo; destruct (_ =? _); lia).
    assert (oct_hi g ver hi s <= 255) by (unfold oct_hi; destruct (_ =? _); lia). lia.
  - apply list_elem_of_singleton in Hρ as ->. cbn. split; [lia|done].
Qed.

Lemma key_route_ok k : length k = 16%nat -> 0 <= (the_route k).1 < 256 ^ Z.of_nat g /\ octet_ok (the_route k).2.
Proof.
  intros Hk. split; [by apply shard_prefix_range|]. unfold route_of. cbn [snd].
  destruct (decide _); [apply octet_range|done].
Qed.

Definition route_pairs (ρ : route) : list (bytes * string) :=
  map pair_of (filter (fun r => between lo hi (rv_ip r)) (shard_table (shard_of g split) staged (file ρ))).

Lemma route_pairs_elem ρ k d : ρ ∈ the_routes -> (k, d) ∈ route_pairs ρ ->
  key_in lo hi k /\ the_route k = ρ /\ exists r, r ∈ staged /\ pair_of r = (k, d).
Proof.
  intros Hρ Hin. apply (unique_range lo hi _ _ (shard_table_unique _ staged (file ρ))) in Hin as [Hbt (r & [Ef Hr]%list_elem_of_filter & E)].
  assert (Ek : rv_ip r = k) by (by injection E). rewrite <- Ek in *.
  destruct (row_file r Hr Hbt) as [Hk Ef']. split; [done|]. split; [|by exists r].
  rewrite Ef' in Ef. destruct (route_ok ρ Hρ) as [R1 R2]. destruct (key_route_ok (rv_ip r)) as [K1 K2]; [apply Hk|].
  apply (shard_file_inj g Hg) in Ef as (_ & E1 & E2); [|done..]. destruct ρ, (the_route (rv_ip r)). cbn in *. congruence.
Qed.

Lemma sharded_range : range_pairs lo hi staged (concat (map route_pairs the_routes)).
Proof.
  assert (Hin : forall l, l ⊆ the_routes -> StronglySorted route_lt l -> StronglySorted pair_lt (concat (map route_pairs l))).
  { induction 2 as [|ρ l Hl IH Hρ]; [constructor|]. cbn [map concat]. apply StronglySorted_app_2.
    - intros [k d] [k' d'] Hx (ρ' & Hρ' & Hy)%elem_of_concat_map. rewrite Forall_forall in Hρ.
      apply route_pairs_elem in Hx as (K & E & _); [|set_solver]. apply route_pairs_elem in Hy as (K' & E' & _); [|set_solver].
      assert (Hlt : lt_of blob_cmp k k').
      { apply (route_lt_key g Hg split ver lo hi Hb); [done..|]. rewrite E, E'. by apply Hρ. }
      unfold lt_of in *. unfold ip_domain_cmp, pair_cmp. cbn. by rewrite Hlt.
    - apply sorted_pairs_filter, (un_sorted _ _ (shard_table_unique _ staged _)).
    - apply IH. set_solver. }
  split; [apply Hin; [done|by apply routes_sorted]|]. intros k d. rewrite elem_of_concat_map. split.
  - intros (ρ & Hρ & Hx). by apply route_pairs_elem in Hx as ([_ Hk] & _ & Hr).
  - intros [Hbt (r & Hr & E)]. assert (Ek : rv_ip r = k) by (by injection E). rewrite <- Ek in *.
    destruct (row_file r Hr Hbt) as [Hk Ef]. exists (the_route (rv_ip r)). split; [by apply route_in|].
    apply (unique_range lo hi _ _ (shard_table_unique _ staged (file (the_route (rv_ip r))))). split; [done|].
    exists r. split; [|congruence]. by apply list_elem_of_filter.
Qed.

End Sharded.
