(* ===== verification/IpRange.v ===== *)
(** The two keys a CIDR prefix stands between: [prefixRange] of cmd/reindex is
    exact, bit by bit. *)

From S2P Require Import Prelude GoStd Order Netip Sha256 LogClient ReverseIP IpKeys IpNames ReverseIPLookup.

(** ** Definitions *)

(** Bit [i] of a key, the most significant first. *)
Definition key_bit (k : bytes) (i : nat) : bool :=
  match k !! (i / 8)%nat with Some x => Z.testbit (bval x) (7 - Z.of_nat (i mod 8)) | None => false end.

(** The prefix's bits in the 16-byte form. *)
Definition prefix_bits (p : prefix) : Z := if Is4 (p_addr p) then p_bits p + 96 else p_bits p.

(** What ParsePrefix answers. *)
Record prefix_ok (p : prefix) : Prop := {
  px_bits : 0 <= p_bits p;
  px_addr : match p_addr p with V4 b => length b = 4%nat /\ p_bits p <= 32 | V6 b _ => length b = 16%nat /\ p_bits p <= 128 end }.

(** ** Lemmas *)

Lemma testbit_byte_of z t : 0 <= t < 8 -> Z.testbit (bval (byte_of z)) t = Z.testbit z t.
Proof. intros Ht. rewrite bval_byte_of. change 256 with (2 ^ 8). apply Z.mod_pow2_bits_low. lia. Qed.

Lemma key_bit_cons_low x b i : (i < 8)%nat -> key_bit (x :: b) i = Z.testbit (bval x) (7 - Z.of_nat i).
Proof. intros Hi. unfold key_bit. rewrite Nat.div_small, Nat.mod_small by done. done. Qed.

Lemma key_bit_cons_high x b i : key_bit (x :: b) (8 + i) = key_bit b i.
Proof.
  unfold key_bit. pose proof (Nat.div_mod_eq i 8). pose proof (Nat.mod_upper_bound i 8 ltac:(lia)).
  replace ((8 + i) / 8)%nat with (S (i / 8)) by (apply Nat.div_unique with (i mod 8)%nat; lia).
  by replace ((8 + i) mod 8)%nat with (i mod 8)%nat by (apply Nat.mod_unique with (S (i / 8)); lia).
Qed.

Lemma be_cons x b : be (x :: b) = bval x * 256 ^ blen b + be b.
Proof. change (x :: b) with ([x] ++ b). rewrite be_app. change (be [x]) with (bval x). done. Qed.

(** The bits of the number are those of the bytes. *)
Lemma be_testbit k i : (i < 8 * length k)%nat ->
  Z.testbit (be k) (Z.of_nat (8 * length k) - 1 - Z.of_nat i) = key_bit k i.
Proof.
  revert i. induction k as [|x k IH]; intros i Hi; [cbn in Hi; lia|]. rewrite be_cons.
  pose proof (be_bound k) as Hb. unfold blen in *. replace (256 ^ Z.of_nat (length k)) with (2 ^ Z.of_nat (8 * length k)) in *
    by (change 256 with (2 ^ 8); rewrite <- Z.pow_mul_r by lia; f_equal; lia).
  cbn [length] in *. destruct (decide (i < 8)%nat) as [Hlt|Hge].
  - rewrite key_bit_cons_low by done.
    replace (Z.of_nat (8 * S (length k)) - 1 - Z.of_nat i) with ((7 - Z.of_nat i) + Z.of_nat (8 * length k)) by lia.
    rewrite <- Z.div_pow2_bits by lia. rewrite Z.div_add_l by lia. rewrite Z.div_small by done. f_equal. lia.
  - replace i with (8 + (i - 8))%nat by lia. rewrite key_bit_cons_high, <- IH by lia.
    replace (Z.of_nat (8 * S (length k)) - 1 - Z.of_nat (8 + (i - 8))) with (Z.of_nat (8 * length k) - 1 - Z.of_nat (i - 8)) by lia.
    rewrite <- (Z.mod_pow2_bits_low _ (Z.of_nat (8 * length k))) by lia.
    rewrite Z.add_comm, Z.mod_add by lia. by rewrite Z.mod_small.
Qed.

(** *** Masking *)

Lemma mask_length bits b : length (mask_bytes bits b) = length b.
Proof. revert bits. induction b as [|x b IH]; intros bits; cbn; [done|]. by rewrite IH. Qed.

Lemma mask_testbit x j t : 0 <= j <= 8 -> 0 <= t < 8 ->
  Z.testbit (bval (byte_of (Z.land (bval x) (255 - Z.ones j)))) t = Z.testbit (bval x) t && (j <=? t).
Proof.
  intros Hj Ht. rewrite testbit_byte_of, Z.land_spec by done. f_equal.
  replace (255 - Z.ones j) with (Z.ldiff (Z.ones 8) (Z.ones j)).
  2: { assert (j = 0 \/ j = 1 \/ j = 2 \/ j = 3 \/ j = 4 \/ j = 5 \/ j = 6 \/ j = 7 \/ j = 8) as Hc by lia.
       destruct Hc as [-> | [-> | [-> | [-> | [-> | [-> | [-> | [-> | ->]]]]]]]]; reflexivity. }
  rewrite Z.ldiff_spec, !Z.testbit_ones_nonneg by lia.
  destruct (Z.ltb_spec t 8), (Z.ltb_spec t j), (Z.leb_spec j t); try lia; done.
Qed.

Lemma mask_bit bits b i : (i < 8 * length b)%nat -> key_bit (mask_bytes bits b) i = key_bit b i && (Z.of_nat i <? bits).
Proof.
  revert bits i. induction b as [|x b IH]; intros bits i Hi; [cbn in Hi; lia|]. cbn [mask_bytes length] in *.
  destruct (decide (i < 8)%nat) as [Hlt|Hge].
  - rewrite !key_bit_cons_low, mask_testbit by lia. f_equal.
    destruct (Z.leb_spec (8 - Z.min 8 (Z.max 0 bits)) (7 - Z.of_nat i)), (Z.ltb_spec (Z.of_nat i) bits); lia || done.
  - replace i with (8 + (i - 8))%nat by lia. rewrite !key_bit_cons_high, IH by lia. f_equal.
    destruct (Z.ltb_spec (Z.of_nat (i - 8)) (bits - 8)), (Z.ltb_spec (Z.of_nat (8 + (i - 8))) bits); lia || done.
Qed.

Lemma key_ext a b : length a = length b -> (forall i, (i < 8 * length a)%nat -> key_bit a i = key_bit b i) -> a = b.
Proof.
  intros Hl Hb. apply (cmp_eq (cmp := blob_cmp)). rewrite blob_cmp_be by done. apply Z.compare_eq_iff.
  apply Z.bits_inj'. intros n Hn. destruct (Z.lt_ge_cases n (Z.of_nat (8 * length a))) as [Hlt|Hge].
  - specialize (Hb (Z.to_nat (Z.of_nat (8 * length a) - 1 - n)) ltac:(lia)).
    rewrite <- !be_testbit in Hb by lia. rewrite <- Hl in Hb.
    by replace (Z.of_nat (8 * length a) - 1 - Z.of_nat (Z.to_nat (Z.of_nat (8 * length a) - 1 - n))) with n in Hb by lia.
  - assert (Hbig : forall c : bytes, length c = length a -> Z.testbit (be c) n = false).
    { intros c Hc. pose proof (be_bound c) as Hbd. unfold blen in Hbd. rewrite Hc in Hbd.
      replace (256 ^ Z.of_nat (length a)) with (2 ^ Z.of_nat (8 * length a)) in Hbd
        by (change 256 with (2 ^ 8); rewrite <- Z.pow_mul_r by lia; f_equal; lia).
      rewrite <- (Z.mod_small (be c) (2 ^ Z.of_nat (8 * length a))) by done. apply Z.mod_pow2_bits_high. lia. }
    by rewrite !Hbig.
Qed.

Lemma mask_idemp bits b : mask_bytes bits (mask_bytes bits b) = mask_bytes bits b.
Proof.
  apply key_ext; [by rewrite !mask_length|]. intros i. rewrite !mask_length. intros Hi.
  rewrite !mask_bit by (rewrite ?mask_length; done). by destruct (key_bit b i), (_ <? _).
Qed.

Lemma masked_idemp p : Masked (Masked p) = Masked p.
Proof. unfold Masked. destruct p as [[b|b z] bits]; cbn; by rewrite mask_idemp. Qed.

(** *** Setting the host bits *)

Lemma set_bit_length b i : length (set_bit b i) = length b.
Proof. apply length_alter. Qed.

Lemma set_bit_bit b i j : (i < 8 * length b)%nat -> (j < 8 * length b)%nat ->
  key_bit (set_bit b i) j = key_bit b j || (i =? j)%nat.
Proof.
  intros Hi Hj. unfold key_bit, set_bit.
  pose proof (Nat.mod_upper_bound i 8 ltac:(lia)). pose proof (Nat.mod_upper_bound j 8 ltac:(lia)).
  pose proof (Nat.div_mod_eq i 8). pose proof (Nat.div_mod_eq j 8).
  destruct (decide (i / 8 = j / 8)%nat) as [E|Hne].
  - rewrite <- E, list_lookup_alter_eq. destruct (lookup_lt_is_Some_2 b (i / 8)%nat) as [x Hx]; [apply Nat.Div0.div_lt_upper_bound; lia|].
    assert (Em : Z.of_nat i mod 8 = Z.of_nat (i mod 8)) by (by rewrite Nat2Z.inj_mod).
    rewrite Hx, Em. cbn [fmap option_fmap option_map]. rewrite testbit_byte_of, Z.lor_spec by lia. f_equal.
    rewrite Z.shiftl_1_l, Z.pow2_bits_eqb by lia.
    destruct (Z.eqb_spec (7 - Z.of_nat (i mod 8)) (7 - Z.of_nat (j mod 8))), (Nat.eqb_spec i j); lia || done.
  - rewrite list_lookup_alter_ne by done. destruct (Nat.eqb_spec i j) as [->|]; [done|]. by rewrite orb_false_r.
Qed.

Lemma set_bits_length l b : length (foldl set_bit b l) = length b.
Proof. revert b. induction l as [|i l IH]; intros b; cbn [foldl]; [done|]. by rewrite IH, set_bit_length. Qed.

Lemma set_bits_bit l b j : (forall i, i ∈ l -> (i < 8 * length b)%nat) -> (j < 8 * length b)%nat ->
  key_bit (foldl set_bit b l) j = key_bit b j || bool_decide (j ∈ l).
Proof.
  revert b. induction l as [|i l IH]; intros b Hl Hj; cbn [foldl].
  { rewrite bool_decide_false by apply not_elem_of_nil. by rewrite orb_false_r. }
  rewrite IH; [|intros n Hn; rewrite set_bit_length; apply Hl; by right|by rewrite set_bit_length].
  rewrite set_bit_bit; [|by apply Hl; left|done].
  rewrite <- orb_assoc. f_equal. destruct (Nat.eqb_spec i j) as [->|Hne]; cbn.
  - by rewrite bool_decide_true by left.
  - apply bool_decide_ext. rewrite elem_of_cons. naive_solver.
Qed.

(** *** The bounds *)

Section Bounds.

Variable p : prefix.
Hypothesis Hp : prefix_ok p.

#[local] Abbreviation lo := (prefixRange p).1.
#[local] Abbreviation hi := (prefixRange p).2.
#[local] Abbreviation nbits := (Z.to_nat (prefix_bits p)).

Lemma prefix_bits_range : 0 <= prefix_bits p <= 128.
Proof. destruct Hp as [H1 H2]. unfold prefix_bits. destruct (p_addr p); cbn [Is4]; lia. Qed.

Lemma range_lengths : length lo = 16%nat /\ length hi = 16%nat.
Proof.
  assert (Hlo : length lo = 16%nat).
  { destruct Hp as [H1 H2]. unfold prefixRange, Masked. destruct p as [[b|b z] bits]; cbn in *; rewrite ?length_app, mask_length; cbn; lia. }
  split; [done|]. cbn [prefixRange snd]. by rewrite set_bits_length.
Qed.

Lemma lo_bit i : (i < 128)%nat -> key_bit lo i = key_bit (As16 (p_addr p)) i && (i <? nbits)%nat.
Proof.
  intros Hi. destruct Hp as [H1 H2]. unfold prefixRange, Masked, prefix_bits. destruct p as [[b|b z] bits]; cbn [p_addr p_bits Is4 As16 fst] in *.
  - destruct H2 as [H2 H3]. destruct (decide (i < 96)%nat) as [Hlt|Hge].
    + rewrite (proj2 (Nat.ltb_lt i _)), andb_true_r by lia. unfold key_bit.
      assert (Hd : (i / 8 < length v4_mapped)%nat) by (apply Nat.Div0.div_lt_upper_bound; cbn; lia). by rewrite !lookup_app_l.
    + assert (Happ : forall c, key_bit (v4_mapped ++ c) i = key_bit c (i - 96)).
      { intros c. unfold key_bit. assert (Hd : (length v4_mapped <= i / 8)%nat) by (apply Nat.div_le_lower_bound; cbn; lia).
        rewrite lookup_app_r by done. change (length v4_mapped) with 12%nat.
        remember (i - 96)%nat as m eqn:Em. replace i with (m + 12 * 8)%nat by lia. rewrite Nat.div_add, Nat.Div0.mod_add by done.
        by replace (m / 8 + 12 - 12)%nat with (m / 8)%nat by lia. }
      rewrite !Happ, mask_bit by lia. f_equal.
      destruct (Z.ltb_spec (Z.of_nat (i - 96)) bits), (Nat.ltb_spec i (Z.to_nat (bits + 96))); lia || done.
  - rewrite mask_bit by lia. f_equal. destruct (Z.ltb_spec (Z.of_nat i) bits), (Nat.ltb_spec i (Z.to_nat bits)); lia || done.
Qed.

Lemma hi_bit i : (i < 128)%nat -> key_bit hi i = key_bit lo i || (nbits <=? i)%nat.
Proof.
  intros Hi. pose proof prefix_bits_range as Hn. destruct range_lengths as [Hl _].
  assert (Ehi : hi = foldl set_bit lo (seq nbits (128 - nbits))).
  { unfold prefixRange, prefix_bits. cbn [fst snd]. unfold Masked. by destruct p as [[b|b z] bits]. }
  rewrite Ehi, set_bits_bit; [|intros j Hj%elem_of_seq; rewrite Hl; lia|rewrite Hl; lia]. f_equal.
  destruct (Nat.leb_spec nbits i); [apply bool_decide_eq_true|apply bool_decide_eq_false]; rewrite elem_of_seq; lia.
Qed.

(** The bounds as numbers: the prefix's value followed by zeros, or by ones. *)
Lemma range_values : let r := 128 - prefix_bits p in
  exists v, be lo = v * 2 ^ r /\ be hi = v * 2 ^ r + (2 ^ r - 1).
Proof.
  cbn zeta. pose proof prefix_bits_range as Hn. destruct range_lengths as [Hl Hh]. set (r := 128 - prefix_bits p).
  assert (Hbit : forall k n, length k = 16%nat -> 0 <= n < 128 -> Z.testbit (be k) n = key_bit k (Z.to_nat (127 - n))).
  { intros k n Hk Hn'. rewrite <- be_testbit by lia. f_equal. lia. }
  assert (Hbig : forall k n, length k = 16%nat -> 128 <= n -> Z.testbit (be k) n = false).
  { intros k n Hk Hn'. pose proof (be_bound k) as Hb. unfold blen in Hb. rewrite Hk in Hb.
    rewrite <- (Z.mod_small (be k) (2 ^ 128)) by done. apply Z.mod_pow2_bits_high. lia. }
  exists (be lo / 2 ^ r). assert (Hlo : be lo mod 2 ^ r = 0).
  { apply Z.bits_inj'. intros n Hn'. rewrite Z.bits_0. destruct (Z.lt_ge_cases n r) as [Hlt|Hge].
    - rewrite Z.mod_pow2_bits_low, Hbit, lo_bit by lia. apply andb_false_iff. right. apply Nat.ltb_ge. lia.
    - by apply Z.mod_pow2_bits_high; lia. }
  assert (Hhi : be hi mod 2 ^ r = 2 ^ r - 1).
  { replace (2 ^ r - 1) with (Z.ones r) by (rewrite Z.ones_equiv; lia). apply Z.bits_inj'. intros n Hn'.
    rewrite Z.testbit_ones_nonneg by lia. destruct (Z.ltb_spec n r) as [Hlt|Hge].
    - rewrite Z.mod_pow2_bits_low, Hbit, hi_bit by lia. apply orb_true_iff. right. apply Nat.leb_le. lia.
    - apply Z.mod_pow2_bits_high. lia. }
  assert (Hdiv : be hi / 2 ^ r = be lo / 2 ^ r).
  { apply Z.bits_inj'. intros n Hn'. rewrite !Z.div_pow2_bits by lia.
    destruct (Z.lt_ge_cases (n + r) 128) as [Hlt|Hge]; [|by rewrite !Hbig by (done || lia)].
    rewrite !Hbit, hi_bit by (done || lia). rewrite (proj2 (Nat.leb_gt _ _)) by lia. by rewrite orb_false_r. }
  pose proof (Z.div_mod (be lo) (2 ^ r) ltac:(lia)) as D1. pose proof (Z.div_mod (be hi) (2 ^ r) ltac:(lia)) as D2.
  rewrite Hdiv, Hhi in D2. rewrite Hlo in D1. split; lia.
Qed.

End Bounds.
