(* ===== verification/IpIndex.v ===== *)
(** The reverse IP index: the CIDR bounds are exact, build-ip keeps one freshest
    row per pair, and a sharded lookup prints what an unsharded one does. *)

From S2P Require Import Prelude GoStd Order Netip Sha256 LogClient ReverseIP IpKeys IpNames ReverseIPLookup IpRange.

(** ** Lemmas *)

(** *** Prefixes *)

Lemma dec_val_nonneg s acc : 0 <= acc -> str_forallb is_digit s = true -> 0 <= dec_val acc s.
Proof.
  revert acc. induction s as [|c s IH]; intros acc Ha; cbn [dec_val str_forallb]; [done|]. intros [Hc Hs]%andb_true_iff.
  apply IH; [|done]. unfold is_digit, digit_val in *. apply andb_true_iff in Hc as [Hc%Z.leb_le _]. lia.
Qed.

Lemma parse_prefix_ok s p : ParsePrefix s = Some p -> prefix_ok p.
Proof.
  unfold ParsePrefix. destruct (_ <? 0); [done|]. destruct (ParseAddr _) as [a|] eqn:Ea; [|done].
  destruct (parse_bits _) as [bits|] eqn:Eb; [|done].
  assert (Hbits : 0 <= bits).
  { revert Eb. unfold parse_bits. set (t := str_drop _ s). destruct (String.eqb t ""); cbn [orb]; [done|].
    destruct (str_forallb is_digit t) eqn:Ed; cbn [negb]; [|done]. intros E.
    assert (E' : bits = dec_val 0 t) by (destruct t as [|[[] [] [] [] [] [] [] []] [|c t]]; congruence).
    rewrite E'. by apply dec_val_nonneg. }
  apply As16_length in Ea. destruct a as [b|b z]; cbn [As16] in Ea.
  - destruct (Z.ltb_spec 32 bits); [done|]. intros [= <-]. split; [done|]. cbn. split; [|done].
    rewrite length_app in Ea. cbn in Ea. lia.
  - destruct (negb _); [done|]. destruct (Z.ltb_spec 128 bits); [done|]. intros [= <-]. by split.
Qed.

Lemma between_be lo hi k : length lo = 16%nat -> length hi = 16%nat -> length k = 16%nat ->
  between lo hi k <-> be lo <= be k <= be hi.
Proof.
  intros Hl Hh Hk. unfold between, le_of. rewrite !blob_cmp_be by congruence. pose proof (Z.compare_ngt_iff (be lo) (be k)). pose proof (Z.compare_ngt_iff (be k) (be hi)). tauto.
Qed.

Lemma mapped_take k : mapped k = true <-> take 12 k = v4_mapped.
Proof. apply bool_decide_eq_true. Qed.

Definition family (p : prefix) : Z := if Is4 (p_addr p) then 4 else 6.

(** No IPv4 key is in the range of an IPv6 prefix. *)
Definition off_mapped (p : prefix) : Prop :=
  Is4 (p_addr p) = false -> forall k, length k = 16%nat -> between (prefixRange p).1 (prefixRange p).2 k -> mapped k = false.

Lemma v4_bounds_mapped p : prefix_ok p -> Is4 (p_addr p) = true ->
  take 12 (prefixRange p).1 = v4_mapped /\ take 12 (prefixRange p).2 = v4_mapped.
Proof.
  intros [H1 H2] E4. unfold prefixRange, Masked. destruct p as [[b|b z] bits]; [|done]. cbn [p_addr p_bits Is4 As16 fst snd] in *.
  assert (Hlo : take 12 (v4_mapped ++ mask_bytes bits b) = v4_mapped) by (by apply take_app_length').
  split; [done|]. assert (Hset : forall l c, (forall i, i ∈ l -> (96 <= i)%nat) -> take 12 c = v4_mapped -> take 12 (foldl set_bit c l) = v4_mapped).
  { induction l as [|i l IH]; intros c Hl Hc; cbn [foldl]; [done|]. apply IH; [intros j Hj; apply Hl; by right|].
    unfold set_bit. rewrite take_alter_ge; [done|]. apply Nat.div_le_lower_bound; [done|]. specialize (Hl i ltac:(by left)). lia. }
  apply Hset; [|done]. intros i Hi%elem_of_seq. lia.
Qed.

Lemma prefix_bounds_ok p : prefix_ok p -> off_mapped p -> bounds_ok (family p) (prefixRange p).1 (prefixRange p).2.
Proof.
  intros Hp Hoff. destruct (range_lengths p Hp) as [Hl Hh]. unfold family. destruct (Is4 (p_addr p)) eqn:E4.
  - destruct (v4_bounds_mapped p Hp E4) as [Ml Mh]. split; [by split; [|intros _]..|].
    intros k Hk [B1 B2]. apply mapped_take. rewrite <- Ml. apply lead_inj; [done..|].
    pose proof (lead_mono 12 _ _ Hl Hk ltac:(lia) B1) as L1. pose proof (lead_mono 12 _ _ Hk Hh ltac:(lia) B2) as L2.
    unfold lead in *. rewrite Ml in *. rewrite Mh in *. lia.
  - split; [split; [done|intros E; discriminate E]..|]. intros k Hk Hb. by apply (Hoff E4).
Qed.

(** *** Staged rows *)

(** The staged row of a source row. *)
Definition staged_from (ToLower : string -> string) (s : src_row) (r : rev_row) : Prop :=
  exists domain ip k ver, src_domain s = Some domain /\ src_ip s = Some ip /\ key16 ip = Some (k, ver) /\
    r = mkRev k (ToLower domain) ver (src_fetched s).

Definition src_rows (src : dns_src) : list src_row := default [] (dns_records_a src) ++ default [] (dns_records_aaaa src).

Lemma load_rows_spec ToLower rows staged skipped out n :
  load_rows ToLower rows staged skipped = Ok (out, n) ->
  forall r, r ∈ out <-> r ∈ staged \/ exists s, s ∈ rows /\ staged_from ToLower s r.
Proof.
  revert staged skipped. induction rows as [|s rows IH]; intros staged skipped; cbn [load_rows].
  { intros [= <- <-] r. split; [by left|]. by intros [?|(s & ?%elem_of_nil & _)]. }
  destruct (src_domain s) as [domain|] eqn:Ed; [|done]. destruct (src_ip s) as [ip|] eqn:Ei; [|done].
  destruct (key16 ip) as [[k ver]|] eqn:Ek; intros H1 r; rewrite (IH _ _ H1).
  - rewrite elem_of_app, list_elem_of_singleton. split.
    + intros [[H2 | ->]|(s' & Hs' & Hr)]; [by left|right; exists s|right; exists s'; split; [by right|done]].
      split; [by left|]. by exists domain, ip, k, ver.
    + intros [?|(s' & [->|Hs']%elem_of_cons & Hr)]; [by left; left| |right; by exists s'].
      destruct Hr as (domain' & ip' & k' & ver' & Ed' & Ei' & Ek' & ->). left. right. congruence.
  - split.
    + intros [?|(s' & Hs' & Hr)]; [by left|right; exists s'; split; [by right|done]].
    + intros [?|(s' & [->|Hs']%elem_of_cons & Hr)]; [by left| |right; by exists s'].
      destruct Hr as (domain' & ip' & k' & ver' & Ed' & Ei' & Ek' & ->). congruence.
Qed.

Lemma load_tables_spec ToLower src staged n :
  load_tables ToLower src = Ok (staged, n) ->
  forall r, r ∈ staged <-> exists s, s ∈ src_rows src /\ staged_from ToLower s r.
Proof.
  unfold load_tables, src_rows. intros H1 r.
  assert (Hopt : forall t staged skipped out n, match t with Some rows => load_rows ToLower rows staged skipped | None => Ok (staged, skipped) end = Ok (out, n) ->
    forall r, r ∈ out <-> r ∈ staged \/ exists s, s ∈ default [] t /\ staged_from ToLower s r).
  { intros [rows|] st sk out m; [apply load_rows_spec|]. intros [= <- <-] x. split; [by left|].
    by intros [?|(s & ?%elem_of_nil & _)]. }
  destruct (match dns_records_a src with Some rows => load_rows ToLower rows [] 0 | None => Ok ([], 0) end) as [[st sk]|e|] eqn:E1; [|done..].
  cbn [bind_res] in H1. rewrite (Hopt _ _ _ _ _ H1), (Hopt _ _ _ _ _ E1), elem_of_nil. setoid_rewrite elem_of_app. naive_solver.
Qed.

Lemma staged_ok ToLower src staged n : load_tables ToLower src = Ok (staged, n) -> forall r, r ∈ staged -> key_ok (rv_ip r) (rv_ver r).
Proof.
  intros H1 r Hr. apply (load_tables_spec _ _ _ _ H1) in Hr as (s & _ & domain & ip & k & ver & _ & _ & Ek & ->).
  by apply key16_ok in Ek.
Qed.

(** *** The files a query opens *)

Lemma concat_map_fmap {A B C} (f : B -> C) (h : A -> list B) l : map f (concat (map h l)) = concat (map (fun a => map f (h a)) l).
Proof. by rewrite concat_map, map_map. Qed.

Lemma map_seqZ_ext {A} (f h : Z -> A) a n : (forall x, a <= x < a + n -> f x = h x) -> map f (seqZ a n) = map h (seqZ a n).
Proof. intros He. apply map_ext_in. intros x Hx. apply He. apply elem_of_seqZ. by apply list_elem_of_In. Qed.

Lemma names_for_routes g split split_set p :
  g = 1%nat \/ g = 2%nat -> (forall n, n ∈ split <-> n ∈ split_set) -> prefix_ok p ->
  names_for g split p =
  map (fun ρ => shard_file g (family p) ρ.1 ρ.2) (routes g split_set (family p) (prefixRange p).1 (prefixRange p).2).
Proof.
  intros Hg Hsplit Hp. destruct (range_lengths p Hp) as [Hl Hh].
  assert (Em : prefixRange (Masked p) = prefixRange p) by (unfold prefixRange; by rewrite masked_idemp).
  assert (Ef : Is4 (p_addr (Masked p)) = Is4 (p_addr p)) by (by destruct p as [[b|b z] bits]).
  unfold names_for, shardsForPrefix, routes. rewrite Em, Ef. fold (family p).
  destruct (prefixRange p) as [lo hi]. cbn [fst snd] in *. rewrite map_map, concat_map_fmap. f_equal.
  pose proof (shard_prefix_range g Hg lo (family p) Hl) as R1. pose proof (shard_prefix_range g Hg hi (family p) Hh) as R2.
  apply map_seqZ_ext. intros s Hs. assert (Hw : 0 <= s < 256 ^ Z.of_nat g) by lia.
  assert (Eid : (if family p =? 4 then s else Z.lor v6ShardBit s) = shard_id (family p) s)
    by (unfold shard_id; destruct (_ =? 4); [done|apply Z.lor_comm]).
  rewrite Eid, (shard_name_file g Hg) by done. unfold routes_of.
  destruct (decide (shard_file g (family p) s None ∈ split_set)) as [Hin|Hin].
  - rewrite bool_decide_true by (by apply Hsplit). unfold fineNamesForBase.
    destruct (shard_width g Hg s Hw) as [Hw' _]. destruct (shard_id_bits s Hw') as (_ & B2 & _ & B4 & _).
    assert (Eb : Z.ldiff (shard_id (family p) s) v6ShardBit = s) by (unfold shard_id; destruct (_ =? 4); done).
    rewrite Eb, map_map. unfold oct_lo, oct_hi. apply map_ext. intros n. cbn [fst snd]. apply fine_name_file.
  - rewrite bool_decide_false by (by rewrite Hsplit). done.
Qed.

Lemma base_name_nonempty g r : (g = 1%nat \/ g = 2%nat) -> key_ok (rv_ip r) (rv_ver r) -> forall split, shard_of g split r <> "".
Proof.
  intros Hg [Hl _] split. pose proof (shard_prefix_range g Hg (rv_ip r) (rv_ver r) Hl) as Hs.
  assert (Hb : base_of g r = shard_file g (rv_ver r) (shardPrefixInt g (rv_ip r) (rv_ver r)) None).
  { rewrite <- (shard_name_file g Hg) by done. unfold base_of, shardID, shard_id. by destruct (_ =? 4). }
  unfold shard_of, fine_of, fineName. rewrite Hb, fine_name_file. case_bool_decide; by apply shard_file_ne.
Qed.

(** What a lookup in a fresh sharded index prints. *)
Lemma sharded_lookup g ToLower splitMin src dir staged n p :
  g = 1%nat \/ g = 2%nat -> load_tables ToLower src = Ok (staged, n) -> prefix_ok p -> off_mapped p ->
  buildIPSharded g ToLower splitMin src (mkIpDir ∅ None) = Ok dir ->
  exists ps, range_pairs (prefixRange p).1 (prefixRange p).2 staged ps /\
    concat (map (fun name => match od_files dir !! name with
                             | Some table => select_range (prefixRange p).1 (prefixRange p).2 table
                             | None => []
                             end) (names_for g (default [] (od_split dir)) p)) = map snd ps.
Proof.
  intros Hg Hload Hp Hoff Hdir. pose proof (staged_ok _ _ _ _ Hload) as Hst.
  unfold buildIPSharded in Hdir. rewrite Hload in Hdir. cbn [bind_res] in Hdir. set (split := split_set g splitMin staged) in *.
  injection Hdir as <-. cbn [od_files od_split from_option id].
  assert (Hver : family p = 4 \/ family p = 6) by (unfold family; destruct (Is4 _); auto).
  pose proof (prefix_bounds_ok p Hp Hoff) as Hb. set (lo := (prefixRange p).1) in *. set (hi := (prefixRange p).2) in *.
  rewrite (names_for_routes g (sort_by text_cmp (elements split)) split p Hg); [|intros m; by rewrite (elem_of_sort_by text_cmp), elem_of_elements|done].
  fold lo hi. eexists. split; [by apply (sharded_range g Hg split staged Hst (family p) Hver lo hi Hb)|].
  rewrite map_map, concat_map_fmap. f_equal. apply map_ext. intros ρ.
  rewrite sharded_files; [|intros r Hr; by apply base_name_nonempty, Hst|by apply shard_file_ne].
  unfold route_pairs. rewrite lookup_empty.
  pose proof (shard_table_unique (shard_of g split) staged (shard_file g (family p) ρ.1 ρ.2)) as [Hsort _ _].
  destruct (shard_table _ _ _) as [|r t] eqn:Et; [done|]. rewrite <- Et in *. by rewrite select_range_sorted.
Qed.

Lemma unsharded_lookup ToLower src staged n table lo hi :
  load_tables ToLower src = Ok (staged, n) -> buildIP ToLower src = Ok table ->
  exists ps, range_pairs lo hi staged ps /\ select_range lo hi table = map snd ps.
Proof.
  intros Hload Hb. unfold buildIP in Hb. rewrite Hload in Hb. injection Hb as <-.
  assert (Hu : unique_rows staged (emit None (sort_by fresh_cmp staged))).
  { eapply unique_perm; [exact (sort_by_perm fresh_cmp staged)|]. apply emit_unique, sort_by_sorted; apply _. }
  eexists. split; [by apply unique_range|]. apply select_range_sorted, Hu.
Qed.

Lemma range_be_div p k : prefix_ok p -> length k = 16%nat ->
  between (prefixRange p).1 (prefixRange p).2 k <->
  be k / 2 ^ (128 - prefix_bits p) = be (prefixRange p).1 / 2 ^ (128 - prefix_bits p).
Proof.
  intros Hp Hk. destruct (range_lengths p Hp) as [Hl Hh]. pose proof (prefix_bits_range p Hp) as Hn.
  rewrite between_be by done. destruct (range_values p Hp) as (v & -> & ->). set (w := 2 ^ (128 - prefix_bits p)).
  assert (Hw : 0 < w) by (apply Z.pow_pos_nonneg; lia). rewrite Z.div_mul by lia.
  pose proof (Z.div_mod (be k) w ltac:(lia)). pose proof (Z.mod_pos_bound (be k) w Hw). split; [|intros <-; lia].
  intros Hb. symmetry. apply Z.div_unique with (be k - v * w); lia.
Qed.

Lemma div_bits k k' r : length k = 16%nat -> length k' = 16%nat -> 0 <= r <= 128 ->
  be k / 2 ^ r = be k' / 2 ^ r <-> forall i, (Z.of_nat i < 128 - r) -> key_bit k i = key_bit k' i.
Proof.
  intros Hk Hk' Hr. split.
  - intros E i Hi. pose proof (be_testbit k i ltac:(lia)) as B. pose proof (be_testbit k' i ltac:(lia)) as B'.
    rewrite Hk in B. rewrite Hk' in B'. rewrite <- B, <- B'. 
    replace (Z.of_nat (8 * 16) - 1 - Z.of_nat i) with (127 - Z.of_nat i - r + r) by lia.
    rewrite <- !Z.div_pow2_bits by lia. by rewrite E.
  - intros Hb. apply Z.bits_inj'. intros n Hn. rewrite !Z.div_pow2_bits by lia.
    destruct (Z.lt_ge_cases (n + r) 128) as [Hlt|Hge].
    + specialize (Hb (Z.to_nat (127 - (n + r))) ltac:(lia)). rewrite <- !be_testbit in Hb by lia. rewrite Hk, Hk' in Hb.
      by replace (Z.of_nat (8 * 16) - 1 - Z.of_nat (Z.to_nat (127 - (n + r)))) with (n + r) in Hb by lia.
    + assert (Hbig : forall c, length c = 16%nat -> Z.testbit (be c) (n + r) = false).
      { intros c Hc. pose proof (be_bound c) as Hbd. unfold blen in Hbd. rewrite Hc in Hbd.
        rewrite <- (Z.mod_small (be c) (2 ^ 128)) by done. apply Z.mod_pow2_bits_high. lia. }
      by rewrite !Hbig.
Qed.

(** ** Properties *)

(** prefixRange is exact: a 16-byte key lies between the two bounds of a
    parsed CIDR prefix exactly when it agrees with the prefix's address on the
    prefix's bits, IPv4 being taken in its mapped form. *)
Theorem prefix_range_exact (s : string) (p : prefix) (k : bytes) (Hs : ParsePrefix s = Some p) (Hk : length k = 16%nat) :
  between (prefixRange p).1 (prefixRange p).2 k <->
  forall i, Z.of_nat i < prefix_bits p -> key_bit k i = key_bit (As16 (p_addr p)) i.
Proof.
  apply parse_prefix_ok in Hs as Hp. destruct (range_lengths p Hp) as [Hl _]. pose proof (prefix_bits_range p Hp) as Hn.
  rewrite range_be_div, div_bits by (done || lia).
  assert (Hlo : forall i, Z.of_nat i < prefix_bits p -> key_bit (prefixRange p).1 i = key_bit (As16 (p_addr p)) i).
  { intros i Hi. rewrite (lo_bit p Hp) by lia. rewrite (proj2 (Nat.ltb_lt i _)) by lia. by rewrite andb_true_r. }
  replace (128 - (128 - prefix_bits p)) with (prefix_bits p) by lia.
  split; intros H1 i Hi; rewrite ?(H1 i Hi); [by apply Hlo|by rewrite Hlo].
Qed.

(** C34. build-ip writes one row per (address, domain) pair of the source, sorted
    by key and domain, and of the rows of a pair it keeps one fetched last. *)
Theorem build_ip_exact (ToLower : string -> string) (src : dns_src) (table : list rev_row)
  (Hb : buildIP ToLower src = Ok table) :
  StronglySorted (lt_of ip_domain_cmp) (map pair_of table) /\
  (forall r, r ∈ table -> exists s, s ∈ src_rows src /\ staged_from ToLower s r) /\
  (forall s r, s ∈ src_rows src -> staged_from ToLower s r ->
     exists r', r' ∈ table /\ pair_of r' = pair_of r /\ at_least_as_fresh (rv_fetched r') (rv_fetched r)).
Proof.
  unfold buildIP in Hb. destruct (load_tables ToLower src) as [[staged n]|e|] eqn:El; [|done..]. injection Hb as <-.
  pose proof (load_tables_spec _ _ _ _ El) as Hl.
  assert (Hu : unique_rows staged (emit None (sort_by fresh_cmp staged))).
  { eapply unique_perm; [exact (sort_by_perm fresh_cmp staged)|]. apply emit_unique, sort_by_sorted; apply _. }
  destruct Hu as [U1 U2 U3]. split; [done|]. split.
  - intros r Hr. apply Hl. by apply U2.
  - intros s r Hs Hr. assert (Hin : r ∈ staged) by (apply Hl; by exists s). destruct (U3 r Hin) as (r' & Hr' & E).
    exists r'. split; [done|]. split; [done|]. by apply (U2 r' Hr').
Qed.

(** C12. Sharding changes no answer: with shards of one or two bytes, any split
    threshold and a fresh directory, a sharded CIDR lookup prints the same
    domains in the same order as one in the unsharded table, and both print the
    distinct (address, domain) pairs of the range in key order — provided an
    IPv6 prefix does not reach into the IPv4-mapped range. *)
Theorem lookup_cidr_sharded_exact (g : nat) (ToLower : string -> string) (splitMin : Z) (src : dns_src) (cidr : string)
  (p : prefix) (table : list rev_row) (dir : ip_dir)
  (Hg : g = 1%nat \/ g = 2%nat) (Hp : ParsePrefix cidr = Some p) (Hoff : off_mapped p)
  (Hb : buildIP ToLower src = Ok table) (Hd : buildIPSharded g ToLower splitMin src (mkIpDir ∅ None) = Ok dir) :
  exists ps, lookupCIDRSharded g dir cidr = Ok (map snd ps) /\ lookupCIDR table cidr = Ok (map snd ps) /\
    StronglySorted (lt_of ip_domain_cmp) ps /\
    forall k d, (k, d) ∈ ps <-> between (prefixRange p).1 (prefixRange p).2 k /\
      exists s r, s ∈ src_rows src /\ staged_from ToLower s r /\ pair_of r = (k, d).
Proof.
  destruct (load_tables ToLower src) as [[staged n]|e|] eqn:El; [|unfold buildIP in Hb; by rewrite El in Hb..].
  pose proof (parse_prefix_ok _ _ Hp) as Hok.
  destruct (sharded_lookup g ToLower splitMin src dir staged n p Hg El Hok Hoff Hd) as (ps & Hps & Hsh).
  destruct (unsharded_lookup ToLower src staged n table (prefixRange p).1 (prefixRange p).2 El Hb) as (qs & Hqs & Hun).
  rewrite (range_pairs_unique _ _ _ _ _ Hqs Hps) in Hun. exists ps. unfold lookupCIDRSharded, lookupCIDR. rewrite Hp.
  rewrite (surjective_pairing (prefixRange p)), Hsh, Hun. split; [done|]. split; [done|]. destruct Hps as [P1 P2].
  split; [done|]. intros k d. rewrite P2. pose proof (load_tables_spec _ _ _ _ El) as Hl. split.
  - intros (Hbt & r & Hr & E). apply Hl in Hr as (s & Hs & Hst). eauto 6.
  - intros (Hbt & s & r & Hs & Hst & E). split; [done|]. exists r. split; [|done]. apply Hl. eauto.
Qed.

(** ** Witnesses *)

Definition src4 (domain ip : string) (t : Z) : src_row := mkSrc (Some domain) (Some ip) (Some t).

(** Two fetches of one pair, two domains of one address, an address of another
    shard, one that does not parse, and an IPv6 one. *)
Definition demo_src : dns_src :=
  mkDns (Some [src4 "b.example" "104.16.0.1" 5; src4 "a.example" "104.16.0.1" 3; src4 "b.example" "104.16.0.1" 9;
               src4 "c.example" "104.99.1.1" 1; src4 "x.example" "not an ip" 1; src4 "d.example" "8.8.8.8" 2])
        (Some [src4 "e.example" "2001:db8::1" 4]).

Definition demo_table : list rev_row := match buildIP id demo_src with Ok t => t | _ => [] end.
Definition demo_dir (splitMin : Z) : ip_dir :=
  match buildIPSharded 1 id splitMin demo_src (mkIpDir ∅ None) with Ok d => d | _ => mkIpDir ∅ None end.

Lemma prefix_range_exact_witness :
  between [x20; x01; x0d; xb8; x00; x00; x00; x00; x00; x00; x00; x00; x00; x00; x00; x00]
          [x20; x01; x0d; xb8; xff; xff; xff; xff; xff; xff; xff; xff; xff; xff; xff; xff]
          ([x20; x01; x0d; xb8] ++ repeat x00 11 ++ [x01]) <->
  forall i, Z.of_nat i < 32 -> key_bit ([x20; x01; x0d; xb8] ++ repeat x00 11 ++ [x01]) i = key_bit ([x20; x01; x0d; xb8] ++ repeat x00 12) i.
Proof.
  exact (prefix_range_exact "2001:db8::/32" (mkPrefix (V6 ([x20; x01; x0d; xb8] ++ repeat x00 12) "") 32)
    ([x20; x01; x0d; xb8] ++ repeat x00 11 ++ [x01]) eq_refl eq_refl).
Defined.

Lemma build_ip_exact_witness :
  map (fun r => (rv_domain r, rv_fetched r)) demo_table =
    [("d.example", Some 2); ("a.example", Some 3); ("b.example", Some 9); ("c.example", Some 1); ("e.example", Some 4)] /\
  StronglySorted (lt_of ip_domain_cmp) (map pair_of demo_table).
Proof. split; [reflexivity|]. apply (build_ip_exact id demo_src demo_table). reflexivity. Defined.

Lemma lookup_cidr_sharded_exact_witness :
  lookupCIDRSharded 1 (demo_dir 2) "104.0.0.0/8" = Ok ["a.example"; "b.example"; "c.example"] /\
  od_split (demo_dir 2) = Some ["v4_104"] /\
  exists ps : list (bytes * string), lookupCIDRSharded 1 (demo_dir 2) "104.0.0.0/8" = Ok (map snd ps) /\ lookupCIDR demo_table "104.0.0.0/8" = Ok (map snd ps).
Proof.
  split; [vm_compute; reflexivity|]. split; [vm_compute; reflexivity|].
  destruct (lookup_cidr_sharded_exact 1 id 2 demo_src "104.0.0.0/8" (mkPrefix (V4 [x68; x00; x00; x00]) 8) demo_table (demo_dir 2)
    (or_introl eq_refl) eq_refl ltac:(intros H; discriminate) ltac:(vm_compute; reflexivity) ltac:(vm_compute; reflexivity)) as (ps & H1 & H2 & _).
  exists ps. split; [exact H1|exact H2].
Defined.

(** ** What the precondition on IPv6 prefixes leaves out *)

(** An IPv6 prefix that covers the IPv4-mapped range: the unsharded lookup
    answers the IPv4 rows too, the sharded one only reads the v6 shards. *)
Lemma v6_prefix_misses_v4 :
  lookupCIDR demo_table "::/0" = Ok ["d.example"; "a.example"; "b.example"; "c.example"; "e.example"] /\
  lookupCIDRSharded 1 (demo_dir 2) "::/0" = Ok ["e.example"].
Proof. split; vm_compute; reflexivity. Qed.

(** A second build of a shard directory from other tables: the shard of the
    addresses that are gone is neither removed nor reset, so a lookup still
    answers them, unlike a build of the unsharded table. *)
Definition later_src : dns_src := mkDns (Some [src4 "d.example" "8.8.8.8" 7]) None.

Lemma rebuild_keeps_stale_shards :
  match buildIPSharded 1 id 2 later_src (demo_dir 2) with
  | Ok dir => lookupCIDRSharded 1 dir "2001:db8::/32"
  | _ => Panic
  end = Ok ["e.example"] /\
  match buildIP id later_src with Ok table => lookupCIDR table "2001:db8::/32" | _ => Panic end = Ok [].
Proof. split; vm_compute; reflexivity. Qed.
