(* ===== verification/Heap.v ===== *)
(** container/heap of the Go standard library, on a slice: what cmd/export and
    tools/rawscan merge their sorted files with. A heap's pop is a least element
    and leaves the others. *)

From S2P Require Import Prelude GoStd.

(** ** Definitions *)

Section Heap.

Context {A : Type} `{!Inhabited A}.

(** [h.Less] of two elements. *)
Variable less : A -> A -> bool.

Definition swap (h : list A) (i j : nat) : list A := <[i := h !!! j]> (<[j := h !!! i]> h).

Definition parent (j : nat) : nat := ((j - 1) / 2)%nat.

(** [up(h, j)]: at most [j] turns. *)
Fixpoint up (fuel : nat) (h : list A) (j : nat) : list A :=
  match fuel with
  | O => h
  | S fuel =>
      let i := parent j in
      if (i =? j)%nat || negb (less (h !!! j) (h !!! i)) then h
      else up fuel (swap h i j) i
  end.

(** [down(h, i, n)]: at most [n] turns. *)
Fixpoint down (fuel : nat) (h : list A) (i n : nat) : list A :=
  match fuel with
  | O => h
  | S fuel =>
      let j1 := (2 * i + 1)%nat in
      if (n <=? j1)%nat then h
      else
        let j2 := S j1 in
        let j := if (j2 <? n)%nat && less (h !!! j2) (h !!! j1) then j2 else j1 in
        if negb (less (h !!! j) (h !!! i)) then h
        else down fuel (swap h i j) j n
  end.

Definition heap_push (h : list A) (x : A) : list A := let h := h ++ [x] in up (length h) h (length h - 1).

(** [Pop] moves the first element to the end, restores the order of the rest
    and takes it off. *)
Definition heap_pop (h : list A) : option (A * list A) :=
  match h with
  | [] => None
  | _ => let n := (length h - 1)%nat in
         let h := down n (swap h 0 n) 0 n in
         Some (h !!! n, take n h)
  end.

(** ** Lemmas *)

(** [Less] is a strict weak order. *)
Definition le (x y : A) : Prop := less y x = false.

Hypothesis le_trans : forall x y z, le x y -> le y z -> le x z.
Hypothesis less_le : forall x y, less x y = true -> le x y.

Lemma le_refl x : le x x.
Proof. unfold le. destruct (less x x) eqn:E; [|done]. pose proof (less_le _ _ E) as E'. unfold le in E'. congruence. Qed.

(** The first [n] elements are ordered, but for what [P] lets out. *)
Definition ordered_but (P : nat -> Prop) (h : list A) (n : nat) : Prop :=
  forall k, (0 < k < n)%nat -> ~ P k -> le (h !!! parent k) (h !!! k).

Definition heap_ok (h : list A) : Prop := ordered_but (fun _ => False) h (length h).

Lemma parent_lt k : (0 < k)%nat -> (parent k < k)%nat.
Proof. intros. unfold parent. apply Nat.Div0.div_lt_upper_bound. lia. Qed.

Lemma parent_child k i : (0 < k)%nat -> parent k = i <-> (k = 2 * i + 1 \/ k = 2 * i + 2)%nat.
Proof.
  intros. unfold parent. split; [intros <-; pose proof (Nat.div_mod_eq (k - 1) 2); pose proof (Nat.mod_upper_bound (k - 1) 2); lia|].
  intros [-> | ->]; symmetry; [apply Nat.div_unique with 0%nat|apply Nat.div_unique with 1%nat]; lia.
Qed.

Lemma length_swap h i j : length (swap h i j) = length h.
Proof. unfold swap. by rewrite !length_insert. Qed.

Lemma swap_lookup h i j k : (i < length h)%nat -> (j < length h)%nat ->
  swap h i j !!! k = if decide (k = i) then h !!! j else if decide (k = j) then h !!! i else h !!! k.
Proof.
  intros Hi Hj. unfold swap. destruct (decide (k = i)) as [->|Hki].
  - apply list_lookup_total_insert_eq. by rewrite length_insert.
  - rewrite list_lookup_total_insert_ne by done. destruct (decide (k = j)) as [->|Hkj].
    + by apply list_lookup_total_insert_eq.
    + by rewrite list_lookup_total_insert_ne.
Qed.

Lemma swap_perm h i j : (i < length h)%nat -> (j < length h)%nat -> swap h i j ≡ₚ h.
Proof.
  intros Hi Hj. apply Permutation_inj. split; [apply length_swap|].
  exists (fun k => if decide (k = i) then j else if decide (k = j) then i else k). split.
  - intros x y E. repeat case_decide; congruence.
  - intros k. destruct (decide (k < length h)%nat) as [Hk|Hk].
    + rewrite (list_lookup_lookup_total_lt (swap h i j)) by (by rewrite length_swap). rewrite swap_lookup by done.
      repeat case_decide; by rewrite list_lookup_lookup_total_lt.
    + rewrite (lookup_ge_None_2 (swap h i j)) by (rewrite length_swap; lia).
      rewrite !decide_False by lia. symmetry. apply lookup_ge_None_2. lia.
Qed.

Lemma up_ok fuel h j : (j < fuel)%nat -> (j < length h)%nat ->
  ordered_but (eq j) h (length h) ->
  (forall k, (0 < k < length h)%nat -> parent k = j -> (0 < j)%nat -> le (h !!! parent j) (h !!! k)) ->
  heap_ok (up fuel h j) /\ up fuel h j ≡ₚ h.
Proof.
  revert h j. induction fuel as [|fuel IH]; intros h j Hf Hj Ho Hg; [lia|]. cbn [up]. set (i := parent j).
  destruct (Nat.eqb_spec i j) as [Hij|Hij]; cbn [orb].
  { split; [|done]. intros k Hk _. apply Ho; [done|]. intros <-. pose proof (parent_lt j ltac:(lia)). unfold i in Hij. lia. }
  assert (Hj0 : (0 < j)%nat) by (destruct j; [done|lia]). assert (Hi : (i < j)%nat) by (by apply parent_lt).
  destruct (less (h !!! j) (h !!! i)) eqn:El; cbn [negb].
  - assert (Hs : forall k, swap h i j !!! k = if decide (k = i) then h !!! j else if decide (k = j) then h !!! i else h !!! k)
      by (intros k; apply swap_lookup; lia).
    assert (Hji : le (h !!! j) (h !!! i)) by by apply less_le.
    destruct (IH (swap h i j) i) as [H1 H2]; [lia|rewrite length_swap; lia|..].
    + intros k Hk Hki. rewrite length_swap in Hk. rewrite !Hs. rewrite (decide_False (P := k = i)) by congruence.
      destruct (decide (k = j)) as [->|Hkj]; [by rewrite decide_True|].
      destruct (decide (parent k = i)) as [Hp|Hp].
      * eapply le_trans; [exact Hji|]. rewrite <- Hp. apply Ho; [lia|done].
      * destruct (decide (parent k = j)) as [Hq|Hq]; [by apply Hg|]. apply Ho; [lia|done].
    + intros k Hk Hp Hi0. rewrite length_swap in Hk. apply parent_lt in Hi0 as Hpi.
      rewrite !Hs. rewrite (decide_False (P := parent i = i)), (decide_False (P := parent i = j)) by lia.
      pose proof (parent_lt k ltac:(lia)) as Hkp. rewrite (decide_False (P := k = i)) by lia.
      assert (Hii : le (h !!! parent i) (h !!! i)) by (apply Ho; [lia|lia]).
      destruct (decide (k = j)) as [->|Hkj]; [done|]. eapply le_trans; [exact Hii|]. rewrite <- Hp. apply Ho; [lia|congruence].
    + split; [done|]. rewrite H2. apply swap_perm; lia.
  - split; [|done]. intros k Hk _. destruct (decide (k = j)) as [->|Hkj]; [done|]. by apply Ho.
Qed.

Lemma down_ok fuel h i n : (n <= fuel + i)%nat -> (n <= length h)%nat -> (i < n)%nat ->
  ordered_but (fun k => parent k = i) h n ->
  (forall k, (0 < k < n)%nat -> parent k = i -> (0 < i)%nat -> le (h !!! parent i) (h !!! k)) ->
  ordered_but (fun _ => False) (down fuel h i n) n /\ down fuel h i n ≡ₚ h /\
  forall k, (n <= k)%nat -> down fuel h i n !!! k = h !!! k.
Proof.
  revert h i. induction fuel as [|fuel IH]; intros h i Hf Hn Hi Ho Hg; [lia|]. cbn [down]. set (j1 := (2 * i + 1)%nat).
  destruct (Nat.leb_spec n j1) as [Hj1|Hj1].
  { split; [|done]. intros k Hk _. apply Ho; [done|]. intros Hp. apply parent_child in Hp; lia. }
  set (j := if _ && _ then _ else _).
  assert (Hj : (j = j1 \/ j = S j1) /\ (j < n)%nat /\ forall k, (0 < k < n)%nat -> parent k = i -> le (h !!! j) (h !!! k)).
  { unfold j. destruct (Nat.ltb_spec (S j1) n) as [Hj2|Hj2]; cbn [andb].
    - destruct (less (h !!! S j1) (h !!! j1)) eqn:El; (split; [lia|]); (split; [lia|]); intros k Hk Hp; apply parent_child in Hp; [|lia| |lia].
      + destruct Hp as [-> | ->]; [by apply less_le|]. replace (2 * i + 2)%nat with (S j1) by lia. apply le_refl.
      + destruct Hp as [-> | ->]; [apply le_refl|]. replace (2 * i + 2)%nat with (S j1) by lia. exact El.
    - split; [lia|]. split; [lia|]. intros k Hk Hp. apply parent_child in Hp; [|lia]. replace k with j1 by lia. apply le_refl. }
  clearbody j. destruct Hj as (Hj & Hjn & Hmin). assert (Hpj : parent j = i) by (apply parent_child; lia).
  destruct (less (h !!! j) (h !!! i)) eqn:El; cbn [negb].
  - assert (Hs : forall k, swap h i j !!! k = if decide (k = i) then h !!! j else if decide (k = j) then h !!! i else h !!! k)
      by (intros k; apply swap_lookup; lia).
    destruct (IH (swap h i j) j) as (H1 & H2 & H3); [lia|rewrite length_swap; lia|lia|..].
    + intros k Hk Hkj. rewrite !Hs. destruct (decide (parent k = i)) as [Hp|Hp].
      * rewrite (decide_False (P := k = i)) by (pose proof (parent_lt k ltac:(lia)); lia).
        destruct (decide (k = j)) as [->|Hne]; [by apply less_le|by apply Hmin].
      * rewrite (decide_False (P := parent k = j)) by done. rewrite (decide_False (P := k = j)) by congruence.
        destruct (decide (k = i)) as [->|Hne]; [apply Hg; lia|by apply Ho].
    + intros k Hk Hp _. rewrite !Hs, Hpj, decide_True by done. pose proof (parent_lt k ltac:(lia)) as Hlt.
      rewrite !decide_False by lia. rewrite <- Hp. apply Ho; [lia|lia].
    + split; [done|]. split; [rewrite H2; apply swap_perm; lia|]. intros k Hk. rewrite H3, Hs by done. by rewrite !decide_False by lia.
  - split; [|done]. intros k Hk _. destruct (decide (parent k = i)) as [Hp|Hp]; [|by apply Ho].
    rewrite Hp. eapply le_trans; [exact El|by apply Hmin].
Qed.

Lemma heap_min h : heap_ok h -> forall k, (k < length h)%nat -> le (h !!! 0%nat) (h !!! k).
Proof.
  intros Hh k. induction k as [k IH] using lt_wf_ind. intros Hk. destruct (decide (k = 0%nat)) as [->|Hk0]; [apply le_refl|].
  pose proof (parent_lt k ltac:(lia)). eapply le_trans; [apply (IH (parent k)); lia|]. apply Hh; [lia|tauto].
Qed.

Lemma heap_push_spec h x : heap_ok h -> heap_ok (heap_push h x) /\ heap_push h x ≡ₚ x :: h.
Proof.
  intros Hh. unfold heap_push. set (h' := h ++ [x]). assert (Hl : length h' = S (length h)) by (unfold h'; rewrite length_app; cbn; lia).
  destruct (up_ok (length h') h' (length h' - 1)) as [H1 H2]; [lia|lia|..].
  - intros k Hk Hne. unfold h'. pose proof (parent_lt k ltac:(lia)) as Hp. rewrite !lookup_total_app_l by lia. apply Hh; [lia|tauto].
  - intros k Hk Hp _. pose proof (parent_lt k ltac:(lia)); lia.
  - split; [done|]. rewrite H2. unfold h'. by rewrite Permutation_app_comm.
Qed.

Lemma heap_pop_spec h : heap_ok h ->
  match heap_pop h with
  | None => h = []
  | Some (x, h') => heap_ok h' /\ h ≡ₚ x :: h' /\ forall y, y ∈ h -> le x y
  end.
Proof.
  intros Hh. unfold heap_pop. destruct h as [|x0 t]; [done|]. set (h := x0 :: t) in *. set (n := (length h - 1)%nat).
  assert (Hl : length h = S n) by (unfold n, h; cbn; lia). set (hs := swap h 0 n).
  assert (Hs : forall k, hs !!! k = if decide (k = 0)%nat then h !!! n else if decide (k = n) then h !!! 0%nat else h !!! k)
    by (intros k; apply swap_lookup; lia).
  assert (Hd : ordered_but (fun _ => False) (down n hs 0 n) n /\ down n hs 0 n ≡ₚ hs /\ forall k, (n <= k)%nat -> down n hs 0 n !!! k = hs !!! k).
  { destruct (decide (n = 0%nat)) as [->|Hn]; [split; [intros k Hk; lia|done]|].
    apply down_ok; [lia|unfold hs; rewrite length_swap; lia|lia|..].
    - intros k Hk Hp. pose proof (parent_lt k ltac:(lia)) as Hlt.
      rewrite !Hs, (decide_False (P := k = 0%nat)), (decide_False (P := k = n)), (decide_False (P := parent k = 0%nat)),
        (decide_False (P := parent k = n)) by lia. apply Hh; [lia|tauto].
    - intros k Hk Hp. lia. }
  destruct Hd as (D1 & D2 & D3). set (hd := down n hs 0 n) in *.
  assert (Hperm : hd ≡ₚ h) by (rewrite D2; apply swap_perm; lia).
  assert (Hlen : length hd = S n) by (rewrite (Permutation_length Hperm); done).
  assert (Hx : hd !!! n = h !!! 0%nat).
  { rewrite D3, Hs by done. destruct (decide (n = 0%nat)) as [->|]; [done|]. by rewrite decide_True. }
  assert (Hsplit : hd = take n hd ++ [hd !!! n]).
  { rewrite <- (take_drop n hd) at 1. f_equal. rewrite (drop_S hd (hd !!! n) n); [|apply list_lookup_lookup_total_lt; lia].
    f_equal. apply drop_ge. lia. }
  split; [|split].
  - intros k Hk _. rewrite length_take in Hk. pose proof (parent_lt k ltac:(lia)) as Hlt.
    rewrite !list_lookup_total_alt, !lookup_take_lt, <- !list_lookup_total_alt by lia. apply D1; [lia|tauto].
  - rewrite <- Hperm, Hsplit at 1. by rewrite Permutation_app_comm.
  - intros y (k & Hk)%list_elem_of_lookup_1. rewrite Hx. apply lookup_lt_Some in Hk as Hlt.
    rewrite <- (list_lookup_total_correct _ _ _ Hk). by apply heap_min.
Qed.

Lemma heap_nil : heap_ok [].
Proof. intros k Hk. cbn in Hk. lia. Qed.

End Heap.
