(* ===== verification/Export.v ===== *)
(** cmd/export: the names of an archive's certificates, counted by an external
    sort — maps flushed to sorted chunks, chunks merged with a heap — and fanned
    out into shard and summary files. *)

From S2P Require Import Prelude GoStd Order LogClient Heap.

(** ** Definitions *)

(** *** Text files *)

Definition nl : ascii := ascii_of_N 10.
Definition cr : ascii := ascii_of_N 13.
Definition ht : ascii := ascii_of_N 9.

Definition drop_cr (line : string) : string := trim_suffix line (String cr "").

(** The buffer of a [bufio.Scanner]: a line that does not fit ends the scan. *)
Definition maxToken : Z := 1048576.

(** [scanner.Scan] and [Text] on what is left of a file. *)
Definition scan_line (rest : string) : option (string * string) :=
  let i := index_byte rest nl in
  if i <? 0 then
    if String.eqb rest "" || (maxToken <=? Z.of_nat (String.length rest)) then None else Some (drop_cr rest, "")
  else if maxToken <? i + 1 then None
  else Some (drop_cr (str_take i rest), str_drop (i + 1) rest).

(** [strconv.ParseUint(s, 10, 32)] with its error ignored: 0 for what is no
    number, the largest value when it does not fit. *)
Definition parse_u32 (s : string) : Z :=
  if String.eqb s "" || negb (str_forallb is_digit s) then 0
  else Z.min (dec_val 0 s) 4294967295.

(** *** The merge *)

(** A domain with its direct and its wildcard count. *)
Record entry := mkEntry { en_domain : string; en_direct : Z; en_wildcard : Z }.

(** The fields of [heapItem]; the scanner is what is left of its file. *)
Record heapItem := mkItem { hi_entry : entry; hi_rest : string }.

#[export] Instance entry_inhabited : Inhabited entry := populate (mkEntry "" 0 0).
#[export] Instance heapItem_inhabited : Inhabited heapItem := populate (mkItem inhabitant "").

(** [advance], on what is left of the item's file. *)
Definition advance (rest : string) : option heapItem :=
  match scan_line rest with
  | None => None
  | Some (line, rest) =>
      let t1 := index_byte line ht in
      if t1 <? 0 then None
      else
        let cols := str_drop (t1 + 1) line in
        let t2 := index_byte cols ht in
        if t2 <? 0 then None
        else Some (mkItem (mkEntry (str_take t1 line) (parse_u32 (str_take t2 cols)) (parse_u32 (str_drop (t2 + 1) cols))) rest)
  end.

Definition string_ltb (s t : string) : bool := match text_cmp s t with Lt => true | _ => false end.

(** [domainHeap.Less] *)
Definition item_less (a b : heapItem) : bool := string_ltb (en_domain (hi_entry a)) (en_domain (hi_entry b)).

(** The first item of every input, pushed in order. *)
Fixpoint push_inputs (inputs : list string) (h : list heapItem) : list heapItem :=
  match inputs with
  | [] => h
  | rest :: inputs =>
      push_inputs inputs (match advance rest with Some item => heap_push item_less h item | None => h end)
  end.

(** [emit]: nothing before the first domain. *)
Definition emit (cur : entry) (out : list entry) : list entry :=
  if String.eqb (en_domain cur) "" then out else out ++ [cur].

(** An item of the current domain adds its counts, another one emits it. *)
Definition merge_entry (cur e : entry) (out : list entry) : entry * list entry :=
  if negb (String.eqb (en_domain e) (en_domain cur)) then (e, emit cur out)
  else (mkEntry (en_domain cur) (wrap_u32 (en_direct cur + en_direct e)) (wrap_u32 (en_wildcard cur + en_wildcard e)), out).

(** The loop; [out] are the calls of [fn] so far. *)
Fixpoint kmerge_loop (fuel : nat) (h : list heapItem) (cur : entry) (out : list entry) : option (list entry) :=
  match heap_pop item_less h with
  | None => Some (emit cur out)
  | Some (item, h) =>
      match fuel with
      | O => None
      | S fuel =>
          let '(cur, out) := merge_entry cur (hi_entry item) out in
          kmerge_loop fuel (match advance (hi_rest item) with Some item => heap_push item_less h item | None => h end) cur out
      end
  end.

(** A turn reads a line, so the files' bytes bound the turns. *)
Definition kMerge (inputs : list string) : option (list entry) :=
  kmerge_loop (sum_list (map String.length inputs)) (push_inputs inputs []) (mkEntry "" 0 0) [].

(** ["%s\t%d\t%d\n"] *)
Definition tsv_line (e : entry) : string :=
  en_domain e +:+ String ht (dec (en_direct e) +:+ String ht (dec (en_wildcard e) +:+ String nl "")).

Definition lines_text (line : entry -> string) (es : list entry) : string := foldr (fun e text => line e +:+ text) "" es.

Definition kMergeToFile (chunks : list string) : option string := option_map (lines_text tsv_line) (kMerge chunks).

(** *** Counting *)

(** A uint64 per domain: the wildcard count in the high half. *)
Abbreviation counts := (gmap string Z).

Definition addDirect (m : counts) (d : string) : counts := <[d := wrap_u64 (default 0 (m !! d) + 1)]> m.
Definition addWildcard (m : counts) (d : string) : counts := <[d := wrap_u64 (default 0 (m !! d) + 4294967296)]> m.
Definition directCount (v : Z) : Z := wrap_u32 v.
Definition wildcardCount (v : Z) : Z := wrap_u32 (v / 4294967296).

Definition entry_of (dv : string * Z) : entry := mkEntry dv.1 (directCount dv.2) (wildcardCount dv.2).

(** The file writeSortedChunk makes of a map. *)
Definition writeSortedChunk (m : counts) : string :=
  lines_text tsv_line (map entry_of (sort_by (by_key fst text_cmp) (map_to_list m))).

(** A character normalize lets through. *)
Definition name_char (c : ascii) : bool :=
  let n := N_of_ascii c in ((97 <=? n)%N && (n <=? 122)%N) || is_digit c || Ascii.eqb c "-" || Ascii.eqb c "_" || Ascii.eqb c ".".

Definition last_char (s : string) : option ascii := last (list_ascii_of_string s).

Section Pipeline.

(** [strings.TrimSpace] and [strings.ToLower] *)
Variable TrimSpace ToLower : string -> string.

Definition normalize (s : string) : string :=
  let s := TrimSpace s in
  if String.eqb s "" then ""
  else
    let s := ToLower s in
    if negb (str_forallb name_char s) then ""
    else if (index_byte s "." <? 0) || bool_decide (String.get 0 s = Some "."%char) || bool_decide (last_char s = Some "."%char) then ""
    else s.

(** One piece of a san_domains value. *)
Definition count_raw (m : counts) (raw : string) : counts :=
  let raw := TrimSpace raw in
  let isWild := has_prefix raw "*." in
  let d := normalize (if isWild then str_drop 2 raw else raw) in
  if String.eqb d "" then m
  else if isWild then addWildcard m d else addDirect m d.

(** The rows of buildChunks; every [flushEvery] of them the map is flushed. *)
Definition flush_map (m : counts) (parts : list string) : list string :=
  if bool_decide (m = ∅) then parts else parts ++ [writeSortedChunk m].

Fixpoint build_loop (flushEvery : Z) (rows : list string) (m : counts) (rowCount : Z) (parts : list string) : list string :=
  match rows with
  | [] => flush_map m parts
  | sanDomains :: rows =>
      let m := foldl count_raw m (split_on "," sanDomains) in
      let rowCount := rowCount + 1 in
      if Z.rem rowCount flushEvery =? 0 then build_loop flushEvery rows ∅ rowCount (flush_map m parts)
      else build_loop flushEvery rows m rowCount parts
  end.

(** SELECT san_domains … WHERE san_domains != '' AND san_domains IS NOT NULL *)
Definition named_rows (rows : list (option string)) : list string :=
  filter (fun s => s <> "") (omap id rows).

(** The chunks of one database; a row count modulo zero panics. *)
Definition buildChunks (rows : list (option string)) (flushEvery : Z) : res (list string) :=
  match named_rows rows with
  | _ :: _ => if flushEvery =? 0 then Panic else Ok (build_loop flushEvery (named_rows rows) ∅ 0 [])
  | [] => Ok []
  end.

(** The file subjects_export.tsv of a date directory. *)
Definition buildDateExport (rows : list (option string)) (flushEvery : Z) : res string :=
  let? chunks := buildChunks rows flushEvery in
  match kMergeToFile chunks with Some text => Ok text | None => Panic end.

(** *** Shards *)

(** golang.org/x/net/publicsuffix *)
Variable etld_plus_one : string -> option string.
Variable public_suffix : string -> string.

Definition large_tld (tld : string) : bool := String.eqb tld "com".

Definition shardKey (domain : string) : string * string :=
  match etld_plus_one domain with
  | None => ("_other", "exports")
  | Some etld1 =>
      let tld := public_suffix domain in
      if String.eqb tld "" then ("_other", "exports")
      else if negb (large_tld tld) then (tld, "exports")
      else
        match trim_suffix etld1 ("." +:+ tld) with
        | "" => (tld, "exports")
        | String c _ =>
            let n := N_of_ascii c in
            if (97 <=? n)%N && (n <=? 122)%N then (tld, String c "")
            else if is_digit c then (tld, "0")
            else (tld, "_other")
        end
  end.

(** The shard's file under shards/. *)
Definition shard_path (domain : string) : string :=
  let '(tld, bucket) := shardKey domain in tld +:+ "/" +:+ bucket +:+ ".tsv".

(** What a run leaves in the output directory: the shards it wrote and the
    summary files; [ex_counts] is what the sort command makes of the counts. *)
Record export_out := mkOut {
  ex_shards : gmap string string; ex_direct : string; ex_wild : string; ex_counts : string }.

(** The callback of mergeAndShard. *)
Definition shard_entry (o : gmap string string) (e : entry) : gmap string string :=
  let path := shard_path (en_domain e) in <[path := default "" (o !! path) +:+ tsv_line e]> o.

Definition domain_line (e : entry) : string := en_domain e +:+ String nl "".

(** ["%d\t%d\t%s\n"] *)
Definition count_line (e : entry) : string :=
  dec (en_direct e) +:+ String ht (dec (en_wildcard e) +:+ String ht (en_domain e +:+ String nl "")).

(** The command sort -t TAB -k1,1rn. *)
Variable sort_counts : string -> string.

(** A shard's file is created when its first entry comes; other files of shards/
    stay as they are. *)
Definition mergeAndShard (shards : gmap string string) (exports : list string) : res export_out :=
  match kMerge exports with
  | None => Panic
  | Some es =>
      Ok (mkOut (foldl shard_entry ∅ es ∪ shards)
            (lines_text domain_line (filter (fun e => 0 < en_direct e) es))
            (lines_text domain_line (filter (fun e => ~ 0 < en_direct e) es))
            (sort_counts (lines_text count_line es)))
  end.

(** *** main *)

(** A date directory: the san_domains column of its subjects.db and its
    subjects_export.tsv. *)
Record date_dir := mkDate { dd_sans : list (option string); dd_export : option string }.

Fixpoint phase0 (flushEvery : Z) (archive : list date_dir) : res (list string) :=
  match archive with
  | [] => Ok []
  | d :: archive =>
      let? text := match dd_export d with Some text => Ok text | None => buildDateExport (dd_sans d) flushEvery end in
      let? exports := phase0 flushEvery archive in
      Ok (text :: exports)
  end.

(** The directories' exports after the run, and the output. *)
Definition export_main (flushEvery : Z) (archive : list date_dir) (shards : gmap string string) : res (list string * export_out) :=
  let? exports := phase0 flushEvery archive in
  match exports with
  | [] => Err (Errorf "no subjects.db files found")
  | _ => let? out := mergeAndShard shards exports in Ok (exports, out)
  end.

End Pipeline.
