(* ===== verification/ExportMerge.v ===== *)
(** The merge of cmd/export: reading back a file of lines, and the k-way merge
    of sorted files, which emits every domain once, in order, with the sums of
    its counts. *)

From S2P Require Import Prelude GoStd Order LogClient Heap Export.

(** ** Lemmas *)

(** *** Reading lines *)

Definition clean_char (c : ascii) : bool := negb (Ascii.eqb c nl) && negb (Ascii.eqb c ht).

(** What a line of a merge file can carry. *)
Record valid_entry (e : entry) : Prop := {
  ve_name : en_domain e <> "";
  ve_clean : str_forallb clean_char (en_domain e) = true;
  ve_direct : 0 <= en_direct e < 4294967296;
  ve_wild : 0 <= en_wildcard e < 4294967296;
  ve_length : Z.of_nat (String.length (en_domain e)) + 23 <= maxToken }.

Lemma go_length x s k : (x < 10 ^ N.of_nat k)%N -> (String.length (pretty_N_go x s) <= k + String.length s)%nat.
Proof.
  revert x s. induction k as [|k IH]; intros x s Hx.
  { replace x with 0%N by (cbn in Hx; lia). by rewrite pretty_N_go_0. }
  destruct (decide (x = 0%N)) as [->|Hne]; [rewrite pretty_N_go_0; lia|].
  rewrite pretty_N_go_step by lia. etrans; [apply IH|cbn; lia].
  apply N.Div0.div_lt_upper_bound. by rewrite <- N.pow_succ_r', <- Nat2N.inj_succ.
Qed.

Lemma dec_length n : 0 <= n < 4294967296 -> (String.length (dec n) <= 10)%nat.
Proof.
  intros Hn. destruct n as [|p|p]; [cbn; lia| |lia]. rewrite dec_pos. etrans; [apply (go_length _ "" 10)|cbn; lia]. cbn. lia.
Qed.

Lemma parse_u32_dec n : 0 <= n < 4294967296 -> parse_u32 (dec n) = n.
Proof.
  intros Hn. unfold parse_u32. destruct (String.eqb_spec (dec n) "") as [E|_]; [by apply dec_nonempty in E; [|lia]|].
  rewrite dec_digits, dec_val_dec by lia. cbn. lia.
Qed.

Lemma digits_clean s : str_forallb is_digit s = true -> str_forallb clean_char s = true.
Proof.
  apply str_forallb_impl. intros c Hc. unfold is_digit in Hc. unfold clean_char.
  destruct (Ascii.eqb_spec c nl) as [->|_]; [discriminate Hc|]. destruct (Ascii.eqb_spec c ht) as [->|_]; [discriminate Hc|]. done.
Qed.

Lemma clean_no c s : c = nl \/ c = ht -> str_forallb clean_char s = true -> str_forallb (fun x => negb (Ascii.eqb x c)) s = true.
Proof.
  intros Hc. apply str_forallb_impl. intros x Hx. unfold clean_char in Hx. apply andb_true_iff in Hx as [H1 H2].
  by destruct Hc as [-> | ->].
Qed.

Lemma drop_cr_digits a n : 0 <= n -> drop_cr (a +:+ dec n) = a +:+ dec n.
Proof.
  intros Hn. unfold drop_cr, trim_suffix. destruct (has_suffix (a +:+ dec n) (String cr "")) eqn:E; [|done]. exfalso.
  assert (Hlen : (String.length (String cr "") <= String.length (dec n))%nat).
  { pose proof (dec_nonempty n Hn). destruct (dec n); [done|cbn; lia]. }
  rewrite has_suffix_app_le in E by done. apply has_suffix_inv in E. pose proof (dec_digits n Hn) as Hd.
  rewrite E, str_forallb_app, andb_true_iff in Hd. by destruct Hd as [_ Hd].
Qed.

(** A line of the file, without its end. *)
Definition entry_line (e : entry) : string :=
  en_domain e +:+ String ht (dec (en_direct e) +:+ String ht (dec (en_wildcard e))).

Lemma scan_tsv_line e text : valid_entry e -> scan_line (tsv_line e +:+ text) = Some (entry_line e, text).
Proof.
  intros [Hn Hc Hd Hw Hl]. unfold scan_line, tsv_line, entry_line.
  set (w := dec (en_wildcard e)). set (d := dec (en_direct e)).
  set (line := en_domain e +:+ String ht (d +:+ String ht w)).
  assert (E : (en_domain e +:+ String ht (d +:+ String ht (w +:+ String nl ""))) +:+ text = line +:+ String nl text).
  { unfold line. rewrite !str_app_assoc. cbn. rewrite !str_app_assoc. cbn. by rewrite !str_app_assoc. }
  assert (Hcd : str_forallb clean_char d = true) by (apply digits_clean, dec_digits; lia).
  assert (Hcw : str_forallb clean_char w = true) by (apply digits_clean, dec_digits; lia).
  assert (Hnl : str_forallb (fun x => negb (Ascii.eqb x nl)) line = true).
  { unfold line. rewrite str_forallb_app. cbn. rewrite str_forallb_app. cbn. by rewrite !(clean_no nl) by auto. }
  assert (Hlen : (String.length line <= String.length (en_domain e) + 22)%nat).
  { pose proof (dec_length _ Hd). pose proof (dec_length _ Hw). unfold line, d, w. rewrite str_length_app. cbn. rewrite str_length_app. cbn. lia. }
  rewrite E, index_byte_app by done. destruct (Z.ltb_spec (Z.of_nat (String.length line)) 0); [lia|].
  destruct (Z.ltb_spec maxToken (Z.of_nat (String.length line) + 1)); [lia|].
  rewrite str_take_app, str_drop_sep by lia. do 2 f_equal. unfold line.
  change (String ht (d +:+ String ht w)) with (String ht "" +:+ (d +:+ (String ht "" +:+ w))).
  rewrite <- !str_app_assoc. apply drop_cr_digits. lia.
Qed.

(** The line up to its first tab is the domain. *)
Lemma entry_line_tab e : valid_entry e -> index_byte (entry_line e) ht = Z.of_nat (String.length (en_domain e)).
Proof. intros [Hn Hc _ _ _]. unfold entry_line. apply index_byte_app, clean_no; auto. Qed.

Lemma advance_line e text : valid_entry e -> advance (tsv_line e +:+ text) = Some (mkItem e text).
Proof.
  intros He. unfold advance. rewrite scan_tsv_line, entry_line_tab by done. pose proof He as [Hn Hc Hd Hw Hl]. unfold entry_line.
  destruct (Z.ltb_spec (Z.of_nat (String.length (en_domain e))) 0); [lia|]. rewrite str_take_app, str_drop_sep by lia.
  rewrite index_byte_app by (apply clean_no; [auto|by apply digits_clean, dec_digits; lia]).
  destruct (Z.ltb_spec (Z.of_nat (String.length (dec (en_direct e)))) 0); [lia|].
  rewrite str_take_app, str_drop_sep by lia. rewrite !parse_u32_dec by done. by destruct e.
Qed.

(** *** The entries of a file *)

Fixpoint entries_in (fuel : nat) (rest : string) : list entry :=
  match fuel with
  | O => []
  | S fuel => match advance rest with
              | None => []
              | Some item => hi_entry item :: entries_in fuel (hi_rest item)
              end
  end.

Definition entries_of (rest : string) : list entry := entries_in (String.length rest) rest.
Definition item_entries (item : heapItem) : list entry := hi_entry item :: entries_of (hi_rest item).

Lemma substring_length n m s : (String.length (String.substring n m s) <= String.length s - n)%nat.
Proof.
  revert n m. induction s as [|c s IH]; intros [|n] [|m]; cbn; try lia.
  - specialize (IH 0%nat m). lia.
  - apply IH.
  - apply IH.
Qed.

Lemma str_drop_length i s : 0 <= i -> (String.length (str_drop i s) <= String.length s - Z.to_nat i)%nat.
Proof. intros. apply substring_length. Qed.

Lemma index_byte_from_ge i s c : 0 <= i -> index_byte_from i s c = -1 \/ i <= index_byte_from i s c < i + Z.of_nat (String.length s).
Proof.
  revert i. induction s as [|a s IH]; intros i Hi; cbn; [by left|]. destruct (Ascii.eqb a c); [right; lia|].
  destruct (IH (i + 1)) as [->|]; [lia|by left|right; lia].
Qed.

Lemma index_byte_bound s c : 0 <= index_byte s c -> index_byte s c < Z.of_nat (String.length s).
Proof. intros H. destruct (index_byte_from_ge 0 s c) as [E|E]; unfold index_byte in *; lia. Qed.

Lemma scan_shorter rest line rest' : scan_line rest = Some (line, rest') -> (String.length rest' < String.length rest)%nat.
Proof.
  unfold scan_line. destruct (Z.ltb_spec (index_byte rest nl) 0) as [Hi|Hi].
  - destruct (String.eqb_spec rest "") as [->|Hne]; [done|]. destruct (maxToken <=? _); [done|]. intros [= _ <-].
    destruct rest; [done|cbn; lia].
  - destruct (maxToken <? _); [done|]. intros [= _ <-]. pose proof (index_byte_bound rest nl Hi).
    pose proof (str_drop_length (index_byte rest nl + 1) rest ltac:(lia)). lia.
Qed.

Lemma advance_shorter rest item : advance rest = Some item -> (String.length (hi_rest item) < String.length rest)%nat.
Proof.
  unfold advance. destruct (scan_line rest) as [[line rest']|] eqn:E; [|done]. apply scan_shorter in E.
  cbn zeta. destruct (_ <? 0); [done|]. destruct (_ <? 0); [done|]. by intros [= <-].
Qed.

Lemma entries_fuel n rest : (String.length rest <= n)%nat -> entries_in n rest = entries_of rest.
Proof.
  unfold entries_of. remember (String.length rest) as m eqn:Em. revert n rest Em.
  induction (lt_wf m) as [m _ IH]. intros n rest -> Hn. destruct n as [|n].
  { destruct rest; [done|cbn in Hn; lia]. }
  destruct (String.length rest) as [|m] eqn:El.
  { destruct rest; [done|done]. }
  cbn [entries_in]. destruct (advance rest) as [item|] eqn:Ea; [|done]. pose proof (advance_shorter _ _ Ea) as Hs. f_equal.
  rewrite (IH (String.length (hi_rest item))), (IH (String.length (hi_rest item)) ltac:(lia) m); (lia || done).
Qed.

Lemma entries_cons rest item : advance rest = Some item -> entries_of rest = item_entries item.
Proof.
  intros E. pose proof (advance_shorter _ _ E) as Hs. unfold entries_of at 1. destruct (String.length rest) as [|n]; [lia|].
  cbn [entries_in]. rewrite E. unfold item_entries. f_equal. apply entries_fuel. lia.
Qed.

Lemma entries_end rest : advance rest = None -> entries_of rest = [].
Proof. intros E. unfold entries_of. destruct (String.length rest); [done|]. cbn. by rewrite E. Qed.

Lemma entries_bound rest : (length (entries_of rest) <= String.length rest)%nat.
Proof.
  unfold entries_of. generalize (String.length rest) as n. intros n. revert rest.
  induction n as [|n IH]; intros rest; cbn; [lia|]. destruct (advance rest); [|cbn; lia]. cbn. specialize (IH (hi_rest h)). lia.
Qed.

(** What a chunk file holds is read back. *)
Lemma entries_lines es : Forall valid_entry es -> entries_of (lines_text tsv_line es) = es.
Proof.
  induction 1 as [|e es He Hes IH]; [done|]. cbn [lines_text foldr].
  rewrite (entries_cons _ (mkItem e (lines_text tsv_line es))) by (by apply advance_line).
  unfold item_entries. cbn [hi_entry hi_rest]. by rewrite IH.
Qed.

(** *** The heap *)

Definition dom_le (x y : entry) : Prop := le_of text_cmp (en_domain x) (en_domain y).
Definition dom_lt (x y : entry) : Prop := lt_of text_cmp (en_domain x) (en_domain y).

Lemma item_le a b : le item_less a b <-> dom_le (hi_entry a) (hi_entry b).
Proof.
  unfold le, item_less, string_ltb, dom_le, le_of. rewrite (cmp_opp (cmp := text_cmp) (en_domain (hi_entry a))).
  by destruct (text_cmp _ _).
Qed.

Lemma item_le_trans x y z : le item_less x y -> le item_less y z -> le item_less x z.
Proof. rewrite !item_le. apply (cmp_trans (cmp := text_cmp)). Qed.

Lemma item_less_le x y : item_less x y = true -> le item_less x y.
Proof.
  unfold item_less, string_ltb. intros H. apply item_le. unfold dom_le, le_of. by destruct (text_cmp _ _).
Qed.

Lemma dom_le_trans x y z : dom_le x y -> dom_le y z -> dom_le x z.
Proof. apply (cmp_trans (cmp := text_cmp)). Qed.

(** What is still to come, and that each file is sorted. *)
Definition pending (h : list heapItem) : list entry := h ≫= item_entries.
Definition sorted_items (h : list heapItem) : Prop := forall i, i ∈ h -> StronglySorted dom_le (item_entries i).

Lemma push_next rest h : heap_ok item_less h -> sorted_items h -> StronglySorted dom_le (entries_of rest) ->
  let h' := match advance rest with Some item => heap_push item_less h item | None => h end in
  heap_ok item_less h' /\ sorted_items h' /\ pending h' ≡ₚ entries_of rest ++ pending h.
Proof.
  intros Hh Hs Hr. destruct (advance rest) as [item|] eqn:E; cbn zeta.
  - destruct (heap_push_spec item_less item_le_trans item_less_le h item Hh) as [H1 H2]. split; [done|].
    rewrite (entries_cons _ _ E) in Hr |- *. split.
    + intros i Hi. rewrite H2 in Hi. apply elem_of_cons in Hi as [->|Hi]; [done|by apply Hs].
    + unfold pending. by rewrite H2.
  - split; [done|]. split; [done|]. by rewrite (entries_end _ E).
Qed.

Lemma pending_least h item h' : sorted_items h -> h ≡ₚ item :: h' -> (forall y, y ∈ h -> le item_less item y) ->
  forall e, e ∈ pending h -> dom_le (hi_entry item) e.
Proof.
  intros Hs Hp Hmin e (i & He & Hi)%list_elem_of_bind. eapply dom_le_trans; [by apply item_le, Hmin|].
  specialize (Hs i Hi). unfold item_entries in Hs, He. apply StronglySorted_inv in Hs as [_ Hs]. rewrite Forall_forall in Hs.
  apply elem_of_cons in He as [->|He]; [|by apply Hs]. unfold dom_le, le_of. by rewrite (cmp_refl text_cmp).
Qed.

(** *** The loop *)

(** [emit] and [merge_entry] over a sequence of entries. *)
Definition merge_all (es : list entry) (cur : entry) (out : list entry) : list entry :=
  let '(cur, out) := foldl (fun co e => merge_entry co.1 e co.2) (cur, out) es in emit cur out.

Lemma merge_all_cons e es cur out :
  merge_all (e :: es) cur out = merge_all es (merge_entry cur e out).1 (merge_entry cur e out).2.
Proof. unfold merge_all. cbn [foldl fst snd]. by destruct (merge_entry cur e out). Qed.

Lemma kmerge_loop_spec fuel h cur out : heap_ok item_less h -> sorted_items h -> (length (pending h) <= fuel)%nat ->
  exists es, es ≡ₚ pending h /\ StronglySorted dom_le es /\ kmerge_loop fuel h cur out = Some (merge_all es cur out).
Proof.
  revert h cur out. induction fuel as [|fuel IH]; intros h cur out Hh Hs Hf; cbn [kmerge_loop];
    pose proof (heap_pop_spec item_less item_le_trans item_less_le h Hh) as Hpop;
    destruct (heap_pop item_less h) as [[item h']|]; try (subst h; exists []; split; [done|]; split; [constructor|done]).
  { destruct Hpop as (_ & Hp & _). unfold pending in Hf. rewrite Hp in Hf. cbn in Hf. lia. }
  destruct Hpop as (Hh' & Hp & Hmin). destruct (merge_entry cur (hi_entry item) out) as [cur' out'] eqn:Em.
  assert (Hs' : sorted_items h') by (intros i Hi; apply Hs; rewrite Hp; by right).
  assert (Hr : StronglySorted dom_le (item_entries item)) by (apply Hs; rewrite Hp; by left).
  apply StronglySorted_inv in Hr as [Hr _].
  destruct (push_next (hi_rest item) h' Hh' Hs' Hr) as (H1 & H2 & H3). set (h'' := match advance _ with Some _ => _ | None => _ end) in *.
  assert (Hpend : pending h ≡ₚ hi_entry item :: pending h'').
  { rewrite H3. unfold pending. rewrite Hp. done. }
  destruct (IH h'' cur' out' H1 H2) as (es & E1 & E2 & E3).
  { rewrite Hpend in Hf. cbn in Hf. lia. }
  exists (hi_entry item :: es). split; [by rewrite Hpend, E1|]. split.
  - constructor; [done|]. apply Forall_forall. intros e He. eapply pending_least; [exact Hs|exact Hp|exact Hmin|].
    rewrite Hpend. right. by rewrite <- E1.
  - by rewrite merge_all_cons, Em.
Qed.

Lemma push_inputs_spec inputs h : heap_ok item_less h -> sorted_items h ->
  (forall s, s ∈ inputs -> StronglySorted dom_le (entries_of s)) ->
  let h' := push_inputs inputs h in
  heap_ok item_less h' /\ sorted_items h' /\ pending h' ≡ₚ (inputs ≫= entries_of) ++ pending h.
Proof.
  revert h. induction inputs as [|s inputs IH]; intros h Hh Hs Hi; [done|]. cbn [push_inputs].
  destruct (push_next s h Hh Hs (Hi s ltac:(by left))) as (H1 & H2 & H3).
  destruct (IH _ H1 H2 ltac:(intros; apply Hi; by right)) as (G1 & G2 & G3). split; [done|]. split; [done|].
  rewrite G3, H3. cbn. by rewrite !(assoc_L (++)), (Permutation_app_comm (entries_of s)).
Qed.

(** kMerge always ends, having merged all entries of its inputs in order. *)
Lemma kMerge_spec inputs : (forall s, s ∈ inputs -> StronglySorted dom_le (entries_of s)) ->
  exists es, es ≡ₚ inputs ≫= entries_of /\ StronglySorted dom_le es /\
    kMerge inputs = Some (merge_all es (mkEntry "" 0 0) []).
Proof.
  intros Hi. destruct (push_inputs_spec inputs [] (heap_nil _) ltac:(by intros i ?%elem_of_nil) Hi) as (H1 & H2 & H3).
  cbn [pending mbind list_bind] in H3. rewrite app_nil_r in H3.
  destruct (kmerge_loop_spec (sum_list (map String.length inputs)) (push_inputs inputs []) (mkEntry "" 0 0) [] H1 H2) as (es & E1 & E2 & E3).
  { rewrite H3. clear. induction inputs as [|s inputs IH]; [done|]. rewrite bind_cons, length_app.
    pose proof (entries_bound s). change (sum_list (map String.length (s :: inputs))) with (String.length s + sum_list (map String.length inputs))%nat.
    etrans; [by apply Nat.add_le_mono|done]. }
  exists es. split; [by rewrite E1|done].
Qed.

(** *** The sums *)

Definition of_domain (d : string) (es : list entry) : list entry := filter (fun e => en_domain e = d) es.
Definition total (f : entry -> Z) (d : string) (es : list entry) : Z := foldr (fun e n => f e + n) 0 (of_domain d es).

Lemma total_cons f d e es : total f d (e :: es) = (if decide (en_domain e = d) then f e else 0) + total f d es.
Proof. unfold total, of_domain. rewrite filter_cons. by destruct (decide _). Qed.

Lemma total_nil f d : total f d [] = 0.
Proof. done. Qed.

Lemma total_perm f d es es' : es ≡ₚ es' -> total f d es = total f d es'.
Proof. induction 1; rewrite ?total_cons; lia. Qed.

#[export] Instance total_proper f d : Proper ((≡ₚ) ==> eq) (total f d).
Proof. intros es es'. apply total_perm. Qed.

Lemma total_app f d es es' : total f d (es ++ es') = total f d es + total f d es'.
Proof. induction es as [|e es IH]; [done|]. cbn [app]. rewrite !total_cons. lia. Qed.

Lemma total_none f d es : (forall e, e ∈ es -> en_domain e <> d) -> total f d es = 0.
Proof.
  induction es as [|e es IH]; intros H; [done|]. rewrite total_cons, decide_False by (apply H; by left).
  rewrite IH; [done|]. intros x Hx. apply H. by right.
Qed.

Lemma total_domain d es : 0 < total en_direct d es + total en_wildcard d es -> exists x, x ∈ es /\ en_domain x = d.
Proof.
  intros H. destruct (decide (Exists (fun x => en_domain x = d) es)) as [He|He]; [by apply Exists_exists in He|].
  rewrite !total_none in H; [lia|..]; intros x Hx E; apply He, Exists_exists; eauto.
Qed.

(** The sums of sorted entries: each domain once, with the totals as uint32. *)
Record summed (es out : list entry) : Prop := {
  su_sorted : StronglySorted dom_lt out;
  su_elem : forall e, e ∈ out <-> (exists x, x ∈ es /\ en_domain x = en_domain e) /\
    en_direct e = wrap_u32 (total en_direct (en_domain e) es) /\ en_wildcard e = wrap_u32 (total en_wildcard (en_domain e) es) }.

(** The calls after the first one of a non-empty domain. *)
Fixpoint runs (cur : entry) (es : list entry) : list entry :=
  match es with
  | [] => [cur]
  | e :: es =>
      if String.eqb (en_domain e) (en_domain cur)
      then runs (mkEntry (en_domain cur) (wrap_u32 (en_direct cur + en_direct e)) (wrap_u32 (en_wildcard cur + en_wildcard e))) es
      else cur :: runs e es
  end.

Lemma merge_all_runs es cur out : en_domain cur <> "" -> (forall e, e ∈ es -> en_domain e <> "") ->
  merge_all es cur out = out ++ runs cur es.
Proof.
  revert cur out. induction es as [|e es IH]; intros cur out Hc Hes.
  { unfold merge_all, emit. cbn. by destruct (String.eqb_spec (en_domain cur) ""). }
  assert (He : en_domain e <> "") by (apply Hes; by left). assert (Hes' : forall x, x ∈ es -> en_domain x <> "") by (intros; apply Hes; by right).
  rewrite merge_all_cons. unfold merge_entry. cbn [runs]. destruct (String.eqb (en_domain e) (en_domain cur)); cbn [negb fst snd].
  - by rewrite IH.
  - rewrite IH by done. unfold emit. destruct (String.eqb_spec (en_domain cur) ""); [done|]. by rewrite <- (assoc_L (++)).
Qed.

Definition u32_entry (e : entry) : Prop := 0 <= en_direct e < 4294967296 /\ 0 <= en_wildcard e < 4294967296.

Lemma wrap_u32_id z : 0 <= z < 4294967296 -> wrap_u32 z = z.
Proof. apply Z.mod_small. Qed.

Lemma wrap_u32_add a b : wrap_u32 (wrap_u32 a + b) = wrap_u32 (a + b).
Proof. apply Zplus_mod_idemp_l. Qed.

Lemma runs_summed es cur : u32_entry cur -> Forall u32_entry es -> StronglySorted dom_le (cur :: es) ->
  summed (cur :: es) (runs cur es) /\ forall e, e ∈ runs cur es -> dom_le cur e.
Proof.
  revert cur. induction es as [|x es IH]; intros cur Hc Hu Hs; cbn [runs].
  { destruct Hc as [C1 C2]. split; [|intros e ->%list_elem_of_singleton; unfold dom_le, le_of; by rewrite (cmp_refl text_cmp)].
    split; [repeat constructor|]. intros e. rewrite list_elem_of_singleton, !total_cons, !total_nil, !Z.add_0_r. split.
    - intros ->. rewrite !decide_True, !wrap_u32_id by done. split; [exists cur; split; [by left|done]|done].
    - intros ((y & ->%list_elem_of_singleton & E) & E1 & E2). rewrite decide_True, wrap_u32_id in E1, E2 by done.
      destruct e, cur; cbn in *; congruence. }
  apply Forall_cons in Hu as [Hx Hu]. apply StronglySorted_inv in Hs as [Hs Hcx]. apply Forall_cons in Hcx as [Hcx Hce].
  pose proof (StronglySorted_inv Hs) as [Hs' Hxe].
  destruct (String.eqb_spec (en_domain x) (en_domain cur)) as [E|Hne].
  - set (cur' := mkEntry _ _ _). destruct (IH cur') as [[I1 I2] I3].
    + split; apply Z.mod_pos_bound; lia.
    + done.
    + constructor; [done|]. exact Hce.
    + split; [|exact I3]. split; [done|]. intros e. rewrite I2. rewrite !total_cons. cbn [en_domain en_direct en_wildcard cur'].
      rewrite E. destruct (decide (en_domain cur = en_domain e)) as [Ed|Ed].
      * rewrite !wrap_u32_add, !Z.add_assoc. split; intros ((y & Hy & Ey) & Hrest); (split; [|done]);
          [exists cur; split; [by left|done]|exists cur'; split; [by left|done]].
      * cbn [Z.add]. split; intros ((y & Hy & Ey) & Hrest); (split; [|done]); exists y; (split; [|done]); rewrite !elem_of_cons in *.
        -- destruct Hy as [->|Hy]; [by cbn in Ey|tauto].
        -- destruct Hy as [->|[->|Hy]]; [done|congruence|tauto].
  - destruct (IH x Hx Hu Hs) as [[I1 I2] I3].
    assert (Hlt : dom_lt cur x).
    { unfold dom_le, le_of, dom_lt, lt_of in *. destruct (text_cmp (en_domain cur) (en_domain x)) eqn:Ec; [|done|done].
      apply (cmp_eq (cmp := text_cmp)) in Ec. by destruct Hne. }
    assert (Hall : forall e, e ∈ x :: es -> dom_lt cur e).
    { intros e He. apply elem_of_cons in He as [->|He]; [done|]. rewrite Forall_forall in Hxe. eapply (lt_le_trans text_cmp); [exact Hlt|by apply Hxe]. }
    assert (Hno : forall e, e ∈ x :: es -> en_domain e <> en_domain cur).
    { intros e He Ee. specialize (Hall e He). unfold dom_lt in Hall. rewrite Ee in Hall. by apply (lt_irrefl text_cmp) in Hall. }
    split; [split|].
    + constructor; [done|]. apply Forall_forall. intros e He. eapply (lt_le_trans text_cmp); [exact Hlt|by apply I3].
    + intros e. rewrite elem_of_cons, I2, (total_cons _ _ cur), (total_cons _ _ cur). destruct (decide (en_domain cur = en_domain e)) as [Ed|Ed].
      * rewrite <- Ed, !(total_none _ _ (x :: es)) by done. destruct Hc as [C1 C2]. rewrite !Z.add_0_r, !wrap_u32_id by done. split.
        -- intros [->|((y & Hy & Ey) & _)]; [split; [exists cur; split; [by left|done]|done]|]. exfalso. by apply (Hno y Hy).
        -- intros (_ & E1 & E2). left. destruct e, cur; cbn in *; congruence.
      * cbn [Z.add]. split.
        -- intros [->|((y & Hy & Ey) & Hr)]; [done|]. split; [|done]. exists y. split; [by right|done].
        -- intros ((y & Hy & Ey) & Hr). right. split; [|done]. exists y. apply elem_of_cons in Hy as [->|Hy]; done.
    + intros e [->|He]%elem_of_cons; [unfold dom_le, le_of; by rewrite (cmp_refl text_cmp)|]. eapply dom_le_trans; [exact Hcx|by apply I3].
Qed.
