(* ===== verification/ExportCount.v ===== *)
(** What cmd/export writes: every name of the archive once, with the number of
    its direct and its wildcard appearances, whatever the flushes and merges
    in between; and each shard file holds exactly the lines that belong to it. *)

From S2P Require Import Prelude GoStd Order LogClient Heap Export ExportMerge.

(** ** Lemmas *)

Section Counting.

Context (TrimSpace ToLower : string -> string).

(** The name a piece of a san_domains value counts for, and whether as a
    wildcard. *)
Definition san_of (raw : string) : option (string * bool) :=
  let raw := TrimSpace raw in
  let isWild := has_prefix raw "*." in
  let d := normalize TrimSpace ToLower (if isWild then str_drop 2 raw else raw) in
  if String.eqb d "" then None else Some (d, isWild).

Definition hits (d : string) (wild : bool) (raws : list string) : Z :=
  Z.of_nat (length (filter (fun raw => san_of raw = Some (d, wild)) raws)).

(** The pieces of the rows of a database. *)
Definition pieces (rows : list string) : list string := rows ≫= split_on ",".

(** Each name once, in order, with its numbers of appearances. *)
Record exact (raws : list string) (es : list entry) : Prop := {
  xa_sorted : StronglySorted dom_lt es;
  xa_elem : forall e, e ∈ es <-> 0 < hits (en_domain e) false raws + hits (en_domain e) true raws /\
    en_direct e = hits (en_domain e) false raws /\ en_wildcard e = hits (en_domain e) true raws }.

Definition countable (raws : list string) : Prop := forall d w, hits d w raws < 4294967296.

(** No name is longer than a line of the merge files can be. *)
Definition short_names (raws : list string) : Prop :=
  forall raw d w, raw ∈ raws -> san_of raw = Some (d, w) -> Z.of_nat (String.length d) + 23 <= maxToken.

Lemma hits_nonneg d w raws : 0 <= hits d w raws.
Proof. unfold hits. lia. Qed.

Lemma hits_app d w a b : hits d w (a ++ b) = hits d w a + hits d w b.
Proof. unfold hits. rewrite filter_app, length_app. lia. Qed.

Lemma hits_snoc d w a raw : hits d w (a ++ [raw]) = hits d w a + (if decide (san_of raw = Some (d, w)) then 1 else 0).
Proof. rewrite hits_app. f_equal. unfold hits. rewrite filter_cons. by destruct (decide _). Qed.

Lemma hits_pos d w raws : 0 < hits d w raws -> exists raw, raw ∈ raws /\ san_of raw = Some (d, w).
Proof.
  unfold hits. intros H. destruct (filter _ raws) as [|raw l] eqn:E; [cbn in H; lia|]. exists raw.
  assert (Hin : raw ∈ filter (fun raw => san_of raw = Some (d, w)) raws) by (rewrite E; by left).
  apply list_elem_of_filter in Hin. tauto.
Qed.

Lemma countable_app a b : countable (a ++ b) -> countable a /\ countable b.
Proof.
  intros H. split; intros d w; specialize (H d w); rewrite hits_app in H; pose proof (hits_nonneg d w a); pose proof (hits_nonneg d w b); lia.
Qed.

Lemma short_app a b : short_names (a ++ b) <-> short_names a /\ short_names b.
Proof.
  unfold short_names. setoid_rewrite elem_of_app. split; [intros H; split; intros; eapply H; eauto|].
  intros [H1 H2] raw d w [Hr|Hr]; eauto.
Qed.

(** *** Names *)

Lemma name_char_clean c : name_char c = true -> clean_char c = true.
Proof.
  unfold name_char, clean_char. destruct (Ascii.eqb_spec c nl) as [->|_]; [intros H; discriminate H|].
  destruct (Ascii.eqb_spec c ht) as [->|_]; [intros H; discriminate H|done].
Qed.

Lemma normalize_clean s : str_forallb clean_char (normalize TrimSpace ToLower s) = true.
Proof.
  unfold normalize. destruct (String.eqb _ ""); [done|]. destruct (str_forallb name_char _) eqn:E; cbn [negb]; [|done].
  repeat case_match; [done|]. eapply str_forallb_impl; [|exact E]. exact name_char_clean.
Qed.

Lemma san_of_name raw d w : san_of raw = Some (d, w) -> d <> "" /\ str_forallb clean_char d = true.
Proof.
  unfold san_of. destruct (String.eqb_spec (normalize TrimSpace ToLower (if has_prefix (TrimSpace raw) "*." then str_drop 2 (TrimSpace raw) else TrimSpace raw)) "") as [E|E]; [done|].
  intros [= <- _]. split; [done|apply normalize_clean].
Qed.

Lemma exact_valid raws es : countable raws -> short_names raws -> exact raws es -> Forall valid_entry es.
Proof.
  intros Hc Hs [_ He]. apply Forall_forall. intros e (Hpos & Ed & Ew)%He.
  pose proof (Hc (en_domain e) false). pose proof (Hc (en_domain e) true).
  pose proof (hits_nonneg (en_domain e) false raws). pose proof (hits_nonneg (en_domain e) true raws).
  assert (exists raw w, raw ∈ raws /\ san_of raw = Some (en_domain e, w)) as (raw & w & Hr & Hn).
  { destruct (Z.ltb_spec 0 (hits (en_domain e) false raws)) as [Hd|Hd];
      [destruct (hits_pos _ _ _ Hd) as (raw & ? & ?)|destruct (hits_pos (en_domain e) true raws) as (raw & ? & ?); [lia|]]; eauto. }
  destruct (san_of_name _ _ _ Hn) as [Hn1 Hn2]. split; [done|done|lia|lia|by eapply Hs].
Qed.

(** *** Maps *)

Definition packed (d : string) (raws : list string) : Z := hits d false raws + 4294967296 * hits d true raws.

(** The map counts [raws]. *)
Definition counted (raws : list string) (m : counts) : Prop :=
  forall d, m !! d = if decide (0 < hits d false raws + hits d true raws) then Some (packed d raws) else None.

Lemma counted_nil : counted [] ∅.
Proof. intros d. done. Qed.

Lemma counted_default raws m d : counted raws m -> default 0 (m !! d) = packed d raws.
Proof.
  intros H. rewrite H. destruct (decide _) as [Hp|Hp]; [done|]. unfold packed.
  pose proof (hits_nonneg d false raws). pose proof (hits_nonneg d true raws). cbn. lia.
Qed.

Lemma count_raw_ok raws m raw : countable (raws ++ [raw]) -> counted raws m -> counted (raws ++ [raw]) (count_raw TrimSpace ToLower m raw).
Proof.
  intros Hc Hm. unfold count_raw. cbn zeta. set (isWild := has_prefix (TrimSpace raw) "*."). set (d := normalize _ _ _).
  assert (Hs : san_of raw = if String.eqb d "" then None else Some (d, isWild)) by reflexivity. revert Hs. destruct (String.eqb d ""); intros Hs.
  - assert (Hsame : forall d' w, hits d' w (raws ++ [raw]) = hits d' w raws) by (intros d' w; rewrite hits_snoc, Hs, decide_False by done; lia).
    intros d'. unfold packed. rewrite !Hsame. apply Hm.
  - assert (Hother : forall d' w, d' <> d \/ w <> isWild -> hits d' w (raws ++ [raw]) = hits d' w raws).
    { intros d' w Hne. rewrite hits_snoc, Hs, decide_False; [lia|]. intros [= <- <-]. by destruct Hne. }
    assert (Hself : hits d isWild (raws ++ [raw]) = hits d isWild raws + 1) by (by rewrite hits_snoc, Hs, decide_True).
    assert (Hb : forall w, 0 <= hits d w (raws ++ [raw]) < 4294967296) by (intros w; split; [apply hits_nonneg|apply Hc]).
    assert (Hnew : forall v, v = packed d (raws ++ [raw]) -> counted (raws ++ [raw]) (<[d := wrap_u64 v]> m)).
    { intros v -> d'. destruct (decide (d' = d)) as [->|Hne].
      - rewrite lookup_insert_eq. pose proof (hits_nonneg d false raws). pose proof (hits_nonneg d true raws).
        rewrite decide_True by (destruct isWild; rewrite ?Hself, ?Hother by auto; lia). f_equal. apply Z.mod_small.
        pose proof (Hb false). pose proof (Hb true). unfold packed, two64. lia.
      - rewrite lookup_insert_ne by done. rewrite Hm. unfold packed. by rewrite !Hother by auto. }
    unfold addWildcard, addDirect. rewrite (counted_default raws m d Hm). destruct isWild; apply Hnew; unfold packed;
      rewrite Hself, Hother by auto; lia.
Qed.

Lemma count_raws_ok raws new m : countable (raws ++ new) -> counted raws m -> counted (raws ++ new) (foldl (count_raw TrimSpace ToLower) m new).
Proof.
  revert raws m. induction new as [|raw new IH]; intros raws m Hc Hm; [by rewrite app_nil_r|]. cbn [foldl].
  rewrite cons_middle, (assoc_L (++)) in Hc |- *. apply IH; [done|]. apply count_raw_ok; [|done]. by apply countable_app in Hc as [Hc _].
Qed.

(** *** Chunks *)

Definition chunk_entries (m : counts) : list entry := map entry_of (sort_by (by_key fst text_cmp) (map_to_list m)).

Lemma chunk_sorted (m : counts) : StronglySorted dom_lt (chunk_entries m).
Proof.
  unfold chunk_entries. pose proof (sort_by_sorted (by_key fst text_cmp) (map_to_list m)) as Hs.
  assert (Hn : NoDup (sort_by (by_key fst text_cmp) (map_to_list m)).*1).
  { rewrite (sort_by_perm (by_key fst text_cmp)). apply NoDup_fst_map_to_list. }
  induction Hs as [|x l Hs IH Hx]; [constructor|]. cbn in Hn. apply NoDup_cons in Hn as [Hxn Hn]. cbn [map]. constructor; [by apply IH|].
  apply Forall_forall. intros e (y & -> & Hy)%list_elem_of_fmap. rewrite Forall_forall in Hx. specialize (Hx y Hy). unfold dom_lt, lt_of, entry_of. cbn [en_domain].
  unfold le_of, by_key in Hx. destruct (text_cmp x.1 y.1) eqn:E; [|done|done]. apply (cmp_eq (cmp := text_cmp)) in E.
  destruct Hxn. rewrite E. apply list_elem_of_fmap. eauto.
Qed.

Lemma chunk_exact raws m : countable raws -> counted raws m -> exact raws (chunk_entries m).
Proof.
  intros Hc Hm. split; [apply chunk_sorted|]. intros e. unfold chunk_entries. rewrite list_elem_of_fmap.
  assert (Hhalf : forall d, directCount (packed d raws) = hits d false raws /\ wildcardCount (packed d raws) = hits d true raws).
  { intros d. unfold directCount, wildcardCount, packed, wrap_u32.
    pose proof (hits_nonneg d false raws). pose proof (hits_nonneg d true raws). pose proof (Hc d false). pose proof (Hc d true).
    split; [rewrite Z.mul_comm, Z_mod_plus_full; by apply Z.mod_small|].
    rewrite Z.mul_comm, Z.div_add, Z.div_small by lia. by apply Z.mod_small. }
  split.
  - intros ([d v] & -> & Hin). rewrite (elem_of_sort_by (by_key fst text_cmp)), elem_of_map_to_list, Hm in Hin.
    destruct (decide _) as [Hp|]; [|done]. injection Hin as <-. cbn. destruct (Hhalf d) as [-> ->]. done.
  - intros (Hp & E1 & E2). exists (en_domain e, packed (en_domain e) raws). split.
    + destruct e as [d x y]. unfold entry_of. cbn in *. destruct (Hhalf d) as [-> ->]. congruence.
    + rewrite (elem_of_sort_by (by_key fst text_cmp)), elem_of_map_to_list, Hm. by rewrite decide_True.
Qed.

Definition same_hits (a b : list string) : Prop := forall d w, hits d w a = hits d w b.

Lemma exact_same a b es : same_hits a b -> exact a es -> exact b es.
Proof. intros H [H1 H2]. split; [done|]. intros e. rewrite H2. by rewrite !H. Qed.

Lemma countable_same a b : same_hits a b -> countable a -> countable b.
Proof. intros H Hc d w. rewrite <- H. apply Hc. Qed.

(** The segments of the pieces that reach a chunk each; a segment without a
    name is dropped. *)
Record chunked (raws : list string) (segs : list (list string)) (parts : list string) : Prop := {
  ck_parts : Forall2 (fun seg text => exists m, counted seg m /\ text = lines_text tsv_line (chunk_entries m)) segs parts;
  ck_hits : same_hits (concat segs) raws;
  ck_in : forall seg, seg ∈ segs -> seg ⊆ raws }.

Lemma chunked_nil : chunked [] [] [].
Proof. split; [apply Forall2_nil_2|done|by intros seg ?%elem_of_nil]. Qed.

Lemma flush_chunked raws segs parts new m : chunked raws segs parts -> counted new m ->
  exists segs', chunked (raws ++ new) segs' (flush_map m parts).
Proof.
  intros [H1 H2 H3] Hm. unfold flush_map. case_bool_decide as E.
  - exists segs. split; [done| |intros seg Hs; set_solver]. intros d w. rewrite H2, hits_app.
    specialize (Hm d). rewrite E, lookup_empty in Hm. destruct (decide _) as [|Hz]; [done|].
    pose proof (hits_nonneg d false new). pose proof (hits_nonneg d true new). destruct w; lia.
  - exists (segs ++ [new]). split.
    + apply Forall2_app; [done|]. constructor; [by exists m|constructor].
    + intros d w. rewrite concat_app. cbn. by rewrite app_nil_r, !hits_app, H2.
    + intros seg [Hs|Hs]%elem_of_app; [specialize (H3 _ Hs); set_solver|apply list_elem_of_singleton in Hs as ->; set_solver].
Qed.

Lemma pieces_cons row rows : pieces (row :: rows) = split_on "," row ++ pieces rows.
Proof. done. Qed.

Lemma build_loop_chunked fe rows m rc parts raws segs new : countable (raws ++ new ++ pieces rows) ->
  chunked raws segs parts -> counted new m ->
  exists segs', chunked (raws ++ new ++ pieces rows) segs' (build_loop TrimSpace ToLower fe rows m rc parts).
Proof.
  revert m rc parts raws segs new. induction rows as [|row rows IH]; intros m rc parts raws segs new Hc Hk Hm.
  { cbn [build_loop pieces]. rewrite app_nil_r. by eapply flush_chunked. }
  rewrite pieces_cons, (assoc_L (++) new) in Hc |- *. cbn [build_loop].
  assert (Hm' : counted (new ++ split_on "," row) (foldl (count_raw TrimSpace ToLower) m (split_on "," row))).
  { apply count_raws_ok; [|done]. apply countable_app in Hc as [_ Hc]. by apply countable_app in Hc as [Hc _]. }
  destruct (Z.rem (rc + 1) fe =? 0).
  - destruct (flush_chunked _ _ _ _ _ Hk Hm') as (segs' & Hk').
    destruct (IH ∅ (rc + 1) _ _ segs' [] ltac:(by rewrite <- (assoc_L (++))) Hk' counted_nil) as (segs'' & Hk''). exists segs''.
    rewrite <- (assoc_L (++)) in Hk''. exact Hk''.
  - by eapply IH.
Qed.

(** *** Merging exact files *)

Lemma strict_total f d es : StronglySorted dom_lt es -> total f d es = match of_domain d es with [] => 0 | e :: _ => f e end.
Proof.
  intros Hs. unfold of_domain. induction Hs as [|e es Hs IH He]; [done|]. rewrite total_cons, filter_cons. destruct (decide (en_domain e = d)) as [Ed|Hd]; [|exact IH].
  rewrite total_none; [lia|]. intros x Hx Ex. rewrite Forall_forall in He. specialize (He x Hx). unfold dom_lt in He. rewrite Ed, Ex in He.
  by apply (lt_irrefl text_cmp) in He.
Qed.

Lemma exact_total raws es d : exact raws es -> total en_direct d es = hits d false raws /\ total en_wildcard d es = hits d true raws.
Proof.
  intros [Hs Hin]. rewrite !strict_total by done. unfold of_domain.
  destruct (filter (fun e => en_domain e = d) es) as [|e l] eqn:E.
  - assert (~ 0 < hits d false raws + hits d true raws) as Hz.
    { intros Hp. assert (Hx : mkEntry d (hits d false raws) (hits d true raws) ∈ filter (fun e => en_domain e = d) es)
        by (apply list_elem_of_filter; split; [done|by apply Hin]). rewrite E in Hx. by apply elem_of_nil in Hx. }
    pose proof (hits_nonneg d false raws). pose proof (hits_nonneg d true raws). lia.
  - assert (Hx : e ∈ filter (fun e => en_domain e = d) es) by (rewrite E; by left). apply list_elem_of_filter in Hx as [<- Hx].
    apply Hin in Hx as (_ & E1 & E2). done.
Qed.

Lemma merged_hits segs ess e : Forall2 (fun seg es => exact seg es /\ Forall valid_entry es) segs ess -> e ∈ concat ess ->
  0 < hits (en_domain e) false (concat segs) + hits (en_domain e) true (concat segs).
Proof.
  induction 1 as [|seg es segs ess [He _] Hf IH]; [by intros ?%elem_of_nil|]. cbn [concat]. rewrite !hits_app.
  pose proof (hits_nonneg (en_domain e) false seg). pose proof (hits_nonneg (en_domain e) true seg).
  pose proof (hits_nonneg (en_domain e) false (concat segs)). pose proof (hits_nonneg (en_domain e) true (concat segs)).
  intros [Hin|Hin]%elem_of_app; [apply He in Hin; lia|specialize (IH Hin); lia].
Qed.

Lemma merge_exact raws segs ess : Forall2 (fun seg es => exact seg es /\ Forall valid_entry es) segs ess ->
  same_hits (concat segs) raws -> countable raws ->
  exists es, kMerge (map (lines_text tsv_line) ess) = Some es /\ exact raws es.
Proof.
  intros Hf Hsame Hc.
  assert (Hr : map (lines_text tsv_line) ess ≫= entries_of = concat ess).
  { clear -Hf. induction Hf as [|seg es segs ess [_ Hv] Hf IH]; [done|]. cbn [map concat]. rewrite bind_cons, IH. by rewrite entries_lines. }
  assert (Htot : forall d, total en_direct d (concat ess) = hits d false raws /\ total en_wildcard d (concat ess) = hits d true raws).
  { intros d. rewrite <- !Hsame. clear -Hf. induction Hf as [|seg es segs ess [He _] Hf IH]; [done|]. cbn [concat].
    rewrite !total_app, !hits_app. destruct (exact_total seg es d He) as [-> ->]. destruct IH as [-> ->]. done. }
  assert (Hval : Forall valid_entry (concat ess)) by (apply Forall_concat; clear -Hf; induction Hf as [|seg es segs ess [_ Hv] Hf IH]; by constructor).
  destruct (kMerge_spec (map (lines_text tsv_line) ess)) as (all & Hp & Hs & ->).
  { intros s (es & -> & Hes)%list_elem_of_fmap. clear -Hf Hes. induction Hf as [|seg es' segs ess [[He _] Hv] Hf IH]; [by apply elem_of_nil in Hes|].
    apply elem_of_cons in Hes as [->|Hes]; [|by apply IH]. rewrite entries_lines by done.
    clear -He. induction He as [|e es He IH Hx]; constructor; [done|]. eapply Forall_impl; [exact Hx|]. intros y Hy. by apply lt_le. }
  rewrite Hr in Hp. eexists. split; [done|].
  assert (Hne : forall e, e ∈ all -> u32_entry e /\ en_domain e <> "").
  { intros e He. rewrite Hp in He. rewrite Forall_forall in Hval. destruct (Hval e He). done. }
  destruct all as [|e all].
  { split; [constructor|]. intros e. split; [by intros ?%elem_of_nil|]. intros (Hpos & _).
    pose proof (Htot (en_domain e)) as [T1 T2]. rewrite <- Hp in T1, T2. rewrite total_nil in T1, T2. lia. }
  rewrite merge_all_cons. unfold merge_entry. cbn [en_domain].
  destruct (Hne e ltac:(by left)) as [He Hed]. destruct (String.eqb_spec (en_domain e) ""); [done|]. cbn [negb fst snd].
  change (emit (mkEntry "" 0 0) []) with (@nil entry). rewrite merge_all_runs; [|done|intros x Hx; apply Hne; by right]. cbn [app].
  destruct (runs_summed all e He) as [[R1 R2] _]; [apply Forall_forall; intros x Hx; apply Hne; by right|done|].
  split; [done|]. intros x. rewrite R2, Hp. destruct (Htot (en_domain x)) as [-> ->].
  pose proof (Hc (en_domain x) false). pose proof (Hc (en_domain x) true).
  pose proof (hits_nonneg (en_domain x) false raws). pose proof (hits_nonneg (en_domain x) true raws). rewrite !wrap_u32_id by lia.
  split; intros (Hx & Hsum); (split; [|done]).
  - destruct Hx as (y & Hy & <-). rewrite <- !Hsame. rewrite Hp in Hy. by apply (merged_hits segs ess).
  - apply total_domain. rewrite Hp. destruct (Htot (en_domain x)) as [-> ->]. lia.
Qed.

End Counting.
