(* ===== verification/ExportMain.v ===== *)
(** A whole run of cmd/export: its outputs are an exact count of the archive's
    names, whatever the flush interval and however many files are merged. *)

From S2P Require Import Prelude GoStd Order LogClient Heap Export ExportMerge ExportCount.

(** ** Definitions *)

Section Runs.

Context (TrimSpace ToLower : string -> string).

Definition dir_raws (d : date_dir) : list string := pieces (named_rows (dd_sans d)).

(** The directory has no export yet, or one that is up to date. *)
Definition current (d : date_dir) : Prop :=
  match dd_export d with
  | None => True
  | Some text => exists es, exact TrimSpace ToLower (dir_raws d) es /\ text = lines_text tsv_line es
  end.

Definition archive_raws (archive : list date_dir) : list string := archive ≫= dir_raws.

(** ** Lemmas *)

Abbreviation exact_of := (exact TrimSpace ToLower).
Abbreviation countable_of := (countable TrimSpace ToLower).
Abbreviation short_of := (short_names TrimSpace ToLower).

Definition good_file (raws : list string) (text : string) : Prop :=
  exists es, exact_of raws es /\ Forall valid_entry es /\ text = lines_text tsv_line es.

Lemma good_files_entries segs texts : Forall2 good_file segs texts ->
  exists ess, texts = map (lines_text tsv_line) ess /\ Forall2 (fun seg es => exact_of seg es /\ Forall valid_entry es) segs ess.
Proof.
  induction 1 as [|seg text segs texts (es & H1 & H2 & ->) Hf (ess & -> & IH)]; [by exists []|].
  exists (es :: ess). split; [done|]. by constructor.
Qed.

Lemma archive_segments archive : same_hits TrimSpace ToLower (concat (map dir_raws archive)) (archive_raws archive).
Proof.
  intros d w. f_equal. unfold archive_raws. induction archive as [|x l IH]; [done|]. cbn [map concat]. by rewrite bind_cons, IH.
Qed.

Lemma short_sub a b : a ⊆ b -> short_of b -> short_of a.
Proof. intros Hs H raw d w Hr. apply H. by apply Hs. Qed.

Lemma countable_concat segs seg : countable_of (concat segs) -> seg ∈ segs -> countable_of seg.
Proof.
  intros Hc (l1 & l2 & ->)%list_elem_of_split. rewrite concat_app in Hc. apply countable_app in Hc as [_ Hc]. cbn in Hc.
  by apply countable_app in Hc as [Hc _].
Qed.

(** The chunks of a database are exact for segments that make up its pieces. *)
Lemma chunks_good sans fe : fe <> 0 -> countable_of (pieces (named_rows sans)) -> short_of (pieces (named_rows sans)) ->
  exists parts segs, buildChunks TrimSpace ToLower sans fe = Ok parts /\ Forall2 good_file segs parts /\
    same_hits TrimSpace ToLower (concat segs) (pieces (named_rows sans)).
Proof.
  intros Hfe Hc Hs. unfold buildChunks. destruct (Z.eqb_spec fe 0) as [|_]; [done|]. set (rows := named_rows sans) in *.
  destruct (build_loop_chunked TrimSpace ToLower fe rows ∅ 0 [] [] [] []) as (segs & [Hparts Hhits Hin]); [done|apply chunked_nil|apply counted_nil|].
  set (parts := build_loop TrimSpace ToLower fe rows ∅ 0 []) in *. exists parts, segs.
  split; [unfold parts; by destruct rows|]. split; [|done].
  assert (Hcs : countable_of (concat segs)) by (eapply countable_same; [|exact Hc]; intros x w; by rewrite Hhits).
  assert (Hall : forall seg, seg ∈ segs -> countable_of seg /\ short_of seg).
  { intros seg Hseg. split; [by eapply countable_concat|]. by eapply short_sub; [apply Hin|]. }
  clear -Hparts Hall. induction Hparts as [|seg text segs parts (m & Hm & ->) Hf IH]; constructor; [|apply IH; intros; apply Hall; by right].
  destruct (Hall seg ltac:(by left)) as [H1 H2]. pose proof (chunk_exact _ _ _ _ H1 Hm) as He.
  exists (chunk_entries m). split; [done|]. split; [exact (exact_valid _ _ _ _ H1 H2 He)|done].
Qed.

(** Merging files that are exact for segments of [raws]. *)
Lemma merge_good raws segs texts : Forall2 good_file segs texts -> same_hits TrimSpace ToLower (concat segs) raws -> countable_of raws ->
  exists es, kMerge texts = Some es /\ exact_of raws es.
Proof. intros (ess & -> & Hess)%good_files_entries Hsame Hc. by apply (merge_exact _ _ raws segs ess). Qed.

Lemma date_export_good d fe : fe <> 0 -> countable_of (dir_raws d) -> short_of (dir_raws d) ->
  exists text, buildDateExport TrimSpace ToLower (dd_sans d) fe = Ok text /\ good_file (dir_raws d) text.
Proof.
  intros Hfe Hc Hs. destruct (chunks_good (dd_sans d) fe Hfe Hc Hs) as (parts & segs & E & Hgood & Hsame).
  unfold buildDateExport, kMergeToFile. rewrite E. cbn [bind_res].
  destruct (merge_good _ _ _ Hgood Hsame Hc) as (es & -> & He).
  eexists. split; [done|]. exists es. split; [done|]. split; [exact (exact_valid _ _ _ _ Hc Hs He)|done].
Qed.

Lemma phase0_good archive fe : fe <> 0 -> countable_of (archive_raws archive) -> short_of (archive_raws archive) ->
  Forall current archive ->
  exists texts, phase0 TrimSpace ToLower fe archive = Ok texts /\ Forall2 good_file (map dir_raws archive) texts.
Proof.
  intros Hfe. induction archive as [|d archive IH]; intros Hc Hs Hcur; [by exists []|].
  unfold archive_raws in *. rewrite bind_cons in Hc, Hs. apply countable_app in Hc as [Hc1 Hc2]. apply short_app in Hs as [Hs1 Hs2].
  apply Forall_cons in Hcur as [Hd Hcur]. destruct (IH Hc2 Hs2 Hcur) as (texts & E & Hf). cbn [phase0 map].
  assert (Ht : exists text, match dd_export d with Some text => Ok text | None => buildDateExport TrimSpace ToLower (dd_sans d) fe end = Ok text /\
                            good_file (dir_raws d) text).
  { unfold current in Hd. destruct (dd_export d) as [text|]; [|by apply date_export_good]. exists text. split; [done|].
    destruct Hd as (es & He & ->). exists es. split; [done|]. split; [exact (exact_valid _ _ _ _ Hc1 Hs1 He)|done]. }
  destruct Ht as (text & -> & Hg). cbn [bind_res]. rewrite E. cbn [bind_res]. eexists. split; [done|]. by constructor.
Qed.

(** A file of the fan-out holds the lines with its path, in their order. *)
Lemma shard_files etld_plus_one public_suffix es (files : gmap string string) path :
  foldl (shard_entry etld_plus_one public_suffix) files es !! path =
  match filter (fun e => shard_path etld_plus_one public_suffix (en_domain e) = path) es with
  | [] => files !! path
  | l => Some (default "" (files !! path) +:+ lines_text tsv_line l)
  end.
Proof.
  revert files. induction es as [|e es IH]; intros files; [done|]. cbn [foldl]. rewrite IH, filter_cons.
  unfold shard_entry at 1 2. destruct (decide _) as [<-|Hne].
  - rewrite lookup_insert_eq. cbn [default from_option id lines_text foldr]. destruct (filter _ es); [by rewrite str_app_nil_r|].
    by rewrite str_app_assoc.
  - by rewrite lookup_insert_ne.
Qed.

End Runs.

(** ** Properties *)

(** C15. A run of the exporter counts exactly: over an archive whose existing
    exports are up to date, for any flush interval, the merge sees every name of
    the certificates once, in order, with the number of its direct and of its
    wildcard appearances; the two name files split those names by whether they
    appear directly, and each shard file that gets a name holds exactly the lines
    with its path. No count reaches 2^32, and no name the length of a line. *)
Theorem export_exact (TrimSpace ToLower : string -> string) (etld_plus_one : string -> option string) (public_suffix : string -> string)
  (sort_counts : string -> string) (flushEvery : Z) (archive : list date_dir) (shards : gmap string string)
  (Hflush : flushEvery <> 0) (Harchive : archive <> []) (Hcurrent : Forall (current TrimSpace ToLower) archive)
  (Hcount : countable TrimSpace ToLower (archive_raws archive)) (Hshort : short_names TrimSpace ToLower (archive_raws archive)) :
  exists exports out es,
    export_main TrimSpace ToLower etld_plus_one public_suffix sort_counts flushEvery archive shards = Ok (exports, out) /\
    exact TrimSpace ToLower (archive_raws archive) es /\
    ex_direct out = lines_text domain_line (filter (fun e => 0 < en_direct e) es) /\
    ex_wild out = lines_text domain_line (filter (fun e => ~ 0 < en_direct e) es) /\
    ex_counts out = sort_counts (lines_text count_line es) /\
    forall path, ex_shards out !! path =
      match filter (fun e => shard_path etld_plus_one public_suffix (en_domain e) = path) es with
      | [] => shards !! path
      | l => Some (lines_text tsv_line l)
      end.
Proof.
  destruct (phase0_good TrimSpace ToLower archive flushEvery Hflush Hcount Hshort Hcurrent) as (texts & E & Hgood).
  destruct (merge_good TrimSpace ToLower (archive_raws archive) _ texts Hgood) as (es & Ek & He); [apply archive_segments|done|].
  unfold export_main. rewrite E. cbn [bind_res]. unfold mergeAndShard. rewrite Ek. cbn [bind_res].
  destruct texts as [|t ts]; [by destruct archive; [|inversion Hgood]|]. eexists _, _, es. split; [done|]. split; [done|].
  split; [done|]. split; [done|]. split; [done|]. intros path. cbn [ex_shards].
  pose proof (shard_files etld_plus_one public_suffix es ∅ path) as Hp. rewrite lookup_empty in Hp. cbn [default] in Hp.
  destruct (filter _ es) as [|e l]; [by apply lookup_union_r|]. by apply lookup_union_Some_l.
Qed.

(** ** Witnesses *)

(** Two months of three certificates; the first month has its export already. *)
Definition demo_months : list date_dir :=
  [mkDate [Some "b.example.com,*.example.com"] (Some (lines_text tsv_line [mkEntry "b.example.com" 1 0; mkEntry "example.com" 0 1]));
   mkDate [Some "a.net, b.example.com"; None; Some "*.a.net,bad_name,b.example.com"] None].

Definition demo_etld1 (s : string) : option string := Some (if has_suffix s "a.net" then "a.net" else "example.com").
Definition demo_psl (s : string) : string := if has_suffix s ".net" then "net" else "com".

Definition demo_names : list entry := [mkEntry "a.net" 1 1; mkEntry "b.example.com" 3 0; mkEntry "example.com" 0 1].

Lemma few_hits raws : (length raws <= 100)%nat -> countable id id raws.
Proof. intros Hl d w. unfold hits. pose proof (length_filter (fun raw => san_of id id raw = Some (d, w)) raws). lia. Qed.

Lemma export_exact_witness :
  kMerge [lines_text tsv_line [mkEntry "b.example.com" 1 0; mkEntry "example.com" 0 1];
          lines_text tsv_line [mkEntry "a.net" 1 1; mkEntry "b.example.com" 2 0]] = Some demo_names /\
  exists exports out es,
    export_main id id demo_etld1 demo_psl id 1 demo_months ∅ = Ok (exports, out) /\ exact id id (archive_raws demo_months) es /\
    ex_direct out = lines_text domain_line (filter (fun e => 0 < en_direct e) es).
Proof.
  split; [vm_compute; reflexivity|].
  destruct (export_exact id id demo_etld1 demo_psl id 1 demo_months ∅) as (exports & out & es & H1 & H2 & H3 & _).
  - discriminate.
  - discriminate.
  - constructor; [|constructor; [exact I|constructor]]. eexists. split; [|reflexivity].
    set (raws := dir_raws _). assert (Hc : countable id id raws) by (apply few_hits; apply Nat.leb_le; vm_compute; reflexivity).
    exact (chunk_exact id id raws _ Hc (count_raws_ok id id [] raws ∅ Hc (counted_nil id id))).
  - apply few_hits, Nat.leb_le. vm_compute. reflexivity.
  - intros raw d w Hr Hn. assert (Hd : forall raw, raw ∈ archive_raws demo_months -> match san_of id id raw with Some (d, _) => (String.length d <= 100)%nat | None => True end).
    { apply Forall_forall. vm_compute. repeat constructor; lia. }
    specialize (Hd raw Hr). rewrite Hn in Hd. unfold maxToken. lia.
  - exists exports, out, es. split; [exact H1|]. split; [exact H2|exact H3].
Defined.

(** ** What the condition on existing exports leaves out *)

(** A month that grows after its export: phase 0 passes over it, and the names
    of the certificates added since are not exported. *)
Lemma grown_month_not_exported :
  match export_main id id demo_etld1 demo_psl id 1
          [mkDate [Some "b.example.com"; Some "new.example.com"] (Some (lines_text tsv_line [mkEntry "b.example.com" 1 0]))] ∅ with
  | Ok (_, out) => ex_direct out
  | _ => ""
  end = "b.example.com" +:+ String nl "".
Proof. vm_compute. reflexivity. Qed.
