(* ===== verification/RawSan.v ===== *)
(** tools/rawscan: the exporter's name counts from a sequential scan of the
    database file instead of a cursor. Its counting, chunk and merge functions
    are those of cmd/export, which it repeats (Export.v); on a file whose rows do
    not overflow their pages it writes what cmd/export writes. *)

From S2P Require Import Prelude GoStd Order RawScan PageScan LogClient Heap Export ExportMerge ExportCount ExportMain.

(** ** Definitions *)

Definition sanDomainsColIdx : nat := 9.

(** The san_domains text of a cell; [None] skips the row. *)
Definition san_from_cell (page : bytes) (cellOff pageSize : Z) : res (option string) :=
  let? h := cell_header page cellOff pageSize in
  match h with
  | None => Ok None
  | Some (pos, headerEnd) =>
      let? types := read_types (S sanDomainsColIdx) page headerEnd pos in
      match types with
      | None => Ok None
      | Some typeCodes =>
          match typeCodes !! sanDomainsColIdx with
          | None => Ok None
          | Some tc =>
              let dataOff := foldl (fun off tc => wrap64 (off + sqliteColDataSize tc)) headerEnd (take sanDomainsColIdx typeCodes) in
              if (tc <? 13) || (tc mod 2 =? 0) then Ok None else
              let textLen := int_of_u64 ((tc - 13) / 2) in
              if (textLen =? 0) || (pageSize <? wrap64 (dataOff + textLen)) then Ok None else
              let? text := go_slice page dataOff (wrap64 (dataOff + textLen)) in
              Ok (Some (String.string_of_list_byte text))
          end
      end
  end.

(** The texts handed to the callback, in the order of the file. *)
Definition rawScanSanDomains (file : bytes) : res (list string) :=
  let? rows := file_rows san_from_cell file in Ok (omap id rows).

Section Scan.

Context (TrimSpace ToLower : string -> string).

(** The chunks of one database. *)
Definition scan_chunks (file : bytes) (flushEvery : Z) : res (list string) :=
  let? rows := rawScanSanDomains file in
  match rows with
  | _ :: _ => if flushEvery =? 0 then Panic else Ok (build_loop TrimSpace ToLower flushEvery rows ∅ 0 [])
  | [] => Ok []
  end.

(** The databases in order: every one's chunks and its subjects_export.tsv. *)
Fixpoint scan_dbs (flushEvery : Z) (dbs : list bytes) : res (list string * list string) :=
  match dbs with
  | [] => Ok ([], [])
  | file :: dbs =>
      let? parts := scan_chunks file flushEvery in
      match kMergeToFile parts with
      | None => Panic
      | Some text => let? (chunks, exports) := scan_dbs flushEvery dbs in Ok (parts ++ chunks, text :: exports)
      end
  end.

(** mergeChunks: the name files and the counts of all chunks. *)
Definition mergeChunks (sort_counts : string -> string) (chunks : list string) : res (string * string * string) :=
  match kMerge chunks with
  | None => Panic
  | Some es =>
      Ok (lines_text domain_line (filter (fun e => 0 < en_direct e) es),
          lines_text domain_line (filter (fun e => ~ 0 < en_direct e) es),
          sort_counts (lines_text count_line es))
  end.

Definition rawscan_main (sort_counts : string -> string) (flushEvery : Z) (dbs : list bytes) : res (list string * (string * string * string)) :=
  match dbs with
  | [] => Err (Errorf "no subjects.db files found")
  | _ =>
      let? (chunks, exports) := scan_dbs flushEvery dbs in
      let? out := mergeChunks sort_counts chunks in
      Ok (exports, out)
  end.

End Scan.

(** *** What the rows hold *)

(** The san_domains column of a stored row: its text, or NULL. *)
Definition sans_of (cols : list column) : option string :=
  match cols !! sanDomainsColIdx with
  | Some c => if serial c =? 0 then None else Some (String.string_of_list_byte (content c))
  | None => None
  end.

(** A row of subjects: the column is there, and is NULL or a text. *)
Definition subjects_row (cols : list column) : Prop :=
  exists c, cols !! sanDomainsColIdx = Some c /\ (serial c = 0 \/ 13 <= serial c /\ serial c mod 2 = 1).

(** A row of another table, with fewer columns: the five of sqlite_schema, the two
    of sqlite_sequence. *)
Definition short_row (cols : list column) : Prop := (length cols <= sanDomainsColIdx)%nat.

#[export] Instance short_row_dec cols : Decision (short_row cols).
Proof. unfold short_row. apply _. Defined.

(** ** Lemmas *)

Lemma foldl_sizes page_size off cols : 0 <= off -> Forall column_wf cols -> off + sizes cols <= page_size -> page_size <= 65536 ->
  foldl (fun off tc => wrap64 (off + sqliteColDataSize tc)) off (map serial cols) = off + sizes cols.
Proof.
  intros Ho Hw. revert off Ho. induction Hw as [|c cols Hc Hw IH]; intros off Ho Hs Hp; cbn [map foldl sizes foldr]; [lia|].
  fold (sizes cols) in *. cbn [sizes foldr] in Hs. fold (sizes cols) in Hs.
  pose proof (sizes_contents cols Hw). pose proof (blen_nonneg (contents cols)).
  pose proof (column_size c Hc) as [_ Hsz]. pose proof (blen_nonneg (content c)).
  rewrite wrap64_id by go_lia. rewrite IH by lia. lia.
Qed.

(** The texts a cursor would return, but for the empty ones. *)
Definition named (s : option string) : option string := match s with Some "" => None | s => s end.

Lemma san_from_cell_encoded page off cols pre post payload rowid hdrSize : subjects_row cols ->
  cell_at page off cols pre post payload rowid hdrSize -> san_from_cell page off (blen page) = Ok (named (sans_of cols)).
Proof.
  intros (c & Hc & Hkind) Hcell. pose proof (cell_page _ _ _ _ _ _ _ _ Hcell) as Hpage.
  unfold san_from_cell. rewrite (cell_header_encoded _ _ _ _ _ _ _ _ Hcell). cbn [bind_res].
  destruct Hcell as [_ _ Hw _ _ _ Hle]. set (h := header_of page payload rowid hdrSize pre) in *.
  rewrite (read_types_encoded _ cols page h _ Hw Hpage). cbn [bind_res].
  rewrite list_lookup_fmap, lookup_take_lt, Hc by (unfold sanDomainsColIdx; lia). cbn [option_map fmap option_fmap].
  unfold sans_of. rewrite Hc. destruct Hkind as [-> |[H13 Hodd]]; [done|].
  pose proof (proj1 (Forall_lookup _ _) Hw _ _ Hc) as Hwc. rewrite (text_size c Hwc H13 Hodd).
  destruct (Z.ltb_spec (serial c) 13); [lia|]. rewrite Hodd. cbn [orb Z.eqb]. destruct (Z.eqb_spec (serial c) 0); [lia|].
  rewrite <- fmap_take, take_take, Nat.min_l by lia. set (before := take sanDomainsColIdx cols).
  assert (Hwb : Forall column_wf before) by by apply Forall_take.
  assert (Htot := f_equal blen Hpage). rewrite !blen_app in Htot.
  assert (Hmid : blen (contents cols) = blen (contents before) + blen (content c) + blen (contents (drop (S sanDomainsColIdx) cols))).
  { rewrite <- (take_drop_middle cols sanDomainsColIdx c Hc) at 1. unfold contents. rewrite bind_app, bind_cons, !blen_app. unfold before, contents. lia. }
  pose proof (blen_nonneg h). pose proof (blen_nonneg (type_codes cols)). pose proof (blen_nonneg (contents before)).
  pose proof (blen_nonneg (content c)). pose proof (blen_nonneg (contents (drop (S sanDomainsColIdx) cols))). pose proof (blen_nonneg post).
  rewrite (foldl_sizes (blen page)) by (rewrite ?sizes_contents by done; lia || done). rewrite sizes_contents by done.
  rewrite wrap64_id by go_lia. destruct (Z.eqb_spec (blen (content c)) 0) as [Hz|Hz]; cbn [orb].
  { unfold blen in Hz. destruct (content c); [done|cbn in Hz; lia]. }
  destruct (Z.ltb_spec (blen page) (blen h + blen (type_codes cols) + blen (contents before) + blen (content c))); [lia|].
  rewrite (app_assoc h) in Hpage. rewrite Hpage at 1. rewrite <- blen_app. unfold before. rewrite column_slice by done. cbn [bind_res].
  destruct (content c) as [|x l] eqn:Ec; [done|]. cbn. by destruct (ascii_of_byte x).
Qed.

Lemma san_from_short_cell page off cols pre post payload rowid hdrSize : short_row cols ->
  cell_at page off cols pre post payload rowid hdrSize -> san_from_cell page off (blen page) = Ok None.
Proof.
  intros Hshort Hcell. pose proof (cell_page _ _ _ _ _ _ _ _ Hcell) as Hpage.
  unfold san_from_cell. rewrite (cell_header_encoded _ _ _ _ _ _ _ _ Hcell). cbn [bind_res].
  destruct Hcell as [_ _ Hw _ _ _ _]. set (h := header_of page payload rowid hdrSize pre) in *.
  rewrite (read_types_encoded _ cols page h _ Hw Hpage). cbn [bind_res].
  rewrite lookup_ge_None_2; [done|]. rewrite length_map, length_take. unfold short_row, sanDomainsColIdx in *. lia.
Qed.

Lemma short_no_sans cols : short_row cols -> sans_of cols = None.
Proof. intros H. unfold sans_of. by rewrite lookup_ge_None_2. Qed.

Lemma scan_rows file rows : file_holds file rows -> Forall (fun cols => subjects_row cols \/ short_row cols) rows ->
  rawScanSanDomains file = Ok (named_rows (map sans_of rows)).
Proof.
  intros Hf Hr. unfold rawScanSanDomains.
  rewrite (file_rows_read san_from_cell (fun cols => named (sans_of cols)) (fun cols => subjects_row cols \/ short_row cols)) with (rows := rows); [|..|done|done].
  2: { intros page off cols pre post payload rowid hdrSize [H|H] Hcell; [by eapply san_from_cell_encoded|].
       rewrite (short_no_sans cols H). by eapply san_from_short_cell. }
  cbn [bind_res]. f_equal. unfold named_rows. clear. induction rows as [|cols rows IH]; [done|]. cbn [map omap list_omap].
  destruct (sans_of cols) as [[|a s]|]; cbn [named id]; rewrite ?filter_cons, ?IH; done.
Qed.

(** The rows of other tables have no names. *)
Lemma named_subjects rows : named_rows (map sans_of rows) = named_rows (map sans_of (filter (fun cols => ~ short_row cols) rows)).
Proof.
  unfold named_rows. induction rows as [|cols rows IH]; [done|]. rewrite filter_cons. cbn [map omap list_omap].
  destruct (decide (~ short_row cols)) as [Hs|Hs].
  - cbn [map omap list_omap]. destruct (sans_of cols) as [x|]; cbn [id]; [|exact IH]. by rewrite !filter_cons, IH.
  - apply dec_stable in Hs. by rewrite (short_no_sans cols Hs).
Qed.

Lemma exact_unique TrimSpace ToLower raws es es' : exact TrimSpace ToLower raws es -> exact TrimSpace ToLower raws es' -> es = es'.
Proof.
  intros [S1 E1] [S2 E2]. apply (strict_unique (by_key en_domain text_cmp)); [done..|]. intros e. by rewrite E1, E2.
Qed.

Section Twins.

Context (TrimSpace ToLower : string -> string).

Abbreviation hits_same := (same_hits TrimSpace ToLower).

(** The file holds the rows of the date directory, in any order, and rows of
    other tables among them: every database has those of sqlite_schema. *)
Definition same_rows (file : bytes) (d : date_dir) : Prop :=
  dd_export d = None /\ exists rows, file_holds file rows /\ Forall (fun cols => subjects_row cols \/ short_row cols) rows /\
    dd_sans d ≡ₚ map sans_of (filter (fun cols => ~ short_row cols) rows).

Lemma hits_perm d w a b : a ≡ₚ b -> hits TrimSpace ToLower d w a = hits TrimSpace ToLower d w b.
Proof. intros E. unfold hits. by rewrite E. Qed.

Lemma pieces_perm a b : a ≡ₚ b -> pieces (named_rows a) ≡ₚ pieces (named_rows b).
Proof. intros E. unfold pieces, named_rows. by rewrite E. Qed.

(** One database: the chunks are exact for segments of the directory's pieces. *)
Lemma scan_chunks_good file d fe : fe <> 0 -> same_rows file d ->
  countable TrimSpace ToLower (dir_raws d) -> short_names TrimSpace ToLower (dir_raws d) ->
  exists parts segs, scan_chunks TrimSpace ToLower file fe = Ok parts /\ Forall2 (good_file TrimSpace ToLower) segs parts /\
    hits_same (concat segs) (dir_raws d).
Proof.
  intros Hfe (_ & rows & Hfile & Hrows & Hperm) Hc Hs.
  assert (Hsame : hits_same (dir_raws d) (pieces (named_rows (map sans_of rows)))).
  { intros x w. rewrite named_subjects. by apply hits_perm, pieces_perm. }
  destruct (chunks_good TrimSpace ToLower (map sans_of rows) fe Hfe) as (parts & segs & E & Hgood & Hh).
  - by eapply countable_same.
  - eapply short_sub; [|exact Hs]. intros x Hx. unfold dir_raws. rewrite (pieces_perm _ _ Hperm). by rewrite <- named_subjects.
  - exists parts, segs. split; [|split; [done|intros x w; by rewrite Hh, Hsame]].
    unfold scan_chunks. rewrite (scan_rows file rows Hfile Hrows). exact E.
Qed.

(** All of them: the exports are cmd/export's, and the chunks are exact for
    segments of the archive's pieces. *)
Lemma scan_dbs_good fe fe' dbs archive : fe <> 0 -> fe' <> 0 -> Forall2 same_rows dbs archive ->
  countable TrimSpace ToLower (archive_raws archive) -> short_names TrimSpace ToLower (archive_raws archive) ->
  exists chunks exports segs, scan_dbs TrimSpace ToLower fe' dbs = Ok (chunks, exports) /\
    phase0 TrimSpace ToLower fe archive = Ok exports /\ Forall2 (good_file TrimSpace ToLower) segs chunks /\
    hits_same (concat segs) (archive_raws archive).
Proof.
  intros Hfe Hfe' Hf. induction Hf as [|file d dbs archive Hd Hf IH]; intros Hc Hs; [by exists [], [], []|].
  unfold archive_raws in *. rewrite bind_cons in Hc, Hs. apply countable_app in Hc as [Hc1 Hc2]. apply short_app in Hs as [Hs1 Hs2].
  destruct (IH Hc2 Hs2) as (chunks & exports & segs & E1 & E2 & Hg & Hh).
  destruct (scan_chunks_good file d fe' Hfe' Hd Hc1 Hs1) as (parts & segs1 & E3 & Hg1 & Hh1).
  destruct (merge_good _ _ _ _ _ Hg1 Hh1 Hc1) as (es & Ek & He).
  destruct (date_export_good TrimSpace ToLower d fe Hfe Hc1 Hs1) as (text & Et & (es' & He' & _ & ->)).
  rewrite (exact_unique _ _ _ _ _ He' He) in Et.
  exists (parts ++ chunks), (lines_text tsv_line es :: exports), (segs1 ++ segs). cbn [scan_dbs phase0].
  rewrite E3. cbn [bind_res]. unfold kMergeToFile. rewrite Ek. cbn [option_map]. rewrite E1. cbn [bind_res].
  destruct Hd as [-> _]. rewrite Et. cbn [bind_res]. rewrite E2. split; [done|]. split; [done|]. split; [by apply Forall2_app|].
  intros x w. rewrite concat_app, bind_cons, !hits_app. by rewrite Hh1, Hh.
Qed.

End Twins.

(** ** Properties *)

(** C16. tools/rawscan is cmd/export: on database files whose rows are stored
    without overflow, on leaf pages in any order, beside the shorter rows of other
    tables (those of sqlite_schema on page 1) and pages of other kinds, and for any
    two flush intervals, the scan writes byte for byte the exports, the name files
    and the counts that the cursor of cmd/export writes. *)
Theorem rawscan_matches_export (TrimSpace ToLower : string -> string) (etld_plus_one : string -> option string) (public_suffix : string -> string)
  (sort_counts : string -> string) (flushEvery flushEvery' : Z) (dbs : list bytes) (archive : list date_dir) (shards : gmap string string)
  (Hflush : flushEvery <> 0) (Hflush' : flushEvery' <> 0) (Hdbs : dbs <> []) (Hrows : Forall2 same_rows dbs archive)
  (Hcount : countable TrimSpace ToLower (archive_raws archive)) (Hshort : short_names TrimSpace ToLower (archive_raws archive)) :
  exists exports out,
    export_main TrimSpace ToLower etld_plus_one public_suffix sort_counts flushEvery archive shards = Ok (exports, out) /\
    rawscan_main TrimSpace ToLower sort_counts flushEvery' dbs = Ok (exports, (ex_direct out, ex_wild out, ex_counts out)).
Proof.
  destruct (scan_dbs_good TrimSpace ToLower flushEvery flushEvery' dbs archive Hflush Hflush' Hrows Hcount Hshort)
    as (chunks & exports & segs & E1 & E2 & Hg & Hh).
  destruct (merge_good _ _ _ _ _ Hg Hh Hcount) as (es & Ek & He).
  destruct (phase0_good TrimSpace ToLower archive flushEvery Hflush Hcount Hshort) as (texts & E3 & Hg3).
  { clear -Hrows. induction Hrows as [|file d dbs archive [Hd _] Hf IH]; constructor; [|done]. unfold current. by rewrite Hd. }
  rewrite E2 in E3. injection E3 as <-.
  destruct (merge_good TrimSpace ToLower (archive_raws archive) _ exports Hg3) as (es' & Ek' & He'); [apply archive_segments|done|].
  rewrite (exact_unique _ _ _ _ _ He' He) in Ek'. unfold export_main, rawscan_main. rewrite E2. cbn [bind_res].
  destruct dbs as [|file dbs]; [done|]. rewrite E1. cbn [bind_res]. unfold mergeAndShard, mergeChunks. rewrite Ek, Ek'. cbn [bind_res].
  destruct exports as [|t ts]; [by inversion Hg3; destruct archive; [inversion Hrows|]|]. eexists _, _. split; [done|]. done.
Qed.

(** ** Witness *)

(** A row with nine NULL columns before its names. *)
Definition demo_row (sans : string) : list column := repeat (mkColumn 0 []) 9 ++ [text_column sans].

(** A database of three 512-byte pages: the schema's, with its row about the table, the
    table's, whose second row comes first, and a page of an index. *)
Definition demo_schema : list column := schema_row "subjects" 2 "CREATE TABLE subjects(id)".
Definition cell_s : bytes := encode_cell 60 1 6 demo_schema.
Definition cell_a : bytes := encode_cell 20 2 11 (demo_row "a.net,*.b.org").
Definition cell_b : bytes := encode_cell 20 1 11 (demo_row "b.org").
Definition page_s : bytes :=
  sqlite_magic ++ [x02; x00] ++ repeat x00 82 ++ [x0d; x00; x00; x00; x01; x00; x00; x00] ++ be_bytes 2 110 ++ cell_s ++ repeat x00 (402 - length cell_s).
Definition page_t : bytes :=
  [x0d; x00; x00; x00; x02; x00; x00; x00] ++ be_bytes 2 12 ++ be_bytes 2 (12 + blen cell_a) ++ cell_a ++ cell_b ++
  repeat x00 (500 - length cell_a - length cell_b).
Definition page_i : bytes := x0a :: repeat x00 511.
Definition demo_file : bytes := concat [page_s; page_t; page_i].

Definition demo_dir : date_dir := mkDate [Some "b.org"; Some "a.net,*.b.org"] None.

Lemma demo_file_holds : file_holds demo_file [demo_schema; demo_row "a.net,*.b.org"; demo_row "b.org"].
Proof.
  split; [vm_compute; reflexivity|vm_compute; discriminate|].
  exists [page_s; page_t; page_i], [[demo_schema]; [demo_row "a.net,*.b.org"; demo_row "b.org"]; []].
  split; [reflexivity|]. split; [discriminate|]. split; [reflexivity|]. split; [repeat constructor; vm_compute; reflexivity|]. split; [reflexivity|].
  intros [|[|[|i]]] page rs [= <-] [= <-].
  - apply (leaf_checked page_s 1 [(demo_schema, 60, 1, 6)]). vm_compute. reflexivity.
  - apply (leaf_checked page_t 2 [(demo_row "a.net,*.b.org", 20, 2, 11); (demo_row "b.org", 20, 1, 11)]). vm_compute. reflexivity.
  - right. split; [reflexivity|]. exists 10. split; [reflexivity|discriminate].
Qed.

Lemma rawscan_matches_export_witness :
  rawScanSanDomains demo_file = Ok ["a.net,*.b.org"; "b.org"] /\
  exists exports out,
    export_main id id demo_etld1 demo_psl id 1 [demo_dir] ∅ = Ok (exports, out) /\
    rawscan_main id id id 7 [demo_file] = Ok (exports, (ex_direct out, ex_wild out, ex_counts out)).
Proof.
  split; [vm_compute; reflexivity|].
  apply (rawscan_matches_export id id demo_etld1 demo_psl id 1 7 [demo_file] [demo_dir] ∅).
  - discriminate.
  - discriminate.
  - discriminate.
  - constructor; [|constructor]. split; [reflexivity|]. eexists. split; [exact demo_file_holds|]. split.
    + repeat constructor; eexists; (split; [reflexivity|right; split; [discriminate|reflexivity]]).
    + apply perm_swap.
  - apply few_hits, Nat.leb_le. vm_compute. reflexivity.
  - intros raw d w Hr Hn. assert (Hd : forall raw, raw ∈ archive_raws [demo_dir] -> match san_of id id raw with Some (d, _) => (String.length d <= 100)%nat | None => True end).
    { apply Forall_forall. vm_compute. repeat constructor; lia. }
    specialize (Hd raw Hr). rewrite Hn in Hd. unfold maxToken. lia.
Defined.
