(* ===== verification/RowCell.v ===== *)
(** cmd/repartition, the rows: a row of the old subjects layout as the cursor
    scans it and as the raw page scanner decodes it from its cell, and the proof
    that the decoding is exact. *)

From S2P Require Import Prelude GoStd RawScan PageScan.

(** ** Definitions *)

(** *** Integers of a record *)

(** A [w]-bit unsigned value as a signed one: [int8(v)], [int16(v)] … *)
Definition signed (w v : Z) : Z := (v + 2 ^ (w - 1)) mod 2 ^ w - 2 ^ (w - 1).

Definition sqliteReadInt (page : bytes) (off tc : Z) : res Z :=
  if (tc =? 0) || (tc =? 8) then Ok 0
  else if tc =? 9 then Ok 1
  else if tc =? 1 then let? v := go_index page off in Ok (signed 8 v)
  else if tc =? 2 then let? b := go_slice page off (off + 2) in Ok (signed 16 (be b))
  else if tc =? 3 then
    let? b0 := go_index page off in
    let? b1 := go_index page (off + 1) in
    let? b2 := go_index page (off + 2) in
    let v := Z.lor (Z.lor (Z.shiftl b0 16) (Z.shiftl b1 8)) b2 in
    Ok (if 8388608 <=? v then v - 16777216 else v)
  else if tc =? 4 then let? b := go_slice page off (off + 4) in Ok (signed 32 (be b))
  else if tc =? 5 then
    let? hi := go_slice page off (off + 4) in
    let? lo := go_slice page (off + 4) (off + 6) in
    let v := Z.lor (Z.shiftl (be hi) 16) (be lo) in
    Ok (if 140737488355328 <=? v then v - 281474976710656 else v)
  else if tc =? 6 then let? b := go_slice page off (off + 8) in Ok (wrap64 (be b))
  else Ok 0.

(** *** Rows *)

Record subjectRow := mkSubjectRow {
  sr_caID : Z; sr_serialNumber : string; sr_commonName : string; sr_organization : string;
  sr_state : string; sr_country : string; sr_notBefore : string; sr_notAfter : string;
  sr_sanDomains : string; sr_sanIPs : string; sr_url : string;
  sr_isWildcard : Z; sr_sanCount : Z; sr_entryType : string; sr_tileIdx : Z; sr_entryIdx : Z }.

Definition numCols : nat := 17.
Definition colTileIdx : nat := 15.
Definition colEntryIdx : nat := 16.

Definition set_caID (id : Z) (s : subjectRow) : subjectRow :=
  mkSubjectRow id (sr_serialNumber s) (sr_commonName s) (sr_organization s) (sr_state s) (sr_country s)
    (sr_notBefore s) (sr_notAfter s) (sr_sanDomains s) (sr_sanIPs s) (sr_url s)
    (sr_isWildcard s) (sr_sanCount s) (sr_entryType s) (sr_tileIdx s) (sr_entryIdx s).

(** The global ca_id of an issuers database's local one. *)
Abbreviation remap_table := (gmap (string * Z) Z).

(** [colData]: where each column's data starts; [None] when one leaves the page. *)
Fixpoint col_offsets (pageSize dataOff : Z) (typeCodes : list Z) : option (list Z) :=
  match typeCodes with
  | [] => Some []
  | tc :: typeCodes =>
      let next := wrap64 (dataOff + sqliteColDataSize tc) in
      if pageSize <? next then None
      else option_map (cons dataOff) (col_offsets pageSize next typeCodes)
  end.

(** The closures [readText] and [readInt] of parseRow, on a column's type code
    and offset. *)
Definition readText (page : bytes) (pageSize tc start : Z) : res string :=
  if (tc <? 13) || (tc mod 2 =? 0) then Ok ""
  else
    let length := int_of_u64 ((tc - 13) / 2) in
    if length =? 0 then Ok ""
    else if pageSize <? wrap64 (start + length) then Ok ""
    else let? b := go_slice page start (wrap64 (start + length)) in Ok (String.string_of_list_byte b).

Definition readInt (page : bytes) (tc start : Z) : res Z := sqliteReadInt page start tc.

(** parseRow; [None] skips the row. *)
Definition parseRow (remap : remap_table) (issPath : string) (page : bytes) (cellOff pageSize : Z) : res (option subjectRow) :=
  let? h := cell_header page cellOff pageSize in
  match h with
  | None => Ok None
  | Some (pos, headerEnd) =>
      let? types := read_types numCols page headerEnd pos in
      match types with
      | None => Ok None
      | Some types =>
          let typeCodes := types ++ repeat 0 (numCols - length types) in
          if (typeCodes !!! colEntryIdx =? 0) && (typeCodes !!! colTileIdx =? 0) then Ok None else
          match col_offsets pageSize headerEnd typeCodes with
          | None => Ok None
          | Some colData =>
              let text col := readText page pageSize (typeCodes !!! col) (colData !!! col) in
              let int col := readInt page (typeCodes !!! col) (colData !!! col) in
              let? localCaID := int 1%nat in
              match remap !! (issPath, localCaID) with
              | None => Ok None
              | Some globalID =>
                  let? serialNumber := text 2%nat in
                  let? commonName := text 3%nat in
                  let? organization := text 4%nat in
                  let? state := text 5%nat in
                  let? country := text 6%nat in
                  let? notBefore := text 7%nat in
                  let? notAfter := text 8%nat in
                  let? sanDomains := text 9%nat in
                  let? sanIPs := text 10%nat in
                  let? url := text 11%nat in
                  let? isWildcard := int 12%nat in
                  let? sanCount := int 13%nat in
                  let? entryType := text 14%nat in
                  let? tileIdx := int colTileIdx in
                  let? entryIdx := int colEntryIdx in
                  Ok (Some (mkSubjectRow globalID serialNumber commonName organization state country notBefore notAfter
                              sanDomains sanIPs url isWildcard sanCount entryType tileIdx entryIdx))
              end
          end
      end
  end.

(** *** The cursor *)

(** A column of a result row; [VOther] is a real or a blob, which no column of
    the old layout holds. *)
Inductive sqlval := VNull | VInt (z : Z) | VText (s : string) | VOther.
#[export] Instance sqlval_inhabited : Inhabited sqlval := populate VNull.

(** database/sql's conversion into an int64 and into a string; NULL is an error. *)
Definition scan_int (v : sqlval) : option Z :=
  match v with VInt z => Some z | VText s => parse_int64 s | _ => None end.
Definition scan_text (v : sqlval) : option string :=
  match v with VText s => Some s | VInt z => Some (dec z) | _ => None end.

(** [rows.Scan] of the sixteen columns after the id. *)
Definition scan_row (vals : list sqlval) : option subjectRow :=
  let text col := scan_text (vals !!! col) in
  let int col := scan_int (vals !!! col) in
  caID ← int 1%nat; serialNumber ← text 2%nat; commonName ← text 3%nat; organization ← text 4%nat;
  state ← text 5%nat; country ← text 6%nat; notBefore ← text 7%nat; notAfter ← text 8%nat;
  sanDomains ← text 9%nat; sanIPs ← text 10%nat; url ← text 11%nat;
  isWildcard ← int 12%nat; sanCount ← int 13%nat; entryType ← text 14%nat;
  tileIdx ← int colTileIdx; entryIdx ← int colEntryIdx;
  Some (mkSubjectRow caID serialNumber commonName organization state country notBefore notAfter
          sanDomains sanIPs url isWildcard sanCount entryType tileIdx entryIdx).

(** *** What a stored row holds *)

(** The value of a column of the file. *)
Definition col_value (c : column) : sqlval :=
  let tc := serial c in
  if tc =? 0 then VNull
  else if tc =? 8 then VInt 0
  else if tc =? 9 then VInt 1
  else if tc <=? 6 then VInt (signed (8 * blen (content c)) (be (content c)))
  else if (13 <=? tc) && (tc mod 2 =? 1) then VText (String.string_of_list_byte (content c))
  else VOther.

Definition text_of (v : sqlval) : string := match v with VText s => s | _ => "" end.
Definition int_of (v : sqlval) : Z := match v with VInt z => z | _ => 0 end.
Definition is_null (v : sqlval) : bool := match v with VNull => true | _ => false end.

(** The row of a record, its columns of another kind read as empty. *)
Definition row_of (vals : list sqlval) : subjectRow :=
  let text col := text_of (vals !!! col) in
  let int col := int_of (vals !!! col) in
  mkSubjectRow (int 1%nat) (text 2%nat) (text 3%nat) (text 4%nat) (text 5%nat) (text 6%nat) (text 7%nat) (text 8%nat)
    (text 9%nat) (text 10%nat) (text 11%nat) (int 12%nat) (int 13%nat) (text 14%nat) (int colTileIdx) (int colEntryIdx).

(** A row whose CA is known, under its global id. *)
Definition remapped (remap : remap_table) (issPath : string) (s : subjectRow) : option subjectRow :=
  id ← remap !! (issPath, sr_caID s); Some (set_caID id s).

(** ** Lemmas *)

(** *** Integers *)

Lemma signed_small w v : 0 < w -> 0 <= v < 2 ^ w -> signed w v = if 2 ^ (w - 1) <=? v then v - 2 ^ w else v.
Proof.
  intros Hw Hv. unfold signed. assert (E : 2 ^ w = 2 * 2 ^ (w - 1)) by (rewrite <- Z.pow_succ_r by lia; f_equal; lia).
  destruct (Z.leb_spec (2 ^ (w - 1)) v).
  - rewrite <- (Z.mod_unique (v + 2 ^ (w - 1)) (2 ^ w) 1 (v - 2 ^ (w - 1))); lia.
  - rewrite Z.mod_small; lia.
Qed.

Lemma signed_64 v : signed 64 v = wrap64 v.
Proof. done. Qed.

Lemma blen_cases (b : bytes) n : blen b = Z.of_nat n -> length b = n.
Proof. unfold blen. lia. Qed.

(** Reading inside a slice. *)
Lemma go_slice_at (page pre c post : bytes) off : page = pre ++ c ++ post -> off = blen pre ->
  go_slice page off (off + blen c) = Ok c.
Proof. intros -> ->. apply go_slice_app; lia. Qed.

Lemma go_index_at (page pre post : bytes) x off : page = pre ++ x :: post -> off = blen pre -> go_index page off = Ok (bval x).
Proof.
  intros -> ->. unfold go_index, blen. destruct (Z.ltb_spec (Z.of_nat (length pre)) 0); [lia|].
  by rewrite Nat2Z.id, lookup_app_r, Nat.sub_diag by lia.
Qed.

(** The integer types of a record are read as SQLite stores them. *)
Lemma read_int_exact c pre post : column_wf c ->
  sqliteReadInt (pre ++ content c ++ post) (blen pre) (serial c) = Ok (int_of (col_value c)).
Proof.
  destruct c as [tc b]. intros (Hr & H10 & H11 & Hb). cbn [serial content] in *. unfold col_value, sqliteReadInt. cbn [serial content].
  set (page := pre ++ b ++ post).
  assert (Hslice : forall k, blen b = k -> go_slice page (blen pre) (blen pre + k) = Ok b) by (intros k <-; by eapply go_slice_at).
  assert (Hs : forall w, w = 8 * blen b -> 0 < w -> signed w (be b) = if 2 ^ (w - 1) <=? be b then be b - 2 ^ w else be b).
  { intros w -> Hw. apply signed_small; [done|]. pose proof (be_bound b) as Hbb. rewrite Z.pow_mul_r by lia. exact Hbb. }
  assert (Hcase : tc = 0 \/ tc = 1 \/ tc = 2 \/ tc = 3 \/ tc = 4 \/ tc = 5 \/ tc = 6 \/ tc = 7 \/ tc = 8 \/ tc = 9 \/ 12 <= tc) by lia.
  repeat (destruct Hcase as [-> |Hcase];  [
    match type of Hb with _ = serial_width ?t => let w := eval vm_compute in (serial_width t) in change (serial_width t) with w in Hb end;
    cbn -[signed be wrap64 Z.mul Z.lor Z.shiftl blen Z.add]|]); try done.
  - destruct b as [|x [|]]; try by pose proof (blen_cases _ 1 Hb). rewrite (go_index_at page pre post x) by done. cbn [bind_res].
    rewrite Hb. change (8 * 1) with 8. change [x] with ([] ++ [x]). by rewrite be_snoc.
  - rewrite Hslice by done. cbn [bind_res]. by rewrite Hb.
  - destruct b as [|x [|y [|z []]]]; try by pose proof (blen_cases _ 3 Hb).
    rewrite (go_index_at page pre (y :: z :: post) x) by done. cbn [bind_res].
    rewrite (go_index_at page (pre ++ [x]) (z :: post) y) by (unfold page; rewrite <- ?app_assoc, ?blen_app; done). cbn [bind_res].
    rewrite (go_index_at page (pre ++ [x; y]) post z) by (unfold page; rewrite <- ?app_assoc, ?blen_app; done). cbn [bind_res].
    pose proof (bval_range x). pose proof (bval_range y). pose proof (bval_range z).
    assert (E : Z.lor (Z.lor (Z.shiftl (bval x) 16) (Z.shiftl (bval y) 8)) (bval z) = be [x; y; z]).
    { rewrite lor_shiftl_add by (rewrite ?Z.shiftl_mul_pow2; lia). rewrite Z.shiftl_mul_pow2 by lia.
      replace (bval x * 2 ^ 16 + bval y * 2 ^ 8) with (Z.shiftl (bval x * 256 + bval y) 8) by (rewrite Z.shiftl_mul_pow2; lia).
      rewrite lor_shiftl_add by lia. unfold be. cbn [be_val]. lia. }
    rewrite E. f_equal. by rewrite Hb, Hs by (rewrite ?Hb; lia).
  - rewrite Hslice by done. cbn [bind_res]. by rewrite Hb.
  - assert (Hlen : length b = 6%nat) by by apply blen_cases.
    assert (Esplit : b = take 4 b ++ drop 4 b) by by rewrite take_drop.
    assert (Hhi : blen (take 4 b) = 4) by (unfold blen; rewrite length_take, Hlen; done).
    assert (Hlo : blen (drop 4 b) = 2) by (unfold blen; rewrite length_drop, Hlen; done).
    assert (E1 : go_slice page (blen pre) (blen pre + 4) = Ok (take 4 b)).
    { rewrite <- Hhi at 1. apply (go_slice_at _ pre _ (drop 4 b ++ post)); [|done]. unfold page. by rewrite (app_assoc (take 4 b)), take_drop. }
    assert (E2 : go_slice page (blen pre + 4) (blen pre + 6) = Ok (drop 4 b)).
    { replace (blen pre + 6) with (blen pre + 4 + blen (drop 4 b)) by lia. apply (go_slice_at _ (pre ++ take 4 b) _ post).
      - unfold page. rewrite <- app_assoc. f_equal. by rewrite app_assoc, take_drop.
      - rewrite blen_app. lia. }
    rewrite E1. cbn [bind_res]. rewrite E2. cbn [bind_res]. pose proof (be_bound (drop 4 b)) as Hbd. rewrite Hlo in Hbd.
    rewrite lor_shiftl_add by (cbn in Hbd |- *; lia). replace (be (take 4 b) * 2 ^ 16 + be (drop 4 b)) with (be b).
    + f_equal. by rewrite Hb, Hs by (rewrite ?Hb; lia).
    + rewrite Esplit at 1. by rewrite be_app, Hlo.
  - rewrite Hslice by done. cbn [bind_res]. by rewrite Hb.
  - destruct (Z.eqb_spec tc 0); [lia|]. destruct (Z.eqb_spec tc 8); [lia|]. destruct (Z.eqb_spec tc 9); [lia|].
    repeat match goal with |- context [tc =? ?k] => destruct (Z.eqb_spec tc k); [lia|] end. cbn [orb].
    destruct (Z.leb_spec tc 6); [lia|]. by destruct ((13 <=? tc) && (tc mod 2 =? 1)).
Qed.

Lemma read_text_exact c pre post : column_wf c -> blen (pre ++ content c ++ post) <= 65536 ->
  readText (pre ++ content c ++ post) (blen (pre ++ content c ++ post)) (serial c) (blen pre) = Ok (text_of (col_value c)).
Proof.
  intros Hw Hle. set (page := pre ++ content c ++ post) in *. pose proof (blen_nonneg pre). pose proof (blen_nonneg post).
  pose proof (blen_nonneg (content c)). assert (Hp : blen page = blen pre + (blen (content c) + blen post)) by (unfold page; by rewrite !blen_app).
  destruct (column_size c Hw) as [Hr _]. pose proof (Z.mod_pos_bound (serial c) 2 ltac:(lia)).
  unfold readText, col_value. destruct (Z.ltb_spec (serial c) 13) as [Hlt|Hge]; cbn [orb].
  { destruct (Z.leb_spec 13 (serial c)); [lia|]. cbn [andb]. by repeat case_match. }
  destruct (Z.eqb_spec (serial c mod 2) 0) as [He|Hodd].
  { destruct (Z.eqb_spec (serial c mod 2) 1); [lia|]. rewrite andb_false_r. by repeat case_match. }
  rewrite (text_size c Hw Hge ltac:(lia)). destruct (Z.eqb_spec (serial c) 0); [lia|]. destruct (Z.eqb_spec (serial c) 8); [lia|].
  destruct (Z.eqb_spec (serial c) 9); [lia|]. destruct (Z.leb_spec (serial c) 6); [lia|]. destruct (Z.leb_spec 13 (serial c)); [|lia].
  destruct (Z.eqb_spec (serial c mod 2) 1); [|lia]. cbn [andb text_of]. destruct (Z.eqb_spec (blen (content c)) 0) as [Hz|Hz].
  { unfold blen in Hz. by destruct (content c). }
  rewrite wrap64_id by go_lia. destruct (Z.ltb_spec (blen page) (blen pre + blen (content c))); [lia|].
  by rewrite (go_slice_at page pre (content c) post).
Qed.

(** *** Records *)

Lemma col_offsets_exact pageSize off cols i : 0 <= off -> Forall column_wf cols -> off + blen (contents cols) <= pageSize -> pageSize <= 65536 ->
  (i < length cols)%nat -> exists offs, col_offsets pageSize off (map serial cols) = Some offs /\ offs !!! i = off + blen (contents (take i cols)).
Proof.
  intros Ho Hw. revert off Ho i. induction Hw as [|c cols Hc Hw IH]; intros off Ho i Hle Hp Hi; [cbn in Hi; lia|].
  cbn [map col_offsets]. rewrite contents_cons, blen_app in Hle. pose proof (blen_nonneg (contents cols)). pose proof (blen_nonneg (content c)).
  destruct (column_size c Hc) as [_ <-]. rewrite wrap64_id by go_lia. destruct (Z.ltb_spec pageSize (off + blen (content c))); [lia|].
  destruct i as [|i].
  - destruct cols as [|c' cols]; [by eexists; split; [done|]; cbn; rewrite Z.add_0_r|].
    destruct (IH (off + blen (content c)) ltac:(lia) 0%nat ltac:(lia) Hp ltac:(cbn; lia)) as (offs & -> & _). eexists. split; [done|].
    cbn. by rewrite Z.add_0_r.
  - cbn in Hi. destruct (IH (off + blen (content c)) ltac:(lia) i ltac:(lia) Hp ltac:(lia)) as (offs & -> & E). eexists. split; [done|].
    change ((off :: offs) !!! S i) with (offs !!! i). rewrite E. cbn [take]. rewrite contents_cons, blen_app. lia.
Qed.

Lemma is_null_serial c : is_null (col_value c) = (serial c =? 0).
Proof. unfold col_value. by repeat case_match. Qed.

(** The row of a stored record: what the page scanner makes of its cell. *)
Definition stored_row (remap : remap_table) (issPath : string) (cols : list column) : option subjectRow :=
  let vals := map col_value cols in
  if is_null (vals !!! colEntryIdx) && is_null (vals !!! colTileIdx) then None else remapped remap issPath (row_of vals).

(** The columns of a record behind its header: where they are and what they read as. *)
Lemma read_columns page hd cols post : page = hd ++ contents cols ++ post -> blen page <= 65536 ->
  (numCols <= length cols)%nat -> Forall column_wf cols ->
  let tcs := map serial (take numCols cols) in let vals := map col_value cols in
  exists colData, col_offsets (blen page) (blen hd) tcs = Some colData /\ forall i, (i < numCols)%nat ->
    is_null (vals !!! i) = (tcs !!! i =? 0) /\
    readText page (blen page) (tcs !!! i) (colData !!! i) = Ok (text_of (vals !!! i)) /\
    readInt page (tcs !!! i) (colData !!! i) = Ok (int_of (vals !!! i)).
Proof.
  intros Hpage Hle Hlen Hw. cbn zeta. set (used := take numCols cols). pose proof (blen_nonneg hd).
  assert (Hused : Forall column_wf used) by by apply Forall_take.
  assert (Hl : length used = numCols) by (unfold used; rewrite length_take; lia).
  assert (Hfit : blen hd + blen (contents used) <= blen page).
  { assert (E : blen page = blen hd + (blen (contents used) + blen (contents (drop numCols cols)) + blen post)).
    { rewrite Hpage, !blen_app. rewrite <- (take_drop numCols cols) at 1. unfold contents at 1. rewrite bind_app, blen_app. done. }
    pose proof (blen_nonneg (contents (drop numCols cols))). pose proof (blen_nonneg post). lia. }
  destruct (col_offsets_exact (blen page) (blen hd) used 0 ltac:(lia) Hused Hfit Hle ltac:(unfold numCols in *; lia)) as (colData & Eo & _).
  exists colData. split; [done|]. intros i Hi. destruct (lookup_lt_is_Some_2 cols i ltac:(lia)) as [c Ec].
  assert (map serial used !!! i = serial c) as ->.
  { apply list_lookup_total_correct. rewrite list_lookup_fmap. unfold used. by rewrite lookup_take_lt, Ec by done. }
  assert (map col_value cols !!! i = col_value c) as ->.
  { apply list_lookup_total_correct. by rewrite list_lookup_fmap, Ec. }
  destruct (col_offsets_exact (blen page) (blen hd) used i ltac:(lia) Hused Hfit Hle ltac:(lia)) as (offs & E1 & E2).
  rewrite Eo in E1. injection E1 as <-. unfold used in E2. rewrite take_take, Nat.min_l, <- blen_app in E2 by lia. rewrite E2.
  assert (E : page = (hd ++ contents (take i cols)) ++ content c ++ contents (drop (S i) cols) ++ post).
  { rewrite Hpage, <- (take_drop_middle cols i c Ec) at 1. unfold contents at 1. rewrite bind_app, bind_cons. by rewrite <- !app_assoc. }
  pose proof (Forall_lookup_1 _ _ _ _ Hw Ec) as Hwc. split; [apply is_null_serial|]. rewrite E in Hle |- *.
  split; [by apply read_text_exact|by apply read_int_exact].
Qed.

Lemma parse_row_exact remap issPath page off cols pre post payload rowid hdrSize :
  (numCols <= length cols)%nat -> cell_at page off cols pre post payload rowid hdrSize ->
  parseRow remap issPath page off (blen page) = Ok (stored_row remap issPath cols).
Proof.
  intros Hlen Hcell. pose proof (cell_page _ _ _ _ _ _ _ _ Hcell) as Hpage.
  unfold parseRow. rewrite (cell_header_encoded _ _ _ _ _ _ _ _ Hcell). cbn [bind_res].
  destruct Hcell as [_ _ Hw _ _ _ Hle]. set (h := header_of page payload rowid hdrSize pre) in *.
  rewrite (read_types_encoded numCols cols page h _ Hw Hpage). cbn [bind_res]. rewrite <- blen_app. rewrite app_assoc in Hpage.
  rewrite length_map, length_take, Nat.min_l, Nat.sub_diag by done. cbn [repeat]. rewrite app_nil_r.
  destruct (read_columns page (h ++ type_codes cols) cols post Hpage Hle Hlen Hw) as (colData & -> & Hread). clearbody h. unfold stored_row.
  rewrite (proj1 (Hread colEntryIdx ltac:(unfold colEntryIdx, numCols; lia))), (proj1 (Hread colTileIdx ltac:(unfold colTileIdx, numCols; lia))).
  destruct (_ && _); [done|]. cbn zeta. unfold remapped. change (sr_caID (row_of ?v)) with (int_of (v !!! 1%nat)).
  assert (Hint := fun i Hi => proj2 (proj2 (Hread i Hi))). assert (Htext := fun i Hi => proj1 (proj2 (Hread i Hi))).
  rewrite Hint by (unfold numCols; lia). cbn [bind_res]. destruct (remap !! _) as [id|]; cbn [mbind option_bind]; [|done].
  rewrite !Htext, !Hint by (unfold numCols, colTileIdx, colEntryIdx; lia). done.
Qed.

(** A row of another table: without the columns of a tile position, as the five of
    sqlite_schema and the two of sqlite_sequence. *)
Definition foreign_row (cols : list column) : Prop := (length cols <= colTileIdx)%nat.

#[export] Instance foreign_row_dec cols : Decision (foreign_row cols).
Proof. unfold foreign_row. apply _. Defined.

Lemma repeat_total n i (x : Z) : (i < n)%nat -> repeat x n !!! i = x.
Proof. revert i. induction n as [|n IH]; intros [|i] Hi; cbn [repeat]; [lia..|done|]. apply IH. lia. Qed.

Lemma parse_foreign_row remap issPath page off cols pre post payload rowid hdrSize :
  foreign_row cols -> cell_at page off cols pre post payload rowid hdrSize -> parseRow remap issPath page off (blen page) = Ok None.
Proof.
  intros Hshort Hcell. pose proof (cell_page _ _ _ _ _ _ _ _ Hcell) as Hpage.
  unfold parseRow. rewrite (cell_header_encoded _ _ _ _ _ _ _ _ Hcell). cbn [bind_res].
  destruct Hcell as [_ _ Hw _ _ _ _]. set (h := header_of page payload rowid hdrSize pre) in *.
  rewrite (read_types_encoded _ cols page h _ Hw Hpage). cbn [bind_res].
  assert (Hl : length (map serial (take numCols cols)) = length cols).
  { rewrite length_map, length_take. unfold foreign_row, numCols, colTileIdx in *. lia. }
  unfold foreign_row, colTileIdx, numCols, colEntryIdx in *.
  rewrite !lookup_total_app_r by lia. rewrite Hl, !repeat_total by lia. done.
Qed.

(** *** The cursor's view *)

(** A row without NULLs, its columns of their declared kinds. *)
Record whole_row (vals : list sqlval) : Prop := {
  wr_ints : forall i, i ∈ [1; 12; 13; 15; 16]%nat -> exists z, vals !!! i = VInt z;
  wr_texts : forall i, i ∈ [2; 3; 4; 5; 6; 7; 8; 9; 10; 11; 14]%nat -> exists s, vals !!! i = VText s }.

(** The cursor and the page scanner read the same row. *)
Lemma scan_whole vals : whole_row vals -> scan_row vals = Some (row_of vals).
Proof.
  intros [Hi Ht].
  assert (Ei : forall i, i ∈ [1; 12; 13; 15; 16]%nat -> scan_int (vals !!! i) = Some (int_of (vals !!! i))) by (intros i H; by destruct (Hi i H) as [z ->]).
  assert (Et : forall i, i ∈ [2; 3; 4; 5; 6; 7; 8; 9; 10; 11; 14]%nat -> scan_text (vals !!! i) = Some (text_of (vals !!! i))) by (intros i H; by destruct (Ht i H) as [z ->]).
  unfold scan_row. cbn zeta. unfold colTileIdx, colEntryIdx. rewrite !Ei, !Et by (apply list_elem_of_In; cbn; tauto). done.
Qed.

Lemma whole_not_null vals : whole_row vals -> is_null (vals !!! colEntryIdx) = false.
Proof. intros [Hi _]. by destruct (Hi colEntryIdx ltac:(apply list_elem_of_In; cbn; unfold colEntryIdx; tauto)) as [z ->]. Qed.
