(* ===== verification/Repartition.v ===== *)
(** cmd/repartition: the migration of an archive partitioned by day of ingestion
    to one partitioned by month of issuance — the unified issuers database and
    its remapping of ca_ids, the pool of month databases with their transactions,
    and the two ways of scanning a source. *)

From S2P Require Import Prelude GoStd FileSys Sql SubjectDB Progress RawScan PageScan RowCell.

#[local] Open Scope sql_scope.

(** ** Definitions *)

(** A computation without effects, in the monad. *)
Definition lift {A} (r : res A) : M A := fun s fl => (r, s, fl).

(** *** Issuers *)

Definition hexNib (c : ascii) : Z :=
  let n := Z.of_N (N_of_ascii c) in
  if (48 <=? n) && (n <=? 57) then n - 48
  else if (97 <=? n) && (n <=? 102) then n - 97 + 10
  else if (65 <=? n) && (n <=? 70) then n - 65 + 10
  else 255.

(** The loop of hexDecode; [None] is the error "bad hex char". *)
Fixpoint hex_pairs (s : string) : option bytes :=
  match s with
  | String c (String c' s) =>
      let '(hi, lo) := (hexNib c, hexNib c') in
      if (hi =? 255) || (lo =? 255) then None
      else option_map (cons (byte_of (Z.lor (Z.shiftl hi 4) lo))) (hex_pairs s)
  | _ => Some []
  end.

(** The bytes written into a buffer of [size] bytes. *)
Definition hexDecode (s : string) (size : Z) : option bytes :=
  let len := Z.of_nat (String.length s) in
  if negb (Z.rem len 2 =? 0) || (size <? Z.quot len 2) then None else hex_pairs s.

(** SELECT ca_id, fingerprint, common_name, organization, country, scanned. *)
Definition scan_issuer (vals : list sqlval) : option (Z * string * (string * string * string)) :=
  localID ← scan_int (vals !!! 0%nat); fpHex ← scan_text (vals !!! 1%nat);
  cn ← scan_text (vals !!! 2%nat); org ← scan_text (vals !!! 3%nat); country ← scan_text (vals !!! 4%nat);
  Some (localID, fpHex, (cn, org, country)).

(** The rows of one source's issuers database. *)
Fixpoint remap_rows (globalPath srcPath : string) (rows : list (list sqlval)) (remap : remap_table) : M remap_table :=
  match rows with
  | [] => ret remap
  | vals :: rows =>
      match scan_issuer vals with
      | None => remap_rows globalPath srcPath rows remap
      | Some (localID, fpHex, (cn, org, country)) =>
          match hexDecode fpHex 32 with
          | None => remap_rows globalPath srcPath rows remap
          | Some fp =>
              if negb (blen fp =? 32) then remap_rows globalPath srcPath rows remap
              else
                let@ globalID := wrapM "upsert issuer" (UpsertIssuer globalPath fp cn org country) in
                remap_rows globalPath srcPath rows (<[(srcPath, localID) := globalID]> remap)
          end
      end
  end.

Fixpoint remap_sources (globalPath : string) (srcs : list (string * list (list sqlval))) (remap : remap_table) : M remap_table :=
  match srcs with
  | [] => ret remap
  | (srcPath, rows) :: srcs =>
      let@ _ := wrapM ("query " +:+ srcPath) nop in
      let@ remap := remap_rows globalPath srcPath rows remap in
      remap_sources globalPath srcs remap
  end.

(** The issuers databases found below the source root, in the order of the walk. *)
Definition buildIssuersRemap (dstRoot : string) (srcs : list (string * list (list sqlval))) : M remap_table :=
  let globalPath := Join dstRoot "issuers.db" in
  let@ _ := wrapM "open global issuers" (OpenIssuerDB globalPath) in
  remap_sources globalPath srcs ∅.

Definition issuerKey (subjectsPath : string) : string := Join (Dir subjectsPath) "issuers.db".

(** *** The output pool *)

(** getOrOpen sets journal_mode=OFF: nothing can be rolled back. What an open
    transaction writes may reach the file at any time, so from its first insert to
    its COMMIT the file is no database one can rely on ([Torn]); a failing statement
    leaves the transaction's own view undone half-way; and the CREATE statements
    tear the file when they are interrupted while they write to it. *)

Definition txBatchSize : Z := 50000.

(** [ms_tx] is the database as the open transaction sees it. *)
Record monthState := mkMonth { ms_tx : option dbfile; ms_pending : Z }.

Record outputPool := mkOutputPool { op_states : gmap string monthState; dstRoot : string }.

Definition newOutputPool (root : string) : outputPool := mkOutputPool ∅ root.

Definition set_month (month : string) (ms : monthState) (p : outputPool) : outputPool :=
  mkOutputPool (<[month := ms]> (op_states p)) (dstRoot p).

Definition out_path (p : outputPool) (month : string) : string := month_path (dstRoot p) month.

(** The parameters of the prepared INSERT OR IGNORE: the old layout has no
    cert_hash and no log_id. *)
Definition table_row (s : subjectRow) : row :=
  mkRow (sr_caID s) (sr_serialNumber s) (sr_commonName s) (sr_organization s) (sr_state s) (sr_country s)
    (sr_notBefore s) (sr_notAfter s) (sr_sanDomains s) (sr_sanIPs s) (sr_url s)
    (sr_isWildcard s) (sr_sanCount s) (sr_entryType s) (Some (sr_tileIdx s)) (Some (sr_entryIdx s)) None None.

(** CREATE TABLE IF NOT EXISTS and CREATE UNIQUE INDEX IF NOT EXISTS without a
    journal: they write when the table or the index is not there yet. *)
Definition create_table_off (path : string) : M unit :=
  step_or (fun s => match dbs s !! path with None => set_db path Torn s | _ => s end)
    (fun s => match dbs s !! path with
              | Some (DB _) => (Ok tt, s)
              | Some Torn => (Err (Errorf "database disk image is malformed"), s)
              | None => (Ok tt, set_db path (DB (empty_db false false)) s)
              end).

Definition create_index_off (path : string) : M unit :=
  step_or (fun s => match dbs s !! path with Some (DB d) => if ix_tile d then s else set_db path Torn s | _ => s end)
    (fun s => match read_db path s with
              | Ok d => match create_tile_index d with
                        | Ok d' => (Ok tt, set_db path (DB d') s)
                        | Err e => (Err e, set_db path Torn s)
                        | Panic => (Panic, s)
                        end
              | Err e => (Err e, s)
              | Panic => (Panic, s)
              end).

Definition getOrOpen (p : outputPool) (month : string) : M (outputPool * monthState) :=
  match op_states p !! month with
  | Some ms => ret (p, ms)
  | None =>
      let@ _ := nop in
      let@ _ := nop in
      let@ _ := create_table_off (out_path p month) in
      let@ _ := create_index_off (out_path p month) in
      let ms := mkMonth None 0 in
      ret (set_month month ms p, ms)
  end.

Definition beginTx (path : string) : M (dbfile * Z) :=
  let@ d := query path DB in
  let@ _ := nop in
  ret (d, 0).

(** [ms.stmt.Exec]; the file is torn whatever comes of it. *)
Definition insert_off (path : string) (f : dbfile) (r : row) : M dbfile :=
  step_or (set_db path Torn)
    (fun s => match f with
              | DB d => (Ok (DB (insert_or_ignore d r)), set_db path Torn s)
              | Torn => (Err (Errorf "database disk image is malformed"), set_db path Torn s)
              end).

(** The transaction is over, whether its COMMIT succeeded or not. *)
Definition commitTx (path : string) (ms : monthState) : M (monthState * res unit) :=
  match ms_tx ms with
  | None => ret (ms, Ok tt)
  | Some f =>
      let@ r := attempt (step (fun s => (Ok tt, set_db path f s))) in
      ret (mkMonth None 0, match r with inl _ => Ok tt | inr e => Err e end)
  end.

(** [outputPool.insert], with its error. *)
Definition pool_insert (p : outputPool) (month : string) (s : subjectRow) : M (outputPool * res unit) :=
  let@ r := attempt (getOrOpen p month) in
  match r with
  | inr e => ret (p, Err e)
  | inl (p, ms) =>
      let path := out_path p month in
      let@ r := match ms_tx ms with Some f => ret (inl (f, ms_pending ms)) | None => attempt (beginTx path) end in
      match r with
      | inr e => ret (p, Err e)
      | inl (f, pending) =>
          let@ r := attempt (insert_off path f (table_row s)) in
          match r with
          | inr e => ret (set_month month (mkMonth (Some Torn) pending) p, Err e)
          | inl f =>
              let ms := mkMonth (Some f) (pending + 1) in
              if txBatchSize <=? pending + 1 then
                let@ (ms, r) := commitTx path ms in ret (set_month month ms p, r)
              else ret (set_month month ms p, Ok tt)
          end
      end
  end.

Fixpoint commit_months (p : outputPool) (months : list string) : M outputPool :=
  match months with
  | [] => ret p
  | month :: months =>
      match op_states p !! month with
      | None => commit_months p months
      | Some ms =>
          let@ (ms, r) := commitTx (out_path p month) ms in
          match r with
          | Ok _ => commit_months (set_month month ms p) months
          | Err e => fail (Wrap ("commit " +:+ month) e)
          | Panic => lift Panic
          end
      end
  end.

Fixpoint index_months (p : outputPool) (months : list string) : M unit :=
  match months with
  | [] => ret tt
  | month :: months => let@ _ := attempt (BuildQueryIndexes (out_path p month)) in index_months p months
  end.

(** *** Scanning *)

(** The pool and the counters rowCount and skipCount. *)
Record scan_state := mkScan { sc_pool : outputPool; sc_rows : Z; sc_skips : Z }.

Definition skip_row (sc : scan_state) : scan_state := mkScan (sc_pool sc) (sc_rows sc) (sc_skips sc + 1).

(** A row of the source goes to its month; a failing insert is only logged. *)
Definition write_row (sc : scan_state) (s : subjectRow) : M scan_state :=
  let@ (p, _) := pool_insert (sc_pool sc) (certMonth (sr_notBefore s)) s in
  ret (mkScan p (sc_rows sc + 1) (sc_skips sc)).

Section Source.

Context (remap : remap_table) (issPath : string).

(** [rows.Next] may fail; a row that does not scan is passed over. *)
Fixpoint cursor_loop (rows : list (list sqlval)) (sc : scan_state) : M (scan_state * res unit) :=
  match rows with
  | [] => ret (sc, Ok tt)
  | vals :: rows =>
      let@ r := attempt nop in
      match r with
      | inr e => ret (sc, Err e)
      | inl _ =>
          match scan_row vals with
          | None => cursor_loop rows sc
          | Some s =>
              match remap !! (issPath, sr_caID s) with
              | None => cursor_loop rows (skip_row sc)
              | Some globalID => let@ sc := write_row sc (set_caID globalID s) in cursor_loop rows sc
              end
          end
      end
  end.

Definition cursorScanAndWrite (rows : list (list sqlval)) (pool : outputPool) : M (scan_state * res unit) :=
  let sc := mkScan pool 0 0 in
  let@ r := attempt nop in
  match r with
  | inr e => ret (sc, Err e)
  | inl _ => cursor_loop rows sc
  end.

(** The cell pointers of a page from the [i]th. *)
Fixpoint raw_cells (k : nat) (i : Z) (page : bytes) (hdrOff pageSize : Z) (sc : scan_state) : M scan_state :=
  match k with
  | O => ret sc
  | S k =>
      let cpOff := hdrOff + 8 + i * 2 in
      if pageSize <? cpOff + 2 then ret sc else
      let@ cp := lift (go_slice page cpOff (cpOff + 2)) in
      let cellOff := be cp in
      if (cellOff <=? hdrOff) || (pageSize <=? cellOff) then raw_cells k (i + 1) page hdrOff pageSize sc
      else
        let@ s := lift (parseRow remap issPath page cellOff pageSize) in
        let@ sc := match s with None => ret (skip_row sc) | Some s => write_row sc s end in
        raw_cells k (i + 1) page hdrOff pageSize sc
  end.

(** A read that fails ends the loop like the end of the file. *)
Fixpoint raw_pages (k : nat) (pageNum pageSize : Z) (file : bytes) (sc : scan_state) : M scan_state :=
  match k with
  | O => ret sc
  | S k =>
      let@ r := attempt nop in
      match r with
      | inr _ => ret sc
      | inl _ =>
          if blen file <? pageSize then ret sc else
          let page := take (Z.to_nat pageSize) file in
          let hdrOff := if pageNum =? 1 then 100 else 0 in
          let@ kind := lift (go_index page hdrOff) in
          let@ sc :=
            if negb (kind =? 13) then ret sc
            else
              let@ nb := lift (go_slice page (hdrOff + 3) (hdrOff + 5)) in
              raw_cells (Z.to_nat (be nb)) 0 page hdrOff pageSize sc in
          raw_pages k (pageNum + 1) pageSize (drop (Z.to_nat pageSize) file) sc
      end
  end.

(** Opening the file, its first 100 bytes and its size may fail. *)
Definition rawScanAndWrite (file : bytes) (pool : outputPool) : M (scan_state * res unit) :=
  let sc := mkScan pool 0 0 in
  let@ r := attempt nop in
  match r with
  | inr e => ret (sc, Err e)
  | inl _ =>
      if blen file <? 100 then ret (sc, Err (Wrap "read header" (if blen file =? 0 then EOF else ErrUnexpectedEOF))) else
      if negb (bool_decide (take 16 file = sqlite_magic)) then ret (sc, Err (Errorf "not a SQLite database")) else
      let pageSize := header_page_size file in
      if pageSize =? 0 then lift Panic else
      let@ sc := raw_pages (Z.to_nat (blen file / pageSize)) 1 pageSize file sc in
      ret (sc, Ok tt)
  end.

End Source.

(** *** main *)

(** A source subjects.db: its path, the rows a cursor reads — those of its WAL
    file included —, the bytes of the database file and the size of the WAL file. *)
Record source := mkSource { so_path : string; so_rows : list (list sqlval); so_file : bytes; so_wal : Z }.

Definition isFragmented (rawAll : bool) (src : source) : bool :=
  rawAll || (0 <? so_wal src) || (Z.shiftl 10 30 <? blen (so_file src)).

Section Main.

(** The order in which a Go map is iterated. *)
Variable map_order : gset string -> list string.

Definition commitAllPending (p : outputPool) : M outputPool := commit_months p (map_order (dom (op_states p))).

Definition flushAndIndex (p : outputPool) : M unit :=
  let@ p := commitAllPending p in
  index_months p (map_order (dom (op_states p))).

(** A source that cannot be scanned is logged; the counts are those logged. *)
Fixpoint repartition_loop (rawAll : bool) (remap : remap_table) (srcs : list source) (pool : outputPool)
  : M (outputPool * list (Z * Z)) :=
  match srcs with
  | [] => ret (pool, [])
  | src :: srcs =>
      let issPath := issuerKey (so_path src) in
      let@ (sc, _) :=
        if isFragmented rawAll src then rawScanAndWrite remap issPath (so_file src) pool
        else cursorScanAndWrite remap issPath (so_rows src) pool in
      let@ pool := wrapM ("commit after " +:+ so_path src) (commitAllPending (sc_pool sc)) in
      let@ (pool, counts) := repartition_loop rawAll remap srcs pool in
      ret (pool, (sc_rows sc, sc_skips sc) :: counts)
  end.

(** The counts of the sources; an error is a log.Fatalf. *)
Definition repartition_main (rawAll : bool) (dst : string) (issuers : list (string * list (list sqlval))) (srcs : list source)
  : M (list (Z * Z)) :=
  let@ _ := wrapM "mkdir dst" nop in
  let@ remap := wrapM "build issuers" (buildIssuersRemap dst issuers) in
  match srcs with
  | [] => fail (Errorf "no subjects.db found")
  | _ =>
      let@ (pool, counts) := repartition_loop rawAll remap srcs (newOutputPool dst) in
      let@ _ := wrapM "flush" (flushAndIndex pool) in
      ret counts
  end.

End Main.
