(* ===== verification/RepartitionExact.v ===== *)
(** cmd/repartition, what a run produces: when nothing fails every month database
    holds the rows of its month, under ca_ids that name the same issuers, the
    first source that has a tile position winning. *)

From S2P Require Import Prelude GoStd FileSys Sha256 Sql SubjectDB Progress RawScan PageScan RowCell Repartition.

#[local] Open Scope sql_scope.

(** ** Lemmas *)

(** *** Hexadecimal *)

Lemma hexNib_digit v : 0 <= v < 16 -> hexNib (hex_digit v) = v.
Proof.
  intros Hv. assert (H : forallb (fun i => hexNib (hex_digit (Z.of_nat i)) =? Z.of_nat i) (List.seq 0 16) = true) by by vm_compute.
  rewrite forallb_forall in H. specialize (H (Z.to_nat v)). rewrite Z2Nat.id in H by lia. apply Z.eqb_eq, H, in_seq. lia.
Qed.

Lemma length_hex b : String.length (hex_encode b) = (2 * length b)%nat.
Proof. induction b as [|x b IH]; [done|]. cbn [hex_encode String.length length]. rewrite IH. lia. Qed.

Lemma hexDecode_encode b size : blen b <= size -> hexDecode (hex_encode b) size = Some b.
Proof.
  intros Hb. unfold hexDecode. rewrite length_hex. unfold blen in Hb.
  replace (Z.of_nat (2 * length b)) with (Z.of_nat (length b) * 2) by lia. rewrite Z.rem_mul, Z.quot_mul by lia.
  destruct (Z.ltb_spec size (Z.of_nat (length b))); [lia|]. cbn [negb Z.eqb orb]. clear.
  induction b as [|x b IH]; [done|]. cbn [hex_encode hex_pairs]. pose proof (bval_range x).
  rewrite !hexNib_digit by (pose proof (Z.mod_pos_bound (bval x) 16); split; div_lia).
  destruct (Z.eqb_spec (bval x / 16) 255); [div_lia|]. destruct (Z.eqb_spec (bval x mod 16) 255); [div_lia|].
  cbn [orb]. rewrite IH. cbn [option_map]. rewrite lor_shiftl_add by div_lia. do 2 f_equal.
  rewrite <- (byte_of_bval x) at 3. f_equal. change (2 ^ 4) with 16. div_lia.
Qed.

(** *** The remapping *)

(** A source's issuer row as the remapping reads it. *)
Definition issuer_pair (srcPath : string) (vals : list sqlval) : option ((string * Z) * bytes) :=
  '(localID, fpHex, _) ← scan_issuer vals;
  fp ← hexDecode fpHex 32;
  if blen fp =? 32 then Some ((srcPath, localID), fp) else None.

Definition issuer_pairs (srcs : list (string * list (list sqlval))) : list ((string * Z) * bytes) :=
  srcs ≫= (fun src => omap (issuer_pair src.1) src.2).

(** The table knows the CAs of [pairs], and gives each the global ca_id of one
    of its fingerprints. *)
Record remap_ok (g : issuer_db) (pairs : list ((string * Z) * bytes)) (remap : remap_table) : Prop := {
  ro_sound : forall k id, remap !! k = Some id -> exists fp, (k, fp) ∈ pairs /\ has_ca_id g fp id;
  ro_total : forall k fp, (k, fp) ∈ pairs -> is_Some (remap !! k) }.

Lemma remap_ok_insert g g' pairs remap k fp id : issuers_grown g g' -> has_ca_id g' fp id -> remap_ok g pairs remap ->
  remap_ok g' (pairs ++ [(k, fp)]) (<[k := id]> remap).
Proof.
  intros [_ Hg] Hid [H1 H2]. split.
  - intros k' id' [[<- <-]|[_ Hk]]%lookup_insert_Some.
    + exists fp. split; [apply elem_of_app; right; by left|done].
    + destruct (H1 k' id' Hk) as (fp' & Hin & Hc). exists fp'. split; [apply elem_of_app; by left|by apply Hg].
  - intros k' fp' [Hin|[= -> ->]%list_elem_of_singleton]%elem_of_app.
    + destruct (decide (k = k')) as [->|Hne]; [by rewrite lookup_insert_eq|]. rewrite lookup_insert_ne by done. by eapply H2.
    + by rewrite lookup_insert_eq.
Qed.

(** What the remapping leaves: the global database, grown, and its table. *)
Definition remap_post (path : string) (s : store) (g : issuer_db) (pairs : list ((string * Z) * bytes)) (r : res remap_table) (s' : store) : Prop :=
  exists g', s' = set_issdb path g' s /\ issuers_grown g g' /\ forall remap, r = Ok remap -> remap_ok g' pairs remap.

Lemma remap_rows_wp path srcPath rows : forall s g pairs remap,
  issdbs s !! path = Some g -> issuer_wf g -> remap_ok g pairs remap ->
  wp (remap_rows path srcPath rows remap) (remap_post path s g (pairs ++ omap (issuer_pair srcPath) rows)) s.
Proof.
  induction rows as [|vals rows IH]; intros s g pairs remap Hg Hw Hok; cbn [remap_rows omap list_omap].
  { apply wp_ret. exists g. rewrite set_issdb_id, app_nil_r by done. split; [done|]. split; [by split|]. by intros ? [= <-]. }
  unfold issuer_pair at 1. destruct (scan_issuer vals) as [[[localID fpHex] [[cn org] country]]|]; cbn [mbind option_bind]; [|by apply IH].
  destruct (hexDecode fpHex 32) as [fp|]; cbn [mbind option_bind]; [|by apply IH].
  destruct (blen fp =? 32); cbn [negb]; [|by apply IH].
  apply wp_bind, wp_wrap. eapply wp_mono; [by apply upsert_wp|]. intros [id|e|] s' (g' & -> & Hgr & Hid); cbn [wrap_err].
  2,3: by exists g'.
  eapply wp_mono; [apply (IH _ g' (pairs ++ [((srcPath, localID), fp)])); [apply lookup_insert_eq|apply Hgr|]|].
  - eapply remap_ok_insert; [done|by apply Hid|done].
  - intros r s' (g'' & -> & Hgr' & Hr). exists g''. rewrite set_issdb_twice. split; [done|]. split; [by eapply grown_trans|].
    by rewrite <- app_assoc in Hr.
Qed.

Lemma remap_sources_wp path srcs : forall s g pairs remap,
  issdbs s !! path = Some g -> issuer_wf g -> remap_ok g pairs remap ->
  wp (remap_sources path srcs remap) (remap_post path s g (pairs ++ issuer_pairs srcs)) s.
Proof.
  induction srcs as [|[srcPath rows] srcs IH]; intros s g pairs remap Hg Hw Hok; cbn [remap_sources].
  { apply wp_ret. exists g. rewrite set_issdb_id, app_nil_r by done. split; [done|]. split; [by split|]. by intros ? [= <-]. }
  assert (Hskip : forall r : res remap_table, is_ok r = false -> remap_post path s g (pairs ++ issuer_pairs ((srcPath, rows) :: srcs)) r s).
  { intros r Hr. exists g. rewrite set_issdb_id by done. split; [done|]. split; [by split|]. by intros ? ->. }
  apply wp_bind, wp_wrap, wp_nop; [by apply Hskip..|]. apply wp_bind. eapply wp_mono; [by eapply remap_rows_wp|].
  intros [remap'|e|] s' (g' & -> & Hgr & Hr). 2,3: by exists g'.
  eapply wp_mono; [eapply (IH _ g'); [apply lookup_insert_eq|apply Hgr|by apply Hr]|].
  intros r s' (g'' & -> & Hgr' & Hr'). exists g''. rewrite set_issdb_twice. split; [done|]. split; [by eapply grown_trans|].
  unfold issuer_pairs. rewrite bind_cons. by rewrite <- app_assoc in Hr'.
Qed.

Lemma iss_stmt_quiet {A} path (f : issuer_db -> res A * issuer_db) g s :
  issdbs s !! path = Some g -> iss_stmt path f s [] = ((f g).1, set_issdb path (f g).2 s, []).
Proof. intros Hg. unfold iss_stmt, step, step_or. rewrite Hg. by destruct (f g). Qed.

Lemma issuer_upsert_runs path fp cn org country s g : issdbs s !! path = Some g -> issuer_wf g ->
  quiet (UpsertIssuer path fp cn org country) (fun _ _ => True) s.
Proof.
  intros Hg Hw. unfold quiet, UpsertIssuer, bindM at 1, attempt. rewrite (iss_stmt_quiet path _ g s Hg). cbn [fst snd].
  rewrite set_issdb_id by done. destruct (select_issuer _ _) as [id|] eqn:Es; [by eexists _, _|].
  destruct (insert_issuer_spec fp cn org country g Hw Es) as (g' & Ei & _).
  unfold wrapM. rewrite (iss_stmt_quiet path _ g s Hg), Ei. by eexists _, _.
Qed.

Lemma remap_rows_runs path srcPath rows : forall s g remap,
  issdbs s !! path = Some g -> issuer_wf g ->
  quiet (remap_rows path srcPath rows remap) (fun _ s' => exists g', issdbs s' !! path = Some g' /\ issuer_wf g') s.
Proof.
  induction rows as [|vals rows IH]; intros s g remap Hg Hw; cbn [remap_rows]; [apply quiet_ret; eauto|].
  destruct (scan_issuer vals) as [[[localID fpHex] [[cn org] country]]|]; [|by eapply IH].
  destruct (hexDecode fpHex 32) as [fp|]; [|by eapply IH]. destruct (negb _); [by eapply IH|].
  apply quiet_bind, quiet_wrap. eapply quiet_wp; [by apply upsert_wp|by eapply issuer_upsert_runs|].
  intros id s' (g' & -> & [Hw' _] & _). eapply IH; [apply lookup_insert_eq|done].
Qed.

Lemma remap_sources_runs path srcs : forall s g remap,
  issdbs s !! path = Some g -> issuer_wf g -> quiet (remap_sources path srcs remap) (fun _ _ => True) s.
Proof.
  induction srcs as [|[srcPath rows] srcs IH]; intros s g remap Hg Hw; cbn [remap_sources]; [by apply quiet_ret|].
  apply quiet_bind, quiet_wrap, quiet_nop, quiet_bind. eapply quiet_mono; [by eapply remap_rows_runs|].
  intros remap' s' (g' & Hg' & Hw'). by eapply IH.
Qed.

(** *** The months *)

Definition empty_month : db := empty_db true false.

(** A month's database after more rows; without any it need not exist. *)
Definition grow (d : option db) (rs : list row) : option db :=
  match rs with [] => d | _ => Some (insert_all (default empty_month d) rs) end.

Lemma grow_app d a b : grow (grow d a) b = grow d (a ++ b).
Proof.
  destruct a as [|x a]; [done|]. destruct b as [|y b]; [by rewrite app_nil_r|].
  change (Some (insert_all (insert_all (default empty_month d) (x :: a)) (y :: b)) = Some (insert_all (default empty_month d) ((x :: a) ++ y :: b))).
  by rewrite insert_all_app.
Qed.

(** The rows of a month among the migrated ones. *)
Definition month_rows (month : string) (l : list subjectRow) : list row :=
  map table_row (filter (fun s => certMonth (sr_notBefore s) = month) l).

Lemma month_rows_app month a b : month_rows month (a ++ b) = month_rows month a ++ month_rows month b.
Proof. unfold month_rows. by rewrite filter_app, map_app. Qed.

Section Run.

Context (root : string).

Definition stored (s : store) (month : string) : option db :=
  match dbs s !! month_path root month with Some (DB d) => Some d | _ => None end.

(** A month file that is there is a database with its unique index. *)
Definition tidy (s : store) (month : string) : Prop :=
  dbs s !! month_path root month = None \/ exists d, dbs s !! month_path root month = Some (DB d) /\ ix_tile d = true.

(** A month without an open transaction has a tidy file, which exists when the pool
    has the month; with one its view is a database with the index. *)
Record good (p : outputPool) (s : store) : Prop := {
  gd_root : dstRoot p = root;
  gd_tidy : forall month, op_states p !! month ≫= ms_tx = None -> tidy s month;
  gd_open : forall month ms, op_states p !! month = Some ms -> ms_tx ms = None -> is_Some (stored s month);
  gd_tx : forall month ms f, op_states p !! month = Some ms -> ms_tx ms = Some f -> exists d, f = DB d /\ ix_tile d = true }.

Definition as_db (f : dbfile) : option db := match f with DB d => Some d | Torn => None end.

(** What a month's next reader sees: its open transaction, else its file. *)
Definition view (p : outputPool) (s : store) (month : string) : option db :=
  match op_states p !! month ≫= ms_tx with Some f => as_db f | None => stored s month end.

(** The months gain rows; nothing else of the store changes but files. *)
Record gained (p : outputPool) (s : store) (l : list subjectRow) (p' : outputPool) (s' : store) : Prop := {
  gn_good : good p' s';
  gn_issuers : issdbs s' = issdbs s;
  gn_view : forall month, view p' s' month = grow (view p s month) (month_rows month l) }.

Lemma gained_refl p s : good p s -> gained p s [] p s.
Proof. by split. Qed.

Lemma gained_trans p s l p' s' l' p'' s'' : gained p s l p' s' -> gained p' s' l' p'' s'' -> gained p s (l ++ l') p'' s''.
Proof.
  intros [_ I1 V1] [G2 I2 V2]. split; [done|congruence|]. intros month. by rewrite V2, V1, grow_app, month_rows_app.
Qed.

Lemma month_lookup s month f month' : dbs (set_db (month_path root month) f s) !! month_path root month' =
  if decide (month = month') then Some f else dbs s !! month_path root month'.
Proof.
  rewrite dbs_set. destruct (decide (month = month')) as [->|Hne]; [by rewrite decide_True|].
  rewrite decide_False; [done|]. by intros ?%month_path_inj.
Qed.

Lemma stored_set s month d month' : stored (set_db (month_path root month) (DB d) s) month' =
  if decide (month = month') then Some d else stored s month'.
Proof. unfold stored. rewrite month_lookup. by case_decide. Qed.

Lemma month_stored_same s month d : stored (set_db (month_path root month) (DB d) s) month = Some d.
Proof. rewrite stored_set. by rewrite decide_True. Qed.

Lemma tidy_set s month d month' : ix_tile d = true -> tidy s month' -> tidy (set_db (month_path root month) (DB d) s) month'.
Proof. intros Hd Ht. unfold tidy. rewrite month_lookup. case_decide; [right; eauto|done]. Qed.

(** A month's transaction writes on, whatever its file holds; or a month has no
    transaction and a database in its file. *)
Lemma good_tx p s month d n f : good p s -> ix_tile d = true ->
  let p' := set_month month (mkMonth (Some (DB d)) n) p in let s' := set_db (month_path root month) f s in
  good p' s' /\ forall m, view p' s' m = if decide (month = m) then Some d else view p s m.
Proof.
  intros [G1 G2 G3 G4] Hd. cbn zeta. assert (Hne : forall m, m <> month ->
    stored (set_db (month_path root month) f s) m = stored s m /\ (tidy s m -> tidy (set_db (month_path root month) f s) m)).
  { intros m Hm. unfold stored, tidy. rewrite month_lookup, decide_False by congruence. done. }
  split; [split; cbn [op_states set_month dstRoot]; [done|..]|].
  - intros m. destruct (decide (m = month)) as [->|Hm]; [by rewrite lookup_insert_eq|]. rewrite lookup_insert_ne by congruence.
    intros Hn. by apply Hne, G2.
  - intros m ms [[<- <-]|[Hm H]]%lookup_insert_Some; [done|]. intros Hn. rewrite (proj1 (Hne m ltac:(congruence))). by eapply G3.
  - intros m ms x [[<- <-]|[Hm H]]%lookup_insert_Some; [intros [= <-]; eauto|by eapply G4].
  - intros m. unfold view. cbn [op_states set_month]. case_decide as E; [subst m; by rewrite lookup_insert_eq|].
    rewrite lookup_insert_ne by done. by rewrite (proj1 (Hne m ltac:(congruence))).
Qed.

Lemma good_closed p s month d n : good p s -> ix_tile d = true ->
  let p' := set_month month (mkMonth None n) p in let s' := set_db (month_path root month) (DB d) s in
  good p' s' /\ forall m, view p' s' m = if decide (month = m) then Some d else view p s m.
Proof.
  intros [G1 G2 G3 G4] Hd. cbn zeta. split; [split; cbn [op_states set_month dstRoot]; [done|..]|].
  - intros m. destruct (decide (m = month)) as [->|Hm]; [intros _; right; exists d; by rewrite month_lookup, decide_True|].
    rewrite lookup_insert_ne by congruence. intros Hn. by apply tidy_set, G2.
  - intros m ms H Hn. rewrite stored_set. case_decide as E; [eauto|]. rewrite lookup_insert_ne in H by done. by eapply G3.
  - intros m ms x [[<- <-]|[Hm H]]%lookup_insert_Some; [done|by eapply G4].
  - intros m. unfold view. cbn [op_states set_month]. rewrite stored_set. case_decide as E; [subst m; by rewrite lookup_insert_eq|].
    by rewrite lookup_insert_ne by done.
Qed.

Lemma set_db_twice path f f' s : set_db path f (set_db path f' s) = set_db path f s.
Proof. unfold set_db. cbn. by rewrite insert_insert_eq. Qed.

Lemma set_db_same path f s : dbs s !! path = Some f -> set_db path f s = s.
Proof. intros H. unfold set_db. rewrite insert_id by done. by destruct s. Qed.

Lemma create_quiet s month : tidy s month ->
  quiet (let@ _ := create_table_off (month_path root month) in create_index_off (month_path root month))
    (fun _ s' => s' = set_db (month_path root month) (DB (default empty_month (stored s month))) s) s.
Proof.
  intros Ht. apply quiet_bind. unfold stored. destruct Ht as [E|(d & E & Hd)].
  - eapply quiet_step_or; [by rewrite E|]. eapply quiet_step_or.
    + unfold read_db. rewrite month_lookup, decide_True by done. cbn. reflexivity.
    + rewrite E. apply set_db_twice.
  - eapply quiet_step_or; [by rewrite E|]. eapply quiet_step_or.
    + unfold read_db. rewrite E. unfold create_tile_index. rewrite Hd. reflexivity.
    + by rewrite E.
Qed.

Lemma tidy_tile s month d : tidy s month -> stored s month = Some d -> ix_tile d = true.
Proof. unfold stored. intros [-> |(x & -> & H)]; [done|]. by intros [= <-]. Qed.

Lemma view_tile p s month d : good p s -> view p s month = Some d -> ix_tile d = true.
Proof.
  intros G. unfold view. destruct (op_states p !! month ≫= ms_tx) as [f|] eqn:Em; [|by apply tidy_tile, G].
  apply bind_Some in Em as (ms & Em & Et). destruct (gd_tx _ _ G month ms f Em Et) as (x & -> & Hx). by intros [= <-].
Qed.

Lemma month_open_quiet p s month : good p s ->
  quiet (getOrOpen p month) (fun pm s' => good pm.1 s' /\ issdbs s' = issdbs s /\ op_states pm.1 !! month = Some pm.2 /\
    forall m, view pm.1 s' m = if decide (month = m) then Some (default empty_month (view p s month)) else view p s m) s.
Proof.
  intros G. unfold getOrOpen. destruct (op_states p !! month) as [ms|] eqn:Em.
  { apply quiet_ret. split; [done|]. split; [done|]. split; [done|]. intros m. case_decide as E; [subst m|done]. cbn [fst].
    unfold view. rewrite Em. cbn. destruct (ms_tx ms) as [f|] eqn:Et.
    - by destruct (gd_tx _ _ G month ms f Em Et) as (d & -> & _).
    - by destruct (gd_open _ _ G month ms Em Et) as [d ->]. }
  unfold out_path. rewrite (gd_root _ _ G). do 2 apply quiet_bind, quiet_nop.
  assert (Hv : view p s month = stored s month) by (unfold view; by rewrite Em). rewrite Hv.
  assert (Ht : tidy s month) by (apply (gd_tidy _ _ G); by rewrite Em).
  set (d := default empty_month (stored s month)). assert (Hd : ix_tile d = true).
  { unfold d. destruct (stored s month) as [x|] eqn:Ex; [|done]. by eapply tidy_tile. }
  destruct (create_quiet s month Ht) as (u & s1 & E & ->). fold d in E.
  exists (set_month month (mkMonth None 0) p, mkMonth None 0), (set_db (month_path root month) (DB d) s). split.
  { unfold bindM in E |- *. destruct (create_table_off _ s []) as [[[|?|] ?] ?]; [|done..]. by rewrite E. }
  cbn [fst snd]. destruct (good_closed p s month d 0 G Hd) as [G1 V1]. split; [exact G1|]. split; [done|]. split; [apply lookup_insert_eq|exact V1].
Qed.

(** The transaction the next row goes to: the open one, or a new one. *)
Lemma tx_quiet p s month ms d : good p s -> op_states p !! month = Some ms -> view p s month = Some d ->
  quiet (match ms_tx ms with Some f => ret (inl (f, ms_pending ms)) | None => attempt (beginTx (out_path p month)) end)
    (fun r s' => s' = s /\ exists pending, r = inl (DB d, pending)) s.
Proof.
  intros G Em Hv. unfold view in Hv. rewrite Em in Hv. cbn in Hv. destruct (ms_tx ms) as [x|] eqn:Et.
  - destruct (gd_tx _ _ G month ms x Em Et) as (x' & -> & _). injection Hv as ->. apply quiet_ret. eauto.
  - unfold out_path. rewrite (gd_root _ _ G). unfold stored in Hv. destruct (dbs s !! _) as [[x|]|] eqn:Ed; [|done..].
    injection Hv as ->. apply quiet_attempt, quiet_bind. eapply quiet_query; [done|]. apply quiet_bind, quiet_nop, quiet_ret. eauto.
Qed.

(** Committing a month keeps what its next reader sees. *)
Lemma commit_tx_quiet p s month ms : good p s -> op_states p !! month = Some ms ->
  quiet (commitTx (out_path p month) ms) (fun r s' => r.2 = Ok tt /\ ms_tx r.1 = None /\
    good (set_month month r.1 p) s' /\ issdbs s' = issdbs s /\ forall m, view (set_month month r.1 p) s' m = view p s m) s.
Proof.
  intros G Em. unfold commitTx, out_path. rewrite (gd_root _ _ G). destruct (ms_tx ms) as [f|] eqn:Et.
  - destruct (gd_tx _ _ G month ms f Em Et) as (d & -> & Hd). apply quiet_bind, quiet_attempt. eapply quiet_step_or; [done|].
    apply quiet_ret. cbn [fst snd ms_tx]. split; [done|]. split; [done|].
    destruct (good_closed p s month d 0 G Hd) as [G1 V1]. split; [exact G1|]. split; [done|].
    intros m. rewrite V1. case_decide as E; [|done]. subst m. unfold view. rewrite Em. cbn. by rewrite Et.
  - destruct (gd_open _ _ G month ms Em Et) as [d Hd]. assert (Hd' : ix_tile d = true).
    { eapply tidy_tile; [|exact Hd]. apply (gd_tidy _ _ G). by rewrite Em. }
    apply quiet_ret. cbn [fst snd]. split; [done|]. split; [done|].
    assert (E : set_month month ms p = p) by (unfold set_month; rewrite insert_id by done; by destruct p). by rewrite E.
Qed.

Lemma set_month_twice month ms ms' p : set_month month ms (set_month month ms' p) = set_month month ms p.
Proof. unfold set_month. cbn. by rewrite insert_insert_eq. Qed.

Lemma pool_insert_quiet p s x : good p s ->
  quiet (pool_insert p (certMonth (sr_notBefore x)) x) (fun r s' => r.2 = Ok tt /\ gained p s [x] r.1 s') s.
Proof.
  intros G. set (month := certMonth (sr_notBefore x)). apply quiet_bind, quiet_attempt.
  eapply quiet_mono; [by apply month_open_quiet|]. intros [p1 ms] s1 (G1 & I1 & Em & V1). cbn [fst snd] in *.
  set (d := default empty_month (view p s month)) in *. assert (Hv : view p1 s1 month = Some d) by (rewrite V1; by rewrite decide_True).
  pose proof (view_tile _ _ _ _ G1 Hv) as Hd. cbn zeta. apply quiet_bind. eapply quiet_mono; [by eapply tx_quiet|].
  intros r s2 (-> & pending & ->). apply quiet_bind, quiet_attempt. eapply quiet_step_or; [done|]. cbn [fst snd].
  assert (Hd' : ix_tile (insert_or_ignore d (table_row x)) = true) by (unfold insert_or_ignore; by destruct (conflicts _ _)).
  assert (Hp : out_path p1 month = month_path root month) by (unfold out_path; by rewrite (gd_root _ _ G1)). rewrite Hp.
  destruct (good_tx p1 s1 month _ (pending + 1) Torn G1 Hd') as [G2 V2]. cbn zeta in G2, V2. set (s2 := set_db _ Torn s1) in *.
  assert (Hgain : forall p3 s3, good p3 s3 -> issdbs s3 = issdbs s2 ->
    (forall m, view p3 s3 m = view (set_month month (mkMonth (Some (DB (insert_or_ignore d (table_row x)))) (pending + 1)) p1) s2 m) -> gained p s [x] p3 s3).
  { intros p3 s3 G3 I3 V3. split; [done|rewrite I3; exact I1|]. intros m. rewrite V3, V2. unfold month_rows. cbn [filter]. rewrite filter_cons, filter_nil.
    fold month. case_decide as E; [by subst m|]. by rewrite V1, decide_False. }
  destruct (txBatchSize <=? pending + 1).
  - apply quiet_bind. set (ms2 := mkMonth _ _) in *. set (p2 := set_month month ms2 p1) in *.
    rewrite <- Hp. change (out_path p1 month) with (out_path p2 month).
    eapply quiet_mono; [apply (commit_tx_quiet p2 s2 month ms2 G2); apply lookup_insert_eq|].
    intros [ms3 r3] s3 (Hr & _ & G3 & I3 & V3). cbn [fst snd] in *. apply quiet_ret. split; [done|]. cbn [fst].
    unfold p2 in G3, V3. rewrite set_month_twice in G3, V3. by apply Hgain.
  - apply quiet_ret. split; [done|]. cbn [fst]. by apply Hgain.
Qed.

(** *** Scanning *)

(** A scan has come by [rs], the rows it writes and [None] for those it skips. *)
Record scanned (sc : scan_state) (s : store) (rs : list (option subjectRow)) (sc' : scan_state) (s' : store) : Prop := {
  sn_gained : gained (sc_pool sc) s (omap id rs) (sc_pool sc') s';
  sn_rows : sc_rows sc' = sc_rows sc + Z.of_nat (length (omap id rs));
  sn_skips : sc_skips sc' = sc_skips sc + Z.of_nat (length rs) - Z.of_nat (length (omap id rs)) }.

Lemma scanned_refl sc s : good (sc_pool sc) s -> scanned sc s [] sc s.
Proof. split; [by apply gained_refl|cbn; lia..]. Qed.

Lemma scanned_trans sc s rs sc' s' rs' sc'' s'' :
  scanned sc s rs sc' s' -> scanned sc' s' rs' sc'' s'' -> scanned sc s (rs ++ rs') sc'' s''.
Proof.
  intros [G1 R1 K1] [G2 R2 K2]. split; rewrite ?omap_app, ?length_app; [by eapply gained_trans|lia..].
Qed.

Definition sc_good (sc : scan_state) (s : store) : Prop := good (sc_pool sc) s.

Lemma scanned_good sc s rs sc' s' : scanned sc s rs sc' s' -> sc_good sc' s'.
Proof. intros [[G _ _] _ _]. done. Qed.

Lemma skip_scanned sc s : sc_good sc s -> scanned sc s [None] (skip_row sc) s.
Proof. intros G. split; [by apply gained_refl|cbn; lia..]. Qed.

Lemma write_row_quiet sc s x : sc_good sc s -> quiet (write_row sc x) (fun sc' s' => scanned sc s [Some x] sc' s') s.
Proof.
  intros G. apply quiet_bind. eapply quiet_mono; [by apply pool_insert_quiet|]. intros [p' r] s' [_ Hg]. apply quiet_ret.
  split; [exact Hg|cbn; lia..].
Qed.

(** One row more, then the rest. *)
Lemma scan_step sc s x rs (m : scan_state -> M (scan_state * res unit)) : sc_good sc s ->
  (forall sc' s', sc_good sc' s' -> quiet (m sc') (fun r s'' => r.2 = Ok tt /\ scanned sc' s' rs r.1 s'') s') ->
  quiet (match x with None => m (skip_row sc) | Some y => let@ sc := write_row sc y in m sc end)
    (fun r s'' => r.2 = Ok tt /\ scanned sc s (x :: rs) r.1 s'') s.
Proof.
  intros G Hm. destruct x as [y|].
  - apply quiet_bind. eapply quiet_mono; [by apply write_row_quiet|]. intros sc' s' H. eapply quiet_mono; [eapply Hm, scanned_good, H|].
    intros r s'' [Hr H']. split; [done|]. by apply (scanned_trans _ _ [Some y] _ _ rs _ _ H).
  - eapply quiet_mono; [by apply Hm|]. intros r s'' [Hr H']. split; [done|].
    by apply (scanned_trans _ _ [None] _ _ rs _ _ (skip_scanned sc s G)).
Qed.

Lemma lift_quiet {A B} (a : A) (k : A -> M B) Q s : quiet (k a) Q s -> quiet (let@ x := lift (Ok a) in k x) Q s.
Proof. intros (b & s' & E & H). by exists b, s'. Qed.

Section Source.

Context (remap : remap_table) (issPath : string).

(** What a whole row becomes. *)
Definition routed (vals : list sqlval) : option subjectRow := remapped remap issPath (row_of vals).

Lemma cursor_loop_quiet rows : forall sc s, sc_good sc s -> Forall whole_row rows ->
  quiet (cursor_loop remap issPath rows sc) (fun r s' => r.2 = Ok tt /\ scanned sc s (map routed rows) r.1 s') s.
Proof.
  induction rows as [|vals rows IH]; intros sc s G Hw; cbn [cursor_loop map].
  { apply quiet_ret. split; [done|]. by apply scanned_refl. }
  apply Forall_cons in Hw as [Hv Hw]. apply quiet_bind, quiet_attempt, quiet_nop. rewrite (scan_whole vals Hv).
  pose proof (scan_step sc s (routed vals) (map routed rows) (cursor_loop remap issPath rows) G) as Hs. revert Hs.
  assert (routed vals = gid ← remap !! (issPath, sr_caID (row_of vals)); Some (set_caID gid (row_of vals))) as -> by done.
  destruct (remap !! _); intros Hs; apply Hs; intros; by apply IH.
Qed.

Lemma raw_cells_quiet k : forall i page hdrOff pageSize rs sc s, sc_good sc s ->
  page_cells (parseRow remap issPath) k i page hdrOff pageSize = Ok rs ->
  quiet (raw_cells remap issPath k i page hdrOff pageSize sc) (fun sc' s' => scanned sc s rs sc' s') s.
Proof.
  induction k as [|k IH]; intros i page hdrOff pageSize rs sc s G; cbn [page_cells raw_cells].
  { intros [= <-]. apply quiet_ret. by apply scanned_refl. }
  destruct (pageSize <? _); [intros [= <-]; apply quiet_ret; by apply scanned_refl|].
  destruct (go_slice _ _ _) as [cp|?|]; cbn [bind_res]; [|done..]. intros H. apply lift_quiet. revert H.
  destruct (_ || _); [by apply IH|]. destruct (parseRow _ _ _ _ _) as [a|?|]; cbn [bind_res]; [|done..].
  destruct (page_cells _ _ _ _ _ _) as [rest|?|] eqn:Er; cbn [bind_res]; [|done..]. intros [= <-]. apply lift_quiet.
  apply quiet_bind. destruct a as [x|].
  - eapply quiet_mono; [by apply write_row_quiet|]. intros sc' s' H. eapply quiet_mono; [eapply IH; [eapply scanned_good, H|done]|].
    intros sc'' s'' H'. by apply (scanned_trans _ _ [Some x] _ _ rest _ _ H).
  - apply quiet_ret. eapply quiet_mono; [by eapply IH|]. intros sc'' s'' H'.
    by apply (scanned_trans _ _ [None] _ _ rest _ _ (skip_scanned sc s G)).
Qed.

Lemma raw_pages_quiet k : forall pageNum pageSize file rs sc s, sc_good sc s ->
  file_pages (parseRow remap issPath) k pageNum pageSize file = Ok rs ->
  quiet (raw_pages remap issPath k pageNum pageSize file sc) (fun sc' s' => scanned sc s rs sc' s') s.
Proof.
  induction k as [|k IH]; intros pageNum pageSize file rs sc s G; cbn [file_pages raw_pages].
  { intros [= <-]. apply quiet_ret. by apply scanned_refl. }
  intros H. apply quiet_bind, quiet_attempt, quiet_nop. revert H.
  destruct (blen file <? pageSize); [intros [= <-]; apply quiet_ret; by apply scanned_refl|].
  unfold leaf_page. set (page := take _ file). destruct (go_index page _) as [kind|?|]; cbn [bind_res]; [|done..].
  intros H. apply lift_quiet, quiet_bind. revert H. destruct (negb (kind =? 13)); cbn [bind_res].
  - destruct (file_pages _ _ _ _ _) as [b|?|] eqn:Eb; cbn [bind_res]; [|done..]. intros [= <-]. apply quiet_ret. by eapply IH.
  - destruct (go_slice page _ _) as [nb|?|]; cbn [bind_res]; [|done..]. intros H. apply lift_quiet. revert H.
    destruct (page_cells _ _ _ _ _ _) as [a|?|] eqn:Ea; cbn [bind_res]; [|done..].
    destruct (file_pages _ _ _ _ _) as [b|?|] eqn:Eb; cbn [bind_res]; [|done..]. intros [= <-].
    eapply quiet_mono; [by eapply raw_cells_quiet|]. intros sc' s' H1.
    eapply quiet_mono; [eapply IH; [eapply scanned_good, H1|exact Eb]|]. intros sc'' s''. by apply scanned_trans.
Qed.

Lemma raw_scan_quiet file rs pool s : good pool s -> file_rows (parseRow remap issPath) file = Ok rs ->
  quiet (rawScanAndWrite remap issPath file pool) (fun r s' => r.2 = Ok tt /\ scanned (mkScan pool 0 0) s rs r.1 s') s.
Proof.
  intros G. unfold file_rows, rawScanAndWrite. intros H. apply quiet_bind, quiet_attempt, quiet_nop. revert H.
  destruct (blen file <? 100); [done|]. destruct (negb _); [done|]. destruct (header_page_size file =? 0); [done|].
  intros H. apply quiet_bind. eapply quiet_mono; [by eapply raw_pages_quiet|]. intros sc s' H'. by apply quiet_ret.
Qed.

(** A stored row that is whole. *)
Definition whole_cols (cols : list column) : Prop := (numCols <= length cols)%nat /\ whole_row (map col_value cols).

Definition routed_cols (cols : list column) : option subjectRow :=
  if decide (foreign_row cols) then None else routed (map col_value cols).

Lemma file_rows_routed file colss : file_holds file colss -> Forall (fun cols => whole_cols cols \/ foreign_row cols) colss ->
  file_rows (parseRow remap issPath) file = Ok (map routed_cols colss).
Proof.
  intros Hf Hw. apply (file_rows_read _ routed_cols (fun cols => whole_cols cols \/ foreign_row cols)) with (rows := colss); [|done..].
  intros page off cols pre post payload rowid hdrSize Hc Hcell. unfold routed_cols. case_decide as Hs.
  - by eapply parse_foreign_row.
  - destruct Hc as [[Hl Hv]|?]; [|done]. rewrite (parse_row_exact _ _ _ _ _ _ _ _ _ _ Hl Hcell).
    unfold stored_row. by rewrite (whole_not_null _ Hv).
Qed.

(** The rows of other tables are among the skipped ones. *)
Lemma routed_cols_split colss :
  omap id (map routed_cols colss) = omap id (map routed (map (map col_value) (filter (fun cols => ~ foreign_row cols) colss))) /\
  length colss = (length (filter (fun cols => ~ foreign_row cols) colss) + length (filter foreign_row colss))%nat.
Proof.
  induction colss as [|cols colss [IH1 IH2]]; [done|]. cbn [map omap list_omap length]. rewrite !filter_cons. unfold routed_cols at 1.
  destruct (decide (foreign_row cols)) as [Hf|Hf]; [rewrite decide_False by tauto|rewrite decide_True by done]; cbn [map omap list_omap id length].
  - split; [exact IH1|lia].
  - split; [|lia]. destruct (routed (map col_value cols)); cbn [id]; [by f_equal|exact IH1].
Qed.

End Source.

(** *** Commits and indexes *)

Lemma commit_months_quiet months : forall p s, good p s ->
  quiet (commit_months p months) (fun p' s' => good p' s' /\ issdbs s' = issdbs s /\ (forall m, view p' s' m = view p s m) /\
    dom (op_states p') = dom (op_states p) /\
    forall m ms, op_states p' !! m = Some ms -> ms_tx ms = None \/ m ∉ months /\ op_states p !! m = Some ms) s.
Proof.
  induction months as [|month months IH]; intros p s G; cbn [commit_months].
  { apply quiet_ret. split_and!; try done. intros m ms H. right. split; [by apply not_elem_of_nil|done]. }
  destruct (op_states p !! month) as [ms0|] eqn:Em.
  - apply quiet_bind. eapply quiet_mono; [by eapply commit_tx_quiet|]. intros [ms r] s1 (Hr & Ht & G1 & I1 & V1). cbn [fst snd] in *. subst r.
    eapply quiet_mono; [by apply IH|]. intros p' s' (G' & I' & V' & D' & T'). split; [done|]. split; [congruence|].
    split; [intros m; by rewrite V'|]. split.
    { rewrite D'. cbn. rewrite dom_insert_L. apply elem_of_dom_2 in Em. set_solver. }
    intros m x Hx. destruct (T' m x Hx) as [?|[Hm H]]; [by left|]. cbn in H. apply lookup_insert_Some in H as [[-> ->]|[Hne H]]; [by left|].
    right. split; [|done]. by apply not_elem_of_cons.
  - eapply quiet_mono; [by apply IH|]. intros p' s' (G' & I' & V' & D' & T'). split_and!; try done.
    intros m x Hx. destruct (T' m x Hx) as [?|[Hm H]]; [by left|]. right. split; [|done]. apply not_elem_of_cons. split; [congruence|done].
Qed.

Section Order.

Context (map_order : gset string -> list string) (Horder : forall X m, m ∈ map_order X <-> m ∈ X).

(** After committing everything the files are what was to be seen. *)
Lemma commit_all_quiet p s : good p s ->
  quiet (commitAllPending map_order p) (fun p' s' => good p' s' /\ issdbs s' = issdbs s /\ dom (op_states p') = dom (op_states p) /\
    (forall m, view p' s' m = view p s m) /\ forall m, stored s' m = view p s m) s.
Proof.
  intros G. eapply quiet_mono; [by apply commit_months_quiet|]. intros p' s' (G' & I' & V' & D' & T'). split_and!; try done.
  intros m. rewrite <- V'. unfold view. destruct (op_states p' !! m) as [ms|] eqn:Em; [|done]. cbn.
  destruct (T' m ms Em) as [->|[Hn H]]; [done|]. destruct Hn. apply Horder. by apply elem_of_dom_2 in H.
Qed.

(** Two states of the month files that differ in query indexes only. *)
Definition same_rows (s s' : store) : Prop := issdbs s' = issdbs s /\ forall m, rows <$> stored s' m = rows <$> stored s m.

Lemma index_each_quiet month names f s : (forall n d, rows (f n d) = rows d) -> is_Some (stored s month) ->
  quiet (exec_each (month_path root month) names f) (fun _ s' => same_rows s s' /\ is_Some (stored s' month)) s.
Proof.
  intros Hf. revert s. induction names as [|n names IH]; intros s Hs; cbn [exec_each]; [by apply quiet_ret|].
  pose proof Hs as [d Hd]. unfold stored in Hd. destruct (dbs s !! _) as [[x|]|] eqn:Ed; [|done..]. injection Hd as ->.
  apply quiet_bind. eapply quiet_update; [done..|]. eapply quiet_mono; [apply IH; rewrite month_stored_same; eauto|].
  intros _ s' [[I1 H1] H2]. split; [|done]. split; [done|]. intros m. rewrite H1, stored_set. case_decide as E; [subst m|done].
  unfold stored. rewrite Ed. cbn. by rewrite Hf.
Qed.

Lemma index_months_quiet p months : forall s, dstRoot p = root -> (forall m, m ∈ months -> is_Some (stored s m)) ->
  quiet (index_months p months) (fun _ s' => same_rows s s') s.
Proof.
  induction months as [|month months IH]; intros s Hr Hm; cbn [index_months]; [by apply quiet_ret|].
  apply quiet_bind, quiet_attempt, quiet_bind, quiet_nop, quiet_wrap. unfold out_path. rewrite Hr.
  eapply quiet_mono; [apply (index_each_quiet month _ create_query_index); [intros n d; apply query_index_spec|apply Hm; by left]|].
  intros _ s1 [[I1 H1] _]. eapply quiet_mono; [apply IH; [done|]|].
  - intros m Hin. specialize (Hm m ltac:(by right)). specialize (H1 m). destruct (stored s1 m); [eauto|]. destruct Hm as [d Hd]. by rewrite Hd in H1.
  - intros _ s2 [I2 H2]. split; [congruence|]. intros m. by rewrite H2.
Qed.

Lemma flush_quiet p s : good p s ->
  quiet (flushAndIndex map_order p) (fun _ s' => issdbs s' = issdbs s /\ forall m, rows <$> stored s' m = rows <$> view p s m) s.
Proof.
  intros G. apply quiet_bind. eapply quiet_mono; [by apply commit_all_quiet|]. intros p' s1 (G1 & I1 & D1 & V1 & S1).
  eapply quiet_mono; [apply index_months_quiet; [apply G1|]|].
  - intros m Hm. apply Horder, elem_of_dom in Hm as [ms Hms]. rewrite S1, <- V1. unfold view. rewrite Hms. cbn.
    destruct (ms_tx ms) as [f|] eqn:Et; [by destruct (gd_tx _ _ G1 m ms f Hms Et) as (d & -> & _); eauto|by eapply gd_open].
  - intros _ s2 [I2 H2]. split; [congruence|]. intros m. by rewrite H2, S1.
Qed.

End Order.

End Run.

(** ** The migration *)

(** What a scan of a source comes by: its rows in order, and how many rows of other
    tables lie among them. *)
Record reading := mkReading { rg_rows : list (list sqlval); rg_foreign : nat }.

(** [rg] is what the scan of a source reads: the rows are those the database holds,
    without a NULL. The page scanner meets them all in the file itself and within
    their pages, beside the rows of other tables (those of sqlite_schema are in
    every file). *)
Record readable (rawAll : bool) (src : source) (rg : reading) : Prop := {
  rd_rows : rg_rows rg ≡ₚ so_rows src;
  rd_whole : Forall whole_row (rg_rows rg);
  rd_scan : if isFragmented rawAll src
            then exists colss, file_holds (so_file src) colss /\
              Forall (fun cols => (numCols <= length cols)%nat \/ foreign_row cols) colss /\
              rg_rows rg = map (map col_value) (filter (fun cols => ~ foreign_row cols) colss) /\ rg_foreign rg = length (filter foreign_row colss)
            else rg = mkReading (so_rows src) 0 }.

(** The rows of a source that are migrated: those whose CA is known. *)
Definition migrated (remap : remap_table) (src : source) (rg : reading) : list subjectRow :=
  omap id (map (routed remap (issuerKey (so_path src))) (rg_rows rg)).

(** The rest is counted as skipped, the page scanner's rows of other tables too. *)
Definition scan_counts (remap : remap_table) (src : source) (rg : reading) : Z * Z :=
  let n := Z.of_nat (length (migrated remap src rg)) in
  (n, Z.of_nat (length (rg_rows rg)) - n + Z.of_nat (rg_foreign rg)).

Lemma scan_quiet root rawAll remap src rg pool s : good root pool s -> readable rawAll src rg ->
  quiet (if isFragmented rawAll src then rawScanAndWrite remap (issuerKey (so_path src)) (so_file src) pool
         else cursorScanAndWrite remap (issuerKey (so_path src)) (so_rows src) pool)
    (fun r s' => gained root pool s (migrated remap src rg) (sc_pool r.1) s' /\ (sc_rows r.1, sc_skips r.1) = scan_counts remap src rg) s.
Proof.
  intros G [_ Hw Hs]. set (iss := issuerKey (so_path src)) in *.
  assert (Hpost : forall outs r s', omap id outs = migrated remap src rg -> length outs = (length (rg_rows rg) + rg_foreign rg)%nat ->
      r.2 = Ok tt /\ scanned root (mkScan pool 0 0) s outs r.1 s' ->
      gained root pool s (migrated remap src rg) (sc_pool r.1) s' /\ (sc_rows r.1, sc_skips r.1) = scan_counts remap src rg).
  { intros outs r s' Eo El [_ [H1 H2 H3]]. rewrite Eo in H1, H2, H3. split; [exact H1|]. rewrite H2, H3, El. cbn. unfold scan_counts. f_equal. lia. }
  destruct (isFragmented rawAll src).
  - destruct Hs as (colss & Hf & Hl & Er & Ef). destruct (routed_cols_split remap iss colss) as [Eo El].
    eapply quiet_mono; [eapply raw_scan_quiet; [done|]|intros r s'; apply (Hpost (map (routed_cols remap iss) colss))].
    + apply file_rows_routed; [done|]. apply Forall_forall. intros cols Hin. rewrite Forall_forall in Hl.
      destruct (decide (foreign_row cols)) as [?|Hnf]; [by right|]. left. destruct (Hl cols Hin) as [Hlen|?]; [|done]. split; [done|].
      rewrite Er, Forall_map, Forall_forall in Hw. apply Hw. by apply list_elem_of_filter.
    + unfold migrated. by rewrite Er.
    + rewrite length_map, Er, length_map, Ef. exact El.
  - subst rg. eapply quiet_mono; [|intros r s'; apply (Hpost (map (routed remap iss) (so_rows src)))].
    + apply quiet_bind, quiet_attempt, quiet_nop. by apply cursor_loop_quiet.
    + done.
    + rewrite length_map. cbn. lia.
Qed.

Lemma repartition_loop_quiet root map_order rawAll remap srcs rss : (forall X m, m ∈ map_order X <-> m ∈ X) ->
  Forall2 (readable rawAll) srcs rss -> forall pool s, good root pool s ->
  quiet (repartition_loop map_order rawAll remap srcs pool) (fun r s' =>
    gained root pool s (concat (zip_with (migrated remap) srcs rss)) r.1 s' /\ r.2 = zip_with (scan_counts remap) srcs rss) s.
Proof.
  intros Horder Hread. induction Hread as [|src rs srcs rss Hr Hread IH]; intros pool s G; cbn [repartition_loop zip_with concat].
  { apply quiet_ret. split; [by apply gained_refl|done]. }
  apply quiet_bind. eapply quiet_mono; [by apply scan_quiet|]. intros [sc e] s1 [H1 Hc]. cbn [fst] in *.
  apply quiet_bind, quiet_wrap. eapply quiet_mono; [apply commit_all_quiet; [done|apply H1]|].
  intros pool2 s2 (G2 & I2 & _ & V2 & _). apply quiet_bind. eapply quiet_mono; [by apply IH|].
  intros [pool3 counts] s3 [H3 Hcs]. cbn [fst snd] in *. apply quiet_ret. cbn [fst snd]. split; [|by rewrite Hc, Hcs].
  eapply gained_trans; [exact H1|]. apply (gained_trans root _ _ [] pool2 s2); [|exact H3]. by split.
Qed.

Definition no_issuers : issuer_db := mkIssuerDb [] 0.

Lemma remap_quiet dst issuers s : let path := Join dst "issuers.db" in let g0 := default no_issuers (issdbs s !! path) in
  issuer_wf g0 -> quiet (buildIssuersRemap dst issuers) (fun remap s' => exists g,
    s' = set_issdb path g s /\ issuers_grown g0 g /\ remap_ok g (issuer_pairs issuers) remap) s.
Proof.
  cbn zeta. set (path := Join dst "issuers.db"). set (g0 := default no_issuers _). intros Hw. apply quiet_bind, quiet_wrap.
  apply quiet_mono with (Q := fun _ s1 => s1 = set_issdb path g0 s).
  { apply quiet_bind, quiet_wrap, quiet_nop, quiet_bind, quiet_nop, quiet_wrap. eapply quiet_step_or; [done|].
    fold path. unfold g0. destruct (issdbs s !! path) as [g|] eqn:E; [|done]. cbn. symmetry. by apply set_issdb_id. }
  intros _ s1 ->. assert (H0 : issdbs (set_issdb path g0 s) !! path = Some g0) by apply lookup_insert_eq.
  eapply quiet_wp; [eapply (remap_sources_wp path issuers _ g0 []); [done|done|]|by eapply remap_sources_runs|].
  - split; [intros k id; by rewrite lookup_empty|intros k fp H; by apply elem_of_nil in H].
  - intros remap s' (g & -> & Hg & Hr). exists g. rewrite set_issdb_twice. split; [done|]. split; [done|]. by apply Hr.
Qed.

(** ** Properties *)


(** ** Witness *)

(** A row issued by the CA [ca] of its source, at the position ([tile], 5). *)
Definition demo_cols (ca : Z) (notBefore : string) (tile : Z) : list column :=
  [null_column; int_column ca; text_column "0a"; text_column "a.net"; text_column "org"; text_column ""; text_column "US";
   text_column notBefore; text_column "2025-01-01"; text_column "a.net"; text_column ""; text_column "u"; int_column 0; int_column 1;
   text_column "x509"; int_column tile; int_column 5].

(** A database file of two pages: the schema's, with its row about the table, and the
    table's with one row. *)
Definition demo_schema : list column := schema_row "subjects" 2 "CREATE TABLE subjects(id)".
Definition pad_page (front : bytes) : bytes := front ++ repeat x00 (512 - length front).
Definition schema_page : bytes :=
  pad_page (sqlite_magic ++ [x02; x00] ++ repeat x00 82 ++ [x0d; x00; x00; x00; x01; x00; x00; x00] ++ be_bytes 2 110 ++ encode_cell 60 1 6 demo_schema).
Definition row_page (cols : list column) : bytes :=
  pad_page ([x0d; x00; x00; x00; x01; x00; x00; x00] ++ be_bytes 2 10 ++ encode_cell 20 1 18 cols).
Definition one_row_file (cols : list column) : bytes := schema_page ++ row_page cols.

Definition demo_fp : bytes := repeat x61 32.
Definition demo_issuers : list (string * list (list sqlval)) :=
  [("day1/issuers.db", [[VInt 1; VText (hex_encode demo_fp); VText "ca"; VText "org"; VText "US"]]);
   ("day2/issuers.db", [[VInt 7; VText (hex_encode demo_fp); VText "ca"; VText "org"; VText "US"]; [VInt 8; VText "zz"; VText ""; VText ""; VText ""]])].

(** The second source has a WAL file and is scanned by pages. *)
Definition demo_src1 : source := mkSource "day1/subjects.db"
  [map col_value (demo_cols 1 "2024-01-05" 3); map col_value (demo_cols 9 "2024-01-05" 4); map col_value (demo_cols 1 "2024-02-05" 4)] [] 0.
Definition demo_src2 : source := mkSource "day2/subjects.db" [map col_value (demo_cols 7 "2024-01-06" 6)] (one_row_file (demo_cols 7 "2024-01-06" 6)) 32.

Definition demo_store : store := mkStore ∅ ∅ ∅ ∅ [].

Lemma demo_whole ca notBefore tile : whole_row (map col_value (demo_cols ca notBefore tile)).
Proof.
  assert (Ht : forall s, exists s', col_value (text_column s) = VText s').
  { intros s. exists (String.string_of_list_byte (String.list_byte_of_string s)). unfold col_value, text_column. cbn [serial content].
    repeat match goal with |- context [?a =? ?b] => destruct (Z.eqb_spec a b); [lia|] end.
    destruct (Z.leb_spec (13 + 2 * Z.of_nat (String.length s)) 6); [lia|]. destruct (Z.leb_spec 13 (13 + 2 * Z.of_nat (String.length s))); [|lia].
    replace ((13 + 2 * Z.of_nat (String.length s)) mod 2) with 1 by (rewrite (Z.mul_comm 2), Z.mod_add; [done|lia]). done. }
  split; intros i Hi; apply list_elem_of_In in Hi; cbn [In] in Hi; unfold demo_cols; cbn [map];
    repeat (destruct Hi as [<-|Hi]; [first [apply Ht|eexists; reflexivity]|]); done.
Qed.

Lemma one_row_holds : file_holds (so_file demo_src2) [demo_schema; demo_cols 7 "2024-01-06" 6].
Proof.
  set (cols := demo_cols 7 "2024-01-06" 6). split; [vm_compute; reflexivity|vm_compute; discriminate|].
  exists [schema_page; row_page cols], [[demo_schema]; [cols]]. split; [cbn [concat]; rewrite app_nil_r; reflexivity|]. split; [discriminate|].
  split; [reflexivity|]. split; [repeat constructor; vm_compute; reflexivity|]. split; [reflexivity|]. intros [|[|i]] page rs [= <-] [= <-].
  - apply (leaf_checked schema_page 1 [(demo_schema, 60, 1, 6)]). vm_compute. reflexivity.
  - apply (leaf_checked (row_page cols) 2 [(cols, 20, 1, 18)]). vm_compute. reflexivity.
Qed.

Definition demo_order (X : gset string) : list string := elements X.

(** The rows of the months after the run of the witness. *)
Definition demo_months (s : store) : list (string * list (Z * Z * string)) :=
  map (fun m => (m, match stored "dst" s m with Some d => map (fun p => (p.1, ca_id p.2, not_before p.2)) (rows d) | None => [] end))
    ["2024-01"; "2024-02"; "2024-03"].


(** ** What the hypotheses leave out *)

(** A source whose last rows are in its WAL file: the page scanner, chosen because
    of the WAL, does not read them. *)
Definition wal_src : source := mkSource "day2/subjects.db"
  (so_rows demo_src2 ++ [map col_value (demo_cols 7 "2024-03-01" 9)]) (so_file demo_src2) 32.

Lemma wal_rows_lost :
  match repartition_main demo_order false "dst" demo_issuers [wal_src] demo_store [] with
  | (Ok counts, s, _) => counts = [(1, 1)] /\ demo_months s = [("2024-01", [(1, 1, "2024-01-06")]); ("2024-02", []); ("2024-03", [])]
  | _ => False
  end.
Proof. vm_compute. by split. Qed.

(** A row with a NULL column: the cursor passes over it without counting it, the
    page scanner migrates it. *)
Definition null_vals : list sqlval := <[4%nat := VNull]> (map col_value (demo_cols 7 "2024-01-06" 6)).

Lemma null_rows_dropped :
  scan_row null_vals = None /\
  match repartition_main demo_order false "dst" demo_issuers [mkSource "day2/subjects.db" [null_vals] [] 0] demo_store [] with
  | (Ok counts, s, _) => counts = [(0, 0)] /\ demo_months s = [("2024-01", []); ("2024-02", []); ("2024-03", [])]
  | _ => False
  end.
Proof. vm_compute. by split_and!. Qed.

(** The page scanner counts the row of sqlite_schema among the rows "skipped (ca_id not
    in remap)", although every CA of the source is known. *)
Lemma schema_row_counted_skipped :
  match repartition_main demo_order false "dst" demo_issuers [demo_src2] demo_store [] with
  | (Ok counts, _, _) => counts = [(1, 1)]
  | _ => False
  end.
Proof. vm_compute. reflexivity. Qed.
