(* ===== verification/RepartitionSafe.v ===== *)
(** cmd/repartition under failures: whatever statement fails and wherever the
    process dies, every month database that can still be read is well-formed and
    every row in it has the month of its file and the ca_id of a row of the global
    issuers database; and without a failing statement or a death none is damaged. *)

From S2P Require Import Prelude GoStd FileSys Sha256 Sql SubjectDB Progress RawScan PageScan RowCell Repartition RepartitionExact.

#[local] Open Scope sql_scope.

(** ** Specifications *)

Definition issuers_of (dst : string) (s : store) : issuer_db := default no_issuers (issdbs s !! Join dst "issuers.db").

(** A row belongs to a month, and its ca_id is that of an issuer. *)
Definition row_in (g : issuer_db) (month : string) (r : row) : Prop :=
  certMonth (not_before r) = month /\ exists fp, has_ca_id g fp (ca_id r).

Record month_ok (g : issuer_db) (month : string) (d : db) : Prop := {
  mo_wf : db_wf d;
  mo_keys : NoDup (tile_keys d);
  mo_rows : Forall (row_in g month) (all_rows d) }.

Record archive_ok (dst : string) (s : store) : Prop := {
  ao_issuers : issuer_wf (issuers_of dst s);
  ao_months : forall month d, dbs s !! month_path dst month = Some (DB d) -> month_ok (issuers_of dst s) month d }.

(** ** Lemmas *)

(** *** Plans without failing statements *)

Definition calm (fl : list outcome) : Prop := Failed ∉ fl.

(** [wp], over all plans or over the calm ones only. *)
Definition wpf (b : bool) {A} (m : M A) (Q : res A -> store -> Prop) (s : store) : Prop :=
  forall fl, (b = true -> calm fl) -> Q (m s fl).1.1 (m s fl).1.2 /\ (b = true -> calm (m s fl).2).

(** A computation that takes its outcomes from the front of the plan. *)
Definition in_order {A} (m : M A) : Prop := forall s fl, calm fl -> calm (m s fl).2.

Lemma calm_cons o fl : calm (o :: fl) -> o <> Failed /\ calm fl.
Proof. unfold calm. rewrite not_elem_of_cons. intros [H1 H2]. split; [congruence|done]. Qed.

Lemma in_order_ret {A} (a : A) : in_order (ret a).
Proof. by intros s fl. Qed.

Lemma in_order_fail {A} e : in_order (@fail A e).
Proof. by intros s fl. Qed.

Lemma in_order_step_or {A} g (f : store -> res A * store) : in_order (step_or g f).
Proof. intros s [|o fl] H; [done|]. apply calm_cons in H as [_ H]. unfold step_or. destruct o; [by destruct (f s)|done..]. Qed.

Lemma in_order_step {A} (f : store -> res A * store) : in_order (step f).
Proof. apply in_order_step_or. Qed.

Lemma in_order_bind {A B} (m : M A) (k : A -> M B) : in_order m -> (forall a, in_order (k a)) -> in_order (bindM m k).
Proof. intros Hm Hk s fl H. unfold bindM. specialize (Hm s fl H). destruct (m s fl) as [[[a|e|] s'] fl']; [by apply Hk|done..]. Qed.

Lemma in_order_attempt {A} (m : M A) : in_order m -> in_order (attempt m).
Proof. intros Hm s fl H. unfold attempt. specialize (Hm s fl H). by destruct (m s fl) as [[[a|e|] s'] fl']. Qed.

Lemma in_order_wrap {A} msg (m : M A) : in_order m -> in_order (wrapM msg m).
Proof. intros Hm s fl H. unfold wrapM. specialize (Hm s fl H). by destruct (m s fl) as [[r s'] fl']. Qed.

Create HintDb in_order.
#[local] Hint Resolve in_order_ret in_order_fail in_order_step_or in_order_step in_order_bind in_order_attempt in_order_wrap : in_order.

Lemma in_order_issuers dst issuers : in_order (buildIssuersRemap dst issuers).
Proof.
  assert (Hrows : forall path src rows remap, in_order (remap_rows path src rows remap)).
  { intros path src rows. induction rows as [|vals rows IH]; intros remap; cbn [remap_rows]; [auto with in_order|].
    repeat (case_match; try by auto with in_order). apply in_order_bind; [|auto]. apply in_order_wrap. unfold UpsertIssuer.
    apply in_order_bind; [apply in_order_attempt, in_order_step|]. intros [id|e]; [auto with in_order|]. destruct e; first [apply in_order_fail|apply in_order_wrap, in_order_step]. }
  assert (Hsrcs : forall path srcs remap, in_order (remap_sources path srcs remap)).
  { intros path srcs. induction srcs as [|[src rows] srcs IH]; intros remap; cbn [remap_sources]; [auto with in_order|].
    apply in_order_bind; [apply in_order_wrap, in_order_step|]. intros _. by apply in_order_bind. }
  unfold buildIssuersRemap, OpenIssuerDB. apply in_order_bind; [|auto]. apply in_order_wrap.
  repeat first [apply in_order_bind; [|intros ?] | apply in_order_wrap | apply in_order_step | apply in_order_ret].
Qed.

Section Plans.

Context (b : bool).

Lemma wpf_of_wp {A} (m : M A) Q s : in_order m -> wp m Q s -> wpf b m Q s.
Proof. intros Hm H fl Hc. split; [apply H|]. intros Hb. apply Hm, Hc, Hb. Qed.

Lemma wpf_ret {A} (a : A) (Q : res A -> store -> Prop) s : Q (Ok a) s -> wpf b (ret a) Q s.
Proof. by intros H fl Hc. Qed.

Lemma wpf_fail {A} e (Q : res A -> store -> Prop) s : Q (Err e) s -> wpf b (fail e) Q s.
Proof. by intros H fl Hc. Qed.

Lemma wpf_mono {A} (m : M A) (Q Q' : res A -> store -> Prop) s : wpf b m Q s -> (forall r s', Q r s' -> Q' r s') -> wpf b m Q' s.
Proof. intros H HQ fl Hc. destruct (H fl Hc). auto. Qed.

Lemma wpf_bind {A B} (m : M A) (k : A -> M B) Q s :
  wpf b m (fun r s' => match r with Ok a => wpf b (k a) Q s' | Err e => Q (Err e) s' | Panic => Q Panic s' end) s ->
  wpf b (bindM m k) Q s.
Proof.
  intros H fl Hc. destruct (H fl Hc) as [H1 H2]. unfold bindM. destruct (m s fl) as [[[a|e|] s'] fl']; cbn in *; [by apply H1|done..].
Qed.

Lemma wpf_attempt {A} (m : M A) Q s :
  wpf b m (fun r s' => match r with Ok a => Q (Ok (inl a)) s' | Err e => Q (Ok (inr e)) s' | Panic => Q Panic s' end) s -> wpf b (attempt m) Q s.
Proof. intros H fl Hc. destruct (H fl Hc) as [H1 H2]. unfold attempt. by destruct (m s fl) as [[[a|e|] s'] fl']. Qed.

Lemma wpf_wrap {A} msg (m : M A) Q s : wpf b m (fun r s' => Q (wrap_err msg r) s') s -> wpf b (wrapM msg m) Q s.
Proof. intros H fl Hc. destruct (H fl Hc) as [H1 H2]. unfold wrapM. by destruct (m s fl) as [[r s'] fl']. Qed.

Lemma wpf_step_or {A} g (f : store -> res A * store) (Q : res A -> store -> Prop) s :
  (b = false -> Q (Err ErrSyscall) (g s)) -> Q Panic (g s) -> Q (f s).1 (f s).2 -> wpf b (step_or g f) Q s.
Proof.
  intros H1 H2 H3 fl Hc. split; [|intros Hb; by apply in_order_step_or, Hc].
  destruct fl as [|o fl]; [unfold step_or; cbn; by destruct (f s)|]. destruct o; unfold step_or; cbn; [by destruct (f s)| |done].
  apply H1. destruct b; [|done]. by destruct (calm_cons _ _ (Hc eq_refl)).
Qed.

Lemma wpf_step {A} (f : store -> res A * store) (Q : res A -> store -> Prop) s :
  (b = false -> Q (Err ErrSyscall) s) -> Q Panic s -> Q (f s).1 (f s).2 -> wpf b (step f) Q s.
Proof. apply (wpf_step_or id). Qed.

Lemma wpf_nop (Q : res unit -> store -> Prop) s : (b = false -> Q (Err ErrSyscall) s) -> Q Panic s -> Q (Ok tt) s -> wpf b nop Q s.
Proof. intros. by apply wpf_step. Qed.

Lemma wpf_lift {A} (r : res A) (Q : res A -> store -> Prop) s : Q r s -> wpf b (lift r) Q s.
Proof. by intros H fl Hc. Qed.

Lemma wpf_run {A} (m : M A) Q s fl r s' fl' : wpf b m Q s -> (b = true -> calm fl) -> m s fl = (r, s', fl') -> Q r s'.
Proof. intros H Hc E. destruct (H fl Hc) as [H1 _]. by rewrite E in H1. Qed.

End Plans.

(** *** Months *)


Lemma empty_ok g month t : month_ok g month (empty_db t false).
Proof. split; [apply empty_wf|constructor|constructor]. Qed.

Lemma insert_ok g month d r : month_ok g month d -> ix_tile d = true -> row_in g month r ->
  month_ok g month (insert_or_ignore d r) /\ ix_tile (insert_or_ignore d r) = true.
Proof.
  intros [H1 H2 H3] Ht Hr. assert (Hi : ix_tile (insert_or_ignore d r) = true) by (unfold insert_or_ignore; by destruct (conflicts d r)).
  split; [|done]. pose proof (insert_wf d r H1) as Hw. split; [done|by apply Hw|].
  unfold insert_or_ignore. destruct (conflicts d r); [done|]. unfold all_rows. cbn. rewrite map_app. apply Forall_app. split; [done|by apply Forall_singleton].
Qed.

Lemma indexed_ok g month d d' : month_ok g month d -> create_tile_index d = Ok d' -> month_ok g month d' /\ ix_tile d' = true.
Proof.
  intros [H1 H2 H3]. unfold create_tile_index. destruct (ix_tile d) eqn:E; [intros [= <-]; by split|].
  case_bool_decide; [|done]. intros [= <-]. split; [|done]. split; [apply wf_flags; [done|apply H1|done]|done|done].
Qed.

Lemma query_index_ok g month n d : month_ok g month d -> month_ok g month (create_query_index n d).
Proof.
  intros [H1 H2 H3]. destruct (query_index_spec n d) as (Hr & _ & Ht & Hh). split.
  - unfold create_query_index. case_match; [done|]. apply wf_flags; [done|apply H1..].
  - unfold tile_keys. by rewrite Hr.
  - unfold all_rows. by rewrite Hr.
Qed.

Section Safe.

Context (b : bool) (dst : string) (g : issuer_db) (torn0 : string -> Prop).

(** The months whose file is damaged, with those that were from the start ([torn0])
    and, on plans that are not calm, any. *)
Definition may_tear (month : string) : Prop := b = true -> torn0 month.

(** The files, while the issuers stay what they are. *)
Record files_ok (s : store) : Prop := {
  fo_issuers : issuers_of dst s = g;
  fo_months : forall month d, dbs s !! month_path dst month = Some (DB d) -> month_ok g month d }.

(** Those of a process that is alive: a month without an open transaction has its
    index, or may be damaged. *)
Record pool_ok (p : outputPool) (s : store) : Prop := {
  po_root : dstRoot p = dst;
  po_files : files_ok s;
  po_torn : forall month, op_states p !! month ≫= ms_tx = None -> dbs s !! month_path dst month = Some Torn -> may_tear month;
  po_open : forall month ms, op_states p !! month = Some ms -> ms_tx ms = None ->
    exists f, dbs s !! month_path dst month = Some f /\ forall d, f = DB d -> ix_tile d = true;
  po_tx : forall month ms, op_states p !! month = Some ms ->
    match ms_tx ms with
    | Some f => dbs s !! month_path dst month = Some Torn /\ match f with DB d => month_ok g month d /\ ix_tile d = true | Torn => b = false end
    | None => True
    end }.

(** A month in a transaction: its file is torn. *)
Lemma pool_tx p s month f n : pool_ok p s -> match f with DB d => month_ok g month d /\ ix_tile d = true | Torn => b = false end ->
  pool_ok (set_month month (mkMonth (Some f) n) p) (set_db (month_path dst month) Torn s).
Proof.
  intros [H1 [H2 H3] H4 H5 H6] Hf. split; cbn [op_states set_month dstRoot]; [done|split; [done|]|..].
  - intros m d. rewrite month_lookup. case_decide; [done|apply H3].
  - intros m. rewrite month_lookup. case_decide as E; [subst m; by rewrite lookup_insert_eq|]. rewrite lookup_insert_ne by done. apply H4.
  - intros m ms. rewrite month_lookup. intros [[<- <-]|[Hne Hm]]%lookup_insert_Some; [done|]. rewrite decide_False by done. by eapply H5.
  - intros m ms. rewrite month_lookup. intros [[<- <-]|[Hne Hm]]%lookup_insert_Some; cbn; [by rewrite decide_True|].
    rewrite decide_False by done. by eapply H6.
Qed.

(** A month outside a transaction, its file written or not. *)
Lemma pool_closed p s month f n : pool_ok p s ->
  match f with DB d => month_ok g month d /\ ix_tile d = true | Torn => may_tear month end ->
  pool_ok (set_month month (mkMonth None n) p) (set_db (month_path dst month) f s).
Proof.
  intros [H1 [H2 H3] H4 H5 H6] Hf. split; cbn [op_states set_month dstRoot]; [done|split; [done|]|..].
  - intros m d. rewrite month_lookup. case_decide as E; [subst m|by apply H3]. intros [= ->]. apply Hf.
  - intros m. rewrite month_lookup. case_decide as E; [subst m; intros _ [= ->]; exact Hf|]. rewrite lookup_insert_ne by done. apply H4.
  - intros m ms Hm Hn. rewrite month_lookup. case_decide as E; [subst m|rewrite lookup_insert_ne in Hm by done; by eapply H5].
    exists f. split; [done|]. intros d ->. apply Hf.
  - intros m ms. rewrite month_lookup. intros [[<- <-]|[Hne Hm]]%lookup_insert_Some; [done|]. rewrite decide_False by done. by eapply H6.
Qed.

(** A file that is written beside the pool's states. *)
Lemma pool_file p s month f : pool_ok p s -> op_states p !! month ≫= ms_tx = None ->
  match f with DB d => month_ok g month d /\ (op_states p !! month = None \/ ix_tile d = true) | Torn => may_tear month end ->
  pool_ok p (set_db (month_path dst month) f s).
Proof.
  intros [H1 [H2 H3] H4 H5 H6] Hn Hf. split; [done|split; [done|]|..].
  - intros m d. rewrite month_lookup. case_decide as E; [subst m|by apply H3]. intros [= ->]. apply Hf.
  - intros m. rewrite month_lookup. case_decide as E; [subst m; intros _ [= ->]; exact Hf|apply H4].
  - intros m ms Hm Ht. rewrite month_lookup. case_decide as E; [subst m|by eapply H5].
    exists f. split; [done|]. intros d ->. destruct (proj2 Hf); [congruence|done].
  - intros m ms Hm. rewrite month_lookup. case_decide as E; [subst m|by eapply H6]. rewrite Hm in Hn. cbn in Hn. by rewrite Hn.
Qed.

Lemma files_torn s month : files_ok s -> files_ok (set_db (month_path dst month) Torn s).
Proof. intros [H1 H2]. split; [done|]. intros m d. rewrite month_lookup. case_decide; [done|apply H2]. Qed.

(** [m] keeps the files well-formed, and the pool it returns. *)
Definition safe {A} (m : M A) (pool : A -> outputPool) (s : store) : Prop :=
  wpf b m (fun r s' => files_ok s' /\ forall a, r = Ok a -> pool_ok (pool a) s') s.

Lemma safe_ret {A} (a : A) pool s : pool_ok (pool a) s -> safe (ret a) pool s.
Proof. intros H. apply wpf_ret. split; [apply H|]. by intros ? [= <-]. Qed.

Lemma safe_bind {A B} (m : M A) (k : A -> M B) pa pb s : safe m pa s ->
  (forall a s', pool_ok (pa a) s' -> safe (k a) pb s') -> safe (bindM m k) pb s.
Proof.
  intros Hm Hk. apply wpf_bind. eapply wpf_mono; [exact Hm|]. intros [a|e|] s' [Hf H]; [apply Hk; by apply H|by split..].
Qed.

Lemma safe_lift {A B} (r : res A) (k : A -> M B) p pb s : pool_ok p s -> (forall a, r = Ok a -> safe (k a) pb s) -> safe (let@ a := lift r in k a) pb s.
Proof. intros Hp Hk. apply wpf_bind, wpf_lift. destruct r; [by apply Hk|by split; [apply Hp|]..]. Qed.

Lemma safe_panic {A} p pb s : pool_ok p s -> safe (lift (@Panic A)) pb s.
Proof. intros Hp. apply wpf_lift. by split; [apply Hp|]. Qed.

Lemma safe_wrap {A} msg (m : M A) pool s : safe m pool s -> safe (wrapM msg m) pool s.
Proof. intros H. apply wpf_wrap. eapply wpf_mono; [exact H|]. intros [a|e|] s' [H1 H2]; by split. Qed.

(** The code goes on with what it had before a call that fails. *)
Lemma safe_attempt {A B} (m : M A) (k : A + error -> M B) pb s :
  wpf b m (fun r s' => match r with Ok a => safe (k (inl a)) pb s' | Err e => safe (k (inr e)) pb s' | Panic => files_ok s' end) s ->
  safe (let@ r := attempt m in k r) pb s.
Proof. intros Hm. apply wpf_bind, wpf_attempt. eapply wpf_mono; [exact Hm|]. by intros [a|e|] s' H. Qed.

Lemma attempt_nop {B} (k : unit + error -> M B) p pb s : pool_ok p s ->
  (forall r, safe (k r) pb s) -> safe (let@ r := attempt nop in k r) pb s.
Proof. intros Hp Hk. apply safe_attempt, wpf_nop; [intros _; apply Hk|apply Hp|apply Hk]. Qed.

Lemma create_table_safe p s month : pool_ok p s -> op_states p !! month = None ->
  wpf b (create_table_off (month_path dst month)) (fun r s' => files_ok s' /\ (r <> Panic -> pool_ok p s')) s.
Proof.
  intros Hp Em. assert (En : op_states p !! month ≫= ms_tx = None) by (by rewrite Em). apply wpf_step_or.
  - intros Hb. destruct (dbs s !! month_path dst month) as [f|] eqn:Ed; [by split; [apply Hp|]|].
    assert (H : pool_ok p (set_db (month_path dst month) Torn s)) by (apply pool_file; [done|done|]; intros ?; congruence). by split; [apply H|].
  - split; [|done]. destruct (dbs s !! month_path dst month); [apply Hp|apply files_torn, Hp].
  - destruct (dbs s !! month_path dst month) as [[d|]|] eqn:Ed; cbn [fst snd]; [by split; [apply Hp|]..|].
    assert (H : pool_ok p (set_db (month_path dst month) (DB (empty_db false false)) s)) by (apply pool_file; [done|done|]; split; [apply empty_ok|by left]).
    by split; [apply H|].
Qed.

Lemma create_index_safe p s month : pool_ok p s -> op_states p !! month = None ->
  wpf b (create_index_off (month_path dst month)) (fun r s' => files_ok s' /\
    match r with Ok _ => pool_ok (set_month month (mkMonth None 0) p) s' | Err _ => pool_ok p s' | Panic => True end) s.
Proof.
  intros Hp Em. assert (En : op_states p !! month ≫= ms_tx = None) by (by rewrite Em). apply wpf_step_or.
  - intros Hb. assert (H : pool_ok p (match dbs s !! month_path dst month with Some (DB d) => if ix_tile d then s else set_db (month_path dst month) Torn s | _ => s end)).
    { destruct (dbs s !! month_path dst month) as [[d|]|]; [|done..]. destruct (ix_tile d); [done|]. apply pool_file; [done|done|]. intros ?; congruence. }
    by split; [apply H|].
  - split; [|done]. destruct (dbs s !! month_path dst month) as [[d|]|]; [|apply Hp..]. destruct (ix_tile d); [apply Hp|apply files_torn, Hp].
  - unfold read_db. destruct (dbs s !! month_path dst month) as [[d|]|] eqn:Ed; [|by split; [apply Hp|]..].
    pose proof (fo_months _ (po_files _ _ Hp) month d Ed) as Hd. destruct (create_tile_index d) as [d'|e|] eqn:Ei; cbn [fst snd].
    + assert (H : pool_ok (set_month month (mkMonth None 0) p) (set_db (month_path dst month) (DB d') s)) by (apply pool_closed; [done|exact (indexed_ok _ _ _ _ Hd Ei)]).
      by split; [apply H|].
    + exfalso. revert Ei. unfold create_tile_index. destruct (ix_tile d); [done|]. rewrite bool_decide_true by exact (mo_keys _ _ _ Hd). done.
    + by split; [apply Hp|].
Qed.

Lemma open_safe {B} (k : (outputPool * monthState) + error -> M B) pb p s month : pool_ok p s ->
  (forall p' ms s', pool_ok p' s' -> op_states p' !! month = Some ms -> safe (k (inl (p', ms))) pb s') ->
  (forall e s', pool_ok p s' -> safe (k (inr e)) pb s') ->
  safe (let@ r := attempt (getOrOpen p month) in k r) pb s.
Proof.
  intros Hp Hk He. apply safe_attempt. unfold getOrOpen. destruct (op_states p !! month) as [ms|] eqn:Em; [by apply wpf_ret, Hk|].
  unfold out_path. rewrite (po_root _ _ Hp).
  do 2 (apply wpf_bind, wpf_nop; [intros _; by apply He|by apply Hp|]).
  apply wpf_bind. eapply wpf_mono; [by apply create_table_safe|]. intros [[]|e|] s1 [Hf1 H1]; [|by apply He, H1|done].
  apply wpf_bind. eapply wpf_mono; [apply create_index_safe; [by apply H1|done]|]. intros [[]|e|] s2 [Hf2 H2]; [|by apply He|done].
  apply wpf_ret, Hk; [done|apply lookup_insert_eq].
Qed.

(** A transaction on an open month. *)
Lemma tx_safe {B} (k : (dbfile * Z) + error -> M B) p s month ms pb : pool_ok p s -> op_states p !! month = Some ms ->
  (forall f n, match f with DB d => month_ok g month d /\ ix_tile d = true | Torn => b = false end -> safe (k (inl (f, n))) pb s) ->
  (forall e, safe (k (inr e)) pb s) ->
  safe (let@ r := match ms_tx ms with Some f => ret (inl (f, ms_pending ms)) | None => attempt (beginTx (out_path p month)) end in k r) pb s.
Proof.
  intros Hp Em Hk He. destruct (ms_tx ms) as [f|] eqn:Et.
  - apply wpf_bind, wpf_ret, Hk. pose proof (po_tx _ _ Hp month ms Em) as Ht. rewrite Et in Ht. apply Ht.
  - apply safe_attempt, wpf_bind. unfold out_path. rewrite (po_root _ _ Hp). apply wpf_step; [intros _; apply He|apply Hp|].
    unfold read_db. destruct (dbs s !! month_path dst month) as [[d|]|] eqn:Ed; cbn [fst snd]; [|apply He..].
    apply wpf_bind, wpf_nop; [intros _; apply He|apply Hp|]. apply wpf_ret, Hk.
    destruct (po_open _ _ Hp month ms Em Et) as (f & Hf & Hi). rewrite Ed in Hf. injection Hf as <-.
    split; [by eapply fo_months; [apply Hp|]|by apply Hi].
Qed.

Lemma set_month_same month ms p : op_states p !! month = Some ms -> set_month month ms p = p.
Proof. intros Em. unfold set_month. rewrite insert_id by done. by destruct p. Qed.

Lemma commit_wpf p s month ms : pool_ok p s -> op_states p !! month = Some ms ->
  wpf b (commitTx (out_path p month) ms) (fun r s' => files_ok s' /\ forall a, r = Ok a -> pool_ok (set_month month a.1 p) s' /\ ms_tx a.1 = None) s.
Proof.
  intros Hp Em. unfold commitTx, out_path. rewrite (po_root _ _ Hp). pose proof (po_tx _ _ Hp month ms Em) as Ht.
  assert (Hret : forall ms' r s', pool_ok (set_month month ms' p) s' -> ms_tx ms' = None ->
    wpf b (ret (ms', r)) (fun (r : res (monthState * res unit)) s' => files_ok s' /\ forall a, r = Ok a -> pool_ok (set_month month a.1 p) s' /\ ms_tx a.1 = None) s').
  { intros ms' r s' H Hn. apply wpf_ret. split; [apply H|]. by intros ? [= <-]. }
  destruct (ms_tx ms) as [f|] eqn:Et; [|apply Hret; [by rewrite set_month_same|done]]. destruct Ht as [Hfile Hf].
  apply wpf_bind, wpf_attempt, wpf_step; [intros Hb|by split; [apply Hp|]|]; apply Hret; try done.
  - rewrite <- (set_db_same _ _ _ Hfile). apply pool_closed; [done|]. intros ?; congruence.
  - cbn [snd]. apply pool_closed; [done|]. destruct f; [done|]. intros ?; congruence.
Qed.

Lemma commit_safe p s month ms : pool_ok p s -> op_states p !! month = Some ms ->
  safe (commitTx (out_path p month) ms) (fun r => set_month month r.1 p) s.
Proof. intros Hp Em. eapply wpf_mono; [by apply commit_wpf|]. intros r s' [H1 H2]. split; [done|]. intros a Ha. by apply H2. Qed.

Lemma pool_insert_safe p s month x : pool_ok p s -> row_in g month (table_row x) ->
  safe (pool_insert p month x) fst s.
Proof.
  intros Hp Hx. apply (open_safe _ _ p); [done| |intros e s' H'; by apply safe_ret].
  intros p1 ms s1 H1 Em. cbn zeta. eapply tx_safe; [done|done| |intros e; by apply safe_ret].
  intros f n Hf. assert (Hpath : out_path p1 month = month_path dst month) by (unfold out_path; by rewrite (po_root _ _ H1)). rewrite Hpath.
  apply safe_attempt, wpf_step_or.
  - intros Hb. apply safe_ret. by apply pool_tx.
  - apply files_torn, H1.
  - destruct f as [d|]; cbn [fst snd]; [|apply safe_ret; by apply pool_tx]. destruct Hf as [Hd Ht].
    pose proof (insert_ok g month d _ Hd Ht Hx) as Hd'. set (s2 := set_db _ Torn s1).
    set (ms2 := mkMonth (Some (DB (insert_or_ignore d (table_row x)))) (n + 1)). set (p2 := set_month month ms2 p1).
    assert (H2 : pool_ok p2 s2) by by apply pool_tx. destruct (_ <=? _); [|by apply safe_ret]. rewrite <- Hpath. change (out_path p1 month) with (out_path p2 month).
    eapply safe_bind; [apply (commit_safe p2 s2 month ms2 H2); apply lookup_insert_eq|]. intros [ms3 r3] s3 H3. cbn [fst] in H3.
    apply safe_ret. cbn [fst]. unfold p2 in H3. by rewrite set_month_twice in H3.
Qed.

Lemma write_row_safe sc s x : pool_ok (sc_pool sc) s -> (exists fp, has_ca_id g fp (sr_caID x)) -> safe (write_row sc x) sc_pool s.
Proof.
  intros Hp Hx. eapply safe_bind; [by apply pool_insert_safe|]. intros [p' r] s' Hp'. by apply safe_ret.
Qed.

(** *** The scanners *)

Section Remap.

Context (remap : remap_table) (issPath : string).
Hypothesis Hremap : forall k id, remap !! k = Some id -> exists fp, has_ca_id g fp id.

Lemma parse_row_known page off pageSize x : parseRow remap issPath page off pageSize = Ok (Some x) ->
  exists fp, has_ca_id g fp (sr_caID x).
Proof.
  unfold parseRow. destruct (cell_header _ _ _) as [[[pos headerEnd]|]|?|]; cbn [bind_res]; [|done..].
  destruct (read_types _ _ _ _) as [[types|]|?|]; cbn [bind_res]; [|done..]. destruct (_ && _); [done|].
  destruct (col_offsets _ _ _) as [colData|]; [|done]. cbn zeta.
  destruct (readInt _ _ _) as [localID|?|]; cbn [bind_res]; [|done..]. destruct (remap !! _) as [id|] eqn:Er; [|done]. intros H.
  repeat match goal with H : bind_res ?m _ = Ok _ |- _ => destruct m; cbn [bind_res] in H; [|done..] end.
  injection H as <-. by eapply Hremap.
Qed.

Lemma cursor_loop_safe rows : forall sc s, pool_ok (sc_pool sc) s -> safe (cursor_loop remap issPath rows sc) (sc_pool ∘ fst) s.
Proof.
  induction rows as [|vals rows IH]; intros sc s Hp; cbn [cursor_loop]; [by apply safe_ret|].
  eapply attempt_nop; [done|]. intros [[]|e]; [|by apply safe_ret]. destruct (scan_row vals) as [x|]; [|by apply IH].
  destruct (remap !! _) as [id|] eqn:Er; [|by apply IH]. eapply safe_bind; [apply write_row_safe; [done|by eapply Hremap]|].
  intros sc' s'. apply IH.
Qed.

Lemma cursor_safe rows pool s : pool_ok pool s -> safe (cursorScanAndWrite remap issPath rows pool) (sc_pool ∘ fst) s.
Proof. intros Hp. eapply attempt_nop; [done|]. intros [[]|e]; [by apply cursor_loop_safe|by apply safe_ret]. Qed.

Lemma raw_cells_safe k : forall i page hdrOff pageSize sc s, pool_ok (sc_pool sc) s ->
  safe (raw_cells remap issPath k i page hdrOff pageSize sc) sc_pool s.
Proof.
  induction k as [|k IH]; intros i page hdrOff pageSize sc s Hp; cbn [raw_cells]; [by apply safe_ret|].
  destruct (pageSize <? _); [by apply safe_ret|]. eapply safe_lift; [done|]. intros cp _. destruct (_ || _); [by apply IH|].
  eapply safe_lift; [done|]. intros [x|] Ep.
  - apply (safe_bind _ _ sc_pool); [|intros sc' s'; apply IH]. by apply write_row_safe, (parse_row_known _ _ _ _ Ep).
  - apply (safe_bind _ _ sc_pool); [by apply safe_ret|intros sc' s'; apply IH].
Qed.

Lemma raw_pages_safe k : forall pageNum pageSize file sc s, pool_ok (sc_pool sc) s ->
  safe (raw_pages remap issPath k pageNum pageSize file sc) sc_pool s.
Proof.
  induction k as [|k IH]; intros pageNum pageSize file sc s Hp; cbn [raw_pages]; [by apply safe_ret|].
  eapply attempt_nop; [done|]. intros [[]|e]; [|by apply safe_ret]. destruct (blen file <? pageSize); [by apply safe_ret|].
  eapply safe_lift; [done|]. intros kind _. apply (safe_bind _ _ sc_pool); [|intros sc' s'; apply IH].
  destruct (negb _); [by apply safe_ret|]. eapply safe_lift; [done|]. intros nb _. by apply raw_cells_safe.
Qed.

Lemma raw_scan_safe file pool s : pool_ok pool s -> safe (rawScanAndWrite remap issPath file pool) (sc_pool ∘ fst) s.
Proof.
  intros Hp. eapply attempt_nop; [done|]. intros [[]|e]; [|by apply safe_ret]. destruct (blen file <? 100); [by apply safe_ret|].
  destruct (negb _); [by apply safe_ret|]. cbn zeta. destruct (header_page_size file =? 0); [by eapply safe_panic|].
  apply (safe_bind _ _ sc_pool); [by apply raw_pages_safe|]. intros sc s' H'. by apply safe_ret.
Qed.

End Remap.

(** The months that were to be committed are no longer in a transaction. *)
Lemma commit_months_wpf months : forall p s, pool_ok p s -> wpf b (commit_months p months) (fun r s' => files_ok s' /\
  forall p', r = Ok p' -> pool_ok p' s' /\
    forall m ms, op_states p' !! m = Some ms -> ms_tx ms = None \/ m ∉ months /\ op_states p !! m = Some ms) s.
Proof.
  induction months as [|month months IH]; intros p s Hp; cbn [commit_months].
  { apply wpf_ret. split; [apply Hp|]. intros ? [= <-]. split; [done|]. intros m ms H. right. split; [by apply not_elem_of_nil|done]. }
  destruct (op_states p !! month) as [ms|] eqn:Em.
  - apply wpf_bind. eapply wpf_mono; [by apply commit_wpf|]. intros [[ms' r]|e|] s1 [Hf H]; [|by split..].
    destruct (H _ eq_refl) as [H1 Hn]. cbn [fst] in H1, Hn. destruct r as [[]|e|]; [|by apply wpf_fail|by apply wpf_lift].
    eapply wpf_mono; [by apply IH|]. intros r s2 [H2 H3]. split; [done|]. intros p' ->. destruct (H3 p' eq_refl) as [Hp' Hc]. split; [done|].
    intros m x Hx. destruct (Hc m x Hx) as [?|[Hm Ho]]; [by left|]. cbn in Ho. apply lookup_insert_Some in Ho as [[-> ->]|[Hne Ho]]; [by left|].
    right. split; [|done]. apply not_elem_of_cons. by split.
  - eapply wpf_mono; [by apply IH|]. intros r s2 [H2 H3]. split; [done|]. intros p' ->. destruct (H3 p' eq_refl) as [Hp' Hc]. split; [done|].
    intros m x Hx. destruct (Hc m x Hx) as [?|[Hm Ho]]; [by left|]. right. split; [|done]. apply not_elem_of_cons. split; [congruence|done].
Qed.

Lemma commit_months_safe months p s : pool_ok p s -> safe (commit_months p months) id s.
Proof. intros Hp. eapply wpf_mono; [by apply commit_months_wpf|]. intros r s' [H1 H2]. split; [done|]. intros a Ha. by apply H2. Qed.

(** The indexes are built through connections of their own, with a journal. *)
Lemma exec_each_safe p month names s : pool_ok p s ->
  wpf b (exec_each (month_path dst month) names create_query_index) (fun _ s' => pool_ok p s') s.
Proof.
  revert s. induction names as [|n names IH]; intros s Hp; cbn [exec_each]; [by apply wpf_ret|]. apply wpf_bind.
  apply wpf_mono with (Q := fun _ s' => pool_ok p s'); [|intros [[]|e|] s' H'; [by apply IH|done..]].
  apply wpf_step; [done..|]. unfold read_db. destruct (dbs s !! month_path dst month) as [[d|]|] eqn:Ed; [|done..]. cbn [fst snd].
  pose proof (fo_months _ (po_files _ _ Hp) month d Ed) as Hd. destruct (query_index_spec n d) as (_ & _ & Ht & _).
  split; [apply Hp|split; [apply Hp|]|..].
  - intros m x. rewrite month_lookup. case_decide as E; [subst m; intros [= <-]; by apply query_index_ok|by apply Hp].
  - intros m. rewrite month_lookup. case_decide; [done|apply Hp].
  - intros m ms Hm Hn. rewrite month_lookup. case_decide as E; [subst m|by eapply po_open].
    destruct (po_open _ _ Hp month ms Hm Hn) as (f & Hf & Hi). rewrite Ed in Hf. injection Hf as <-. eexists. split; [done|].
    intros x [= <-]. rewrite Ht. by apply Hi.
  - intros m ms Hm. rewrite month_lookup. case_decide as E; [subst m|by eapply po_tx]. pose proof (po_tx _ _ Hp month ms Hm) as Hx.
    destruct (ms_tx ms); [|done]. destruct Hx as [Hx _]. congruence.
Qed.

Lemma index_months_safe p months : forall s, pool_ok p s -> safe (index_months p months) (fun _ => p) s.
Proof.
  induction months as [|month months IH]; intros s Hp; cbn [index_months]; [by apply safe_ret|].
  apply safe_attempt. unfold BuildQueryIndexes, out_path. rewrite (po_root _ _ Hp).
  apply wpf_bind, wpf_nop; [intros _; by apply IH|apply Hp|]. apply wpf_wrap. eapply wpf_mono; [by apply exec_each_safe|].
  intros [u|e|] s' H'; cbn [wrap_err]; [by apply IH..|apply H'].
Qed.

Lemma repartition_loop_safe map_order rawAll remap srcs : (forall k id, remap !! k = Some id -> exists fp, has_ca_id g fp id) ->
  forall pool s, pool_ok pool s -> safe (repartition_loop map_order rawAll remap srcs pool) fst s.
Proof.
  intros Hremap. induction srcs as [|src srcs IH]; intros pool s Hp; cbn [repartition_loop]; [by apply safe_ret|]. cbn zeta.
  apply (safe_bind _ _ (sc_pool ∘ fst)); [destruct (isFragmented rawAll src); [by apply raw_scan_safe|by apply cursor_safe]|].
  intros [sc e] s1 H1. apply (safe_bind _ _ id); [by apply safe_wrap, commit_months_safe|]. intros p2 s2 H2.
  apply (safe_bind _ _ fst); [by apply IH|]. intros [p3 counts] s3 H3. by apply safe_ret.
Qed.

End Safe.

(** At the end no transaction is open: a damaged month is one that may be. *)
Lemma flush_wpf b dst g torn0 map_order p s : (forall X m, m ∈ map_order X <-> m ∈ X) -> pool_ok b dst g torn0 p s ->
  wpf b (flushAndIndex map_order p) (fun r s' => files_ok dst g s' /\
    (r = Ok tt -> forall month, dbs s' !! month_path dst month = Some Torn -> may_tear b torn0 month)) s.
Proof.
  intros Horder Hp. apply wpf_bind. eapply wpf_mono; [by apply commit_months_wpf|]. intros [p'|e|] s' [Hf H]; [|by split..].
  destruct (H p' eq_refl) as [Hp' Hc]. eapply wpf_mono; [by apply index_months_safe|]. intros r s'' [H1 H2]. split; [done|].
  intros -> month. apply (po_torn _ _ _ _ _ _ (H2 tt eq_refl)). destruct (op_states p' !! month) as [ms|] eqn:Em; [|done]. cbn.
  destruct (Hc month ms Em) as [?|[Hn Ho]]; [done|]. destruct Hn. apply Horder. by apply elem_of_dom_2 in Ho.
Qed.

(** *** The issuers phase *)

Lemma month_ok_grown g g' month d : issuers_grown g g' -> month_ok g month d -> month_ok g' month d.
Proof.
  intros [_ Hg] [H1 H2 H3]. split; [done|done|]. eapply Forall_impl; [exact H3|]. intros r [Hm (fp & Hf)]. split; [done|]. exists fp. by apply Hg.
Qed.

Lemma archive_grown dst s g' : archive_ok dst s -> issuers_grown (issuers_of dst s) g' -> archive_ok dst (set_issdb (Join dst "issuers.db") g' s).
Proof.
  intros [H1 H2] Hg. assert (E : issuers_of dst (set_issdb (Join dst "issuers.db") g' s) = g') by (unfold issuers_of; cbn; by rewrite lookup_insert_eq).
  split; [rewrite E; apply Hg|]. intros month d Hd. rewrite E. eapply month_ok_grown; [done|]. by apply H2.
Qed.

Lemma remap_safe dst issuers s : archive_ok dst s ->
  wp (buildIssuersRemap dst issuers) (fun r s' => archive_ok dst s' /\ dbs s' = dbs s /\ forall remap, r = Ok remap ->
    forall k id, remap !! k = Some id -> exists fp, has_ca_id (issuers_of dst s') fp id) s.
Proof.
  intros Hs. set (path := Join dst "issuers.db"). set (g0 := issuers_of dst s).
  assert (Hg0 : issuers_grown g0 g0) by (split; [apply Hs|done]).
  apply wp_bind, wp_wrap, wp_mono with (Q := fun r s' => archive_ok dst s' /\ dbs s' = dbs s /\ (r = Ok tt -> issdbs s' !! path = Some g0)).
  { apply wp_bind, wp_wrap, wp_nop; [done..|]. apply wp_bind, wp_nop; [done..|]. apply wp_wrap, wp_step; [done..|]. cbn [fst snd wrap_err].
    fold path. unfold g0, issuers_of in Hg0 |- *. fold path in Hg0 |- *. destruct (issdbs s !! path) as [g|] eqn:E; [done|].
    split; [|split; [done|intros _; apply lookup_insert_eq]]. apply archive_grown; [done|]. unfold issuers_of. fold path. by rewrite E. }
  intros [[]|e|] s1 (H1 & D1 & Hi); cbn [wrap_err]; [|by split_and!..]. specialize (Hi eq_refl).
  assert (E1 : issuers_of dst s1 = g0) by (unfold issuers_of; fold path; by rewrite Hi).
  eapply wp_mono; [eapply (remap_sources_wp path issuers s1 g0 []); [done|apply Hg0|]|].
  - split; [intros k id; by rewrite lookup_empty|intros k fp H; by apply elem_of_nil in H].
  - intros r s2 (g & -> & Hg & Hr). split; [apply archive_grown; [done|by rewrite E1]|]. split; [done|]. intros remap -> k id Hk.
    destruct (ro_sound _ _ _ (Hr remap eq_refl) k id Hk) as (fp & _ & Hf). exists fp. unfold issuers_of. cbn. by rewrite lookup_insert_eq.
Qed.

(** ** Properties *)

(** C19. The month databases are written with journal_mode=OFF, so a failing statement
    or a death inside a transaction can damage a file. Whatever fails and wherever the
    migration dies, on any sources — torn files, dangling CAs, twins —, every month
    database that can still be read is well-formed: no tile position is twice, every
    row has the month of its file, and its ca_id is that of an issuer of the global
    database. And a migration that ends without a failing statement has damaged no
    month: a file that cannot be read afterwards could not be read before. *)
Theorem repartition_integrity (map_order : gset string -> list string) (rawAll : bool) (dst : string)
  (issuers : list (string * list (list sqlval))) (srcs : list source) (s s' : store) (fl fl' : list outcome) (r : res (list (Z * Z)))
  (Horder : forall X m, m ∈ map_order X <-> m ∈ X)
  (Hok : archive_ok dst s) (Hrun : repartition_main map_order rawAll dst issuers srcs s fl = (r, s', fl')) :
  archive_ok dst s' /\
  (Failed ∉ fl -> is_ok r = true -> forall month, dbs s' !! month_path dst month = Some Torn -> dbs s !! month_path dst month = Some Torn).
Proof.
  set (torn0 := fun month => dbs s !! month_path dst month = Some Torn).
  assert (H : forall b, wpf b (repartition_main map_order rawAll dst issuers srcs) (fun r s' => archive_ok dst s' /\
    (is_ok r = true -> forall month, dbs s' !! month_path dst month = Some Torn -> may_tear b torn0 month)) s); last first.
  { split; [by apply (wpf_run false _ _ _ _ _ _ _ (H false) ltac:(done) Hrun)|]. intros Hcalm Hr month Ht.
    by apply (wpf_run true _ _ _ _ _ _ _ (H true) (fun _ => Hcalm) Hrun). }
  intros b. clear Hrun. assert (Hfail : forall (r : res (list (Z * Z))) s', is_ok r = false -> archive_ok dst s' ->
    archive_ok dst s' /\ (is_ok r = true -> forall month, dbs s' !! month_path dst month = Some Torn -> may_tear b torn0 month)).
  { intros r0 s0 Hr H0. split; [done|]. by rewrite Hr. }
  apply wpf_bind, wpf_wrap, wpf_nop; [intros _; by apply Hfail|by apply Hfail|]. cbn [wrap_err]. apply wpf_bind, wpf_wrap.
  eapply wpf_mono; [apply wpf_of_wp; [apply in_order_issuers|by apply remap_safe]|].
  intros [remap|e|] s1 (H1 & E1 & Hr); cbn [wrap_err]; [|by apply Hfail..]. specialize (Hr remap eq_refl).
  destruct srcs as [|src srcs']; [by apply wpf_fail, Hfail|]. set (srcs := src :: srcs'). set (g := issuers_of dst s1) in *.
  assert (Hdone : forall s2, files_ok dst g s2 -> archive_ok dst s2).
  { intros s2 [E Hm]. split; [rewrite E; apply H1|]. rewrite E. exact Hm. }
  assert (Hp : pool_ok b dst g torn0 (newOutputPool dst) s1).
  { split; [done|split; [done|apply H1]|..]; try by intros ? ? [=]. intros month _ Ht Hb. unfold torn0. by rewrite <- E1. }
  apply wpf_bind. eapply wpf_mono; [by apply repartition_loop_safe|]. intros [[pool counts]|e|] s2 [H2 Hp2]; [|by apply Hfail; [|apply Hdone]..].
  apply wpf_bind, wpf_wrap. eapply wpf_mono; [eapply flush_wpf; [done|apply (Hp2 _ eq_refl)]|].
  intros [[]|e|] s3 [H3 Ht]; cbn [wrap_err]; [apply wpf_ret; split; [by apply Hdone|intros _; by apply Ht]|by apply Hfail; [|apply Hdone]..].
Qed.

(** ** Findings *)

(** The process dies in the second source, while its rows are in a transaction: the
    month they go to, complete after the first source, is damaged. *)
Definition killed_migration := repartition_main demo_order false "dst" demo_issuers [demo_src1; demo_src2] demo_store (repeat Done 34 ++ [Crashed]).

Lemma killed_migration_tears_month :
  killed_migration.1.1 = Panic /\ dbs killed_migration.1.2 !! "dst/2024-01/subjects.db" = Some Torn.
Proof. vm_compute. by split. Qed.

(** Running it again over what is left does not tell: it ends with the usual counts,
    in which the rows that could not be inserted are counted as written. *)
Lemma rerun_counts_lost_rows :
  let run := repartition_main demo_order false "dst" demo_issuers [demo_src1; demo_src2] killed_migration.1.2 [] in
  run.1.1 = Ok [(2, 1); (1, 1)] /\ dbs run.1.2 !! "dst/2024-01/subjects.db" = Some Torn.
Proof. vm_compute. by split. Qed.

(** ** Witnesses *)

(** The same end of the process; and a migration in which nothing fails. *)
Lemma repartition_integrity_witness :
  (demo_months killed_migration.1.2 = [("2024-01", []); ("2024-02", [(1, 1, "2024-02-05")]); ("2024-03", [])] /\
   archive_ok "dst" killed_migration.1.2) /\
  forall month, dbs (repartition_main demo_order false "dst" demo_issuers [demo_src1; demo_src2] demo_store []).1.2 !! month_path "dst" month <> Some Torn.
Proof.
  assert (H0 : archive_ok "dst" demo_store) by (split; [split; constructor|]; intros month d; discriminate).
  assert (Horder : forall X m, m ∈ demo_order X <-> m ∈ X) by (intros X m; apply elem_of_elements).
  split; [split; [vm_compute; reflexivity|]|].
  - destruct killed_migration as [[r s'] fl'] eqn:E. cbn [fst snd].
    apply (repartition_integrity demo_order false "dst" demo_issuers [demo_src1; demo_src2] demo_store s' (repeat Done 34 ++ [Crashed]) fl' r Horder H0 E).
  - assert (Hr : is_ok (repartition_main demo_order false "dst" demo_issuers [demo_src1; demo_src2] demo_store []).1.1 = true) by (vm_compute; reflexivity).
    intros month Ht. destruct (repartition_main _ _ _ _ _ _ []) as [[r s'] fl'] eqn:E. cbn [fst snd] in Ht, Hr.
    pose proof (proj2 (repartition_integrity demo_order false "dst" demo_issuers [demo_src1; demo_src2] demo_store s' [] fl' r Horder H0 E)
      (not_elem_of_nil Failed) Hr month Ht) as H. discriminate H.
Defined.
