(* ===== verification/ReverseSAN.v ===== *)
(** cmd/reindex, R3: the reverse index from names to certificates — one table,
    or one file per public suffix, bucket or catch-all — and its lookups. *)

From S2P Require Import Prelude GoStd Order LogClient.

(** ** Definitions *)

(** The value of an environment variable, "" when it is not set. *)
Definition envInt (v : string) : Z :=
  match parse_int64 v with
  | Some n => if 0 <? n then n else 0
  | None => 0
  end.

Definition other : string := "_other".

Definition firstCharBucket (s : string) : string :=
  match s with
  | "" => other
  | String c _ =>
      let n := N_of_ascii c in
      if (97 <=? n)%N && (n <=? 122)%N then String c ""
      else if is_digit c then "0"
      else other
  end.

(** Whether largeTLD names the suffix. *)
Definition largeTLD (suffix : string) : bool := String.eqb suffix "com".

(** The part of [reg] below the public suffix, by its first character. *)
Definition labelBucket (reg suffix : string) : string :=
  let label := trim_suffix reg ("." +:+ suffix) in
  if String.eqb label "" then "all" else firstCharBucket label.

Definition sanShardBaseTail (suffix : string) : string := "san__tail__" +:+ firstCharBucket suffix.

Definition bucket_base (suffix bucket : string) : string := "san_" +:+ suffix +:+ "__" +:+ bucket.

(** A row of subjects: id and san_domains, which may be NULL. *)
Record san_src := mkSanSrc { sc_id : Z; sc_sans : option string }.

(** A row of san_index. *)
Record san_row := mkSan { sn_domain : string; sn_reg : string; sn_cert : Z; sn_wild : bool }.

(** A row of the staging table, before its shard is known. *)
Record staged_san := mkStaged { ss_suffix : string; ss_labelchar : string; ss_row : san_row }.

Record sanManifest := mkManifest { DedicateMin : Z; SplitMin : Z; Dedicated : list string; Bucketed : list string }.

(** The output directory: its database files and manifest.json. *)
Record san_dir := mkSanDir { sd_files : gmap string (list san_row); sd_manifest : option sanManifest }.

Section ReverseSAN.

(** [strings.ToLower] *)
Variable ToLower : string -> string.

(** golang.org/x/net/publicsuffix: EffectiveTLDPlusOne, which may fail, and
    PublicSuffix. *)
Variable etld_plus_one : string -> option string.
Variable public_suffix : string -> string.

Definition normFQDN (s : string) : string * bool :=
  let s := trim_suffix (ToLower (trim_space s)) "." in
  if has_prefix s "*." then (trim_prefix s "*.", true) else (s, false).

Definition regDomain (fqdn : string) : string := default other (etld_plus_one fqdn).

Definition regSuffix (reg : string) : string :=
  if String.eqb reg "" || String.eqb reg other then other
  else let s := public_suffix reg in
       if String.eqb s "" || String.eqb s reg then reg else s.

Definition sanShardKey (reg : string) : string * string :=
  let suffix := regSuffix reg in
  if negb (largeTLD suffix) then (suffix, "all") else (suffix, labelBucket reg suffix).

Definition sanShardBase (reg : string) : string :=
  let '(suffix, bucket) := sanShardKey reg in bucket_base suffix bucket.

(** The sets readRouting makes of the manifest's lists. *)
Definition sanQueryShardBase (manifest : option sanManifest) (reg : string) : string :=
  match manifest with
  | None => sanShardBase reg
  | Some m =>
      let suffix := regSuffix reg in
      if bool_decide (suffix ∈ Bucketed m) then bucket_base suffix (labelBucket reg suffix)
      else if bool_decide (suffix ∈ Dedicated m) then bucket_base suffix "all"
      else sanShardBaseTail suffix
  end.

(** *** One table *)

(** The rows of one certificate; an empty name is passed over. *)
Definition san_rows (id : Z) (col : string) : list san_row :=
  concat (map (fun raw => let '(name, wild) := normFQDN raw in
                          if String.eqb name "" then [] else [mkSan name (regDomain name) id wild])
              (split_on "," col)).

(** NULL and the empty string hold no name. *)
Definition cert_rows (c : san_src) : list san_row :=
  match sc_sans c with
  | None | Some "" => []
  | Some col => san_rows (sc_id c) col
  end.

Definition buildSAN (src : list san_src) : list san_row := concat (map cert_rows src).

(** *** Sharded *)

Definition stage_row (r : san_row) : staged_san :=
  let suffix := regSuffix (sn_reg r) in mkStaged suffix (labelBucket (sn_reg r) suffix) r.

(** [count[suffix]++] for every row. *)
Definition suffix_counts (staged : list staged_san) : gmap string Z :=
  foldl (fun m s => <[ss_suffix s := default 0 (m !! ss_suffix s) + 1]> m) ∅ staged.

(** The tables bucketed, dedicated and tailroute. *)
Record routes := mkRoutes { rt_bucketed : gset string; rt_dedicated : gset string; rt_tail : gmap string string }.

Definition add_route (dedicateMin splitMin : Z) (rt : routes) (sc : string * Z) : routes :=
  let '(s, c) := sc in
  if largeTLD s || ((0 <? splitMin) && (splitMin <=? c)) then mkRoutes ({[s]} ∪ rt_bucketed rt) (rt_dedicated rt) (rt_tail rt)
  else if (dedicateMin =? 0) || (dedicateMin <=? c) then mkRoutes (rt_bucketed rt) ({[s]} ∪ rt_dedicated rt) (rt_tail rt)
  else mkRoutes (rt_bucketed rt) (rt_dedicated rt) (<[s := sanShardBaseTail s]> (rt_tail rt)).

(** UPDATE staged SET shard = CASE …; a suffix in no table would leave NULL. *)
Definition row_shard (rt : routes) (s : staged_san) : option string :=
  if bool_decide (ss_suffix s ∈ rt_bucketed rt) then Some (bucket_base (ss_suffix s) (ss_labelchar s))
  else if bool_decide (ss_suffix s ∈ rt_dedicated rt) then Some (bucket_base (ss_suffix s) "all")
  else rt_tail rt !! ss_suffix s.

(** The staged rows with their shards, and the manifest. *)
Definition assignShards (staged : list staged_san) (dedicateMin splitMin : Z) : list (option string * san_row) * sanManifest :=
  let rt := foldl (add_route dedicateMin splitMin) (mkRoutes ∅ ∅ ∅) (map_to_list (suffix_counts staged)) in
  (map (fun s => (row_shard rt s, ss_row s)) staged,
   mkManifest dedicateMin splitMin (sort_by text_cmp (elements (rt_dedicated rt))) (sort_by text_cmp (elements (rt_bucketed rt)))).

(** [filepath.Join(outDir, base+".db")] and the file a database opened as
    "file:" + path is in, if there is one: SQLite reads the path as a URI. Both
    are named within the output directory. *)
Variable join_path : string -> string.
Variable uri_file : string -> option string.

Definition openShard (base : string) (files : gmap string (list san_row)) : res (string * gmap string (list san_row)) :=
  let files := delete (join_path (base +:+ ".db")) files in
  match uri_file (join_path (base +:+ ".db")) with
  | None => Err (Errorf "unable to open database file")
  | Some f => match files !! f with
              | Some _ => Err (Errorf "table san_index already exists")
              | None => Ok (f, <[f := []]> files)
              end
  end.

(** The fan-out loop: [cur] is the open shard, "" at first, and [file] the file
    it is in. *)
Fixpoint san_fan_out (rows : list (option string * san_row)) (files : gmap string (list san_row)) (cur file : string) :
    res (gmap string (list san_row)) :=
  match rows with
  | [] => Ok files
  | (None, _) :: _ => Err (Errorf "sql: Scan error: converting NULL to string is unsupported")
  | (Some shard, r) :: rows =>
      let? (file, files) := if String.eqb shard cur then Ok (file, files) else openShard shard files in
      san_fan_out rows (<[file := default [] (files !! file) ++ [r]]> files) shard file
  end.

(** ORDER BY shard; SQL leaves the order of a shard's rows open, and no lookup
    depends on it. *)
Definition buildSANSharded (dedicateMin splitMin : Z) (src : list san_src) (dir : san_dir) : res san_dir :=
  let '(rows, manifest) := assignShards (map stage_row (buildSAN src)) dedicateMin splitMin in
  let? files := san_fan_out (sort_by (by_key fst (null_cmp text_cmp)) rows) (sd_files dir) "" "" in
  Ok (mkSanDir files (Some manifest)).

(** *** Lookups *)

(** san_domain, is_wildcard, cert_id *)
Definition hit : Type := string * bool * Z.

Definition hit_of (r : san_row) : hit := (sn_domain r, sn_wild r, sn_cert r).

Definition hit_cmp : hit -> hit -> comparison :=
  by_key (fun h : hit => (h.1.1, h.2)) (pair_cmp text_cmp Z.compare).

(** SELECT DISTINCT san_domain, is_wildcard, cert_id FROM san_index
    WHERE san_domain = ? OR reg_domain = ? ORDER BY san_domain, cert_id *)
Definition select_san (name : string) (table : list san_row) : list hit :=
  sort_by hit_cmp (remove_dups (map hit_of (filter (fun r => sn_domain r = name \/ sn_reg r = name) table))).

(** ["%s%s\tcert=%d\n"] *)
Definition hit_line (h : hit) : string :=
  (if h.1.2 then "*." else "") +:+ h.1.1 +:+ String (ascii_of_N 9) "cert=" +:+ dec h.2.

Definition lookupSAN (table : list san_row) (q : string) : list string :=
  map hit_line (select_san (normFQDN q).1 table).

(** A shard that [os.Stat] does not find holds nothing; the query fails when
    the database that was opened has no table. *)
Definition lookupSANSharded (dir : san_dir) (q : string) : res (list string) :=
  let name := (normFQDN q).1 in
  let base := sanQueryShardBase (sd_manifest dir) (regDomain name) in
  let path := join_path (base +:+ ".db") in
  match sd_files dir !! path with
  | None => Ok []
  | Some _ =>
      match uri_file path with
      | None => Err (Errorf "unable to open database file")
      | Some f => match sd_files dir !! f with
                  | None => Err (Errorf "no such table: san_index")
                  | Some table => Ok (map hit_line (select_san name table))
                  end
      end
  end.

End ReverseSAN.
