(* ===== verification/SanIndex.v ===== *)
(** The reverse name index answers alike sharded and unsharded, whatever the
    thresholds that lay out its files. *)

From S2P Require Import Prelude GoStd Order LogClient ReverseSAN.

(** ** Definitions *)

(** Characters that neither the file system nor a URI takes apart. *)
Definition plain_char (c : ascii) : bool :=
  negb (bool_decide (c ∈ ["/"; "?"; "#"; "%"; ascii_of_N 0]%char)).

Definition plain (s : string) : Prop := str_forallb plain_char s = true.

Definition db_name (base : string) : string := base +:+ ".db".

(** ** Lemmas *)

(** *** The fan-out *)

Section FanOut.

Context (join_path : string -> string) (uri_file : string -> option string).

(** Both leave a plain name as it is. *)
Hypothesis join_plain : forall n, plain n -> join_path n = n.
Hypothesis uri_plain : forall n, plain n -> uri_file n = Some n.

Abbreviation shard_le := (le_of (by_key fst (null_cmp text_cmp)) : option string * san_row -> option string * san_row -> Prop).

Definition san_part (n : string) (rows : list (option string * san_row)) : list san_row :=
  map snd (filter (fun x => x.1 = Some n) rows).

Lemma plain_db n : plain n -> plain (db_name n).
Proof. intros H. unfold plain, db_name. rewrite str_forallb_app. by rewrite H. Qed.

Lemma san_part_cons n x rows : san_part n (x :: rows) = if decide (x.1 = Some n) then x.2 :: san_part n rows else san_part n rows.
Proof. unfold san_part. rewrite filter_cons. by destruct (decide _). Qed.

Lemma san_part_none n rows : (forall x, x ∈ rows -> x.1 <> Some n) -> san_part n rows = [].
Proof.
  intros Hn. induction rows as [|x rows IH]; [done|]. rewrite san_part_cons, decide_False by (apply Hn; by left).
  apply IH. intros y Hy. apply Hn. by right.
Qed.

Lemma open_plain n files : plain n ->
  openShard join_path uri_file n files = Ok (db_name n, <[db_name n := []]> (delete (db_name n) files)).
Proof.
  intros Hn. unfold openShard. fold (db_name n). rewrite join_plain, uri_plain by by apply plain_db.
  by rewrite lookup_delete_eq.
Qed.

(** The shards that can still come: none is [""], and the open one is first. *)
Record rest_ok (rows : list (option string * san_row)) (cur file : string) : Prop := {
  ro_sorted : StronglySorted shard_le rows;
  ro_plain : forall x, x ∈ rows -> exists n, x.1 = Some n /\ plain n /\ le_of text_cmp cur n /\ (n = cur -> file = db_name cur) }.

Lemma rest_tail x rows cur file n : x.1 = Some n -> rest_ok (x :: rows) cur file -> rest_ok rows n (db_name n).
Proof.
  intros E [Hs Hp]. apply StronglySorted_inv in Hs as [Hs Hx]. rewrite Forall_forall in Hx. split; [done|].
  intros y Hy. destruct (Hp y) as (m & Em & Hm & _ & _); [by right|]. exists m. split; [done|]. split; [done|]. split; [|done].
  specialize (Hx y Hy). unfold le_of, by_key in Hx. rewrite E, Em in Hx. exact Hx.
Qed.

Lemma san_fan_out_spec rows files cur file : rest_ok rows cur file ->
  exists files', san_fan_out join_path uri_file rows files cur file = Ok files' /\
    forall n, files' !! db_name n =
      match san_part n rows with
      | [] => files !! db_name n
      | rs => Some ((if decide (n = cur) then default [] (files !! db_name n) else []) ++ rs)
      end.
Proof.
  revert files cur file. induction rows as [|[o r] rows IH]; intros files cur file Hok; [eexists; split; [done|]; by intros n|].
  destruct (ro_plain _ _ _ Hok (o, r)) as (m & Eo & Hm & Hle & Hcur); [by left|]. cbn [fst] in Eo. subst o. cbn [san_fan_out].
  pose proof (rest_tail (Some m, r) rows cur file m eq_refl Hok) as Hrest.
  destruct (String.eqb_spec m cur) as [->|Hne].
  - rewrite (Hcur eq_refl) in *. cbn [bind_res].
    destruct (IH (<[db_name cur := default [] (files !! db_name cur) ++ [r]]> files) cur (db_name cur) Hrest) as (files' & E & Hf).
    exists files'. split; [done|]. intros n. rewrite Hf, san_part_cons. cbn [fst snd].
    destruct (decide (n = cur)) as [->|Hn].
    + rewrite lookup_insert_eq, decide_True by done. cbn [default from_option id]. destruct (san_part cur rows); [done|]. by rewrite <- (assoc_L (++)).
    + rewrite decide_False by congruence. rewrite lookup_insert_ne; [done|]. intros E'%str_app_inj_r. congruence.
  - rewrite open_plain by done. cbn [bind_res]. rewrite lookup_insert_eq. cbn [default from_option id app].
    destruct (IH (<[db_name m := [r]]> (<[db_name m := []]> (delete (db_name m) files))) m (db_name m) Hrest) as (files' & E & Hf).
    exists files'. split; [done|]. intros n. rewrite Hf, san_part_cons. cbn [fst snd].
    destruct (decide (n = m)) as [->|Hn].
    + rewrite lookup_insert_eq, !decide_True, decide_False by congruence. cbn. by destruct (san_part m rows).
    + assert (Hdb : db_name m <> db_name n) by (intros E'%str_app_inj_r; congruence).
      rewrite !lookup_insert_ne, lookup_delete_ne by done. rewrite (decide_False (P := Some m = Some n)) by congruence.
      destruct (san_part n rows) as [|y ys] eqn:Ep; [done|]. f_equal. rewrite (decide_False (P := n = cur)); [done|].
      intros ->. (* the open shard is over *)
      assert (Hin : y ∈ san_part cur rows) by (rewrite Ep; by left).
      apply list_elem_of_fmap in Hin as (z & -> & [Hz1 Hz]%list_elem_of_filter).
      destruct (ro_plain _ _ _ Hrest z Hz) as (k & Ek & _ & Hk & _). rewrite Hz1 in Ek. injection Ek as <-.
      apply Hne. apply (cmp_eq (cmp := text_cmp)). by apply (le_both text_cmp).
Qed.

End FanOut.

(** *** Routing *)

Lemma lookup_counts staged m0 s :
  is_Some (foldl (fun m x => <[ss_suffix x := default 0 (m !! ss_suffix x) + 1]> m) m0 staged !! s) <->
  is_Some ((m0 : gmap string Z) !! s) \/ exists x, x ∈ staged /\ ss_suffix x = s.
Proof.
  revert m0. induction staged as [|x staged IH]; intros m0; cbn [foldl].
  { split; [by left|]. intros [H|(x & []%elem_of_nil & _)]; done. }
  rewrite IH, lookup_insert_is_Some. split.
  - intros [[E|[_ H]]|(y & Hy & E)]; [right; exists x; split; [by left|done]|by left|right; exists y; split; [by right|done]].
  - intros [H|(y & [->|Hy]%elem_of_cons & E)]; [|left; by left|right; eauto].
    left. destruct (decide (ss_suffix x = s)); [by left|by right].
Qed.

(** What the tables say of a suffix, once every suffix is in one. *)
Record routes_ok (rt : routes) : Prop := {
  rk_tail : forall s t, rt_tail rt !! s = Some t -> t = sanShardBaseTail s }.

Definition routed (rt : routes) (s : string) : Prop :=
  s ∈ rt_bucketed rt \/ s ∈ rt_dedicated rt \/ is_Some (rt_tail rt !! s).

Lemma add_route_ok dm sm rt sc : routes_ok rt -> routes_ok (add_route dm sm rt sc).
Proof.
  intros [Hr]. destruct sc as [s c]. unfold add_route. repeat case_match; split; cbn [rt_tail]; try exact Hr.
  intros s' t [[<- <-]|[_ Hl]]%lookup_insert_Some; [done|by apply Hr].
Qed.

Lemma add_route_routed dm sm rt s c s' : routed rt s' \/ s' = s -> routed (add_route dm sm rt (s, c)) s'.
Proof.
  unfold routed, add_route. intros Hs. repeat case_match; cbn; rewrite ?lookup_insert_is_Some.
  - destruct Hs as [[H1|[H1|H1]]| ->]; set_solver.
  - destruct Hs as [[H1|[H1|H1]]| ->]; set_solver.
  - destruct (decide (s = s')) as [->|Hne]; [auto|]. destruct Hs as [[H1|[H1|H1]]| ->]; auto.
Qed.

Lemma routes_all dm sm l rt : routes_ok rt ->
  routes_ok (foldl (add_route dm sm) rt l) /\
  forall s, routed rt s \/ s ∈ l.*1 -> routed (foldl (add_route dm sm) rt l) s.
Proof.
  revert rt. induction l as [|[s c] l IH]; intros rt Hrt; cbn [foldl].
  { split; [done|]. by intros s [H|H%elem_of_nil]. }
  destruct (IH _ (add_route_ok dm sm rt (s, c) Hrt)) as [H1 H2]. split; [done|].
  intros s' Hs'. apply H2. cbn in Hs'. rewrite elem_of_cons in Hs'. destruct Hs' as [H|[->|H]].
  - left. apply add_route_routed. by left.
  - left. apply add_route_routed. by right.
  - by right.
Qed.

(** Only counted suffixes enter the tables. *)
Lemma routes_from dm sm l rt s :
  s ∈ rt_bucketed (foldl (add_route dm sm) rt l) \/ s ∈ rt_dedicated (foldl (add_route dm sm) rt l) ->
  s ∈ rt_bucketed rt \/ s ∈ rt_dedicated rt \/ s ∈ l.*1.
Proof.
  revert rt. induction l as [|[s' c] l IH]; intros rt; cbn [foldl]; [tauto|].
  intros H%IH. unfold add_route in H. cbn. rewrite elem_of_cons. revert H.
  repeat case_match; cbn [rt_bucketed rt_dedicated]; set_solver.
Qed.

(** *** The query *)

Definition matches (name : string) (r : san_row) : Prop := sn_domain r = name \/ sn_reg r = name.

(** The answers of a table: distinct, in order. *)
Record answers (name : string) (rows : list san_row) (hs : list hit) : Prop := {
  an_sorted : StronglySorted (le_of hit_cmp) hs;
  an_nodup : NoDup hs;
  an_elem : forall h, h ∈ hs <-> exists r, r ∈ rows /\ matches name r /\ hit_of r = h }.

#[export] Instance hit_compare : Compare hit hit_cmp.
Proof. apply by_key_compare, pair_compare; apply _. Qed.

Lemma select_answers name rows : answers name rows (select_san name rows).
Proof.
  unfold select_san. split.
  - apply sort_by_sorted. apply _.
  - rewrite (sort_by_perm hit_cmp). apply NoDup_remove_dups.
  - intros h. rewrite (elem_of_sort_by hit_cmp), elem_of_remove_dups, list_elem_of_fmap. setoid_rewrite list_elem_of_filter.
    unfold matches. naive_solver.
Qed.

Lemma answers_subset name rows rows' hs : (forall r, matches name r -> r ∈ rows <-> r ∈ rows') -> answers name rows hs -> answers name rows' hs.
Proof.
  intros Hr [H1 H2 H3]. split; [done..|]. intros h. rewrite H3.
  split; intros (r & Hin & Hm & E); exists r; (split; [by apply Hr|done]).
Qed.

Lemma answers_perm name rows hs hs' : answers name rows hs -> answers name rows hs' -> hs ≡ₚ hs'.
Proof. intros [_ N1 E1] [_ N2 E2]. apply NoDup_Permutation; [done..|]. intros h. by rewrite E1, E2. Qed.

Section Lookups.

Context (ToLower : string -> string) (etld_plus_one : string -> option string) (public_suffix : string -> string).
Context (join_path : string -> string) (uri_file : string -> option string).

Hypothesis join_plain : forall n, plain n -> join_path n = n.
Hypothesis uri_plain : forall n, plain n -> uri_file n = Some n.

(** The name one label below a public suffix is its own eTLD+1; a name of one
    label has none. *)
Hypothesis etld_idempotent : forall s e, etld_plus_one s = Some e -> etld_plus_one e = Some e.
Hypothesis etld_one_label : forall s, index_byte s "." = -1 -> etld_plus_one s = None.

Abbreviation reg_of := (regDomain etld_plus_one).
Abbreviation suffix_of := (regSuffix public_suffix).
Abbreviation staged_of := (stage_row public_suffix).

Lemma reg_of_reg s : reg_of (reg_of s) = reg_of s.
Proof.
  unfold regDomain at 2 3. destruct (etld_plus_one s) as [e|] eqn:E; cbn.
  - unfold regDomain. by rewrite (etld_idempotent _ _ E).
  - unfold regDomain. by rewrite etld_one_label.
Qed.

Lemma san_rows_reg r src : r ∈ buildSAN ToLower etld_plus_one src -> sn_reg r = reg_of (sn_domain r).
Proof.
  unfold buildSAN. rewrite list_elem_of_In, in_concat. intros (l & Hl & Hr). apply in_map_iff in Hl as (c & <- & _).
  unfold cert_rows in Hr. destruct (sc_sans c) as [[|a col]|]; [done| |done]. unfold san_rows in Hr.
  apply in_concat in Hr as (l & Hl & Hr). apply in_map_iff in Hl as (raw & <- & _).
  destruct (normFQDN ToLower raw) as [name wild]. destruct (String.eqb name ""); [done|].
  by destruct Hr as [<-|[]].
Qed.

(** A name's bucket, and a catch-all's, are plain. *)
Lemma first_char_plain s : plain (firstCharBucket s).
Proof.
  destruct s as [|c s]; [done|]. cbn [firstCharBucket].
  destruct ((97 <=? N_of_ascii c)%N && (N_of_ascii c <=? 122)%N) eqn:E; [|by destruct (is_digit c)].
  unfold plain. cbn. unfold plain_char. rewrite andb_true_r. apply negb_true_iff, bool_decide_eq_false.
  intros H. rewrite !elem_of_cons, elem_of_nil in H. by destruct H as [-> | [-> | [-> | [-> | [-> | []]]]]].
Qed.

Lemma plain_app a b : plain (a +:+ b) <-> plain a /\ plain b.
Proof. unfold plain. by rewrite str_forallb_app, andb_true_iff. Qed.

Lemma bucket_base_plain suffix bucket : plain suffix -> plain bucket -> plain (bucket_base suffix bucket).
Proof. intros H1 H2. unfold bucket_base. rewrite !plain_app. done. Qed.

Lemma label_bucket_plain reg suffix : plain (labelBucket reg suffix).
Proof. unfold labelBucket. case_match; [done|apply first_char_plain]. Qed.

(** Every row is staged, and the manifest only names their suffixes. *)
Lemma assigned_rows rows dm sm r : r ∈ rows -> exists o, (o, r) ∈ (assignShards (map staged_of rows) dm sm).1.
Proof.
  intros Hr. unfold assignShards. cbn [fst]. eexists. apply list_elem_of_fmap. exists (staged_of r). split; [done|].
  apply list_elem_of_fmap. eauto.
Qed.

Lemma manifest_suffix rows dm sm s : let m := (assignShards (map staged_of rows) dm sm).2 in
  s ∈ Bucketed m \/ s ∈ Dedicated m -> exists r, r ∈ rows /\ suffix_of (sn_reg r) = s.
Proof.
  cbn zeta. unfold assignShards. cbn [snd Bucketed Dedicated]. rewrite !(elem_of_sort_by text_cmp), !elem_of_elements.
  intros [H|[H|H]]%routes_from; [by apply elem_of_empty in H..|].
  apply list_elem_of_fmap in H as ([s' c] & -> & Hc%elem_of_map_to_list). cbn [fst].
  assert (H : is_Some (suffix_counts (map staged_of rows) !! s')) by eauto.
  apply lookup_counts in H as [[? []%lookup_empty_Some]|(x & (r & -> & Hr)%list_elem_of_fmap & E)]. eauto.
Qed.

(** The base a row goes to is the one a query of its registrable domain opens. *)
Lemma row_shard_query rows dm sm : forall x, x ∈ (assignShards (map staged_of rows) dm sm).1 ->
  x.2 ∈ rows /\ x.1 = Some (sanQueryShardBase public_suffix (Some (assignShards (map staged_of rows) dm sm).2) (sn_reg x.2)).
Proof.
  unfold assignShards. cbn [fst snd]. set (counts := suffix_counts _). set (rt := foldl _ _ _).
  destruct (routes_all dm sm (map_to_list counts) (mkRoutes ∅ ∅ ∅)) as [[Ht] Hr]; [by split|]. fold rt in Ht, Hr.
  intros x (s & -> & (r & -> & Hin)%list_elem_of_fmap)%list_elem_of_fmap. cbn [fst snd ss_row stage_row]. split; [done|].
  assert (Hs : routed rt (suffix_of (sn_reg r))).
  { apply Hr. right. assert (Hc : is_Some (counts !! suffix_of (sn_reg r))).
    { apply lookup_counts. right. exists (staged_of r). split; [|done]. apply list_elem_of_fmap. eauto. }
    destruct Hc as [c Hc]. apply list_elem_of_fmap. exists (suffix_of (sn_reg r), c). split; [done|]. by apply elem_of_map_to_list. }
  unfold row_shard, sanQueryShardBase. cbn [Bucketed Dedicated stage_row ss_suffix ss_labelchar].
  assert (Hb : forall (X : gset string) n, n ∈ sort_by text_cmp (elements X) <-> n ∈ X)
    by (intros; by rewrite (elem_of_sort_by text_cmp), elem_of_elements).
  rewrite (bool_decide_ext _ _ (Hb (rt_bucketed rt) _)), (bool_decide_ext _ _ (Hb (rt_dedicated rt) _)).
  do 2 (case_bool_decide; [done|]). destruct Hs as [Hs|[Hs|[t Hs]]]; [done..|]. rewrite Hs. by rewrite (Ht _ _ Hs).
Qed.

Lemma query_base_plain m reg : plain (suffix_of reg) -> plain (sanQueryShardBase public_suffix (Some m) reg).
Proof.
  intros H. unfold sanQueryShardBase. repeat case_bool_decide.
  - apply bucket_base_plain; [done|apply label_bucket_plain].
  - by apply bucket_base_plain.
  - unfold sanShardBaseTail. rewrite plain_app. split; [done|apply first_char_plain].
Qed.

Lemma query_base_nonempty m reg : sanQueryShardBase public_suffix (Some m) reg <> "".
Proof. unfold sanQueryShardBase. by repeat case_bool_decide. Qed.

(** A build on a fresh directory puts exactly the rows a query can match in the
    file the query opens. *)
Lemma sharded_answers dm sm src :
  let rows := buildSAN ToLower etld_plus_one src in
  (forall r, r ∈ rows -> plain (suffix_of (sn_reg r))) ->
  exists dir, buildSANSharded ToLower etld_plus_one public_suffix join_path uri_file dm sm src (mkSanDir ∅ None) = Ok dir /\
    forall q, exists hs, lookupSANSharded ToLower etld_plus_one public_suffix join_path uri_file dir q = Ok (map hit_line hs) /\
      answers (normFQDN ToLower q).1 rows hs.
Proof.
  cbn zeta. set (rows := buildSAN _ _ src). intros Hplain. unfold buildSANSharded. fold rows.
  pose proof (row_shard_query rows dm sm) as Hrow. destruct (assignShards (map staged_of rows) dm sm) as [staged m] eqn:Ea. cbn [fst snd] in Hrow.
  set (sorted := sort_by _ staged). cbn [sd_files].
  assert (Hin : forall x, x ∈ sorted <-> x ∈ staged) by (intros; unfold sorted; by rewrite (elem_of_sort_by (by_key fst (null_cmp text_cmp)))).
  destruct (san_fan_out_spec join_path uri_file join_plain uri_plain sorted ∅ "" "") as (files & -> & Hf).
  { split; [apply sort_by_sorted; apply _|]. intros x Hx%Hin. destruct (Hrow x Hx) as [Hx2 E]. eexists. split; [exact E|].
    split; [by apply query_base_plain, Hplain|]. split; [|by intros ?%query_base_nonempty].
    unfold le_of, text_cmp. change (list_ascii_of_string "") with (@nil ascii). by destruct (list_ascii_of_string _). }
  cbn [bind_res]. eexists. split; [done|]. intros q. set (name := (normFQDN ToLower q).1). unfold lookupSANSharded. fold name. cbn [sd_manifest sd_files].
  set (base := sanQueryShardBase _ _ _). fold (db_name base).
  assert (Hbase : plain base).
  { unfold base, sanQueryShardBase. pose proof (manifest_suffix rows dm sm) as Hm. rewrite Ea in Hm. cbn [snd] in Hm.
    case_bool_decide as Hd; [|case_bool_decide as Hd0].
    - apply bucket_base_plain; [|apply label_bucket_plain]. destruct (Hm _ (or_introl Hd)) as (r & Hr & <-). by apply Hplain.
    - apply bucket_base_plain; [|done]. destruct (Hm _ (or_intror Hd0)) as (r & Hr & <-). by apply Hplain.
    - unfold sanShardBaseTail. rewrite plain_app. split; [done|apply first_char_plain]. }
  rewrite join_plain, uri_plain by by apply plain_db.
  assert (Hpart : forall r, matches name r -> r ∈ san_part base sorted <-> r ∈ rows).
  { intros r Hm. unfold san_part. rewrite list_elem_of_fmap. setoid_rewrite list_elem_of_filter. split.
    - intros (x & -> & _ & Hx%Hin). by apply Hrow.
    - intros Hr. pose proof (assigned_rows rows dm sm r Hr) as [o Ho]. rewrite Ea in Ho. cbn [fst] in Ho.
      exists (o, r). split; [done|]. split; [|by apply Hin]. destruct (Hrow _ Ho) as [_ E]. cbn [fst snd] in E |- *. rewrite E.
      unfold base. do 2 f_equal. pose proof (san_rows_reg r src Hr) as Hreg.
      destruct Hm as [<-|Hm]; [done|]. rewrite <- Hm, Hreg. by rewrite reg_of_reg. }
  rewrite Hf. pose proof (select_answers name (san_part base sorted)) as Han.
  destruct (san_part base sorted) as [|r rs] eqn:Ep.
  - rewrite lookup_empty. exists []. split; [done|]. by eapply answers_subset; [exact Hpart|].
  - rewrite decide_False by (intros E; by apply query_base_nonempty in E). cbn [app].
    eexists. split; [done|]. by eapply answers_subset; [exact Hpart|].
Qed.

End Lookups.

(** What buildSAN writes, in the terms of the source. *)
Definition named (ToLower : string -> string) (c : san_src) (name : string) (wild : bool) : Prop :=
  exists col raw, sc_sans c = Some col /\ col <> "" /\ raw ∈ split_on "," col /\ normFQDN ToLower raw = (name, wild) /\ name <> "".

Lemma san_rows_spec ToLower etld_plus_one src r : r ∈ buildSAN ToLower etld_plus_one src <->
  exists c name wild, c ∈ src /\ named ToLower c name wild /\ r = mkSan name (regDomain etld_plus_one name) (sc_id c) wild.
Proof.
  unfold buildSAN. rewrite list_elem_of_In, in_concat. setoid_rewrite in_map_iff. unfold named, cert_rows.
  setoid_rewrite list_elem_of_In. split.
  - intros (l & (c & <- & Hc) & Hr). destruct (sc_sans c) as [[|a s]|] eqn:E; [done| |done].
    unfold san_rows in Hr. apply in_concat in Hr as (l & Hl & Hr). apply in_map_iff in Hl as (raw & <- & Hraw).
    destruct (normFQDN ToLower raw) as [name wild] eqn:En. destruct (String.eqb_spec name ""); [done|].
    destruct Hr as [<-|[]]. exists c, name, wild. split; [done|]. split; [|done]. by exists (String a s), raw.
  - intros (c & name & wild & Hc & (col & raw & E & Hcol & Hraw & En & Hne) & ->).
    eexists. split; [by exists c|]. rewrite E. destruct col as [|a s]; [done|]. unfold san_rows. apply in_concat.
    eexists. split; [apply in_map_iff; exists raw; done|]. cbn beta. rewrite En. destruct (String.eqb_spec name ""); [done|]. by left.
Qed.

(** ** Properties *)

(** C13. The layout of the name index changes no answer: for any thresholds and a
    fresh directory, a lookup in the sharded index finds, in order of name and
    certificate, exactly what a lookup in the one table finds — every name of a
    certificate that is the one asked for or whose registrable domain is — up to
    the order of a wildcard and a plain name of one certificate, which the
    queries leave open. The suffixes must be plain file names. *)
Theorem lookup_san_sharded_exact (ToLower : string -> string) (etld_plus_one : string -> option string) (public_suffix : string -> string)
  (join_path : string -> string) (uri_file : string -> option string) (dedicateMin splitMin : Z) (src : list san_src)
  (Hjoin : forall n, plain n -> join_path n = n) (Huri : forall n, plain n -> uri_file n = Some n)
  (Hidem : forall s e, etld_plus_one s = Some e -> etld_plus_one e = Some e)
  (Hone : forall s, index_byte s "." = -1 -> etld_plus_one s = None)
  (Hplain : forall c name wild, c ∈ src -> named ToLower c name wild -> plain (regSuffix public_suffix (regDomain etld_plus_one name))) :
  exists dir, buildSANSharded ToLower etld_plus_one public_suffix join_path uri_file dedicateMin splitMin src (mkSanDir ∅ None) = Ok dir /\
  forall q, exists hs hs', lookupSANSharded ToLower etld_plus_one public_suffix join_path uri_file dir q = Ok (map hit_line hs) /\
    lookupSAN ToLower (buildSAN ToLower etld_plus_one src) q = map hit_line hs' /\
    hs ≡ₚ hs' /\ StronglySorted (le_of hit_cmp) hs /\ StronglySorted (le_of hit_cmp) hs' /\ NoDup hs /\
    forall name wild cert, (name, wild, cert) ∈ hs <->
      (name = (normFQDN ToLower q).1 \/ regDomain etld_plus_one name = (normFQDN ToLower q).1) /\
      exists c, c ∈ src /\ sc_id c = cert /\ named ToLower c name wild.
Proof.
  destruct (sharded_answers ToLower etld_plus_one public_suffix join_path uri_file Hjoin Huri Hidem Hone dedicateMin splitMin src) as (dir & Hdir & Hq).
  { intros r (c & name & wild & Hc & Hn & ->)%san_rows_spec. by eapply Hplain. }
  exists dir. split; [done|]. intros q. destruct (Hq q) as (hs & E & Ha). set (n := (normFQDN ToLower q).1) in *.
  pose proof (select_answers n (buildSAN ToLower etld_plus_one src)) as Hb. exists hs, (select_san n (buildSAN ToLower etld_plus_one src)).
  split; [done|]. split; [done|]. split; [by eapply answers_perm|]. split; [apply Ha|]. split; [apply Hb|]. split; [apply Ha|].
  intros name wild cert. rewrite (an_elem _ _ _ Ha). setoid_rewrite san_rows_spec. unfold matches. split.
  - intros (r & (c & nm & w & Hc & Hn & ->) & Hm & [= <- <- <-]). eauto.
  - intros (Hm & c & Hc & <- & Hn). eexists. split; [by exists c, name, wild|]. by split.
Qed.

(** ** Witness *)

(** Three certificates; the registrable domains are given by a table. *)
Definition demo_etld (s : string) : option string :=
  if String.eqb s "a.com" || String.eqb s "www.a.com" || String.eqb s "x.www.a.com" then Some "a.com"
  else if String.eqb s "b.github.io" then Some "b.github.io"
  else if String.eqb s "c.zz" then Some "c.zz"
  else None.

Definition demo_suffix (s : string) : string :=
  if String.eqb s "a.com" then "com" else if String.eqb s "b.github.io" then "github.io" else "zz".

Definition demo_certs : list san_src :=
  [mkSanSrc 1 (Some "a.com,*.a.com"); mkSanSrc 2 (Some "b.github.io, www.a.com."); mkSanSrc 3 None; mkSanSrc 4 (Some "c.zz,x.www.a.com")].

Definition demo_san_dir : san_dir :=
  match buildSANSharded id demo_etld demo_suffix id Some 2 0 demo_certs (mkSanDir ∅ None) with Ok d => d | _ => mkSanDir ∅ None end.

Definition demo_lookup (q : string) : res (list string) := lookupSANSharded id demo_etld demo_suffix id Some demo_san_dir q.

Definition tab : string := String (ascii_of_N 9) "".

Lemma demo_etld_cases s e : demo_etld s = Some e -> e = "a.com" \/ e = "b.github.io" \/ e = "c.zz".
Proof. unfold demo_etld. repeat case_match; intros [= <-]; auto. Qed.

Lemma lookup_san_sharded_exact_witness :
  map fst (map_to_list (sd_files demo_san_dir)) = ["san__tail__g.db"; "san__tail__z.db"; "san_com__a.db"] /\
  demo_lookup "A.com" = Ok [] /\
  demo_lookup "a.com" = Ok ["a.com" +:+ tab +:+ "cert=1"; "*.a.com" +:+ tab +:+ "cert=1"; "www.a.com" +:+ tab +:+ "cert=2"; "x.www.a.com" +:+ tab +:+ "cert=4"] /\
  exists dir, buildSANSharded id demo_etld demo_suffix id Some 2 0 demo_certs (mkSanDir ∅ None) = Ok dir.
Proof.
  split; [vm_compute; reflexivity|]. split; [vm_compute; reflexivity|]. split; [vm_compute; reflexivity|].
  destruct (lookup_san_sharded_exact id demo_etld demo_suffix id Some 2 0 demo_certs) as (dir & H & _).
  - intros n _. reflexivity.
  - intros n _. reflexivity.
  - intros s e [H|[H|H]]%demo_etld_cases; rewrite H; reflexivity.
  - intros s H. unfold demo_etld.
    repeat match goal with |- context [String.eqb s ?t] => destruct (String.eqb_spec s t) as [E|_]; [rewrite E in H; discriminate H|] end.
    reflexivity.
  - intros c name wild _ _. unfold plain. 
    assert (Hs : forall r, regSuffix demo_suffix r = other \/ regSuffix demo_suffix r = "com" \/ regSuffix demo_suffix r = "github.io" \/ regSuffix demo_suffix r = "zz").
    { intros r. unfold regSuffix, demo_suffix. repeat case_match; auto.
      all: match goal with H : String.eqb _ "" || String.eqb _ _ = true |- _ => apply orb_true_iff in H as [H|H%String.eqb_eq]; [discriminate H|rewrite <- H; auto] end. }
    destruct (Hs (regDomain demo_etld name)) as [H|[H|[H|H]]]; rewrite H; reflexivity.
  - exists dir. exact H.
Defined.

(** ** What the theorem's conditions leave out *)

(** A query for a name that is not a registrable domain only finds that very
    name: the certificate of x.www.a.com is not among those of www.a.com. *)
Lemma names_below_not_found :
  demo_lookup "www.a.com" = Ok ["www.a.com" +:+ tab +:+ "cert=2"] /\
  lookupSAN id (buildSAN id demo_etld demo_certs) "www.a.com" = ["www.a.com" +:+ tab +:+ "cert=2"].
Proof. split; vm_compute; reflexivity. Qed.

(** SQLite's reading of a path as a URI, for the two characters below: a query
    starts at '?', and a directory that does not exist cannot hold a file. *)
Definition uri_demo (path : string) : option string :=
  if 0 <=? index_byte path "/" then None
  else if 0 <=? index_byte path "?" then Some (str_take (index_byte path "?") path)
  else Some path.

Definition odd_etld (s : string) : option string := if 0 <=? index_byte s "." then Some s else None.
Definition odd_suffix (s : string) : string := str_drop (index_byte s "." + 1) s.

(** A name whose suffix has a '?' is written to another file than the one the
    lookup asks for; one with a '/' ends the whole build. *)
Lemma odd_suffixes :
  match buildSANSharded id odd_etld odd_suffix id uri_demo 0 0 [mkSanSrc 1 (Some "a.z?y")] (mkSanDir ∅ None) with
  | Ok dir => lookupSANSharded id odd_etld odd_suffix id uri_demo dir "a.z?y"
  | Err e => Err e
  | Panic => Panic
  end = Ok [] /\
  lookupSAN id (buildSAN id odd_etld [mkSanSrc 1 (Some "a.z?y")]) "a.z?y" = ["a.z?y" +:+ tab +:+ "cert=1"] /\
  is_ok (buildSANSharded id odd_etld odd_suffix id uri_demo 0 0 [mkSanSrc 1 (Some "a.com,a.x/y")] (mkSanDir ∅ None)) = false.
Proof. split; [vm_compute; reflexivity|]. split; vm_compute; reflexivity. Qed.
