(* ===== verification/Dnsfetch.v ===== *)
(** cmd/dnsfetch: the resolver of exported names — the feeder that reads the
    shard files, the workers' retry policy and circuit breaker, and the writer's
    pool of shard databases with its transactions, its eviction and the final
    move to the output directory. *)

From S2P Require Import Prelude GoStd FileSys Sha256 Sql RowCell LogClient Leaf Export.

(** ** Definitions *)

(** *** Shared types (main.go) *)

(** tld and bucket *)
Definition shard := (string * string)%type.

Record workItem := mkWork { wi_domain : string; wi_shard : shard }.

(** The DNSRecord bodies insertRecord stores; [BOther] is a body of another
    type, and a nil body is [None]. *)
Inductive body :=
| BA (ipv4 : bytes)
| BAaaa (ipv6 : bytes)
| BCname (target : string)
| BDname (target : string)
| BNs (host : string)
| BMx (pref : Z) (host : string)
| BTxt (strs : list string)
| BSoa (ns mbox : string) (serial refresh retry expire min_ttl : Z)
| BLoc (version size horiz_pre vert_pre latitude longitude altitude : Z)
| BHinfo (cpu os : string)
| BRp (mbox txt : string)
| BAfsdb (subtype : Z) (hostname : string)
| BNaptr (order preference : Z) (flags service regexp replacement : string)
| BKx (preference : Z) (exchanger : string)
| BSshfp (algorithm fp_type : Z) (fingerprint : bytes)
| BSvcb (priority : Z) (target_name : string) (params : list (Z * bytes))
| BHttps (priority : Z) (target_name : string) (params : list (Z * bytes))
| BCaa (flags : Z) (tag value : string)
| BUri (priority weight : Z) (target : string)
| BOther.

Record DNSRecord := mkDNSRecord { rec_ttl : Z; rec_body : option body }.

Record resultItem := mkResult {
  ri_domain : string; ri_shard : shard; ri_status : string; ri_records : list DNSRecord; ri_fetchedAt : Z }.

(** *** The workers (worker.go) *)

(** What one GetDNSRecords call does: it fails, or it streams records up to the
    end of the stream or an error, which is the deadline's or another. *)
Inductive stream_end := SEof | SDeadline | SError.
Inductive rpc := CallError | Stream (recs : list DNSRecord) (e : stream_end).

Definition has_body (r : DNSRecord) : Prop := is_Some (rec_body r).
#[export] Instance has_body_dec r : Decision (has_body r).
Proof. unfold has_body. apply _. Defined.

(** The result and whether to retry. *)
Definition doResolve (now : Z) (item : workItem) (call : rpc) : resultItem * bool :=
  let base (status : string) (records : list DNSRecord) := mkResult (wi_domain item) (wi_shard item) status records now in
  match call with
  | CallError => (base "error" [], true)
  | Stream _ SDeadline => (base "timeout" [], true)
  | Stream _ SError => (base "error" [], true)
  | Stream recs SEof =>
      match filter has_body recs with
      | [] => (base "nxdomain" [], false)
      | records => (base "ok" records, false)
      end
  end.

(** The attempts that are left; [calls] are the times and outcomes of the calls
    made until the context is cancelled. *)
Fixpoint resolve_loop (attempts : nat) (item : workItem) (timeoutAttempts : nat) (calls : list (Z * rpc)) (endTime : Z) : resultItem :=
  let failed := mkResult (wi_domain item) (wi_shard item) "error" [] endTime in
  match attempts, calls with
  | S attempts, (now, call) :: calls =>
      let '(res, retry) := doResolve now item call in
      if negb retry then res
      else if String.eqb (ri_status res) "timeout" then
        if (2 <=? S timeoutAttempts)%nat then res else resolve_loop attempts item (S timeoutAttempts) calls endTime
      else resolve_loop attempts item timeoutAttempts calls endTime
  | _, _ => failed
  end.

Definition resolve (item : workItem) (calls : list (Z * rpc)) (endTime : Z) : resultItem := resolve_loop 4 item 0 calls endTime.

(** The circuit breaker; the threshold is the fraction [cb_num]/[cb_den]. *)
Record circuitBreaker := mkBreaker {
  cb_num : Z; cb_den : Z; cb_ring : list bool; cb_pos : nat; cb_errCount : Z; cb_tripped : bool; cb_tripUntil : Z }.

Definition newCircuitBreaker (num den : Z) (window : nat) : circuitBreaker :=
  mkBreaker num den (repeat false window) 0 0 false 0.

(** 30 seconds, in the unit of the clock. *)
Definition trip_pause : Z := 30.

Definition cb_record (now : Z) (isErr : bool) (cb : circuitBreaker) : circuitBreaker :=
  let errCount := if (cb_ring cb !!! cb_pos cb : bool) then cb_errCount cb - 1 else cb_errCount cb in
  let ring := <[cb_pos cb := isErr]> (cb_ring cb) in
  let errCount := if isErr then errCount + 1 else errCount in
  let pos := ((cb_pos cb + 1) mod length ring)%nat in
  if (cb_num cb * Z.of_nat (length ring) <? errCount * cb_den cb) && negb (cb_tripped cb) then
    mkBreaker (cb_num cb) (cb_den cb) ring pos errCount true (now + trip_pause)
  else if cb_tripped cb && (cb_tripUntil cb <? now) then
    mkBreaker (cb_num cb) (cb_den cb) ring pos errCount false (cb_tripUntil cb)
  else mkBreaker (cb_num cb) (cb_den cb) ring pos errCount (cb_tripped cb) (cb_tripUntil cb).

(** How long [wait] pauses. *)
Definition cb_wait (now : Z) (cb : circuitBreaker) : Z :=
  if cb_tripped cb then Z.max 0 (cb_tripUntil cb - now) else 0.

(** The counters of runStats. *)
Record runStats := mkStats { st_done : Z; st_ok : Z; st_nxd : Z; st_timeouts : Z; st_errs : Z }.

Definition stats_record (status : string) (st : runStats) : runStats :=
  let '(mkStats done ok nxd timeouts errs) := st in
  if String.eqb status "ok" then mkStats (done + 1) (ok + 1) nxd timeouts errs
  else if String.eqb status "nxdomain" then mkStats (done + 1) ok (nxd + 1) timeouts errs
  else if String.eqb status "timeout" then mkStats (done + 1) ok nxd (timeouts + 1) errs
  else mkStats (done + 1) ok nxd timeouts (errs + 1).

(** What becomes of a result: it goes to the writer, or the context is cancelled
    before it is taken, or already before it is recorded. *)
Inductive fate := Sent | Unsent | Cancelled.

(** A worker's turn with an item: the calls that are made and when they end. *)
Record turn := mkTurn { tn_item : workItem; tn_calls : list (Z * rpc); tn_end : Z; tn_fate : fate }.

(** The turns of the workers in the order they record their results: the results
    sent to the writer, the counters and the breaker. *)
Fixpoint runWorker (turns : list turn) (st : runStats) (cb : circuitBreaker) : list resultItem * runStats * circuitBreaker :=
  match turns with
  | [] => ([], st, cb)
  | t :: turns =>
      let res := resolve (tn_item t) (tn_calls t) (tn_end t) in
      match tn_fate t with
      | Cancelled => runWorker turns st cb
      | fate =>
          let '(results, st, cb) :=
            runWorker turns (stats_record (ri_status res) st) (cb_record (tn_end t) (String.eqb (ri_status res) "error") cb) in
          (match fate with Sent => res :: results | _ => results end, st, cb)
      end
  end.

(** *** Rows (store.go) *)

(** A row of one of the tables dns_records_*: the table, the three common
    columns and those of its own. *)
Record dns_row := mkDnsRow { dr_table : string; dr_domain : string; dr_ttl : Z; dr_fetched : Z; dr_cols : list sqlval }.

(** A row of fetch_log. *)
Record log_row := mkLogRow { fl_domain : string; fl_status : string; fl_fetched : Z }.

(** A shard database. *)
Record dnsdb := mkDnsDb { fetch_log : list log_row; dns_records : list dns_row }.

Fixpoint join_params (params : list (Z * bytes)) : string :=
  match params with
  | [] => ""
  | [(k, v)] => dec k +:+ "=" +:+ hex_encode v
  | (k, v) :: params => dec k +:+ "=" +:+ hex_encode v +:+ " " +:+ join_params params
  end.

Definition svcbParamsText (params : list (Z * bytes)) : string := join_params params.

(** The table and the columns of a body; [None] stores nothing. *)
Definition record_cols (b : body) : option (string * list sqlval) :=
  match b with
  | BA ip => Some ("a", [VText (ip_string ip)])
  | BAaaa ip => Some ("aaaa", [VText (ip_string ip)])
  | BCname t => Some ("cname", [VText t])
  | BDname t => Some ("dname", [VText t])
  | BNs h => Some ("ns", [VText h])
  | BMx p h => Some ("mx", [VInt p; VText h])
  | BTxt strs => Some ("txt", [VText (foldr String.append "" strs)])
  | BSoa ns mbox serial refresh retry expire min_ttl =>
      Some ("soa", [VText ns; VText mbox; VInt serial; VInt refresh; VInt retry; VInt expire; VInt min_ttl])
  | BLoc version size horiz_pre vert_pre latitude longitude altitude =>
      Some ("loc", [VInt version; VInt size; VInt horiz_pre; VInt vert_pre; VInt latitude; VInt longitude; VInt altitude])
  | BHinfo cpu os => Some ("hinfo", [VText cpu; VText os])
  | BRp mbox txt => Some ("rp", [VText mbox; VText txt])
  | BAfsdb subtype hostname => Some ("afsdb", [VInt subtype; VText hostname])
  | BNaptr order preference flags service regexp replacement =>
      Some ("naptr", [VInt order; VInt preference; VText flags; VText service; VText regexp; VText replacement])
  | BKx preference exchanger => Some ("kx", [VInt preference; VText exchanger])
  | BSshfp algorithm fp_type fingerprint => Some ("sshfp", [VInt algorithm; VInt fp_type; VText (hex_encode fingerprint)])
  | BSvcb priority target params => Some ("svcb", [VInt priority; VText target; VText (svcbParamsText params)])
  | BHttps priority target params => Some ("https", [VInt priority; VText target; VText (svcbParamsText params)])
  | BCaa flags tag value => Some ("caa", [VInt flags; VText tag; VText value])
  | BUri priority weight target => Some ("uri", [VInt priority; VInt weight; VText target])
  | BOther => None
  end.

(** insertRecord, the statement it executes. *)
Definition record_row (domain : string) (fetchedAt : Z) (rec : DNSRecord) : option dns_row :=
  match rec_body rec ≫= record_cols with
  | Some (table, cols) => Some (mkDnsRow table domain (rec_ttl rec) fetchedAt cols)
  | None => None
  end.

(** *** The pool (store.go) *)

Definition maxOpenDBs : nat := 128.
Definition dnsBatchSize : nat := 500.

Definition dbName (bucket : string) : string := if String.eqb bucket "exports" then "records.db" else bucket +:+ ".db".

(** A shard's file below the staging or the output directory. *)
Definition shard_file (k : shard) : string * string := (k.1, dbName k.2).

Record dbEntry := mkEntry' { de_pending : list resultItem; de_lastUsed : Z }.

(** A database file, or what an interrupted copy left of one. *)
Inductive dnsfile := DnsDB (d : dnsdb) | DnsTorn.

(** The pool, the two directories, the readings of the clock so far, and the
    items given up because their database could not be opened. *)
Record wstate := mkW {
  w_entries : gmap shard dbEntry;
  w_staging : gmap (string * string) dnsdb;
  w_final : gmap (string * string) dnsfile;
  w_clock : Z;
  w_dropped : list resultItem }.

Definition set_entries (e : gmap shard dbEntry) (w : wstate) : wstate := mkW e (w_staging w) (w_final w) (w_clock w) (w_dropped w).
Definition set_staging (m : gmap (string * string) dnsdb) (w : wstate) : wstate := mkW (w_entries w) m (w_final w) (w_clock w) (w_dropped w).
Definition set_final (m : gmap (string * string) dnsfile) (w : wstate) : wstate := mkW (w_entries w) (w_staging w) m (w_clock w) (w_dropped w).
Definition add_dropped (i : resultItem) (w : wstate) : wstate := mkW (w_entries w) (w_staging w) (w_final w) (w_clock w) (w_dropped w ++ [i]).

(** Calls with the outcomes of Sql.v on this state. *)
Definition D (A : Type) : Type := wstate -> list outcome -> res A * wstate * list outcome.

Definition dret {A} (a : A) : D A := fun w fl => (Ok a, w, fl).
Definition dfail {A} (e : error) : D A := fun w fl => (Err e, w, fl).
Definition dbind {A B} (m : D A) (k : A -> D B) : D B := fun w fl =>
  match m w fl with
  | (Ok a, w, fl) => k a w fl
  | (Err e, w, fl) => (Err e, w, fl)
  | (Panic, w, fl) => (Panic, w, fl)
  end.
Definition dattempt {A} (m : D A) : D (A + error) := fun w fl =>
  match m w fl with
  | (Ok a, w, fl) => (Ok (inl a), w, fl)
  | (Err e, w, fl) => (Ok (inr e), w, fl)
  | (Panic, w, fl) => (Panic, w, fl)
  end.
Definition dget {A} (f : wstate -> A) : D A := fun w fl => (Ok (f w), w, fl).
Definition dmod (f : wstate -> wstate) : D unit := fun w fl => (Ok tt, f w, fl).

(** A call that can fail, or be where the process dies. *)
Definition dcall (f : wstate -> res unit * wstate) : D unit := fun w fl =>
  match fl with
  | [] => (f w, [])
  | Done :: fl => (f w, fl)
  | Failed :: fl => (Err ErrSyscall, w, fl)
  | Crashed :: fl => (Panic, w, fl)
  end.
Definition dnop : D unit := dcall (fun w => (Ok tt, w)).

Declare Scope dns_scope.
Delimit Scope dns_scope with dns.
Notation "'let&' p ':=' m 'in' k" := (dbind m (fun p => k)) (at level 10, p pattern, m at level 100, k at level 200) : dns_scope.
#[local] Open Scope dns_scope.

(** time.Now() *)
Definition now : D Z := fun w fl =>
  (Ok (w_clock w + 1), mkW (w_entries w) (w_staging w) (w_final w) (w_clock w + 1) (w_dropped w), fl).

(** INSERT OR IGNORE INTO fetch_log; the rows affected. *)
Definition insert_log (d : dnsdb) (i : resultItem) : dnsdb * Z :=
  if bool_decide (ri_domain i ∈ map fl_domain (fetch_log d)) then (d, 0)
  else (mkDnsDb (fetch_log d ++ [mkLogRow (ri_domain i) (ri_status i) (ri_fetchedAt i)]) (dns_records d), 1).

(** The records of one item, inside the transaction. *)
Fixpoint flush_records (d : dnsdb) (i : resultItem) (recs : list DNSRecord) : D dnsdb :=
  match recs with
  | [] => dret d
  | rec :: recs =>
      match record_row (ri_domain i) (ri_fetchedAt i) rec with
      | None => flush_records d i recs
      | Some r => let& _ := dnop in flush_records (mkDnsDb (fetch_log d) (dns_records d ++ [r])) i recs
      end
  end.

(** The database as the transaction sees it after the pending items. *)
Fixpoint flush_items (d : dnsdb) (items : list resultItem) : D dnsdb :=
  match items with
  | [] => dret d
  | i :: items =>
      let& _ := dnop in
      let '(d, n) := insert_log d i in
      if n =? 0 then flush_items d items
      else let& d := flush_records d i (ri_records i) in flush_items d items
  end.

Definition empty_dns : dnsdb := mkDnsDb [] [].

(** A failing statement rolls the transaction back; COMMIT makes it visible. *)
Definition dns_flush (k : shard) : D unit :=
  let& e := dget (fun w => w_entries w !! k) in
  match e with
  | None => dret tt
  | Some e =>
      match de_pending e with
      | [] => dret tt
      | items =>
          let& d := dget (fun w => default empty_dns (w_staging w !! shard_file k)) in
          let& _ := dnop in
          let& _ := dnop in
          let& d := flush_items d items in
          let& _ := dcall (fun w => (Ok tt, set_staging (<[shard_file k := d]> (w_staging w)) w)) in
          dmod (fun w => set_entries (<[k := mkEntry' [] (de_lastUsed e)]> (w_entries w)) w)
      end
  end.

(** The least recently used entry, in the order the map is iterated. *)
Fixpoint lru (l : list (shard * dbEntry)) (best : option (shard * Z)) : option (shard * Z) :=
  match l with
  | [] => best
  | (k, e) :: l =>
      match best with
      | Some (_, t) => if de_lastUsed e <? t then lru l (Some (k, de_lastUsed e)) else lru l best
      | None => lru l (Some (k, de_lastUsed e))
      end
  end.

Definition evictLRU : D unit :=
  let& victim := dget (fun w => lru (map_to_list (w_entries w)) None) in
  match victim with
  | None => dret tt
  | Some (k, _) =>
      let& _ := dns_flush k in
      dmod (fun w => set_entries (delete k (w_entries w)) w)
  end.

(** [dbPool.get]: the entry is in the pool afterwards. *)
Definition pool_get (k : shard) : D unit :=
  let& e := dget (fun w => w_entries w !! k) in
  match e with
  | Some e =>
      let& t := now in
      dmod (fun w => set_entries (<[k := mkEntry' (de_pending e) t]> (w_entries w)) w)
  | None =>
      let& n := dget (fun w => size (w_entries w)) in
      let& _ := if (maxOpenDBs <=? n)%nat then let& _ := dattempt evictLRU in dret tt else dret tt in
      let& _ := dnop in
      let& _ := dnop in
      let& _ := dcall (fun w => (Ok tt, set_staging (<[shard_file k := default empty_dns (w_staging w !! shard_file k)]> (w_staging w)) w)) in
      let& t := now in
      dmod (fun w => set_entries (<[k := mkEntry' [] t]> (w_entries w)) w)
  end.

Definition pool_write (i : resultItem) : D unit :=
  let k := ri_shard i in
  let& r := dattempt (pool_get k) in
  match r with
  | inr _ => dmod (add_dropped i)
  | inl _ =>
      let& t := now in
      let& e := dget (fun w => w_entries w !! k) in
      let items := match e with Some e => de_pending e | None => [] end ++ [i] in
      let& _ := dmod (fun w => set_entries (<[k := mkEntry' items t]> (w_entries w)) w) in
      if (dnsBatchSize <=? length items)%nat then let& _ := dattempt (dns_flush k) in dret tt else dret tt
  end.

Fixpoint flush_keys (ks : list shard) : D unit :=
  match ks with
  | [] => dret tt
  | k :: ks => let& _ := dattempt (dns_flush k) in flush_keys ks
  end.

Section Order.

(** The order in which the pool's map is iterated. *)
Variable key_order : gset shard -> list shard.

Definition flushAll : D unit := let& ks := dget (fun w => key_order (dom (w_entries w))) in flush_keys ks.

Fixpoint close_keys (ks : list shard) : D unit :=
  match ks with
  | [] => dret tt
  | k :: ks =>
      let& _ := dattempt (dns_flush k) in
      let& _ := dmod (fun w => set_entries (delete k (w_entries w)) w) in
      close_keys ks
  end.

Definition closeAll : D unit := let& ks := dget (fun w => key_order (dom (w_entries w))) in close_keys ks.

(** os.Rename of a staged file to its place in the output directory. *)
Definition rename_final (f : string * string) (w : wstate) : res unit * wstate :=
  match w_staging w !! f with
  | Some d => (Ok tt, set_final (<[f := DnsDB d]> (w_final w)) (set_staging (delete f (w_staging w)) w))
  | None => (Err ErrNotExist, w)
  end.

(** copyFile: opening the source, truncating the destination, copying. *)
Definition copyFile (f : string * string) : D unit :=
  let& src := dget (fun w => w_staging w !! f) in
  match src with
  | None => dfail ErrNotExist
  | Some d =>
      let& _ := dnop in
      let& _ := dcall (fun w => (Ok tt, set_final (<[f := DnsTorn]> (w_final w)) w)) in
      dcall (fun w => (Ok tt, set_final (<[f := DnsDB d]> (w_final w)) w))
  end.

(** The move of one shard's file. *)
Definition move_final (f : string * string) : D unit :=
  let& r := dattempt (dcall (rename_final f)) in
  match r with
  | inl _ => dret tt
  | inr _ =>
      let& _ := copyFile f in
      let& _ := dattempt (dcall (fun w => (Ok tt, set_staging (delete f (w_staging w)) w))) in
      dret tt
  end.

Definition first_err (a : option error) (e : error) : option error := match a with Some e => Some e | None => Some e end.

Fixpoint finalize_keys (ks : list shard) (firstErr : option error) : D (option error) :=
  match ks with
  | [] => dret firstErr
  | k :: ks =>
      let& r := dattempt (dns_flush k) in
      match r with
      | inr e => finalize_keys ks (first_err firstErr e)
      | inl _ =>
          let& _ := dattempt dnop in
          let& _ := dmod (fun w => set_entries (delete k (w_entries w)) w) in
          let& r := dattempt dnop in
          match r with
          | inr e => finalize_keys ks (first_err firstErr e)
          | inl _ =>
              let& r := dattempt (move_final (shard_file k)) in
              match r with
              | inr e => finalize_keys ks (first_err firstErr e)
              | inl _ => finalize_keys ks firstErr
              end
          end
      end
  end.

Definition finalizeAll : D (option error) :=
  let& ks := dget (fun w => key_order (dom (w_entries w))) in finalize_keys ks None.

(** runWriter: the items and the ticks in the order they come. *)
Inductive event := Item (i : resultItem) | Tick.

Fixpoint runWriter (events : list event) : D unit :=
  match events with
  | [] => flushAll
  | Item i :: events => let& _ := pool_write i in runWriter events
  | Tick :: events => let& _ := flushAll in runWriter events
  end.

(** What main does with the results of a run, clean or interrupted. *)
Definition write_results (clean : bool) (events : list event) : D (option error) :=
  let& _ := runWriter events in
  if clean then finalizeAll else let& _ := closeAll in dret None.

End Order.

(** *** The feeder (feed.go) *)

(** enumShards: the shard of a file below the shards directory, if it is one and
    it is asked for. *)
Definition shard_string (k : shard) : string := k.1 +:+ "/" +:+ k.2.

Definition enum_shard (onlyShard rel : string) : option shard :=
  if negb (has_suffix rel ".tsv") then None
  else
    let i := index_byte rel "/" in
    if i <? 0 then None
    else
      let key := (str_take i rel, trim_suffix (str_drop (i + 1) rel) ".tsv") in
      if negb (String.eqb onlyShard "") && negb (String.eqb (shard_string key) onlyShard) then None else Some key.

Definition maxSkip : Z := 1000000.

(** [None] is a database that is not there or cannot be read. *)
Definition loadSkipSet (d : option dnsdb) : gset string :=
  match d with
  | Some d => list_to_set (take (Z.to_nat (maxSkip + 1)) (map fl_domain (fetch_log d)))
  | None => ∅
  end.

Definition final_db (f : option dnsfile) : option dnsdb := match f with Some (DnsDB d) => Some d | _ => None end.

Definition line_domain (line : string) : string :=
  let t := index_byte line ht in if t <? 0 then line else str_take t line.

(** The domains of a shard file that are queued; a scanner error ends the file. *)
Fixpoint feed_lines (fuel : nat) (text : string) (skip : gset string) : list string :=
  match fuel with
  | O => []
  | S fuel =>
      match scan_line text with
      | None => []
      | Some (line, text) =>
          let domain := line_domain line in
          if String.eqb domain "" || bool_decide (domain ∈ skip) then feed_lines fuel text skip
          else domain :: feed_lines fuel text skip
      end
  end.

(** Each turn takes a line off the file. *)
Definition feed_shard (w : wstate) (k : shard) (text : string) : list workItem :=
  let skip := loadSkipSet (w_staging w !! shard_file k) in
  let skip := if bool_decide (skip = ∅) then loadSkipSet (final_db (w_final w !! shard_file k)) else skip in
  map (fun d => mkWork d k) (feed_lines (S (String.length text)) text skip).

(** The shard files in the order they were shuffled; one that cannot be opened is
    passed over. *)
Definition runFeeder (w : wstate) (shards : list (shard * option string)) : list workItem :=
  shards ≫= (fun s => match s.2 with Some text => feed_shard w s.1 text | None => [] end).
