(* ===== verification/DnsWriter.v ===== *)
(** The writer of cmd/dnsfetch: every item goes into its shard's database whole or
    not at all, and none is lost but by a failure to open the database; a clean
    run without failures moves exactly the staged databases with their items. *)

From S2P Require Import Prelude GoStd FileSys Sha256 Sql RowCell LogClient Leaf Export Dnsfetch.

#[local] Open Scope dns_scope.

(** ** Specifications *)

(** What the writer makes of an item: nothing if its domain is logged. *)
Definition item_rows (i : resultItem) : list dns_row := omap (record_row (ri_domain i) (ri_fetchedAt i)) (ri_records i).

Definition log_item (d : dnsdb) (i : resultItem) : dnsdb :=
  if bool_decide (ri_domain i ∈ map fl_domain (fetch_log d)) then d
  else mkDnsDb (fetch_log d ++ [mkLogRow (ri_domain i) (ri_status i) (ri_fetchedAt i)]) (dns_records d ++ item_rows i).

Definition log_items (d : dnsdb) (items : list resultItem) : dnsdb := foldl log_item d items.

Definition staged (w : wstate) (f : string * string) : dnsdb := default empty_dns (w_staging w !! f).

Definition item_file (i : resultItem) : string * string := shard_file (ri_shard i).

Definition logged_in (w : wstate) (i : resultItem) : Prop := ri_domain i ∈ map fl_domain (fetch_log (staged w (item_file i))).

Definition pending_in (w : wstate) (i : resultItem) : Prop := exists e, w_entries w !! ri_shard i = Some e /\ i ∈ de_pending e.

(** The staged databases are what they were and some of the items, each whole;
    an item of [done] is logged, or pending, or was given up. *)
Record writer_inv (w0 : wstate) (all done : list resultItem) (w : wstate) : Prop := {
  wi_logs : forall f, exists sel, Forall (fun i => i ∈ all /\ item_file i = f) sel /\ staged w f = log_items (staged w0 f) sel;
  wi_pending : forall k e, w_entries w !! k = Some e -> Forall (fun i => i ∈ all /\ ri_shard i = k) (de_pending e);
  wi_done : forall i, i ∈ done -> i ∈ w_dropped w \/ logged_in w i \/ pending_in w i;
  wi_final : w_final w = w_final w0 }.

(** ** Lemmas *)

(** *** Reasoning over every plan of failures, and over none *)

Definition dwp {A} (m : D A) (Q : res A -> wstate -> Prop) (w : wstate) : Prop := forall fl, Q (m w fl).1.1 (m w fl).1.2.

Lemma dwp_ret {A} (a : A) (Q : res A -> wstate -> Prop) w : Q (Ok a) w -> dwp (dret a) Q w.
Proof. by intros H fl. Qed.

Lemma dwp_mono {A} (m : D A) (Q Q' : res A -> wstate -> Prop) w : dwp m Q w -> (forall r w', Q r w' -> Q' r w') -> dwp m Q' w.
Proof. intros H HQ fl. by apply HQ. Qed.

Lemma dwp_bind {A B} (m : D A) (k : A -> D B) (Q : res B -> wstate -> Prop) w :
  dwp m (fun r w' => match r with Ok a => dwp (k a) Q w' | Err e => Q (Err e) w' | Panic => Q Panic w' end) w -> dwp (dbind m k) Q w.
Proof. intros H fl. specialize (H fl). unfold dbind. destruct (m w fl) as [[[a|e|] w'] fl']; cbn in *; [apply H|done..]. Qed.

Lemma dwp_attempt {A} (m : D A) (Q : res (A + error) -> wstate -> Prop) w :
  dwp m (fun r w' => match r with Ok a => Q (Ok (inl a)) w' | Err e => Q (Ok (inr e)) w' | Panic => Q Panic w' end) w -> dwp (dattempt m) Q w.
Proof. intros H fl. specialize (H fl). unfold dattempt. by destruct (m w fl) as [[[a|e|] w'] fl']. Qed.

Lemma dwp_get {A B} (f : wstate -> A) (k : A -> D B) (Q : res B -> wstate -> Prop) w : dwp (k (f w)) Q w -> dwp (dbind (dget f) k) Q w.
Proof. intros H. apply dwp_bind. by intros fl. Qed.

Lemma dwp_now {B} (k : Z -> D B) (Q : res B -> wstate -> Prop) w :
  dwp (k (w_clock w + 1)) Q (mkW (w_entries w) (w_staging w) (w_final w) (w_clock w + 1) (w_dropped w)) -> dwp (dbind now k) Q w.
Proof. intros H. apply dwp_bind. by intros fl. Qed.

Lemma dwp_mod (f : wstate -> wstate) (Q : res unit -> wstate -> Prop) w : Q (Ok tt) (f w) -> dwp (dmod f) Q w.
Proof. by intros H fl. Qed.

Lemma dwp_call f (Q : res unit -> wstate -> Prop) w : Q (Err ErrSyscall) w -> Q Panic w -> Q (f w).1 (f w).2 -> dwp (dcall f) Q w.
Proof. intros H1 H2 H3 [|[] fl]; cbn; done. Qed.

Lemma dwp_nop (Q : res unit -> wstate -> Prop) w : (forall r, Q r w) -> dwp dnop Q w.
Proof. intros H. by apply dwp_call. Qed.

Lemma dwp_run {A} (m : D A) (Q : res A -> wstate -> Prop) w fl r w' fl' : dwp m Q w -> m w fl = (r, w', fl') -> Q r w'.
Proof. intros H E. specialize (H fl). by rewrite E in H. Qed.

(** *** Databases *)

Lemma log_item_keeps d i x : x ∈ map fl_domain (fetch_log d) -> x ∈ map fl_domain (fetch_log (log_item d i)).
Proof. unfold log_item. case_bool_decide; [done|]. cbn. rewrite map_app. intros Hx. apply elem_of_app. by left. Qed.

Lemma log_items_keeps d items x : x ∈ map fl_domain (fetch_log d) -> x ∈ map fl_domain (fetch_log (log_items d items)).
Proof. revert d. induction items as [|i items IH]; intros d Hx; [done|]. by apply IH, log_item_keeps. Qed.

Lemma log_items_logged d items i : i ∈ items -> ri_domain i ∈ map fl_domain (fetch_log (log_items d items)).
Proof.
  revert d. induction items as [|j items IH]; intros d; [by intros ?%elem_of_nil|].
  intros [->|Hi]%elem_of_cons; [|by apply IH]. apply (log_items_keeps (log_item d j)). unfold log_item. case_bool_decide; [done|].
  cbn. rewrite map_app. apply elem_of_app. right. by left.
Qed.

Lemma log_items_app d a b : log_items d (a ++ b) = log_items (log_items d a) b.
Proof. apply foldl_app. Qed.

Lemma flush_records_wp d i recs w :
  dwp (flush_records d i recs) (fun r w' => w' = w /\ forall d', r = Ok d' ->
    d' = mkDnsDb (fetch_log d) (dns_records d ++ omap (record_row (ri_domain i) (ri_fetchedAt i)) recs)) w.
Proof.
  revert d. induction recs as [|rec recs IH]; intros d; cbn [flush_records omap list_omap].
  { apply dwp_ret. split; [done|]. intros ? [= <-]. rewrite app_nil_r. by destruct d. }
  destruct (record_row _ _ rec) as [row|]; [|apply IH]. apply dwp_bind, dwp_nop. intros [[]|e|]; [|by split..].
  eapply dwp_mono; [apply IH|]. intros r w' [-> H]. split; [done|]. intros d' E. rewrite (H d' E). cbn. by rewrite <- app_assoc.
Qed.

Lemma flush_items_wp d items w : dwp (flush_items d items) (fun r w' => w' = w /\ forall d', r = Ok d' -> d' = log_items d items) w.
Proof.
  revert d. induction items as [|i items IH]; intros d; cbn [flush_items log_items foldl].
  { apply dwp_ret. split; [done|]. by intros ? [= <-]. }
  apply dwp_bind, dwp_nop. intros [[]|e|]; [|by split..]. unfold insert_log, log_item. case_bool_decide; cbn [Z.eqb]; [apply IH|].
  apply dwp_bind. eapply dwp_mono; [apply flush_records_wp|]. intros [d1|e|] w' [-> H1]; [|by split..].
  rewrite (H1 d1 eq_refl). cbn [fetch_log dns_records]. apply IH.
Qed.

(** *** The writer under failures *)

Section Inv.

Context (w0 : wstate) (all : list resultItem).

#[local] Abbreviation inv := (writer_inv w0 all).

Lemma staged_set w f d g : staged (set_staging (<[f := d]> (w_staging w)) w) g = if decide (f = g) then d else staged w g.
Proof. unfold staged. cbn. case_decide as E; [subst g; by rewrite lookup_insert_eq|by rewrite lookup_insert_ne]. Qed.

(** Only an entry that keeps its items is replaced. *)
Lemma inv_entry done w k e : inv done w -> Forall (fun i => i ∈ all /\ ri_shard i = k) (de_pending e) ->
  (forall i, i ∈ done -> ri_shard i = k -> pending_in w i -> i ∈ de_pending e \/ logged_in w i) ->
  inv done (set_entries (<[k := e]> (w_entries w)) w).
Proof.
  intros [H1 H2 H3 H4] He Hk. split; [exact H1| | |done].
  - intros k' e'. cbn [set_entries w_entries]. intros [[<- <-]|[_ H]]%lookup_insert_Some; [done|by eapply H2].
  - intros i Hi. destruct (H3 i Hi) as [?|[?|Hp]]; [by left|right; by left|]. right.
    destruct (decide (ri_shard i = k)) as [E|E].
    + destruct (Hk i Hi E Hp) as [Hin|Hl]; [right|by left]. exists e. cbn. by rewrite E, lookup_insert_eq.
    + right. destruct Hp as (e' & He' & Hin). exists e'. cbn. by rewrite lookup_insert_ne.
Qed.

(** The pending items of an entry are committed. *)
Lemma inv_commit done w k e : inv done w -> w_entries w !! k = Some e ->
  let w' := set_staging (<[shard_file k := log_items (staged w (shard_file k)) (de_pending e)]> (w_staging w)) w in
  inv done w' /\ inv done (set_entries (<[k := mkEntry' [] (de_lastUsed e)]> (w_entries w')) w').
Proof.
  intros H He w'. pose proof H as [H1 H2 H3 H4]. assert (Hlog : forall i, logged_in w i -> logged_in w' i).
  { intros i. unfold logged_in, w'. rewrite staged_set. case_decide as E; [rewrite <- E; by apply log_items_keeps|done]. }
  assert (Hpend : forall i, ri_shard i = k -> i ∈ de_pending e -> logged_in w' i).
  { intros i Ei Hi. unfold logged_in, w', item_file. rewrite staged_set, Ei, decide_True by done. by apply log_items_logged. }
  assert (Hw : inv done w').
  { split; [|exact H2| |exact H4].
    - intros f. destruct (H1 f) as (sel & Hs & E). unfold w'. rewrite staged_set. case_decide as Ef; [|by exists sel]. subst f.
      exists (sel ++ de_pending e). split; [|by rewrite log_items_app, <- E]. apply Forall_app. split; [done|].
      eapply Forall_impl; [by eapply H2|]. intros i [Hi <-]. done.
    - intros i Hi. destruct (H3 i Hi) as [?|[?|?]]; [by left|right; left; by apply Hlog|right; by right]. }
  split; [done|]. apply inv_entry; [done|constructor|]. intros i _ Ei (e' & He' & Hi). right.
  cbn in He'. rewrite Ei, He in He'. injection He' as <-. by apply Hpend.
Qed.

(** What a flush leaves of the pool: the same entries, this one empty on success. *)
Definition flushed_pool (k : shard) (w w' : wstate) (r : res unit) : Prop :=
  dom (w_entries w') = dom (w_entries w) /\ (forall k', k' <> k -> w_entries w' !! k' = w_entries w !! k') /\
  (r = Ok tt -> forall e, w_entries w' !! k = Some e -> de_pending e = []).

Lemma flush_wp done w k : inv done w -> dwp (dns_flush k) (fun r w' => inv done w' /\ flushed_pool k w w' r) w.
Proof.
  intros H. assert (Hsame : forall r : res unit, is_ok r = false -> inv done w /\ flushed_pool k w w r).
  { intros r Hr. split; [done|]. split; [done|]. split; [done|]. by intros ->. }
  apply dwp_get. destruct (w_entries w !! k) as [e|] eqn:He; last first.
  { apply dwp_ret. split; [done|]. split; [done|]. split; [done|]. intros _ e. congruence. }
  destruct (de_pending e) as [|i items] eqn:Ei.
  { apply dwp_ret. split; [done|]. split; [done|]. split; [done|]. intros _ e'. rewrite He. by intros [= <-]. }
  apply dwp_get. do 2 (apply dwp_bind, dwp_nop; intros [[]|?|]; [|by apply Hsame..]).
  apply dwp_bind. eapply dwp_mono; [apply flush_items_wp|]. intros [d|?|] w' [-> Hd]; [|by apply Hsame..]. rewrite (Hd d eq_refl).
  destruct (inv_commit done w k e H He) as [_ H2]. rewrite Ei in H2. apply dwp_bind, dwp_call; [by apply Hsame..|]. cbn [fst snd].
  apply dwp_mod. split; [exact H2|]. split; [|split].
  - cbn. rewrite dom_insert_L. apply elem_of_dom_2 in He. set_solver.
  - intros k' Hk'. cbn. by rewrite lookup_insert_ne.
  - intros _ e'. cbn. rewrite lookup_insert_eq. by intros [= <-].
Qed.

Lemma inv_delete done w k : inv done w -> (forall e, w_entries w !! k = Some e -> de_pending e = []) -> inv done (set_entries (delete k (w_entries w)) w).
Proof.
  intros [H1 H2 H3 H4] Hk. split; [exact H1| | |done].
  - intros k' e'. cbn. rewrite lookup_delete_Some. intros [_ H]. by eapply H2.
  - intros i Hi. destruct (H3 i Hi) as [?|[?|(e & He & Hin)]]; [by left|right; by left|]. right. right. exists e. split; [|done]. cbn.
    rewrite lookup_delete_ne; [done|]. intros E. rewrite <- E in He. rewrite (Hk e He) in Hin. by apply elem_of_nil in Hin.
Qed.

Lemma evict_wp done w : inv done w -> dwp evictLRU (fun r w' => inv done w' /\ dom (w_entries w') ⊆ dom (w_entries w)) w.
Proof.
  intros H. apply dwp_get. destruct (lru _ _) as [[k t]|]; [|by apply dwp_ret].
  apply dwp_bind. eapply dwp_mono; [by apply flush_wp|]. intros [[]|e|] w' [H' (Hd & _ & Hf)]; [|by rewrite <- Hd..].
  apply dwp_mod. split; [apply inv_delete; [done|]; by apply Hf|]. cbn. rewrite <- Hd. set_solver.
Qed.

Lemma inv_clock done w c : inv done w -> inv done (mkW (w_entries w) (w_staging w) (w_final w) c (w_dropped w)).
Proof. intros [H1 H2 H3 H4]. by split. Qed.

Lemma inv_create done w f : inv done w -> inv done (set_staging (<[f := staged w f]> (w_staging w)) w).
Proof.
  intros [H1 H2 H3 H4]. assert (E : forall g, staged (set_staging (<[f := staged w f]> (w_staging w)) w) g = staged w g).
  { intros g. rewrite staged_set. case_decide as Ef; [by rewrite Ef|done]. }
  split; [|exact H2| |done].
  - intros g. rewrite E. apply H1.
  - intros i Hi. unfold logged_in. rewrite E. exact (H3 i Hi).
Qed.

Lemma get_wp done w k : inv done w -> dwp (pool_get k) (fun r w' => inv done w') w.
Proof.
  intros H. apply dwp_get. destruct (w_entries w !! k) as [e|] eqn:He.
  - apply dwp_now, dwp_mod. apply (inv_entry done (mkW _ _ _ _ _)); [by apply inv_clock|exact (wi_pending _ _ _ _ H k e He)|].
    cbn. intros i _ E (e' & He' & Hi). left. cbn in He'. rewrite E, He in He'. by injection He' as <-.
  - apply dwp_get, dwp_bind. apply dwp_mono with (Q := fun _ w' => inv done w' /\ w_entries w' !! k = None).
    { destruct (_ <=? _)%nat; [|by apply dwp_ret]. apply dwp_bind, dwp_attempt. eapply dwp_mono; [by apply evict_wp|].
      assert (Hn : forall w', inv done w' /\ dom (w_entries w') ⊆ dom (w_entries w) -> inv done w' /\ w_entries w' !! k = None).
      { intros w' [H' Hd]. split; [done|]. apply not_elem_of_dom. apply not_elem_of_dom in He. set_solver. }
      intros [[]|e|] w' H'; [by apply dwp_ret, Hn..|by apply Hn]. }
    intros [[]|e|] w1 [H1 Hk]; [|done..]. do 2 (apply dwp_bind, dwp_nop; intros [[]|?|]; [|done..]). apply dwp_bind, dwp_call; [done..|]. cbn [fst snd].
    apply dwp_now, dwp_mod.
    pose proof (inv_create done w1 (shard_file k) H1) as H2. unfold staged at 1 in H2.
    apply (inv_entry done (mkW _ _ _ _ _)); [by apply (inv_clock done (set_staging _ w1))|constructor|].
    intros i Hi E (e & He' & _). cbn in He'. rewrite E in He'. congruence.
Qed.

Lemma inv_dropped done w i : inv done w -> inv (done ++ [i]) (add_dropped i w).
Proof.
  intros [H1 H2 H3 H4]. split; [exact H1|exact H2| |done]. intros j [Hj|Hj%list_elem_of_singleton]%elem_of_app.
  - destruct (H3 j Hj) as [?|?]; [left; apply elem_of_app; by left|by right].
  - subst j. left. apply elem_of_app. right. by left.
Qed.

(** An item joins the pending ones of its shard. *)
Lemma inv_pending done w i t : inv done w -> i ∈ all ->
  let items := match w_entries w !! ri_shard i with Some e => de_pending e | None => [] end ++ [i] in
  inv (done ++ [i]) (set_entries (<[ri_shard i := mkEntry' items t]> (w_entries w)) w).
Proof.
  intros H Hi items. assert (Ha : inv done (set_entries (<[ri_shard i := mkEntry' items t]> (w_entries w)) w)).
  { apply inv_entry; [done| |].
    - cbn. unfold items. apply Forall_app. split; [|by constructor].
      destruct (w_entries w !! ri_shard i) as [e|] eqn:He; [by eapply (wi_pending _ _ _ _ H)|constructor].
    - intros j _ Ej (e & He & Hin). left. cbn. unfold items. rewrite Ej in He. rewrite He. apply elem_of_app. by left. }
  destruct Ha as [H1 H2 H3 H4]. split; [done|done| |done]. intros j [Hj|Hj%list_elem_of_singleton]%elem_of_app; [by apply H3|]. subst j.
  right. right. eexists. split; [cbn; apply lookup_insert_eq|]. cbn. apply elem_of_app. right. by left.
Qed.

Lemma write_wp done w i : inv done w -> i ∈ all -> dwp (pool_write i) (fun r w' => if is_ok r then inv (done ++ [i]) w' else inv done w') w.
Proof.
  intros H Hi. apply dwp_bind, dwp_attempt. eapply dwp_mono; [by apply get_wp|]. intros [[]|e|] w1 H1; [| |done].
  - apply (inv_clock _ _ (w_clock w1 + 1)) in H1. apply dwp_now. set (w2 := mkW _ _ _ _ _) in *.
    apply dwp_get. cbn zeta. apply dwp_bind, dwp_mod. pose proof (inv_pending done w2 i (w_clock w1 + 1) H1 Hi) as H2. cbn zeta in H2.
    destruct (_ <=? _)%nat; [|by apply dwp_ret]. apply dwp_bind, dwp_attempt. eapply dwp_mono; [by apply flush_wp|].
    assert (Hold : forall w', inv (done ++ [i]) w' -> inv done w').
    { intros w' [A1 A2 A3 A4]. split; [done|done| |done]. intros j Hj. apply A3, elem_of_app. by left. }
    intros [[]|e|] w3 [H3 _]; [by apply dwp_ret..|by apply Hold].
  - apply dwp_mod. cbn. by apply inv_dropped.
Qed.

Lemma flush_keys_wp done ks w : inv done w -> dwp (flush_keys ks) (fun _ w' => inv done w') w.
Proof.
  revert w. induction ks as [|k ks IH]; intros w H; cbn [flush_keys]; [by apply dwp_ret|].
  apply dwp_bind, dwp_attempt. eapply dwp_mono; [by apply flush_wp|]. intros [[]|e|] w' [H' _]; [by apply IH..|done].
Qed.

Definition event_items (events : list event) : list resultItem := omap (fun ev => match ev with Item i => Some i | Tick => None end) events.

Lemma run_writer_wp key_order events done w : inv done w -> (forall i, i ∈ event_items events -> i ∈ all) ->
  dwp (runWriter key_order events) (fun r w' => (exists done', inv done' w') /\ (is_ok r = true -> inv (done ++ event_items events) w')) w.
Proof.
  assert (Hflush : forall done w, inv done w -> dwp (flushAll key_order) (fun _ w' => inv done w') w).
  { intros dn v Hv. apply dwp_get. by apply flush_keys_wp. }
  revert done w. induction events as [|[i|] events IH]; intros done w H Hall; cbn [runWriter].
  - eapply dwp_mono; [by apply Hflush|]. intros r w' H'. rewrite app_nil_r. split; [by exists done|by intros _].
  - apply dwp_bind. eapply dwp_mono; [apply write_wp; [done|apply Hall; by left]|]. intros [[]|e|] w' H'; cbn [is_ok] in H'; [|by (split; [by exists done|])..].
    eapply dwp_mono; [apply (IH _ _ H'); intros j Hj; apply Hall; by right|]. intros r w2 [H1 H2]. split; [done|].
    change (event_items (Item i :: events)) with ([i] ++ event_items events). by rewrite app_assoc.
  - apply dwp_bind. eapply dwp_mono; [by apply Hflush|]. intros [[]|e|] w' H'; [by apply IH|by (split; [by exists done|])..].
Qed.

End Inv.

Lemma log_items_unique d items : NoDup (map fl_domain (fetch_log d)) -> NoDup (map fl_domain (fetch_log (log_items d items))).
Proof.
  revert d. induction items as [|i items IH]; intros d Hd; [done|]. apply (IH (log_item d i)). unfold log_item.
  case_bool_decide as Hi; [done|]. cbn. rewrite map_app. apply NoDup_app. split; [done|]. split; [|apply NoDup_singleton].
  intros x Hx ->%list_elem_of_singleton. done.
Qed.

(** *** The writer without failures *)

Definition dquiet {A} (m : D A) (Q : A -> wstate -> Prop) (w : wstate) : Prop := exists a w', m w [] = (Ok a, w', []) /\ Q a w'.

Lemma dq_ret {A} (a : A) (Q : A -> wstate -> Prop) w : Q a w -> dquiet (dret a) Q w.
Proof. intros H. by exists a, w. Qed.

Lemma dq_mono {A} (m : D A) (Q Q' : A -> wstate -> Prop) w : dquiet m Q w -> (forall a w', Q a w' -> Q' a w') -> dquiet m Q' w.
Proof. intros (a & w' & E & H) HQ. exists a, w'. auto. Qed.

Lemma dq_bind {A B} (m : D A) (k : A -> D B) Q w : dquiet m (fun a w' => dquiet (k a) Q w') w -> dquiet (dbind m k) Q w.
Proof. intros (a & w' & E & b & w'' & E' & H). exists b, w''. unfold dbind. by rewrite E. Qed.

Lemma dq_attempt {A} (m : D A) (Q : A + error -> wstate -> Prop) w : dquiet m (fun a w' => Q (inl a) w') w -> dquiet (dattempt m) Q w.
Proof. intros (a & w' & E & H). exists (inl a), w'. unfold dattempt. by rewrite E. Qed.

Lemma dq_get {A B} (f : wstate -> A) (k : A -> D B) Q w : dquiet (k (f w)) Q w -> dquiet (dbind (dget f) k) Q w.
Proof. intros H. by apply dq_bind; exists (f w), w. Qed.

Lemma dq_now {B} (k : Z -> D B) Q w :
  dquiet (k (w_clock w + 1)) Q (mkW (w_entries w) (w_staging w) (w_final w) (w_clock w + 1) (w_dropped w)) -> dquiet (dbind now k) Q w.
Proof. intros H. apply dq_bind. by eexists _, _. Qed.

Lemma dq_mod (f : wstate -> wstate) (Q : unit -> wstate -> Prop) w : Q tt (f w) -> dquiet (dmod f) Q w.
Proof. intros H. by exists tt, (f w). Qed.

Lemma dq_call f w' (Q : unit -> wstate -> Prop) w : f w = (Ok tt, w') -> Q tt w' -> dquiet (dcall f) Q w.
Proof. intros E H. exists tt, w'. cbn. by rewrite E. Qed.

Lemma dq_nop (Q : unit -> wstate -> Prop) w : Q tt w -> dquiet dnop Q w.
Proof. by apply dq_call. Qed.

Lemma flush_records_quiet d i recs (Q : dnsdb -> wstate -> Prop) w :
  Q (mkDnsDb (fetch_log d) (dns_records d ++ omap (record_row (ri_domain i) (ri_fetchedAt i)) recs)) w -> dquiet (flush_records d i recs) Q w.
Proof.
  revert d. induction recs as [|rec recs IH]; intros d; cbn [flush_records omap list_omap].
  { rewrite app_nil_r. destruct d. by apply dq_ret. }
  destruct (record_row _ _ rec) as [row|]; [|by apply IH]. intros H. apply dq_bind, dq_nop, IH. cbn. by rewrite <- app_assoc.
Qed.

Lemma flush_items_quiet d items (Q : dnsdb -> wstate -> Prop) w : Q (log_items d items) w -> dquiet (flush_items d items) Q w.
Proof.
  revert d. induction items as [|i items IH]; intros d; cbn [flush_items log_items foldl]; [by apply dq_ret|]. intros H. apply dq_bind, dq_nop.
  change (Q (log_items (log_item d i) items) w) in H. revert H. unfold insert_log, log_item.
  case_bool_decide as Hd; cbn [Z.eqb]; intros H; [by apply IH|]. by apply dq_bind, flush_records_quiet, IH.
Qed.

Section Quiet.

Context (w0 : wstate).

Definition of_shard (k : shard) (items : list resultItem) : list resultItem := filter (fun i => ri_shard i = k) items.

(** What the items make of their shard's database. *)
Definition expected (items : list resultItem) (k : shard) : dnsdb := log_items (staged w0 (shard_file k)) (of_shard k items).

(** The pool has the shards of [items], and sees each as it is to become; no two
    of its shards share a file. *)
Record quiet_inv (items : list resultItem) (w : wstate) : Prop := {
  qi_keys : forall k, k ∈ dom (w_entries w) <-> k ∈ map ri_shard items;
  qi_db : forall k e, w_entries w !! k = Some e -> exists d, w_staging w !! shard_file k = Some d /\ log_items d (de_pending e) = expected items k;
  qi_other : forall f, (forall k, k ∈ map ri_shard items -> shard_file k <> f) -> w_staging w !! f = w_staging w0 !! f;
  qi_final : w_final w = w_final w0;
  qi_dropped : w_dropped w = w_dropped w0 }.

Context (ks : gset shard).
Hypothesis Hfiles : forall k k', k ∈ ks -> k' ∈ ks -> shard_file k = shard_file k' -> k = k'.
Hypothesis Hmany : (size ks <= maxOpenDBs)%nat.

Lemma flush_local w k e d (Q : unit -> wstate -> Prop) : w_entries w !! k = Some e -> w_staging w !! shard_file k = Some d ->
  (forall w', w_entries w' = <[k := mkEntry' [] (de_lastUsed e)]> (w_entries w) ->
    w_staging w' = <[shard_file k := log_items d (de_pending e)]> (w_staging w) -> w_final w' = w_final w -> w_dropped w' = w_dropped w -> Q tt w') ->
  dquiet (dns_flush k) Q w.
Proof.
  intros He Hd HQ. apply dq_get. rewrite He. destruct (de_pending e) as [|i l] eqn:Ep.
  - apply dq_ret, HQ; [|by rewrite insert_id|done..]. rewrite insert_id; [done|]. rewrite He. destruct e. cbn in Ep |- *. by rewrite Ep.
  - apply dq_get. rewrite Hd. do 2 apply dq_bind, dq_nop. apply dq_bind, flush_items_quiet. cbn [from_option id].
    apply dq_bind. eapply dq_call; [done|]. apply dq_mod. by apply HQ.
Qed.

Lemma items_in_ks items k : (forall i, i ∈ items -> ri_shard i ∈ ks) -> k ∈ map ri_shard items -> k ∈ ks.
Proof. intros H (j & -> & Hj)%list_elem_of_fmap. by apply H. Qed.

Lemma pool_flush_quiet items w k : quiet_inv items w -> (forall i, i ∈ items -> ri_shard i ∈ ks) ->
  dquiet (dns_flush k) (fun _ w' => quiet_inv items w') w.
Proof.
  intros H Hks. destruct (w_entries w !! k) as [e|] eqn:He; [|apply dq_get; rewrite He; by apply dq_ret].
  destruct (qi_db _ _ H k e He) as (d & Hd & Hx). apply (flush_local w k e d); [done..|]. intros w' E1 E2 E3 E4.
  assert (Hk : k ∈ map ri_shard items) by (apply (qi_keys _ _ H); by eapply elem_of_dom_2).
  split; [| | |by rewrite E3; apply H|by rewrite E4; apply H].
  - rewrite E1, dom_insert_L. intros k'. rewrite elem_of_union, elem_of_singleton, (qi_keys _ _ H). naive_solver.
  - rewrite E1, E2. intros k' e' [[<- <-]|[Hne H']]%lookup_insert_Some; [exists (expected items k); rewrite Hx; split; [apply lookup_insert_eq|done]|].
    destruct (qi_db _ _ H k' e' H') as (d' & Hd' & Hx'). exists d'. split; [|done]. rewrite lookup_insert_ne; [done|].
    intros E. apply Hne, Hfiles; [by eapply items_in_ks| |done]. apply elem_of_dom_2, (qi_keys _ _ H) in H'. by eapply items_in_ks.
  - intros f Hf. rewrite E2, lookup_insert_ne; [by apply (qi_other _ _ H)|]. by apply Hf.
Qed.

Lemma flush_keys_quiet items l w : quiet_inv items w -> (forall i, i ∈ items -> ri_shard i ∈ ks) ->
  dquiet (flush_keys l) (fun _ w' => quiet_inv items w') w.
Proof.
  intros H Hks. revert w H. induction l as [|k l IH]; intros w H; cbn [flush_keys]; [by apply dq_ret|].
  apply dq_bind, dq_attempt. eapply dq_mono; [by apply pool_flush_quiet|]. intros [] w' H'. by apply IH.
Qed.

(** A shard's entry, opened if need be. *)
Lemma get_quiet items w k : quiet_inv items w -> (forall i, i ∈ items -> ri_shard i ∈ ks) -> k ∈ ks ->
  dquiet (pool_get k) (fun _ w' => exists e d, w_entries w' !! k = Some e /\ w_staging w' !! shard_file k = Some d /\
    log_items d (de_pending e) = expected items k /\
    (forall k', k' <> k -> w_entries w' !! k' = w_entries w !! k') /\ (forall f, f <> shard_file k -> w_staging w' !! f = w_staging w !! f) /\
    w_final w' = w_final w /\ w_dropped w' = w_dropped w) w.
Proof.
  intros H Hks Hk. apply dq_get. destruct (w_entries w !! k) as [e|] eqn:He.
  - apply dq_now, dq_mod. destruct (qi_db _ _ H k e He) as (d & Hd & Hx). exists (mkEntry' (de_pending e) (w_clock w + 1)), d. cbn.
    split; [apply lookup_insert_eq|]. split; [done|]. split; [done|]. split; [|done]. intros k' Hk'. by rewrite lookup_insert_ne.
  - apply dq_get, dq_bind. assert (Hsub : dom (w_entries w) ⊆ ks ∖ {[k]}).
    { intros k' Hk'. apply elem_of_difference. split.
      - apply (qi_keys _ _ H), list_elem_of_fmap in Hk' as (j & -> & Hj). by apply Hks.
      - intros ->%elem_of_singleton. apply elem_of_dom in Hk'. rewrite He in Hk'. by destruct Hk'. }
    assert (Hlt : (size (w_entries w) < maxOpenDBs)%nat).
    { rewrite <- size_dom. apply subseteq_size in Hsub. rewrite size_difference in Hsub by set_solver. rewrite size_singleton in Hsub.
      assert (size ks <> 0%nat) by (intros E; apply size_empty_inv in E; set_solver). lia. }
    destruct (Nat.leb_spec maxOpenDBs (size (w_entries w))); [lia|]. apply dq_ret. do 2 apply dq_bind, dq_nop. apply dq_bind.
    eapply dq_call; [done|]. apply dq_now, dq_mod. eexists _, _. cbn. split; [apply lookup_insert_eq|]. split; [apply lookup_insert_eq|].
    assert (Hnk : k ∉ map ri_shard items) by (intros Hin; apply (qi_keys _ _ H), elem_of_dom in Hin; rewrite He in Hin; by destruct Hin).
    split; [|split_and!; try done; intros; by rewrite lookup_insert_ne]. cbn. unfold expected, of_shard, staged.
    replace (filter (fun i => ri_shard i = k) items) with (@nil resultItem).
    + cbn. f_equal. apply (qi_other _ _ H). intros k' Hin E. apply Hnk. apply Hfiles in E as <-; [done| |done].
      apply list_elem_of_fmap in Hin as (j & -> & Hj). by apply Hks.
    + destruct (filter _ items) as [|x l] eqn:E; [done|]. assert (Hx : x ∈ filter (fun i => ri_shard i = k) items) by (rewrite E; by left).
      apply list_elem_of_filter in Hx as [Ex Hx]. destruct Hnk. rewrite <- Ex. by apply list_elem_of_fmap_2.
Qed.

Lemma expected_snoc items i k : expected (items ++ [i]) k =
  if decide (ri_shard i = k) then log_item (expected items k) i else expected items k.
Proof.
  unfold expected, of_shard. rewrite filter_app, log_items_app, filter_cons, filter_nil. by case_decide.
Qed.

Lemma pool_write_quiet items w i : quiet_inv items w -> (forall j, j ∈ items ++ [i] -> ri_shard j ∈ ks) ->
  dquiet (pool_write i) (fun _ w' => quiet_inv (items ++ [i]) w') w.
Proof.
  intros H Hks. assert (Hk : ri_shard i ∈ ks) by (apply Hks, elem_of_app; right; by left).
  assert (Hks' : forall j, j ∈ items -> ri_shard j ∈ ks) by (intros j Hj; apply Hks, elem_of_app; by left).
  apply dq_bind, dq_attempt. eapply dq_mono; [by eapply get_quiet|]. intros [] w1 (e & d & He & Hd & Hx & Hother & Hst & Hf & Hdr).
  apply dq_now, dq_get. cbn [w_entries]. rewrite He. cbn zeta. apply dq_bind, dq_mod. set (w2 := set_entries _ _).
  assert (H2 : quiet_inv (items ++ [i]) w2).
  { split; [| | |by rewrite <- (qi_final _ _ H)|by rewrite <- (qi_dropped _ _ H)].
    - intros k. rewrite elem_of_dom. cbn. rewrite lookup_insert_is_Some, map_app, elem_of_app. cbn. rewrite list_elem_of_singleton.
      destruct (decide (k = ri_shard i)) as [->|Hne]; [tauto|]. rewrite (Hother k Hne), <- elem_of_dom, (qi_keys _ _ H). naive_solver.
    - intros k e'. cbn. rewrite expected_snoc. intros [[<- <-]|[Hne He']]%lookup_insert_Some.
      + exists d. split; [done|]. cbn. rewrite decide_True, log_items_app, Hx by done. done.
      + rewrite decide_False by done. rewrite (Hother k) in He' by done. destruct (qi_db _ _ H k e' He') as (d' & Hd' & Hx').
        exists d'. split; [|done]. rewrite Hst; [done|]. intros E. apply Hne. apply Hfiles; [done| |by symmetry].
        apply elem_of_dom_2, (qi_keys _ _ H), list_elem_of_fmap in He' as (j & -> & Hj). by apply Hks'.
    - intros f Hf'. cbn. rewrite map_app in Hf'. rewrite Hst; [apply (qi_other _ _ H)|].
      + intros k Hin. apply Hf', elem_of_app. by left.
      + intros ->. apply (Hf' (ri_shard i)); [|done]. apply elem_of_app. right. by left. }
  destruct (_ <=? _)%nat; [|by apply dq_ret]. apply dq_bind, dq_attempt. eapply dq_mono; [by apply (pool_flush_quiet (items ++ [i]))|].
  intros [] w3 H3. by apply dq_ret.
Qed.

Lemma run_writer_quiet key_order events : forall items w, quiet_inv items w ->
  (forall j, j ∈ items ++ event_items events -> ri_shard j ∈ ks) ->
  dquiet (runWriter key_order events) (fun _ w' => quiet_inv (items ++ event_items events) w') w.
Proof.
  assert (Hflush : forall items w, quiet_inv items w -> (forall j, j ∈ items -> ri_shard j ∈ ks) ->
    dquiet (flushAll key_order) (fun _ w' => quiet_inv items w') w).
  { intros items w H Hks. apply dq_get. by apply flush_keys_quiet. }
  induction events as [|[i|] events IH]; intros items w H Hks; cbn [runWriter].
  - rewrite app_nil_r in Hks |- *. by apply Hflush.
  - change (event_items (Item i :: events)) with ([i] ++ event_items events) in *. rewrite app_assoc in Hks |- *.
    apply dq_bind. eapply dq_mono; [apply pool_write_quiet; [done|]|].
    + intros j Hj. apply Hks, elem_of_app. by left.
    + intros [] w' H'. by apply IH.
  - change (event_items (Tick :: events)) with (event_items events) in *. apply dq_bind. eapply dq_mono; [apply Hflush; [done|]|].
    + intros j Hj. apply Hks, elem_of_app. by left.
    + intros [] w' H'. by apply IH.
Qed.

(** *** The final move *)

(** Of the shards of [items] those in [todo] are still in the pool, the others'
    databases are in the output directory. *)
Record moving (items : list resultItem) (todo : list shard) (w : wstate) : Prop := {
  mv_keys : forall k, k ∈ dom (w_entries w) <-> k ∈ todo;
  mv_db : forall k e, w_entries w !! k = Some e -> exists d, w_staging w !! shard_file k = Some d /\ log_items d (de_pending e) = expected items k;
  mv_done : forall k, k ∈ map ri_shard items -> k ∉ todo ->
    w_final w !! shard_file k = Some (DnsDB (expected items k)) /\ w_staging w !! shard_file k = None;
  mv_other : forall f, (forall k, k ∈ map ri_shard items -> shard_file k <> f) ->
    w_staging w !! f = w_staging w0 !! f /\ w_final w !! f = w_final w0 !! f }.

(** The move of one shard: its database is flushed and goes to the output directory. *)
Lemma move_quiet items k todo w : moving items (k :: todo) w -> k ∉ todo -> (forall i, i ∈ items -> ri_shard i ∈ ks) ->
  (forall k', k' ∈ k :: todo -> k' ∈ map ri_shard items) -> forall (Q : option error -> wstate -> Prop) err,
  (forall w', moving items todo w' -> dquiet (finalize_keys todo err) Q w') -> dquiet (finalize_keys (k :: todo) err) Q w.
Proof.
  intros H Hk Hks Htodo Q err HQ. assert (Hin : k ∈ dom (w_entries w)) by (apply (mv_keys _ _ _ H); by left).
  apply elem_of_dom in Hin as [e He]. destruct (mv_db _ _ _ H k e He) as (d & Hd & Hx). cbn [finalize_keys].
  apply dq_bind, dq_attempt, (flush_local w k e d); [done..|]. intros w' E1 E2 E3 _. rewrite Hx in E2.
  apply dq_bind, dq_attempt, dq_nop, dq_bind, dq_mod, dq_bind, dq_attempt, dq_nop, dq_bind, dq_attempt, dq_bind, dq_attempt.
  eapply dq_call; [unfold rename_final; cbn; by rewrite E2, lookup_insert_eq|]. apply dq_ret, HQ. clear HQ.
  assert (Hne : forall k', k' ∈ map ri_shard items -> k' <> k -> shard_file k <> shard_file k').
  { intros k' Hk' Hne E. apply Hne. symmetry. apply Hfiles; [|by eapply items_in_ks|done]. eapply items_in_ks; [done|]. apply Htodo. by left. }
  split; cbn; rewrite ?E1, ?E2, ?E3.
  - intros k'. rewrite dom_delete_L, dom_insert_L. pose proof (mv_keys _ _ _ H k') as Hk'. rewrite elem_of_cons in Hk'.
    rewrite elem_of_difference, elem_of_union, elem_of_singleton, Hk'. split; [tauto|]. intros Ht. split; [by right; right|]. by intros ->.
  - intros k' e'. rewrite lookup_delete_Some. intros [Hkk Hl]. rewrite lookup_insert_ne in Hl by done.
    destruct (mv_db _ _ _ H k' e' Hl) as (d' & Hd' & Hx'). exists d'. split; [|done].
    assert (Hk' : k' ∈ map ri_shard items) by (apply Htodo, (mv_keys _ _ _ H); by eapply elem_of_dom_2).
    rewrite lookup_delete_ne, lookup_insert_ne by (by apply Hne). done.
  - intros k' Hk' Hnt. destruct (decide (k' = k)) as [->|Hkk]; [by rewrite lookup_insert_eq, lookup_delete_eq|].
    pose proof (Hne k' Hk' Hkk). rewrite lookup_insert_ne, lookup_delete_ne, lookup_insert_ne by done. apply (mv_done _ _ _ H); [done|].
    by apply not_elem_of_cons.
  - intros f Hf. assert (shard_file k <> f) by (apply Hf, Htodo; by left). rewrite lookup_delete_ne, !lookup_insert_ne by done.
    by apply (mv_other _ _ _ H).
Qed.

Lemma finalize_quiet items todo w : moving items todo w -> NoDup todo -> (forall i, i ∈ items -> ri_shard i ∈ ks) ->
  (forall k', k' ∈ todo -> k' ∈ map ri_shard items) -> dquiet (finalize_keys todo None) (fun r w' => r = None /\ moving items [] w') w.
Proof.
  intros H Hn Hks Htodo. revert w H. induction Hn as [|k todo Hk Hn IH]; intros w H; [by apply dq_ret|].
  apply (move_quiet items k todo w H Hk Hks Htodo). intros w' H'. apply IH; [|done]. intros k' Hk'. apply Htodo. by right.
Qed.

End Quiet.

Lemma clean_run (key_order : gset shard -> list shard) (events : list event) (w0 : wstate) (ks : gset shard) :
  w_entries w0 = ∅ -> (forall X, NoDup (key_order X) /\ forall k, k ∈ key_order X <-> k ∈ X) ->
  (forall i, i ∈ event_items events -> ri_shard i ∈ ks) -> (size ks <= maxOpenDBs)%nat ->
  (forall k k', k ∈ ks -> k' ∈ ks -> shard_file k = shard_file k' -> k = k') ->
  exists w', write_results key_order true events w0 [] = (Ok None, w', []) /\ w_entries w' = ∅ /\
    (forall k, k ∈ map ri_shard (event_items events) ->
       w_final w' !! shard_file k = Some (DnsDB (log_items (staged w0 (shard_file k)) (of_shard k (event_items events)))) /\
       w_staging w' !! shard_file k = None) /\
    (forall f, (forall k, k ∈ map ri_shard (event_items events) -> shard_file k <> f) ->
       w_staging w' !! f = w_staging w0 !! f /\ w_final w' !! f = w_final w0 !! f).
Proof.
  intros Hfresh Horder Hks Hmany Hfiles.
  assert (H0 : quiet_inv w0 [] w0).
  { split; [intros k; rewrite Hfresh, dom_empty_L; cbn; set_solver|intros k e; by rewrite Hfresh, lookup_empty|done..]. }
  assert (H : dquiet (write_results key_order true events) (fun r w' => r = None /\ moving w0 (event_items events) [] w') w0).
  { apply dq_bind. eapply dq_mono; [by apply (run_writer_quiet w0 ks Hfiles Hmany key_order events [])|]. intros [] w H. cbn [app] in H.
    apply dq_get. destruct (Horder (dom (w_entries w))) as [Hn Hdom]. apply (finalize_quiet w0 ks Hfiles); [|done|done|].
    - split; [by intros k; rewrite Hdom|apply H| |].
      + intros k Hk Hnt. destruct Hnt. by apply Hdom, (qi_keys _ _ _ H).
      + intros f Hf. split; [by apply (qi_other _ _ _ H)|by rewrite (qi_final _ _ _ H)].
    - intros k Hk. by apply Hdom, (qi_keys _ _ _ H) in Hk. }
  destruct H as (r & w' & E & -> & Hm). exists w'. split; [done|]. split; [|split].
  - apply map_empty. intros k. apply not_elem_of_dom. intros Hk%(mv_keys _ _ _ _ Hm). by apply elem_of_nil in Hk.
  - intros k Hk. apply (mv_done _ _ _ _ Hm); [done|]. by apply not_elem_of_nil.
  - apply (mv_other _ _ _ _ Hm).
Qed.

(** ** Properties *)

(** C21. The writer is atomic and loses nothing: whatever statement fails and
    wherever the process dies, each staged database is what it was and some of
    the items sent for it, every one with its fetch_log row and all its records
    or not at all, no domain twice, and the output directory is untouched; when
    the writer ends, every item is in the fetch_log of its shard, still pending,
    or was given up because its database could not be opened. *)
Theorem writer_atomic (key_order : gset shard -> list shard) (events : list event) (w0 w' : wstate) (fl fl' : list outcome) (r : res unit)
  (Hfresh : w_entries w0 = ∅) (Hrun : runWriter key_order events w0 fl = (r, w', fl')) :
  (forall f, exists sel, Forall (fun i => i ∈ event_items events /\ item_file i = f) sel /\ staged w' f = log_items (staged w0 f) sel /\
    (NoDup (map fl_domain (fetch_log (staged w0 f))) -> NoDup (map fl_domain (fetch_log (staged w' f))))) /\
  w_final w' = w_final w0 /\
  (r = Ok tt -> forall i, i ∈ event_items events -> i ∈ w_dropped w' \/ logged_in w' i \/ pending_in w' i).
Proof.
  assert (H0 : writer_inv w0 (event_items events) [] w0).
  { split; [intros f; by exists []|intros k e; by rewrite Hfresh, lookup_empty|by intros i ?%elem_of_nil|done]. }
  pose proof (dwp_run _ _ _ _ _ _ _ (run_writer_wp w0 (event_items events) key_order events [] w0 H0 (fun _ H => H)) Hrun) as [(done' & Hi) Hok].
  split; [|split; [apply Hi|]].
  - intros f. destruct (wi_logs _ _ _ _ Hi f) as (sel & Hs & E). exists sel. split; [done|]. split; [done|]. rewrite E. apply log_items_unique.
  - intros ->. apply (wi_done _ _ _ _ (Hok eq_refl)).
Qed.

(** C22. A clean run without failures, with at most as many shards as the pool
    holds, ends with exactly the results in the output directory: the file of
    each shard that got a result is its staged database with its items in order,
    a domain's first one winning; it is not staged any more, and no other file
    has changed. *)
Theorem clean_run_exact (key_order : gset shard -> list shard) (events : list event) (w0 : wstate) (ks : gset shard)
  (Hfresh : w_entries w0 = ∅) (Horder : forall X, NoDup (key_order X) /\ forall k, k ∈ key_order X <-> k ∈ X)
  (Hks : forall i, i ∈ event_items events -> ri_shard i ∈ ks) (Hmany : (size ks <= maxOpenDBs)%nat)
  (Hfiles : forall k k', k ∈ ks -> k' ∈ ks -> shard_file k = shard_file k' -> k = k') :
  exists w', write_results key_order true events w0 [] = (Ok None, w', []) /\ w_entries w' = ∅ /\
    (forall k, k ∈ map ri_shard (event_items events) ->
       w_final w' !! shard_file k = Some (DnsDB (log_items (staged w0 (shard_file k)) (of_shard k (event_items events)))) /\
       w_staging w' !! shard_file k = None) /\
    (forall f, (forall k, k ∈ map ri_shard (event_items events) -> shard_file k <> f) ->
       w_staging w' !! f = w_staging w0 !! f /\ w_final w' !! f = w_final w0 !! f).
Proof. by apply (clean_run key_order events w0 ks). Qed.

(** ** Witnesses *)

Definition demo_keys (X : gset shard) : list shard := elements X.
Definition demo_result (k : shard) (d : string) : resultItem :=
  mkResult d k "ok" [mkDNSRecord 60 (Some (BA [x0a; x00; x00; x01])); mkDNSRecord 60 (Some (BMx 10 "mx"))] 7.
Definition gov : shard := ("gov", "exports").
Definition com_q : shard := ("com", "q").
Definition demo_w : wstate := mkW ∅ {[shard_file gov := mkDnsDb [mkLogRow "old.gov" "ok" 1] []]} ∅ 0 [].
Definition demo_events : list event := [Item (demo_result gov "a.gov"); Tick; Item (demo_result com_q "q.com"); Item (demo_result gov "a.gov")].

(** The domains logged in a database of either directory. *)
Definition logged_names (d : option dnsdb) : option (list string) := option_map (fun d => map fl_domain (fetch_log d)) d.

Lemma demo_iteration X : NoDup (demo_keys X) /\ forall k, k ∈ demo_keys X <-> k ∈ X.
Proof. split; [apply NoDup_elements|]. intros k. apply elem_of_elements. Qed.

(** The process dies while the second shard's items are committed. *)
Lemma writer_atomic_witness :
  let run := runWriter demo_keys demo_events demo_w (repeat Done 12 ++ [Crashed]) in
  (run.1.1 = Panic /\ logged_names (w_staging run.1.2 !! shard_file gov) = Some ["old.gov"; "a.gov"]) /\
  w_final run.1.2 = ∅ /\ NoDup (map fl_domain (fetch_log (staged run.1.2 (shard_file gov)))).
Proof.
  split; [vm_compute; by split|]. cbn zeta. destruct (runWriter _ _ _ _) as [[r w'] fl'] eqn:E. cbn [fst snd].
  destruct (writer_atomic demo_keys demo_events demo_w w' (repeat Done 12 ++ [Crashed]) fl' r) as (H1 & H2 & _); [reflexivity|exact E|].
  split; [exact H2|]. destruct (H1 (shard_file gov)) as (sel & _ & _ & Hn). apply Hn. repeat constructor. by intros ?%elem_of_nil.
Defined.

Lemma clean_run_exact_witness :
  exists w', write_results demo_keys true demo_events demo_w [] = (Ok None, w', []) /\
    w_final w' !! shard_file gov = Some (DnsDB (log_items (staged demo_w (shard_file gov)) (of_shard gov (event_items demo_events)))) /\
    map fl_domain (fetch_log (log_items (staged demo_w (shard_file gov)) (of_shard gov (event_items demo_events)))) = ["old.gov"; "a.gov"].
Proof.
  destruct (clean_run_exact demo_keys demo_events demo_w {[gov; com_q]}) as (w' & H1 & _ & H2 & _).
  - reflexivity.
  - apply demo_iteration.
  - intros i Hi. assert (Hb : forallb (fun i => bool_decide (ri_shard i ∈ ({[gov; com_q]} : gset shard))) (event_items demo_events) = true) by (vm_compute; reflexivity).
    rewrite forallb_forall in Hb. apply list_elem_of_In in Hi. by apply Hb, bool_decide_eq_true in Hi.
  - apply Nat.leb_le. vm_compute. reflexivity.
  - intros k k' H H'. apply elem_of_union in H as [H|H], H' as [H'|H']; apply elem_of_singleton in H as ->, H' as ->; done.
  - exists w'. split; [exact H1|]. split; [|vm_compute; reflexivity]. apply H2. vm_compute. left.
Defined.

(** ** What a clean run leaves behind *)

(** An incremental run moves its database over the finished one of an earlier
    run, which the feeder had skipped: the earlier results are gone. *)
Lemma finalize_overwrites :
  let w0 := mkW ∅ ∅ {[shard_file gov := DnsDB (mkDnsDb [mkLogRow "old.gov" "ok" 1] [])]} 0 [] in
  map wi_domain (runFeeder w0 [(gov, Some ("old.gov" +:+ String nl ("new.gov" +:+ String nl "")))]) = ["new.gov"] /\
  logged_names (final_db (w_final (write_results demo_keys true [Item (demo_result gov "new.gov")] w0 []).1.2 !! shard_file gov)) = Some ["new.gov"].
Proof. vm_compute. by split. Qed.

(** A shard finished in an interrupted run has nothing left to feed: its database
    is not in the pool of the next run and stays staged. *)
Lemma finished_shard_stays_staged :
  let run := write_results demo_keys true [Item (demo_result com_q "q.com")] demo_w [] in
  map wi_domain (runFeeder demo_w [(gov, Some ("old.gov" +:+ String nl ""))]) = [] /\
  run.1.1 = Ok None /\ w_final run.1.2 !! shard_file gov = None /\ logged_names (w_staging run.1.2 !! shard_file gov) = Some ["old.gov"].
Proof. vm_compute. by split_and!. Qed.

(** With more shards than the pool holds, the evicted one is not moved either. *)
Lemma evicted_shard_stays_staged :
  let tld i := ("t" +:+ dec i, "exports") in
  let events := map (fun i => Item (mkResult ("a.t" +:+ dec i) (tld i) "ok" [] 7)) (seqZ 0 129) in
  let run := write_results demo_keys true events (mkW ∅ ∅ ∅ 0 []) [] in
  run.1.1 = Ok None /\ w_final run.1.2 !! shard_file (tld 0) = None /\ logged_names (w_staging run.1.2 !! shard_file (tld 0)) = Some ["a.t0"].
Proof. vm_compute. by split_and!. Qed.

(** A name whose resolution failed is logged and never fed again. *)
Lemma failed_name_not_retried :
  let i := resolve (mkWork "a.gov" gov) [(1, CallError); (2, CallError); (3, CallError); (4, CallError)] 5 in
  let w := (write_results demo_keys true [Item i] (mkW ∅ ∅ ∅ 0 []) []).1.2 in
  ri_status i = "error" /\ runFeeder w [(gov, Some ("a.gov" +:+ String nl ""))] = [].
Proof. vm_compute. by split. Qed.
