(* ===== verification/DnsFeed.v ===== *)
(** cmd/dnsfetch from the shard files to the output directory: the retry policy,
    the circuit breaker's window, and a run over exported shard files, which
    resolves every name that has not been resolved exactly once. *)

From S2P Require Import Prelude GoStd FileSys Sha256 Sql RowCell LogClient Leaf Order Export Heap ExportMerge Dnsfetch DnsWriter.

(** ** Specifications *)

Definition completed (c : Z * rpc) : bool := match c.2 with Stream _ SEof => true | _ => false end.
Definition timed_out (c : Z * rpc) : bool := match c.2 with Stream _ SDeadline => true | _ => false end.
Definition failed (c : Z * rpc) : Prop := completed c = false.

Definition timeouts (calls : list (Z * rpc)) : nat := length (filter (fun c => timed_out c = true) calls).

(** The result of a call that ran to the end of its stream. *)
Definition resolved (item : workItem) (now : Z) (recs : list DNSRecord) : resultItem :=
  let records := filter has_body recs in
  mkResult (wi_domain item) (wi_shard item) (match records with [] => "nxdomain" | _ => "ok" end) records now.

(** How a loop with [n] attempts left, after [t] timeouts, ends: with a call that
    completes, with the second timeout, or without a result. *)
Inductive loop_end (n t : nat) (item : workItem) (endTime : Z) (tried rest : list (Z * rpc)) : resultItem -> Prop :=
| end_ok before now recs : tried = before ++ [(now, Stream recs SEof)] -> Forall failed before -> (t + timeouts before <= 1)%nat ->
    loop_end n t item endTime tried rest (resolved item now recs)
| end_timeout before now recs : tried = before ++ [(now, Stream recs SDeadline)] -> Forall failed before -> (t + timeouts before = 1)%nat ->
    loop_end n t item endTime tried rest (mkResult (wi_domain item) (wi_shard item) "timeout" [] now)
| end_error : Forall failed tried -> (t + timeouts tried <= 1)%nat -> length tried = n \/ rest = [] ->
    loop_end n t item endTime tried rest (mkResult (wi_domain item) (wi_shard item) "error" [] endTime).

(** ** Lemmas *)

(** *** Retries *)

Lemma loop_end_cons n t t' item endTime c tried rest res : failed c -> t' = (t + timeouts [c])%nat ->
  loop_end n t' item endTime tried rest res -> loop_end (S n) t item endTime (c :: tried) rest res.
Proof.
  intros Hc -> H. assert (Hs : forall l, timeouts (c :: l) = (timeouts [c] + timeouts l)%nat).
  { intros l. unfold timeouts. rewrite !filter_cons, filter_nil. by case_decide. }
  destruct H as [before now recs -> Hf Ht|before now recs -> Hf Ht|Hf Ht Hl].
  - apply (end_ok _ _ _ _ _ _ (c :: before)); [done|by constructor|]. rewrite Hs. lia.
  - apply (end_timeout _ _ _ _ _ _ (c :: before) _ recs); [done|by constructor|]. rewrite Hs. lia.
  - apply end_error; [by constructor|rewrite Hs; lia|]. destruct Hl; [left; cbn; lia|by right].
Qed.

Lemma resolve_loop_end item endTime calls : forall n t, (t <= 1)%nat ->
  exists tried rest, calls = tried ++ rest /\ (length tried <= n)%nat /\ loop_end n t item endTime tried rest (resolve_loop n item t calls endTime).
Proof.
  induction calls as [|[now call] calls IH]; intros n t Ht.
  { exists [], []. split; [done|]. split; [cbn; lia|]. destruct n; (apply end_error; [constructor|change (timeouts []) with 0%nat; lia|by right]). }
  destruct n as [|n].
  { exists [], ((now, call) :: calls). split; [done|]. split; [cbn; lia|]. apply end_error; [constructor|change (timeouts []) with 0%nat; lia|by left]. }
  assert (Hgo : forall t', failed (now, call) -> t' = (t + timeouts [(now, call)])%nat -> (t' <= 1)%nat ->
    resolve_loop (S n) item t ((now, call) :: calls) endTime = resolve_loop n item t' calls endTime ->
    exists tried rest, (now, call) :: calls = tried ++ rest /\ (length tried <= S n)%nat /\
      loop_end (S n) t item endTime tried rest (resolve_loop (S n) item t ((now, call) :: calls) endTime)).
  { intros t' Hf Ht' Hle ->. destruct (IH n t' Hle) as (tried & rest & -> & Hl & H). exists ((now, call) :: tried), rest.
    split; [done|]. split; [cbn; lia|]. by eapply loop_end_cons. }
  destruct call as [|recs [| |]]; [apply (Hgo t); [done|change (timeouts _) with 0%nat; lia|done|done]| | |apply (Hgo t); [done|change (timeouts _) with 0%nat; lia|done|done]].
  - exists [(now, Stream recs SEof)], calls. split; [done|]. split; [cbn; lia|].
    replace (resolve_loop _ _ _ _ _) with (resolved item now recs); [apply (end_ok _ _ _ _ _ _ []); [done|constructor|change (timeouts []) with 0%nat; lia]|].
    cbn. unfold resolved. by destruct (filter has_body recs).
  - destruct t as [|t]; [apply (Hgo 1%nat); [done|done|lia|done]|]. exists [(now, Stream recs SDeadline)], calls.
    split; [done|]. split; [cbn; lia|]. cbn. apply (end_timeout _ _ _ _ _ _ [] now recs); [done|constructor|change (timeouts []) with 0%nat; lia].
Qed.

(** *** The breaker's window *)

(** The last results, oldest first. *)
Definition window (cb : circuitBreaker) : list bool := drop (cb_pos cb) (cb_ring cb) ++ take (cb_pos cb) (cb_ring cb).

Definition errors (l : list bool) : Z := Z.of_nat (length (filter (fun b => b = true) l)).

Record breaker_ok (cb : circuitBreaker) (l : list bool) : Prop := {
  bo_pos : (cb_pos cb < length (cb_ring cb))%nat;
  bo_window : window cb = l;
  bo_count : cb_errCount cb = errors l }.

Lemma errors_cons b l : errors (b :: l) = (if b then 1 else 0) + errors l.
Proof. unfold errors. rewrite filter_cons. destruct b; [rewrite decide_True by done|rewrite decide_False by done]; cbn [length]; lia. Qed.

Lemma errors_snoc l b : errors (l ++ [b]) = errors l + (if b then 1 else 0).
Proof. unfold errors. rewrite filter_app, length_app, filter_cons, filter_nil.
  destruct b; [rewrite decide_True by done|rewrite decide_False by done]; cbn [length]; lia.
Qed.

(** A record drops the oldest result for the newest, and trips the breaker when
    the errors of the window are above the threshold. *)
Lemma record_ok cb b l now isErr : breaker_ok cb (b :: l) ->
  let cb' := cb_record now isErr cb in
  breaker_ok cb' (l ++ [isErr]) /\ length (cb_ring cb') = length (cb_ring cb) /\ cb_num cb' = cb_num cb /\ cb_den cb' = cb_den cb /\
  (cb_tripped cb' = true <-> if cb_tripped cb then now <= cb_tripUntil cb
     else cb_num cb * Z.of_nat (length (cb_ring cb)) < errors (l ++ [isErr]) * cb_den cb).
Proof.
  intros [Hp Hw Hc]. set (p := cb_pos cb) in *. set (ring := cb_ring cb) in *.
  destruct (lookup_lt_is_Some_2 ring p Hp) as [x Hx]. unfold window in Hw. fold p ring in Hw.
  rewrite (drop_S ring x p Hx) in Hw. injection Hw as -> Hl. cbn zeta. unfold cb_record. fold p ring.
  rewrite (list_lookup_total_correct ring p b Hx), length_insert.
  set (cnt := if isErr then _ else _). assert (Hcnt : cnt = errors (l ++ [isErr])).
  { unfold cnt. rewrite errors_snoc. rewrite errors_cons in Hc. destruct b, isErr; lia. }
  set (pos := ((p + 1) mod length ring)%nat). assert (Hwin : (pos < length ring)%nat /\ drop pos (<[p:=isErr]> ring) ++ take pos (<[p:=isErr]> ring) = l ++ [isErr]).
  { assert (Et : take (S p) (<[p:=isErr]> ring) = take p ring ++ [isErr]).
    { rewrite (take_S_r _ _ isErr) by (by apply list_lookup_insert_eq). by rewrite take_insert_ge by lia. }
    unfold pos. split; [apply Nat.mod_upper_bound; lia|]. rewrite Nat.add_1_r. destruct (decide (S p = length ring)) as [E|E].
    - rewrite E, Nat.Div0.mod_same, drop_0, take_0, app_nil_r, <- Hl, drop_ge by lia. cbn [app].
      rewrite <- Et, take_ge; [done|]. rewrite length_insert. lia.
    - rewrite Nat.mod_small by lia. rewrite Et, drop_insert_lt by lia. by rewrite <- Hl, app_assoc. }
  destruct Hwin as [Hpos Hwin].
  assert (Hok : forall trip until, breaker_ok (mkBreaker (cb_num cb) (cb_den cb) (<[p:=isErr]> ring) pos cnt trip until) (l ++ [isErr])).
  { intros trip until. split; cbn; [by rewrite length_insert|exact Hwin|done]. }
  rewrite <- Hcnt. destruct (cb_tripped cb); cbn [negb andb].
  - rewrite andb_false_r. destruct (Z.ltb_spec (cb_tripUntil cb) now).
    all: split; [apply Hok|]; cbn; rewrite length_insert; split_and!; try done; (split; [done|lia]) || (split; [lia|done]).
  - rewrite andb_true_r. destruct (Z.ltb_spec (cb_num cb * Z.of_nat (length ring)) (cnt * cb_den cb)).
    all: split; [apply Hok|]; cbn; rewrite length_insert; split_and!; try done; (split; [done|lia]) || (split; [lia|done]).
Qed.

(** *** The feeder *)

(** The domains of a shard that are not to be fed. *)
Definition skip_set (w : wstate) (k : shard) : gset string :=
  let skip := loadSkipSet (w_staging w !! shard_file k) in
  if bool_decide (skip = ∅) then loadSkipSet (final_db (w_final w !! shard_file k)) else skip.

Definition new_names (w : wstate) (k : shard) (es : list entry) : list string := filter (fun d => d ∉ skip_set w k) (map en_domain es).

Lemma feed_lines_exact fuel skip es : Forall valid_entry es -> (String.length (lines_text tsv_line es) < fuel)%nat ->
  feed_lines fuel (lines_text tsv_line es) skip = filter (fun d => d ∉ skip) (map en_domain es).
Proof.
  intros Hv. revert fuel. induction Hv as [|e es He Hv IH]; intros fuel Hf; [by destruct fuel|].
  destruct fuel as [|fuel]; [lia|]. cbn [lines_text foldr] in Hf |- *. fold (lines_text tsv_line es) in *.
  cbn [feed_lines]. rewrite scan_tsv_line by done. unfold line_domain. rewrite entry_line_tab by done.
  destruct (Z.ltb_spec (Z.of_nat (String.length (en_domain e))) 0); [lia|]. unfold entry_line. rewrite str_take_app.
  assert (Hl : (String.length (lines_text tsv_line es) < fuel)%nat).
  { rewrite str_length_app in Hf. unfold tsv_line in Hf at 1. rewrite str_length_app in Hf. cbn in Hf. lia. }
  rewrite IH by done. cbn [map]. rewrite filter_cons. destruct (String.eqb_spec (en_domain e) "") as [E|_]; [by destruct (ve_name _ He)|].
  cbn [orb]. case_bool_decide as Hs; [rewrite decide_False by (by intros ?)|rewrite decide_True by done]; done.
Qed.

Lemma feed_shard_exact w k es : Forall valid_entry es ->
  feed_shard w k (lines_text tsv_line es) = map (fun d => mkWork d k) (new_names w k es).
Proof. intros Hv. unfold feed_shard. rewrite feed_lines_exact by (done || lia). done. Qed.

(** The feed of a shard is what is fed under its name. *)
Definition feed_of (k : shard) (items : list workItem) : list workItem := filter (fun i => wi_shard i = k) items.

Lemma feed_of_shard w k es : feed_of k (map (fun d => mkWork d k) (new_names w k es)) = map (fun d => mkWork d k) (new_names w k es).
Proof. unfold feed_of. generalize (new_names w k es). intros l. induction l as [|d l IH]; [done|]. cbn [map]. rewrite filter_cons, decide_True by done. by rewrite IH. Qed.

Lemma feed_of_other w k k' es : k <> k' -> feed_of k (map (fun d => mkWork d k') (new_names w k' es)) = [].
Proof. intros Hk. unfold feed_of. generalize (new_names w k' es). intros l. induction l as [|d l IH]; [done|]. cbn [map]. by rewrite filter_cons, decide_False by (by intros ?). Qed.

Definition shard_texts (shards : list (shard * list entry)) : list (shard * option string) :=
  map (fun s => (s.1, Some (lines_text tsv_line s.2))) shards.

Lemma feed_of_app k a b : feed_of k (a ++ b) = feed_of k a ++ feed_of k b.
Proof. apply filter_app. Qed.

Lemma run_feeder_cons w k es shards : Forall valid_entry es ->
  runFeeder w (shard_texts ((k, es) :: shards)) = map (fun d => mkWork d k) (new_names w k es) ++ runFeeder w (shard_texts shards).
Proof. intros Hv. cbn [shard_texts map]. unfold runFeeder. rewrite bind_cons. cbn [snd fst]. by rewrite feed_shard_exact. Qed.

Lemma feed_of_absent w shards k : k ∉ shards.*1 -> Forall (fun s => Forall valid_entry s.2) shards ->
  feed_of k (runFeeder w (shard_texts shards)) = [].
Proof.
  intros Hk Hv. induction Hv as [|[k' es] shards Hv' Hv IH]; [done|]. cbn in Hk, Hv'. apply not_elem_of_cons in Hk as [Hne Hk].
  by rewrite run_feeder_cons, feed_of_app, feed_of_other, IH.
Qed.

Lemma feed_of_run w shards k es : NoDup shards.*1 -> (k, es) ∈ shards -> Forall (fun s => Forall valid_entry s.2) shards ->
  feed_of k (runFeeder w (shard_texts shards)) = map (fun d => mkWork d k) (new_names w k es).
Proof.
  intros Hn Hin Hv. induction Hv as [|[k' es'] shards Hv' Hv IH]; [by apply elem_of_nil in Hin|]. cbn in Hn, Hv'.
  apply NoDup_cons in Hn as [Hk' Hn]. rewrite run_feeder_cons, feed_of_app by done. apply elem_of_cons in Hin as [[= -> ->]|Hin].
  - by rewrite feed_of_shard, feed_of_absent, app_nil_r.
  - rewrite feed_of_other; [by apply IH|]. intros ->. apply Hk'. by apply (list_elem_of_fmap_2 fst) in Hin.
Qed.

(** *** From the feed to the databases *)

Lemma log_items_fresh d items : NoDup (map ri_domain items) -> (forall i, i ∈ items -> ri_domain i ∉ map fl_domain (fetch_log d)) ->
  fetch_log (log_items d items) = fetch_log d ++ map (fun i => mkLogRow (ri_domain i) (ri_status i) (ri_fetchedAt i)) items /\
  dns_records (log_items d items) = dns_records d ++ (items ≫= item_rows).
Proof.
  revert d. induction items as [|i items IH]; intros d Hn Hd; [by rewrite !app_nil_r|]. cbn in Hn. apply NoDup_cons in Hn as [Hi Hn].
  change (log_items d (i :: items)) with (log_items (log_item d i) items).
  assert (Ei : log_item d i = mkDnsDb (fetch_log d ++ [mkLogRow (ri_domain i) (ri_status i) (ri_fetchedAt i)]) (dns_records d ++ item_rows i)).
  { unfold log_item. rewrite bool_decide_false; [done|]. apply Hd. by left. }
  rewrite Ei. destruct (IH (mkDnsDb (fetch_log d ++ [mkLogRow (ri_domain i) (ri_status i) (ri_fetchedAt i)]) (dns_records d ++ item_rows i)) Hn) as [-> ->].
  - intros j Hj. cbn. rewrite map_app. apply not_elem_of_app. split; [apply Hd; by right|]. cbn. rewrite list_elem_of_singleton.
    intros E. apply Hi. rewrite <- E. by apply list_elem_of_fmap_2.
  - cbn [fetch_log dns_records map]. by rewrite bind_cons, <- !app_assoc.
Qed.

Lemma resolve_item item calls endTime : ri_domain (resolve item calls endTime) = wi_domain item /\ ri_shard (resolve item calls endTime) = wi_shard item.
Proof.
  destruct (resolve_loop_end item endTime calls 4 0 ltac:(lia)) as (tried & rest & _ & _ & H). unfold resolve.
  destruct (resolve_loop 4 item 0 calls endTime) eqn:E. by destruct H.
Qed.

(** The results of a run no turn of which is cut short. *)
Definition turn_result (t : turn) : resultItem := resolve (tn_item t) (tn_calls t) (tn_end t).

Lemma run_worker_results turns st cb : Forall (fun t => tn_fate t = Sent) turns -> (runWorker turns st cb).1.1 = map turn_result turns.
Proof.
  intros Hs. revert st cb. induction Hs as [|t turns Ht Hs IH]; intros st cb; [done|]. cbn [runWorker]. rewrite Ht.
  specialize (IH (stats_record (ri_status (resolve (tn_item t) (tn_calls t) (tn_end t))) st)
    (cb_record (tn_end t) (String.eqb (ri_status (resolve (tn_item t) (tn_calls t) (tn_end t))) "error") cb)).
  destruct (runWorker turns _ _) as [[results st'] cb']. cbn in IH |- *. by rewrite IH.
Qed.

Lemma of_shard_domains k turns : map ri_domain (of_shard k (map turn_result turns)) = map wi_domain (feed_of k (map tn_item turns)).
Proof.
  induction turns as [|t turns IH]; [done|]. unfold of_shard, feed_of in *. cbn [map]. rewrite !filter_cons.
  destruct (resolve_item (tn_item t) (tn_calls t) (tn_end t)) as [Ed Es]. fold (turn_result t) in Ed, Es.
  destruct (decide (wi_shard (tn_item t) = k)) as [E|E].
  - rewrite decide_True by congruence. cbn [map]. by rewrite IH, Ed.
  - rewrite decide_False by congruence. exact IH.
Qed.

Lemma fed_shards w shards i : i ∈ runFeeder w (shard_texts shards) -> wi_shard i ∈ shards.*1.
Proof.
  unfold runFeeder. intros (s & Hi & Hs)%list_elem_of_bind. apply list_elem_of_fmap in Hs as (s' & -> & Hs'). cbn in Hi.
  apply list_elem_of_fmap in Hi as (d & -> & _). cbn. by apply (list_elem_of_fmap_2 fst).
Qed.

Lemma of_shard_perm k a b : a ≡ₚ b -> of_shard k a ≡ₚ of_shard k b.
Proof. intros H. unfold of_shard. by rewrite H. Qed.

Lemma skip_staged w k x : Z.of_nat (length (fetch_log (staged w (shard_file k)))) <= maxSkip ->
  x ∈ map fl_domain (fetch_log (staged w (shard_file k))) -> x ∈ skip_set w k.
Proof.
  unfold staged, skip_set. destruct (w_staging w !! shard_file k) as [d|]; cbn [default from_option id]; [|by intros _ ?%elem_of_nil].
  intros Hl Hx. assert (Hin : x ∈ loadSkipSet (Some d)).
  { cbn [loadSkipSet]. apply elem_of_list_to_set. rewrite take_ge; [done|]. rewrite length_map. lia. }
  rewrite bool_decide_false; [done|]. intros E. rewrite E in Hin. by apply elem_of_empty in Hin.
Qed.

(** ** Properties *)

(** C24. The retry policy of resolve, whatever the calls do: it stops at the first
    call that runs to the end of its stream, and the result is then that call's
    records with a body, ["nxdomain"] if there are none; else at the second
    timeout; else after four calls or when the context ends, with the status
    ["error"] and no records. The result is for the domain and shard asked for. *)
Theorem resolve_policy (item : workItem) (calls : list (Z * rpc)) (endTime : Z) :
  exists tried rest, calls = tried ++ rest /\ (length tried <= 4)%nat /\
    loop_end 4 0 item endTime tried rest (resolve item calls endTime).
Proof. apply resolve_loop_end. lia. Qed.

(** C25. The circuit breaker counts the errors among the last results of its
    window, however many are recorded: it trips exactly when it is not tripped
    and their share is above the threshold, and a tripped breaker is released by
    the first result after its pause. *)
Theorem breaker_counts_window (num den : Z) (size : nat) (results : list (Z * bool)) (Hsize : (0 < size)%nat) :
  let cb := foldl (fun cb r => cb_record r.1 r.2 cb) (newCircuitBreaker num den size) results in
  exists b l, drop (length results) (repeat false size ++ map snd results) = b :: l /\ breaker_ok cb (b :: l) /\
    forall now isErr, cb_tripped (cb_record now isErr cb) = true <->
      if cb_tripped cb then now <= cb_tripUntil cb else num * Z.of_nat size < errors (l ++ [isErr]) * den.
Proof.
  cbn zeta. set (start := newCircuitBreaker num den size).
  assert (H : let cb := foldl (fun cb r => cb_record r.1 r.2 cb) start results in
    breaker_ok cb (drop (length results) (repeat false size ++ map snd results)) /\ length (cb_ring cb) = size /\ cb_num cb = num /\ cb_den cb = den).
  { cbn zeta. induction results as [|[now isErr] results IH] using rev_ind; cbn [foldl].
    - cbn [length map]. rewrite drop_0, app_nil_r. split_and!; [|apply repeat_length|done..]. split; cbn.
      + by rewrite repeat_length.
      + unfold window. cbn. by rewrite drop_0, app_nil_r.
      + clear. induction size as [|n IH]; [done|]. cbn [repeat]. rewrite errors_cons, <- IH. done.
    - rewrite foldl_app. cbn [foldl fst snd]. destruct IH as (Hok & Hl & Hn & Hd). set (cb := foldl _ start results) in *.
      rewrite length_app, map_app, app_assoc. cbn [length map snd]. set (all := repeat false size ++ map snd results) in *.
      assert (Hlen : length all = (size + length results)%nat) by (unfold all; by rewrite length_app, repeat_length, length_map).
      destruct (drop (length results) all) as [|b l] eqn:E; [apply (f_equal length) in E; rewrite length_drop in E; cbn in E; lia|].
      destruct (record_ok cb b l now isErr Hok) as (H1 & H2 & H3 & H4 & _). split_and!; [|congruence..].
      rewrite drop_app_le by lia. replace (drop (length results + 1) all) with l; [exact H1|]. rewrite <- drop_drop, E. done. }
  cbn zeta in H. set (cb := foldl _ start results) in *. destruct H as (Hok & Hl & Hn & Hd).
  destruct (drop (length results) (repeat false size ++ map snd results)) as [|b l] eqn:E.
  { apply (f_equal length) in E. rewrite length_drop, length_app, repeat_length, length_map in E. cbn in E. lia. }
  exists b, l. split; [done|]. split; [done|]. intros now isErr. destruct (record_ok cb b l now isErr Hok) as (_ & _ & _ & _ & H).
  rewrite Hl, Hn, Hd in H. exact H.
Qed.


(** ** Witnesses *)

Definition demo_rpc (d : string) : Z * rpc := (5, Stream (ri_records (demo_result gov d)) SEof).
Definition demo_shards : list (shard * list entry) :=
  [(gov, [mkEntry "a.gov" 1 0; mkEntry "old.gov" 2 1]); (com_q, [mkEntry "q.com" 3 3])].

(** The names are resolved in another order than they are fed; the second call
    for the first of them succeeds. *)
Definition demo_turns : list turn :=
  [mkTurn (mkWork "q.com" com_q) [demo_rpc "q.com"] 6 Sent; mkTurn (mkWork "a.gov" gov) [(4, CallError); demo_rpc "a.gov"] 6 Sent].
Definition demo_stats : runStats := mkStats 0 0 0 0 0.
Definition demo_breaker : circuitBreaker := newCircuitBreaker 4 5 200.

Lemma breaker_counts_window_witness :
  let cb := foldl (fun cb r => cb_record r.1 r.2 cb) (newCircuitBreaker 1 2 4) [(0, true); (1, false); (2, true); (3, true)] in
  cb_tripped cb = true /\ exists b l, breaker_ok cb (b :: l) /\ (cb_tripped (cb_record 60 true cb) = true <-> 60 <= 33).
Proof.
  split; [reflexivity|]. destruct (breaker_counts_window 1 2 4 [(0, true); (1, false); (2, true); (3, true)]) as (b & l & _ & H1 & H2); [lia|].
  exists b, l. split; [exact H1|]. exact (H2 60 true).
Defined.

Lemma demo_valid : Forall (fun s => Forall valid_entry s.2 /\ NoDup (map en_domain s.2)) demo_shards.
Proof.
  repeat apply Forall_cons_2; try apply Forall_nil_2; (split; [|apply (bool_decide_unpack _); vm_compute; exact I]);
    repeat apply Forall_cons_2; try apply Forall_nil_2; split; vm_compute; by split_and?.
Qed.

