(* ===== verification/IngestLog.v ===== *)
(** internal/ingestion/service.go: IngestLog, the ingestion of one static log —
    the window of tile fetches, the issuers and rows of a tile, the daily flush,
    the stream of records, and the progress that a later session resumes from. *)

From S2P Require Import Prelude GoStd Sha256 FileSys CtlogParse CtlogClient Sql SubjectDB Dedup Progress LogClient Leaf Worker.

#[local] Open Scope sql_scope.

(** ** Definitions *)

Record IngestRequest := mkIngestRequest {
  ir_MonitoringApiRoot : string; ir_OutputDir : string; ir_ArchiveDir : string; ir_BatchSize : Z }.

Definition tileFetchLookahead : nat := 128.

(** A directory given with or without its slash, with the default. *)
Definition dir_or (default dir : string) : string :=
  let dir := if String.eqb dir "" then default else dir in
  if has_suffix dir "/" then dir else (dir +:+ "/")%string.

(** [filepath.Join] with a directory that ends in a slash. *)
Definition join_dir (dir name : string) : string := Join (trim_suffix dir "/") name.

(** [status.FromContextError] *)
Definition from_context_error (e : error) : error :=
  Wrap (match e with ErrCanceled => "Canceled" | _ => "DeadlineExceeded" end) e.

Definition internal (msg : string) (e : error) : error := Wrap "Internal" (Errorf (msg +:+ ": " +:+ error_text e)).

(** The local variables of a session. The counters are 64-bit in the code; they
    count entries that were read. *)
Record ingestion := mkIngest {
  ig_pool : SubjectDBPool;
  ig_date : string;                         (* currentDate *)
  ig_tile : Z;                              (* tileIdx *)
  ig_session : Z;                           (* sessionProcessed *)
  ig_global : Z;                            (* globalProcessed *)
  ig_cache : gmap bytes issuerInfo;         (* issuerCache *)
  ig_buf : list (res (list TileLeaf));      (* fetchBuf: what the fetch in each slot gets *)
  ig_next : Z }.                            (* nextFetch *)

(** Where an iteration leads: to the next one, out of the loop, or out of IngestLog. *)
Inductive flow :=
| Continue (g : ingestion)
| Break (g : ingestion)
| Return (r : res unit).

Section Server.

Variable std_parse ct_parse : bytes -> res Certificate.
Variable month_order : gset string -> list string.
(** The parameters of FlushAll (Dedup.v). *)
Variable scan : db -> res (list bytes).
Variable batchSize appendBatchRows pid : Z.
(** The formatted times of the database calls, by tile; the date and ctx.Err() of
    the [i]th iteration ([today 0] is the date at the start). *)
Variable clock : Z -> string.
Variable today : nat -> string.
Variable ctx : nat -> option error.
(** The network: GET of a URL. *)
Variable getf : string -> res bytes.

(** *** prefetchIssuers *)

(** The serial writes: an id is cached also when the upsert failed, as 0. *)
Fixpoint upsert_all (issuerPath : string) (results : list (bytes * issuerInfo)) (cache : gmap bytes issuerInfo)
  : M (gmap bytes issuerInfo) :=
  match results with
  | [] => ret cache
  | (fp, info) :: results =>
      let@ r := attempt (UpsertIssuer issuerPath fp (ii_commonName info) (ii_organization info) (ii_country info)) in
      match r with
      | inr e =>
          let@ _ := logf ("warn: upsert issuer " +:+ hex_encode (take 4 fp) +:+ ": " +:+ error_text e) in
          upsert_all issuerPath results (<[fp := with_id 0 info]> cache)
      | inl id => upsert_all issuerPath results (<[fp := with_id id info]> cache)
      end
  end.

(** It never returns an error; the goroutines only read the client. *)
Definition prefetchIssuers (leaves : list TileLeaf) (client : tile_client) (issuerPath : string)
    (cache : gmap bytes issuerInfo) : M (gmap bytes issuerInfo) :=
  match new_fps (map tl_ChainFingerprints leaves) cache ∅ with
  | [] => ret cache
  | newFPs => upsert_all issuerPath (map (fun fp => (fp, fetch_info std_parse ct_parse client fp)) newFPs) cache
  end.

(** *** One tile *)

Definition tile_skip_line (tileIdx entryIdx : Z) (e : error) : string :=
  ("tile=" +:+ dec tileIdx +:+ " entry=" +:+ dec entryIdx +:+ " skip: " +:+ error_text e)%string.
Definition tile_insert_line (tileIdx : Z) (e : error) : string :=
  ("warn: insert batch tile " +:+ dec tileIdx +:+ ": " +:+ error_text e)%string.

Definition entry_uri (client : tile_client) (tileIdx entryIdx : Z) : string :=
  (TileURL client tileIdx +:+ "#entry=" +:+ dec entryIdx)%string.

(** The entries of a tile from [entryIdx] on, up to the session's target; what
    parses, and the session count afterwards. *)
Fixpoint tile_entries (req : IngestRequest) (client : tile_client) (tileIdx entryIdx : Z) (cache : gmap bytes issuerInfo)
    (session : Z) (leaves : list TileLeaf) : M (list (SubjectRecord * Subject) * Z) :=
  match leaves with
  | [] => ret ([], session)
  | leaf :: leaves =>
      if negb (ir_BatchSize req =? 0) && (ir_BatchSize req <=? session) then ret ([], session)
      else
        match processLeaf std_parse ct_parse leaf tileIdx entryIdx (entry_uri client tileIdx entryIdx) cache with
        | Ok p =>
            let@ (ps, session) := tile_entries req client tileIdx (entryIdx + 1) cache (session + 1) leaves in
            ret (p :: ps, session)
        | Err e =>
            let@ _ := logf (tile_skip_line tileIdx entryIdx e) in
            tile_entries req client tileIdx (entryIdx + 1) cache (session + 1) leaves
        | Panic => panicM
        end
  end.

(** stream.Send of each record; [sent] is what the client has. *)
Fixpoint send_records (recs sent : list SubjectRecord) : M (list SubjectRecord * option error) :=
  match recs with
  | [] => ret (sent, None)
  | rec :: recs =>
      let@ r := attempt nop in
      match r with
      | inr e => ret (sent, Some e)
      | inl _ => send_records recs (sent ++ [rec])
      end
  end.

(** FlushAll, its error only logged. *)
Definition flush_warn (archiveDir what : string) (pool : SubjectDBPool) : M unit :=
  let@ (_, err) := FlushAll scan batchSize appendBatchRows pid month_order pool (trim_suffix archiveDir "/") in
  match err with
  | Some e => logf ("warn: flush pool " +:+ what +:+ ": " +:+ error_text e)
  | None => ret tt
  end.

(** The daily flush. *)
Definition rollover (activeDir archiveDir : string) (i : nat) (g : ingestion) : M ingestion :=
  let d := today (S i) in
  if String.eqb d (ig_date g) then ret g
  else
    let@ _ := logf ("date rollover " +:+ ig_date g +:+ " → " +:+ d +:+ ": flushing pool to archive") in
    let@ _ := flush_warn archiveDir "on rollover" (ig_pool g) in
    ret (mkIngest (NewSubjectDBPool (join_dir activeDir d)) d (ig_tile g) (ig_session g) (ig_global g) (ig_cache g)
           (ig_buf g) (ig_next g)).

(** The slot of a tile, [startTile] being the session's first. *)
Definition slot (startTile tileIdx : Z) : nat := Z.to_nat ((tileIdx - startTile) mod Z.of_nat tileFetchLookahead).

(** Wait for the next tile, and dispatch a fetch into its slot. *)
Definition await_tile (client : tile_client) (startTile : Z) (g : ingestion) : res (list TileLeaf) * ingestion :=
  let sl := slot startTile (ig_tile g) in
  (default Panic (ig_buf g !! sl),
   mkIngest (ig_pool g) (ig_date g) (ig_tile g) (ig_session g) (ig_global g) (ig_cache g)
     (<[sl := FetchTile client (ig_next g) 256]> (ig_buf g)) (ig_next g + 1)).

(** The rows into the pool, then the records to the client. *)
Definition insert_and_send (tileIdx : Z) (pool : SubjectDBPool) (ps : list (SubjectRecord * Subject)) (sent : list SubjectRecord)
  : M (SubjectDBPool * list SubjectRecord * option error) :=
  match ps with
  | [] => ret (pool, sent, None)
  | _ :: _ =>
      let@ (pool, r) := InsertBatch month_order pool (map snd ps) in
      let@ _ := match r with Err e => logf (tile_insert_line tileIdx e) | _ => ret tt end in
      let@ (sent, err) := send_records (map fst ps) sent in
      ret (pool, sent, err)
  end.

(** From the tile's leaves to its progress. *)
Definition store_tile (req : IngestRequest) (client : tile_client) (progressPath issuerPath : string) (runID : Z)
    (g : ingestion) (leaves : list TileLeaf) (sent : list SubjectRecord) : M (list SubjectRecord * flow) :=
  let tileIdx := ig_tile g in
  let@ _ := logf ("tile " +:+ dec tileIdx +:+ "  session " +:+ dec (ig_session g) +:+ "  total " +:+ dec (ig_global g)) in
  let@ cache := prefetchIssuers leaves client issuerPath (ig_cache g) in
  let@ (ps, session) := tile_entries req client tileIdx 0 cache (ig_session g) leaves in
  let global := ig_global g + (session - ig_session g) in
  let@ (pool, sent, err) := insert_and_send tileIdx (ig_pool g) ps sent in
  match err with
  | Some e => ret (sent, Return (Err e))
  | None =>
      let@ r := attempt (UpdateProgress progressPath (clock tileIdx) runID (tileIdx + 1) global) in
      let@ _ := match r with
                | inr e => logf ("warn: update progress tile " +:+ dec tileIdx +:+ ": " +:+ error_text e)
                | inl _ => ret tt
                end in
      ret (sent, Continue (mkIngest pool (ig_date g) (tileIdx + 1) session global cache (ig_buf g) (ig_next g)))
  end.

(** *** The loop *)

Definition ingest_turn (req : IngestRequest) (client : tile_client) (activeDir archiveDir progressPath issuerPath : string)
    (runID startTile : Z) (i : nat) (g : ingestion) (sent : list SubjectRecord) : M (list SubjectRecord * flow) :=
  match ctx i with
  | Some e => ret (sent, Return (Err (from_context_error e)))
  | None =>
      let@ g := rollover activeDir archiveDir i g in
      let '(result, g) := await_tile client startTile g in
      match result with
      | Panic => panicM
      | Err e =>
          if (ir_BatchSize req =? 0) && IsNotFound e then
            let@ _ := logf ("caught up at tile " +:+ dec (ig_tile g) +:+ " (total mirrored: " +:+ dec (ig_global g) +:+ ")") in
            let@ _ := flush_warn archiveDir "on caught-up" (ig_pool g) in
            ret (sent, Return (Ok tt))
          else ret (sent, Return (Err (internal ("fetch tile " +:+ dec (ig_tile g)) e)))
      | Ok [] => ret (sent, Break g)
      | Ok leaves => store_tile req client progressPath issuerPath runID g leaves sent
      end
  end.

(** After the loop. *)
Definition session_end (archiveDir : string) (g : ingestion) (sent : list SubjectRecord) : M (list SubjectRecord * res unit) :=
  let@ _ := flush_warn archiveDir "at session end" (ig_pool g) in
  let@ _ := logf ("ingestion complete: session=" +:+ dec (ig_session g) +:+ " total=" +:+ dec (ig_global g)) in
  ret (sent, Ok tt).

Fixpoint ingest_loop (fuel : nat) (req : IngestRequest) (client : tile_client)
    (activeDir archiveDir progressPath issuerPath : string) (runID startTile : Z) (i : nat) (g : ingestion)
    (sent : list SubjectRecord) : M (list SubjectRecord * res unit) :=
  if negb ((ir_BatchSize req =? 0) || (ig_session g <? ir_BatchSize req)) then session_end archiveDir g sent
  else
    match fuel with
    | O => ret (sent, Err (Errorf "out of fuel"))
    | S fuel =>
        let@ (sent, f) := ingest_turn req client activeDir archiveDir progressPath issuerPath runID startTile i g sent in
        match f with
        | Continue g => ingest_loop fuel req client activeDir archiveDir progressPath issuerPath runID startTile (S i) g sent
        | Break g => session_end archiveDir g sent
        | Return r => ret (sent, r)
        end
    end.

(** *** IngestLog *)

(** An error return of the handler's set-up. *)
Definition or_internal {A} (msg : string) (m : M A) (k : A -> M (list SubjectRecord * res unit))
  : M (list SubjectRecord * res unit) :=
  let@ r := attempt m in
  match r with
  | inr e => ret ([], Err (internal msg e))
  | inl a => k a
  end.

(** What the client got, and the status. [fuel] bounds the tiles of a session. *)
Definition IngestLog (fuel : nat) (req : IngestRequest) : M (list SubjectRecord * res unit) :=
  if String.eqb (ir_MonitoringApiRoot req) "" then
    ret ([], Err (Wrap "InvalidArgument" (Errorf "monitoring_api_root is required")))
  else if ir_BatchSize req <? 0 then
    ret ([], Err (Wrap "InvalidArgument" (Errorf "batch_size must be non-negative (0 = continuous)")))
  else
    let activeDir := dir_or "data/active/" (ir_OutputDir req) in
    let archiveDir := dir_or "/Volumes/wd_office_2/datasets/CT/" (ir_ArchiveDir req) in
    let progressPath := join_dir archiveDir "progress.db" in
    let issuerPath := join_dir archiveDir "issuers.db" in
    or_internal "mkdir active dir" nop (fun _ =>
    or_internal "mkdir archive dir" nop (fun _ =>
    or_internal "open progress db" (OpenProgressDB progressPath) (fun _ =>
    let@ r := attempt nop in
    let@ _ := match r with inr e => logf ("warn: cannot open ingestion.log: " +:+ error_text e) | inl _ => ret tt end in
    or_internal "get run" (GetOrCreateRun progressPath (clock (-1)) (ir_MonitoringApiRoot req)) (fun run =>
    let@ _ := if 0 <? rr_next_tile_idx run
              then logf ("resuming from tile " +:+ dec (rr_next_tile_idx run) +:+ " (total previously mirrored: "
                         +:+ dec (rr_total_processed run) +:+ ")")
              else ret tt in
    let client := NewTileClient getf (ir_MonitoringApiRoot req) in
    let startTile := rr_next_tile_idx run in
    or_internal "open global issuers db" (OpenIssuerDB issuerPath) (fun _ =>
    let buf := map (fun k => FetchTile client (startTile + k) 256) (seqZ 0 (Z.of_nat tileFetchLookahead)) in
    let g := mkIngest (NewSubjectDBPool (join_dir activeDir (today 0))) (today 0) startTile 0 (rr_total_processed run) ∅
               buf (startTile + Z.of_nat tileFetchLookahead) in
    ingest_loop fuel req client activeDir archiveDir progressPath issuerPath (rr_id run) startTile 0 g []))))).

End Server.
