(* ===== verification/IngestLogSafe.v ===== *)
(** IngestLog never forgets an entry below its persisted tile: its row is in a
    database on disk, its loss was logged, or the session's target left it out,
    whatever fails and wherever the process dies; and the persisted total counts
    exactly the entries that were taken. *)

From S2P Require Import Prelude GoStd Sha256 FileSys CtlogParse CtlogClient Sql SubjectDB Dedup FlushFrame Progress Ctlist.
From S2P Require Import LogClient Leaf Worker WorkerSafe System SystemSafe IngestLog.

#[local] Open Scope sql_scope.

(** ** Lemmas *)

(** *** Inserting a batch into a pool *)

Definition batch_post (p : SubjectDBPool) (s : store) (ok : Subject -> Prop) (r : res (SubjectDBPool * res unit)) (s' : store) : Prop :=
  grew (activeDir p) s s' /\ same_tables s s' /\ pool_ok p s' /\
  forall p' o, r = Ok (p', o) -> pool_le p p' /\ pool_ok p' s' /\ o <> Panic /\
    (o = Ok tt -> forall x, ok x -> kept (activeDir p) s' x).

Lemma pool_ok_le p p' s : pool_le p p' -> pool_ok p' s -> pool_ok p s.
Proof. intros [E Hs] [P1 P2]. rewrite E in *. split; [done|]. intros m Hm. apply P2. set_solver. Qed.

Lemma batch_post_step p p1 s s1 r s' (now rest : Subject -> Prop) :
  grew (activeDir p) s s1 -> same_tables s s1 -> pool_le p p1 -> (forall x, now x -> kept (activeDir p) s1 x) ->
  batch_post p1 s1 rest r s' -> batch_post p s (fun x => now x \/ rest x) r s'.
Proof.
  intros Hg [T1 T2] Hle Hnow (Hg' & [T3 T4] & He & Hok). rewrite (pl_dir _ _ Hle) in *.
  split; [by etransitivity|]. split; [split; congruence|]. split; [by eapply pool_ok_le|]. intros p' o Hr.
  destruct (Hok p' o Hr) as (Hle' & Hpo & Ho & Hrest). split; [by etransitivity|]. split; [done|]. split; [done|].
  intros Eo x [Hx|Hx]; [eapply kept_mono; [done|by apply Hnow]|by apply Hrest].
Qed.

Lemma insert_months_wp p subjects months s :
  pool_ok p s ->
  wp (insert_months p subjects months) (batch_post p s (fun x => x ∈ subjects /\ certMonth (NotBefore x) ∈ months)) s.
Proof.
  revert p s. induction months as [|m months IH]; intros p s Hp; cbn [insert_months].
  { apply wp_ret. split; [done|]. split; [done|]. split; [done|]. intros ? ? [= <- <-]. split_and!; try done.
    by intros _ x [_ ?%elem_of_nil]. }
  apply wp_bind, wp_attempt. eapply wp_mono; [by apply get_or_open_wp|].
  intros r s1 (Hg & Ht & Hp1 & Hopen).
  assert (Hstop : forall p2 s2 e, grew (activeDir p) s s2 -> same_tables s s2 -> pool_le p p2 -> pool_ok p2 s2 ->
    batch_post p s (fun x => x ∈ subjects /\ certMonth (NotBefore x) ∈ m :: months) (Ok (p2, Err e)) s2).
  { intros p2 s2 e H1 H2 H3 H4. split; [done|]. split; [done|]. split; [by eapply pool_ok_le|]. by intros ? ? [= <- <-]. }
  destruct r as [p1|e|]; [|apply wp_ret; by apply Hstop|by split_and!].
  destruct (Hopen p1 eq_refl) as (Hle & Hm & Hpo). apply wp_bind, wp_attempt.
  eapply wp_mono; [apply insert_wp; [done|done|]|].
  { intros x Hx. by apply list_elem_of_filter in Hx as [Hx _]. }
  intros r s2 (Hg2 & [T1 T2] & Hp2 & Hok). pose proof (pl_dir _ _ Hle) as Ed.
  assert (Hg02 : grew (activeDir p) s s2) by (rewrite Ed in Hg2; by etransitivity).
  assert (Ht02 : same_tables s s2) by (destruct Ht; split; congruence).
  assert (Hp02 : pool_ok p s2) by (by eapply pool_ok_le).
  destruct r as [[]|e|]; [|apply wp_ret; by apply Hstop|by split_and!].
  eapply wp_mono; [by apply IH|]. intros r s' H1.
  apply (batch_post_step p p1 s s2 r s' (fun x => x ∈ subjects /\ certMonth (NotBefore x) = m)) in H1; [|done..|].
  - destruct H1 as (A & B & D & E). split; [done|]. split; [done|]. split; [done|]. intros p' o Hr.
    destruct (E p' o Hr) as (F & G & K & L). split_and!; [done..|]. intros Eo x [Hx Hxm]. apply L; [done|].
    apply elem_of_cons in Hxm as [Hxm|Hxm]; [by left|by right].
  - intros x [Hx Hxm]. rewrite <- Ed. apply Hok; [done|]. by apply list_elem_of_filter.
Qed.

Lemma pool_batch_wp month_order p subjects s :
  (forall x, month_order x ≡ₚ elements x) -> pool_ok p s ->
  wp (InsertBatch month_order p subjects) (batch_post p s (fun x => x ∈ subjects)) s.
Proof.
  intros Horder Hp. eapply wp_mono; [by apply insert_months_wp|]. intros r s' (A & B & D & E).
  split; [done|]. split; [done|]. split; [done|]. intros p' o Hr. destruct (E p' o Hr) as (F & G & K & L).
  split_and!; [done..|]. intros Eo x Hx. apply L; [done|]. split; [done|]. rewrite Horder.
  apply elem_of_elements, elem_of_list_to_set.
  exact (list_elem_of_fmap_2 (fun s => certMonth (NotBefore s)) subjects x Hx).
Qed.

(** *** The run's row *)

Section Row.

Context (path root : string).

Definition run_of (s : store) : option run_row := progs s !! path ≫= select_run root.
Definition next_of (s : store) : Z := match run_of s with Some r => rr_next_tile_idx r | None => 0 end.
Definition total_of (s : store) : Z := match run_of s with Some r => rr_total_processed r | None => 0 end.

Lemma select_run_map f d n l m : (forall r, rr_monitoring_root (f r) = rr_monitoring_root r) ->
  select_run root (mkProgress (map f (run_rows d)) n l m) = option_map f (select_run root d).
Proof.
  intros Hf. unfold select_run. cbn [run_rows]. induction (run_rows d) as [|r rs IH]; [done|].
  cbn [map]. rewrite !filter_cons, Hf. case_decide; [done|]. exact IH.
Qed.

Definition only_prog (s s' : store) : Prop := s' = s \/ exists d', s' = set_prog path d' s.

(** The row advances, or nothing has changed. *)
Lemma update_progress_wp now id next total s r0 :
  run_of s = Some r0 -> rr_id r0 = id ->
  wp (UpdateProgress path now id next total)
     (fun r s' => s' = s \/ exists d' r', s' = set_prog path d' s /\ run_of s' = Some r' /\ rr_id r' = id /\
        rr_next_tile_idx r' = next /\ rr_total_processed r' = total) s.
Proof.
  unfold run_of. intros Hr Hid. destruct (progs s !! path) as [d|] eqn:Hd; [|done]. cbn in Hr.
  apply wp_wrap, (wp_prog_stmt _ _ _ _ d Hd); [by left..|]. right. cbn [fst snd].
  eexists _, (advance_run id next total now r0). split; [reflexivity|]. cbn. rewrite lookup_insert_eq. cbn.
  rewrite select_run_map by (intros r; unfold advance_run; by case_match). rewrite Hr. split; [done|].
  unfold advance_run. by rewrite Hid, Z.eqb_refl.
Qed.

(** The row is found or created with nothing counted. *)
Lemma get_or_create_run_wp now s :
  is_Some (progs s !! path) ->
  wp (GetOrCreateRun path now root)
     (fun r s' => only_prog s s' /\ next_of s' = next_of s /\ total_of s' = total_of s /\
        forall run, r = Ok run -> run_of s' = Some run /\ rr_next_tile_idx run = next_of s /\ rr_total_processed run = total_of s) s.
Proof.
  intros [d Hd]. unfold GetOrCreateRun. apply wp_bind, wp_attempt.
  assert (Hset : set_prog path d s = s).
  { destruct s. unfold set_prog. cbn in *. by rewrite insert_id. }
  assert (Hsame : forall e : error, only_prog s s /\ next_of s = next_of s /\ total_of s = total_of s /\
    forall run, Err e = Ok run -> run_of s = Some run /\ rr_next_tile_idx run = next_of s /\ rr_total_processed run = total_of s).
  { intros e. split_and!; [by left|done..]. }
  apply (wp_prog_stmt _ _ _ _ d Hd); [apply wp_fail; by apply Hsame|split_and!; [by left|done..]|].
  cbn [fst snd]. rewrite Hset. destruct (select_run root d) as [run|] eqn:Er.
  { apply wp_ret. unfold next_of, total_of, run_of. rewrite Hd. cbn. rewrite Er.
    split; [by left|]. split; [done|]. split; [done|]. by intros ? [= <-]. }
  assert (Hn : next_of s = 0 /\ total_of s = 0) by (unfold next_of, total_of, run_of; rewrite Hd; cbn; by rewrite Er).
  apply wp_bind, wp_wrap, (wp_prog_stmt _ _ _ _ d Hd); [by apply Hsame|split_and!; [by left|done..]|].
  unfold insert_run_row. case_bool_decide as Hin; cbn [fst snd wrap_err]; [by rewrite Hset; apply Hsame|].
  apply wp_ret. set (row := mkRunRow _ _ _ _ _ _ _). set (s' := set_prog _ _ s).
  assert (Hrow : run_of s' = Some row).
  { unfold run_of, s'. cbn. rewrite lookup_insert_eq. cbn. unfold select_run in *. cbn [run_rows].
    rewrite filter_app, filter_cons, decide_True by done. destruct (filter _ (run_rows d)); [done|by cbn in Er]. }
  destruct Hn as [-> ->]. unfold next_of, total_of. rewrite Hrow. split; [right; by eexists|]. split; [done|]. split; [done|].
  by intros ? [= <-].
Qed.

End Row.

(** *** A session *)

Lemma first_segment a b x y :
  str_forallb (fun c => negb (Ascii.eqb c "/")) a = true -> str_forallb (fun c => negb (Ascii.eqb c "/")) b = true ->
  (a +:+ "/" +:+ x = b +:+ "/" +:+ y)%string -> a = b.
Proof.
  revert b. induction a as [|c a IH]; intros [|c' b]; [done|..]; cbn; intros Ha Hb' E; try (injection E as <- _; done).
  - injection E as -> _. done.
  - injection E as -> E. apply andb_true_iff in Ha as [_ Ha], Hb' as [_ Hb']. f_equal. by eapply IH.
Qed.

Section Session.

Context (std_parse ct_parse : bytes -> res Certificate) (month_order : gset string -> list string).
Context (scan : db -> res (list bytes)) (batchSize appendBatchRows pid : Z).
Context (clock : Z -> string) (today : nat -> string) (ctx : nat -> option error).
Context (req : IngestRequest) (client : tile_client) (activeDir0 archiveDir progressPath issuerPath : string).

#[local] Abbreviation base := (trim_suffix activeDir0 "/").
#[local] Abbreviation root := (trim_suffix archiveDir "/").
#[local] Abbreviation url := (ir_MonitoringApiRoot req).

Hypothesis Horder : forall x, month_order x ≡ₚ elements x.
Hypothesis Hscan : forall d hs, scan d = Ok hs -> forall h, h ∈ hs -> h ∈ hashes d.
Hypothesis Hpid : 0 <= pid.
Hypothesis Hb : 1 <= appendBatchRows.
Hypothesis Hsep : forall i, separate (Join base (today i)) root /\ separate root (Join base (today i)).
Hypothesis Hdates : forall i, str_forallb (fun c => negb (Ascii.eqb c "/")) (today i) = true.

(** The row is in its month under the archive or a pool's directory. *)
Definition on_disk (s : store) (x : Subject) : Prop :=
  kept root s x \/ exists i, kept (Join base (today i)) s x.

(** What on disk stays on disk, and the log only grows. *)
Definition keeps (s s' : store) : Prop :=
  (forall x, on_disk s x -> on_disk s' x) /\ exists lines, logged s' = logged s ++ lines.

#[export] Instance keeps_preorder : PreOrder keeps.
Proof.
  split; [intros s; split; [done|exists []; by rewrite app_nil_r]|].
  intros a b c [A1 (l1 & A2)] [B1 (l2 & B2)]. split; [auto|]. exists (l1 ++ l2). by rewrite B2, A2, app_assoc.
Qed.

Lemma keeps_log s line : keeps s (add_log line s).
Proof. split; [done|by exists [line]]. Qed.

Lemma grew_keeps dir s s' : grew dir s s' -> keeps s s'.
Proof.
  intros [_ _ Hg Hl]. split; [|done]. intros x [Hx|[i Hx]]; [left|right; exists i]; by apply Hg.
Qed.

Lemma said_keeps s s1 s2 line : said s s1 line -> keeps s1 s2 -> said s s2 line.
Proof.
  intros (l & E & Hl) [_ (l2 & E2)]. exists (l ++ l2). rewrite E2, E, app_assoc. split; [done|]. apply elem_of_app. by left.
Qed.

Lemma keeps_said s s1 s2 line : keeps s s1 -> said s1 s2 line -> said s s2 line.
Proof.
  intros [_ (l & E)] (l2 & E2 & Hl). exists (l ++ l2). rewrite E2, E, app_assoc. split; [done|]. apply elem_of_app. by right.
Qed.

(** The pools' files are well-formed and the dedup sets sound. *)
Definition disk_ok (s : store) : Prop :=
  (forall i m d, dbs s !! month_path (Join base (today i)) m = Some (DB d) -> db_good d) /\
  archives_sound root (Join base "dedup") s.

Lemma disk_ok_same s s' : dbs s' = dbs s -> seens s' = seens s -> disk_ok s -> disk_ok s'.
Proof.
  intros E1 E2 [H1 H2]. split; [intros i m d; rewrite E1; apply H1|]. eapply archives_other; [|done|done]. intros m. by rewrite E1.
Qed.

Lemma dates_apart i j : today i <> today j -> separate (Join base (today i)) (Join base (today j)).
Proof.
  intros Hne m m' E. apply Hne. unfold month_path, Join in E. rewrite !str_app_assoc in E.
  apply str_app_inj_l, str_app_inj_l, first_segment in E; auto.
Qed.

(** What only grows one pool's months keeps the rest. *)
Lemma grew_disk p s s' i : activeDir p = Join base (today i) -> grew (activeDir p) s s' -> pool_ok p s' -> disk_ok s -> disk_ok s'.
Proof.
  intros Ep Hg [P1 _] [H1 H2]. rewrite Ep in *. split.
  - intros j m d Hd. destruct (decide (today j = today i)) as [E|Hne]; [rewrite E in Hd; by eapply P1|].
    rewrite (gr_other _ _ _ Hg) in Hd; [by eapply H1|]. intros m'. by apply dates_apart.
  - eapply archives_other; [|apply Hg|done]. intros m. apply Hg. intros m'. apply Hsep.
Qed.

(** A pool of the date without open months. *)
Lemma fresh_pool_ok s i : disk_ok s -> pool_ok (NewSubjectDBPool (Join base (today i))) s.
Proof. intros [H1 _]. split; cbn [activeDir pool_dbs NewSubjectDBPool]; [intros m d; apply H1|by intros m ?%elem_of_empty]. Qed.

Lemma flush_warn_wp what p s i :
  activeDir p = Join base (today i) -> pool_ok p s -> disk_ok s ->
  wp (flush_warn month_order scan batchSize appendBatchRows pid archiveDir what p)
     (fun r s' => keeps s s' /\ disk_ok s' /\ progs s' = progs s) s.
Proof.
  intros Ep Hp [Hd1 Hd2]. unfold flush_warn. assert (Edir : Dir (activeDir p) = base) by (by rewrite Ep; apply Dir_Join).
  apply wp_bind. eapply wp_mono; [apply (flush_all_wp month_order scan batchSize appendBatchRows pid root); try done|].
  { intros m m'. rewrite Ep. apply Hsep. }
  { by rewrite Edir. }
  rewrite Edir. intros r s1 ([F1 F2 _ F3 F4 F5 F6 _] & (T1 & T2 & T3) & He).
  assert (Hsame : forall j m, today j <> today i -> dbs s1 !! month_path (Join base (today j)) m = dbs s !! month_path (Join base (today j)) m).
  { intros j m Hne. apply F6; [apply month_path_db|intros m'; apply Hsep|]. intros m'. rewrite Ep. by apply dates_apart. }
  assert (Hk : keeps s s1).
  { split; [|exists []; by rewrite app_nil_r]. intros x [Hx|[j Hx]]; [left; by apply F2|].
    destruct (decide (today j = today i)) as [E|Hne].
    - rewrite E in Hx. rewrite Ep in F4. destruct (F4 _ _ Hx); [right; by exists i|by left].
    - right. exists j. eapply held_at_ext; [by apply Hsame|exact Hx]. }
  assert (Hdisk : disk_ok s1).
  { split; [|done]. intros j m d Hd. destruct (decide (today j = today i)) as [E|Hne]; [|rewrite Hsame in Hd by done; by eapply Hd1].
    rewrite E, <- Ep in Hd. destruct (decide (m ∈ month_order (pool_dbs p))) as [Hm|Hm]; [by eapply F5|].
    rewrite F3 in Hd by done. by eapply Hp. }
  destruct r as [[p' [e|]]|e|]; [apply wp_logf|apply wp_ret; by split_and!|by split_and!..].
  split; [etransitivity; [done|apply keeps_log]|]. split; [by eapply disk_ok_same|done].
Qed.

(** *** Issuers and entries *)

Lemma issuers_only_keeps s s' : issuers_only s s' -> keeps s s'.
Proof. intros H. by apply (grew_keeps ""), issuers_only_grew. Qed.

Lemma issuers_only_pool p s s' : issuers_only s s' -> pool_ok p s -> pool_ok p s'.
Proof. intros H [P1 P2]. split; intros m; rewrite (io_dbs _ _ H); [apply P1|apply P2]. Qed.

Lemma issuers_only_log s line : issuers_only s (add_log line s).
Proof. split; try done. by exists [line]. Qed.

Lemma upsert_all_wp results cache s : wp (upsert_all issuerPath results cache) (fun _ s' => issuers_only s s') s.
Proof.
  revert cache s. induction results as [|[fp info] results IH]; intros cache s; cbn [upsert_all].
  { apply wp_ret, issuers_only_refl. }
  assert (Hgo : forall cache s1, issuers_only s s1 -> wp (upsert_all issuerPath results cache) (fun _ s' => issuers_only s s') s1).
  { intros cache' s1 H1. eapply wp_mono; [apply IH|]. intros r s' H2. by eapply issuers_only_trans. }
  apply wp_bind, wp_attempt. eapply wp_mono; [apply (upsert_only _ _ _ _ _ s), issuers_only_refl|].
  intros [id|e|] s1 H1; [by apply Hgo| |done]. apply wp_bind, wp_logf, Hgo.
  eapply issuers_only_trans; [done|apply issuers_only_log].
Qed.

Lemma prefetch_tile_wp leaves cache s :
  wp (prefetchIssuers std_parse ct_parse leaves client issuerPath cache) (fun _ s' => issuers_only s s') s.
Proof.
  unfold prefetchIssuers. destruct (new_fps _ _ _) as [|fp fps]; [apply wp_ret, issuers_only_refl|apply upsert_all_wp].
Qed.

(** The row of an entry that parses, whatever the issuers. *)
Definition tile_row (t j : Z) (leaf : TileLeaf) (x : Subject) : Prop :=
  exists cache rec, processLeaf std_parse ct_parse leaf t j (entry_uri client t j) cache = Ok (rec, x).

(** A log line that says the entry was dropped: it does not parse, or the batch of
    its tile could not be inserted. *)
Definition tile_loss (t j : Z) (leaf : TileLeaf) (line : string) : Prop :=
  (exists cache e, processLeaf std_parse ct_parse leaf t j (entry_uri client t j) cache = Err e /\ line = tile_skip_line t j e) \/
  exists x e, tile_row t j leaf x /\ line = tile_insert_line t e.

(** The session count after [n] more entries. *)
Definition advance_count (count n : Z) : Z :=
  if ir_BatchSize req =? 0 then count + n else Z.max count (Z.min (ir_BatchSize req) (count + n)).

Definition left_out (position : Z) : Prop := ir_BatchSize req <> 0 /\ ir_BatchSize req <= position.

Lemma tile_entries_wp t cache leaves : forall k count s,
  wp (tile_entries std_parse ct_parse req client t k cache count leaves)
     (fun r s' => issuers_only s s' /\ forall ps count', r = Ok (ps, count') ->
        count' = advance_count count (Z.of_nat (length leaves)) /\
        forall j leaf, leaves !! j = Some leaf ->
          (exists x, x ∈ map snd ps /\ tile_row t (k + Z.of_nat j) leaf x) \/
          (exists line, tile_loss t (k + Z.of_nat j) leaf line /\ said s s' line) \/
          left_out (count + Z.of_nat j)) s.
Proof.
  induction leaves as [|leaf leaves IH]; intros k count s; cbn [tile_entries].
  { apply wp_ret. split; [apply issuers_only_refl|]. intros ps count' [= <- <-]. split; [|done].
    unfold advance_count. cbn [length]. case_match; lia. }
  destruct (negb (ir_BatchSize req =? 0) && (ir_BatchSize req <=? count)) eqn:Ec.
  { apply wp_ret. split; [apply issuers_only_refl|]. apply andb_true_iff in Ec as [E1 E2].
    apply negb_true_iff, Z.eqb_neq in E1. apply Z.leb_le in E2. intros ps count' [= <- <-]. split.
    - unfold advance_count. rewrite (proj2 (Z.eqb_neq _ _)) by done. lia.
    - intros j x _. right. right. split; [done|lia]. }
  assert (Hadv : advance_count (count + 1) (Z.of_nat (length leaves)) = advance_count count (Z.of_nat (length (leaf :: leaves)))).
  { unfold advance_count. cbn [length]. destruct (Z.eqb_spec (ir_BatchSize req) 0); [lia|].
    apply andb_false_iff in Ec as [E1|E2]; [done|]. apply Z.leb_gt in E2. lia. }
  assert (Hrest : forall s1 (now : Prop) psf, issuers_only s s1 ->
    ((exists x, x ∈ psf /\ tile_row t k leaf x) \/ exists line, tile_loss t k leaf line /\ said s s1 line) ->
    wp (tile_entries std_parse ct_parse req client t (k + 1) cache (count + 1) leaves)
      (fun r s' => issuers_only s s' /\ forall ps count', r = Ok (ps, count') ->
        count' = advance_count count (Z.of_nat (length (leaf :: leaves))) /\
        forall j x, (leaf :: leaves) !! j = Some x ->
          (exists y, y ∈ psf ++ map snd ps /\ tile_row t (k + Z.of_nat j) x y) \/
          (exists line, tile_loss t (k + Z.of_nat j) x line /\ said s s' line) \/ left_out (count + Z.of_nat j)) s1).
  { intros s1 _ psf H1 Hnow. eapply wp_mono; [apply IH|]. intros r s' [H2 Hall]. split; [by eapply issuers_only_trans|].
    intros ps count' Hr. destruct (Hall ps count' Hr) as [-> Hl]. split; [done|]. intros [|j] x; cbn [lookup list_lookup].
    - intros [= <-]. rewrite Z.add_0_r. destruct Hnow as [(y & Hy & Hx)|(line & Hx & Hs)].
      + left. exists y. split; [apply elem_of_app; by left|done].
      + right. left. exists line. split; [done|]. eapply said_keeps; [done|by apply issuers_only_keeps].
    - intros Hx. replace (k + Z.of_nat (S j)) with (k + 1 + Z.of_nat j) by lia.
      replace (count + Z.of_nat (S j)) with (count + 1 + Z.of_nat j) by lia.
      destruct (Hl j x Hx) as [(y & Hy & Hxy)|[(line & Hll & Hs)|Ho]]; [left; exists y|right; left; exists line|by right; right].
      + split; [apply elem_of_app; by right|done].
      + split; [done|]. eapply keeps_said; [by apply issuers_only_keeps|done]. }
  destruct (processLeaf _ _ _ _ _ _ _) as [[rec x]|e|] eqn:Ep.
  - apply wp_bind. eapply wp_mono; [apply (Hrest s True [x])|].
    + apply issuers_only_refl.
    + left. exists x. split; [by left|]. by exists cache, rec.
    + intros [[ps count']|e|] s' [H1 Hall]; [apply wp_ret|by split..]. split; [done|]. intros ? ? [= <- <-]. by apply Hall.
  - apply wp_bind, wp_logf. eapply wp_mono; [apply (Hrest _ True [])|].
    + apply issuers_only_log.
    + right. exists (tile_skip_line t k e). split; [left; by exists cache, e|apply said_log].
    + intros r s' [H1 Hall]. split; [done|]. intros ps count' Hr. exact (Hall ps count' Hr).
  - intros fl. split; [apply issuers_only_refl|done].
Qed.

Lemma send_records_wp recs sent s :
  wp (send_records recs sent) (fun r s' => s' = s /\ forall sent' e, r = Ok (sent', Some e) -> e = ErrSyscall) s.
Proof.
  revert sent. induction recs as [|rec recs IH]; intros sent; cbn [send_records]; [by apply wp_ret|].
  apply wp_bind, wp_attempt, wp_nop; [|done|apply IH]. apply wp_ret. split; [done|]. by intros ? ? [= _ <-].
Qed.

(** *** What a session leaves behind *)

Section Run.

(** The store, the tile and the total the session starts from. *)
Context (s0 : store) (start total0 runID : Z).

#[local] Abbreviation run_of := (run_of progressPath url).
#[local] Abbreviation next_of := (next_of progressPath url).
#[local] Abbreviation total_of := (total_of progressPath url).

Definition leaves_at (t : Z) : list TileLeaf := match FetchTile client t 256 with Ok ls => ls | _ => [] end.

(** The entries of the session's tiles before [t]. *)
Definition before (t : Z) : Z := foldr (fun u n => Z.of_nat (length (leaves_at u)) + n) 0 (seqZ start (t - start)).

(** Those that were taken. *)
Definition counted (t : Z) : Z := if ir_BatchSize req =? 0 then before t else Z.min (ir_BatchSize req) (before t).

Definition settled (s : store) (t j : Z) (leaf : TileLeaf) : Prop :=
  (exists x, tile_row t j leaf x /\ on_disk s x) \/
  (exists line, tile_loss t j leaf line /\ said s0 s line) \/
  left_out (before t + j).

Definition all_settled (s : store) (n : Z) : Prop :=
  forall t j leaf, start <= t < n -> leaves_at t !! j = Some leaf -> settled s t (Z.of_nat j) leaf.

Record durable (s : store) : Prop := {
  du_next : start <= next_of s;
  du_total : total_of s = total0 + counted (next_of s);
  du_settled : all_settled s (next_of s) }.

(** The run's row counts the tiles up to one that is not after [n]. *)
Definition row_at (s : store) (n : Z) : Prop :=
  exists r, run_of s = Some r /\ rr_id r = runID /\ start <= rr_next_tile_idx r <= n /\
    rr_total_processed r = total0 + counted (rr_next_tile_idx r).

Record core (g : ingestion) (s : store) : Prop := {
  co_keeps : keeps s0 s;
  co_pool : pool_ok (ig_pool g) s;
  co_date : exists i, ig_date g = today i /\ activeDir (ig_pool g) = Join base (today i);
  co_disk : disk_ok s;
  co_tile : start <= ig_tile g;
  co_settled : all_settled s (ig_tile g);
  co_row : row_at s (ig_tile g);
  co_session : ig_session g = counted (ig_tile g);
  co_global : ig_global g = total0 + counted (ig_tile g) }.

(** fetchBuf holds the next tiles, each in its slot. *)
Record window (g : ingestion) : Prop := {
  wi_len : length (ig_buf g) = tileFetchLookahead;
  wi_next : ig_next g = ig_tile g + Z.of_nat tileFetchLookahead;
  wi_slots : forall k, 0 <= k < Z.of_nat tileFetchLookahead ->
    ig_buf g !! slot start (ig_tile g + k) = Some (FetchTile client (ig_tile g + k) 256) }.

Lemma before_next t : start <= t -> before (t + 1) = before t + Z.of_nat (length (leaves_at t)).
Proof.
  intros Ht. unfold before. replace (t + 1 - start) with (t - start + 1) by lia. rewrite seqZ_app by lia.
  replace (start + (t - start)) with t by lia. change (seqZ t 1) with [0 + t]. rewrite foldr_app. cbn [foldr].
  rewrite Z.add_0_l. generalize (seqZ start (t - start)) as l. induction l as [|u l IH]; cbn [foldr]; [lia|]. rewrite IH. lia.
Qed.

Lemma counted_start : 0 <= ir_BatchSize req -> counted start = 0.
Proof. intros HB. unfold counted, before. rewrite Z.sub_diag. change (seqZ start 0) with (@nil Z). cbn [foldr]. case_match; lia. Qed.

Lemma settled_keeps s s' n : keeps s s' -> all_settled s n -> all_settled s' n.
Proof.
  intros Hk Hs t j leaf Ht Hj. destruct (Hs t j leaf Ht Hj) as [(x & Hx & Hd)|[(line & Hl & Hsaid)|Ho]];
    [left; exists x; split; [done|by apply Hk]|right; left; exists line; split; [done|by eapply said_keeps]|by right; right].
Qed.

Lemma row_durable s n : row_at s n -> all_settled s n -> durable s.
Proof.
  intros (r & Hr & _ & Hn & Ht) Hs. unfold next_of, total_of. split; unfold IngestLogSafe.next_of, IngestLogSafe.total_of; rewrite Hr; [lia|done|].
  intros t j leaf H1. apply Hs. lia.
Qed.

Lemma core_durable g s : core g s -> durable s.
Proof. intros [_ _ _ _ _ H1 H2 _ _]. by eapply row_durable. Qed.

(** Steps that keep the disk and the run's row. *)
Lemma row_same s s' n : progs s' = progs s -> row_at s n -> row_at s' n.
Proof. unfold row_at, IngestLogSafe.run_of. by intros ->. Qed.

Lemma durable_keeps s s' g : keeps s s' -> progs s' = progs s -> core g s -> durable s'.
Proof. intros Hk Hp Hc. eapply row_durable; [eapply row_same; [done|apply Hc]|]. by eapply settled_keeps, Hc. Qed.

(** *** The window of fetches *)

Lemma slot_lt t : start <= t -> (slot start t < tileFetchLookahead)%nat.
Proof. intros Ht. unfold slot. pose proof (Z.mod_pos_bound (t - start) (Z.of_nat tileFetchLookahead) ltac:(done)). lia. Qed.

Lemma slot_other t k : start <= t -> 0 < k < Z.of_nat tileFetchLookahead -> slot start (t + k) <> slot start t.
Proof.
  intros Ht Hk E. unfold slot in E. apply Z2Nat.inj in E; [|apply Z.mod_pos_bound; done..].
  change (Z.of_nat tileFetchLookahead) with 128 in *.
  pose proof (Z.div_mod (t + k - start) 128 ltac:(done)). pose proof (Z.div_mod (t - start) 128 ltac:(done)). lia.
Qed.

Lemma slot_wrap t : slot start (t + Z.of_nat tileFetchLookahead) = slot start t.
Proof.
  unfold slot. f_equal. replace (t + Z.of_nat tileFetchLookahead - start) with (t - start + 1 * Z.of_nat tileFetchLookahead) by lia.
  by rewrite Z.mod_add.
Qed.

(** The slot of the next tile has it, and is refilled for the tile that comes
    around next. *)
Lemma await_window g : window g -> start <= ig_tile g ->
  (await_tile client start g).1 = FetchTile client (ig_tile g) 256 /\
  forall g', ig_tile g' = ig_tile g + 1 -> ig_buf g' = ig_buf (await_tile client start g).2 ->
    ig_next g' = ig_next (await_tile client start g).2 -> window g'.
Proof.
  intros [W1 W2 W3] Ht. unfold await_tile. cbn [fst snd ig_buf ig_next]. split.
  { specialize (W3 0 ltac:(done)). rewrite Z.add_0_r in W3. by rewrite W3. }
  intros g' Et Eb En. split; [by rewrite Eb, length_insert|lia|]. intros k Hk. rewrite Eb, Et, W2.
  destruct (Z.eq_dec k (Z.of_nat tileFetchLookahead - 1)) as [->|Hne].
  - replace (ig_tile g + 1 + (Z.of_nat tileFetchLookahead - 1)) with (ig_tile g + Z.of_nat tileFetchLookahead) by lia.
    rewrite slot_wrap, list_lookup_insert_eq; [done|]. rewrite W1. by apply slot_lt.
  - replace (ig_tile g + 1 + k) with (ig_tile g + (k + 1)) by lia.
    rewrite list_lookup_insert_ne; [apply W3; lia|]. apply not_eq_sym, slot_other; lia.
Qed.

(** *** Storing a tile *)

Lemma insert_and_send_wp t pool ps sent i s :
  pool_ok pool s -> disk_ok s -> activeDir pool = Join base (today i) ->
  wp (insert_and_send month_order t pool ps sent)
     (fun r s' => keeps s s' /\ progs s' = progs s /\ disk_ok s' /\ forall pool' sent' err, r = Ok (pool', sent', err) ->
        pool_ok pool' s' /\ activeDir pool' = activeDir pool /\ (forall e, err = Some e -> e = ErrSyscall) /\
        forall x, x ∈ map snd ps -> on_disk s' x \/ exists e, said s s' (tile_insert_line t e)) s.
Proof.
  intros Hp Hd Ed. unfold insert_and_send. destruct ps as [|p0 ps0] eqn:Eps.
  { apply wp_ret. split_and!; [done..|]. intros ? ? ? [= <- <- <-]. split_and!; [done..|]. by intros x ?%elem_of_nil. }
  rewrite <- Eps. clear p0 ps0 Eps.
  apply wp_bind. eapply wp_mono; [by apply pool_batch_wp|].
  intros r s1 (Hg & [T1 _] & Hp1 & Hok). pose proof (grew_keeps _ _ _ Hg) as Hk.
  assert (Hd1 : disk_ok s1) by (by eapply grew_disk).
  destruct r as [[pool' o]|e|]; [|by split_and!..]. destruct (Hok pool' o eq_refl) as (Hle & Hpo & Ho & Hrows).
  assert (Hsend : forall s2, issuers_only s1 s2 -> (forall x, x ∈ map snd ps -> on_disk s2 x \/ exists e, said s s2 (tile_insert_line t e)) ->
    wp (let@ (sent, err) := send_records (map fst ps) sent in ret (pool', sent, err))
      (fun r s' => keeps s s' /\ progs s' = progs s /\ disk_ok s' /\ forall pool' sent' err, r = Ok (pool', sent', err) ->
        pool_ok pool' s' /\ activeDir pool' = activeDir pool /\ (forall e, err = Some e -> e = ErrSyscall) /\
        forall x, x ∈ map snd ps -> on_disk s' x \/ exists e, said s s' (tile_insert_line t e)) s2).
  { intros s2 H2 Hx. assert (keeps s s2 /\ progs s2 = progs s /\ disk_ok s2) as (Ha & Hb' & Hc).
    { split; [etransitivity; [done|by apply issuers_only_keeps]|]. split; [rewrite (io_progs _ _ H2); congruence|].
      eapply disk_ok_same; [apply H2..|done]. }
    apply wp_bind. eapply wp_mono; [apply send_records_wp|]. intros r s3 [-> Herr].
    destruct r as [[sent' err]|e|]; [apply wp_ret|by split_and!..].
    split_and!; [done..|]. intros ? ? ? [= <- <- <-]. split; [by eapply issuers_only_pool|]. split; [apply Hle|]. split; [|done].
    intros e ->. by eapply Herr. }
  destruct o as [[]|e|]; [| |done].
  - apply wp_bind, wp_ret, Hsend; [apply issuers_only_refl|]. intros x Hx. left. right. exists i. rewrite <- Ed. by apply Hrows.
  - apply wp_bind, wp_logf, Hsend; [apply issuers_only_log|]. intros x Hx. right. exists e. eapply keeps_said; [done|apply said_log].
Qed.

(** Below its target the session has taken every entry. *)
Lemma counted_below t : ir_BatchSize req = 0 \/ counted t < ir_BatchSize req -> counted t = before t.
Proof. unfold counted. destruct (Z.eqb_spec (ir_BatchSize req) 0); lia. Qed.

Lemma counted_next t : start <= t -> ir_BatchSize req = 0 \/ counted t < ir_BatchSize req ->
  advance_count (counted t) (Z.of_nat (length (leaves_at t))) = counted (t + 1).
Proof.
  intros Ht Hlt. pose proof (counted_below t Hlt) as E. unfold advance_count. rewrite E. unfold counted in *. rewrite before_next by done.
  destruct (Z.eqb_spec (ir_BatchSize req) 0); [done|]. lia.
Qed.

(** The tile's entries are settled once its rows are. *)
Lemma tile_settled g s s3 s5 (ps : list (SubjectRecord * Subject)) :
  core g s -> ir_BatchSize req = 0 \/ ig_session g < ir_BatchSize req -> keeps s s3 -> keeps s3 s5 ->
  (forall j leaf, leaves_at (ig_tile g) !! j = Some leaf ->
     (exists x, x ∈ map snd ps /\ tile_row (ig_tile g) (Z.of_nat j) leaf x) \/
     (exists line, tile_loss (ig_tile g) (Z.of_nat j) leaf line /\ said s s3 line) \/ left_out (ig_session g + Z.of_nat j)) ->
  (forall x : Subject, x ∈ map snd ps -> on_disk s5 x \/ exists e, said s3 s5 (tile_insert_line (ig_tile g) e)) ->
  all_settled s5 (ig_tile g + 1).
Proof.
  intros Hc Hlt H3 H5 Hent Hrows t j leaf Ht Hj. pose proof (co_keeps _ _ Hc) as H0.
  destruct (Z.eq_dec t (ig_tile g)) as [->|Hne].
  2: { apply (settled_keeps s _ (ig_tile g)); [by etransitivity|apply Hc|lia|done]. }
  destruct (Hent j leaf Hj) as [(x & Hx & Hr)|[(line & Hl & Hs)|Ho]].
  - destruct (Hrows x Hx) as [Hd|[e He]]; [left; by exists x|right; left]. exists (tile_insert_line (ig_tile g) e).
    split; [right; by exists x, e|]. eapply keeps_said; [|done]. by etransitivity.
  - right. left. exists line. split; [done|]. eapply said_keeps; [|done]. eapply keeps_said; done.
  - right. right. rewrite (co_session _ _ Hc) in *. by rewrite (counted_below _ Hlt) in Ho.
Qed.

Definition continued (g : ingestion) (f : flow) (s : store) : Prop :=
  match f with
  | Continue g' => core g' s /\ ig_tile g' = ig_tile g + 1 /\ ig_buf g' = ig_buf g /\ ig_next g' = ig_next g
  | Break g' => core g' s
  | Return r => r <> Err (Errorf "out of fuel")
  end.

(** Recording the tile: the row advances with the counts, or it stays. *)
Lemma record_tile_wp g pool' cache (sent : list SubjectRecord) s s5 :
  core g s -> keeps s s5 -> progs s5 = progs s -> disk_ok s5 -> pool_ok pool' s5 -> activeDir pool' = activeDir (ig_pool g) ->
  all_settled s5 (ig_tile g + 1) ->
  let global := ig_global g + (counted (ig_tile g + 1) - counted (ig_tile g)) in
  wp (let@ r := attempt (UpdateProgress progressPath (clock (ig_tile g)) runID (ig_tile g + 1) global) in
      let@ _ := match r with
                | inr e => logf ("warn: update progress tile " +:+ dec (ig_tile g) +:+ ": " +:+ error_text e)
                | inl _ => ret tt
                end in
      ret (sent, Continue (mkIngest pool' (ig_date g) (ig_tile g + 1) (counted (ig_tile g + 1)) global cache (ig_buf g) (ig_next g))))
     (fun r s' => durable s' /\ forall sent' f, r = Ok (sent', f) -> continued g f s') s5.
Proof.
  intros Hc Hk Hp Hd Hpool Ed Hset global. destruct (co_row _ _ Hc) as (r0 & Hr0 & Hid & Hn0 & Ht0).
  pose proof (co_tile _ _ Hc) as Htile. assert (Eg : global = total0 + counted (ig_tile g + 1)) by (unfold global; rewrite (co_global _ _ Hc); lia).
  assert (Hrow : row_at s5 (ig_tile g + 1)) by (eapply row_same; [done|]; exists r0; split_and!; (done || lia)).
  assert (Hend : forall s6, dbs s6 = dbs s5 -> seens s6 = seens s5 -> keeps s5 s6 -> row_at s6 (ig_tile g + 1) ->
    durable s6 /\ core (mkIngest pool' (ig_date g) (ig_tile g + 1) (counted (ig_tile g + 1)) global cache (ig_buf g) (ig_next g)) s6).
  { intros s6 E1 E2 K Hr. assert (Hs6 : all_settled s6 (ig_tile g + 1)) by (by eapply settled_keeps). split; [by eapply row_durable|].
    split; cbn; try done; [| | |by eapply disk_ok_same|lia].
    - etransitivity; [apply Hc|]. by etransitivity.
    - destruct Hpool as [P1 P2]. split; intros m; rewrite E1; [apply P1|apply P2].
    - destruct (co_date _ _ Hc) as (i & E & Ed'). exists i. split; [done|congruence]. }
  apply wp_bind, wp_attempt. eapply wp_mono; [apply (update_progress_wp _ url _ _ _ _ _ r0)|].
  { unfold IngestLogSafe.run_of. rewrite Hp. exact Hr0. }
  { done. }
  intros r s6 H6. assert (H6' : dbs s6 = dbs s5 /\ seens s6 = seens s5 /\ keeps s5 s6 /\ row_at s6 (ig_tile g + 1)).
  { destruct H6 as [->|(d' & r' & -> & Hr' & Hid' & Hn' & Ht')]; [done|]. split; [done|]. split; [done|]. split.
    - apply (grew_keeps ""), grew_set_prog.
    - exists r'. rewrite Hn', Ht'. split_and!; (done || lia). }
  destruct H6' as (E1 & E2 & K & Hr6). destruct r as [[]|e|]; [apply wp_bind, wp_ret, wp_ret| |].
  - split; [by apply Hend|]. intros ? ? [= <- <-]. split; [by apply Hend|done].
  - apply wp_bind, wp_logf, wp_ret.
    destruct (Hend (add_log ("warn: update progress tile " +:+ dec (ig_tile g) +:+ ": " +:+ error_text e) s6)) as [D1 D2]; try done.
    { etransitivity; [done|apply keeps_log]. }
    split; [done|]. by intros ? ? [= <- <-].
  - split; [by apply Hend|done].
Qed.

Lemma store_tile_wp g sent s :
  core g s -> ir_BatchSize req = 0 \/ ig_session g < ir_BatchSize req ->
  wp (store_tile std_parse ct_parse month_order clock req client progressPath issuerPath runID g (leaves_at (ig_tile g)) sent)
     (fun r s' => durable s' /\ forall sent' f, r = Ok (sent', f) -> continued g f s') s.
Proof.
  intros Hc Hlt. unfold store_tile.
  assert (Hstop : forall (r : res (list SubjectRecord * flow)) s', keeps s s' -> progs s' = progs s ->
    (forall sent' f, r = Ok (sent', f) -> continued g f s') -> durable s' /\ forall sent' f, r = Ok (sent', f) -> continued g f s').
  { intros r s' Hk Hp Hf. split; [by eapply durable_keeps|done]. }
  apply wp_bind, wp_logf. set (s1 := add_log _ s). assert (H1 : issuers_only s s1) by apply issuers_only_log.
  apply wp_bind. eapply wp_mono; [apply prefetch_tile_wp|]. intros r s2 H2. pose proof (issuers_only_trans _ _ _ H1 H2) as H02.
  destruct r as [cache|e|]; [|apply Hstop; [by apply issuers_only_keeps|apply (io_progs _ _ H02)|done]..].
  apply wp_bind. eapply wp_mono; [apply tile_entries_wp|]. intros r s3 [H3 Hent]. pose proof (issuers_only_trans _ _ _ H02 H3) as H03.
  destruct r as [[ps count]|e|]; [|apply Hstop; [by apply issuers_only_keeps|apply (io_progs _ _ H03)|done]..].
  destruct (Hent ps count eq_refl) as [-> Hfate].
  assert (Hent' : forall j leaf, leaves_at (ig_tile g) !! j = Some leaf ->
     (exists x, x ∈ map snd ps /\ tile_row (ig_tile g) (Z.of_nat j) leaf x) \/
     (exists line, tile_loss (ig_tile g) (Z.of_nat j) leaf line /\ said s s3 line) \/ left_out (ig_session g + Z.of_nat j)).
  { intros j leaf Hj. destruct (Hfate j leaf Hj) as [?|[(line & Hl & Hs)|?]]; [by left| |by right; right].
    right. left. exists line. split; [done|]. apply (keeps_said s s2 s3); [by apply issuers_only_keeps|done]. }
  clear Hfate Hent. destruct (co_date _ _ Hc) as (i & Edate & Edir).
  apply wp_bind. eapply wp_mono.
  { apply (insert_and_send_wp (ig_tile g) (ig_pool g) ps sent i s3); [|eapply disk_ok_same; [apply H03..|apply Hc]|done].
    eapply issuers_only_pool; [done|apply Hc]. }
  intros r s5 (H5 & Hp5 & Hd5 & Hok). assert (Hk5 : keeps s s5) by (etransitivity; [by apply issuers_only_keeps|done]).
  assert (Hps : progs s5 = progs s) by (rewrite Hp5; apply H03).
  destruct r as [[[pool' sent'] err]|e|]; [|by apply Hstop..].
  destruct (Hok pool' sent' err eq_refl) as (Hpool & Ed' & Herr & Hrows).
  destruct err as [e|]; [apply wp_ret; apply Hstop; [done|done|]; intros ? ? [= <- <-]; by rewrite (Herr e eq_refl)|].
  assert (Hset : all_settled s5 (ig_tile g + 1)).
  { apply (tile_settled g s s3 s5 ps); try done. by apply issuers_only_keeps. }
  rewrite (co_session _ _ Hc) in *. rewrite counted_next by (done || apply Hc). by apply record_tile_wp with (s := s).
Qed.

(** *** The loop *)

Lemma core_keeps g s s' : keeps s s' -> progs s' = progs s -> disk_ok s' -> pool_ok (ig_pool g) s' -> core g s -> core g s'.
Proof.
  intros Hk Hp Hd Hpool [C1 C2 C3 C4 C5 C6 C7 C8 C9]. split; try done; [by etransitivity|by eapply settled_keeps|by eapply row_same].
Qed.

(** A new pool for another date. *)
Lemma core_new_pool g s i : core g s ->
  core (mkIngest (NewSubjectDBPool (Join base (today i))) (today i) (ig_tile g) (ig_session g) (ig_global g) (ig_cache g)
          (ig_buf g) (ig_next g)) s.
Proof. intros [C1 C2 C3 C4 C5 C6 C7 C8 C9]. split; try done; [by apply fresh_pool_ok|by exists i]. Qed.

Lemma flush_core what g s : core g s ->
  wp (flush_warn month_order scan batchSize appendBatchRows pid archiveDir what (ig_pool g))
     (fun r s' => durable s' /\ keeps s s' /\ disk_ok s' /\ progs s' = progs s) s.
Proof.
  intros Hc. destruct (co_date _ _ Hc) as (i & _ & Ed). eapply wp_mono; [by apply (flush_warn_wp what (ig_pool g) s i); try apply Hc|].
  intros r s' (H1 & H2 & H3). split; [by eapply durable_keeps|done].
Qed.

Definition same_place (g g' : ingestion) : Prop :=
  ig_tile g' = ig_tile g /\ ig_session g' = ig_session g /\ ig_buf g' = ig_buf g /\ ig_next g' = ig_next g.

Lemma rollover_wp i g s : core g s ->
  wp (rollover month_order scan batchSize appendBatchRows pid today activeDir0 archiveDir i g)
     (fun r s' => durable s' /\ forall g', r = Ok g' -> core g' s' /\ same_place g g') s.
Proof.
  intros Hc. unfold rollover. destruct (String.eqb (today (S i)) (ig_date g)).
  { apply wp_ret. split; [by eapply core_durable|]. by intros ? [= <-]. }
  apply wp_bind, wp_logf. set (s1 := add_log _ s).
  assert (Hc1 : core g s1) by (eapply core_keeps; [apply keeps_log|done|by eapply disk_ok_same, Hc|apply pool_ok_log, Hc|done]).
  apply wp_bind. eapply wp_mono; [by apply flush_core|]. intros r s2 (Hd & Hk & Hdisk & Hp).
  assert (Hnew : core (mkIngest (NewSubjectDBPool (Join base (today (S i)))) (today (S i)) (ig_tile g) (ig_session g) (ig_global g)
    (ig_cache g) (ig_buf g) (ig_next g)) s2).
  { eapply core_keeps; [exact Hk|done|done| |by apply core_new_pool]. by apply fresh_pool_ok. }
  destruct r as [[]|e|]; [apply wp_ret|by split..]. split; [done|]. by intros ? [= <-].
Qed.

(** The loop goes on to the next tile when this one had entries. *)
Definition turn_post (g : ingestion) (r : res (list SubjectRecord * flow)) (s : store) : Prop :=
  durable s /\ forall sent f, r = Ok (sent, f) ->
    match f with
    | Continue g' => core g' s /\ window g' /\ ig_tile g' = ig_tile g + 1 /\ leaves_at (ig_tile g) <> []
    | Break g' => core g' s
    | Return r => r <> Err (Errorf "out of fuel")
    end.

Lemma ingest_turn_wp i g sent s :
  core g s -> window g -> ir_BatchSize req = 0 \/ ig_session g < ir_BatchSize req ->
  wp (ingest_turn std_parse ct_parse month_order scan batchSize appendBatchRows pid clock today ctx req client activeDir0
        archiveDir progressPath issuerPath runID start i g sent) (turn_post g) s.
Proof.
  intros Hc Hw Hlt. unfold ingest_turn. destruct (ctx i) as [e|].
  { apply wp_ret. split; [by eapply core_durable|]. by intros ? ? [= <- <-]. }
  apply wp_bind. eapply wp_mono; [by apply rollover_wp|]. intros r s1 [Hd1 Hok]. destruct r as [g1|e|]; [|by split..].
  destruct (Hok g1 eq_refl) as (Hc1 & Et & Es & Eb & En). clear Hok.
  assert (Hw1 : window g1) by (destruct Hw as [W1 W2 W3]; split; [by rewrite Eb|by rewrite En, Et|by rewrite Eb, Et]).
  destruct (await_window g1 Hw1 (co_tile _ _ Hc1)) as [Hres Hnext].
  destruct (await_tile client start g1) as [result g2] eqn:Ea. cbn [fst snd] in *.
  assert (Hc2 : core g2 s1) by (unfold await_tile in Ea; injection Ea as _ <-; by destruct Hc1).
  assert (ig_tile g2 = ig_tile g1 /\ ig_session g2 = ig_session g1) as [Et2 Es2] by (unfold await_tile in Ea; by injection Ea as _ <-).
  destruct result as [leaves|e|]; [| |intros fl; by split; [eapply core_durable|]].
  - destruct leaves as [|l leaves]; [apply wp_ret; split; [by eapply core_durable|]; by intros ? ? [= <- <-]|].
    assert (El : l :: leaves = leaves_at (ig_tile g2)) by (unfold leaves_at; by rewrite Et2, <- Hres). rewrite El.
    eapply wp_mono; [apply store_tile_wp; [done|by rewrite Es2, Es]|]. intros r s2 [Hd2 Hf]. split; [done|]. intros sent' f Hr.
    specialize (Hf sent' f Hr). destruct f as [g'|g'|]; [|done..]. destruct Hf as (A & B & D & E). split; [done|].
    split; [apply Hnext; [by rewrite B, Et2|done|done]|]. split; [congruence|]. by rewrite <- Et, <- Et2, <- El.
  - case_match; [|apply wp_ret; split; [by eapply core_durable|]; by intros ? ? [= <- <-]].
    apply wp_bind, wp_logf. set (s2 := add_log _ s1).
    assert (Hc3 : core g2 s2) by (eapply core_keeps; [apply keeps_log|done|by eapply disk_ok_same, Hc2|apply pool_ok_log, Hc2|done]).
    apply wp_bind. eapply wp_mono; [by apply flush_core|]. intros r s3 (Hd & _). destruct r as [[]|e'|]; [apply wp_ret|by split..].
    split; [done|]. by intros ? ? [= <- <-].
Qed.

Lemma session_end_wp g sent s : core g s ->
  wp (session_end month_order scan batchSize appendBatchRows pid archiveDir g sent)
     (fun r s' => durable s' /\ forall sent', r <> Ok (sent', Err (Errorf "out of fuel"))) s.
Proof.
  intros Hc. unfold session_end. apply wp_bind. eapply wp_mono; [by apply flush_core|]. intros r s1 (Hd & Hk & _ & Hp).
  destruct r as [[]|e|]; [|by split..]. apply wp_bind, wp_logf, wp_ret. split; [|done].
  eapply durable_keeps; [|done|exact Hc]. etransitivity; [done|apply keeps_log].
Qed.

(** Each turn takes an entry off the target, or a tile off those before the end. *)
Definition enough (fuel : nat) (g : ingestion) : Prop :=
  if ir_BatchSize req =? 0 then exists T, leaves_at T = [] /\ ig_tile g <= T < ig_tile g + Z.of_nat fuel
  else (Z.to_nat (ir_BatchSize req - ig_session g) <= fuel)%nat.

Lemma enough_next fuel g g' s s' : core g s -> core g' s' -> ir_BatchSize req = 0 \/ ig_session g < ir_BatchSize req ->
  ig_tile g' = ig_tile g + 1 -> leaves_at (ig_tile g) <> [] -> enough (S fuel) g -> enough fuel g'.
Proof.
  intros Hc Hc' Hlt Et Hne. unfold enough. destruct (Z.eqb_spec (ir_BatchSize req) 0) as [E|E].
  - intros (T & HT & H1). exists T. split; [done|]. assert (T <> ig_tile g) by (intros ->; done). lia.
  - intros Hf. rewrite (co_session _ _ Hc'), Et. pose proof (co_tile _ _ Hc). rewrite (co_session _ _ Hc) in *.
    rewrite <- counted_next by done. unfold advance_count. rewrite (proj2 (Z.eqb_neq _ _)) by done.
    assert (0 < length (leaves_at (ig_tile g)))%nat by (destruct (leaves_at (ig_tile g)); [done|cbn; lia]). lia.
Qed.

Definition ended (fuel : nat) (g : ingestion) (r : res (list SubjectRecord * res unit)) (s : store) : Prop :=
  durable s /\ (enough fuel g -> forall sent, r <> Ok (sent, Err (Errorf "out of fuel"))).

Lemma ingest_loop_wp fuel : forall i g sent s, core g s -> window g ->
  wp (ingest_loop std_parse ct_parse month_order scan batchSize appendBatchRows pid clock today ctx fuel req client activeDir0
        archiveDir progressPath issuerPath runID start i g sent) (ended fuel g) s.
Proof.
  assert (Hfin : forall fuel g g' sent s, core g' s ->
    wp (session_end month_order scan batchSize appendBatchRows pid archiveDir g' sent) (ended fuel g) s).
  { intros fuel0 g g' sent s Hc. eapply wp_mono; [by apply session_end_wp|]. intros r s' [Hd Hr]. split; [done|]. intros _. apply Hr. }
  induction fuel as [|fuel IH]; intros i g sent s Hc Hw; cbn [ingest_loop];
    destruct (negb ((ir_BatchSize req =? 0) || (ig_session g <? ir_BatchSize req))) eqn:Ec; try by apply Hfin.
  all: assert (Hlt : ir_BatchSize req = 0 \/ ig_session g < ir_BatchSize req)
    by (apply negb_false_iff, orb_true_iff in Ec as [E|E]; [left; by apply Z.eqb_eq|right; by apply Z.ltb_lt]).
  { apply wp_ret. split; [by eapply core_durable|]. unfold enough. destruct (Z.eqb_spec (ir_BatchSize req) 0); [intros (T & _ & ?)|]; lia. }
  apply wp_bind. eapply wp_mono; [by apply ingest_turn_wp|]. intros r s1 [Hd Hok].
  destruct r as [[sent' f]|e|]; [|by split..]. specialize (Hok sent' f eq_refl). destruct f as [g'|g'|r].
  - destruct Hok as (Hc' & Hw' & Et & Hne). eapply wp_mono; [by apply IH|]. intros r s' [Hd' Hr]. split; [done|].
    intros He. apply Hr. by apply (enough_next fuel g g' s s1).
  - by apply Hfin.
  - apply wp_ret. split; [done|]. intros _ sent'' [= _ ->]. by apply Hok.
Qed.

End Run.

End Session.

(** *** The set-up *)

Section Handler.

Context (std_parse ct_parse : bytes -> res Certificate) (month_order : gset string -> list string).
Context (scan : db -> res (list bytes)) (batchSize appendBatchRows pid : Z).
Context (clock : Z -> string) (today : nat -> string) (ctx : nat -> option error) (getf : string -> res bytes).
Context (req : IngestRequest).

Definition active_dir : string := dir_or "data/active/" (ir_OutputDir req).
Definition archive_dir : string := dir_or "/Volumes/wd_office_2/datasets/CT/" (ir_ArchiveDir req).
Definition progress_path : string := join_dir archive_dir "progress.db".
Definition log_client : tile_client := NewTileClient getf (ir_MonitoringApiRoot req).

#[local] Abbreviation base := (trim_suffix active_dir "/").
#[local] Abbreviation root := (trim_suffix archive_dir "/").
#[local] Abbreviation next_of := (next_of progress_path (ir_MonitoringApiRoot req)).
#[local] Abbreviation total_of := (total_of progress_path (ir_MonitoringApiRoot req)).

Hypothesis Horder : forall x, month_order x ≡ₚ elements x.
Hypothesis Hscan : forall d hs, scan d = Ok hs -> forall h, h ∈ hs -> h ∈ hashes d.
Hypothesis Hpid : 0 <= pid.
Hypothesis Hb : 1 <= appendBatchRows.
Hypothesis Hsep : forall i, separate (Join base (today i)) root /\ separate root (Join base (today i)).
Hypothesis Hdates : forall i, str_forallb (fun c => negb (Ascii.eqb c "/")) (today i) = true.

Variable s0 : store.
Hypothesis Hdisk : disk_ok today active_dir archive_dir s0.

#[local] Abbreviation durable := (durable std_parse ct_parse today req log_client active_dir archive_dir progress_path s0 (next_of s0) (total_of s0)).

(** Nothing that the session cares about has changed. *)
Record same_start (s : store) : Prop := {
  sa_dbs : dbs s = dbs s0;
  sa_seens : seens s = seens s0;
  sa_log : exists lines, logged s = logged s0 ++ lines;
  sa_next : next_of s = next_of s0;
  sa_total : total_of s = total_of s0 }.

Lemma same_start_refl : same_start s0.
Proof. split; try done. exists []. by rewrite app_nil_r. Qed.

Lemma same_start_durable s : 0 <= ir_BatchSize req -> same_start s -> durable s.
Proof.
  intros HB [_ _ _ E1 E2]. split; [by rewrite E1| |rewrite E1; intros t j leaf Ht; lia].
  rewrite E1, E2, counted_start by done. lia.
Qed.

Lemma same_start_keeps s : same_start s -> keeps today active_dir archive_dir s0 s.
Proof.
  intros [E _ El _ _]. split; [|done]. intros x [Hx|[i Hx]]; [left|right; exists i]; (eapply held_at_ext; [|exact Hx]); by rewrite E.
Qed.

Lemma same_start_log s line : same_start s -> same_start (add_log line s).
Proof. intros [E1 E2 (l & E3) E4 E5]. split; try done. exists (l ++ [line]). cbn. by rewrite E3, app_assoc. Qed.

(** Steps that only touch the run's row keep it. *)
Lemma same_start_prog s s' : only_prog progress_path s s' -> next_of s' = next_of s -> total_of s' = total_of s ->
  same_start s -> same_start s'.
Proof. intros [->|[d ->]] E1 E2 [S1 S2 S3 S4 S5]; split; try done; congruence. Qed.

Lemma open_progress_same s : same_start s ->
  wp (OpenProgressDB progress_path) (fun r s' => same_start s' /\ (r = Ok tt -> is_Some (progs s' !! progress_path))) s.
Proof.
  intros Hs. unfold OpenProgressDB. apply wp_bind, wp_wrap, wp_nop; [done..|]. cbn [wrap_err]. apply wp_bind, wp_nop; [done..|].
  apply wp_bind, wp_wrap, wp_nop; [done..|]. cbn [wrap_err]. apply wp_bind, wp_wrap, wp_nop; [done..|]. cbn [wrap_err].
  apply wp_wrap, wp_step; [done..|]. cbn [fst snd wrap_err]. destruct (progs s !! progress_path) as [d|] eqn:Ed; [by split; [|eexists]|].
  split; [|intros _; cbn; rewrite lookup_insert_eq; by eexists].
  eapply (same_start_prog s); [right; by eexists| | |done];
    unfold IngestLogSafe.next_of, IngestLogSafe.total_of, run_of; cbn; by rewrite lookup_insert_eq, Ed.
Qed.

Lemma open_issuers_same path s : same_start s -> is_Some (progs s !! progress_path) ->
  wp (OpenIssuerDB path) (fun r s' => same_start s' /\ progs s' = progs s) s.
Proof.
  intros Hs Hp. unfold OpenIssuerDB. apply wp_bind, wp_wrap, wp_nop; [done..|]. cbn [wrap_err]. apply wp_bind, wp_nop; [done..|].
  apply wp_wrap, wp_step; [done..|]. cbn [fst snd]. destruct (issdbs s !! path); [done|]. split; [|done]. by destruct Hs.
Qed.

(** [fuel] tiles are enough: for the target, or up to a tile that is not there. *)
Definition enough_fuel (fuel : nat) : Prop :=
  if ir_BatchSize req =? 0
  then exists T, leaves_at log_client T = [] /\ next_of s0 <= T < next_of s0 + Z.of_nat fuel
  else (Z.to_nat (ir_BatchSize req) <= fuel)%nat.

Definition over (fuel : nat) (r : res (list SubjectRecord * res unit)) (s : store) : Prop :=
  durable s /\ (enough_fuel fuel -> forall sent, r <> Ok (sent, Err (Errorf "out of fuel"))).

Lemma or_internal_wp {A} fuel msg (m : M A) k s :
  wp m (fun r s' => durable s' /\ forall a, r = Ok a -> wp (k a) (over fuel) s') s ->
  wp (or_internal msg m k) (over fuel) s.
Proof.
  intros H. unfold or_internal. apply wp_bind, wp_attempt. eapply wp_mono; [exact H|]. intros r s' [Hd Hk].
  destruct r as [a|e|]; [by apply Hk|apply wp_ret; by split|by split].
Qed.

(** The start of the loop. *)
Lemma start_core s run (buf : list (res (list TileLeaf))) nx : 0 <= ir_BatchSize req -> same_start s ->
  run_of progress_path (ir_MonitoringApiRoot req) s = Some run -> rr_next_tile_idx run = next_of s0 -> rr_total_processed run = total_of s0 ->
  core std_parse ct_parse today req log_client active_dir archive_dir progress_path s0 (next_of s0) (total_of s0) (rr_id run)
    (mkIngest (NewSubjectDBPool (join_dir active_dir (today 0))) (today 0) (next_of s0) 0 (total_of s0) ∅ buf nx) s.
Proof.
  intros HB Hs Hrun E1 E2. pose proof (counted_start req log_client (next_of s0) HB) as Hc.
  assert (Hd : disk_ok today active_dir archive_dir s) by (eapply disk_ok_same; [apply Hs..|done]).
  split; cbn; try done.
  - by apply same_start_keeps.
  - by eapply fresh_pool_ok.
  - by exists 0%nat.
  - intros t j leaf Ht. lia.
  - exists run. rewrite E1, E2, Hc. split_and!; (done || lia).
  - lia.
Qed.

Lemma start_window nx : window log_client nx
  (mkIngest (NewSubjectDBPool (join_dir active_dir (today 0))) (today 0) nx 0 (total_of s0) ∅
     (map (fun k => FetchTile log_client (nx + k) 256) (seqZ 0 (Z.of_nat tileFetchLookahead))) (nx + Z.of_nat tileFetchLookahead)).
Proof.
  split; cbn [ig_buf ig_next ig_tile]; [by rewrite length_map, length_seqZ|done|]. intros k Hk. unfold slot.
  replace (nx + k - nx) with k by lia. rewrite Z.mod_small by done. rewrite list_lookup_fmap, lookup_seqZ_lt by lia. cbn. f_equal. f_equal. lia.
Qed.

(** What follows the opening of ingestion.log. *)
Definition session_body (fuel : nat) : M (list SubjectRecord * res unit) :=
  or_internal "get run" (GetOrCreateRun progress_path (clock (-1)) (ir_MonitoringApiRoot req)) (fun run =>
    let@ _ := if 0 <? rr_next_tile_idx run
              then logf ("resuming from tile " +:+ dec (rr_next_tile_idx run) +:+ " (total previously mirrored: "
                         +:+ dec (rr_total_processed run) +:+ ")")
              else ret tt in
    or_internal "open global issuers db" (OpenIssuerDB (join_dir archive_dir "issuers.db")) (fun _ =>
      ingest_loop std_parse ct_parse month_order scan batchSize appendBatchRows pid clock today ctx fuel req log_client active_dir
        archive_dir progress_path (join_dir archive_dir "issuers.db") (rr_id run) (rr_next_tile_idx run) 0
        (mkIngest (NewSubjectDBPool (join_dir active_dir (today 0))) (today 0) (rr_next_tile_idx run) 0 (rr_total_processed run) ∅
           (map (fun k => FetchTile log_client (rr_next_tile_idx run + k) 256) (seqZ 0 (Z.of_nat tileFetchLookahead)))
           (rr_next_tile_idx run + Z.of_nat tileFetchLookahead)) [])).

Lemma session_body_wp fuel s : 0 <= ir_BatchSize req -> same_start s -> is_Some (progs s !! progress_path) ->
  wp (session_body fuel) (over fuel) s.
Proof.
  intros HB Hs Hp. apply or_internal_wp. eapply wp_mono; [by apply get_or_create_run_wp|]. intros r s1 (H1 & En & Et & Hrun).
  assert (Hs1 : same_start s1) by (by eapply same_start_prog). split; [by apply same_start_durable|]. intros run ->.
  destruct (Hrun run eq_refl) as (Hr & E1 & E2). rewrite (sa_next _ Hs) in E1. rewrite (sa_total _ Hs) in E2. rewrite E1, E2.
  assert (Hopen : forall s2, same_start s2 -> progs s2 = progs s1 -> wp (or_internal "open global issuers db"
    (OpenIssuerDB (join_dir archive_dir "issuers.db")) (fun _ =>
      ingest_loop std_parse ct_parse month_order scan batchSize appendBatchRows pid clock today ctx fuel req log_client active_dir
        archive_dir progress_path (join_dir archive_dir "issuers.db") (rr_id run) (next_of s0) 0
        (mkIngest (NewSubjectDBPool (join_dir active_dir (today 0))) (today 0) (next_of s0) 0 (total_of s0) ∅
           (map (fun k => FetchTile log_client (next_of s0 + k) 256) (seqZ 0 (Z.of_nat tileFetchLookahead)))
           (next_of s0 + Z.of_nat tileFetchLookahead)) [])) (over fuel) s2).
  { intros s2 H2 Ep. assert (Hrun2 : run_of progress_path (ir_MonitoringApiRoot req) s2 = Some run) by (unfold run_of in *; by rewrite Ep).
    apply or_internal_wp. eapply wp_mono; [apply open_issuers_same; [done|]|].
    { revert Hr. unfold run_of. rewrite Ep. destruct (progs s1 !! progress_path); [by eexists|done]. }
    intros r s3 [H3 Ep3]. split; [by apply same_start_durable|]. intros [] ->.
    eapply wp_mono; [apply ingest_loop_wp; try done; [|apply start_window]|].
    { apply start_core; try done. unfold run_of in *. by rewrite Ep3. }
    intros r s4 [H4 Hr4]. split; [done|]. intros He. apply Hr4. revert He. unfold enough, enough_fuel. cbn [ig_tile ig_session].
    by rewrite Z.sub_0_r. }
  destruct (0 <? next_of s0); [apply wp_bind, wp_logf, Hopen|by apply wp_bind, wp_ret, Hopen]; [by apply same_start_log|done].
Qed.

Lemma ingest_log_wp fuel : 0 <= ir_BatchSize req ->
  wp (IngestLog std_parse ct_parse month_order scan batchSize appendBatchRows pid clock today ctx getf fuel req)
     (over fuel) s0.
Proof.
  intros HB. pose proof (same_start_durable s0 HB same_start_refl) as Hd0. unfold IngestLog.
  destruct (String.eqb _ ""); [by apply wp_ret; split|]. destruct (ir_BatchSize req <? 0); [by apply wp_ret; split|]. cbn zeta.
  fold active_dir archive_dir. fold progress_path. fold log_client.
  apply or_internal_wp, wp_nop; [by split..|]. split; [done|]. intros _ _.
  apply or_internal_wp, wp_nop; [by split..|]. split; [done|]. intros _ _.
  apply or_internal_wp. eapply wp_mono; [by apply open_progress_same, same_start_refl|]. intros r s1 [H1 Hp1].
  split; [by apply same_start_durable|]. intros [] ->. specialize (Hp1 eq_refl).
  assert (Hrest : forall s2, same_start s2 -> progs s2 = progs s1 -> wp (session_body fuel) (over fuel) s2).
  { intros s2 H2 Ep. apply session_body_wp; [done..|by rewrite Ep]. }
  apply wp_bind, wp_attempt, wp_nop; [|split; [by apply same_start_durable|done]|].
  - apply wp_bind, wp_logf, Hrest; [by apply same_start_log|done].
  - by apply wp_bind, wp_ret, Hrest.
Qed.

End Handler.
