(* ===== verification/IngestLogLive.v ===== *)
(** IngestLog when nothing fails: a continuous session catches up — it sends the
    records of all entries in order, archives their rows and counts them. *)

From S2P Require Import Prelude GoStd Sha256 FileSys CtlogParse CtlogClient Sql SubjectDB Dedup DedupLive FlushFrame Progress Ctlist.
From S2P Require Import LogClient Leaf Worker WorkerSafe System SystemSafe WorkerLive IngestLog IngestLogSafe.

#[local] Open Scope sql_scope.

(** ** Lemmas *)

(** *** A batch, when nothing fails *)

Lemma insert_months_quiet p subjects months s : pool_ok p s -> unopened p s ->
  quiet (insert_months p subjects months) (fun x s' => x.2 = Ok tt /\ logged s' = logged s /\ unopened x.1 s') s.
Proof.
  revert p s. induction months as [|m months IH]; intros p s Hp Hu; cbn [insert_months]; [by apply quiet_ret|].
  apply quiet_bind, quiet_attempt. eapply quiet_mono; [by apply get_or_open_quiet|].
  intros p1 s1 (_ & _ & El & Hle & Hm & Hp1 & Hu1). apply quiet_bind, quiet_attempt.
  eapply quiet_mono; [apply insert_quiet; try done; by intros x [? _]%list_elem_of_filter|].
  intros [] s2 (_ & _ & El2 & Hp2 & Hu2 & _). eapply quiet_mono; [by apply IH|].
  intros x s' (E & El' & Hu'). split; [done|]. split; [congruence|done].
Qed.

Section Session.

Context (std_parse ct_parse : bytes -> res Certificate) (month_order : gset string -> list string).
Context (scan : db -> res (list bytes)) (batchSize appendBatchRows pid : Z).
Context (clock : Z -> string) (today : nat -> string) (ctx : nat -> option error).
Context (req : IngestRequest) (client : tile_client) (activeDir0 archiveDir progressPath issuerPath : string).

Hypothesis Hstd : forall der, std_parse der <> Panic.
Hypothesis Hct : forall der, ct_parse der <> Panic.

(** *** Issuers and entries *)

Lemma upsert_all_runs results cache s : runs (upsert_all issuerPath results cache) s.
Proof.
  revert cache s. induction results as [|[fp info] results IH]; intros cache s; cbn [upsert_all]; [by apply quiet_ret|].
  apply quiet_bind. eapply quiet_mono; [apply upsert_runs|]. intros [id|e] s1 _; [apply IH|].
  apply quiet_bind. eexists _, _. split; [reflexivity|]. apply IH.
Qed.

Lemma prefetch_tile_quiet leaves cache s :
  quiet (prefetchIssuers std_parse ct_parse leaves client issuerPath cache) (fun _ s' => issuers_only s s') s.
Proof.
  eapply quiet_wp; [apply prefetch_tile_wp| |done].
  unfold prefetchIssuers. destruct (new_fps _ _ _); [by apply quiet_ret|apply upsert_all_runs].
Qed.

(** The certificate can be parsed. *)
Definition parses (leaf : TileLeaf) : bool := is_ok (parseCert std_parse ct_parse leaf).

Lemma process_leaf_parses leaf t j uri cache :
  if parses leaf then exists rec x, processLeaf std_parse ct_parse leaf t j uri cache = Ok (rec, x)
  else exists e, processLeaf std_parse ct_parse leaf t j uri cache = Err e.
Proof.
  assert (Hp : parseCert std_parse ct_parse leaf <> Panic).
  { unfold parseCert. destruct (tl_Certificate leaf) as [|b der]; [done|]. unfold parseAnyCert.
    specialize (Hstd (b :: der)). specialize (Hct (b :: der)). by destruct (std_parse _), (ct_parse _). }
  unfold parses, processLeaf. destruct (parseCert _ _ _); [by eexists _, _|by eexists|done].
Qed.

(** The entries of a tile with their positions. *)
Fixpoint indexed (t k : Z) (leaves : list TileLeaf) : list (Z * Z * TileLeaf) :=
  match leaves with [] => [] | leaf :: leaves => (t, k, leaf) :: indexed t (k + 1) leaves end.

(** What an entry yields, whatever the issuers. *)
Definition yields (e : Z * Z * TileLeaf) (p : SubjectRecord * Subject) : Prop :=
  exists cache, processLeaf std_parse ct_parse e.2 e.1.1 e.1.2 (entry_uri client e.1.1 e.1.2) cache = Ok p.

Definition good_entries (es : list (Z * Z * TileLeaf)) : list (Z * Z * TileLeaf) := filter (fun e => parses e.2 = true) es.

Lemma tile_entries_quiet t cache leaves : ir_BatchSize req = 0 -> forall k count s,
  quiet (tile_entries std_parse ct_parse req client t k cache count leaves)
    (fun x s' => issuers_only s s' /\ Forall2 yields (good_entries (indexed t k leaves)) x.1) s.
Proof.
  intros HB. induction leaves as [|leaf leaves IH]; intros k count s; cbn [tile_entries indexed].
  { apply quiet_ret. split; [apply issuers_only_refl|]. constructor. }
  rewrite HB. cbn [Z.eqb negb andb]. pose proof (process_leaf_parses leaf t k (entry_uri client t k) cache) as Hp.
  unfold good_entries. rewrite filter_cons. cbn [snd]. destruct (parses leaf).
  - destruct Hp as (rec & x & E). rewrite E, decide_True by done. apply quiet_bind. eapply quiet_mono; [apply IH|].
    intros [ps c] s' [H1 H2]. apply quiet_ret. split; [done|]. constructor; [by exists cache|exact H2].
  - destruct Hp as [e E]. rewrite E, decide_False by done. apply quiet_bind. eexists _, _. split; [reflexivity|].
    eapply quiet_mono; [apply IH|]. intros [ps c] s' [H1 H2]. split; [|exact H2].
    eapply issuers_only_trans; [apply issuers_only_log|exact H1].
Qed.

Lemma send_records_quiet recs sent s : quiet (send_records recs sent) (fun x s' => x = (sent ++ recs, None) /\ s' = s) s.
Proof.
  revert sent. induction recs as [|rec recs IH]; intros sent; cbn [send_records]; [apply quiet_ret; by rewrite app_nil_r|].
  apply quiet_bind, quiet_attempt, quiet_nop. eapply quiet_mono; [apply IH|]. intros x s' [-> ->]. by rewrite <- app_assoc.
Qed.

(** *** A tile *)

Hypothesis Horder : forall x, month_order x ≡ₚ elements x.

Lemma issuers_only_unopened p s s' : issuers_only s s' -> unopened p s -> unopened p s'.
Proof. intros H Hu m Hm. rewrite (io_dbs _ _ H). by apply Hu. Qed.

(** From [s] to [s'] only months under [dir] have grown, and the rows of [ps] are there. *)
Definition rows_in (dir : string) (s s' : store) (ps : list (SubjectRecord * Subject)) : Prop :=
  grew dir s s' /\ progs s' = progs s /\ forall x, x ∈ map snd ps -> kept dir s' x.

Lemma insert_and_send_quiet t pool ps sent s : pool_ok pool s -> unopened pool s ->
  quiet (insert_and_send month_order t pool ps sent)
    (fun x s' => exists pool', x = (pool', sent ++ map fst ps, None) /\ pool_ok pool' s' /\ activeDir pool' = activeDir pool /\
       unopened pool' s' /\ rows_in (activeDir pool) s s' ps) s.
Proof.
  intros Hp Hu. unfold insert_and_send. destruct ps as [|p0 ps0] eqn:Eps.
  { apply quiet_ret. exists pool. rewrite app_nil_r. split_and!; try done. split_and!; try done. by intros x ?%elem_of_nil. }
  rewrite <- Eps. clear p0 ps0 Eps. apply quiet_bind.
  eapply quiet_mono; [apply quiet_and; [by apply insert_months_quiet|by apply pool_batch_wp]|].
  intros [pool' o] s1 [(Eo & _ & Hu1) (Hg & [T1 _] & Hp1 & Hok)]. cbn [fst snd] in *. subst o.
  destruct (Hok pool' (Ok tt) eq_refl) as (Hle & Hpo & _ & Hrows). apply quiet_bind, quiet_ret, quiet_bind.
  eapply quiet_mono; [apply send_records_quiet|]. intros [sent' err] s2 [[= -> ->] ->]. apply quiet_ret.
  exists pool'. split; [done|]. split; [done|]. split; [apply Hle|]. split; [done|]. split; [done|]. split; [done|]. by apply Hrows.
Qed.

#[local] Abbreviation url := (ir_MonitoringApiRoot req).

Lemma update_progress_quiet now id next total s r0 : run_of progressPath url s = Some r0 -> rr_id r0 = id ->
  quiet (UpdateProgress progressPath now id next total)
    (fun _ s' => next_of progressPath url s' = next /\ exists d', s' = set_prog progressPath d' s) s.
Proof.
  unfold run_of. intros Hr Hid. destruct (progs s !! progressPath) as [d|] eqn:Hd; [|done]. cbn in Hr.
  apply quiet_wrap. eapply quiet_prog_stmt; [done|done|]. split; [|by eexists].
  unfold next_of, run_of. cbn [progs set_prog]. rewrite lookup_insert_eq. cbn [mbind option_bind].
  rewrite select_run_map by (intros r; unfold advance_run; by case_match). rewrite Hr. cbn [option_map].
  unfold advance_run. by rewrite Hid, Z.eqb_refl.
Qed.

(** The records of the tile are sent, its rows are in the pool's directory, and the
    run's row has advanced. *)
Definition tile_done (t : Z) (pool : SubjectDBPool) (leaves : list TileLeaf) (sent : list SubjectRecord) (s : store)
    (x : list SubjectRecord * flow) (s' : store) : Prop :=
  exists ps g', x = (sent ++ map fst ps, Continue g') /\ Forall2 yields (good_entries (indexed t 0 leaves)) ps /\
    unopened (ig_pool g') s' /\ grew (activeDir pool) s s' /\ (forall x, x ∈ map snd ps -> kept (activeDir pool) s' x) /\
    next_of progressPath url s' = t + 1.

Lemma store_tile_quiet runID g leaves sent s r0 :
  ir_BatchSize req = 0 -> pool_ok (ig_pool g) s -> unopened (ig_pool g) s ->
  run_of progressPath url s = Some r0 -> rr_id r0 = runID ->
  quiet (store_tile std_parse ct_parse month_order clock req client progressPath issuerPath runID g leaves sent)
    (tile_done (ig_tile g) (ig_pool g) leaves sent s) s.
Proof.
  intros HB Hp Hu Hr Hid. unfold store_tile. apply quiet_bind. eexists _, _. split; [reflexivity|].
  set (s1 := add_log _ s). assert (H1 : issuers_only s s1) by apply issuers_only_log.
  apply quiet_bind. eapply quiet_mono; [apply prefetch_tile_quiet|]. intros cache s2 H2.
  apply quiet_bind. eapply quiet_mono; [by apply tile_entries_quiet|]. intros [ps count] s3 [H3 Hps]. cbn [fst] in Hps.
  assert (H03 : issuers_only s s3) by (eapply issuers_only_trans; [|done]; by eapply issuers_only_trans).
  apply quiet_bind. eapply quiet_mono.
  { apply insert_and_send_quiet; [by eapply issuers_only_pool|by eapply issuers_only_unopened]. }
  intros [[pool' sent'] err] s4 (pool2 & [= -> -> ->] & Hp4 & Ed & Hu4 & Hg4 & Epr & Hrows).
  apply quiet_bind, quiet_attempt. eapply quiet_mono; [eapply (update_progress_quiet _ _ _ _ _ r0)|].
  { unfold run_of. rewrite Epr, (io_progs _ _ H03). exact Hr. }
  { done. }
  intros [] s5 [Hn [d' ->]]. apply quiet_bind, quiet_ret, quiet_ret. eexists ps, _. split; [reflexivity|].
  split; [done|]. split; [exact Hu4|]. split; [|by split].
  etransitivity; [by apply issuers_only_grew|]. etransitivity; [done|apply grew_set_prog].
Qed.

(** *** The loop *)

#[local] Abbreviation base := (trim_suffix activeDir0 "/").
#[local] Abbreviation root := (trim_suffix archiveDir "/").
#[local] Abbreviation dir := (Join base (today 0)).

Hypothesis Hscan : forall d hs, scan d = Ok hs -> forall h, h ∈ hs -> h ∈ hashes d.
Hypothesis Hscan_ok : forall d, is_ok (scan d) = true.
Hypothesis Hpid : 0 <= pid.
Hypothesis Hb : 1 <= appendBatchRows.
Hypothesis Hsep : forall i, separate (Join base (today i)) root /\ separate root (Join base (today i)).
Hypothesis Hdates : forall i, str_forallb (fun c => negb (Ascii.eqb c "/")) (today i) = true.
(** The session stays within a day and is not cancelled. *)
Hypothesis Htoday : forall i, today i = today 0.
Hypothesis Hctx : forall i, ctx i = None.
Hypothesis HB : ir_BatchSize req = 0.

Definition untorn (s : store) : Prop := forall m, dbs s !! month_path root m <> Some Torn.

Lemma flush_warn_quiet what p s : activeDir p = dir -> pool_ok p s -> disk_ok today activeDir0 archiveDir s -> unopened p s -> untorn s ->
  quiet (flush_warn month_order scan batchSize appendBatchRows pid archiveDir what p)
    (fun _ s' => progs s' = progs s /\ forall x, kept dir s x -> kept root s' x) s.
Proof.
  intros Ed [P1 P2] [_ Hsound] Hu Ht. assert (Edir : Dir (activeDir p) = base) by (by rewrite Ed; apply Dir_Join).
  unfold flush_warn. apply quiet_bind.
  eapply (quiet_mono _ (fun x s' => x = (mkPool ∅ (activeDir p), None) /\ progs s' = progs s /\ forall x, kept dir s x -> kept root s' x)).
  2: { intros [p' e] s' ([= -> ->] & H). by apply quiet_ret. }
  destruct (flush_all_quiet scan batchSize appendBatchRows pid month_order p root s) as (s' & E & Hall); try done.
  { intros m m'. rewrite Ed. apply Hsep. }
  { intros m Hm. rewrite Horder in Hm. apply elem_of_elements in Hm. destruct (P2 m Hm) as [d Hd]. exists d. eauto. }
  { by rewrite Edir. }
  exists (mkPool ∅ (activeDir p), None), s'. split; [done|]. split; [done|]. split.
  - pose proof (flush_all_tables scan batchSize appendBatchRows pid s month_order p root s (conj eq_refl (conj eq_refl eq_refl)) []) as Hw.
    rewrite E in Hw. apply Hw.
  - intros x Hx. unfold kept in *. set (m := certMonth (NotBefore x)) in *.
    destruct (decide (m ∈ pool_dbs p)) as [Hm|Hm]; [destruct (Hall m Hm) as [_ H]; apply H; by rewrite Ed|].
    destruct Hx as (d & Hd & _). rewrite <- Ed, Hu in Hd by done. done.
Qed.

Section Run.

Context (s0 : store) (start total0 runID : Z).

#[local] Abbreviation core := (core std_parse ct_parse today req client activeDir0 archiveDir progressPath s0 start total0 runID).
#[local] Abbreviation window := (window client start).

(** The entries of the tiles from [start] to [t]. *)
Definition entries_to (t : Z) : list (Z * Z * TileLeaf) := seqZ start (t - start) ≫= (fun u => indexed u 0 (leaves_at client u)).

Lemma entries_next t : start <= t -> entries_to (t + 1) = entries_to t ++ indexed t 0 (leaves_at client t).
Proof.
  intros Ht. unfold entries_to. replace (t + 1 - start) with (t - start + 1) by lia. rewrite seqZ_app by lia.
  replace (start + (t - start)) with t by lia. change (seqZ t 1) with [0 + t]. rewrite bind_app, bind_cons. cbn. by rewrite app_nil_r.
Qed.

(** What a session that nothing disturbs has done when it is at [ig_tile g]. *)
Record smooth (g : ingestion) (sent : list SubjectRecord) (s : store) : Prop := {
  sm_core : core g s;
  sm_window : window g;
  sm_date : ig_date g = today 0;
  sm_unopened : unopened (ig_pool g) s;
  sm_untorn : untorn s;
  sm_next : next_of progressPath url s = ig_tile g;
  sm_sent : Forall2 (fun e rec => exists x, yields e (rec, x)) (good_entries (entries_to (ig_tile g))) sent;
  sm_rows : forall e, e ∈ good_entries (entries_to (ig_tile g)) -> exists rec x, yields e (rec, x) /\ kept dir s x }.

#[local] Abbreviation turn_at := (ingest_turn std_parse ct_parse month_order scan batchSize appendBatchRows pid clock today ctx req
  client activeDir0 archiveDir progressPath issuerPath runID start).

Lemma smooth_turn i g sent s : smooth g sent s -> leaves_at client (ig_tile g) <> [] ->
  quiet (turn_at i g sent)
    (fun x s' => exists g' sent', x = (sent', Continue g') /\ smooth g' sent' s' /\ ig_tile g' = ig_tile g + 1) s.
Proof.
  intros Hs Hne. pose proof (sm_core _ _ _ Hs) as Hc. pose proof (co_tile _ _ _ _ _ _ _ _ _ _ _ _ _ _ Hc) as Htile.
  assert (Ed : activeDir (ig_pool g) = dir) by (destruct (co_date _ _ _ _ _ _ _ _ _ _ _ _ _ _ Hc) as (i0 & _ & ->); by rewrite Htoday).
  destruct (co_row _ _ _ _ _ _ _ _ _ _ _ _ _ _ Hc) as (r0 & Hr0 & Hid & _).
  destruct (await_window client start g (sm_window _ _ _ Hs) Htile) as [Hres _].
  eapply quiet_mono; [apply (quiet_and _ (tile_done (ig_tile g) (ig_pool g) (leaves_at client (ig_tile g)) sent s)); [|eapply ingest_turn_wp; try done; [apply Hs|by left]]|].
  { unfold ingest_turn. rewrite Hctx. apply quiet_bind. unfold rollover. rewrite (sm_date _ _ _ Hs), Htoday, String.eqb_refl.
    apply quiet_ret. destruct (await_tile client start g) as [result g2] eqn:Ea. cbn [fst] in Hres. subst result.
    assert (ig_tile g2 = ig_tile g /\ ig_pool g2 = ig_pool g /\ ig_date g2 = ig_date g) as (Et & Ep & Edt)
      by (unfold await_tile in Ea; by injection Ea as _ <-).
    assert (El : FetchTile client (ig_tile g) 256 = Ok (leaves_at client (ig_tile g))).
    { unfold leaves_at in *. by destruct (FetchTile client (ig_tile g) 256). }
    rewrite El. destruct (leaves_at client (ig_tile g)) as [|l ls] eqn:Els; [done|]. rewrite <- Els.
    rewrite <- Et, <- Ep. apply (store_tile_quiet runID g2 (leaves_at client (ig_tile g2)) sent s r0 HB); [by rewrite Ep; apply Hc|by rewrite Ep; apply Hs|done|done]. }
  intros [sent' f] s' [(ps & g' & [= -> ->] & Hps & Hu & Hg & Hrows & Hn) [_ Hok]]. rewrite Ed in *.
  destruct (Hok _ _ eq_refl) as (Hc' & Hw' & Et & _). exists g', (sent ++ map fst ps). split; [done|]. split; [|done].
  assert (Egood : good_entries (entries_to (ig_tile g')) = good_entries (entries_to (ig_tile g)) ++ good_entries (indexed (ig_tile g) 0 (leaves_at client (ig_tile g)))).
  { rewrite Et, entries_next by done. unfold good_entries. apply filter_app. }
  split; [done|done| |done| |congruence| |].
  - destruct (co_date _ _ _ _ _ _ _ _ _ _ _ _ _ _ Hc') as (j & -> & _). apply Htoday.
  - intros m. rewrite (gr_other _ _ _ Hg); [apply (sm_untorn _ _ _ Hs)|]. intros m'. apply Hsep.
  - rewrite Egood. apply Forall2_app; [apply Hs|]. apply Forall2_fmap_r. eapply Forall2_impl; [exact Hps|].
    intros e [rec x] He. by exists x.
  - rewrite Egood. intros e [He|He]%elem_of_app.
    + destruct (sm_rows _ _ _ Hs e He) as (rec & x & Hy & Hk). exists rec, x. split; [done|]. by eapply kept_mono.
    + apply list_elem_of_lookup in He as [j Hj]. destruct (Forall2_lookup_l _ _ _ _ _ Hps Hj) as ([rec x] & Hp & Hy).
      exists rec, x. split; [done|]. apply Hrows. apply list_elem_of_fmap. exists (rec, x). split; [done|]. by eapply list_elem_of_lookup_2.
Qed.

(** What a session that caught up at tile [T] leaves. *)
Definition caught_up (T : Z) (x : list SubjectRecord * res unit) (s : store) : Prop :=
  x.2 = Ok tt /\ next_of progressPath url s = T /\
  Forall2 (fun e rec => exists x, yields e (rec, x)) (good_entries (entries_to T)) x.1 /\
  forall e, e ∈ good_entries (entries_to T) -> exists rec x, yields e (rec, x) /\ kept root s x.

Lemma smooth_end i g sent s e : smooth g sent s -> FetchTile client (ig_tile g) 256 = Err e -> IsNotFound e = true ->
  quiet (turn_at i g sent) (fun x s' => x.2 = Return (Ok tt) /\ caught_up (ig_tile g) (x.1, Ok tt) s') s.
Proof.
  intros Hs He Hnf. pose proof (sm_core _ _ _ Hs) as Hc. pose proof (co_tile _ _ _ _ _ _ _ _ _ _ _ _ _ _ Hc) as Htile.
  assert (Ed : activeDir (ig_pool g) = dir) by (destruct (co_date _ _ _ _ _ _ _ _ _ _ _ _ _ _ Hc) as (i0 & _ & ->); by rewrite Htoday).
  destruct (await_window client start g (sm_window _ _ _ Hs) Htile) as [Hres _].
  unfold ingest_turn. rewrite Hctx. apply quiet_bind. unfold rollover. rewrite (sm_date _ _ _ Hs), Htoday, String.eqb_refl.
  apply quiet_ret. destruct (await_tile client start g) as [result g2] eqn:Ea. cbn [fst] in Hres. rewrite Hres, He, HB, Hnf. cbn [Z.eqb andb].
  assert (Ep : ig_pool g2 = ig_pool g) by (unfold await_tile in Ea; by injection Ea as _ <-).
  apply quiet_bind. eexists _, _. split; [reflexivity|]. set (s1 := add_log _ s). apply quiet_bind. rewrite Ep.
  eapply quiet_mono; [apply (flush_warn_quiet _ (ig_pool g) s1); try done; [apply pool_ok_log, Hc|by eapply disk_ok_same, Hc|apply Hs|apply Hs]|].
  intros [] s2 [Epr Hall]. apply quiet_ret. split; [done|]. split; [done|]. split.
  - cbn [fst]. rewrite <- (sm_next _ _ _ Hs). unfold next_of, run_of. by rewrite Epr.
  - split; [apply Hs|]. intros x Hx. destruct (sm_rows _ _ _ Hs x Hx) as (rec & y & Hy & Hk). exists rec, y. auto.
Qed.

Lemma smooth_loop n : forall fuel i g sent s T e, (n < fuel)%nat -> T = ig_tile g + Z.of_nat n -> smooth g sent s ->
  (forall t, ig_tile g <= t < T -> leaves_at client t <> []) -> FetchTile client T 256 = Err e -> IsNotFound e = true ->
  quiet (ingest_loop std_parse ct_parse month_order scan batchSize appendBatchRows pid clock today ctx fuel req client activeDir0
           archiveDir progressPath issuerPath runID start i g sent) (caught_up T) s.
Proof.
  induction n as [|n IH]; intros [|fuel] i g sent s T e Hf ET Hs Hne HT Hnf; try lia; cbn [ingest_loop]; rewrite HB; cbn [Z.eqb orb negb];
    apply quiet_bind.
  - replace T with (ig_tile g) in * by lia. eapply quiet_mono; [by eapply smooth_end|]. intros [sent' f] s' [E H]. cbn [snd fst] in *. subst f. by apply quiet_ret.
  - eapply quiet_mono; [apply smooth_turn; [done|apply Hne; lia]|]. intros x s' (g' & sent' & -> & Hs' & Et).
    apply (IH _ _ _ _ _ T e); [lia|lia|done|intros t Ht; apply Hne; lia|done|done].
Qed.

End Run.

End Session.
