(* ===== verification/IngestLogRows.v ===== *)
(** IngestLog, the rows: at a tile's position a database never holds anything but
    the row of the tile's entry, so a position that is taken is an entry that is
    stored, with its content. *)

From S2P Require Import Prelude GoStd Sha256 FileSys CtlogParse CtlogClient Sql SubjectDB Dedup FlushFrame RowsFrame Progress Ctlist.
From S2P Require Import LogClient Leaf Worker WorkerSafe System SystemSafe WorkerLive IngestLog IngestLogSafe IngestLogLive.

#[local] Open Scope sql_scope.

(** ** Definitions *)

(** A row but for the issuer's id, which depends on the session that stored it. *)
Definition but_issuer (r : row) : row :=
  mkRow 0 (serial_number r) (common_name r) (organization r) (state r) (country r) (not_before r) (not_after r)
    (san_domains r) (san_ips r) (url r) (is_wildcard r) (san_count r) (entry_type r) (tile_idx r) (entry_idx r)
    (cert_hash r) (log_id r).

Section Rows.

Context (std_parse ct_parse : bytes -> res Certificate) (client : tile_client).

#[local] Abbreviation tile_row := (tile_row std_parse ct_parse client).

(** [r] has the columns of the entry [leaf] at [(t, j)]. *)
Definition row_of (t j : Z) (leaf : TileLeaf) (r : row) : Prop :=
  exists x, tile_row t j leaf x /\ but_issuer r = but_issuer (subject_row x).

(** A row at a tile's position is the row of the log's entry there. *)
Definition of_log (r : row) : Prop :=
  forall t j, tile_key r = Some (t, j) -> exists n leaf, j = Z.of_nat n /\ leaves_at client t !! n = Some leaf /\ row_of t j leaf r.

(** The month of the entry under [dir] has its row. *)
Definition stored (dir : string) (s : store) (t j : Z) (leaf : TileLeaf) : Prop :=
  exists d r, dbs s !! month_path dir (certMonth (not_before r)) = Some (DB d) /\ r ∈ all_rows d /\ row_of t j leaf r.

End Rows.

(** ** Lemmas *)

Section Session.

Context (std_parse ct_parse : bytes -> res Certificate) (month_order : gset string -> list string).
Context (scan : db -> res (list bytes)) (batchSize appendBatchRows pid : Z).
Context (clock : Z -> string) (today : nat -> string) (ctx : nat -> option error).
Context (req : IngestRequest) (client : tile_client) (activeDir0 archiveDir progressPath issuerPath : string).

#[local] Abbreviation tile_row := (tile_row std_parse ct_parse client).
#[local] Abbreviation of_log := (of_log std_parse ct_parse client).
#[local] Abbreviation only := (clean of_log).

(** The rows of an entry differ by the issuer's id only. *)
Lemma tile_row_unique t j leaf x y : tile_row t j leaf x -> tile_row t j leaf y ->
  but_issuer (subject_row x) = but_issuer (subject_row y) /\ NotBefore x = NotBefore y.
Proof.
  intros (c1 & r1 & E1) (c2 & r2 & E2). unfold processLeaf in *. destruct (parseCert _ _ _); cbn [wrap_err bind_res] in *; [|done..].
  injection E1 as _ <-. injection E2 as _ <-. by split.
Qed.

Lemma tile_row_key t j leaf x : tile_row t j leaf x ->
  cert_hash (subject_row x) = None /\ tile_key (subject_row x) = Some (t, j).
Proof.
  intros (c & r & E). unfold processLeaf in E. destruct (parseCert _ _ _); cbn [wrap_err bind_res] in *; [|done..].
  injection E as _ <-. by split.
Qed.

Lemma tile_row_of_log t n leaf x : leaves_at client t !! n = Some leaf -> tile_row t (Z.of_nat n) leaf x -> of_log (subject_row x).
Proof.
  intros Hl Hx t' j' Hk. destruct (tile_row_key _ _ _ _ Hx) as [_ E]. rewrite E in Hk. injection Hk as <- <-.
  exists n, leaf. split; [done|]. split; [done|]. by exists x.
Qed.

(** Where only the log's rows are, an occupied position is the entry. *)
Lemma kept_stored dir s t n leaf x : only s -> leaves_at client t !! n = Some leaf -> tile_row t (Z.of_nat n) leaf x ->
  kept dir s x -> stored std_parse ct_parse client dir s t (Z.of_nat n) leaf.
Proof.
  intros Hs Hl Hx (d & Hd & Hheld). destruct (tile_row_key _ _ _ _ Hx) as [Eh Ek]. unfold held in Hheld. rewrite Eh, Ek in Hheld.
  apply list_elem_of_omap in Hheld as ((i & r) & Hr & Er). cbn [snd] in Er.
  assert (Hin : r ∈ all_rows d) by (apply list_elem_of_fmap; by exists (i, r)).
  destruct (Hs _ _ Hd r Hin t _ Er) as (n' & leaf' & En & Hl' & y & Hy & Ey). assert (n' = n) as -> by lia.
  rewrite Hl in Hl'. injection Hl' as <-. destruct (tile_row_unique _ _ _ _ _ Hx Hy) as [_ Enb].
  exists d, r. split; [|split; [done|by exists y]].
  assert (not_before r = NotBefore y) as -> by (by apply (f_equal not_before) in Ey). by rewrite <- Enb.
Qed.

(** What became of an entry: its row is in the archive or in a pool's directory, its
    loss was logged since [s0], or it came after the request's target. *)
Definition accounted (s0 : store) (start : Z) (s : store) (t j : Z) (leaf : TileLeaf) : Prop :=
  stored std_parse ct_parse client (trim_suffix archiveDir "/") s t j leaf \/
  (exists i, stored std_parse ct_parse client (Join (trim_suffix activeDir0 "/") (today i)) s t j leaf) \/
  (exists line, tile_loss std_parse ct_parse client t j leaf line /\ said s0 s line) \/
  left_out req (before client start t + j).

Lemma settled_accounted s0 start s t n leaf : only s -> leaves_at client t !! n = Some leaf ->
  settled std_parse ct_parse today req client activeDir0 archiveDir s0 start s t (Z.of_nat n) leaf ->
  accounted s0 start s t (Z.of_nat n) leaf.
Proof.
  intros Hs Hl [(x & Hx & [Hk|[i Hk]])|[Hloss|Ho]].
  - left. by eapply kept_stored.
  - right. left. exists i. by eapply kept_stored.
  - right. right. by left.
  - right. right. by right.
Qed.

(** An entry among those of the tiles. *)
Lemma entries_to_leaf start T e : e ∈ entries_to client start T -> exists n, e.1.2 = Z.of_nat n /\ leaves_at client e.1.1 !! n = Some e.2.
Proof.
  assert (Hi : forall t leaves k, e ∈ indexed t k leaves -> e.1.1 = t /\ exists n, e.1.2 = k + Z.of_nat n /\ leaves !! n = Some e.2).
  { intros t leaves. induction leaves as [|leaf leaves IH]; intros k; cbn [indexed]; [by intros ?%elem_of_nil|].
    intros [->|He]%elem_of_cons; [split; [done|]; exists 0%nat; split; [cbn; lia|done]|].
    destruct (IH _ He) as (Et & n & En & Hn). split; [done|]. exists (S n). split; [lia|done]. }
  unfold entries_to. intros (u & He & _)%list_elem_of_bind. destruct (Hi _ _ _ He) as (Et & n & En & Hn). exists n. by rewrite Et, En.
Qed.

(** *** The session writes nothing else *)

Lemma issuers_only_clean {A} (m : M A) : (forall s, wp m (fun _ s' => issuers_only s s') s) -> pres only m.
Proof. intros Hm s Hs. eapply wp_mono; [apply Hm|]. intros r s' H. by eapply clean_dbs, Hs; apply H. Qed.

Lemma logf_clean line : pres only (logf line).
Proof. intros s Hs. by apply wp_logf. Qed.

Lemma flush_warn_clean what p : pres only (flush_warn month_order scan batchSize appendBatchRows pid archiveDir what p).
Proof.
  unfold flush_warn. apply pres_bind; [apply flush_all_clean|]. intros [p' [e|]]; [apply logf_clean|apply pres_ret].
Qed.

Lemma tile_entries_rows t cache leaves : forall k count,
  yielding only (tile_entries std_parse ct_parse req client t k cache count leaves)
    (fun x => forall y, y ∈ map snd x.1 -> exists n leaf, leaves !! n = Some leaf /\ tile_row t (k + Z.of_nat n) leaf y).
Proof.
  induction leaves as [|leaf leaves IH]; intros k count; cbn [tile_entries]; [apply yielding_ret; by intros y ?%elem_of_nil|].
  assert (Hlater : forall y, (exists n l, leaves !! n = Some l /\ tile_row t (k + 1 + Z.of_nat n) l y) ->
    exists n l, (leaf :: leaves) !! n = Some l /\ tile_row t (k + Z.of_nat n) l y).
  { intros y (n & l & Hl & Hy). exists (S n), l. split; [done|]. by replace (k + Z.of_nat (S n)) with (k + 1 + Z.of_nat n) by lia. }
  case_match; [apply yielding_ret; by intros y ?%elem_of_nil|].
  destruct (processLeaf _ _ _ _ _ _ _) as [[rec x]|e|] eqn:Ep.
  - eapply yielding_bind; [apply IH|]. intros [ps c] Hps. apply yielding_ret. cbn [fst map snd] in *.
    intros y [->|Hy]%elem_of_cons; [|by apply Hlater, Hps]. exists 0%nat, leaf. split; [done|]. rewrite Z.add_0_r. by exists cache, rec.
  - eapply yielding_bind; [apply yielding_pres, logf_clean|]. intros _ _ s Hs. eapply wp_mono; [by apply IH|].
    intros r s' [H1 H2]. split; [done|]. intros a Ha y Hy. by eapply Hlater, H2.
  - intros s Hs fl. by split.
Qed.

Lemma insert_and_send_rows t pool ps sent : (forall x, x ∈ map snd ps -> of_log (subject_row x)) ->
  pres only (insert_and_send month_order t pool ps sent).
Proof.
  intros Hps. unfold insert_and_send. destruct ps as [|p ps]; [apply pres_ret|].
  apply pres_bind; [by apply insert_months_clean|]. intros [pool' o].
  apply pres_bind; [case_match; (apply logf_clean || apply pres_ret)|intros _].
  apply pres_bind; [|intros [? ?]; apply pres_ret]. intros s Hs. eapply wp_mono; [apply send_records_wp|]. by intros r s' [-> _].
Qed.

(** The next tile is due, with the same fetches in flight. *)
Definition next_place (g : ingestion) (x : list SubjectRecord * flow) : Prop :=
  forall g', x.2 = Continue g' -> ig_tile g' = ig_tile g + 1 /\ ig_buf g' = ig_buf g /\ ig_next g' = ig_next g.

Lemma store_tile_rows runID g sent :
  yielding only (store_tile std_parse ct_parse month_order clock req client progressPath issuerPath runID g (leaves_at client (ig_tile g)) sent)
    (next_place g).
Proof.
  unfold store_tile. eapply yielding_bind; [apply yielding_pres, logf_clean|intros _ _].
  eapply yielding_bind; [apply yielding_pres, issuers_only_clean; intros s; apply prefetch_tile_wp|intros cache _].
  eapply yielding_bind; [apply tile_entries_rows|]. intros [ps session] Hps. cbn [fst] in Hps.
  eapply yielding_bind; [apply yielding_pres, insert_and_send_rows|].
  { intros x Hx. destruct (Hps x Hx) as (n & leaf & Hl & Hr). rewrite Z.add_0_l in Hr. by eapply tile_row_of_log. }
  intros [[pool sent'] [e|]] _; [by apply yielding_ret|].
  eapply yielding_bind; [apply yielding_pres; unfold UpdateProgress, prog_stmt; unwritten|]. intros r _.
  eapply yielding_bind; [apply yielding_pres; destruct r; [apply pres_ret|apply logf_clean]|intros _ _].
  apply yielding_ret. by intros g' [= <-].
Qed.

Lemma rollover_rows i g :
  yielding only (rollover month_order scan batchSize appendBatchRows pid today activeDir0 archiveDir i g) (same_place g).
Proof.
  unfold rollover. destruct (String.eqb _ _); [by apply yielding_ret|].
  eapply yielding_bind; [apply yielding_pres, logf_clean|intros _ _].
  eapply yielding_bind; [apply yielding_pres, flush_warn_clean|intros _ _]. by apply yielding_ret.
Qed.

Section Run.

Context (start runID : Z).

#[local] Abbreviation window := (window client start).

Lemma ingest_turn_rows i g sent : window g -> start <= ig_tile g ->
  yielding only (ingest_turn std_parse ct_parse month_order scan batchSize appendBatchRows pid clock today ctx req client activeDir0
      archiveDir progressPath issuerPath runID start i g sent)
    (fun x => forall g', x.2 = Continue g' -> window g' /\ start <= ig_tile g').
Proof.
  intros Hw Ht. unfold ingest_turn. destruct (ctx i); [by apply yielding_ret|].
  eapply yielding_bind; [apply rollover_rows|]. intros g1 (Et & _ & Eb & En).
  assert (Hw1 : window g1) by (destruct Hw as [W1 W2 W3]; split; [by rewrite Eb|by rewrite En, Et|by rewrite Eb, Et]).
  rewrite <- Et in Ht. destruct (await_window client start g1 Hw1 Ht) as [Hres Hnext].
  destruct (await_tile client start g1) as [result g2] eqn:Ea. cbn [fst snd] in *.
  assert (Et2 : ig_tile g2 = ig_tile g1) by (unfold await_tile in Ea; by injection Ea as _ <-).
  destruct result as [leaves|e|].
  - destruct leaves as [|l leaves]; [by apply yielding_ret|].
    assert (El : l :: leaves = leaves_at client (ig_tile g2)) by (unfold leaves_at; by rewrite Et2, <- Hres). rewrite El.
    intros s Hs. eapply wp_mono; [by apply store_tile_rows|]. intros r s' [H1 H2]. split; [done|]. intros x Hx g' Hg.
    destruct (H2 x Hx g' Hg) as (A & B & D). split; [apply Hnext; congruence|lia].
  - case_match; [|by apply yielding_ret].
    eapply yielding_bind; [apply yielding_pres, logf_clean|intros _ _].
    eapply yielding_bind; [apply yielding_pres, flush_warn_clean|intros _ _]. by apply yielding_ret.
  - intros s Hs fl. by split.
Qed.

Lemma session_end_rows g sent : pres only (session_end month_order scan batchSize appendBatchRows pid archiveDir g sent).
Proof.
  unfold session_end. apply pres_bind; [apply flush_warn_clean|intros _]. apply pres_bind; [apply logf_clean|intros _; apply pres_ret].
Qed.

Lemma ingest_loop_rows fuel : forall i g sent, window g -> start <= ig_tile g ->
  pres only (ingest_loop std_parse ct_parse month_order scan batchSize appendBatchRows pid clock today ctx fuel req client activeDir0
      archiveDir progressPath issuerPath runID start i g sent).
Proof.
  induction fuel as [|fuel IH]; intros i g sent Hw Ht; cbn [ingest_loop]; (case_match; [apply session_end_rows|]); [apply pres_ret|].
  eapply pres_bind_yielding; [by apply ingest_turn_rows|]. intros [sent' [g'|g'|r]] Hx; [|apply session_end_rows|apply pres_ret].
  destruct (Hx g' eq_refl). by apply IH.
Qed.

End Run.

End Session.

(** *** The handler *)

Section Handler.

Context (std_parse ct_parse : bytes -> res Certificate) (month_order : gset string -> list string).
Context (scan : db -> res (list bytes)) (batchSize appendBatchRows pid : Z).
Context (clock : Z -> string) (today : nat -> string) (ctx : nat -> option error) (getf : string -> res bytes).
Context (req : IngestRequest).

#[local] Abbreviation only := (clean (of_log std_parse ct_parse (log_client getf req))).

Lemma or_internal_rows {A} msg (m : M A) k : pres only m -> (forall a, pres only (k a)) -> pres only (or_internal msg m k).
Proof. intros Hm Hk. unfold or_internal. apply pres_bind; [by apply pres_attempt|]. intros [a|e]; [done|apply pres_ret]. Qed.

Lemma open_progress_rows path : pres only (OpenProgressDB path).
Proof. unfold OpenProgressDB. unwritten. Qed.

Lemma get_or_create_rows path now root : pres only (GetOrCreateRun path now root).
Proof. unfold GetOrCreateRun, prog_stmt. unwritten. Qed.

Lemma open_issuers_rows path : pres only (OpenIssuerDB path).
Proof. unfold OpenIssuerDB. unwritten. Qed.

(** No session puts anything else at a tile's position. *)
Lemma ingest_log_rows fuel :
  pres only (IngestLog std_parse ct_parse month_order scan batchSize appendBatchRows pid clock today ctx getf fuel req).
Proof.
  unfold IngestLog. case_match; [apply pres_ret|]. case_match; [apply pres_ret|]. cbn zeta.
  apply or_internal_rows; [apply pres_nop|intros _]. apply or_internal_rows; [apply pres_nop|intros _].
  apply or_internal_rows; [apply open_progress_rows|intros _]. apply pres_bind; [apply pres_attempt, pres_nop|intros r].
  apply pres_bind; [destruct r; [apply pres_ret|apply logf_clean]|intros _].
  apply or_internal_rows; [apply get_or_create_rows|intros run].
  apply pres_bind; [case_match; [apply logf_clean|apply pres_ret]|intros _].
  apply or_internal_rows; [apply open_issuers_rows|intros _].
  apply ingest_loop_rows; cbn [ig_tile]; [|lia]. split; cbn [ig_buf ig_next ig_tile]; [by rewrite length_map, length_seqZ|done|].
  intros j Hj. apply (wi_slots _ _ _ (start_window today getf req (mkStore ∅ ∅ ∅ ∅ []) (rr_next_tile_idx run))). exact Hj.
Qed.

End Handler.
