(* ===== verification/IngestLogMain.v ===== *)
(** IngestLog, the guarantees: what its persisted tile promises under every
    failure, that its sessions end, and that an undisturbed one catches up. *)

From S2P Require Import Prelude GoStd Sha256 FileSys CtlogParse CtlogClient Sql SubjectDB Dedup DedupLive FlushFrame RowsFrame Progress Ctlist.
From S2P Require Import LogClient Leaf Worker WorkerSafe System SystemSafe WorkerLive Demo IngestLog IngestLogSafe IngestLogLive IngestLogRows.

#[local] Open Scope sql_scope.

(** ** Lemmas *)

(** *** The set-up, when nothing fails *)

Lemma open_progress_runs path s : runs (OpenProgressDB path) s.
Proof. eexists _, _. split; [reflexivity|done]. Qed.

Lemma open_issuers_runs path s : runs (OpenIssuerDB path) s.
Proof. eexists _, _. split; [reflexivity|done]. Qed.

Lemma get_or_create_run_runs path now root s : is_Some (progs s !! path) -> runs (GetOrCreateRun path now root) s.
Proof.
  intros [d Hd]. unfold runs, GetOrCreateRun. destruct (select_run root d) as [run|] eqn:Es; apply quiet_bind.
  - apply quiet_attempt. eapply quiet_prog_stmt; [done|by rewrite Es|]. by apply quiet_ret.
  - exists (inr ErrNoRows), (set_prog path d s). split.
    { unfold attempt, prog_stmt, step, step_or. by rewrite Hd, Es. }
    assert (Hnot : root ∉ map rr_monitoring_root (run_rows d)).
    { intros (r & -> & Hr)%list_elem_of_fmap. unfold select_run in Es.
      assert (Hin : r ∈ filter (fun r' => rr_monitoring_root r' = rr_monitoring_root r) (run_rows d)) by by apply list_elem_of_filter.
      destruct (filter _ (run_rows d)); [by apply elem_of_nil in Hin|done]. }
    apply quiet_bind, quiet_wrap. eapply quiet_prog_stmt; [apply lookup_insert_eq| |by apply quiet_ret].
    unfold insert_run_row. rewrite bool_decide_false by done. reflexivity.
Qed.

Lemma length_indexed t k leaves : length (indexed t k leaves) = length leaves.
Proof. revert k. induction leaves as [|leaf leaves IH]; intros k; cbn; [done|]. by rewrite IH. Qed.

Lemma before_entries client start t : before client start t = Z.of_nat (length (entries_to client start t)).
Proof.
  unfold before, entries_to. induction (seqZ start (t - start)) as [|u l IH]; [done|]. cbn [foldr].
  rewrite bind_cons, length_app, length_indexed, IH. lia.
Qed.

Section Handler.

Context (std_parse ct_parse : bytes -> res Certificate) (month_order : gset string -> list string).
Context (scan : db -> res (list bytes)) (batchSize appendBatchRows pid : Z).
Context (clock : Z -> string) (today : nat -> string) (ctx : nat -> option error) (getf : string -> res bytes).
Context (req : IngestRequest) (s0 : store).

#[local] Abbreviation base := (trim_suffix (active_dir req) "/").
#[local] Abbreviation root := (trim_suffix (archive_dir req) "/").
#[local] Abbreviation next_of := (next_of (progress_path req) (ir_MonitoringApiRoot req)).
#[local] Abbreviation client := (log_client getf req).

Hypothesis Hstd : forall der, std_parse der <> Panic.
Hypothesis Hct : forall der, ct_parse der <> Panic.
Hypothesis Horder : forall x, month_order x ≡ₚ elements x.
Hypothesis Hscan : forall d hs, scan d = Ok hs -> forall h, h ∈ hs -> h ∈ hashes d.
Hypothesis Hscan_ok : forall d, is_ok (scan d) = true.
Hypothesis Hpid : 0 <= pid.
Hypothesis Hb : 1 <= appendBatchRows.
Hypothesis Hsep : forall i, separate (Join base (today i)) root /\ separate root (Join base (today i)).
Hypothesis Hdates : forall i, str_forallb (fun c => negb (Ascii.eqb c "/")) (today i) = true.
Hypothesis Htoday : forall i, today i = today 0.
Hypothesis Hctx : forall i, ctx i = None.
Hypothesis HB : ir_BatchSize req = 0.
Hypothesis Hdisk : disk_ok today (active_dir req) (archive_dir req) s0.
Hypothesis Hfresh : forall m, dbs s0 !! month_path (Join base (today 0)) m = None.
Hypothesis Htorn : untorn (archive_dir req) s0.

Lemma session_body_quiet fuel s T e : same_start req s0 s -> is_Some (progs s !! progress_path req) ->
  next_of s0 <= T < next_of s0 + Z.of_nat fuel -> (forall t, next_of s0 <= t < T -> leaves_at client t <> []) ->
  FetchTile client T 256 = Err e -> IsNotFound e = true ->
  quiet (session_body std_parse ct_parse month_order scan batchSize appendBatchRows pid clock today ctx getf req fuel)
    (caught_up std_parse ct_parse req client (archive_dir req) (progress_path req) (next_of s0) T) s.
Proof.
  intros Hs Hp HT Hne He Hnf. unfold session_body, or_internal.
  apply quiet_bind, quiet_attempt. eapply quiet_wp; [by apply get_or_create_run_wp|by apply get_or_create_run_runs|].
  intros run s1 (H1 & En & Et & Hrun). assert (Hs1 : same_start req s0 s1) by (by eapply same_start_prog).
  destruct (Hrun run eq_refl) as (Hr & E1 & E2). rewrite (sa_next _ _ _ Hs) in E1. rewrite (sa_total _ _ _ Hs) in E2.
  assert (Hopen : forall s2, same_start req s0 s2 -> progs s2 = progs s1 -> quiet (or_internal "open global issuers db"
    (OpenIssuerDB (join_dir (archive_dir req) "issuers.db")) (fun _ =>
      ingest_loop std_parse ct_parse month_order scan batchSize appendBatchRows pid clock today ctx fuel req client (active_dir req)
        (archive_dir req) (progress_path req) (join_dir (archive_dir req) "issuers.db") (rr_id run) (next_of s0) 0
        (mkIngest (NewSubjectDBPool (join_dir (active_dir req) (today 0))) (today 0) (next_of s0) 0 (rr_total_processed run) ∅
           (map (fun k => FetchTile client (next_of s0 + k) 256) (seqZ 0 (Z.of_nat tileFetchLookahead)))
           (next_of s0 + Z.of_nat tileFetchLookahead)) []))
    (caught_up std_parse ct_parse req client (archive_dir req) (progress_path req) (next_of s0) T) s2).
  { intros s2 H2 Ep. assert (Hrun2 : run_of (progress_path req) (ir_MonitoringApiRoot req) s2 = Some run) by (unfold run_of in *; by rewrite Ep).
    apply quiet_bind, quiet_attempt.
    eapply quiet_wp; [apply (open_issuers_same req s0); [done|]|apply open_issuers_runs|].
    { revert Hr. unfold run_of. rewrite Ep. destruct (progs s1 !! progress_path req); [by eexists|done]. }
    intros [] s3 [H3 Ep3]. rewrite E2.
    eapply (smooth_loop _ _ _ _ _ _ _ _ _ _ _ _ _ _ _ _) with (n := Z.to_nat (T - next_of s0)) (e := e) (s0 := s0); try done; cbn [ig_tile]; try lia.
    split; cbn [ig_date ig_pool ig_tile].
    - apply start_core; try done; [lia|]. unfold run_of in *. by rewrite Ep3.
    - apply start_window.
    - done.
    - intros m _. rewrite (sa_dbs _ _ _ H3). apply Hfresh.
    - intros m. rewrite (sa_dbs _ _ _ H3). apply Htorn.
    - apply (sa_next _ _ _ H3).
    - unfold entries_to. rewrite Z.sub_diag. constructor.
    - unfold entries_to. rewrite Z.sub_diag. by intros x ?%elem_of_nil. }
  rewrite E1. destruct (0 <? next_of s0); apply quiet_bind; [|by apply quiet_ret, Hopen].
  eexists _, _. split; [reflexivity|]. apply Hopen; [by apply same_start_log|done].
Qed.

Lemma ingest_log_quiet fuel T e : ir_MonitoringApiRoot req <> "" ->
  next_of s0 <= T < next_of s0 + Z.of_nat fuel -> (forall t, next_of s0 <= t < T -> leaves_at client t <> []) ->
  FetchTile client T 256 = Err e -> IsNotFound e = true ->
  quiet (IngestLog std_parse ct_parse month_order scan batchSize appendBatchRows pid clock today ctx getf fuel req)
    (caught_up std_parse ct_parse req client (archive_dir req) (progress_path req) (next_of s0) T) s0.
Proof.
  intros Hurl HT Hne He Hnf. unfold IngestLog. apply String.eqb_neq in Hurl. rewrite Hurl, HB. cbn [Z.ltb Z.compare]. cbn zeta.
  apply quiet_bind, quiet_attempt, quiet_nop, quiet_bind, quiet_attempt, quiet_nop, quiet_bind, quiet_attempt.
  eapply quiet_wp; [apply (open_progress_same req s0), same_start_refl|apply open_progress_runs|].
  intros [] s1 [H1 Hp]. apply quiet_bind, quiet_attempt, quiet_nop, quiet_bind, quiet_ret.
  apply (session_body_quiet fuel s1 T e); auto.
Qed.

End Handler.

(** ** Properties *)

(** C4. Whatever statement, write, flush or send of a session fails, and wherever
    the process dies: the persisted tile has only moved forward; the persisted
    total has grown by exactly the entries taken from the tiles passed; and of each
    of these entries the month in the archive or in a pool's directory has a row
    with the columns of the entry's certificate, all but the issuer's id, or the
    log says that the entry was dropped, or it came after the request's target.
    The databases at the start must hold at tile positions only rows of this log:
    the tables' unique key is the position alone, so the rows of two static logs
    that share an archive mask each other ([other_log_masks_entry]). The session
    leaves them in such a state again. *)
Theorem acknowledged_tiles_survive (std_parse ct_parse : bytes -> res Certificate) (month_order : gset string -> list string)
  (scan : db -> res (list bytes)) (batchSize appendBatchRows pid : Z) (clock : Z -> string) (today : nat -> string)
  (ctx : nat -> option error) (getf : string -> res bytes) (fuel : nat) (req : IngestRequest)
  (s0 s' : store) (fl fl' : list outcome) (r : res (list SubjectRecord * res unit))
  (Horder : forall x, month_order x ≡ₚ elements x)
  (Hscan : forall d hs, scan d = Ok hs -> forall h, h ∈ hs -> h ∈ hashes d)
  (Hpid : 0 <= pid) (Hb : 1 <= appendBatchRows) (HB : 0 <= ir_BatchSize req)
  (Hsep : forall i, let dir := Join (trim_suffix (active_dir req) "/") (today i) in let root := trim_suffix (archive_dir req) "/" in
     separate dir root /\ separate root dir)
  (Hdates : forall i, str_forallb (fun c => negb (Ascii.eqb c "/")) (today i) = true)
  (Hdisk : disk_ok today (active_dir req) (archive_dir req) s0)
  (Honly : clean (of_log std_parse ct_parse (log_client getf req)) s0)
  (Hrun : IngestLog std_parse ct_parse month_order scan batchSize appendBatchRows pid clock today ctx getf fuel req s0 fl = (r, s', fl')) :
  let next := next_of (progress_path req) (ir_MonitoringApiRoot req) in
  let total := total_of (progress_path req) (ir_MonitoringApiRoot req) in
  let client := log_client getf req in
  next s0 <= next s' /\ total s' = total s0 + counted req client (next s0) (next s') /\
  (forall t j leaf, next s0 <= t < next s' -> leaves_at client t !! j = Some leaf ->
    accounted std_parse ct_parse today req client (active_dir req) (archive_dir req) s0 (next s0) s' t (Z.of_nat j) leaf) /\
  clean (of_log std_parse ct_parse client) s'.
Proof.
  pose proof (ingest_log_rows std_parse ct_parse month_order scan batchSize appendBatchRows pid clock today ctx getf req fuel s0 Honly) as Hr.
  apply (wp_run _ _ _ _ _ _ _ Hr) in Hrun as Hclean.
  pose proof (ingest_log_wp std_parse ct_parse month_order scan batchSize appendBatchRows pid clock today ctx getf req
    Horder Hscan Hpid Hb Hsep Hdates s0 Hdisk fuel HB) as Hw.
  apply (wp_run _ _ _ _ _ _ _ Hw) in Hrun as [[H1 H2 H3] _].
  split; [done|]. split; [done|]. split; [|done]. intros t j leaf Ht Hl. apply settled_accounted; [done..|by apply H3].
Qed.

(** C23. A session ends, whatever fails: a request for [n] entries is over after at
    most [n] tiles, a continuous one at the latest with the first tile that is not
    there. *)
Theorem ingest_log_ends (std_parse ct_parse : bytes -> res Certificate) (month_order : gset string -> list string)
  (scan : db -> res (list bytes)) (batchSize appendBatchRows pid : Z) (clock : Z -> string) (today : nat -> string)
  (ctx : nat -> option error) (getf : string -> res bytes) (fuel : nat) (req : IngestRequest)
  (s0 s' : store) (fl fl' : list outcome) (r : res (list SubjectRecord * res unit))
  (Horder : forall x, month_order x ≡ₚ elements x)
  (Hscan : forall d hs, scan d = Ok hs -> forall h, h ∈ hs -> h ∈ hashes d)
  (Hpid : 0 <= pid) (Hb : 1 <= appendBatchRows) (HB : 0 <= ir_BatchSize req)
  (Hsep : forall i, let dir := Join (trim_suffix (active_dir req) "/") (today i) in let root := trim_suffix (archive_dir req) "/" in
     separate dir root /\ separate root dir)
  (Hdates : forall i, str_forallb (fun c => negb (Ascii.eqb c "/")) (today i) = true)
  (Hdisk : disk_ok today (active_dir req) (archive_dir req) s0)
  (Hfuel : enough_fuel getf req s0 fuel)
  (Hrun : IngestLog std_parse ct_parse month_order scan batchSize appendBatchRows pid clock today ctx getf fuel req s0 fl = (r, s', fl')) :
  forall sent, r <> Ok (sent, Err (Errorf "out of fuel")).
Proof.
  pose proof (ingest_log_wp std_parse ct_parse month_order scan batchSize appendBatchRows pid clock today ctx getf req
    Horder Hscan Hpid Hb Hsep Hdates s0 Hdisk fuel HB) as Hw.
  apply (wp_run _ _ _ _ _ _ _ Hw) in Hrun as [_ Hr]. by apply Hr.
Qed.

(** C5. A continuous session within a day that nothing disturbs catches up: it
    returns without error at the first tile that is not there, which is then the
    persisted tile; it has sent the record of every entry that parses, in the
    log's order, and the archive has its row, with the columns of its certificate
    but for the issuer's id; and the persisted total has grown by the number of
    all entries. As for C4, only rows of this log may be at tile positions. *)
Theorem ingest_log_catches_up (std_parse ct_parse : bytes -> res Certificate) (month_order : gset string -> list string)
  (scan : db -> res (list bytes)) (batchSize appendBatchRows pid : Z) (clock : Z -> string) (today : nat -> string)
  (ctx : nat -> option error) (getf : string -> res bytes) (fuel : nat) (req : IngestRequest) (s0 : store) (T : Z) (e : error)
  (Hstd : forall der, std_parse der <> Panic) (Hct : forall der, ct_parse der <> Panic)
  (Horder : forall x, month_order x ≡ₚ elements x)
  (Hscan : forall d hs, scan d = Ok hs -> forall h, h ∈ hs -> h ∈ hashes d) (Hscan_ok : forall d, is_ok (scan d) = true)
  (Hpid : 0 <= pid) (Hb : 1 <= appendBatchRows) (Hurl : ir_MonitoringApiRoot req <> "") (HB : ir_BatchSize req = 0)
  (Hsep : forall i, let dir := Join (trim_suffix (active_dir req) "/") (today i) in let root := trim_suffix (archive_dir req) "/" in
     separate dir root /\ separate root dir)
  (Hdates : forall i, str_forallb (fun c => negb (Ascii.eqb c "/")) (today i) = true)
  (Htoday : forall i, today i = today 0%nat) (Hctx : forall i, ctx i = None)
  (Hdisk : disk_ok today (active_dir req) (archive_dir req) s0)
  (Hfresh : forall m, dbs s0 !! month_path (Join (trim_suffix (active_dir req) "/") (today 0%nat)) m = None)
  (Htorn : untorn (archive_dir req) s0) (Honly : clean (of_log std_parse ct_parse (log_client getf req)) s0) :
  let next := next_of (progress_path req) (ir_MonitoringApiRoot req) in
  let total := total_of (progress_path req) (ir_MonitoringApiRoot req) in
  let client := log_client getf req in
  let entries := entries_to client (next s0) T in
  next s0 <= T < next s0 + Z.of_nat fuel -> (forall t, next s0 <= t < T -> leaves_at client t <> []) ->
  FetchTile client T 256 = Err e -> IsNotFound e = true ->
  exists sent s', IngestLog std_parse ct_parse month_order scan batchSize appendBatchRows pid clock today ctx getf fuel req s0 []
      = (Ok (sent, Ok tt), s', []) /\
    next s' = T /\ total s' = total s0 + Z.of_nat (length entries) /\
    Forall2 (fun e rec => exists x, yields std_parse ct_parse client e (rec, x)) (good_entries std_parse ct_parse entries) sent /\
    forall e, e ∈ good_entries std_parse ct_parse entries ->
      stored std_parse ct_parse client (trim_suffix (archive_dir req) "/") s' e.1.1 e.1.2 e.2.
Proof.
  intros next total client entries HT Hne He Hnf.
  destruct (ingest_log_quiet std_parse ct_parse month_order scan batchSize appendBatchRows pid clock today ctx getf req s0
    Hstd Hct Horder Hscan Hscan_ok Hpid Hb Hsep Hdates Htoday Hctx HB Hdisk Hfresh Htorn fuel T e Hurl HT Hne He Hnf)
    as ([sent r] & s' & E & Hr & Hn & Hsent & Hrows).
  cbn [fst snd] in *. subst r. exists sent, s'. split; [exact E|]. split; [exact Hn|].
  pose proof (ingest_log_rows std_parse ct_parse month_order scan batchSize appendBatchRows pid clock today ctx getf req fuel s0 Honly []) as Hr.
  rewrite E in Hr. cbn [fst snd] in Hr. split; [|split; [done|]].
  2: { intros x Hx. destruct (Hrows x Hx) as (rec & y & [cache Hy] & Hk). apply list_elem_of_filter in Hx as [_ Hx].
       apply entries_to_leaf in Hx as (n & En & Hl). rewrite En in *. eapply kept_stored; [done..| |done]. by exists cache, rec. }
  pose proof (ingest_log_wp std_parse ct_parse month_order scan batchSize appendBatchRows pid clock today ctx getf req
    Horder Hscan Hpid Hb Hsep Hdates s0 Hdisk fuel ltac:(lia)) as Hw.
  apply (wp_run _ _ _ _ _ _ _ Hw) in E as [[_ Ht _] _]. unfold total, entries, next. rewrite Ht, Hn. unfold counted.
  rewrite HB. cbn [Z.eqb]. by rewrite before_entries.
Qed.

(** ** Witnesses and findings *)

Definition demo_issuer : bytes := repeat xaa 32.
Definition demo_tile : list TileLeaf := map (fun i => mkTileLeaf 1700000000000 0 [byte_of i] [] zero_hash [] [demo_issuer]) [0; 1; 2].

(** A log of one tile; its issuer cannot be fetched. *)
Definition demo_net (url : string) : res bytes :=
  if String.eqb url "https://l/000" then Ok (encode_tile demo_tile) else Err (HTTPError 404 url).
Definition demo_request (n : Z) : IngestRequest := mkIngestRequest "https://l/" "active" "hdd/" n.
Definition demo_day (i : nat) : string := "20250101".
Definition demo_run (fuel : nat) (n : Z) (s : store) (fl : list outcome) :=
  IngestLog demo_cert demo_cert elements (fun d => Ok (hashes d)) 2 1 7 dec demo_day (fun _ => None) demo_net fuel (demo_request n) s fl.
Definition demo_client : tile_client := log_client demo_net (demo_request 0).
Definition demo_none : store := mkStore ∅ ∅ ∅ ∅ [].

(** The tile and the total of the demo log's run. *)
Definition demo_place (s : store) : Z * Z :=
  (next_of (progress_path (demo_request 0)) "https://l/" s, total_of (progress_path (demo_request 0)) "https://l/" s).

Lemma demo_separate (i : nat) : separate (Join (trim_suffix (active_dir (demo_request 0)) "/") (demo_day i)) (trim_suffix (archive_dir (demo_request 0)) "/") /\
  separate (trim_suffix (archive_dir (demo_request 0)) "/") (Join (trim_suffix (active_dir (demo_request 0)) "/") (demo_day i)).
Proof. split; intros m m'; unfold month_path, Join; cbn; congruence. Qed.

Lemma demo_disk n : disk_ok demo_day (active_dir (demo_request n)) (archive_dir (demo_request n)) demo_none.
Proof. split; [done|]. intros m. split; [done|]. unfold seen_of. cbn. intros x Hx. by apply elem_of_empty in Hx. Qed.

Lemma demo_only n : clean (of_log demo_cert demo_cert (log_client demo_net (demo_request n))) demo_none.
Proof. by intros p d. Qed.

Lemma demo_scan d hs : Ok (hashes d) = Ok hs -> forall h, h ∈ hs -> h ∈ hashes d.
Proof. by intros [= <-]. Qed.

(** The process dies in the flush, when the tile is passed. *)
Lemma acknowledged_tiles_survive_witness :
  let run := demo_run 5 0 demo_none (repeat Done 38 ++ [Crashed]) in
  (run.1.1 = Panic /\ demo_place run.1.2 = (1, 3)) /\
  accounted demo_cert demo_cert demo_day (demo_request 0) demo_client (active_dir (demo_request 0)) (archive_dir (demo_request 0))
    demo_none 0 run.1.2 0 1 (mkTileLeaf 1700000000000 0 [byte_of 1] [] zero_hash [] [demo_issuer]).
Proof.
  cbv zeta. split; [split; vm_compute; reflexivity|].
  assert (Hplace : demo_place (demo_run 5 0 demo_none (repeat Done 38 ++ [Crashed])).1.2 = (1, 3)) by (vm_compute; reflexivity).
  destruct (demo_run 5 0 demo_none (repeat Done 38 ++ [Crashed])) as [[r s'] fl'] eqn:E. cbn [fst snd] in *. injection Hplace as Hn _.
  assert (Hleaf : leaves_at demo_client 0 !! 1%nat = Some (mkTileLeaf 1700000000000 0 [byte_of 1] [] zero_hash [] [demo_issuer]))
    by (vm_compute; reflexivity).
  assert (Hspan : 0 <= 0 < next_of (progress_path (demo_request 0)) "https://l/" s') by (rewrite Hn; lia).
  refine (proj1 (proj2 (proj2 (acknowledged_tiles_survive demo_cert demo_cert elements (fun d => Ok (hashes d)) 2 1 7 dec demo_day (fun _ => None) demo_net 5
    (demo_request 0) demo_none s' (repeat Done 38 ++ [Crashed]) fl' r _ demo_scan _ _ _ demo_separate _ (demo_disk 0) (demo_only 0) E))) 0 1%nat _ Hspan Hleaf); done.
Defined.

Lemma ingest_log_ends_witness : (demo_run 2 0 demo_none [Failed]).1.1 <> Ok ([], Err (Errorf "out of fuel")).
Proof.
  destruct (demo_run 2 0 demo_none [Failed]) as [[r s'] fl'] eqn:E. cbn [fst snd].
  apply (ingest_log_ends demo_cert demo_cert elements (fun d => Ok (hashes d)) 2 1 7 dec demo_day (fun _ => None) demo_net 2
    (demo_request 0) demo_none s' [Failed] fl' r); try done; [apply demo_scan|].
  exists 1. split; [vm_compute; reflexivity|]. vm_compute. done.
Defined.

Lemma ingest_log_catches_up_witness :
  exists sent s', demo_run 2 0 demo_none [] = (Ok (sent, Ok tt), s', []) /\ fst (demo_place s') = 1 /\ length sent = 2%nat /\
    stored demo_cert demo_cert demo_client "hdd" s' 0 1 (mkTileLeaf 1700000000000 0 [byte_of 1] [] zero_hash [] [demo_issuer]).
Proof.
  destruct (ingest_log_catches_up demo_cert demo_cert elements (fun d => Ok (hashes d)) 2 1 7 dec demo_day (fun _ => None) demo_net 2
    (demo_request 0) demo_none 1 (Wrap "tile 1" (HTTPError 404 "https://l/001"))) as (sent & s' & H1 & H2 & _ & H3 & H4);
    [apply demo_cert_no_panic|apply demo_cert_no_panic|done|apply demo_scan|done|lia|lia|done|reflexivity|apply demo_separate|done|done
    |done|apply (demo_disk 0)|by intros m|by intros m|apply (demo_only 0)|done| |vm_compute; reflexivity|reflexivity|].
  - intros t Ht. change (0 <= t < 1) in Ht. replace t with 0 by lia. vm_compute. done.
  - exists sent, s'. split; [exact H1|]. split; [exact H2|]. split; [apply Forall2_length in H3; rewrite <- H3; vm_compute; reflexivity|].
    apply (H4 (0, 1, mkTileLeaf 1700000000000 0 [byte_of 1] [] zero_hash [] [demo_issuer])).
    apply (list_elem_of_lookup_2 _ 1%nat). vm_compute. reflexivity.
Defined.

(** A session for one entry passes the whole tile: the next one starts after it,
    and the tile's other entries are never read. *)
Lemma batch_cut_skips_entries :
  let s := (demo_run 1 1 demo_none []).1.2 in
  demo_place s = (1, 1) /\ length (leaves_at demo_client 0) = 3%nat /\
  (demo_run 1 0 s []).1.1 = Ok ([], Ok tt) /\ demo_place (demo_run 1 0 s []).1.2 = (1, 1).
Proof. cbv zeta. split_and!; vm_compute; reflexivity. Qed.

(** An issuer whose insertion fails once is cached with the id 0, which the rows of
    its certificates carry. *)
Lemma failed_issuer_cached_as_zero :
  match (demo_run 2 0 demo_none (repeat Done 13 ++ [Failed])).1.1 with
  | Ok (sent, r) => r = Ok tt /\ map sr_CaId sent = [0; 0]
  | _ => False
  end.
Proof. vm_compute. by split. Qed.

(** The row of another log's entry 0 of tile 0, in the same month's archive. *)
Definition other_row : row :=
  mkRow 0 "01" "other.example" "" "" "" "2023-11-02T00:00:00Z" "2026-01-01T00:00:00Z" "" "" "" 0 0 "x509" (Some 0) (Some 0) None None.
Definition shared_archive : store :=
  mkStore {[month_path "hdd" "2023-11" := DB (insert_all (empty_db true false) [other_row])]} ∅ ∅ ∅ [].

(** Two static logs in one archive: the tile position is the key, so the session
    succeeds and logs nothing of it, and the entry's row is dropped. *)
Lemma other_log_masks_entry :
  let run := demo_run 2 0 shared_archive [] in
  (match run.1.1 with Ok (sent, r) => r = Ok tt /\ length sent = 2%nat | _ => False end) /\ demo_place run.1.2 = (1, 3) /\
  match dbs run.1.2 !! month_path "hdd" "2023-11" with Some (DB d) => all_rows d = [other_row] | _ => False end /\
  forallb (fun line => negb (has_prefix line "warn: insert" || has_prefix line "warn: flush")) (logged run.1.2) = true.
Proof. cbv zeta. split_and!; vm_compute; try reflexivity. by split. Qed.
