(* ===== verification/Remerge.v ===== *)
(** cmd/remerge-pools and cmd/migrate-archive: draining the pools that a stopped
    server left behind into the archive, and stripping the archive months to
    append-only heaps before a bootstrap. *)

From S2P Require Import Prelude GoStd Order FileSys Sql SubjectDB Dedup DedupLive Seal WorkerSafe WorkerLive SystemSafe IngestLogSafe.

#[local] Open Scope sql_scope.

(** ** Definitions *)

(** [monthRe], ^\d{4}-\d{2}$ *)
Definition is_month (s : string) : bool :=
  match s with
  | String a (String b (String c (String d (String e (String f (String g EmptyString)))))) =>
      is_digit a && is_digit b && is_digit c && is_digit d && Ascii.eqb e "-" && is_digit f && is_digit g
  | _ => false
  end.

(** What comes before the first slash. *)
Fixpoint first_name (s : string) : option string :=
  match s with
  | EmptyString => None
  | String c s' => if Ascii.eqb c "/" then Some "" else String c <$> first_name s'
  end.

(** The subdirectory of [dir] that the file [p] is under. *)
Definition child (dir p : string) : option string :=
  if has_prefix p (dir +:+ "/") then first_name (trim_prefix p (dir +:+ "/")) else None.

Definition children (dir : string) (s : store) : gset string :=
  list_to_set (omap (child dir) (elements (dom (D := gset string) (dbs s)))).

(** os.ReadDir, by name. Directories without a database have no state: both
    commands only look for month directories that hold one. A directory that is
    missing is the outcome [Failed], at which main exits, as with any other error. *)
Definition ReadDir (dir : string) : M (list string) :=
  step (fun s => (Ok (sort_by text_cmp (elements (children dir s))), s)).

(** [exists]: any failure of os.Stat counts as absence. *)
Definition exists_db (p : string) : M bool :=
  let@ r := attempt (stat p) in
  ret (match r with inl _ => true | inr _ => false end).

Fixpoint with_db (dir : string) (names : list string) : M (list string) :=
  match names with
  | [] => ret []
  | n :: names =>
      let@ ok := (if is_month n then exists_db (month_path dir n) else ret false) in
      let@ months := with_db dir names in
      ret (if ok : bool then n :: months else months)
  end.

Definition listMonths (poolPath : string) : M (list string) :=
  let@ ents := ReadDir poolPath in
  let@ months := with_db poolPath ents in
  ret (sort_by text_cmp months).

(** The pools with at least one month; one that cannot be read has none. *)
Fixpoint with_months (activeDir : string) (names : list string) : M (list string) :=
  match names with
  | [] => ret []
  | n :: names =>
      let@ ms := attempt (listMonths (Join activeDir n)) in
      let@ pools := with_months activeDir names in
      ret (match ms with inl (_ :: _) => n :: pools | _ => pools end)
  end.

Definition listPools (activeDir : string) : M (list string) :=
  let@ ents := ReadDir activeDir in
  let@ pools := with_months activeDir ents in
  ret (sort_by text_cmp pools).

(** [touched], [totalMonths] and [totalFailed] of main. *)
Record drained := mkDrained {
  touched : gset string;
  totalMonths : Z;
  totalFailed : Z }.

Definition failed_once (t : drained) : drained := mkDrained (touched t) (totalMonths t) (totalFailed t + 1).

Section Draining.

(** The parameters of FlushAll (Dedup.v). *)
Variable month_order : gset string -> list string.
Variable scan : db -> res (list bytes).
Variable batchSize appendBatchRows pid : Z.
(** The random part of the name that os.MkdirTemp picks in a month's directory. *)
Variable mkdir_temp : string -> string.
(** The flags. *)
Variable activeDir archiveDir onlyPool : string.
Variable dryRun noSeal : bool.

(** SealMonth's empty source, in a temporary directory beside the month. *)
Definition seal_src (m : string) : string :=
  month_path archiveDir (Join m (".seal-src-" +:+ mkdir_temp m)).

(** One month at a time through the pool [p]. *)
Fixpoint drain_months (p : SubjectDBPool) (months : list string) (t : drained) : M drained :=
  match months with
  | [] => ret t
  | m :: months =>
      let@ r := attempt (GetOrOpen p m) in
      match r with
      | inr _ => drain_months p months (failed_once t)
      | inl p =>
          let@ (p, err) := FlushAll scan batchSize appendBatchRows pid month_order p archiveDir in
          drain_months p months
            (match err with
             | Some _ => failed_once t
             | None => mkDrained ({[m]} ∪ touched t) (totalMonths t + 1) (totalFailed t)
             end)
      end
  end.

Definition drain_pool (pool : string) (t : drained) : M drained :=
  if negb (String.eqb onlyPool "") && negb (String.eqb pool onlyPool) then ret t else
  let@ r := attempt (listMonths (Join activeDir pool)) in
  match r with
  | inr _ => ret t
  | inl months =>
      if dryRun then ret (mkDrained (touched t) (totalMonths t + Z.of_nat (length months)) (totalFailed t)) else
      let@ t := drain_months (NewSubjectDBPool (Join activeDir pool)) months t in
      let@ rem := attempt (listMonths (Join activeDir pool)) in
      match rem with
      | inl (_ :: _) => ret t
      | _ => let@ _ := attempt nop in ret t            (* os.Remove(poolPath) *)
      end
  end.

Fixpoint drain_pools (pools : list string) (t : drained) : M drained :=
  match pools with
  | [] => ret t
  | pool :: pools => let@ t := drain_pool pool t in drain_pools pools t
  end.

Fixpoint seal_months (months : list string) (t : drained) : M drained :=
  match months with
  | [] => ret t
  | m :: months =>
      let@ r := attempt (SealMonth pid (seal_src m) (month_path archiveDir m) activeDir) in
      seal_months months (match r with inl _ => t | inr _ => failed_once t end)
  end.

(** [main], with what pgrep found. It exits with an error when [totalFailed] is
    not zero. *)
Definition remerge (running : list string) : M drained :=
  match running with
  | _ :: _ => fail (Errorf "ct-server appears to be running")
  | [] =>
      let@ r := attempt (listPools activeDir) in
      match r with
      | inr e => fail (Errorf ("list pools: " +:+ error_text e))
      | inl [] => ret (mkDrained ∅ 0 0)
      | inl pools =>
          let@ t := drain_pools pools (mkDrained ∅ 0 0) in
          if negb noSeal && negb dryRun && negb (bool_decide (touched t = ∅))
          then seal_months (sort_by text_cmp (elements (touched t))) t
          else ret t
      end
  end.

End Draining.

(** *** cmd/migrate-archive *)

Record migration := mkMigration {
  migrated : Z;
  skipped : Z;
  mig_failed : Z }.

Definition listArchiveMonths (archiveDir : string) : M (list string) :=
  let@ ents := ReadDir archiveDir in
  let@ months := with_db archiveDir ents in
  ret (sort_by text_cmp months).

Section Stripping.

Variable pid : Z.
Variable archiveDir scratchDir : string.
Variable dryRun : bool.

Fixpoint migrate_months (months : list string) (t : migration) : M migration :=
  match months with
  | [] => ret t
  | m :: months =>
      if dryRun then migrate_months months t else
      let@ r := attempt (MigrateArchiveMonth pid (month_path archiveDir m) scratchDir) in
      migrate_months months
        (match r with
         | inr _ => mkMigration (migrated t) (skipped t) (mig_failed t + 1)
         | inl true => mkMigration (migrated t + 1) (skipped t) (mig_failed t)
         | inl false => mkMigration (migrated t) (skipped t + 1) (mig_failed t)
         end)
  end.

(** [main]; it exits with an error when [mig_failed] is not zero. *)
Definition migrate_archive (running : list string) : M migration :=
  match running with
  | _ :: _ => fail (Errorf "ct-server appears to be running")
  | [] =>
      let@ r := attempt (listArchiveMonths archiveDir) in
      match r with
      | inr e => fail (Errorf ("list archive months: " +:+ error_text e))
      | inl [] => ret (mkMigration 0 0 0)
      | inl months => migrate_months months (mkMigration 0 0 0)
      end
  end.

End Stripping.
