(* ===== verification/RemergeSafe.v ===== *)
(** cmd/remerge-pools never loses a row, whatever fails and wherever it dies, and
    a run without failures drains and seals everything it finds. *)

From S2P Require Import Prelude GoStd Order FileSys Sql SubjectDB Dedup DedupLive Seal FlushFrame WorkerSafe System SystemSafe IngestLogSafe Remerge.

#[local] Open Scope sql_scope.

(** ** Lemmas *)

(** *** Listing *)

Definition no_slash (n : string) : Prop := str_forallb (fun c => negb (Ascii.eqb c "/")) n = true.

Lemma first_name_no_slash s n : first_name s = Some n -> no_slash n.
Proof.
  revert n. induction s as [|c s IH]; intros n; [done|]. cbn. destruct (Ascii.eqb c "/") eqn:E; [by intros [= <-]|].
  destruct (first_name s) as [n'|]; [|done]. intros [= <-]. unfold no_slash. cbn. rewrite E. by apply IH.
Qed.

Lemma first_name_app n rest : no_slash n -> first_name (n +:+ "/" +:+ rest) = Some n.
Proof.
  unfold no_slash. induction n as [|c n IH]; [done|]. cbn. intros [Hc Hn]%andb_true_iff.
  apply negb_true_iff in Hc. rewrite Hc. cbn in IH. by rewrite IH.
Qed.

Lemma child_no_slash dir p n : child dir p = Some n -> no_slash n.
Proof. unfold child. destruct (has_prefix _ _); [|done]. apply first_name_no_slash. Qed.

Lemma has_prefix_app a b : has_prefix (a +:+ b) a = true.
Proof. apply prefix_app. Qed.

Lemma trim_prefix_app a b : trim_prefix (a +:+ b) a = b.
Proof.
  unfold trim_prefix. rewrite has_prefix_app.
  replace (String.length (a +:+ b) - String.length a)%nat with (String.length b) by (rewrite str_length_app; lia).
  by rewrite substring_app_skip, substring_0_all.
Qed.

Lemma child_month dir n m : no_slash n -> child dir (month_path (Join dir n) m) = Some n.
Proof.
  intros Hn. unfold child, month_path, Join.
  replace (((dir +:+ "/" +:+ n) +:+ "/" +:+ m) +:+ "/" +:+ "subjects.db")%string
    with ((dir +:+ "/") +:+ n +:+ "/" +:+ m +:+ "/subjects.db")%string by (by rewrite !str_app_assoc).
  rewrite has_prefix_app, trim_prefix_app. by apply first_name_app.
Qed.

Lemma child_db dir m : no_slash m -> child dir (month_path dir m) = Some m.
Proof.
  intros Hn. unfold child, month_path, Join.
  replace ((dir +:+ "/" +:+ m) +:+ "/" +:+ "subjects.db")%string
    with ((dir +:+ "/") +:+ m +:+ "/" +:+ "subjects.db")%string by (by rewrite !str_app_assoc).
  rewrite has_prefix_app, trim_prefix_app. by apply first_name_app.
Qed.

Lemma digit_no_slash c : is_digit c = true -> Ascii.eqb c "/" = false.
Proof. intros H. destruct (Ascii.eqb_spec c "/") as [->|]; [by vm_compute in H|done]. Qed.

Lemma month_no_slash m : is_month m = true -> no_slash m.
Proof.
  unfold is_month. do 8 (destruct m as [|? m]; try done). rewrite !andb_true_iff. intros [[[[[[H1 H2] H3] H4] H5] H6] H7].
  apply Ascii.eqb_eq in H5 as ->. unfold no_slash. cbn. rewrite !digit_no_slash by done. done.
Qed.

(** Reading the directories changes nothing. *)
Lemma read_dir_wp dir s :
  wp (ReadDir dir) (fun r s' => s' = s /\ forall ns, r = Ok ns -> Forall no_slash ns) s.
Proof.
  apply wp_step; [by split..|]. split; [done|]. intros ns [= <-]. apply Forall_forall. intros n Hn.
  apply (elem_of_sort_by text_cmp), elem_of_elements, elem_of_list_to_set, list_elem_of_omap in Hn as (p & _ & Hc).
  by eapply child_no_slash.
Qed.

Lemma with_exists_pres I p : pres I (exists_db p).
Proof. unfold exists_db. auto with pres. Qed.

Lemma with_db_pres I dir names : pres I (with_db dir names).
Proof.
  induction names as [|n names IH]; cbn [with_db]; [apply pres_ret|].
  apply pres_bind; [destruct (is_month n); [apply with_exists_pres|auto with pres]|]. auto with pres.
Qed.

Lemma list_months_pres I dir : pres I (listMonths dir).
Proof.
  apply pres_bind; [by apply pres_step|]. intros ents. apply pres_bind; [apply with_db_pres|auto with pres].
Qed.

(** The listed months are names of months. *)
Lemma list_months_wp dir s :
  wp (listMonths dir) (fun r s' => s' = s /\ forall ms, r = Ok ms -> Forall (fun m => is_month m = true) ms) s.
Proof.
  apply (wp_bind_pres (eq s)); [by apply pres_step|done|by intros ? <-; split|]. intros ents ? <-.
  apply wp_bind. apply wp_mono with (Q := fun r s' => s' = s /\ forall ms, r = Ok ms -> Forall (fun m => is_month m = true) ms).
  - induction ents as [|n ents IH]; cbn [with_db]; [apply wp_ret; by split; [|intros ? [= <-]]|].
    apply wp_bind. apply wp_mono with (Q := fun r s' => s' = s /\ (r = Ok true -> is_month n = true)).
    { destruct (is_month n); [|by apply wp_ret]. eapply wp_mono; [apply (with_exists_pres (eq s)); done|]. by intros r s' <-. }
    intros [ok|e|] s' [-> Hok]; [|by split..]. apply wp_bind. eapply wp_mono; [apply IH|].
    intros [ms|e|] s' [-> Hms]; [|by split..]. apply wp_ret. split; [done|]. intros ? [= <-].
    destruct ok; [constructor; [by apply Hok|by apply Hms]|by apply Hms].
  - intros [ms|e|] s' [-> Hms]; [|by split..]. apply wp_ret. split; [done|]. intros ? [= <-].
    by rewrite sort_by_perm; apply Hms.
Qed.

Lemma with_months_wp dir names s :
  Forall no_slash names ->
  wp (with_months dir names) (fun r s' => s' = s /\ forall ps, r = Ok ps -> Forall no_slash ps) s.
Proof.
  induction 1 as [|n names Hn _ IH]; cbn [with_months]; [apply wp_ret; by split; [|intros ? [= <-]]|].
  apply (wp_bind_pres (eq s)); [apply pres_attempt, list_months_pres|done|by intros ? <-; split|]. intros ms ? <-.
  apply wp_bind. eapply wp_mono; [apply IH|]. intros [ps|e|] s' [-> Hps]; [|by split..].
  apply wp_ret. split; [done|]. intros ? [= <-]. specialize (Hps ps eq_refl).
  destruct ms as [[|m ms]|e]; [done|by constructor|done].
Qed.

Lemma list_pools_wp dir s :
  wp (listPools dir) (fun r s' => s' = s /\ forall ps, r = Ok ps -> Forall no_slash ps) s.
Proof.
  apply wp_bind. eapply wp_mono; [apply read_dir_wp|]. intros [ns|e|] s' [-> Hns]; [|by split..].
  apply wp_bind. eapply wp_mono; [by apply with_months_wp, Hns|]. intros [ps|e|] s' [-> Hps]; [|by split..].
  apply wp_ret. split; [done|]. intros qs [= <-]. apply Forall_forall. intros n Hn.
  rewrite (elem_of_sort_by text_cmp) in Hn. specialize (Hps ps eq_refl). rewrite Forall_forall in Hps. by apply Hps.
Qed.

(** *** What every phase conserves *)

Section Safe.

Context (month_order : gset string -> list string) (scan : db -> res (list bytes)) (batchSize appendBatchRows pid : Z).
Context (mkdir_temp : string -> string) (activeDir archiveDir : string).

#[local] Abbreviation act := (fun pool => month_path (Join activeDir pool)).
#[local] Abbreviation arch := (month_path archiveDir).
#[local] Abbreviation seal_src := (seal_src mkdir_temp archiveDir).
#[local] Abbreviation dedupDir := (Join activeDir "dedup").

Hypothesis Horder : forall x, month_order x ≡ₚ elements x.
Hypothesis Hscan : forall d hs, scan d = Ok hs -> forall h, h ∈ hs -> h ∈ hashes d.
Hypothesis Hpid : 0 <= pid.
Hypothesis Hb : 1 <= appendBatchRows.
(** The archive is not among the pools. *)
Hypothesis Hsep : forall pool, no_slash pool -> separate (Join activeDir pool) archiveDir.

(** The files of the pools and of the archive are well-formed, the dedup sets sound. *)
Record tidy (s : store) : Prop := {
  td_active : forall pool m d, no_slash pool -> dbs s !! act pool m = Some (DB d) -> db_good d;
  td_archive : archives_sound archiveDir dedupDir s }.

(** From [s] to [s'] no row is lost: what the archive held it holds, and a
    pool's row is still there or in the archive. *)
Record conserves (s s' : store) : Prop := {
  cs_tidy : tidy s';
  cs_archive : forall m x, held_at s (arch m) x -> held_at s' (arch m) x;
  cs_db : forall m, is_archived (arch m) s -> is_archived (arch m) s';
  cs_active : forall pool m x, no_slash pool -> held_at s (act pool m) x ->
    held_at s' (act pool m) x \/ held_at s' (arch m) x }.

(** Nothing but months changes in the archive. *)
Definition untouched (s s' : store) : Prop :=
  forall m, ~ no_slash m -> dbs s' !! arch m = dbs s !! arch m.

Lemma conserves_refl s : tidy s -> conserves s s.
Proof. intros H. split; auto. Qed.

Lemma conserves_trans s1 s2 s3 : conserves s1 s2 -> conserves s2 s3 -> conserves s1 s3.
Proof.
  intros [A1 A2 A3 A4] [B1 B2 B3 B4]. split; auto. intros pool m x Hp Hx.
  destruct (A4 pool m x Hp Hx) as [H|H]; [by apply B4|right; by apply B2].
Qed.

Lemma pools_apart pool pool' m m' : no_slash pool -> no_slash pool' ->
  act pool m = act pool' m' -> pool = pool' /\ m = m'.
Proof.
  intros H1 H2 E. assert (pool = pool') as <-; [|by split; [|by eapply month_path_inj]].
  unfold month_path, Join in E. rewrite !str_app_assoc in E. apply str_app_inj_l, str_app_inj_l, first_segment in E; auto.
Qed.

(** *** One month *)

(** Of the pools' and the archive's files only those of one month of one pool changed. *)
Definition only_month (pool m : string) (s s' : store) : Prop :=
  (forall pool' m', no_slash pool' -> (pool', m') <> (pool, m) -> dbs s' !! act pool' m' = dbs s !! act pool' m') /\
  forall m', m' <> m -> dbs s' !! arch m' = dbs s !! arch m'.

Lemma only_month_trans pool m s1 s2 s3 : only_month pool m s1 s2 -> only_month pool m s2 s3 -> only_month pool m s1 s3.
Proof.
  intros [A1 A2] [B1 B2]. split; [intros pool' m' Hp Hne; by rewrite B1, A1|intros m' Hne; by rewrite B2, A2].
Qed.

Lemma grown_conserves pool m s s' : no_slash pool -> tidy s -> db_grown (act pool m) s s' ->
  conserves s s' /\ only_month pool m s s' /\ dbs s' !! arch m = dbs s !! arch m.
Proof.
  intros Hp Ht Hg. pose proof (dg_other _ _ _ Hg) as Hother.
  assert (Harch : forall m', dbs s' !! arch m' = dbs s !! arch m') by (intros m'; apply Hother; by apply not_eq_sym, Hsep).
  assert (Hact : forall pool' m', no_slash pool' -> (pool', m') <> (pool, m) -> dbs s' !! act pool' m' = dbs s !! act pool' m').
  { intros pool' m' Hp' Hne. apply Hother. intros E. by destruct (pools_apart _ _ _ _ Hp' Hp E) as [-> ->]. }
  split; [split|]; [split| | | |].
  - intros pool' m' d Hp' Hd. destruct (decide ((pool', m') = (pool, m))) as [[= -> ->]|Hne]; [by eapply dg_good|].
    apply (td_active s Ht pool' m'); [done|]. by rewrite <- Hact.
  - eapply archives_other; [exact Harch|apply Hg|apply Ht].
  - intros m' x. by apply held_at_ext, Harch.
  - intros m'. unfold is_archived. by rewrite Harch.
  - intros pool' m' x Hp' Hx. left. destruct (decide ((pool', m') = (pool, m))) as [[= -> ->]|Hne].
    + destruct Hx as (d & Hd & Hx). destruct (dg_le _ _ _ Hg d Hd) as (d' & Hd' & Hle). exists d'. auto.
    + eapply held_at_ext; [|exact Hx]. by apply Hact.
  - split; [split; [done|by intros m' _]|done].
Qed.

Definition opened (pool m : string) (s : store) (r : res SubjectDBPool) (s' : store) : Prop :=
  db_grown (act pool m) s s' /\
  forall p, r = Ok p -> p = mkPool {[m]} (Join activeDir pool) /\ exists d, dbs s' !! act pool m = Some (DB d).

Lemma month_open_wp pool m s :
  no_slash pool -> tidy s -> wp (GetOrOpen (NewSubjectDBPool (Join activeDir pool)) m) (opened pool m s) s.
Proof.
  intros Hp Ht. unfold GetOrOpen. rewrite bool_decide_eq_false_2 by apply not_elem_of_empty. cbn [NewSubjectDBPool SubjectDB.activeDir pool_dbs].
  assert (Hg0 : forall d, dbs s !! act pool m = Some (DB d) -> db_good d) by (intros d; by apply Ht).
  pose proof (db_grown_refl (act pool m) s Hg0) as Hr.
  apply wp_bind, wp_wrap, wp_nop; [by split..|]. apply wp_bind.
  eapply wp_mono; [apply wp_and; [by apply (open_grown (act pool m) s)|apply open_db]|].
  intros [[]|e|] s' [H1 H2]; [|by split..]. apply wp_ret. split; [done|]. intros p [= <-]. rewrite union_empty_r_L.
  split; [done|]. by apply H2.
Qed.

Lemma flush_conserves pool m s :
  no_slash pool -> tidy s -> (exists d, dbs s !! act pool m = Some (DB d)) ->
  wp (FlushAll scan batchSize appendBatchRows pid month_order (mkPool {[m]} (Join activeDir pool)) archiveDir)
     (fun r s' => conserves s s' /\ only_month pool m s s' /\
        forall p err, r = Ok (p, err) -> p = NewSubjectDBPool (Join activeDir pool) /\
          (err = None -> is_archived (arch m) s' /\ forall x, held_at s (act pool m) x -> held_at s' (arch m) x)) s.
Proof.
  intros Hp Ht [d Hd]. unfold FlushAll. cbn [pool_dbs SubjectDB.activeDir]. rewrite Dir_Join by done.
  assert (month_order {[m]} = [m]) as -> by (apply Permutation_length_1_inv; by rewrite Horder, elements_singleton).
  set (p0 := mkPool {[m]} (Join activeDir pool)).
  assert (Hact : actives_ok p0 [m] s).
  { intros m' ->%list_elem_of_singleton. exists d. split; [done|]. by apply (td_active s Ht pool m). }
  apply wp_bind. eapply wp_mono; [apply (flush_months_wp scan batchSize appendBatchRows pid p0 archiveDir dedupDir
    Hscan Hpid Hb (Hsep pool Hp) [m] None s); [apply NoDup_singleton|done|apply Ht]|].
  intros r s' [[F1 F2 F3 F4 F5 F6 F7 F8] Hall]. cbn [p0 SubjectDB.activeDir] in *.
  assert (Hother : forall pool' m', no_slash pool' -> (pool', m') <> (pool, m) -> dbs s' !! act pool' m' = dbs s !! act pool' m').
  { intros pool' m' Hp' Hne. destruct (decide (pool' = pool)) as [->|Hne']; [apply F4; by intros ->%list_elem_of_singleton|].
    apply F7; [apply month_path_db|by apply Hsep|]. intros m'' E. by destruct (pools_apart _ _ _ _ Hp' Hp E). }
  assert (Hc : conserves s s').
  { split; [split; [|done]|done|done|].
    - intros pool' m' d' Hp' Hd'. destruct (decide ((pool', m') = (pool, m))) as [[= -> ->]|Hne]; [by apply (F6 m); [left|]|].
      apply (td_active s Ht pool' m'); [done|]. by rewrite <- Hother.
    - intros pool' m' x Hp' Hx. destruct (decide ((pool', m') = (pool, m))) as [[= -> ->]|Hne]; [by apply F5|].
      left. eapply held_at_ext; [|exact Hx]. by apply Hother. }
  assert (Ho : only_month pool m s s') by (split; [done|]; intros m' Hne; apply F8; by intros ->%list_elem_of_singleton).
  destruct r as [fe|e|]; [apply wp_ret|..]; (do 2 (split; [done|])); intros p err; [intros [= <- ->]|done..].
  split; [done|]. intros ->. destruct (Hall eq_refl) as [_ Hm]. apply Hm. by left.
Qed.

(** *** All months *)

Definition touched_ok (t : drained) (s : store) : Prop :=
  forall m, m ∈ touched t -> no_slash m /\ is_archived (arch m) s.

Lemma touched_conserves t s s' : conserves s s' -> touched_ok t s -> touched_ok t s'.
Proof. intros Hc Hok m Hm. split; [by apply Hok|]. by apply Hc, Hok. Qed.

Lemma only_untouched pool m s s' : no_slash m -> only_month pool m s s' -> untouched s s'.
Proof. intros Hm [_ H] m' Hm'. apply H. by intros ->. Qed.

Definition drains (s : store) (r : res drained) (s' : store) : Prop :=
  conserves s s' /\ untouched s s' /\ forall t, r = Ok t -> touched_ok t s'.

Lemma drains_trans s s1 r s' : conserves s s1 -> untouched s s1 -> drains s1 r s' -> drains s r s'.
Proof.
  intros H1 H2 (H3 & H4 & H5). split; [by eapply conserves_trans|]. split; [|done].
  intros m Hm. by rewrite H4, H2.
Qed.

Lemma drains_ret t s : tidy s -> touched_ok t s -> drains s (Ok t) s.
Proof. intros H1 H2. split; [by apply conserves_refl|]. split; [done|]. by intros ? [= <-]. Qed.

Lemma drain_months_wp pool months t s :
  no_slash pool -> Forall (fun m => is_month m = true) months -> tidy s -> touched_ok t s ->
  wp (drain_months month_order scan batchSize appendBatchRows pid archiveDir (NewSubjectDBPool (Join activeDir pool)) months t)
     (drains s) s.
Proof.
  intros Hp Hms. revert t s. induction Hms as [|m months Hm%month_no_slash _ IH]; intros t s Ht Hok; cbn [drain_months].
  { by apply wp_ret, drains_ret. }
  apply wp_bind, wp_attempt. eapply wp_mono; [by apply month_open_wp|]. intros r s1 [Hg Hr].
  destruct (grown_conserves pool m s s1 Hp Ht Hg) as (H1 & U1%only_untouched & _); [|done].
  assert (Hok1 : touched_ok t s1) by (by eapply touched_conserves).
  destruct r as [p|e|]; [destruct (Hr p eq_refl) as [-> Hd]| |by split].
  2: { eapply wp_mono; [apply IH; [apply H1|done]|]. intros r s'. by apply drains_trans. }
  apply wp_bind. eapply wp_mono; [apply flush_conserves; [done|apply H1|done]|].
  intros r s2 (H2 & U2%only_untouched & Hf); [|done]. assert (H3 : conserves s s2) by (by eapply conserves_trans).
  assert (U3 : untouched s s2) by (intros m' Hm'; by rewrite U2, U1).
  destruct r as [[p err]|e|]; [|by split..]. destruct (Hf p err eq_refl) as [-> Herr].
  eapply wp_mono; [apply IH; [apply H3|]|intros r s'; by apply drains_trans].
  pose proof (touched_conserves t s1 s2 H2 Hok1) as Hok2. destruct err as [e|]; [done|].
  intros m' [->%elem_of_singleton|Hm']%elem_of_union; [split; [done|by apply Herr]|by apply Hok2].
Qed.

Lemma drain_pool_wp onlyPool dryRun pool t s :
  no_slash pool -> tidy s -> touched_ok t s ->
  wp (drain_pool month_order scan batchSize appendBatchRows pid activeDir archiveDir onlyPool dryRun pool t) (drains s) s.
Proof.
  intros Hp Ht Hok. unfold drain_pool. destruct (_ && _); [by apply wp_ret, drains_ret|].
  apply wp_bind, wp_attempt. eapply wp_mono; [apply list_months_wp|].
  intros [months|e|] s1 [-> Hms]; [|by apply wp_ret, drains_ret|by split; [apply conserves_refl|]].
  destruct dryRun; [by apply wp_ret, drains_ret|].
  apply wp_bind. eapply wp_mono; [apply drain_months_wp; [done|by apply Hms|done|done]|]. intros [t1|e|] s1 (H1 & U1 & Hok1); [|by split..].
  specialize (Hok1 t1 eq_refl).
  assert (Hend : forall (r : res drained), (forall t, r = Ok t -> t = t1) -> drains s r s1).
  { intros r Hr. split; [done|]. split; [done|]. by intros t' ->%Hr. }
  apply (wp_bind_pres (eq s1)); [apply pres_attempt, list_months_pres|done| |].
  { intros s2 <-. split; [intros e|]; by apply Hend. }
  assert (Hdone : wp (ret t1) (drains s) s1) by (apply wp_ret, Hend; by intros ? [= <-]).
  assert (Hgone : wp (let@ _ := attempt nop in ret t1) (drains s) s1).
  { apply wp_bind, wp_attempt, wp_nop; [exact Hdone|by apply Hend|exact Hdone]. }
  intros [[|m rem]|e] s2 <-; done.
Qed.

Lemma drain_pools_wp onlyPool dryRun pools t s :
  Forall no_slash pools -> tidy s -> touched_ok t s ->
  wp (drain_pools month_order scan batchSize appendBatchRows pid activeDir archiveDir onlyPool dryRun pools t) (drains s) s.
Proof.
  intros Hps. revert t s. induction Hps as [|pool pools Hp _ IH]; intros t s Ht Hok; cbn [drain_pools].
  { by apply wp_ret, drains_ret. }
  apply wp_bind. eapply wp_mono; [by apply drain_pool_wp|]. intros [t1|e|] s1 (H1 & U1 & Hok1); [|by split..].
  eapply wp_mono; [apply IH; [apply H1|by apply Hok1]|]. intros r s'. by apply drains_trans.
Qed.

(** *** Sealing *)

Lemma seal_apart m m' : no_slash m' -> seal_src m <> arch m'.
Proof.
  intros Hm' E%month_path_inj. rewrite <- E in Hm'. revert Hm'. unfold no_slash, Join.
  rewrite str_forallb_app. cbn. by rewrite andb_false_r.
Qed.

Lemma seal_src_inj m m' : no_slash m -> no_slash m' -> seal_src m = seal_src m' -> m = m'.
Proof. intros H1 H2 E%month_path_inj. by eapply first_segment. Qed.

(** The month's certificates are behind the unique index. *)
Definition month_sealed (m : string) (s : store) : Prop :=
  exists d, dbs s !! arch m = Some (DB d) /\ ix_hash d = true /\ NoDup (hashes d).

Lemma seal_conserves m s :
  no_slash m -> tidy s -> is_archived (arch m) s -> dbs s !! seal_src m = None ->
  wp (SealMonth pid (seal_src m) (arch m) activeDir)
     (fun r s' => conserves s s' /\ (r = Ok tt -> month_sealed m s') /\
        (forall m', arch m' <> seal_src m -> m' <> m -> dbs s' !! arch m' = dbs s !! arch m') /\
        forall pool m', no_slash pool -> dbs s' !! act pool m' = dbs s !! act pool m') s.
Proof.
  intros Hm Ht [d Hd] Hn. pose proof (td_archive s Ht m) as [Hg Hseen].
  assert (Hdb : db_file (seal_src m) /\ db_file (arch m)) by (split; apply month_path_db).
  pose proof (seal_apart m m Hm) as Hne. assert (Hs : others (seal_src m) (arch m) s s) by (split_and!; [done..|by rewrite Hn]).
  eapply wp_mono; [apply wp_and; [apply (seal_month_wp pid (seal_src m) (arch m) s Hdb Hne Hpid activeDir d Hd (Hg d Hd) Hn)|
    apply (seal_others pid (seal_src m) (arch m) s Hdb Hne Hpid activeDir s Hs)]|].
  intros r s' [[(d' & Hd' & Hle & Hg') Hok] (Hq & Es & Hempty)].
  assert (Harch : forall m', arch m' <> seal_src m -> m' <> m -> dbs s' !! arch m' = dbs s !! arch m').
  { intros m' H1 H2. apply Hq; [apply month_path_db|by intros E%month_path_inj|done]. }
  assert (Hact : forall pool m', no_slash pool -> dbs s' !! act pool m' = dbs s !! act pool m').
  { intros pool m' Hp. apply Hq; [apply month_path_db|by apply Hsep..]. }
  split; [split|split].
  - split; [intros pool m' x Hp; rewrite Hact by done; by apply Ht|]. intros m'. unfold archive_sound, seen_of. rewrite Es.
    destruct (decide (m' = m)) as [->|Hm']; [|destruct (decide (arch m' = seal_src m)) as [E|E]]; [| |rewrite Harch by done; apply Ht].
    + split; [intros x Hx; by assert (x = d') as -> by congruence|]. intros h Hh. exists d'. split; [done|].
      destruct (Hseen h Hh) as (x & Hx & Hin). assert (x = d) as -> by congruence. by apply (db_le_hashes d).
    + rewrite E. split; [done|]. intros h Hh. destruct (proj2 (td_archive s Ht m') h Hh) as (x & Hx & _). congruence.
  - intros m' x (x0 & Hx0 & Hx). destruct (decide (m' = m)) as [->|Hm'].
    + assert (x0 = d) as -> by congruence. exists d'. auto.
    + exists x0. rewrite Harch; [done| |done]. intros E. congruence.
  - intros m' [x Hx]. destruct (decide (m' = m)) as [->|Hm']; [by exists d'|]. exists x. rewrite Harch; [done| |done]. congruence.
  - intros pool m' x Hp Hx. left. eapply held_at_ext; [|exact Hx]. by apply Hact.
  - intros Hr. destruct (Hok Hr) as (d2 & Hd2 & _ & Hg2 & Hh & _). exists d2. split_and!; [done..|]. by apply Hg2.
  - by split.
Qed.

Lemma seal_months_wp months t s :
  NoDup months -> tidy s -> (forall m, m ∈ months -> no_slash m /\ is_archived (arch m) s /\ dbs s !! seal_src m = None) ->
  wp (seal_months pid mkdir_temp activeDir archiveDir months t) (fun _ s' => conserves s s') s.
Proof.
  intros Hnd. revert t s. induction Hnd as [|m months Hm Hnd IH]; intros t s Ht Hms; cbn [seal_months].
  { by apply wp_ret, conserves_refl. }
  destruct (Hms m ltac:(by left)) as (Hs & Ha & Hn). apply wp_bind, wp_attempt. eapply wp_mono; [by apply seal_conserves|].
  intros r s1 (H1 & _ & Hother & _).
  assert (Hms1 : forall m', m' ∈ months -> no_slash m' /\ is_archived (arch m') s1 /\ dbs s1 !! seal_src m' = None).
  { intros m' Hm'. destruct (Hms m' ltac:(by right)) as (Hs' & Ha' & Hn'). split; [done|]. split; [by apply H1|].
    unfold Remerge.seal_src in Hn' |- *. rewrite Hother; [done| |].
    - intros E%seal_src_inj; [by subst|done|done].
    - intros E. by apply (seal_apart m' m Hs); unfold Remerge.seal_src; rewrite E. }
  destruct r as [[]|e|]; [..|done]; (eapply wp_mono; [by apply IH; [apply H1|]|]); intros r s' H2; by eapply conserves_trans.
Qed.

Lemma remerge_wp onlyPool dryRun noSeal running s :
  tidy s -> (forall m, dbs s !! seal_src m = None) ->
  wp (remerge month_order scan batchSize appendBatchRows pid mkdir_temp activeDir archiveDir onlyPool dryRun noSeal running)
     (fun _ s' => conserves s s') s.
Proof.
  intros Ht Hn. pose proof (conserves_refl s Ht) as Hs. unfold remerge. destruct running; [|by apply wp_fail].
  apply wp_bind, wp_attempt. eapply wp_mono; [apply list_pools_wp|].
  intros [pools|e|] s1 [-> Hps]; [|by apply wp_fail|done]. specialize (Hps pools eq_refl).
  destruct pools as [|pool pools]; [by apply wp_ret|].
  apply wp_bind. eapply wp_mono; [apply drain_pools_wp; [done|done|intros m; cbn; set_solver]|].
  intros [t|e|] s1 (H1 & U1 & Hok); [|done..]. specialize (Hok t eq_refl). destruct (_ && _); [|by apply wp_ret].
  eapply wp_mono; [apply seal_months_wp|]; [..|intros r s' H2; by eapply conserves_trans].
  - rewrite sort_by_perm. apply NoDup_elements.
  - apply H1.
  - intros m Hm. rewrite (elem_of_sort_by text_cmp), elem_of_elements in Hm. split; [by apply Hok|].
    split; [by apply Hok|]. unfold Remerge.seal_src. rewrite U1; [apply Hn|]. intros Hns.
    by apply (seal_apart m (Join m (".seal-src-" +:+ mkdir_temp m)) Hns).
Qed.

End Safe.

(** ** Properties *)

(** C14. Whatever statement or file operation of a remerge fails, and wherever the
    process dies, in the drain or in a seal: every certificate of the archive
    stays in its month of the archive, every certificate of a pool is afterwards
    in the pool's file or in its month of the archive, and the files stay
    well-formed, with dedup sets that name only archived certificates, so that the
    command can be run again. *)
Theorem remerge_conserves (month_order : gset string -> list string) (scan : db -> res (list bytes))
  (batchSize appendBatchRows pid : Z) (mkdir_temp : string -> string) (activeDir archiveDir onlyPool : string)
  (dryRun noSeal : bool) (running : list string) (s s' : store) (fl fl' : list outcome) (r : res drained)
  (Horder : forall x, month_order x ≡ₚ elements x)
  (Hscan : forall d hs, scan d = Ok hs -> forall h, h ∈ hs -> h ∈ hashes d)
  (Hpid : 0 <= pid) (Hb : 1 <= appendBatchRows)
  (Hsep : forall pool, no_slash pool -> separate (Join activeDir pool) archiveDir)
  (Htidy : tidy activeDir archiveDir s)
  (Htemp : forall m, dbs s !! seal_src mkdir_temp archiveDir m = None)
  (Hrun : remerge month_order scan batchSize appendBatchRows pid mkdir_temp activeDir archiveDir onlyPool dryRun noSeal
            running s fl = (r, s', fl')) :
  (forall m x, held_at s (month_path archiveDir m) x -> held_at s' (month_path archiveDir m) x) /\
  (forall pool m x, no_slash pool -> held_at s (month_path (Join activeDir pool) m) x ->
     held_at s' (month_path (Join activeDir pool) m) x \/ held_at s' (month_path archiveDir m) x) /\
  tidy activeDir archiveDir s'.
Proof.
  pose proof (remerge_wp month_order scan batchSize appendBatchRows pid mkdir_temp activeDir archiveDir
    Horder Hscan Hpid Hb Hsep onlyPool dryRun noSeal running s Htidy Htemp) as Hw.
  by apply (wp_run _ _ _ _ _ _ _ Hw) in Hrun as [H1 H2 _ H3].
Qed.

(** ** Witnesses *)

(** Two pools that a stopped server left, and an archive month. *)
Definition left_pools : store :=
  mkStore (<["data/active/20250101/2025-02/subjects.db" := DB (db_of [[x01]; [x02]])]>
    (<["data/active/20250102/2025-02/subjects.db" := DB (db_of [[x02]; [x03]])]>
    {["hdd/2025-02/subjects.db" := DB (db_of [[x01]])]})) ∅ ∅ ∅ [].

Lemma DB_inj d d' : DB d = DB d' -> d = d'.
Proof. by intros [= ->]. Qed.

Lemma left_good p d : dbs left_pools !! p = Some (DB d) -> db_good d.
Proof.
  unfold left_pools. cbn [dbs]. intros [[_ <-%DB_inj]|[_ [[_ <-%DB_inj]|[_ [_ <-%DB_inj]%lookup_singleton_Some]]%lookup_insert_Some]]%lookup_insert_Some;
    apply db_of_good.
Qed.

Lemma left_tidy : tidy "data/active" "hdd" left_pools.
Proof.
  split; [intros pool m d _; apply left_good|]. intros m. split; [intros d; apply left_good|]. intros h Hh.
  unfold seen_of in Hh. cbn in Hh. rewrite lookup_empty in Hh. by apply not_elem_of_empty in Hh.
Qed.

Lemma left_separate pool : separate (Join "data/active" pool) "hdd".
Proof. intros m m' E. discriminate E. Qed.

(** No file of the store is in a temporary directory. *)
Lemma left_no_temp m : dbs left_pools !! seal_src (fun _ => "1") "hdd" m = None.
Proof.
  unfold left_pools, seal_src. cbn [dbs]. rewrite !lookup_insert_ne by (intros E; discriminate E).
  apply lookup_singleton_ne. intros E. change "hdd/2025-02/subjects.db" with (month_path "hdd" "2025-02") in E.
  apply month_path_inj in E. assert (no_slash "2025-02") as H by done. rewrite E in H. revert H.
  unfold no_slash, Join. rewrite str_forallb_app. cbn. by rewrite andb_false_r.
Qed.

(** A process that dies after sixty statements, in the first pool's flush, has lost nothing. *)
Lemma remerge_conserves_witness :
  let out := remerge elements scan_all 10 10 7 (fun _ => "1") "data/active" "hdd" "" false false [] left_pools
    (repeat Done 60 ++ [Crashed]) in
  out.1.1 = Panic /\
  (forall m x, held_at left_pools (month_path "hdd" m) x -> held_at out.1.2 (month_path "hdd" m) x) /\
  (forall pool m x, no_slash pool -> held_at left_pools (month_path (Join "data/active" pool) m) x ->
     held_at out.1.2 (month_path (Join "data/active" pool) m) x \/ held_at out.1.2 (month_path "hdd" m) x) /\
  tidy "data/active" "hdd" out.1.2.
Proof.
  cbv zeta. split; [vm_compute; reflexivity|].
  destruct (remerge elements scan_all 10 10 7 (fun _ => "1") "data/active" "hdd" "" false false [] left_pools
    (repeat Done 60 ++ [Crashed])) as [[r s'] fl'] eqn:E. cbn [fst snd].
  apply (remerge_conserves elements scan_all 10 10 7 (fun _ => "1") "data/active" "hdd" "" false false [] left_pools s'
    (repeat Done 60 ++ [Crashed]) fl' r).
  - reflexivity.
  - apply scan_all_sound.
  - lia.
  - lia.
  - intros pool _. apply left_separate.
  - apply left_tidy.
  - intros m. apply left_no_temp.
  - exact E.
Defined.
