(* ===== verification/RemergeLive.v ===== *)
(** cmd/remerge-pools when nothing fails: every month of every pool is archived
    and removed, and the touched months of the archive are sealed. *)

From S2P Require Import Prelude GoStd Order FileSys Sql SubjectDB Dedup DedupLive Seal FlushFrame WorkerSafe System SystemSafe IngestLogSafe.
From S2P Require Import Remerge RemergeSafe.

#[local] Open Scope sql_scope.

(** ** Lemmas *)

(** *** Listing *)

Definition holds_month (dir : string) (s : store) (m : string) : Prop :=
  is_month m = true /\ is_Some (dbs s !! month_path dir m).

Lemma elem_children dir s n : n ∈ children dir s <-> exists p, is_Some (dbs s !! p) /\ child dir p = Some n.
Proof.
  unfold children. rewrite elem_of_list_to_set, list_elem_of_omap. split.
  - intros (p & Hp & Hc). exists p. split; [|done]. by rewrite elem_of_elements, elem_of_dom in Hp.
  - intros (p & Hp & Hc). exists p. split; [|done]. by rewrite elem_of_elements, elem_of_dom.
Qed.

Lemma read_dir_quiet dir s :
  quiet (ReadDir dir) (fun ns s' => s' = s /\ NoDup ns /\ forall n, n ∈ ns <-> n ∈ children dir s) s.
Proof.
  eapply quiet_step_or; [done|]. split; [done|]. split; [rewrite sort_by_perm; apply NoDup_elements|].
  intros n. by rewrite (elem_of_sort_by text_cmp), elem_of_elements.
Qed.

Lemma exists_quiet p s : quiet (exists_db p) (fun b s' => s' = s /\ (b = true <-> is_Some (dbs s !! p))) s.
Proof.
  unfold exists_db. apply quiet_bind. destruct (dbs s !! p) as [f|] eqn:E.
  - apply quiet_attempt. eapply quiet_step_or; [by rewrite E|]. apply quiet_ret. split; [done|]. split; [by exists f|done].
  - exists (inr ErrNotExist), s. split; [unfold attempt, stat, step, step_or; by rewrite E|].
    apply quiet_ret. split; [done|]. split; [done|by intros [f Hf]].
Qed.

Lemma with_db_quiet dir names s :
  NoDup names -> quiet (with_db dir names) (fun ms s' => s' = s /\ NoDup ms /\ forall m, m ∈ ms <-> m ∈ names /\ holds_month dir s m) s.
Proof.
  induction 1 as [|n names Hn _ IH]; cbn [with_db].
  { apply quiet_ret. split; [done|]. split; [constructor|]. set_solver. }
  apply quiet_bind. apply quiet_mono with (Q := fun b s' => s' = s /\ (b = true <-> holds_month dir s n)).
  { unfold holds_month. destruct (is_month n); [|apply quiet_ret; split; [done|]; by split; [|intros [? _]]].
    eapply quiet_mono; [apply exists_quiet|]. intros b s' [-> ->]. tauto. }
  intros b s' [-> Hb]. apply quiet_bind. eapply quiet_mono; [exact IH|]. intros ms s' (-> & Hnd & Hms).
  apply quiet_ret. split; [done|]. destruct b.
  - split; [constructor; [|done]; by intros [? _]%Hms|]. intros m. rewrite !elem_of_cons, Hms.
    split; [|tauto]. intros [->|[? ?]]; [split; [by left|by apply Hb]|tauto].
  - split; [done|]. intros m. rewrite elem_of_cons, Hms. split; [tauto|]. intros [[->|?] Hm]; [|done].
    by apply Hb in Hm.
Qed.

Lemma list_months_quiet dir s :
  quiet (listMonths dir) (fun ms s' => s' = s /\ NoDup ms /\ forall m, m ∈ ms <-> holds_month dir s m) s.
Proof.
  apply quiet_bind. eapply quiet_mono; [apply read_dir_quiet|]. intros ents s' (-> & Hnd & Hents).
  apply quiet_bind. eapply quiet_mono; [by apply with_db_quiet|]. intros ms s' (-> & Hnd' & Hms).
  apply quiet_ret. split; [done|]. split; [by rewrite sort_by_perm|]. intros m.
  rewrite (elem_of_sort_by text_cmp), Hms, Hents, elem_children. split; [tauto|]. intros H. split; [|done].
  destruct H as [Hm Hs]. exists (month_path dir m). split; [done|]. by apply child_db, month_no_slash.
Qed.

Lemma with_months_quiet dir names s :
  quiet (with_months dir names) (fun ps s' => s' = s /\
    forall p, p ∈ ps <-> p ∈ names /\ exists m, holds_month (Join dir p) s m) s.
Proof.
  induction names as [|n names IH]; cbn [with_months].
  { apply quiet_ret. split; [done|]. set_solver. }
  apply quiet_bind, quiet_attempt. eapply quiet_mono; [apply list_months_quiet|]. intros ms s' (-> & _ & Hms).
  apply quiet_bind. eapply quiet_mono; [exact IH|]. intros ps s' (-> & Hps).
  apply quiet_ret. split; [done|]. intros p. destruct ms as [|m ms].
  - rewrite elem_of_cons, Hps. split; [tauto|]. intros [[->|?] [m Hm]]; [by apply Hms, elem_of_nil in Hm|eauto].
  - rewrite !elem_of_cons, Hps. split; [|tauto]. intros [->|[? ?]]; [|tauto]. split; [by left|]. exists m. apply Hms. by left.
Qed.

Lemma list_pools_quiet dir s :
  quiet (listPools dir) (fun ps s' => s' = s /\
    forall p, p ∈ ps <-> no_slash p /\ exists m, holds_month (Join dir p) s m) s.
Proof.
  apply quiet_bind. eapply quiet_mono; [apply read_dir_quiet|]. intros ents s' (-> & Hnd & Hents).
  apply quiet_bind. eapply quiet_mono; [apply with_months_quiet|]. intros ps s' (-> & Hps).
  apply quiet_ret. split; [done|]. intros p. rewrite (elem_of_sort_by text_cmp), Hps, Hents, elem_children. split.
  - intros [(q & _ & Hc) H]. split; [by eapply child_no_slash|done].
  - intros [Hp H]. split; [|done]. destruct H as (m & _ & Hs). exists (month_path (Join dir p) m). split; [done|].
    by apply child_month.
Qed.

(** *** Draining *)

Section Live.

Context (month_order : gset string -> list string) (scan : db -> res (list bytes)) (batchSize appendBatchRows pid : Z).
Context (mkdir_temp : string -> string) (activeDir archiveDir : string).

#[local] Abbreviation act := (fun pool => month_path (Join activeDir pool)).
#[local] Abbreviation arch := (month_path archiveDir).
#[local] Abbreviation tidy := (tidy activeDir archiveDir).
#[local] Abbreviation conserves := (conserves activeDir archiveDir).
#[local] Abbreviation only_month := (only_month activeDir archiveDir).

Hypothesis Horder : forall x, month_order x ≡ₚ elements x.
Hypothesis Hscan : forall d hs, scan d = Ok hs -> forall h, h ∈ hs -> h ∈ hashes d.
Hypothesis Hscan_ok : forall d, is_ok (scan d) = true.
Hypothesis Hpid : 0 <= pid.
Hypothesis Hb : 1 <= appendBatchRows.
Hypothesis Hsep : forall pool, no_slash pool -> separate (Join activeDir pool) archiveDir.

(** Every file can be opened: none is torn, and a pool's months can be indexed. *)
Record ready (s : store) : Prop := {
  rd_tidy : tidy s;
  rd_archive : forall m, dbs s !! arch m <> Some Torn;
  rd_active : forall pool m f, no_slash pool -> dbs s !! act pool m = Some f -> exists d, f = DB d /\ NoDup (tile_keys d) }.

Lemma open_existing_runs p d s : dbs s !! p = Some (DB d) -> NoDup (tile_keys d) -> runs (OpenSubjectDB p) s.
Proof.
  intros Hd Hn. set (d1 := if ix_tile d then d else set_ix_tile true d). set (s1 := set_db p (DB d1) s).
  assert (Hd1 : create_tile_index d = Ok d1) by (unfold create_tile_index, d1; destruct (ix_tile d); [done|by rewrite bool_decide_eq_true_2]).
  assert (Hd2 : create_tile_index d1 = Ok d1) by (unfold create_tile_index, d1; by destruct (ix_tile d) eqn:E; rewrite ?E).
  assert (Hset : forall d s, dbs (set_db p (DB d) s) !! p = Some (DB d)) by (intros; rewrite dbs_set; by case_decide).
  apply quiet_bind, quiet_wrap, quiet_bind. eapply quiet_step_or; [by rewrite Hd|].
  eapply (quiet_update p _ d d1); [done|done|]. apply quiet_bind, quiet_attempt.
  eapply (quiet_update p _ d1 d1); [by rewrite Hset|done|]. apply quiet_bind. unfold create_hash_index.
  destruct (ix_hash d1) eqn:Eh; [|destruct (decide (NoDup (hashes d1))) as [Hh|Hh]].
  - apply quiet_attempt. eapply (quiet_update p _ d1); [by rewrite Hset|by rewrite Eh|by apply quiet_ret].
  - apply quiet_attempt. eapply (quiet_update p _ d1); [by rewrite Hset|by rewrite Eh, bool_decide_eq_true_2|by apply quiet_ret].
  - eexists (inr ErrUnique), _. split; [|by apply quiet_ret].
    unfold attempt, update, step, step_or, read_db. by rewrite Hset, Eh, bool_decide_eq_false_2.
Qed.

(** What the drain of one month does. *)
Record moved (pool m : string) (s s' : store) : Prop := {
  mv_conserves : conserves s s';
  mv_only : only_month pool m s s';
  mv_gone : dbs s' !! act pool m = None;
  mv_archived : is_archived (arch m) s';
  mv_rows : forall x, held_at s (act pool m) x -> held_at s' (arch m) x }.

Lemma ready_moved pool m s s' : moved pool m s s' -> ready s -> ready s'.
Proof.
  intros [Hc [Ha Hr] Hgone [d Hd] _] [_ R2 R3]. split; [apply Hc| |].
  - intros m'. destruct (decide (m' = m)) as [->|Hne]; [by rewrite Hd|]. rewrite Hr by done. apply R2.
  - intros pool' m' f Hp'. destruct (decide ((pool', m') = (pool, m))) as [[= -> ->]|Hne]; [by rewrite Hgone|].
    rewrite Ha by done. by apply R3.
Qed.

#[local] Abbreviation drain pool :=
  (drain_months month_order scan batchSize appendBatchRows pid archiveDir (NewSubjectDBPool (Join activeDir pool))).

Lemma month_quiet pool m months t (Q : drained -> store -> Prop) s :
  no_slash pool -> ready s -> is_Some (dbs s !! act pool m) ->
  (forall s', moved pool m s s' ->
     quiet (drain pool months (mkDrained ({[m]} ∪ touched t) (totalMonths t + 1) (totalFailed t))) Q s') ->
  quiet (drain pool (m :: months) t) Q s.
Proof.
  intros Hp [R1 R2 R3] [f Hf] Hk. destruct (R3 pool m f Hp Hf) as (d & -> & Hn). cbn [drain_months].
  apply quiet_bind, quiet_attempt.
  apply (quiet_wp _ (opened activeDir pool m s)); [by apply (month_open_wp activeDir archiveDir)| |].
  { unfold GetOrOpen. rewrite bool_decide_eq_false_2 by (cbn; set_solver). apply quiet_bind, quiet_wrap, quiet_nop, quiet_bind.
    eapply quiet_mono; [by apply (open_existing_runs _ d)|]. intros u s1 _. by apply quiet_ret. }
  intros p s1 [Hg Hp1]. destruct (Hp1 p eq_refl) as [-> Hd1].
  destruct (grown_conserves activeDir archiveDir Hsep pool m s s1 Hp R1 Hg) as (C1 & [O1 O1'] & Ea).
  apply quiet_bind.
  assert (Hord1 : month_order {[m]} = [m]) by (apply Permutation_length_1_inv; by rewrite Horder, elements_singleton).
  set (p1 := mkPool {[m]} (Join activeDir pool)).
  destruct (flush_all_quiet scan batchSize appendBatchRows pid month_order p1 archiveDir s1) as (s2 & E2 & Hall); try done.
  { cbn. by apply Hsep. }
  { cbn. rewrite Hord1. intros m' ->%list_elem_of_singleton. destruct Hd1 as [d1 Hd1]. exists d1. split; [done|].
    by apply (td_active _ _ _ (cs_tidy _ _ _ _ C1) pool m). }
  { cbn. rewrite Dir_Join by done. apply C1. }
  { cbn. intros m' ->%elem_of_singleton. rewrite Ea. apply R2. }
  destruct (Hall m) as (Hgone & Har & Hx); [cbn; set_solver|].
  pose proof (flush_conserves month_order scan batchSize appendBatchRows pid activeDir archiveDir Horder Hscan Hpid Hb Hsep
    pool m s1 Hp (cs_tidy _ _ _ _ C1) Hd1 []) as Hw. fold p1 in Hw. rewrite E2 in Hw. destruct Hw as (C2 & O2 & _).
  exists (NewSubjectDBPool (Join activeDir pool), None), s2. split; [done|]. apply Hk. split; [by eapply conserves_trans|eapply only_month_trans; [by split|done]|done|done|].
  intros x (d0 & Hd0 & Hx0). apply Hx. destruct (dg_le _ _ _ Hg d0 Hd0) as (d1 & Hd1' & Hle). exists d1. auto.
Qed.

(** The months [P] of the pools are archived and gone, the others as they were. *)
Record emptied (P : string -> string -> Prop) (s s' : store) : Prop := {
  em_ready : ready s';
  em_conserves : conserves s s';
  em_gone : forall pool m, no_slash pool -> P pool m -> dbs s' !! act pool m = None;
  em_rows : forall pool m x, no_slash pool -> P pool m -> held_at s (act pool m) x -> held_at s' (arch m) x;
  em_archived : forall pool m, P pool m -> is_archived (arch m) s';
  em_other : forall pool m, no_slash pool -> ~ P pool m -> dbs s' !! act pool m = dbs s !! act pool m;
  em_none : forall pool m, no_slash pool -> dbs s !! act pool m = None -> dbs s' !! act pool m = None }.

Lemma emptied_none s : ready s -> emptied (fun _ _ => False) s s.
Proof. intros H. split; try done. by apply conserves_refl, H. Qed.

Lemma emptied_ext (P P' : string -> string -> Prop) s s' :
  (forall pool m, no_slash pool -> P pool m <-> P' pool m) -> (forall pool m, P' pool m -> no_slash pool) ->
  emptied P s s' -> emptied P' s s'.
Proof.
  intros E Hns [A1 A2 A3 A4 A5 A6 A7]. split; try done.
  - intros pool m Hp HP. apply A3; [done|by apply E].
  - intros pool m x Hp HP. apply A4; [done|by apply E].
  - intros pool m HP. apply (A5 pool), E; [by eapply Hns|done].
  - intros pool m Hp HP. apply A6; [done|]. by rewrite E.
Qed.

Lemma emptied_trans P P' s1 s2 s3 : emptied P s1 s2 -> emptied P' s2 s3 -> emptied (fun pool m => P pool m \/ P' pool m) s1 s3.
Proof.
  intros [A1 A2 A3 A4 A5 A6 A7] [B1 B2 B3 B4 B5 B6 B7]. split; [done|by eapply conserves_trans|..].
  - intros pool m Hp [H|H]; [by apply B7, A3|by apply B3].
  - intros pool m x Hp [H|H] Hx; [by eapply B2, A4|].
    destruct (cs_active _ _ _ _ A2 pool m x Hp Hx) as [Hx'|Hx']; [by eapply B4|by apply B2].
  - intros pool m [H|H]; [by eapply B2, A5|by eapply B5].
  - intros pool m Hp H. rewrite B6, A6; tauto.
  - intros pool m Hp H. by apply B7, A7.
Qed.

Lemma moved_emptied pool m s s' : no_slash pool -> moved pool m s s' -> ready s -> emptied (fun p q => p = pool /\ q = m) s s'.
Proof.
  intros Hp Hmv Hr. pose proof (ready_moved _ _ _ _ Hmv Hr) as Hr'. destruct Hmv as [C [O _] G A X].
  split; [done|done|by intros ? ? _ [-> ->]|by intros ? ? x _ [-> ->]; apply X|by intros ? ? [-> ->]|..].
  - intros p q Hp' H. apply O; [done|]. by intros [= -> ->]; apply H.
  - intros p q Hp' Hn. destruct (decide ((p, q) = (pool, m))) as [[= -> ->]|Hne]; [done|]. by rewrite O.
Qed.

Lemma drain_months_quiet pool months t s :
  no_slash pool -> ready s -> NoDup months -> (forall m, m ∈ months -> is_Some (dbs s !! act pool m)) ->
  quiet (drain pool months t) (fun t' s' => totalFailed t' = totalFailed t /\
    (forall m, m ∈ touched t' <-> m ∈ touched t \/ m ∈ months) /\ emptied (fun p m => p = pool /\ m ∈ months) s s') s.
Proof.
  intros Hp Hr Hnd. revert t s Hr. induction Hnd as [|m months Hm Hnd IH]; intros t s Hr Hms.
  { apply quiet_ret. split; [done|]. split; [set_solver|].
    eapply emptied_ext; [| |by apply emptied_none]; [intros p m _; set_solver|by intros p m [-> _]]. }
  apply month_quiet; [done|done|apply Hms; by left|]. intros s1 Hmv.
  pose proof (moved_emptied _ _ _ _ Hp Hmv Hr) as E1.
  eapply quiet_mono; [apply IH; [apply E1|]|].
  { intros m' Hm'. rewrite (em_other _ _ _ E1) by (by try intros [_ ->]). apply Hms. by right. }
  intros t' s' (E & Ht & E2). split; [done|]. split; [intros m'; rewrite Ht; cbn; set_solver|].
  eapply emptied_ext; [| |by eapply emptied_trans]; [intros p q _; cbn; set_solver|by intros p q [-> _]].
Qed.

Lemma drain_pool_quiet pool t s :
  no_slash pool -> ready s ->
  quiet (drain_pool month_order scan batchSize appendBatchRows pid activeDir archiveDir "" false pool t)
    (fun t' s' => totalFailed t' = totalFailed t /\
      (forall m, m ∈ touched t' <-> m ∈ touched t \/ holds_month (Join activeDir pool) s m) /\
      emptied (fun p m => p = pool /\ holds_month (Join activeDir pool) s m) s s') s.
Proof.
  intros Hp Hr. unfold drain_pool. cbn [String.eqb negb andb].
  apply quiet_bind, quiet_attempt. eapply quiet_mono; [apply list_months_quiet|]. intros months s1 (-> & Hnd & Hms).
  apply quiet_bind. eapply quiet_mono; [apply drain_months_quiet; [done|done|done|]|].
  { intros m Hm. by apply Hms in Hm as [_ ?]. }
  intros t1 s1 (E & Ht & E1).
  assert (Hpost : totalFailed t1 = totalFailed t /\
    (forall m, m ∈ touched t1 <-> m ∈ touched t \/ holds_month (Join activeDir pool) s m) /\
    emptied (fun p m => p = pool /\ holds_month (Join activeDir pool) s m) s s1).
  { split; [done|]. split; [intros m; by rewrite Ht, Hms|].
    eapply emptied_ext; [| |exact E1]; [intros p q _; cbn; by rewrite Hms|by intros p q [-> _]]. }
  apply quiet_bind, quiet_attempt. eapply quiet_mono; [apply list_months_quiet|]. intros rem s2 (-> & _ & _).
  destruct rem; [apply quiet_bind, quiet_attempt, quiet_nop|]; by apply quiet_ret.
Qed.

Lemma drain_pools_quiet pools t s :
  Forall no_slash pools -> ready s ->
  quiet (drain_pools month_order scan batchSize appendBatchRows pid activeDir archiveDir "" false pools t)
    (fun t' s' => totalFailed t' = totalFailed t /\
      (forall m, m ∈ touched t' <-> m ∈ touched t \/ exists pool, pool ∈ pools /\ holds_month (Join activeDir pool) s m) /\
      emptied (fun p m => p ∈ pools /\ holds_month (Join activeDir p) s m) s s') s.
Proof.
  intros Hps. revert t s. induction Hps as [|pool pools Hp Hps IH]; intros t s Hr; cbn [drain_pools].
  { apply quiet_ret. split; [done|]. split; [set_solver|].
    eapply emptied_ext; [| |by apply emptied_none]; [intros p m _; set_solver|by intros p m [?%elem_of_nil _]]. }
  apply quiet_bind. eapply quiet_mono; [by apply drain_pool_quiet|]. intros t1 s1 (F1 & T1 & E1).
  eapply quiet_mono; [apply IH, E1|]. intros t2 s2 (F2 & T2 & E2).
  assert (Hback : forall p m, no_slash p -> holds_month (Join activeDir p) s1 m -> holds_month (Join activeDir p) s m).
  { intros p m Hp' [H1 [f Hf]]. split; [done|]. destruct (dbs s !! act p m) as [f'|] eqn:En; [by exists f'|].
    rewrite (em_none _ _ _ E1 p m Hp' En) in Hf. done. }
  assert (Hforth : forall p m, no_slash p -> p <> pool -> holds_month (Join activeDir p) s m -> holds_month (Join activeDir p) s1 m).
  { intros p m Hp' Hne [H1 H2]. split; [done|]. rewrite (em_other _ _ _ E1); [done|done|]. by intros [-> _]. }
  rewrite Forall_forall in Hps. split; [congruence|]. split.
  - intros m. rewrite T2, T1. split.
    + intros [[H|H]|(p & Hin & H)]; [by left|right; exists pool; split; [by left|done]|].
      right. exists p. split; [by right|]. apply Hback; [by apply Hps|done].
    + intros [H|(p & [->|Hin]%elem_of_cons & H)]; [by left; left|by left; right|].
      destruct (decide (p = pool)) as [->|Hne]; [by left; right|]. right. exists p. split; [done|].
      apply Hforth; [by apply Hps|done|done].
  - eapply emptied_ext; [| |by eapply emptied_trans].
    + intros p m Hp'. cbn. rewrite elem_of_cons. split.
      * intros [[-> H]|[Hin H]]; [by split; [left|]|]. split; [by right|by apply Hback].
      * intros [Hin H]. destruct (decide (p = pool)) as [->|Hne]; [by left|]. destruct Hin as [?|Hin]; [done|].
        right. split; [done|]. by apply Hforth.
    + intros p m [[->|Hin]%elem_of_cons _]; [done|by apply Hps].
Qed.

(** *** Sealing *)

#[local] Abbreviation seal_src := (seal_src mkdir_temp archiveDir).

Lemma seal_months_quiet months t s :
  NoDup months -> tidy s -> (forall m, m ∈ months -> no_slash m /\ is_archived (arch m) s /\ dbs s !! seal_src m = None) ->
  quiet (seal_months pid mkdir_temp activeDir archiveDir months t) (fun t' s' => t' = t /\ conserves s s' /\
    (forall m, m ∈ months -> month_sealed archiveDir m s') /\
    (forall m, no_slash m -> m ∉ months -> dbs s' !! arch m = dbs s !! arch m) /\
    forall pool m, no_slash pool -> dbs s' !! act pool m = dbs s !! act pool m) s.
Proof.
  intros Hnd. revert s. induction Hnd as [|m months Hm Hnd IH]; intros s Ht Hms; cbn [seal_months].
  { apply quiet_ret. split; [done|]. split; [by apply conserves_refl|]. split; [by intros m ?%elem_of_nil|done]. }
  destruct (Hms m ltac:(by left)) as (Hs & [d Hd] & Hn). apply quiet_bind, quiet_attempt.
  destruct (seal_month_completes pid (seal_src m) (arch m) activeDir s d) as [s1 E1]; try done.
  { split; apply month_path_db. }
  { by apply seal_apart. }
  { by apply (td_archive _ _ _ Ht m). }
  destruct (seal_conserves pid mkdir_temp activeDir archiveDir Hpid Hsep m s Hs Ht ltac:(by exists d) Hn [])
    as (C1 & S1 & O1 & A1); rewrite E1 in *; cbn [fst snd] in *. specialize (S1 eq_refl).
  assert (Hap : forall m', no_slash m' -> m' <> m -> dbs s1 !! arch m' = dbs s !! arch m')
    by (intros m' Hs' Hne; apply O1; [by apply not_eq_sym, seal_apart|done]).
  exists tt, s1. split; [done|]. eapply quiet_mono; [apply IH; [apply C1|]|].
  - intros m' Hm'. destruct (Hms m' ltac:(by right)) as (Hs' & Ha' & Hn'). split; [done|]. split; [by apply C1|].
    unfold Remerge.seal_src in Hn' |- *. rewrite O1; [done| |].
    + intros E%seal_src_inj; [by subst|done|done].
    + intros E. by apply (seal_apart mkdir_temp archiveDir m' m Hs); unfold Remerge.seal_src; rewrite E.
  - intros t' s' (-> & C2 & S2 & O2 & A2). split; [done|]. split; [by eapply conserves_trans|]. split; [|split].
    + intros m' [->|Hm']%elem_of_cons; [|by apply S2]. unfold month_sealed. by rewrite O2.
    + intros m' Hs' Hm'. rewrite O2, Hap; [done..| |done|]; [intros ->; apply Hm'; by left|]. intros H. apply Hm'. by right.
    + intros pool m' Hp. by rewrite A2, A1.
Qed.

(** Emptying the listed pools empties them all. *)
Lemma all_gone (pools : list string) s s' :
  (forall p, p ∈ pools <-> no_slash p /\ exists m, holds_month (Join activeDir p) s m) ->
  emptied (fun p m => p ∈ pools /\ holds_month (Join activeDir p) s m) s s' ->
  forall pool m, no_slash pool -> is_month m = true -> dbs s' !! act pool m = None /\
    forall x, held_at s (act pool m) x -> held_at s' (arch m) x.
Proof.
  intros Hps [_ _ G1 X1 _ _ N1] pool m Hp Hm. destruct (dbs s !! act pool m) as [f|] eqn:E.
  - assert (holds_month (Join activeDir pool) s m) as Hh by (split; [done|by exists f]).
    assert (pool ∈ pools) as Hin by (apply Hps; by split; [|exists m]).
    split; [by apply G1|]. intros x. by apply X1.
  - split; [by apply N1|]. intros x (d & Hd & _). congruence.
Qed.

(** The whole command. *)
Lemma remerge_quiet noSeal s :
  ready s -> (forall m, dbs s !! seal_src m = None) ->
  quiet (remerge month_order scan batchSize appendBatchRows pid mkdir_temp activeDir archiveDir "" false noSeal [])
    (fun t s' => totalFailed t = 0 /\ conserves s s' /\
      (forall pool m, no_slash pool -> is_month m = true -> dbs s' !! act pool m = None /\
         forall x, held_at s (act pool m) x -> held_at s' (arch m) x) /\
      (noSeal = false -> forall pool m, no_slash pool -> holds_month (Join activeDir pool) s m -> month_sealed archiveDir m s')) s.
Proof.
  intros Hr Hn. unfold remerge. apply quiet_bind, quiet_attempt.
  eapply quiet_mono; [apply quiet_and; [apply list_pools_quiet|apply list_pools_wp]|].
  intros pools s0 [[-> Hps] [_ Hns]]. specialize (Hns pools eq_refl).
  destruct pools as [|pool0 pools0].
  { apply quiet_ret. split; [done|]. split; [by apply conserves_refl, Hr|]. split.
    - apply (all_gone []); [done|]. eapply emptied_ext; [| |by apply emptied_none]; [intros p m _; set_solver|by intros p m [?%elem_of_nil _]].
    - intros _ pool m Hp H. exfalso. apply (not_elem_of_nil pool), Hps. by split; [|exists m]. }
  set (pools := pool0 :: pools0) in *. clearbody pools. clear pool0 pools0.
  apply quiet_bind. eapply quiet_mono; [apply quiet_and; [by apply drain_pools_quiet|
    apply (drain_pools_wp month_order scan batchSize appendBatchRows pid activeDir archiveDir Horder Hscan Hpid Hb Hsep);
      [done|apply Hr|intros m; cbn; set_solver]]|].
  intros t s1 [(F1 & T1 & E1) (C1 & U1 & Hok)]. specialize (Hok t eq_refl). cbn [totalFailed touched] in *.
  pose proof (all_gone pools s s1 Hps E1) as Hgone.
  destruct (_ && _) eqn:Eb.
  2: { apply quiet_ret. split; [done|]. split; [done|]. split; [done|]. intros -> pool m Hp H. exfalso.
    assert (m ∈ touched t) as Hin by (apply T1; right; exists pool; split; [apply Hps; by split; [|exists m]|done]).
    cbn in Eb. apply negb_false_iff, bool_decide_eq_true in Eb. rewrite Eb in Hin. by apply not_elem_of_empty in Hin. }
  eapply quiet_mono; [apply seal_months_quiet; [rewrite sort_by_perm; apply NoDup_elements|apply C1|]|].
  - intros m Hm. rewrite (elem_of_sort_by text_cmp), elem_of_elements in Hm. split; [by apply Hok|]. split; [by apply Hok|].
    unfold Remerge.seal_src. rewrite U1; [apply Hn|]. intros H.
    by apply (seal_apart mkdir_temp archiveDir m (Join m (".seal-src-" +:+ mkdir_temp m)) H).
  - intros t' s' (-> & C2 & S2 & _ & A2). split; [done|]. split; [by eapply conserves_trans|]. split.
    + intros pool m Hp Hm. destruct (Hgone pool m Hp Hm) as [H1 H2]. split; [by rewrite A2|]. intros x Hx. by apply C2, H2.
    + intros _ pool m Hp H. apply S2. rewrite (elem_of_sort_by text_cmp), elem_of_elements. apply T1. right.
      exists pool. split; [apply Hps; by split; [|exists m]|done].
Qed.

End Live.

(** ** Properties *)

(** C31. When nothing fails, a remerge of all pools terminates and reports no
    failure: every month of every pool is removed from it, all its certificates
    are in the month's archive, and, unless the seal is switched off, these
    archive months are behind their unique index, each certificate once. *)
Theorem remerge_drains (month_order : gset string -> list string) (scan : db -> res (list bytes))
  (batchSize appendBatchRows pid : Z) (mkdir_temp : string -> string) (activeDir archiveDir : string)
  (noSeal : bool) (s : store)
  (Horder : forall x, month_order x ≡ₚ elements x)
  (Hscan : forall d hs, scan d = Ok hs -> forall h, h ∈ hs -> h ∈ hashes d)
  (Hscan_ok : forall d, is_ok (scan d) = true)
  (Hpid : 0 <= pid) (Hb : 1 <= appendBatchRows)
  (Hsep : forall pool, no_slash pool -> separate (Join activeDir pool) archiveDir)
  (Hready : ready activeDir archiveDir s)
  (Htemp : forall m, dbs s !! seal_src mkdir_temp archiveDir m = None) :
  exists t s', remerge month_order scan batchSize appendBatchRows pid mkdir_temp activeDir archiveDir "" false noSeal []
                 s [] = (Ok t, s', []) /\
    totalFailed t = 0 /\
    (forall pool m, no_slash pool -> is_month m = true ->
       dbs s' !! month_path (Join activeDir pool) m = None /\
       forall x, held_at s (month_path (Join activeDir pool) m) x -> held_at s' (month_path archiveDir m) x) /\
    (noSeal = false -> forall pool m, no_slash pool -> holds_month (Join activeDir pool) s m -> month_sealed archiveDir m s').
Proof.
  destruct (remerge_quiet month_order scan batchSize appendBatchRows pid mkdir_temp activeDir archiveDir
    Horder Hscan Hscan_ok Hpid Hb Hsep noSeal s Hready Htemp) as (t & s' & E & H1 & _ & H2 & H3).
  by exists t, s'.
Qed.

(** ** Witnesses *)

Lemma left_ready : ready "data/active" "hdd" left_pools.
Proof.
  assert (Hall : forall p f, dbs left_pools !! p = Some f -> exists d, f = DB d /\ NoDup (tile_keys d)).
  { unfold left_pools. cbn [dbs]. intros p f.
    intros [[_ <-]|[_ [[_ <-]|[_ [_ <-]%lookup_singleton_Some]]%lookup_insert_Some]]%lookup_insert_Some;
      (eexists; split; [reflexivity|]); apply NoDup_nil_2. }
  split; [apply left_tidy|intros m E; by destruct (Hall _ _ E) as (d & ? & _)|intros pool m f _; apply Hall].
Qed.

Lemma remerge_drains_witness :
  exists t s', remerge elements scan_all 10 10 7 (fun _ => "1") "data/active" "hdd" "" false false [] left_pools [] = (Ok t, s', []) /\
    totalFailed t = 0 /\
    (forall pool m, no_slash pool -> is_month m = true ->
       dbs s' !! month_path (Join "data/active" pool) m = None /\
       forall x, held_at left_pools (month_path (Join "data/active" pool) m) x -> held_at s' (month_path "hdd" m) x) /\
    (false = false -> forall pool m, no_slash pool -> holds_month (Join "data/active" pool) left_pools m -> month_sealed "hdd" m s').
Proof.
  apply (remerge_drains elements scan_all 10 10 7 (fun _ => "1") "data/active" "hdd" false left_pools).
  - reflexivity.
  - apply scan_all_sound.
  - reflexivity.
  - lia.
  - lia.
  - intros pool _. apply left_separate.
  - apply left_ready.
  - intros m. apply left_no_temp.
Defined.

(** The drain is not aware of a month whose file it cannot look at: os.Stat's
    failure counts as absence, the month stays in its pool and the run reports
    success. *)
Lemma unreadable_month_skipped :
  let out := remerge elements scan_all 10 10 7 (fun _ => "1") "data/active" "hdd" "" false true [] left_pools [Done; Done; Done; Done; Done; Done; Failed] in
  match out.1.1 with Ok t => (totalMonths t, totalFailed t) | _ => (0, 1) end = (1, 0) /\
  is_Some (dbs out.1.2 !! "data/active/20250101/2025-02/subjects.db").
Proof. vm_compute. split; [reflexivity|by eexists]. Qed.
