(* ===== verification/Migrate.v ===== *)
(** cmd/migrate-archive: stripping a month to the append-only heap keeps its
    certificates under every failure, and a run in which nothing fails leaves
    every month of the archive without its unique index. *)

From S2P Require Import Prelude GoStd Order FileSys Sql SubjectDB Dedup DedupLive.
From S2P Require Import Remerge RemergeSafe RemergeLive.

#[local] Open Scope sql_scope.

(** ** Lemmas *)

(** *** One month *)

Section Month.

Context (pid : Z) (archive : string) (s0 : store).
Hypothesis Hdb : db_file archive.
Hypothesis Hpid : 0 <= pid.

(** The month is [d], the other databases and the dedup sets are as before. *)
Definition rebuilding (d : db) (s : store) : Prop :=
  dbs s !! archive = Some (DB d) /\ seens s = seens s0 /\
  forall q, db_file q -> q <> archive -> dbs s !! q = dbs s0 !! q.

#[local] Instance rebuilding_inv : MonthInv archive rebuilding.
Proof.
  split; [by intros d s (? & _)|intros d d' s (H1 & H2 & H3) _|intros d s q f Hq (H1 & H2 & H3)].
  - split; [rewrite dbs_set; by case_decide|]. split; [done|]. intros q Hq Hne. rewrite dbs_set. case_decide; [congruence|auto].
  - assert (q <> archive) by congruence.
    split; (split; [rewrite ?dbs_set, ?dbs_del; by case_decide|]); (split; [done|]); intros q' Hq' Hne;
      rewrite ?dbs_set, ?dbs_del; (case_decide; [congruence|auto]).
Qed.

(** The month after a migration that may have failed. *)
Definition migrating (d : db) (s : store) : Prop :=
  exists d', rebuilding d' s /\ db_le d d' /\ db_good d'.

Lemma migrate_wp scratchDir d s :
  rebuilding d s -> db_good d ->
  wp (MigrateArchiveMonth pid archive scratchDir)
     (fun r s' => migrating d s' /\
        forall b, r = Ok b -> b = ix_hash d /\ exists d', dbs s' !! archive = Some (DB d') /\ ix_hash d' = false) s.
Proof.
  intros Hs Hg. assert (Hm : migrating d s) by (by exists d).
  unfold MigrateArchiveMonth, hasCertHashIndex. apply wp_bind, wp_wrap, (wp_query archive _ _ _ d); [apply Hs|by split..|].
  cbn [wrap_err]. destruct (ix_hash d) eqn:Eh; cbn [negb].
  2: { apply wp_ret. split; [done|]. intros b [= <-]. split; [done|]. exists d. split; [apply Hs|done]. }
  apply wp_bind. eapply wp_mono; [apply (scratch_wp pid archive rebuilding Hpid d
    (fun dn => db_le d dn /\ db_good dn /\ ix_hash dn = false))|].
  - by intros dn [? _].
  - intros bp s1 Hbp H1. by apply (heap_wp archive rebuilding Hdb).
  - done.
  - intros r s1 [[H1 Hr]|(dn & H1 & Hle & Hgn & Hh)].
    + assert (migrating d s1) by (by exists d). destruct r as [[]|e|]; [done|by split..].
    + assert (migrating d s1) by (by exists dn). destruct r as [[]|e|]; [|by split..]. apply wp_ret.
      split; [done|]. intros b [= <-]. split; [done|]. exists dn. split; [apply H1|done].
Qed.

Lemma migrate_runs scratchDir d s :
  dbs s !! archive = Some (DB d) -> runs (MigrateArchiveMonth pid archive scratchDir) s.
Proof.
  intros Hd. unfold MigrateArchiveMonth, hasCertHashIndex. apply quiet_bind, quiet_wrap, (quiet_query archive _ d); [done|].
  destruct (ix_hash d); cbn [negb]; [|by apply quiet_ret].
  apply runs_bind; [|intros; by apply quiet_ret]. apply scratch_runs; [done..|].
  intros bp s1 Hbp Hq Hn. eapply (heap_quiet archive bp d); [by intros ->|by rewrite Hq|done].
Qed.

End Month.

(** A month that cannot be read is left alone. *)
Lemma migrate_missing pid archive scratchDir s :
  is_ok (read_db archive s) = false ->
  wp (MigrateArchiveMonth pid archive scratchDir) (fun r s' => s' = s /\ is_ok r = false) s.
Proof.
  intros Hs. unfold MigrateArchiveMonth, hasCertHashIndex, query. apply wp_bind, wp_wrap, wp_step; [done..|].
  by destruct (read_db archive s).
Qed.

(** *** All months *)

Section Months.

Context (pid : Z) (archiveDir scratchDir : string).
Hypothesis Hpid : 0 <= pid.

#[local] Abbreviation arch := (month_path archiveDir).

Definition months_good (s : store) : Prop := forall m d, dbs s !! arch m = Some (DB d) -> db_good d.

(** Only months of the archive change, and they keep what they hold. *)
Record stripping (s s' : store) : Prop := {
  st_good : months_good s';
  st_rows : forall q x, db_file q -> held_at s q x -> held_at s' q x;
  st_seens : seens s' = seens s;
  st_other : forall q, db_file q -> (forall m, is_month m = true -> q <> arch m) -> dbs s' !! q = dbs s !! q }.

Lemma stripping_refl s : months_good s -> stripping s s.
Proof. by split. Qed.

Lemma stripping_trans s1 s2 s3 : stripping s1 s2 -> stripping s2 s3 -> stripping s1 s3.
Proof.
  intros [A1 A2 A3 A4] [B1 B2 B3 B4]. split; [done|auto|congruence|]. intros q Hq Hm. by rewrite B4, A4.
Qed.

Definition stripped (m : string) (s : store) : Prop := exists d, dbs s !! arch m = Some (DB d) /\ ix_hash d = false.

Lemma month_wp m s :
  is_month m = true -> months_good s ->
  wp (MigrateArchiveMonth pid (arch m) scratchDir) (fun r s' => stripping s s' /\
    (forall q, db_file q -> q <> arch m -> dbs s' !! q = dbs s !! q) /\
    forall b, r = Ok b -> (exists d, dbs s !! arch m = Some (DB d) /\ b = ix_hash d) /\ stripped m s') s.
Proof.
  intros Hm Hg. destruct (read_db (arch m) s) as [d|e|] eqn:E.
  2, 3: eapply wp_mono; [apply migrate_missing; by rewrite E|]; intros r s' [-> Hr];
    (split; [by apply stripping_refl|]); (split; [done|]); by intros b ->.
  assert (Hd : dbs s !! arch m = Some (DB d)) by (unfold read_db in E; by destruct (dbs s !! arch m) as [[?|]|]; simplify_eq).
  eapply wp_mono; [apply (migrate_wp pid (arch m) s (month_path_db _ _) Hpid scratchDir d s); [by split|by apply (Hg m)]|].
  intros r s' [(d' & (H1 & H2 & H3) & Hle & Hg') Hr]. split; [split|split; [done|]].
  - intros m' x Hx. destruct (decide (m' = m)) as [->|Hne]; [by replace x with d' by congruence|].
    rewrite H3 in Hx; [by eapply Hg|apply month_path_db|by intros ?%month_path_inj].
  - intros q x Hq (x0 & Hx0 & Hx). destruct (decide (q = arch m)) as [->|Hne].
    + exists d'. split; [done|]. apply Hle. by replace d with x0 by congruence.
    + exists x0. by rewrite H3.
  - done.
  - intros q Hq Hn. apply H3; [done|by apply Hn].
  - intros b Hb. destruct (Hr b Hb) as [-> Hs]. split; [by exists d|done].
Qed.

Lemma migrate_months_wp dryRun months t s :
  Forall (fun m => is_month m = true) months -> months_good s ->
  wp (migrate_months pid archiveDir scratchDir dryRun months t) (fun _ s' => stripping s s') s.
Proof.
  intros Hms. revert t s. induction Hms as [|m months Hm _ IH]; intros t s Hg; cbn [migrate_months].
  { by apply wp_ret, stripping_refl. }
  destruct dryRun; [by apply IH|]. apply wp_bind, wp_attempt. eapply wp_mono; [by apply month_wp|].
  intros [b|e|] s1 (H1 & _ & _); [..|done]; (eapply wp_mono; [apply IH, H1|]); intros r s'; by apply stripping_trans.
Qed.

(** The months that still have the unique index. *)
Definition indexed (s : store) (m : string) : bool :=
  match dbs s !! arch m with Some (DB d) => ix_hash d | _ => false end.

Lemma migrate_months_quiet months t s :
  NoDup months -> Forall (fun m => is_month m = true) months -> months_good s ->
  (forall m, m ∈ months -> is_archived (arch m) s) ->
  quiet (migrate_months pid archiveDir scratchDir false months t) (fun t' s' =>
    mig_failed t' = mig_failed t /\ migrated t' = migrated t + Z.of_nat (length (List.filter (indexed s) months)) /\
    migrated t' + skipped t' = migrated t + skipped t + Z.of_nat (length months) /\
    (forall m, m ∈ months -> stripped m s') /\
    forall m, m ∉ months -> dbs s' !! arch m = dbs s !! arch m) s.
Proof.
  intros Hnd. revert t s. induction Hnd as [|m months Hin Hnd IH]; intros t s Hms Hg Ha; cbn [migrate_months].
  { apply quiet_ret. cbn. split_and!; [done|lia|lia|by intros m ?%elem_of_nil|done]. }
  apply Forall_cons in Hms as [Hm Hms]. destruct (Ha m ltac:(by left)) as [d Hd].
  apply quiet_bind, quiet_attempt. eapply quiet_wp; [by apply (month_wp m s)|eapply migrate_runs; [apply month_path_db|done|done]|].
  intros b s1 (H1 & H2 & H3). destruct (H3 b eq_refl) as [(d0 & Hd0 & ->) Hst].
  assert (Hother : forall m', m' <> m -> dbs s1 !! arch m' = dbs s !! arch m')
    by (intros m' Hne; apply H2; [apply month_path_db|by intros ?%month_path_inj]).
  eapply quiet_mono; [apply IH; [done|apply H1|]|].
  { intros m' Hm'. unfold is_archived. rewrite Hother by (by intros ->). apply Ha. by right. }
  intros t' s' (F1 & F2 & F3 & F4 & F5). assert (List.filter (indexed s1) months = List.filter (indexed s) months) as Ef.
  { apply filter_ext_in. intros m' Hm'%list_elem_of_In. unfold indexed. by rewrite Hother by (by intros ->). }
  rewrite Ef in F2. cbn [List.filter length]. assert (indexed s m = ix_hash d0) as -> by (unfold indexed; by rewrite Hd0).
  split_and!.
  - rewrite F1. by destruct (ix_hash d0).
  - rewrite F2. destruct (ix_hash d0); cbn [migrated length]; lia.
  - rewrite F3. destruct (ix_hash d0); cbn [migrated skipped]; lia.
  - intros m' [->|Hm']%elem_of_cons; [|by apply F4]. unfold stripped. by rewrite F5.
  - intros m' Hm'. rewrite F5, Hother; [done| |]; [intros ->; apply Hm'; by left|]. intros H. apply Hm'. by right.
Qed.

End Months.

(** ** Properties *)

(** A migration of the archive, whatever fails in it and wherever it dies,
    changes nothing but months of the archive, and every certificate of a month
    stays in it. When nothing fails and no month is torn, it reports the number
    of months that had the unique index and the number of all, and leaves every
    month without it, so that the next flushes only append. *)
Theorem migrate_archive_exact (pid : Z) (archiveDir scratchDir : string) (dryRun : bool) (running : list string)
  (s s' : store) (fl fl' : list outcome) (r : res migration)
  (Hpid : 0 <= pid) (Hgood : months_good archiveDir s)
  (Hrun : migrate_archive pid archiveDir scratchDir dryRun running s fl = (r, s', fl')) :
  stripping archiveDir s s' /\
  (fl = [] -> running = [] -> dryRun = false -> (forall m, dbs s !! month_path archiveDir m <> Some Torn) ->
   exists t months, r = Ok t /\ mig_failed t = 0 /\
     NoDup months /\ (forall m, m ∈ months <-> holds_month archiveDir s m) /\
     migrated t = Z.of_nat (length (List.filter (indexed archiveDir s) months)) /\
     migrated t + skipped t = Z.of_nat (length months) /\
     forall m, m ∈ months -> stripped archiveDir m s').
Proof.
  assert (Hw : wp (migrate_archive pid archiveDir scratchDir dryRun running) (fun _ s' => stripping archiveDir s s') s).
  { pose proof (stripping_refl archiveDir s Hgood). unfold migrate_archive. destruct running; [|by apply wp_fail].
    apply wp_bind, wp_attempt. eapply wp_mono; [apply list_months_wp|].
    intros [months|e|] s1 [-> Hms]; [|by apply wp_fail|done]. specialize (Hms months eq_refl).
    destruct months; [by apply wp_ret|]. by apply migrate_months_wp. }
  split; [by apply (wp_run _ _ _ _ _ _ _ Hw) in Hrun|]. intros -> -> -> Htorn.
  assert (Hq : quiet (migrate_archive pid archiveDir scratchDir false []) (fun t s' => exists months, mig_failed t = 0 /\
    NoDup months /\ (forall m, m ∈ months <-> holds_month archiveDir s m) /\
    migrated t = Z.of_nat (length (List.filter (indexed archiveDir s) months)) /\
    migrated t + skipped t = Z.of_nat (length months) /\ forall m, m ∈ months -> stripped archiveDir m s') s).
  { unfold migrate_archive. apply quiet_bind, quiet_attempt. eapply quiet_mono; [apply list_months_quiet|].
    intros months s1 (-> & Hnd & Hms). destruct months as [|m0 months0] eqn:E.
    { apply quiet_ret. exists []. split_and!; try done. by intros m ?%elem_of_nil. }
    rewrite <- E in *. eapply quiet_mono; [apply migrate_months_quiet; [done|done| |done|]|].
    - apply Forall_forall. intros m Hm. by apply Hms in Hm as [? _].
    - intros m Hm. apply Hms in Hm as [_ [[d|] Hf]]; [by exists d|by destruct (Htorn m)].
    - intros t s2 (F1 & F2 & F3 & F4 & _). exists months. cbn [mig_failed migrated skipped] in *. split_and!; done || lia. }
  destruct Hq as (t & s2 & E & months & H). rewrite E in Hrun. injection Hrun as <- <- _. by exists t, months.
Qed.

(** ** Witnesses *)

Lemma left_months_good : months_good "hdd" left_pools.
Proof. intros m d. apply left_good. Qed.

(** The month of the archive is migrated; a crash before its rename loses nothing. *)
Lemma migrate_archive_exact_witness :
  let out fl := migrate_archive 7 "hdd" "scratch" false [] left_pools fl in
  (stripping "hdd" left_pools (out (repeat Done 9 ++ [Crashed])).1.2) /\
  exists t months, (out []).1.1 = Ok t /\ mig_failed t = 0 /\ migrated t + skipped t = Z.of_nat (length months) /\
    forall m, m ∈ months -> stripped "hdd" m (out []).1.2.
Proof.
  cbv zeta. split.
  - destruct (migrate_archive 7 "hdd" "scratch" false [] left_pools (repeat Done 9 ++ [Crashed])) as [[r s'] fl'] eqn:E.
    cbn [fst snd]. destruct (migrate_archive_exact 7 "hdd" "scratch" false [] left_pools s' (repeat Done 9 ++ [Crashed]) fl' r
      ltac:(lia) left_months_good E) as [H _]. exact H.
  - destruct (migrate_archive 7 "hdd" "scratch" false [] left_pools []) as [[r s'] fl'] eqn:E.
    cbn [fst snd]. destruct (migrate_archive_exact 7 "hdd" "scratch" false [] left_pools s' [] fl' r
      ltac:(lia) left_months_good E) as [_ H].
    destruct (H eq_refl eq_refl eq_refl (rd_archive _ _ _ left_ready)) as (t & months & H1 & H2 & _ & _ & _ & H3 & H4).
    exists t, months. exact (conj H1 (conj H2 (conj H3 H4))).
Defined.
