(* ===== verification/Metrics.v ===== *)
(** internal/ingestion/metrics.go, and the Check handler of service.go with the
    snapshot it caches: what the server reports about an ingestion. *)

From S2P Require Import Prelude GoStd Float FileSys Partition CtlogClient Sql Progress LogClient Leaf IngestLog.

#[local] Open Scope sql_scope.

(** ** Definitions *)

Record DbInfo := mkDbInfo { di_Path : string; di_SizeBytes : Z }.

(** [UpdatedAt] is the time that the field formats, in Unix seconds (RFC 3339
    without fractions, which [time.Parse] reads back). *)
Record CheckResponse := mkCheckResponse {
  cr_UpdatedAt : Z; cr_DbFiles : list DbInfo; cr_DbBytesTotal : Z;
  cr_TotalProcessed : Z; cr_TreeSize : Z; cr_CoveragePct : float64 }.

(** What [filepath.Walk] visits without an error: path, IsDir, Size. *)
Record visit := mkVisit { v_path : string; v_dir : bool; v_size : Z }.

(** The part of the Service that Check and the metrics share. *)
Record MetricsState := mkMetrics {
  lastActiveDir : string; lastArchiveDir : string; lastRoot : string; lastMetrics : option CheckResponse }.

Record CheckRequest := mkCheckRequest { cq_OutputDir : string; cq_ArchiveDir : string; cq_MonitoringApiRoot : string }.

Definition or_empty (a b : string) : string := if String.eqb a "" then b else a.

Definition setMetrics (m : option CheckResponse) (activeDir archiveDir root : string) (s : MetricsState) : MetricsState :=
  mkMetrics (or_empty activeDir (lastActiveDir s)) (or_empty archiveDir (lastArchiveDir s)) (or_empty root (lastRoot s)) m.

Section Reporting.

Variable walk : string -> list visit.
Variable getf : string -> res bytes.

Definition walkDir (dir : string) : list DbInfo :=
  if String.eqb dir "" then [] else
  omap (fun v => if v_dir v || negb (has_suffix (v_path v) ".db") then None else Some (mkDbInfo (v_path v) (v_size v))) (walk dir).

Definition total_bytes (files : list DbInfo) : Z := foldl (fun t f => wrap64 (t + di_SizeBytes f)) 0 files.

(** The progress database, which is created when it is not there; a failure
    leaves the count at zero. *)
Definition processed (progressPath root : string) : M Z :=
  let@ r := attempt (OpenProgressDB progressPath) in
  match r with
  | inr _ => ret 0
  | inl _ =>
      let@ n := attempt (GetTotalProcessed progressPath root) in
      ret (match n with inl n => n | inr _ => 0 end)
  end.

Definition live_size (root : string) : Z :=
  if String.eqb root "" then 0 else
  match TileClient_TreeSize (NewTileClient getf root) with Ok n => n | _ => 0 end.

(** [now] is in nanoseconds. *)
Definition computeMetrics (now : Z) (activeDir archiveDir root : string) : M CheckResponse :=
  let files := walkDir activeDir ++ walkDir archiveDir in
  let@ n := processed (join_dir archiveDir "progress.db") root in
  let size := live_size root in
  ret (mkCheckResponse (now / 1000000000) files (total_bytes files) n size
         (if 0 <? size then fmul (fdiv (of_int n) (of_int size)) (of_int 100) else S754_zero false)).

(** A snapshot of less than ten seconds ago. *)
Definition fresh (now : Z) (m : CheckResponse) : bool := now - cr_UpdatedAt m * 1000000000 <? 10 * 1000000000.

Definition Check (now : Z) (req : CheckRequest) (s : MetricsState) : M (MetricsState * res CheckResponse) :=
  let activeDir := or_empty (cq_OutputDir req) (lastActiveDir s) in
  let archiveDir := or_empty (cq_ArchiveDir req) (lastArchiveDir s) in
  let root := or_empty (cq_MonitoringApiRoot req) (lastRoot s) in
  let compute :=
    if String.eqb archiveDir "" then
      ret (s, Err (Wrap "InvalidArgument" (Errorf "archive_dir required (no prior IngestLog call on this server)")))
    else
      let@ resp := computeMetrics now activeDir archiveDir root in
      ret (setMetrics (Some resp) activeDir archiveDir root s, Ok resp) in
  match lastMetrics s with
  | Some cached =>
      if String.eqb (cq_OutputDir req) "" && String.eqb (cq_MonitoringApiRoot req) "" && fresh now cached
      then ret (s, Ok cached) else compute
  | None => compute
  end.

(** *** The metrics log *)

Definition formatBytes_units : list string := ["K"; "M"; "G"; "T"; "P"; "E"].

Fixpoint bytes_loop (fuel : nat) (v div exp : Z) : Z * Z :=
  match fuel with
  | O => (div, exp)
  | S fuel => if 1024 <=? v then bytes_loop fuel (v / 1024) (wrap64 (div * 1024)) (exp + 1) else (div, exp)
  end.

Definition formatBytes (n : Z) : res string :=
  if n <? 1024 then Ok (dec n +:+ " B")%string else
  let '(div, exp) := bytes_loop 7 (n / 1024) 1024 0 in
  match formatBytes_units !! Z.to_nat exp with
  | Some u => Ok (fixed 1 (fdiv (of_int n) (of_int div)) +:+ " " +:+ u +:+ "iB")%string
  | None => Panic
  end.

Definition metrics_line (resp : CheckResponse) : res string :=
  match formatBytes (cr_DbBytesTotal resp) with
  | Ok size =>
      Ok ("[metrics " +:+ format_time (cr_UpdatedAt resp) +:+ "] tree=" +:+ dec (cr_TreeSize resp) +:+
          " processed=" +:+ dec (cr_TotalProcessed resp) +:+ " coverage=" +:+ fixed 6 (cr_CoveragePct resp) +:+
          "% db_total=" +:+ size)%string
  | Err e => Err e
  | Panic => Panic
  end.

(** [metricsLoop]: a snapshot at the start and at every tick; what is appended to
    ingestion.log, when it is open. *)
Fixpoint metricsLoop (ticks : list Z) (activeDir archiveDir root : string) (s : MetricsState) : M (MetricsState * list string) :=
  match ticks with
  | [] => ret (s, [])
  | now :: ticks =>
      let@ resp := computeMetrics now activeDir archiveDir root in
      match metrics_line resp with
      | Ok line =>
          let@ (s, lines) := metricsLoop ticks activeDir archiveDir root (setMetrics (Some resp) activeDir archiveDir root s) in
          ret (s, line :: lines)
      | _ => fun s fl => (Panic, s, fl)
      end
  end.

End Reporting.

(** ** Lemmas *)

(** *** Sizes *)

Lemma bytes_loop_spec fuel n e :
  0 <= e -> e + Z.of_nat fuel <= 7 -> 1024 ^ (e + 1) <= n < 1024 ^ (e + 1 + Z.of_nat fuel) -> n < 2 ^ 63 ->
  exists k, bytes_loop fuel (n / 1024 ^ (e + 1)) (1024 ^ (e + 1)) e = (1024 ^ (k + 1), k) /\ e <= k /\
    1024 ^ (k + 1) <= n < 1024 ^ (k + 2).
Proof.
  revert e. induction fuel as [|fuel IH]; intros e He Hf Hn H63; [rewrite Z.add_0_r in Hn; lia|].
  assert (Hp : 0 < 1024 ^ (e + 1)) by (apply Z.pow_pos_nonneg; lia).
  assert (Hs : 1024 ^ (e + 2) = 1024 ^ (e + 1) * 1024) by (replace (e + 2) with (Z.succ (e + 1)) by lia; rewrite Z.pow_succ_r by lia; lia).
  cbn [bytes_loop]. destruct (Z.leb_spec 1024 (n / 1024 ^ (e + 1))) as [H|H].
  - assert (Hle : 1024 ^ (e + 2) <= n) by (rewrite Hs; pose proof (Z.mul_div_le n (1024 ^ (e + 1)) Hp); nia).
    rewrite Z.div_div, <- Hs by lia. replace (e + 2) with (e + 1 + 1) in * by lia.
    assert (Hw : wrap64 (1024 ^ (e + 1 + 1)) = 1024 ^ (e + 1 + 1)).
    { apply wrap64_id. unfold int64_range, min_int64, max_int64. change (2 ^ 63) with 9223372036854775808 in H63. lia. }
    rewrite Hw. destruct (IH (e + 1)) as (k & E & Hk & Hr); [lia..| |done|].
    { replace (e + 1 + 1 + Z.of_nat fuel) with (e + 1 + Z.of_nat (S fuel)) by lia. lia. }
    exists k. split; [done|]. split; [lia|done].
  - exists e. split; [done|]. split; [lia|]. split; [lia|]. rewrite Hs.
    assert (Hlt : n / 1024 ^ (e + 1) < 1024) by lia.
    pose proof (Z.mod_pos_bound n (1024 ^ (e + 1)) Hp). pose proof (Z_div_mod_eq_full n (1024 ^ (e + 1))). nia.
Qed.

(** formatBytes picks the unit of the size and never indexes out of the units,
    for every 64-bit size. *)
Theorem formatBytes_unit (n : Z) (Hn : int64_range n) :
  (n < 1024 /\ formatBytes n = Ok (dec n +:+ " B")%string) \/
  (exists k u, 1024 ^ (k + 1) <= n < 1024 ^ (k + 2) /\ formatBytes_units !! Z.to_nat k = Some u /\ 0 <= k <= 5 /\
     formatBytes n = Ok (fixed 1 (fdiv (of_int n) (of_int (1024 ^ (k + 1)))) +:+ " " +:+ u +:+ "iB")%string).
Proof.
  unfold formatBytes. destruct (Z.ltb_spec n 1024) as [H|H]; [by left|right].
  unfold int64_range, min_int64, max_int64 in Hn.
  destruct (bytes_loop_spec 7 n 0) as (k & E & Hk & Hr); [lia|lia|split; [exact H|]; change (1024 ^ (0 + 1 + Z.of_nat 7)) with 1208925819614629174706176; lia| |].
  { change (2 ^ 63) with 9223372036854775808. lia. }
  change (1024 ^ (0 + 1)) with 1024 in E. rewrite E.
  assert (k <= 5).
  { apply Z.lt_succ_r, Z.nle_gt. intros Hk6. pose proof (Z.pow_le_mono_r 1024 (6 + 1) (k + 1) ltac:(lia) ltac:(lia)) as H7.
    change (1024 ^ (6 + 1)) with 1180591620717411303424 in H7. lia. }
  assert (exists u, formatBytes_units !! Z.to_nat k = Some u) as (u & Hu) by (apply lookup_lt_is_Some_2; cbn; lia).
  exists k, u. split_and!; try done; try lia. by rewrite Hu.
Qed.

(** *** The snapshot *)

(** What progress.db says about a log. *)
Definition recorded (s : store) (path root : string) : Z :=
  match progs s !! path with
  | Some d => match select_run root d with Some r => rr_total_processed r | None => 0 end
  | None => 0
  end.

(** A new progress.db is the only change. *)
Definition opened_progress (path : string) (s s' : store) : Prop :=
  s' = s \/ (progs s !! path = None /\ s' = set_prog path (mkProgress [] 0 [] 0) s).

Lemma get_total_wp path root s :
  wp (GetTotalProcessed path root) (fun r s' => s' = s /\ forall n, r = Ok n -> n = recorded s path root) s.
Proof.
  unfold GetTotalProcessed. apply wp_bind, wp_attempt. unfold prog_stmt. apply wp_step; [by apply wp_fail|done|].
  unfold recorded. destruct (progs s !! path) as [d|] eqn:E; cbn [fst snd]; [rewrite (set_prog_id _ _ _ E)|].
  - destruct (select_run root d) as [r|] eqn:Er; cbn [fst snd]; apply wp_ret; (split; [reflexivity|]); by intros ? [= <-].
  - by apply wp_fail.
Qed.

Lemma processed_wp path root s :
  wp (processed path root) (fun r s' => opened_progress path s s' /\ (forall n, r = Ok n -> n = 0 \/ n = recorded s path root)) s.
Proof.
  assert (Hs : opened_progress path s s) by by left.
  assert (Ho : wp (OpenProgressDB path) (fun r s' => opened_progress path s s' /\ recorded s' path root = recorded s path root) s).
  { unfold OpenProgressDB. repeat first [apply wp_bind|apply wp_wrap|apply wp_nop; [done|done|]]. apply wp_step; [done|done|]. cbn [fst snd].
    destruct (progs s !! path) eqn:E; [done|]. split; [by right|]. unfold recorded. cbn [set_prog progs]. by rewrite lookup_insert_eq, E. }
  unfold processed. apply wp_bind, wp_attempt. eapply wp_mono; [apply Ho|]. intros [[]|e|] s1 [H1 H2]; cbn.
  - apply wp_bind, wp_attempt. eapply wp_mono; [apply get_total_wp|]. intros [n|e|] s2 [-> Hn]; cbn.
    + apply wp_ret. split; [done|]. intros ? [= <-]. right. rewrite <- H2. by apply Hn.
    + apply wp_ret. split; [done|]. intros ? [= <-]. by left.
    + done.
  - apply wp_ret. split; [done|]. intros ? [= <-]. by left.
  - done.
Qed.

(** The directories and the log that a request is about. *)
Definition asked (req : CheckRequest) (st : MetricsState) : string * string * string :=
  (or_empty (cq_OutputDir req) (lastActiveDir st), or_empty (cq_ArchiveDir req) (lastArchiveDir st),
   or_empty (cq_MonitoringApiRoot req) (lastRoot st)).

(** Check answers with the snapshot of the last ten seconds, when the request
    names neither an output directory nor a log, or with a new one, which becomes
    the cached one: of all databases under the two directories, of the count in
    progress.db (zero when it cannot be read) and of the log's tree size. The
    only thing it changes on disk is that a missing progress.db is created. *)
Theorem check_report (walk : string -> list visit) (getf : string -> res bytes) (now : Z) (req : CheckRequest) (st st' : MetricsState)
  (s s' : store) (fl fl' : list outcome) (resp : CheckResponse)
  (Hrun : Check walk getf now req st s fl = (Ok (st', Ok resp), s', fl')) :
  let '(activeDir, archiveDir, root) := asked req st in
  let progressPath := join_dir archiveDir "progress.db" in
  (lastMetrics st = Some resp /\ cq_OutputDir req = "" /\ cq_MonitoringApiRoot req = "" /\
     now < (cr_UpdatedAt resp + 10) * 1000000000 /\ st' = st /\ s' = s) \/
  (archiveDir <> "" /\ st' = setMetrics (Some resp) activeDir archiveDir root st /\ cr_UpdatedAt resp = now / 1000000000 /\
     cr_DbFiles resp = walkDir walk activeDir ++ walkDir walk archiveDir /\ cr_DbBytesTotal resp = total_bytes (cr_DbFiles resp) /\ cr_TreeSize resp = live_size getf root /\
     (cr_TotalProcessed resp = 0 \/ cr_TotalProcessed resp = recorded s progressPath root) /\ opened_progress progressPath s s').
Proof.
  unfold asked. cbv zeta. set (a := or_empty (cq_OutputDir req) _) in *. set (b := or_empty (cq_ArchiveDir req) _) in *.
  set (c := or_empty (cq_MonitoringApiRoot req) _) in *.
  set (Q := fun (r : res (MetricsState * res CheckResponse)) (s' : store) => forall st' resp, r = Ok (st', Ok resp) ->
    (lastMetrics st = Some resp /\ cq_OutputDir req = "" /\ cq_MonitoringApiRoot req = "" /\
       now < (cr_UpdatedAt resp + 10) * 1000000000 /\ st' = st /\ s' = s) \/
    (b <> "" /\ st' = setMetrics (Some resp) a b c st /\ cr_UpdatedAt resp = now / 1000000000 /\
       cr_DbFiles resp = walkDir walk a ++ walkDir walk b /\ cr_DbBytesTotal resp = total_bytes (cr_DbFiles resp) /\ cr_TreeSize resp = live_size getf c /\
       (cr_TotalProcessed resp = 0 \/ cr_TotalProcessed resp = recorded s (join_dir b "progress.db") c) /\
       opened_progress (join_dir b "progress.db") s s')).
  assert (Hw : wp (Check walk getf now req st) Q s).
  { unfold Check. fold a b c.
    assert (Hc : wp (if String.eqb b "" then
        ret (st, Err (Wrap "InvalidArgument" (Errorf "archive_dir required (no prior IngestLog call on this server)")))
      else let@ resp := computeMetrics walk getf now a b c in ret (setMetrics (Some resp) a b c st, Ok resp)) Q s).
    { destruct (String.eqb_spec b "") as [|Hb]; [by apply wp_ret|]. apply wp_bind. unfold computeMetrics. apply wp_bind.
      eapply wp_mono; [apply processed_wp|]. intros [n|e|] s1 [H1 H2]; [|done..]. apply wp_ret, wp_ret.
      intros st1 r1 [= <- <-]. right. split_and!; try done. by apply H2. }
    destruct (lastMetrics st) as [m|] eqn:Em; [|done].
    destruct (String.eqb_spec (cq_OutputDir req) "") as [E1|]; [|done]. destruct (String.eqb_spec (cq_MonitoringApiRoot req) "") as [E2|]; [|done].
    cbn [andb]. destruct (fresh now m) eqn:Ef; [|done]. apply wp_ret. intros st1 r1 [= <- <-]. left.
    unfold fresh in Ef. apply Z.ltb_lt in Ef. split_and!; try done. lia. }
  exact (wp_run _ _ _ _ _ _ _ Hw Hrun st' resp eq_refl).
Qed.

(** ** Findings *)

(** The cached snapshot also answers a request that names another archive. *)
Lemma cached_for_other_archive walk getf s fl :
  let m := mkCheckResponse 100 [mkDbInfo "a/x.db" 5] 5 7 9 (S754_zero false) in
  Check walk getf (101 * 1000000000) (mkCheckRequest "" "b/" "") (mkMetrics "active/" "a/" "https://log/" (Some m)) s fl =
    (Ok (mkMetrics "active/" "a/" "https://log/" (Some m), Ok m), s, fl).
Proof. reflexivity. Qed.

(** A report about an archive without a progress.db makes one. *)
Lemma report_creates_progress walk getf :
  let s := mkStore ∅ ∅ ∅ ∅ [] in
  exists d, progs (Check walk getf 0 (mkCheckRequest "" "typo/" "") (mkMetrics "" "" "" None) s []).1.2 !! "typo/progress.db" = Some d.
Proof. eexists. reflexivity. Qed.
