(* ===== verification/Monitor.v ===== *)
(** cmd/monitor and internal/dashboard: the panels that follow a DNS fetch and an
    ingestion by their logs. The logs are what cmd/dnsfetch's main, the runner
    script and metricsLoop print. *)

From S2P Require Import Prelude GoStd Regexp Float FileSys Partition CtlogClient Sql Progress LogClient Leaf Dnsfetch Metrics.

(** ** Definitions *)

(** *** Reading a log *)

Definition max_line : Z := 65536.

(** The lines of a file for a [bufio.Scanner] with its default buffer: a line
    that does not fit ends the scan. [cur] is the line so far, reversed. *)
Definition drop_last_cr (cur : list ascii) : list ascii := match cur with "013"%char :: l => l | l => l end.

Definition token (cur : list ascii) : string := String.string_of_list_ascii (rev (drop_last_cr cur)).

Fixpoint scan_lines (text : string) (cur : list ascii) : list string :=
  match text with
  | "" => if (0 <? Z.of_nat (length cur)) && (Z.of_nat (length cur) <? max_line) then [token cur] else []
  | String c text =>
      if Ascii.eqb c "010" then
        if max_line <? Z.of_nat (length cur) + 1 then [] else token cur :: scan_lines text []
      else scan_lines text (c :: cur)
  end.

Definition file_lines (f : option string) : list string := match f with Some text => scan_lines text [] | None => [] end.

(** [strconv.ParseInt(s, 10, 64)] on digits, with its error ignored. *)
Definition parse_int (s : string) : Z := if String.eqb s "" then 0 else Z.min (dec_val 0 s) max_int64.

(** *** Times *)

(** The wall clock of a log line's "2006/01/02 15:04:05". *)
Record wall := mkWall { w_year : Z; w_month : Z; w_day : Z; w_hour : Z; w_minute : Z; w_second : Z }.

Definition leap (y : Z) : bool := (y mod 4 =? 0) && (negb (y mod 100 =? 0) || (y mod 400 =? 0)).

Definition month_days (y m : Z) : Z :=
  if m =? 2 then (if leap y then 29 else 28)
  else if (m =? 4) || (m =? 6) || (m =? 9) || (m =? 11) then 30 else 31.

Definition wall_ok (w : wall) : bool :=
  (0 <=? w_year w) && (w_year w <=? 9999) && (1 <=? w_month w) && (w_month w <=? 12) &&
  (1 <=? w_day w) && (w_day w <=? month_days (w_year w) (w_month w)) &&
  (0 <=? w_hour w) && (w_hour w <? 24) && (0 <=? w_minute w) && (w_minute w <? 60) && (0 <=? w_second w) && (w_second w <? 60).

Definition stamp (w : wall) : string :=
  pad_int 4 (w_year w) +:+ "/" +:+ pad_int 2 (w_month w) +:+ "/" +:+ pad_int 2 (w_day w) +:+ " " +:+
  pad_int 2 (w_hour w) +:+ ":" +:+ pad_int 2 (w_minute w) +:+ ":" +:+ pad_int 2 (w_second w).

Definition field (off len : nat) (s : string) : Z := dec_val 0 (substring off len s).

(** [time.ParseInLocation] with that layout, of 19 bytes. *)
Definition re_stamp : list item :=
  let d2 := [One is_digit; One is_digit] in
  d2 ++ d2 ++ [Lit "/"] ++ d2 ++ [Lit "/"] ++ d2 ++ [Lit " "] ++ d2 ++ [Lit ":"] ++ d2 ++ [Lit ":"] ++ d2.

Definition parse_stamp (s : string) : option wall :=
  match match_here re_stamp s with
  | None => None
  | Some _ =>
      let w := mkWall (field 0 4 s) (field 5 2 s) (field 8 2 s) (field 11 2 s) (field 14 2 s) (field 17 2 s) in
      if wall_ok w then Some w else None
  end.

(** The zero [time.Time], in Unix seconds. *)
Definition zero_time : Z := -62135596800.

(** *** dnsfetch.go: the patterns *)

Definition digits1 : item := Many true true 1 is_digit.

Definition reRunnerStart : list item :=
  re_clock ++ [Lit "=== "; Many true false 1 any; Lit " ("; Many false true 0 re_space; Many true true 1 (digit_or " ");
               Many false true 0 re_space; Lit "domains) ==="].

Definition reRunnerDone : list item := re_clock ++ [Lit "=== done "; Many true true 1 not_space].

Definition reMetrics : list item :=
  [Lit "metrics: done="; digits1; Lit " rate="; Many true true 1 (digit_or "."); Lit "/s ok="; digits1; Lit " nxd="; digits1;
   Lit " timeout="; digits1; Lit " err="; digits1; Lit "("; Many false true 1 (no_char ")"); Lit ") cb="; Many true true 1 not_space].

Definition reFeed : list item := [Lit "feed: "; Many false true 1 not_space; Lit " → "; digits1; Lit " domains queued"].

Definition reComplete : list item := [Lit "complete: total="; digits1].

(** *** dnsfetch.go: the log parsers *)

Record shardState := mkShard {
  sh_key : string; sh_total : Z; sh_done : Z; sh_rate : float64; sh_ok : Z; sh_nxd : Z; sh_timeout : Z; sh_errs : Z;
  sh_cbState : string; sh_status : string; sh_lastMetricAt : Z }.

Definition new_shard : shardState := mkShard "" 0 0 (S754_zero false) 0 0 0 0 "" "running" zero_time.

Definition set_status (st : string) (sh : shardState) : shardState :=
  mkShard (sh_key sh) (sh_total sh) (sh_done sh) (sh_rate sh) (sh_ok sh) (sh_nxd sh) (sh_timeout sh) (sh_errs sh) (sh_cbState sh) st (sh_lastMetricAt sh).
Definition set_done (n : Z) (sh : shardState) : shardState :=
  mkShard (sh_key sh) (sh_total sh) n (sh_rate sh) (sh_ok sh) (sh_nxd sh) (sh_timeout sh) (sh_errs sh) (sh_cbState sh) (sh_status sh) (sh_lastMetricAt sh).
Definition set_total (n : Z) (sh : shardState) : shardState :=
  mkShard (sh_key sh) n (sh_done sh) (sh_rate sh) (sh_ok sh) (sh_nxd sh) (sh_timeout sh) (sh_errs sh) (sh_cbState sh) (sh_status sh) (sh_lastMetricAt sh).
Definition set_key (k : string) (sh : shardState) : shardState :=
  mkShard k (sh_total sh) (sh_done sh) (sh_rate sh) (sh_ok sh) (sh_nxd sh) (sh_timeout sh) (sh_errs sh) (sh_cbState sh) (sh_status sh) (sh_lastMetricAt sh).
Definition set_at (t : Z) (sh : shardState) : shardState :=
  mkShard (sh_key sh) (sh_total sh) (sh_done sh) (sh_rate sh) (sh_ok sh) (sh_nxd sh) (sh_timeout sh) (sh_errs sh) (sh_cbState sh) (sh_status sh) t.

Section Parsers.

(** The instant of a wall clock in time.Local. *)
Variable zone : wall -> Z.

Definition metrics_fields (line : string) (sh : shardState) : shardState :=
  match find reMetrics line with
  | Some [done; rate; ok; nxd; timeout; errs; cb] =>
      mkShard (sh_key sh) (sh_total sh) (parse_int done) (parse_float rate) (parse_int ok) (parse_int nxd) (parse_int timeout)
        (parse_int errs) cb (sh_status sh) (sh_lastMetricAt sh)
  | _ => sh
  end.

Definition metrics_time (line : string) (sh : shardState) : shardState :=
  if (19 <=? String.length line)%nat then
    match parse_stamp (substring 0 19 line) with Some w => set_at (zone w) sh | None => sh end
  else sh.

Definition parse_line (sh : shardState) (line : string) : shardState :=
  if contains line "metrics:" then metrics_time line (metrics_fields line sh)
  else if contains line "feed:" then
    if sh_total sh =? 0 then match find reFeed line with Some [n] => set_total (parse_int n) sh | _ => sh end else sh
  else if contains line "complete: total=" then
    let sh := set_status "complete" sh in
    match find reComplete line with Some [n] => set_done (parse_int n) sh | _ => sh end
  else if contains line "finalized:" then set_status "finalized" sh
  else if contains line "shutting down" then set_status "interrupted" sh
  else sh.

Definition parseShardLogFile (f : option string) : shardState := foldl parse_line new_shard (file_lines f).

Record runnerEntry := mkRunner { re_key : string; re_total : Z; re_status : string }.

(** The map [byKey], in the order of [order]. *)
Fixpoint set_entry (key : string) (upd : option runnerEntry -> runnerEntry) (l : list runnerEntry) : list runnerEntry :=
  match l with
  | [] => [upd None]
  | e :: l => if String.eqb (re_key e) key then upd (Some e) :: l else e :: set_entry key upd l
  end.

Definition no_spaces (s : string) : string :=
  String.string_of_list_ascii (List.filter (no_char " ") (String.list_ascii_of_string s)).

Definition runner_line (l : list runnerEntry) (line : string) : list runnerEntry :=
  match find reRunnerStart line with
  | Some [name; count] =>
      let key := trim_space name in
      set_entry key (fun _ => mkRunner key (parse_int (no_spaces count)) "running") l
  | _ =>
      match find reRunnerDone line with
      | Some [key] =>
          set_entry key (fun e => mkRunner key (match e with Some e => re_total e | None => 0 end) "complete") l
      | _ => l
      end
  end.

Definition parseRunnerLog (f : option string) : list runnerEntry := foldl runner_line [] (file_lines f).

(** The log of a shard and its modification time, [zero_time] without one. *)
Definition dashes (key : string) : string :=
  String.string_of_list_ascii (map (fun c => if Ascii.eqb c "/" then "-"%char else c) (String.list_ascii_of_string key)).

Variable read_log : string -> option string.
Variable mtime : string -> Z.

Definition log_name (key : string) : string := dashes key +:+ ".log".

Definition shard_of (e : runnerEntry) : shardState :=
  let sh := set_key (re_key e) (parseShardLogFile (read_log (log_name (re_key e)))) in
  let sh := if (0 <? re_total e) && (sh_total sh =? 0) then set_total (re_total e) sh else sh in
  if String.eqb (re_status e) "complete" && String.eqb (sh_status sh) "running" then set_status "complete" sh else sh.

Definition running (sh : shardState) : bool := String.eqb (sh_status sh) "running".

(** The first index with the latest of the times that count, after [best]. *)
Fixpoint latest (counts : shardState -> bool) (at_ : shardState -> Z) (i : nat) (l : list shardState) (best : option nat) (bestTime : Z)
  : option nat :=
  match l with
  | [] => best
  | sh :: l =>
      if counts sh && (bestTime <? at_ sh) then latest counts at_ (S i) l (Some i) (at_ sh)
      else latest counts at_ (S i) l best bestTime
  end.

Definition pick (parsed : list shardState) : option nat :=
  match latest (fun sh => running sh && negb (sh_lastMetricAt sh =? zero_time)) sh_lastMetricAt 0 parsed None zero_time with
  | Some i => Some i
  | None => latest running (fun sh => mtime (log_name (sh_key sh))) 0 parsed None zero_time
  end.

Definition stopped (sh : shardState) : shardState := if running sh then set_status "interrupted" sh else sh.

(** The history has the last entry first. *)
Fixpoint split_current (i : nat) (best : option nat) (l : list shardState) (history : list shardState) : option shardState * list shardState :=
  match l with
  | [] => (None, history)
  | sh :: l =>
      if bool_decide (best = Some i)
      then let '(_, h) := split_current (S i) best l history in (Some sh, h)
      else split_current (S i) best l (stopped sh :: history)
  end.

Definition parseShardLogs (runner : option string) : option shardState * list shardState :=
  let parsed := map shard_of (parseRunnerLog runner) in
  split_current 0 (pick parsed) parsed [].

End Parsers.

(** *** ingestion.go *)

Definition reIngestionLine : list item :=
  [Lit "[metrics "; Many true true 1 (no_char "]"); Lit "] tree="; digits1; Lit " processed="; digits1; Lit " coverage=";
   Many true true 1 (digit_or "."); Lit "% db_total="; Many true true 1 any].

Record ingestionState := mkIngState { is_tree : Z; is_processed : Z; is_coverage : float64; is_dbTotal : string; is_updatedAt : string }.

Definition last_metrics (lines : list string) : string :=
  foldl (fun last l => if has_prefix l "[metrics " then l else last) "" lines.

(** [ingestionPanel.Update]: the state stays when the log cannot be opened or its
    last metrics line does not match. *)
Definition ingestionPanel_Update (log : option string) (st : option ingestionState) : option ingestionState :=
  match log with
  | None => st
  | Some _ =>
      match find reIngestionLine (last_metrics (file_lines log)) with
      | Some [at_; tree; n; coverage; total] =>
          Some (mkIngState (parse_int tree) (parse_int n) (parse_float coverage) (trim_space total) at_)
      | _ => st
      end
  end.

(** *** multilog.go *)

(** The logs that are still running first, then by operator and description. *)
Definition run_less (a b : LogRun) : bool :=
  let ai := NextEntryIdx a <? TreeSizeAtStart a in
  let bi := NextEntryIdx b <? TreeSizeAtStart b in
  if Bool.eqb ai bi then
    if String.eqb (LR_Operator a) (LR_Operator b) then String.ltb (LR_Description a) (LR_Description b)
    else String.ltb (LR_Operator a) (LR_Operator b)
  else ai.

(** [sort.SliceStable], by insertion. *)
Fixpoint insert_stable (r : LogRun) (l : list LogRun) : list LogRun :=
  match l with
  | [] => [r]
  | x :: l' => if run_less x r then x :: insert_stable r l' else r :: l
  end.

Definition sort_runs (l : list LogRun) : list LogRun := foldr insert_stable [] l.

Record multilogPanel := mkMultilog { mp_runs : list LogRun; mp_err : string }.

Definition multilogPanel_Update (path : string) (exists_ : bool) (p : multilogPanel) : M multilogPanel :=
  if negb exists_ then ret (mkMultilog [] ("progress.db not found at " +:+ path)) else
  bindM (attempt (OpenProgressDB path)) (fun r =>
  match r with
  | inr e => ret (mkMultilog (mp_runs p) ("open: " +:+ error_text e))
  | inl _ =>
      bindM (attempt (ListLogRuns path)) (fun r =>
      match r with
      | inr e => ret (mkMultilog (mp_runs p) ("query: " +:+ error_text e))
      | inl runs => ret (mkMultilog (sort_runs runs) "")
      end)
  end).

Definition truncate (s : string) (n : Z) : string :=
  if Z.of_nat (String.length s) <=? n then s
  else if n <? 3 then str_take n s
  else str_take (n - 1) s +:+ "…".

(** *** internal/dashboard *)

Fixpoint comma_groups (s : string) (left_ : nat) : string :=
  match s with
  | "" => ""
  | String c s' =>
      match left_ with
      | O => String "," (String c (comma_groups s' 2))
      | S k => String c (comma_groups s' k)
      end
  end.

(** A comma before every third digit from the end, except at the start; [s[:pre]]
    is written first when it is not empty. *)
Definition CommaSep (n : Z) : string :=
  let s := dec n in
  if (String.length s <=? 3)%nat then s
  else comma_groups s (match (String.length s mod 3)%nat with O => 3 | pre => pre end).

Definition FormatETA (sec : float64) : string :=
  if SFltb sec (of_int 90) then "~" +:+ fixed 0 sec +:+ "s"
  else if SFltb sec (of_int 5400) then "~" +:+ fixed 0 (fdiv sec (of_int 60)) +:+ "m"
  else "~" +:+ fixed 1 (fdiv sec (of_int 3600)) +:+ "h".

Definition Reset : string := String "027" "[0m".
Definition Bold : string := String "027" "[1m".
Definition Cyan : string := String "027" "[36m".

Fixpoint repeat_string (s : string) (n : nat) : string := match n with O => "" | S n => s +:+ repeat_string s n end.

(** The width counts bytes. *)
Definition Header (title : string) (w : Z) : string :=
  let line := "── " +:+ title +:+ " " in
  let rem := w - Z.of_nat (String.length line) - 1 in
  Bold +:+ Cyan +:+ (if 0 <? rem then line +:+ repeat_string "─" (Z.to_nat rem) else line) +:+ Reset.

Definition Green : string := String "027" "[32m".
Definition Yellow : string := String "027" "[33m".
Definition Gray : string := String "027" "[90m".
Definition Red : string := String "027" "[31m".

(** [math.Round] of a number that is finite, as an integer: ties away from zero. *)
Definition round_away (x : float64) : Z :=
  match x with
  | S754_finite s m e =>
      let r := if 0 <=? e then Zpos m * 2 ^ e else (2 * Zpos m + 2 ^ (- e)) / (2 * 2 ^ (- e)) in
      if s then - r else r
  | _ => 0
  end.

Section Bars.

(** What [int] makes of a number outside int64, NaN and the infinities included. *)
Variable int_overflow : float64 -> Z.

Definition to_int (x : float64) : Z :=
  match x with
  | S754_nan | S754_infinity _ => int_overflow x
  | _ => if (min_int64 <=? round_away x) && (round_away x <=? max_int64) then round_away x else int_overflow x
  end.

(** strings.Repeat panics on a negative count. *)
Definition ProgressBar (pct : float64) (w : Z) : res string :=
  let n := Z.min (to_int (fdiv (fmul (of_int w) pct) (of_int 100))) w in
  if (n <? 0) || (w - n <? 0) then Panic
  else Ok (Green +:+ repeat_string "█" (Z.to_nat n) +:+ Gray +:+ repeat_string "░" (Z.to_nat (w - n)) +:+ Reset).

Definition renderShard (sh : shardState) (w : Z) (active : bool) : res string :=
  let title := if negb active || negb (String.eqb (sh_status sh) "running") then "✓ DNS Fetch: " +:+ sh_key sh else "◉ DNS Fetch: " +:+ sh_key sh in
  let title := if String.eqb (sh_status sh) "interrupted" then "✕ DNS Fetch: " +:+ sh_key sh else title in
  let pos := SFltb (S754_zero false) (sh_rate sh) in
  let? progress :=
    if 0 <? sh_total sh then
      let pct := fdiv (fmul (of_int 100) (of_int (sh_done sh))) (of_int (sh_total sh)) in
      let eta := if pos && (sh_done sh <? sh_total sh)
                 then "  ETA " +:+ Yellow +:+ FormatETA (fdiv (of_int (sh_total sh - sh_done sh)) (sh_rate sh)) +:+ Reset else "" in
      let? bar := if 0 <? w - 4 then
                    match ProgressBar pct (w - 4) with Ok bar => Ok ("  " +:+ bar +:+ String "010" "") | r => r end
                  else Ok "" in
      Ok ("  Done: " +:+ Bold +:+ CommaSep (sh_done sh) +:+ Reset +:+ " / " +:+ CommaSep (sh_total sh) +:+ "  (" +:+ Yellow +:+
          fixed 1 pct +:+ "%" +:+ Reset +:+ ")  Rate: " +:+ Cyan +:+ fixed 1 (sh_rate sh) +:+ "/s" +:+ Reset +:+ eta +:+ String "010" bar)
    else if 0 <? sh_done sh then
      Ok ("  Done: " +:+ Bold +:+ CommaSep (sh_done sh) +:+ Reset +:+ "  Rate: " +:+ Cyan +:+ fixed 1 (sh_rate sh) +:+ "/s" +:+ Reset +:+ String "010" "")
    else Ok "" in
  Ok (Header title w +:+ String "010" progress +:+
      "  OK: " +:+ Green +:+ CommaSep (sh_ok sh) +:+ Reset +:+ "  NXDOM: " +:+ CommaSep (sh_nxd sh) +:+ "  Timeout: " +:+ CommaSep (sh_timeout sh) +:+
      "  Err: " +:+ (if 0 <? sh_errs sh then Red else Green) +:+ CommaSep (sh_errs sh) +:+ Reset +:+ "  CB: " +:+ sh_cbState sh +:+
      String "010" (String "010" "")).

End Bars.

Definition ingestionPanel_Render (st : option ingestionState) (w : Z) : string :=
  match st with
  | None => ""
  | Some s =>
      Header "CT Ingestion" w +:+ String "010" ("  Tree: " +:+ Bold +:+ CommaSep (is_tree s) +:+ Reset +:+ "  Processed: " +:+ Bold +:+
      CommaSep (is_processed s) +:+ Reset +:+ "  Coverage: " +:+ Yellow +:+ fixed 2 (is_coverage s) +:+ "%" +:+ Reset +:+ "  DB: " +:+ is_dbTotal s +:+
      String "010" ("  Updated: " +:+ is_updatedAt s +:+ String "010" (String "010" "")))
  end.

(** main.go: the first of the known places that exists, when no path is given. *)
Definition probe (exists_ : string -> bool) (path : string) (candidates : list string) : string :=
  if negb (String.eqb path "") then path else default "" (List.find exists_ candidates).

Definition resolveProgressDB (exists_ : string -> bool) (path : string) : string :=
  probe exists_ path ["data/active/progress.db"; "/Volumes/wd_office_2/datasets/CT/progress.db"; "/tmp/ct-data/progress.db"; "data/progress.db"].

Definition resolveIngestionLog (exists_ : string -> bool) (path : string) : string :=
  probe exists_ path ["/Volumes/wd_office_2/datasets/CT/ingestion.log"; "/tmp/ct-data/ingestion.log"].

Definition stateColorFor (state : string) (pct : float64) : string :=
  if String.eqb state "readonly" || String.eqb state "retired" then Gray
  else if SFleb (fdiv (of_int 995) (of_int 10)) pct then Green else Cyan.

(** *** What the logs say: the lines of cmd/dnsfetch *)

(** A line of the log package with its default flags. *)
Definition log_line (w : wall) (text : string) : string := stamp w +:+ " " +:+ text.

Definition metrics_text (st : runStats) (elapsed : float64) (cb : string) : string :=
  "metrics: done=" +:+ dec (st_done st) +:+ " rate=" +:+ fixed 1 (fdiv (of_int (st_done st)) elapsed) +:+ "/s ok=" +:+ dec (st_ok st) +:+
  " nxd=" +:+ dec (st_nxd st) +:+ " timeout=" +:+ dec (st_timeouts st) +:+ " err=" +:+ dec (st_errs st) +:+ "(" +:+
  fixed 1 (fdiv (fmul (of_int 100) (of_int (st_errs st))) (of_int (Z.max (st_done st) 1))) +:+ "%) cb=" +:+ cb.

(** [cb.state()]; [resume] is the rest of the pause in seconds, printed as a
    Duration of less than a minute. *)
Definition cb_state (now : Z) (cb : circuitBreaker) : string :=
  if cb_tripped cb then "TRIPPED(resume in " +:+ dec (cb_tripUntil cb - now) +:+ "s)"
  else "ok(" +:+ fixed 1 (fdiv (fmul (of_int 100) (of_int (cb_errCount cb))) (of_int (Z.of_nat (length (cb_ring cb))))) +:+ "%err)".

Definition feed_text (k : shard) (fed skip : Z) : string :=
  "feed: " +:+ shard_string k +:+ " → " +:+ dec fed +:+ " domains queued (skip=" +:+ dec skip +:+ ")".

Definition complete_text (st : runStats) : string :=
  "complete: total=" +:+ dec (st_done st) +:+ " ok=" +:+ dec (st_ok st) +:+ " nxdomain=" +:+ dec (st_nxd st) +:+
  " timeout=" +:+ dec (st_timeouts st) +:+ " error=" +:+ dec (st_errs st).

(** What happens in a run, as far as its log tells: a metrics tick, a shard that
    was fed, the signal, and any other line. *)
Inductive note :=
| Tick (st : runStats) (elapsed : float64) (cb : string)
| Fed (k : shard) (fed skip : Z)
| Signal
| Other (text : string).

Definition note_text (n : note) : string :=
  match n with
  | Tick st elapsed cb => metrics_text st elapsed cb
  | Fed k fed skip => feed_text k fed skip
  | Signal => "shutting down…"
  | Other text => text
  end.

(** How main ends: the staged databases are moved, or that failed, or the run was
    interrupted (its last line, "interrupted: …", has no time stamp). *)
Inductive ending := Moved (out : string) | NotMoved (err : string) | Interrupted (staging : string).

Definition ending_text (e : ending) : string :=
  match e with
  | Moved out => "finalized: staged DBs moved to " +:+ out
  | NotMoved err => "finalize: " +:+ err
  | Interrupted staging => "interrupted: staged DBs left in " +:+ staging +:+ " for resume"
  end.

Definition ending_line (last : wall) (e : ending) : string :=
  match e with Interrupted _ => ending_text e | _ => log_line last (ending_text e) end.

(** What is logged between "complete: …" and the end: finalizeAll's lines per
    database (moved, or a step of the move failed), and whatever the ticker and the
    signal handler, which are still running, write in between. *)
Inductive final_line :=
| DBMoved (src dst : string)
| FlushFailed (k : shard) (err : string)
| MkdirFailed (dst err : string)
| CopyFailed (k : shard) (err : string)
| Meanwhile (n : note).

Definition final_text (f : final_line) : string :=
  match f with
  | DBMoved src dst => "finalized: " +:+ src +:+ " → " +:+ dst
  | FlushFailed k err => "finalize flush " +:+ shard_string k +:+ ": " +:+ err
  | MkdirFailed dst err => "finalize mkdir " +:+ dst +:+ ": " +:+ err
  | CopyFailed k err => "finalize copy " +:+ shard_string k +:+ ": " +:+ err
  | Meanwhile n => note_text n
  end.

(** finalizeAll's firstErr, and how main ends with it. *)
Fixpoint final_err (fs : list final_line) : option string :=
  match fs with
  | [] => None
  | (FlushFailed _ err | MkdirFailed _ err | CopyFailed _ err) :: _ => Some err
  | _ :: fs => final_err fs
  end.

Definition final_ending (out : string) (fs : list final_line) : ending :=
  match final_err fs with Some err => NotMoved err | None => Moved out end.

(** The whole log of a run: its notes, the totals, and either the moves and what
    they came to, or, after an interruption, the note about the staging directory. *)
Inductive finish := Finalized (fs : list (wall * final_line)) (out : string) | LeftStaged (ns : list (wall * note)) (staging : string).

Definition finish_lines (last : wall) (fin : finish) : list string :=
  match fin with
  | Finalized fs out => map (fun f => log_line f.1 (final_text f.2)) fs ++ [ending_line last (final_ending out fs.*2)]
  | LeftStaged ns staging => map (fun n => log_line n.1 (note_text n.2)) ns ++ [ending_line last (Interrupted staging)]
  end.

Definition main_log (notes : list (wall * note)) (done last : wall) (st : runStats) (fin : finish) : list string :=
  map (fun n => log_line n.1 (note_text n.2)) notes ++ [log_line done (complete_text st)] ++ finish_lines last fin.
