(* ===== verification/MonitorLog.v ===== *)
(** What cmd/monitor makes of the log of a DNS fetch: every line that matters is
    read back exactly, and the shard that is shown as current is the right one. *)

From S2P Require Import Prelude GoStd Regexp Float Partition Dnsfetch Monitor.

(** ** Time stamps *)

Lemma two_chars s f : String.length s = 2%nat -> str_forallb f s = true ->
  exists a b, s = String a (String b "") /\ f a = true /\ f b = true.
Proof.
  destruct s as [|a [|b [|]]]; try discriminate. intros _. cbn. rewrite andb_true_r. intros [Ha Hb]%andb_prop. by exists a, b.
Qed.

Lemma pad2 n : 0 <= n < 100 -> exists a b, pad_int 2 n = String a (String b "") /\ is_digit a = true /\ is_digit b = true.
Proof. intros Hn. apply two_chars; [apply pad_int_length; lia|apply pad_digits; lia]. Qed.

Lemma pad4 n : 0 <= n < 10000 ->
  exists a b c d, pad_int 4 n = String a (String b (String c (String d ""))) /\
    is_digit a = true /\ is_digit b = true /\ is_digit c = true /\ is_digit d = true.
Proof.
  intros Hn. pose proof (pad_int_length 4 n ltac:(lia)) as Hl. pose proof (pad_digits 4 n ltac:(lia)) as Hd.
  destruct (pad_int 4 n) as [|a [|b s]]; try discriminate Hl. cbn in Hd, Hl. apply andb_prop in Hd as [Ha [Hb Hd]%andb_prop].
  destruct (two_chars s is_digit ltac:(lia) Hd) as (c & d & -> & Hc & Hd'). by exists a, b, c, d.
Qed.

Lemma wall_bounds w : wall_ok w = true ->
  0 <= w_year w < 10000 /\ 0 <= w_month w < 100 /\ 0 <= w_day w < 100 /\ 0 <= w_hour w < 100 /\ 0 <= w_minute w < 100 /\ 0 <= w_second w < 100.
Proof.
  unfold wall_ok, month_days. rewrite !andb_true_iff, !Z.leb_le, !Z.ltb_lt.
  intros H. assert (w_day w <= 31) by (destruct (w_month w =? 2); [destruct (leap _)|destruct (_ || _)]; lia). lia.
Qed.

Lemma stamp_read w : wall_ok w = true -> String.length (stamp w) = 19%nat /\ parse_stamp (stamp w) = Some w.
Proof.
  intros Hw. destruct (wall_bounds w Hw) as (Hy & Hmo & Hd & Hh & Hmi & Hs).
  destruct (pad4 _ Hy) as (y1 & y2 & y3 & y4 & Ey & ? & ? & ? & ?).
  destruct (pad2 _ Hmo) as (m1 & m2 & Em & ? & ?). destruct (pad2 _ Hd) as (d1 & d2 & Ed & ? & ?).
  destruct (pad2 _ Hh) as (h1 & h2 & Eh & ? & ?). destruct (pad2 _ Hmi) as (i1 & i2 & Ei & ? & ?).
  destruct (pad2 _ Hs) as (s1 & s2 & Es & ? & ?).
  assert (E : stamp w = String y1 (String y2 (String y3 (String y4 (String "/" (String m1 (String m2 (String "/" (String d1 (String d2
    (String " " (String h1 (String h2 (String ":" (String i1 (String i2 (String ":" (String s1 (String s2 ""))))))))))))))))))).
  { unfold stamp. by rewrite Ey, Em, Ed, Eh, Ei, Es. }
  rewrite E. split; [done|]. unfold parse_stamp.
  assert (match_here re_stamp (stamp w) = Some []) as Em'.
  { rewrite E. cbn [re_stamp app]. repeat first [rewrite match_one by done | rewrite match_lit1]. done. }
  rewrite <- E, Em'. unfold field. rewrite E. cbn [substring].
  rewrite <- Ey, <- Em, <- Ed, <- Eh, <- Ei, <- Es, !pad_int_val by lia. 
  assert (mkWall (w_year w) (w_month w) (w_day w) (w_hour w) (w_minute w) (w_second w) = w) as -> by (by destruct w). by rewrite Hw.
Qed.

(** A stamp has none of the letters that begin a marker. *)
Lemma stamp_skip c w : wall_ok w = true -> is_digit c = false -> c <> "/"%char -> c <> ":"%char -> c <> " "%char ->
  str_forallb (no_char c) (stamp w +:+ " ") = true.
Proof.
  intros Hw Hc H1 H2 H3. destruct (wall_bounds w Hw) as (Hy & Hmo & Hd & Hh & Hmi & Hs).
  assert (Hp : forall k n, 0 <= n -> str_forallb (no_char c) (pad_int k n) = true).
  { intros k n Hn. eapply str_forallb_impl; [|by apply pad_digits]. intros d Hd'. unfold no_char.
    destruct (Ascii.eqb_spec d c) as [->|]; [congruence|done]. }
  assert (Ho : forall d, d <> c -> str_forallb (no_char c) (String d "") = true).
  { intros d Hd'. cbn. rewrite andb_true_r. unfold no_char. by rewrite (proj2 (Ascii.eqb_neq d c) Hd'). }
  unfold stamp. rewrite !str_forallb_app, !andb_true_iff. split_and!; first [apply Hp; lia|apply Ho; congruence].
Qed.

(** ** Lines *)

(** What a line can say that the monitor reacts to. *)
Definition markers : list string := ["metrics:"; "feed:"; "complete: total="; "finalized:"; "shutting down"].

Definition quiet_text (text : string) : Prop := forall m, m ∈ markers -> contains text m = false.

Lemma contains_skip c m a s : str_forallb (no_char c) a = true -> contains (a +:+ s) (String c m) = contains s (String c m).
Proof.
  intros Ha. induction a as [|d a IH]; [done|]. cbn [str_forallb String.append contains] in *. apply andb_prop in Ha as [Hd Ha].
  rewrite prefix_cons, (IH Ha). unfold no_char in Hd. apply negb_true_iff in Hd. by rewrite Ascii.eqb_sym, Hd.
Qed.

Lemma contains_line w text m : wall_ok w = true -> m ∈ markers -> contains (log_line w text) m = contains text m.
Proof.
  intros Hw Hm. unfold log_line. rewrite <- str_app_assoc.
  unfold markers in Hm. set_unfold in Hm.
  destruct Hm as [->|[->|[->|[->|[->|[]]]]]]; apply contains_skip, stamp_skip; done.
Qed.

Lemma find_line c r w text : wall_ok w = true -> begins c r -> is_digit c = false -> c <> "/"%char -> c <> ":"%char -> c <> " "%char ->
  find r (log_line w text) = find r text.
Proof. intros. unfold log_line. rewrite <- str_app_assoc. apply (find_skip c); [done|]. by apply stamp_skip. Qed.

Lemma parse_int_dec n : 0 <= n <= max_int64 -> parse_int (dec n) = n.
Proof.
  intros Hn. unfold parse_int. destruct (String.eqb_spec (dec n) "") as [E|_]; [by apply dec_nonempty in E; [|lia]|].
  rewrite dec_val_dec by lia. lia.
Qed.

Lemma dec_least n : 0 <= n -> (1 <= String.length (dec n))%nat.
Proof. intros Hn. pose proof (dec_nonempty n Hn). destruct (dec n); [done|cbn; lia]. Qed.

Lemma match_dec r n rest m : 0 <= n -> stops is_digit rest -> match_here r rest = Some m ->
  match_here (digits1 :: r) (dec n +:+ rest) = Some (dec n :: m).
Proof. intros Hn Hs Hm. apply (match_many true 1 is_digit); [by apply dec_digits|by apply dec_least|done..]. Qed.

(** The first word of a text. *)
Fixpoint word (s : string) : string :=
  match s with String c s' => if not_space c then String c (word s') else "" | "" => "" end.

Lemma word_split s : exists rest, s = (word s +:+ rest)%string /\ str_forallb not_space (word s) = true /\ stops not_space rest.
Proof.
  induction s as [|c s (rest & E & Hw & Hs)]; [by exists ""|]. cbn [word]. destruct (not_space c) eqn:Hc.
  - exists rest. cbn. rewrite Hc. by rewrite <- E.
  - by exists (String c s).
Qed.

(** The counters of a run are within an int64. *)
Definition stats_ok (st : runStats) : Prop :=
  Forall (fun n => 0 <= n <= max_int64) [st_done st; st_ok st; st_nxd st; st_timeouts st; st_errs st].

Lemma metrics_match st elapsed cb :
  stats_ok st -> non_negative (fdiv (of_int (st_done st)) elapsed) = true -> word cb <> "" ->
  match_here reMetrics (metrics_text st elapsed cb) =
    Some [dec (st_done st); fixed 1 (fdiv (of_int (st_done st)) elapsed); dec (st_ok st); dec (st_nxd st);
          dec (st_timeouts st); dec (st_errs st); word cb].
Proof.
  intros Hst Hr Hcb. unfold stats_ok in Hst. rewrite !Forall_cons in Hst. destruct Hst as (H1 & H2 & H3 & H4 & H5 & _).
  unfold metrics_text, reMetrics. set (rate := fdiv _ elapsed) in *.
  rewrite match_lit. apply match_dec; [lia|done|].
  rewrite match_lit. apply (match_many true 1 (digit_or ".")); [by apply fixed_class|by apply fixed_nonempty|done|].
  rewrite match_lit. apply match_dec; [lia|done|]. rewrite match_lit. apply match_dec; [lia|done|].
  rewrite match_lit. apply match_dec; [lia|done|]. rewrite match_lit. apply match_dec; [lia|done|].
  rewrite match_lit. change ("%) cb=" +:+ cb)%string with ("%" +:+ (") cb=" +:+ cb))%string. rewrite <- str_app_assoc.
  apply (match_many false 1 (no_char ")")); [apply forallb_app; [apply fixed_no_paren|done]|rewrite str_length_app; cbn; lia|done|].
  rewrite match_lit. destruct (word_split cb) as (rest & E & Hw & Hs). rewrite E at 1.
  apply (match_many true 1 not_space); [done| |done|done]. destruct (word cb); [done|cbn; lia].
Qed.

(** ** The effect of a line *)

Section Lines.

Variable zone : wall -> Z.

(** What a note tells. *)
Definition told (sh : shardState) (n : wall * note) : shardState :=
  match n.2 with
  | Tick st elapsed cb =>
      mkShard (sh_key sh) (sh_total sh) (st_done st) (parse_float (fixed 1 (fdiv (of_int (st_done st)) elapsed))) (st_ok st)
        (st_nxd st) (st_timeouts st) (st_errs st) (word cb) (sh_status sh) (zone n.1)
  | Fed _ fed _ => if sh_total sh =? 0 then set_total fed sh else sh
  | Signal => set_status "interrupted" sh
  | Other _ => sh
  end.

(** A shard's key is a path of two names without blanks and colons. *)
Definition plain_key (k : shard) : Prop :=
  str_forallb not_space (shard_string k) = true /\ str_forallb (no_char ":") (shard_string k) = true /\ shard_string k <> "".

Definition note_ok (n : wall * note) : Prop :=
  wall_ok n.1 = true /\
  match n.2 with
  | Tick st elapsed cb => stats_ok st /\ non_negative (fdiv (of_int (st_done st)) elapsed) = true /\ word cb <> ""
  | Fed k fed skip => plain_key k /\ 0 <= fed <= max_int64 /\ 0 <= skip
  | Signal => True
  | Other text => quiet_text text
  end.

Lemma marker_1 : "metrics:" ∈ markers. Proof. unfold markers; set_solver. Qed.
Lemma marker_2 : "feed:" ∈ markers. Proof. unfold markers; set_solver. Qed.
Lemma marker_3 : "complete: total=" ∈ markers. Proof. unfold markers; set_solver. Qed.
Lemma marker_4 : "finalized:" ∈ markers. Proof. unfold markers; set_solver. Qed.
Lemma marker_5 : "shutting down" ∈ markers. Proof. unfold markers; set_solver. Qed.

Lemma parse_quiet sh line : quiet_text line -> parse_line zone sh line = sh.
Proof. intros H. unfold parse_line. by rewrite !H by first [apply marker_1|apply marker_2|apply marker_3|apply marker_4|apply marker_5]. Qed.

Lemma quiet_line w text : wall_ok w = true -> quiet_text text -> quiet_text (log_line w text).
Proof. intros Hw H m Hm. by rewrite contains_line, H. Qed.

Lemma tick_line sh w st elapsed cb : note_ok (w, Tick st elapsed cb) ->
  parse_line zone sh (log_line w (metrics_text st elapsed cb)) = told sh (w, Tick st elapsed cb).
Proof.
  intros (Hw & Hst & Hr & Hcb). cbn [fst snd] in *. unfold parse_line. rewrite contains_line by (done || apply marker_1).
  assert (contains (metrics_text st elapsed cb) "metrics:" = true) as -> by apply (contains_here "metrics:").
  destruct (stamp_read w Hw) as [Hl Hp]. unfold metrics_time, log_line at 1. rewrite str_length_app, Hl. cbn [Nat.add Nat.leb].
  rewrite <- Hl at 1. unfold log_line at 1. rewrite substring_0_app, Hp. unfold metrics_fields.
  rewrite (find_line "m") by done. rewrite (find_here _ _ _ (metrics_match st elapsed cb Hst Hr Hcb)).
  unfold stats_ok in Hst. rewrite !Forall_cons in Hst. destruct Hst as (H1 & H2 & H3 & H4 & H5 & _).
  rewrite !parse_int_dec by done. done.
Qed.

Lemma feed_match k fed skip : plain_key k -> 0 <= fed ->
  match_here reFeed (feed_text k fed skip) = Some [dec fed].
Proof.
  intros (H1 & _ & H3) Hf. unfold feed_text, reFeed. rewrite match_lit.
  apply (match_many false 1 not_space); [done|destruct (shard_string k); [done|cbn; lia]|done|].
  rewrite match_lit. apply match_dec; [done|done|].
  change (" domains queued (skip=" +:+ dec skip +:+ ")")%string with (" domains queued" +:+ (" (skip=" +:+ dec skip +:+ ")"))%string.
  by rewrite match_lit.
Qed.

Lemma dec_no_char c z : 0 <= z -> is_digit c = false -> str_forallb (no_char c) (dec z) = true.
Proof.
  intros Hz Hc. eapply str_forallb_impl; [|by apply dec_digits]. intros d Hd. unfold no_char.
  destruct (Ascii.eqb_spec d c) as [->|]; [congruence|done].
Qed.

(** A word without a colon, between words: no marker of one word. *)
Lemma feed_no_metrics k fed skip : plain_key k -> 0 <= fed -> 0 <= skip -> contains (feed_text k fed skip) "metrics:" = false.
Proof.
  intros (_ & H2 & _) Hf Hk. unfold feed_text.
  change ("feed: " +:+ shard_string k +:+ " → " +:+ ?x)%string with ("feed:" +:+ String " " (shard_string k +:+ String " " ("→ " +:+ x)))%string.
  rewrite contains_sep, contains_sep by done. rewrite (contains_missing ":" (shard_string k)) by done.
  change ("→ " +:+ ?x)%string with ("→" +:+ String " " x)%string. rewrite contains_sep by done.
  change (" domains queued (skip=" +:+ dec skip +:+ ")")%string with (String " " ("domains queued (skip=" +:+ dec skip +:+ ")"))%string.
  rewrite contains_sep by done. rewrite (contains_missing ":" (dec fed)) by (apply dec_no_char || done; done).
  change ("domains queued (skip=" +:+ ?x)%string with ("domains queued" +:+ String " " ("(skip=" +:+ x))%string.
  rewrite contains_sep by done. rewrite (contains_missing ":" ("(skip=" +:+ dec skip +:+ ")")); [done| |done].
  by rewrite !str_forallb_app, dec_no_char.
Qed.

Lemma feed_line sh w k fed skip : note_ok (w, Fed k fed skip) ->
  parse_line zone sh (log_line w (feed_text k fed skip)) = told sh (w, Fed k fed skip).
Proof.
  intros (Hw & Hk & Hf & Hsk). cbn [fst snd] in *. unfold parse_line. rewrite !contains_line by first [done|apply marker_1|apply marker_2].
  rewrite feed_no_metrics by (done || lia). assert (contains (feed_text k fed skip) "feed:" = true) as -> by apply (contains_here "feed:").
  unfold told. cbn [fst snd]. destruct (_ =? 0); [|done]. rewrite (find_line "f") by done.
  rewrite (find_here _ _ _ (feed_match k fed skip Hk (proj1 Hf))). by rewrite parse_int_dec.
Qed.

Lemma signal_line sh w : wall_ok w = true -> parse_line zone sh (log_line w "shutting down…") = set_status "interrupted" sh.
Proof. intros Hw. unfold parse_line. by rewrite !contains_line by first [done|apply marker_1|apply marker_2|apply marker_3|apply marker_4|apply marker_5]. Qed.

Lemma note_line sh n : note_ok n -> parse_line zone sh (log_line n.1 (note_text n.2)) = told sh n.
Proof.
  destruct n as [w [st elapsed cb|k fed skip| |text]]; intros H.
  - by apply tick_line.
  - by apply feed_line.
  - apply signal_line, H.
  - destruct H as [Hw Ht]. by apply parse_quiet, quiet_line.
Qed.

Lemma complete_line sh w st : wall_ok w = true -> stats_ok st ->
  parse_line zone sh (log_line w (complete_text st)) = set_done (st_done st) (set_status "complete" sh).
Proof.
  intros Hw Hst. pose proof Hst as Hst'. unfold stats_ok in Hst. rewrite !Forall_cons in Hst. destruct Hst as (H1 & H2 & H3 & H4 & H5 & _).
  assert (Hn : forall c, c = "s"%char \/ c = "f"%char -> str_forallb (no_char c) (complete_text st) = true).
  { intros c [-> | ->]; unfold complete_text; rewrite !str_forallb_app, !dec_no_char by (done || lia); done. }
  unfold parse_line. rewrite !contains_line by first [done|apply marker_1|apply marker_2|apply marker_3].
  rewrite (contains_missing "s" _ "metrics:") by (try apply Hn; auto).
  rewrite (contains_missing "f" _ "feed:") by (try apply Hn; auto).
  assert (contains (complete_text st) "complete: total=" = true) as -> by apply (contains_here "complete: total=").
  rewrite (find_line "c") by done.
  assert (match_here reComplete (complete_text st) = Some [dec (st_done st)]) as E.
  { unfold reComplete, complete_text. rewrite match_lit. apply match_dec; [lia|done|done]. }
  by rewrite (find_here _ _ _ E), parse_int_dec.
Qed.

(** The end of a log says what it is meant to say, and nothing else. *)
Definition ending_ok (e : ending) : Prop :=
  match e with
  | Moved _ => forall m, m ∈ ["metrics:"; "feed:"; "complete: total="] -> contains (ending_text e) m = false
  | _ => quiet_text (ending_text e)
  end.

Definition ended (e : ending) (sh : shardState) : shardState :=
  match e with Moved _ => set_status "finalized" sh | _ => sh end.

Lemma end_line sh w e : wall_ok w = true -> ending_ok e -> parse_line zone sh (ending_line w e) = ended e sh.
Proof.
  intros Hw He. destruct e as [out|err|staging]; cbn [ending_ok ending_line ended] in *.
  - unfold parse_line. rewrite !contains_line by first [done|apply marker_1|apply marker_2|apply marker_3|apply marker_4].
    rewrite !He by set_solver. by rewrite (contains_here "finalized:" (" staged DBs moved to " +:+ out) : contains (ending_text (Moved out)) "finalized:" = true).
  - by apply parse_quiet, quiet_line.
  - by apply parse_quiet.
Qed.

(** A moved database sets the status; a failed move says nothing. *)
Definition told_final (sh : shardState) (f : wall * final_line) : shardState :=
  match f.2 with
  | DBMoved _ _ => set_status "finalized" sh
  | FlushFailed _ _ | MkdirFailed _ _ | CopyFailed _ _ => sh
  | Meanwhile n => told sh (f.1, n)
  end.

Definition final_ok (f : wall * final_line) : Prop :=
  wall_ok f.1 = true /\
  match f.2 with
  | DBMoved _ _ => forall m, m ∈ ["metrics:"; "feed:"; "complete: total="] -> contains (final_text f.2) m = false
  | FlushFailed _ _ | MkdirFailed _ _ | CopyFailed _ _ => quiet_text (final_text f.2)
  | Meanwhile n => note_ok (f.1, n)
  end.

Definition finish_ok (fin : finish) : Prop :=
  match fin with
  | Finalized fs out => Forall final_ok fs /\ ending_ok (final_ending out fs.*2)
  | LeftStaged ns staging => Forall note_ok ns /\ ending_ok (Interrupted staging)
  end.

(** What the last lines of the run tell. *)
Definition finished (sh : shardState) (fin : finish) : shardState :=
  match fin with
  | Finalized fs out => ended (final_ending out fs.*2) (foldl told_final sh fs)
  | LeftStaged ns _ => foldl told sh ns
  end.

Lemma final_line_read sh f : final_ok f -> parse_line zone sh (log_line f.1 (final_text f.2)) = told_final sh f.
Proof.
  intros [Hw Hf]. destruct f as [w [src dst|k err|dst err|k err|n]]; cbn [fst snd] in *;
    [|by apply parse_quiet, quiet_line..|by apply (note_line sh (w, n))].
  unfold parse_line. rewrite !contains_line by first [done|apply marker_1|apply marker_2|apply marker_3|apply marker_4].
  rewrite !Hf by set_solver.
  by rewrite (contains_here "finalized:" (" " +:+ src +:+ " → " +:+ dst) : contains (final_text (DBMoved src dst)) "finalized:" = true).
Qed.

Lemma read_notes sh notes : Forall note_ok notes ->
  foldl (parse_line zone) sh (map (fun n => log_line n.1 (note_text n.2)) notes) = foldl told sh notes.
Proof. intros Hn. revert sh. induction Hn as [|n notes H _ IH]; intros sh; [done|]. cbn [map foldl]. by rewrite note_line, IH. Qed.

Lemma read_finals sh fs : Forall final_ok fs ->
  foldl (parse_line zone) sh (map (fun f => log_line f.1 (final_text f.2)) fs) = foldl told_final sh fs.
Proof. intros Hn. revert sh. induction Hn as [|n notes H _ IH]; intros sh; [done|]. cbn [map foldl]. by rewrite final_line_read, IH. Qed.

Lemma read_main_log sh notes done last st fin :
  Forall note_ok notes -> wall_ok done = true -> wall_ok last = true -> stats_ok st -> finish_ok fin ->
  foldl (parse_line zone) sh (main_log notes done last st fin) =
    finished (set_done (st_done st) (set_status "complete" (foldl told sh notes))) fin.
Proof.
  intros Hn Hd Hl Hst Hf. unfold main_log. rewrite !foldl_app, read_notes by assumption. cbn [foldl app].
  rewrite complete_line by assumption. destruct fin as [fs out|ns staging]; destruct Hf as [Hf He]; cbn [finish_lines finished];
    rewrite foldl_app; [rewrite read_finals by assumption|rewrite read_notes by assumption]; cbn [foldl]; by rewrite end_line.
Qed.

End Lines.

(** ** Files *)

Definition line_ok (line : string) : Prop :=
  str_forallb (no_char "010") line = true /\ str_forallb (no_char "013") line = true /\ Z.of_nat (String.length line) < max_line.

Definition unlines (ls : list string) : string := foldr (fun l t => l +:+ String "010" t) "" ls.

Lemma string_list_app a b : String.list_ascii_of_string (a +:+ b) = String.list_ascii_of_string a ++ String.list_ascii_of_string b.
Proof. induction a as [|c a IH]; [done|]. cbn. by rewrite IH. Qed.

Lemma scan_run line rest cur :
  str_forallb (no_char "010") line = true ->
  scan_lines (line +:+ rest) cur = scan_lines rest (rev (String.list_ascii_of_string line) ++ cur).
Proof.
  revert cur. induction line as [|c line IH]; intros cur; [done|]. cbn [str_forallb String.append scan_lines]. intros [Hc Hl]%andb_prop.
  unfold no_char in Hc. apply negb_true_iff in Hc. rewrite Hc, IH by done. cbn [String.list_ascii_of_string rev]. by rewrite <- app_assoc.
Qed.

Lemma length_list_ascii s : length (String.list_ascii_of_string s) = String.length s.
Proof. induction s as [|c s IH]; [done|]. cbn. by rewrite IH. Qed.

Lemma token_line line : str_forallb (no_char "013") line = true -> token (rev (String.list_ascii_of_string line)) = line.
Proof.
  intros Hl. unfold token. assert (drop_last_cr (rev (String.list_ascii_of_string line)) = rev (String.list_ascii_of_string line)) as ->.
  { assert (Hn : ("013"%char : ascii) ∉ rev (String.list_ascii_of_string line)).
    { rewrite list_elem_of_In, <- in_rev. intros Hin. induction line as [|c line IH]; [done|]. cbn in Hl, Hin.
      apply andb_prop in Hl as [Hc Hl]. destruct Hin as [->|Hin]; [discriminate Hc|by apply IH]. }
    destruct (rev _) as [|c l]; [done|]. unfold drop_last_cr. rewrite not_elem_of_cons in Hn. destruct Hn as [Hc _].
    destruct c as [[] [] [] [] [] [] [] []]; done. }
  by rewrite rev_involutive, String.string_of_list_ascii_of_string.
Qed.

Lemma scan_unlines ls : Forall line_ok ls -> scan_lines (unlines ls) [] = ls.
Proof.
  induction 1 as [|l ls (H1 & H2 & H3) _ IH]; [done|]. cbn [unlines foldr]. fold (unlines ls). rewrite scan_run by done.
  cbn [scan_lines]. rewrite app_nil_r, Ascii.eqb_refl, length_rev, length_list_ascii.
  destruct (Z.ltb_spec max_line (Z.of_nat (String.length l) + 1)); [lia|]. by rewrite token_line, IH.
Qed.

(** ** The current shard *)

Section Current.

Variable zone : wall -> Z.
Variable read_log : string -> option string.
Variable mtime : string -> Z.

Lemma latest_spec counts at_ l i best bt :
  (latest counts at_ i l best bt = best /\ forall sh, sh ∈ l -> counts sh = true -> at_ sh <= bt) \/
  (exists j sh, latest counts at_ i l best bt = Some (i + j)%nat /\ l !! j = Some sh /\ counts sh = true /\ bt < at_ sh /\
     forall sh', sh' ∈ l -> counts sh' = true -> at_ sh' <= at_ sh).
Proof.
  revert i best bt. induction l as [|x l IH]; intros i best bt; cbn [latest]; [left; split; [done|]; by intros ? ?%not_elem_of_nil|].
  destruct (counts x && (bt <? at_ x)) eqn:E.
  - apply andb_prop in E as [Hc Hb%Z.ltb_lt]. right. destruct (IH (S i) (Some i) (at_ x)) as [[-> Ha]|(j & sh & -> & Hj & Hcs & Hlt & Ha)].
    + exists O, x. rewrite Nat.add_0_r. split_and!; try done. intros sh' [->|Hin]%elem_of_cons Hc'; [lia|by apply Ha].
    + exists (S j), sh. rewrite Nat.add_succ_r. split_and!; try done; [lia|]. intros sh' [->|Hin]%elem_of_cons Hc'; [lia|by apply Ha].
  - assert (Hx : counts x = true -> at_ x <= bt) by (intros Hc; rewrite Hc in E; cbn in E; apply Z.ltb_ge in E; lia).
    destruct (IH (S i) best bt) as [[-> Ha]|(j & sh & -> & Hj & Hcs & Hlt & Ha)].
    + left. split; [done|]. intros sh' [->|Hin]%elem_of_cons Hc'; [by apply Hx|by apply Ha].
    + right. exists (S j), sh. rewrite Nat.add_succ_r. split_and!; try done. intros sh' [->|Hin]%elem_of_cons Hc'; [|by apply Ha].
      specialize (Hx Hc'). lia.
Qed.

Lemma split_none i l h : split_current i None l h = (None, rev (map stopped l) ++ h).
Proof.
  revert i h. induction l as [|x l IH]; intros i h; [done|]. cbn [split_current]. rewrite bool_decide_eq_false_2 by done.
  rewrite IH. cbn [map rev]. by rewrite <- app_assoc.
Qed.

Lemma split_past i b l h : (b < i)%nat -> split_current i (Some b) l h = (None, rev (map stopped l) ++ h).
Proof.
  revert i h. induction l as [|x l IH]; intros i h Hb; [done|]. cbn [split_current].
  rewrite bool_decide_eq_false_2 by (intros [= ->]; lia). rewrite IH by lia. cbn [map rev]. by rewrite <- app_assoc.
Qed.

Lemma split_some i j l h sh : l !! j = Some sh ->
  split_current i (Some (i + j)%nat) l h = (Some sh, rev (map stopped (delete j l)) ++ h).
Proof.
  revert i j h. induction l as [|x l IH]; intros i j h Hj; [done|]. cbn [split_current]. destruct j as [|j].
  - injection Hj as ->. rewrite bool_decide_eq_true_2 by (f_equal; lia). by rewrite split_past by lia.
  - rewrite bool_decide_eq_false_2 by (intros [=]; lia). rewrite Nat.add_succ_r, <- Nat.add_succ_l.
    rewrite (IH (S i) j _ Hj). cbn [delete list_delete map rev]. by rewrite <- app_assoc.
Qed.

Lemma stopped_not_running sh : running (stopped sh) = false.
Proof. unfold stopped. destruct (running sh) eqn:E; [done|done]. Qed.

(** The time stamp of the log of a shard. *)
Definition touched_at (sh : shardState) : Z := mtime (log_name (sh_key sh)).

(** [sh] is the shard to show among [parsed]: it runs, and no running shard has a
    later metrics line; without any metrics line, no running shard has a log that
    was written to later. *)
Definition is_current (parsed : list shardState) (sh : shardState) : Prop :=
  running sh = true /\
  ((zero_time < sh_lastMetricAt sh /\ forall x, x ∈ parsed -> running x = true -> sh_lastMetricAt x <= sh_lastMetricAt sh) \/
   ((forall x, x ∈ parsed -> running x = true -> sh_lastMetricAt x <= zero_time) /\
    zero_time < touched_at sh /\ forall x, x ∈ parsed -> running x = true -> touched_at x <= touched_at sh)).

Lemma pick_spec parsed :
  match pick mtime parsed with
  | Some i => exists sh, parsed !! i = Some sh /\ is_current parsed sh
  | None => forall x, x ∈ parsed -> running x = true -> sh_lastMetricAt x <= zero_time /\ touched_at x <= zero_time
  end.
Proof.
  unfold pick. set (timed := fun sh => running sh && negb (sh_lastMetricAt sh =? zero_time)).
  assert (Ht : forall t (P : Prop), zero_time <= t -> (forall x, x ∈ parsed -> timed x = true -> sh_lastMetricAt x <= t) ->
    forall x, x ∈ parsed -> running x = true -> sh_lastMetricAt x <= t).
  { intros t _ Hz H x Hx Hr. destruct (Z.eqb_spec (sh_lastMetricAt x) zero_time) as [->|Hne]; [done|].
    apply H; [done|]. unfold timed. by rewrite Hr, (proj2 (Z.eqb_neq _ _) Hne). }
  destruct (latest_spec timed sh_lastMetricAt parsed 0 None zero_time) as [[-> Ha]|(j & sh & -> & Hj & Hc & Hlt & Ha)].
  - assert (Hz : forall x, x ∈ parsed -> running x = true -> sh_lastMetricAt x <= zero_time) by (apply (Ht _ True); [lia|done]).
    destruct (latest_spec running touched_at parsed 0 None zero_time) as [[E Hb]|(j & sh & E & Hj & Hc & Hlt & Hb)];
      unfold touched_at at 1 in E; rewrite E.
    + intros x Hx Hr. split; [by apply Hz|by apply Hb].
    + exists sh. split; [done|]. split; [done|]. right. by split_and!.
  - exists sh. split; [done|]. unfold timed in Hc. apply andb_prop in Hc as [Hr _]. split; [done|]. left. split; [done|].
    apply (Ht _ True); [lia|done].
Qed.

End Current.

(** ** Properties *)

(** C29. The monitor reads a fetcher's log exactly as it was written: for every
    sequence of metrics ticks, feed lines, a signal and unrelated lines, then the
    totals, and then either the lines of finalizeAll (a database moved, or a step of
    a move failed, with ticks or a signal in between) and the outcome they make, or
    the end of an interrupted run, the state parsed from the file is the one those
    lines tell in order: the counters and the rate (to its printed decimal) of the
    last tick, the first non-zero feed count, the total of the totals line unless a
    later tick counts again, and the status of the last line that sets one, which is
    "finalized" as soon as one database was moved. *)
Theorem shard_log_read_back (zone : wall -> Z) (notes : list (wall * note)) (done last : wall) (st : runStats) (fin : finish)
  (Hnotes : Forall note_ok notes) (Hdone : wall_ok done = true) (Hlast : wall_ok last = true) (Hst : stats_ok st) (Hfin : finish_ok fin)
  (Hlines : Forall line_ok (main_log notes done last st fin)) :
  parseShardLogFile zone (Some (unlines (main_log notes done last st fin))) =
    finished zone (set_done (st_done st) (set_status "complete" (foldl (told zone) new_shard notes))) fin.
Proof. unfold parseShardLogFile, file_lines. rewrite scan_unlines by assumption. by apply read_main_log. Qed.

(** Of the shards of the runner's log at most one is shown as current: a
    running one whose metrics line, or, when none has one, whose log file is the
    latest. All others are the history, the last started first, and none of them
    is shown as running. *)
Theorem current_shard_latest (zone : wall -> Z) (read_log : string -> option string) (mtime : string -> Z) (runner : option string) :
  let parsed := map (shard_of zone read_log) (parseRunnerLog runner) in
  let '(current, history) := parseShardLogs zone read_log mtime runner in
  Forall (fun sh => running sh = false) history /\
  match current with
  | Some sh => is_current mtime parsed sh /\ exists i, parsed !! i = Some sh /\ history = rev (map stopped (delete i parsed))
  | None => history = rev (map stopped parsed) /\
      forall x, x ∈ parsed -> running x = true -> sh_lastMetricAt x <= zero_time /\ touched_at mtime x <= zero_time
  end.
Proof.
  cbv zeta. unfold parseShardLogs. set (parsed := map _ _).
  assert (Hrun : forall l, Forall (fun sh => running sh = false) (rev (map stopped l))).
  { intros l. apply Forall_rev, Forall_forall. intros sh. rewrite list_elem_of_In, in_map_iff. intros (x & <- & _). apply stopped_not_running. }
  pose proof (pick_spec mtime parsed) as Hp. destruct (pick mtime parsed) as [i|].
  - destruct Hp as (sh & Hi & Hc). pose proof (split_some 0 i parsed [] sh Hi) as E. cbn [Nat.add] in E. rewrite E, app_nil_r. split; [apply Hrun|]. split; [done|]. by exists i.
  - rewrite split_none, app_nil_r. split; [apply Hrun|done].
Qed.

(** The runner's log: an entry per shard, the first mention first. *)
Lemma runner_keys_unique f : NoDup (map re_key (parseRunnerLog f)).
Proof.
  unfold parseRunnerLog. assert (Hs : forall key upd l, (forall e, re_key (upd e) = key) -> NoDup (map re_key l) ->
    NoDup (map re_key (set_entry key upd l)) /\ forall k, k ∈ map re_key (set_entry key upd l) -> k = key \/ k ∈ map re_key l).
  { intros key upd l Hu. induction l as [|e l IH]; cbn [set_entry map].
    - intros _. rewrite Hu. split; [apply NoDup_singleton|]. intros k ->%list_elem_of_singleton. by left.
    - intros [He Hl]%NoDup_cons. destruct (String.eqb_spec (re_key e) key) as [E|Hne]; cbn [map].
      + rewrite Hu, <- E. split; [by apply NoDup_cons|]. intros k [->|Hk]%elem_of_cons; [by left|right; by right].
      + destruct (IH Hl) as [Hnd Hin]. split.
        * apply NoDup_cons. split; [|done]. intros [Hk|Hk]%Hin; [done|by apply He].
        * intros k [->|Hk]%elem_of_cons; [right; by left|]. destruct (Hin k Hk); [by left|right; by right]. }
  assert (Hf : forall ls l, NoDup (map re_key l) -> NoDup (map re_key (foldl runner_line l ls))).
  { induction ls as [|x ls IH]; intros l Hl; [done|]. cbn [foldl]. apply IH. unfold runner_line.
    destruct (find reRunnerStart x) as [[|a [|b [|]]]|]; try (by apply Hs); (destruct (find reRunnerDone x) as [[|k [|]]|]; [done|by apply Hs|done..]). }
  apply Hf. constructor.
Qed.

(** ** Findings *)

Definition noon : wall := mkWall 2026 1 2 12 0 0.

(** An interrupted run is shown as complete: main logs "complete: total=" also
    after a signal, and that line overrides the status "interrupted". *)
Lemma interrupted_shown_complete :
  let log := main_log [(noon, Tick (mkStats 10 8 1 1 0) (of_int 2) "ok(0.0%err)"); (noon, Signal)] noon noon (mkStats 12 9 1 1 1)
    (LeftStaged [] "staging") in
  sh_status (parseShardLogFile (fun _ => 1) (Some (unlines log))) = "complete" /\
  sh_done (parseShardLogFile (fun _ => 1) (Some (unlines log))) = 12.
Proof. vm_compute. done. Qed.

(** A run whose second database could not be moved is shown as finalized: the line of
    the first one is taken for the end of the run. *)
Lemma partial_move_shown_finalized :
  let log := main_log [] noon noon (mkStats 2 2 0 0 0)
    (Finalized [(noon, DBMoved "staging/com/q.db" "out/com/q.db"); (noon, FlushFailed ("com", "x") "disk full")] "out") in
  sh_status (parseShardLogFile (fun _ => 1) (Some (unlines log))) = "finalized".
Proof. vm_compute. done. Qed.

(** A tripped circuit breaker is shown cut at its first blank. *)
Lemma tripped_state_cut now :
  word (cb_state now (mkBreaker 3 10 [] 0 0 true (now + 30))) = "TRIPPED(resume".
Proof. unfold cb_state. cbn [cb_tripped]. reflexivity. Qed.

(** ** Witnesses *)

Definition demo_notes : list (wall * note) :=
  [(noon, Other "found 1 shard files"); (noon, Tick (mkStats 10 8 1 1 0) (of_int 4) "ok(0.0%err)"); (noon, Fed ("com", "q") 12 0)].

Lemma demo_quiet : quiet_text "found 1 shard files".
Proof. intros m. unfold markers. rewrite !elem_of_cons, elem_of_nil. intros [->|[->|[->|[->|[->|[]]]]]]; reflexivity. Qed.

(** Ten names in four seconds, then the end: one database is moved, and a tick comes
    while the second one cannot be. *)
Definition demo_finish : finish :=
  Finalized [(noon, DBMoved "staging/com/q.db" "out/com/q.db"); (noon, Meanwhile (Tick (mkStats 12 9 2 1 0) (of_int 4) "ok(0.0%err)"));
             (noon, CopyFailed ("com", "x") "disk full")] "out".

Lemma shard_log_read_back_witness :
  let log := main_log demo_notes noon noon (mkStats 12 9 2 1 0) demo_finish in
  let sh := parseShardLogFile (fun _ => 7) (Some (unlines log)) in
  sh = finished (fun _ => 7) (set_done 12 (set_status "complete" (foldl (told (fun _ => 7)) new_shard demo_notes))) demo_finish /\
  sh_status sh = "finalized" /\ sh_total sh = 12 /\ sh_rate sh = of_int 3.
Proof.
  cbv zeta. split; [|vm_compute; done].
  apply (shard_log_read_back (fun _ => 7) demo_notes noon noon (mkStats 12 9 2 1 0) demo_finish).
  - unfold demo_notes. repeat apply Forall_cons_2; [..|apply Forall_nil_2]; (split; [reflexivity|]); cbn [snd].
    + apply demo_quiet.
    + split; [by repeat constructor|]. split; [reflexivity|discriminate].
    + split; [by split_and!|by split_and!].
  - reflexivity.
  - reflexivity.
  - by repeat constructor.
  - split; [repeat apply Forall_cons_2; [..|apply Forall_nil_2]; (split; [reflexivity|]); cbn [fst snd]|].
    + intros m. rewrite !elem_of_cons, elem_of_nil. intros [->|[->|[->|[]]]]; reflexivity.
    + split; [reflexivity|]. split; [by repeat constructor|]. split; [reflexivity|discriminate].
    + intros m. unfold markers. rewrite !elem_of_cons, elem_of_nil. intros [->|[->|[->|[->|[->|[]]]]]]; reflexivity.
    + intros m. unfold markers. rewrite !elem_of_cons, elem_of_nil. intros [->|[->|[->|[->|[->|[]]]]]]; reflexivity.
  - repeat apply Forall_cons_2; [..|apply Forall_nil_2]; vm_compute; done.
Defined.
