(* ===== verification/MonitorPanels.v ===== *)
(** The other panels of cmd/monitor: an ingestion is shown as its server logged
    it, the log runs in the order of the panel, and numbers with their commas. *)

From S2P Require Import Prelude GoStd Regexp Float Partition Sql Progress LogClient Leaf Metrics Monitor MonitorLog.
From Stdlib Require Import Sorting.Sorted.

(** ** The metrics line *)

Lemma pad_no_char c k n : is_digit c = false -> c <> "-"%char -> str_forallb (no_char c) (pad_int k n) = true.
Proof.
  intros Hc Hm. assert (Hd : forall z, 0 <= z -> str_forallb (no_char c) (pad_int k z) = true).
  { intros z Hz. eapply str_forallb_impl; [|by apply pad_digits]. intros d Hd. unfold no_char.
    destruct (Ascii.eqb_spec d c) as [->|]; [congruence|done]. }
  destruct (Z.leb_spec 0 n); [by apply Hd|]. specialize (Hd (- n) ltac:(lia)). unfold pad_int in *.
  rewrite Z.abs_opp in Hd. destruct (Z.ltb_spec n 0); [|lia]. destruct (Z.ltb_spec (- n) 0); [lia|].
  cbn [String.append str_forallb] in *. rewrite Hd, andb_true_r. unfold no_char. destruct (Ascii.eqb_spec "-" c); [congruence|done].
Qed.

Lemma time_no_bracket t : str_forallb (no_char "]") (format_time t) = true.
Proof.
  unfold format_time, format_date. destruct (civil_from_days _) as [[y m] d].
  rewrite !str_forallb_app, !pad_no_char by done. done.
Qed.

Lemma time_nonempty t : (1 <= String.length (format_time t))%nat.
Proof. unfold format_time. rewrite !str_length_app. cbn. lia. Qed.

Lemma rev_string_app a b : str_rev (a +:+ b) = (str_rev b +:+ str_rev a)%string.
Proof.
  unfold str_rev. rewrite string_list_app, rev_app_distr. generalize (rev (String.list_ascii_of_string b)).
  intros l. induction l as [|c l IH]; [done|]. cbn. by rewrite IH.
Qed.

Lemma rev_string_involutive s : str_rev (str_rev s) = s.
Proof. unfold str_rev. by rewrite String.list_ascii_of_string_of_list_ascii, rev_involutive, String.string_of_list_ascii_of_string. Qed.

(** Nothing to trim between a first and a last character that are no spaces. *)
Lemma trim_space_id a s b : is_space a = false -> is_space b = false -> trim_space (String a (s +:+ String b "")) = String a (s +:+ String b "").
Proof.
  intros Ha Hb. unfold trim_space. cbn [trim_left]. rewrite Ha. change (String a (s +:+ String b ""))%string with (String a s +:+ String b "")%string.
  rewrite rev_string_app. change (str_rev (String b "")) with (String b ""). cbn [String.append trim_left]. rewrite Hb.
  change (String b (str_rev (String a s))) with (str_rev (String b "") +:+ str_rev (String a s))%string.
  by rewrite <- rev_string_app, rev_string_involutive.
Qed.

(** A text on one line that does not begin with a blank. *)
Definition plain_text (s : string) : Prop :=
  str_forallb any s = true /\ exists c t, s = String c t /\ is_space c = false.

Lemma class_plain s : str_forallb (digit_or ".") s = true -> (1 <= String.length s)%nat -> plain_text s.
Proof.
  intros Hs Hl.
  assert (Hc : forall c, digit_or "." c = true -> any c = true /\ is_space c = false).
  { intros c. unfold digit_or, is_digit, any, no_char, is_space. destruct (Ascii.eqb_spec c ".") as [->|_]; [done|]. rewrite orb_false_r.
    intros Hd. destruct c as [[] [] [] [] [] [] [] []]; try discriminate Hd; done. }
  split; [eapply str_forallb_impl; [|done]; intros c H; by apply Hc|]. destruct s as [|c t]; [cbn in Hl; lia|]. exists c, t. split; [done|].
  cbn in Hs. apply andb_prop in Hs as [H _]. by apply Hc.
Qed.

Lemma plain_sign c s : any c = true -> is_space c = false -> plain_text s -> plain_text (String c s).
Proof. intros H1 H2 [H _]. split; [cbn; by rewrite H1|]. by exists c, s. Qed.

Lemma fixed_plain n x : plain_text (fixed n x).
Proof.
  assert (Hd : forall q, 0 <= q -> plain_text (decimals n q)) by (intros q Hq; apply class_plain; [by apply decimals_class|by apply decimals_nonempty]).
  destruct x as [[]|[]| |[] m e]; cbn [fixed String.append].
  - apply plain_sign; [done..|]. by apply Hd.
  - by apply Hd.
  - split; [done|]. by eexists _, _.
  - split; [done|]. by eexists _, _.
  - split; [done|]. by eexists _, _.
  - apply plain_sign; [done..|]. apply Hd, scaled_nonneg.
  - apply Hd, scaled_nonneg.
Qed.

(** A size in text: a number, a blank and a unit that ends in B. *)
Lemma size_text n text : int64_range n -> 0 <= n -> formatBytes n = Ok text ->
  trim_space text = text /\ str_forallb any text = true /\ (1 <= String.length text)%nat.
Proof.
  intros Hr Hn Ht.
  assert (Hshape : exists num u, text = (num +:+ (u +:+ "B"))%string /\ plain_text num /\ str_forallb any u = true).
  { destruct (formatBytes_unit n Hr) as [[_ E]|(k & u & Hk & Hu & Hk5 & E)]; rewrite E in Ht; injection Ht as <-.
    - exists (dec n), " ". split_and!; [done| |done]. apply class_plain; [|by apply dec_least].
      eapply str_forallb_impl; [|by apply dec_digits]. intros c Hc. unfold digit_or. by rewrite Hc.
    - exists (fixed 1 (fdiv (of_int n) (of_int (1024 ^ (k + 1))))), (" " +:+ u +:+ "i")%string.
      split_and!; [by rewrite !str_app_assoc|apply fixed_plain|].
      apply list_elem_of_lookup_2 in Hu. unfold formatBytes_units in Hu. rewrite !elem_of_cons, elem_of_nil in Hu.
      by destruct Hu as [->|[->|[->|[->|[->|[->|[]]]]]]]. }
  destruct Hshape as (num & u & -> & [Hnum (c & t & -> & Hc)] & Hu). split_and!.
  - rewrite <- str_app_assoc. cbn [String.append]. by apply trim_space_id.
  - apply forallb_app; [done|]. by apply forallb_app.
  - cbn. lia.
Qed.

Lemma last_metrics_snoc ls l : has_prefix l "[metrics " = true -> last_metrics (ls ++ [l]) = l.
Proof. intros H. unfold last_metrics. rewrite foldl_app. cbn. by rewrite H. Qed.

(** ** Properties *)

(** The panel of an ingestion shows the last snapshot that the server appended to
    ingestion.log: its counters, its coverage to the six printed decimals, its
    size and its time, whatever the log has before it. *)
Theorem ingestion_panel_reads_snapshot (before : list string) (resp : CheckResponse) (line size : string) (st : option ingestionState)
  (Htree : 0 <= cr_TreeSize resp <= max_int64) (Hn : 0 <= cr_TotalProcessed resp <= max_int64)
  (Hbytes : 0 <= cr_DbBytesTotal resp <= max_int64) (Hpct : non_negative (cr_CoveragePct resp) = true)
  (Hsize : formatBytes (cr_DbBytesTotal resp) = Ok size) (Hline : metrics_line resp = Ok line)
  (Hlines : Forall line_ok (before ++ [line])) :
  ingestionPanel_Update (Some (unlines (before ++ [line]))) st =
    Some (mkIngState (cr_TreeSize resp) (cr_TotalProcessed resp) (parse_float (fixed 6 (cr_CoveragePct resp))) size
            (format_time (cr_UpdatedAt resp))).
Proof.
  unfold metrics_line in Hline. rewrite Hsize in Hline.
  match type of Hline with Ok ?t = _ => assert (line = t) as -> by congruence end. clear Hline.
  unfold ingestionPanel_Update, file_lines. rewrite scan_unlines by done.
  rewrite last_metrics_snoc by apply (prefix_app "[metrics ").
  destruct (size_text (cr_DbBytesTotal resp) size) as (Htrim & Hany & Hlen); [split; unfold min_int64 in *; lia|lia|done|].
  assert (E : match_here reIngestionLine ("[metrics " +:+ format_time (cr_UpdatedAt resp) +:+ "] tree=" +:+ dec (cr_TreeSize resp) +:+
          " processed=" +:+ dec (cr_TotalProcessed resp) +:+ " coverage=" +:+ fixed 6 (cr_CoveragePct resp) +:+ "% db_total=" +:+ size)%string =
     Some [format_time (cr_UpdatedAt resp); dec (cr_TreeSize resp); dec (cr_TotalProcessed resp); fixed 6 (cr_CoveragePct resp); size]).
  { unfold reIngestionLine. rewrite match_lit. apply (match_many true 1 (no_char "]")); [apply time_no_bracket|apply time_nonempty|done|].
    rewrite match_lit. apply match_dec; [lia|done|]. rewrite match_lit. apply match_dec; [lia|done|].
    rewrite match_lit. apply (match_many true 1 (digit_or ".")); [by apply fixed_class|by apply fixed_nonempty|done|].
    rewrite match_lit. rewrite <- (str_app_nil_r size) at 1. by apply (match_many true 1 any). }
  rewrite (find_here _ _ _ E), !parse_int_dec by done. by rewrite Htrim.
Qed.

(** ** The log runs *)

Definition run_le (a b : LogRun) : Prop := run_less b a = false.

Lemma sort_runs_perm l : sort_runs l ≡ₚ l.
Proof.
  assert (Hi : forall r l, insert_stable r l ≡ₚ r :: l).
  { intros r l'. induction l' as [|x l' IH]; [done|]. cbn [insert_stable]. destruct (run_less x r); [|done].
    rewrite IH. apply perm_swap. }
  unfold sort_runs. induction l as [|r l IH]; [done|]. cbn [foldr]. by rewrite Hi, IH.
Qed.

Lemma ltb_asym a b : String.ltb a b = true -> String.ltb b a = false.
Proof. unfold String.ltb. rewrite (String.compare_antisym a b). by destruct (String.compare b a). Qed.

Lemma run_less_asym a b : run_less a b = true -> run_less b a = false.
Proof.
  unfold run_less. destruct (NextEntryIdx a <? _), (NextEntryIdx b <? _); cbn [Bool.eqb]; try done;
    destruct (String.eqb_spec (LR_Operator a) (LR_Operator b)) as [->|Hne];
    rewrite ?String.eqb_refl; try apply ltb_asym;
    rewrite (proj2 (String.eqb_neq _ _) (not_eq_sym Hne)); apply ltb_asym.
Qed.

Lemma insert_sorted r l : LocallySorted run_le l -> LocallySorted run_le (insert_stable r l).
Proof.
  assert (Hcons : forall x l, LocallySorted run_le l -> (match l with [] => True | y :: _ => run_le x y end) -> LocallySorted run_le (x :: l)).
  { intros x [|y l'] H1 H2; by constructor. }
  induction 1 as [|x|x y l Hl IH Hxy]; cbn [insert_stable].
  - constructor.
  - destruct (run_less x r) eqn:E; apply Hcons; try constructor; [|done]. by apply run_less_asym.
  - destruct (run_less x r) eqn:E.
    + apply Hcons; [exact IH|]. cbn [insert_stable]. destruct (run_less y r); [done|]. by apply run_less_asym.
    + apply Hcons; [by constructor|done].
Qed.

(** The panel lists every run once, and no run right after one that it is less than. *)
Theorem sort_runs_sorted (l : list LogRun) : sort_runs l ≡ₚ l /\ LocallySorted run_le (sort_runs l).
Proof.
  split; [apply sort_runs_perm|]. unfold sort_runs. induction l as [|r l IH]; [constructor|]. by apply insert_sorted.
Qed.

(** ** Numbers *)

Definition no_commas (s : string) : string :=
  String.string_of_list_ascii (List.filter (no_char ",") (String.list_ascii_of_string s)).

Lemma groups_digits s k : str_forallb (no_char ",") s = true -> no_commas (comma_groups s k) = s.
Proof.
  revert k. induction s as [|c s IH]; intros k; [done|]. cbn [str_forallb]. intros [Hc Hs]%andb_prop.
  destruct k as [|k]; cbn [comma_groups]; unfold no_commas; cbn; rewrite Hc; cbn; f_equal; apply (IH _ Hs).
Qed.

(** Reading from the end: the digits before a comma or the end come in threes. *)
Fixpoint in_threes (s : string) (k : nat) : bool :=
  match s with
  | "" => (k =? 0)%nat
  | String "," s => (k =? 0)%nat && negb (String.eqb s "") && in_threes s 3
  | String _ s => match k with O => false | S k => in_threes s k end
  end.

Lemma groups_in_threes s k : str_forallb (no_char ",") s = true -> (String.length s mod 3 = k mod 3)%nat -> (k <= String.length s)%nat ->
  in_threes (comma_groups s k) k = true.
Proof.
  revert k. induction s as [|c s IH]; intros k; cbn [str_forallb String.length].
  - intros _ _ Hk. assert (k = O) as -> by lia. done.
  - intros [Hc Hs]%andb_prop Hm Hk. unfold no_char in Hc. destruct (Ascii.eqb_spec c ",") as [|Hne]; [done|].
    assert (Hd : forall n t, in_threes (String c t) (S n) = in_threes t n).
    { intros n t. destruct c as [[] [] [] [] [] [] [] []]; try done. }
    destruct k as [|k]; cbn [comma_groups].
    + cbn [in_threes]. change (in_threes (String c (comma_groups s 2)) 3 = true). rewrite Hd. apply IH; [done|..].
      * change (2 mod 3)%nat with 2%nat. change (0 mod 3)%nat with 0%nat in Hm.
        pose proof (Nat.Div0.add_mod 1 (String.length s) 3) as Ha. cbn [Nat.add] in Ha.
        pose proof (Nat.mod_upper_bound (String.length s) 3 ltac:(lia)). rewrite Hm in Ha.
        destruct (String.length s mod 3)%nat as [|[|[|]]]; cbn in Ha; lia.
      * destruct (String.length s) as [|[|n]]; [discriminate Hm|discriminate Hm|lia].
    + rewrite Hd. apply IH; [done| |lia].
      pose proof (Nat.Div0.add_mod 1 (String.length s) 3) as Ha. pose proof (Nat.Div0.add_mod 1 k 3) as Hb. cbn [Nat.add] in Ha, Hb.
      rewrite Ha, Hb in Hm. pose proof (Nat.mod_upper_bound (String.length s) 3 ltac:(lia)). pose proof (Nat.mod_upper_bound k 3 ltac:(lia)).
      destruct (String.length s mod 3)%nat as [|[|[|]]], (k mod 3)%nat as [|[|[|]]]; cbn in Hm; lia.
Qed.

(** CommaSep writes the decimals of a count, with a comma before every group of
    three but the first, which has one to three digits. *)
Theorem comma_sep_groups (n : Z) (Hn : 0 <= n) :
  no_commas (CommaSep n) = dec n /\ exists first, (1 <= first <= 3)%nat /\ in_threes (CommaSep n) first = true.
Proof.
  assert (Hd : str_forallb (no_char ",") (dec n) = true) by by apply dec_no_char.
  pose proof (dec_least n Hn) as Hl. unfold CommaSep. destruct (Nat.leb_spec (String.length (dec n)) 3) as [H3|H3].
  - split.
    + rewrite <- (groups_digits (dec n) 3 Hd) at 2. destruct (dec n) as [|a [|b [|c [|d t]]]]; cbn in H3; try lia; done.
    + exists (String.length (dec n)). split; [lia|]. pose proof (groups_in_threes (dec n) (String.length (dec n)) Hd eq_refl ltac:(lia)) as H.
      destruct (dec n) as [|a [|b [|c [|d t]]]]; cbn in H3; try lia; done.
  - split; [by apply groups_digits|]. pose proof (Nat.mod_upper_bound (String.length (dec n)) 3 ltac:(lia)).
    eexists. split; [|apply groups_in_threes; [done| |]]; destruct (String.length (dec n) mod 3)%nat as [|[|[|]]] eqn:E; try lia; done.
Qed.

(** A bar has as many cells as it is wide, for every share that is a number and
    not negative: ProgressBar does not panic, even beyond 100%. *)
Theorem progress_bar_cells (int_overflow : float64 -> Z) (pct : float64) (w : Z)
  (Hw : 0 <= w) (Hpct : non_negative (fdiv (fmul (of_int w) pct) (of_int 100)) = true)
  (Hint : round_away (fdiv (fmul (of_int w) pct) (of_int 100)) <= max_int64) :
  exists full, (full <= Z.to_nat w)%nat /\
    ProgressBar int_overflow pct w =
      Ok (Green +:+ repeat_string "█" full +:+ Gray +:+ repeat_string "░" (Z.to_nat w - full) +:+ Reset).
Proof.
  unfold ProgressBar. set (x := fdiv _ (of_int 100)) in *.
  assert (Hx : 0 <= round_away x).
  { destruct x as [| | |[] m e]; try done. cbn [round_away]. destruct (Z.leb_spec 0 e).
    - assert (0 < 2 ^ e) by (apply Z.pow_pos_nonneg; lia). lia.
    - assert (0 < 2 ^ - e) by (apply Z.pow_pos_nonneg; lia). apply Z.div_pos; lia. }
  assert (to_int int_overflow x = round_away x) as ->.
  { unfold to_int. assert ((min_int64 <=? round_away x) && (round_away x <=? max_int64) = true) as -> by (unfold min_int64; lia).
    by destruct x as [| | |]. }
  destruct (Z.ltb_spec (Z.min (round_away x) w) 0); [lia|]. destruct (Z.ltb_spec (w - Z.min (round_away x) w) 0); [lia|]. cbn [orb].
  exists (Z.to_nat (Z.min (round_away x) w)). split; [lia|]. repeat f_equal. lia.
Qed.

(** ** Findings *)

(** A negative number of three digits gets a comma after its sign. *)
Lemma comma_after_sign : CommaSep (-123) = "-,123".
Proof. reflexivity. Qed.

(** The width of a header counts the bytes of its first rule: it is narrower than
    the screen. *)
Lemma header_too_narrow : Header "T" 20 = Bold +:+ Cyan +:+ "── T " +:+ repeat_string "─" 10 +:+ Reset.
Proof. reflexivity. Qed.

(** ** Witnesses *)

Definition demo_snapshot : CheckResponse :=
  mkCheckResponse 1700000000 [] 1536 50 200 (fmul (fdiv (of_int 50) (of_int 200)) (of_int 100)).

Lemma ingestion_panel_reads_snapshot_witness :
  let line := "[metrics 2023-11-14T22:13:20Z] tree=200 processed=50 coverage=25.000000% db_total=1.5 KiB" in
  ingestionPanel_Update (Some (unlines (["restarted"] ++ [line]))) None =
    Some (mkIngState 200 50 (parse_float (fixed 6 (cr_CoveragePct demo_snapshot))) "1.5 KiB" "2023-11-14T22:13:20Z").
Proof.
  cbv zeta. apply (ingestion_panel_reads_snapshot ["restarted"] demo_snapshot
    "[metrics 2023-11-14T22:13:20Z] tree=200 processed=50 coverage=25.000000% db_total=1.5 KiB" "1.5 KiB" None).
  - unfold max_int64; cbn; lia.
  - unfold max_int64; cbn; lia.
  - unfold max_int64; cbn; lia.
  - vm_compute; reflexivity.
  - vm_compute; reflexivity.
  - vm_compute; reflexivity.
  - repeat apply Forall_cons_2; [..|apply Forall_nil_2]; vm_compute; done.
Defined.
